(* ===== verification/_CoqProject ===== *)
-Q . S2P
Prelude.v
GoStrings.v
NetIP.v
GoFloat.v
TargetQueue.v
GoRegexp.v
GoURL.v
ServiceMap.v
Target.v
Http.v
Redirects.v
Rollout.v
ErrorPages.v
Buffers.v
Endpoints.v
LoadBalancer.v
Drain.v
Retry.v
Deadlines.v
HeaderRules.v
TargetProxy.v
TokenBucket.v
ClientAddr.v
RateLimit.v
BasicAuth.v
Tracing.v
PauseController.v
IdleController.v
ServiceIdle.v
Quarantine.v
CertPlan.v
DomainFailure.v
Holds.v
SanCerts.v
Handshake.v
CertStore.v
CertArchive.v
CertBackup.v
CertImport.v
HealthCheck.v
Compression.v
CompressWriter.v
AccessLog.v
CachePolicy.v
CacheLease.v
LruIndex.v
CacheStoreMemory.v
CacheStoreFile.v
CacheMiddleware.v
CacheStoreRedis.v
SvcOptions.v
DomainIssuer.v
DynamicDomains.v
DomainRenewal.v
DynamicRedirects.v
Service.v
ServiceState.v
Pipeline.v
OnDemand.v
Router.v
StateFile.v
