(* ===== verification/Prelude.v ===== *)
(** * Verification of dash-proxy

    dash-proxy is an HTTP proxy for zero-downtime deployments.  It routes a
    request to a service by host and path, checks it at the gates of the
    service, answers it from a response cache or places it on one of the
    service's targets, with retries, timeouts, pauses and scale to zero in
    between; it deploys, drains and persists its services, and on the side it
    obtains certificates for the domains it serves.  This library models the
    parts of it that decide something, from the Go sources under
    [src/internal/server], and proves what makes them correct.

    A request takes this way through the files: [Router.routeRequest] finds the
    service in the table of [ServiceMap]; [Pipeline.serviceRequestWithTarget]
    takes it past the gates ([ClientAddr], [Redirects], [RateLimit],
    [BasicAuth], [PauseController]); [CacheMiddleware] answers it or lets it
    go on; [Pipeline.sendRequestToTarget] wakes the service where it sleeps
    ([ServiceIdle], [IdleController]) and hands it to the [LoadBalancer] of its
    rollout group ([Rollout]), which claims a [Target], under [Retry] and
    [Deadlines]; [TargetProxy] writes the request the target sees.  A deploy
    ([Router.DeployService]) validates the options ([SvcOptions]), waits for
    the health of the new targets ([HealthCheck]), installs them, drains the
    ones it replaced ([Drain]) and saves the state ([ServiceState],
    [StateFile]).

    A TLS handshake goes another way: [Handshake] looks for a certificate in the
    manager of [SanCerts] and otherwise orders one, for the names [CertPlan]
    puts together and [Quarantine] does not hold back.  Names that services
    report themselves come in through [DynamicDomains] and are ordered in the
    background by [DomainIssuer]; what a refusal means is read by
    [DomainFailure].

    ** Files

    The prelude and the language:
    - [Prelude]: results, machine integers ([wrap64]), durations, sums, sorting
      by an unspecified algorithm ([SortFunc]), the shared tactics and hints.
    - [GoStrings]: the parts of [strings], [strconv], [slices] and [net] used.
    - [NetIP]: addresses and prefixes as [net/netip] parses and compares them.
    - [GoFloat]: the rounding of [float64] that quantities of the program meet.
    - [GoRegexp]: the interface of [regexp] the path rules use, its expansion
      of replacements included.
    - [GoURL]: [net/url]: parsing, escaping, the escaped path, rendering.
    - [Http]: header maps, requests, response writers, as [net/http] has them.

    The components, each with its data, its operations, its theorems, and a
    module of witnesses and examples at its end:
    - [ServiceMap] ([service_map.go]): the derived table implements the abstract
      routing function, whatever order Go ranges its maps in; installing
      detects exactly the conflicts; services below a root inherit its TLS
      settings.
    - [Target] ([target.go], [target_weight.go], [target_pool.go]): smooth
      weighted round-robin is fair over a cycle and bounded; saved target specs
      parse back.
    - [Redirects] ([redirect_rules.go], [redirect_map.go],
      [redirectURLIfNeeded] of [service.go]): redirects stay on the origin.
    - [Rollout] ([rollout_controller.go]): the share of clients, exactly.
    - [ErrorPages] ([error_page_middleware.go],
      [error_intercept_middleware.go]): every refusal is answered once.
    - [Buffers] ([buffer.go], [request_buffer_middleware.go],
      [response_buffer_middleware.go]): bodies held in memory and spilled to a
      file; buffering changes nothing but the time, unless the response begins
      with early hints.
    - [Endpoints] ([refresh_nudge.go], [dynamic_domains_handler.go],
      [dynamic_redirects_handler.go], [ping_handler.go]): the paths the proxy
      answers itself.
    - [TargetQueue] ([target_queue.go]): the minute of queue times of a target;
      the ring refines the list of what was observed, its sum, its maximum and
      its buckets included.
    - [LoadBalancer] ([load_balancer.go], [session_affinity.go]): roles,
      fairness, the wait for health after a wake under any interleaving of its
      critical sections ([LB.step]), session pins, writer affinity.
    - [Drain] ([Target.Drain]): a drain interleaved with requests and health
      checks ([drain_step]) ends, and leaves nothing running behind.
    - [Retry] ([retry.go], [handleProxyError]): at most one target answers; the
      loop ends within a stated number of rounds.
    - [Deadlines] ([path_timeouts.go], [request_deadline_middleware.go]) and
      [HeaderRules] ([header_rules.go]).
    - [TargetProxy] ([rewrite], [forwardHeaders], [targetResponseWriter] of
      [target.go], the request id and start headers): what the target is sent.
    - [TokenBucket] ([token_bucket.go]), [ClientAddr] ([ip_allow_list.go],
      [deny_list.go], [client_ip_middleware.go]), [RateLimit] ([rate_limit.go]),
      [BasicAuth] ([basic_auth.go]): the gates.  An address cannot be forged; a
      limiter that sweeps refines one that never forgets; a credential reads
      back and is the only one that passes.
    - [Tracing] ([trace_context.go]): the [traceparent] header; [AccessLog]
      ([server_timing.go], [target_queue_trace.go], [logging_middleware.go]): what
      is measured of a request, and the line that is logged of it.
    - [PauseController] ([pause_controller.go]).
    - [IdleController] ([idle_controller.go]) and [ServiceIdle]
      ([service_idle.go], [BeginRequest]).  The goroutines that stop and start
      containers are jobs of a transition system ([idle_step]) interleaved with
      requests, deploys and the timer.
    - [Quarantine] ([domain_quarantine.go]), [HealthCheck] ([health_check.go]),
      [Compression] ([compression.go]) and [CompressWriter]
      ([compression_middleware.go]): what is encoded for whom, and the writer
      that does it while the response streams.
    - [CertPlan] ([domain_group.go], [san_cert_zones.go],
      [san_cert_issuance.go], [dynamic_wildcard.go], [acme/mapping.go]): which
      identifiers are ordered for which names; no plan loses a name, and every
      order is one that some solver can answer.
    - [DomainFailure] ([domain_failure.go]): whom a refused order blames.
    - [Holds]: exclusive ownership of names by goroutines, used below.
    - [SanCerts] ([san_cert_manager.go], [san_cert_dynamic.go],
      [san_cert_directories.go], [san_cert_batch_guard.go]) and [Handshake]
      ([GetCertificate], [provisionCertificate]): the manager's state and
      operations, and the batches of handshakes interleaved with everything
      else that changes it ([san_step]); what is served covers what was asked.
    - [CertStore] ([validateManagerState], [writeCertificateFiles], loading and
      saving of [san_cert_manager.go]): the state file and the pairs on disk, the
      writes as operations that can stop anywhere ([cut_short]).
    - [CertArchive] ([cert_store_archive.go]): what a backup that is accepted is
      like ([read_trusted]); [CertBackup] ([cert_store_export.go],
      [cert_store_restore.go]): what was exported is restored, and no restore
      leaves a state without its certificates.
    - [CertImport] ([traefik_import.go], [san_cert_import.go]): certificates of
      another proxy and of an old version; the merged store stays trustworthy.
    - [DomainIssuer] ([domain_issuer.go]): the queue, the runner, the goroutines
      of the batches and the renewals that borrow from the queue, interleaved
      step by step ([issuer_step]); ownership is exclusive ([issuer_ok]), every
      request wakes the runner, failures are bounded ([potential]).
    - [DomainRenewal] ([domain_renewal.go]): the renewer, interleaved with
      everybody else ([renew_step]); no working certificate goes without a
      successor, and for the issuer it is one of its renewals.
    - [DynamicDomains] ([dynamic_domains.go], [domain_source.go],
      [source_poller.go], [dynamic_domain_state.go], [domain_release.go]): the
      lists of domains that services report, the shrink guard, ETags, the sweep.
    - [DynamicRedirects] ([dynamic_redirects.go], [dynamic_redirect_state.go],
      [source_poller.go]): the redirects that services report, with the pollers,
      deployments, removals and restarts interleaved ([redirect_step]); what a
      service redirects by was heard for it from a source of its own, and no 304
      is taken for an answer about another list.
    - [CachePolicy] ([cache_options.go], [cache_policy.go], [cache_vary.go],
      [cache_encoding.go], [cache_entry.go], [cache_variant.go]): what may be
      stored, which requests share a key, which entry answers which request,
      and for how long.
    - [CacheLease] ([cache_lease.go]): the options, outcomes and the breaker of
      the cross-node single flight.
    - [LruIndex]: the books both stores keep.
    - [CacheStoreMemory] ([cache_store_memory.go]): the LRU store keeps its
      budget and its books, and refines the unbounded map.
    - [CacheStoreFile] ([cache_store_file.go]): entries in files, with reads,
      writes, damage and restarts interleaved ([file_step]); a restart finds what
      is still of use, and what is answered was kept, whole, but for what others
      put into the directory ([shared_run]).
    - [CacheMiddleware] ([cache_middleware.go], [cache_middleware_lease.go],
      [cache_response_writer.go], [cache_inflight.go]): requests, refreshes and
      store operations as interleaved tasks ([cache_step]); the store is used
      through the class [CacheStore] and its laws, of which the in-process
      store is an instance.
    - [CacheStoreRedis] ([cache_store.go], [cache_store_redis.go],
      [cache_store_redis_lease.go], [cache_store_redis_stats.go]): the store a
      fleet shares, with the commands of its proxies, purges, losses and other
      clients interleaved ([fleet_step]); one proxy at a time holds a lease, and
      what is answered was stored and still lives.
    - [SvcOptions] and [Service] ([service.go], [service_options_validation.go],
      [service_cache.go]): the options, their validation, and the service with
      every operation on it; validated options resolve to working gates.
    - [ServiceState] ([MarshalJSON], [UnmarshalJSON] of [service.go]): a saved
      service reads back.
    - [Pipeline] ([serviceRequestWithTarget], [sendRequestToTarget]): the order
      of the gates, and what a request that passes them satisfies.
    - [OnDemand] ([tls_on_demand.go]): the host policy of certificates for hosts
      nobody configured.
    - [Router] ([router.go], [router_idle.go], [target_metrics.go]): deploys,
      rollouts, removals and restarts over the whole state, as a transition
      system ([router_step]) with an invariant ([router_ok]).
    - [StateFile] ([util.go], saving and restoring in [router.go]): writes that
      fail or stop between any two steps, and the backup.  A power cut
      ([power_loss]) keeps the bytes that were synced and a state the directory
      has had since it last reached the disk, which the program never asks for.

    ** How the code is modelled

    A Go string is its bytes ([string]); case folding is ASCII.  An [int] or a
    duration that cannot leave its range under the stated hypotheses is a [Z];
    where the code can overflow, the arithmetic wraps ([wrap64]) or saturates
    ([time_sub]) as Go's does.  A time is a number of nanoseconds and every
    reading of the clock is an argument.  A Go map is a [gmap]; where the order
    of ranging matters, the order is an argument.  An error is a value of a
    [result] or an [option]; a panic is [None].  A channel is a number, closed
    or not; a mutex makes an operation one step.  Where an operation releases
    its lock in between, it is split into steps of a relation, so that every
    interleaving is covered.  Logging, metrics and tracing are left out.

    Parameters, with what is assumed of them where a theorem needs it: the sort
    of [slices.SortFunc] ([SortFuncSpec]: a sorted permutation), floating point
    qualities ([Float64], [Float64Spec]), the reading of a decimal number, matching of regular expressions
    ([Regexp], [RegexpSpec]), the encoders of a response, what decodes them and
    content sniffing ([ResponseEncoders], [ResponseEncodersSpec]: what an encoder
    puts out decodes to what it was given), the Redis server ([Redis], [RedisSpec]: its
    commands as documented, each at one moment of its clock), the limiter of [golang.org/x/time/rate]
    ([RateLimiter] and its laws), SHA-256 (64 hex digits, no collision on the
    two inputs compared), the random bytes of a new trace, the digest of a session pin, [encoding/json] on the
    state ([StateCodec], [StateCodecSpec]: it reads back what it wrote), the
    files of the host a service reads when it is built ([HostFiles]); key pairs,
    certificates and account keys ([Crypto]), [encoding/json] on the state of the
    certificate manager ([StoreJSON], [StoreJSONSpec]: what was decoded is decoded
    again), the size of a tar header ([TarFormat]), the PEM blocks and the Traefik
    file that are imported;
    the public suffix list ([PublicSuffix], [PublicSuffixSpec]: the registered
    domain of a name is the name or a parent of it); reading the time out of a
    rate limit ([retry_after_in]); what a source lists for an ETag it hands out
    ([source_of], which the source is honest about).  The DNS provider of a
    zone, what a probe of a name answers, and what the certificate authority
    answers are arguments of the steps.

    ** Fuel and bounds

    The eviction loop of the store runs with the length of its list as fuel,
    one element per iteration ([evict_spec] shows the budget is met).  The
    retry loop and the waiting loops consume lists of what the environment
    answers; [retry_terminates] gives the length that is always enough and
    [BeginRequest_decides] the round that always decides; [drain_terminates]
    counts the statements of a drain.  The token bucket's [Take] consumes the
    delays of its timers; one is enough when nobody races it.  The refusals an
    issuer can meet are bounded by a potential of its queue and its batches
    ([issuer_failures_bounded]).  The comparison of the shrink guard is in
    [float64]; it is shown to be the exact one up to a thousand names
    ([overThreshold_exact]).  Everything else is structurally recursive.

    ** Not modelled, and next

    The checks of an export's output path against the file system, the connection
    of the ACME and DNS clients and their accounts, the connection to Redis, the Docker socket, listeners, the
    PROXY protocol, RPC, the command line, metrics and page
    templates are I/O or third-party code and are left out; so is the loop of
    [httputil.ReverseProxy], but for the copy of the request it prepares
    ([prepareOut] in [TargetProxy]).
    Commands about one service are taken one after the other where a theorem
    says so ([serial] in [DynamicRedirects]).  Next would come a disk below the certificate store that loses
    what was not synced, as [StateFile] has it. *)
From Stdlib Require Export ZArith Lia Sorting.Sorted Sorting.Permutation.
From Stdlib Require Export Ascii String.
From stdpp Require Export base decidable option list numbers strings gmap sets relations sorting.

#[export] Set Default Goal Selector "!".

(** ** Scopes and notation

    [Z] is the type of every Go integer ([int], [int64], [time.Duration]); the
    notations below live in their own scope so that importing the prelude does
    not change how arithmetic is read elsewhere. *)
Declare Scope go_scope.
Delimit Scope go_scope with go.
#[global] Open Scope string_scope.
#[global] Open Scope list_scope.
#[global] Open Scope Z_scope.

(** A Go call that returns [(T, error)]: a value or an error. *)
Inductive result (E A : Type) : Type :=
| Ok (a : A)
| Err (e : E).
Arguments Ok {E A} _.
Arguments Err {E A} _.

#[export] Instance result_eq_dec {E A} `{!EqDecision E, !EqDecision A} :
  EqDecision (result E A).
Proof. solve_decision. Defined.
#[export] Instance result_ret {E} : MRet (result E) := λ A a, Ok a.
#[export] Instance result_bind {E} : MBind (result E) := λ A B f m,
  match m with Ok a => f a | Err e => Err e end.
#[export] Instance result_fmap {E} : FMap (result E) := λ A B f m,
  match m with Ok a => Ok (f a) | Err e => Err e end.

Definition is_ok {E A} (r : result E A) : bool :=
  match r with Ok _ => true | Err _ => false end.

(** [guard_err b e]: the code's [if !b { return e }]. *)
Definition guard_err {E} (b : bool) (e : E) : result E unit :=
  if b then Ok tt else Err e.

(** A loop that stops at the first error, as [for _, x := range xs] with an
    early [return err] does. *)
Fixpoint mapM_result {E A B} (f : A → result E B) (l : list A) : result E (list B) :=
  match l with
  | [] => Ok []
  | x :: l => y ← f x; ys ← mapM_result f l; Ok (y :: ys)
  end.

(** ** Machine integers *)

Definition int64_min : Z := - 2 ^ 63.
Definition int64_max : Z := 2 ^ 63 - 1.
Definition in_int64 (z : Z) : Prop := int64_min ≤ z ≤ int64_max.

(** Two's complement wrap-around, what Go does on [+], [-] and [*] of [int64]. *)
Definition wrap64 (z : Z) : Z := (z + 2 ^ 63) mod 2 ^ 64 - 2 ^ 63.

Lemma wrap64_id z : in_int64 z → wrap64 z = z.
Proof.
  unfold in_int64, int64_min, int64_max, wrap64. intros H.
  rewrite Z.mod_small by lia. lia.
Qed.

Lemma wrap64_range z : in_int64 (wrap64 z).
Proof.
  unfold in_int64, int64_min, int64_max, wrap64.
  pose proof (Z.mod_pos_bound (z + 2 ^ 63) (2 ^ 64)) as H. lia.
Qed.

(** ** Time

    A [time.Time] is the number of nanoseconds since an arbitrary origin; a
    [time.Duration] is an [int64] number of nanoseconds.  [Time.Sub] saturates
    instead of wrapping. *)
Definition nanosecond : Z := 1.
Definition millisecond : Z := 1000000.
Definition second : Z := 1000000000.
Definition minute : Z := 60 * second.
Definition hour : Z := 60 * minute.

Definition time_sub (t u : Z) : Z :=
  if t - u <? int64_min then int64_min
  else if int64_max <? t - u then int64_max
  else t - u.

Lemma time_sub_exact t u : in_int64 (t - u) → time_sub t u = t - u.
Proof.
  unfold in_int64, time_sub. intros [H1 H2].
  destruct (Z.ltb_spec (t - u) int64_min); [lia|].
  destruct (Z.ltb_spec int64_max (t - u)); lia.
Qed.

Lemma time_sub_nonneg t u : u ≤ t → 0 ≤ time_sub t u ≤ t - u.
Proof.
  unfold time_sub, int64_min, int64_max. intros H.
  destruct (Z.ltb_spec (t - u) (- 2 ^ 63)); [lia|].
  destruct (Z.ltb_spec (2 ^ 63 - 1) (t - u)); lia.
Qed.

Lemma time_sub_neg t u : t < u → time_sub t u < 0.
Proof.
  unfold time_sub, int64_min, int64_max. intros H.
  destruct (Z.ltb_spec (t - u) (- 2 ^ 63)); [lia|].
  destruct (Z.ltb_spec (2 ^ 63 - 1) (t - u)); lia.
Qed.

(** ** Automation *)

Create HintDb go discriminated.
#[export] Hint Resolve wrap64_id wrap64_range : go.

(** Turn every boolean comparison test into the proposition it decides. *)
Ltac breflect :=
  repeat match goal with
  | H : (_ && _)%bool = true |- _ => apply andb_true_iff in H; destruct H
  | H : (_ || _)%bool = false |- _ => apply orb_false_iff in H; destruct H
  | H : negb _ = true |- _ => apply negb_true_iff in H
  | H : negb _ = false |- _ => apply negb_false_iff in H
  | H : (_ <? _) = true |- _ => apply Z.ltb_lt in H
  | H : (_ <? _) = false |- _ => apply Z.ltb_ge in H
  | H : (_ <=? _) = true |- _ => apply Z.leb_le in H
  | H : (_ <=? _) = false |- _ => apply Z.leb_gt in H
  | H : (_ =? _) = true |- _ => apply Z.eqb_eq in H
  | H : (_ =? _) = false |- _ => apply Z.eqb_neq in H
  | H : bool_decide _ = true |- _ => apply bool_decide_eq_true in H
  | H : bool_decide _ = false |- _ => apply bool_decide_eq_false in H
  end.

(** Case analysis on the scrutinee of the first [if] or [match] of the goal. *)
Ltac case_goal :=
  match goal with
  | |- context [if ?b then _ else _] => destruct b eqn:?
  | |- context [match ?x with _ => _ end] => destruct x eqn:?
  end.

Ltac case_hyp H :=
  match type of H with
  | context [if ?b then _ else _] => destruct b eqn:?
  | context [match ?x with _ => _ end] => destruct x eqn:?
  end.

(** ** Options, results and lists *)

Lemma result_bind_ok {E A B} (m : result E A) (f : A → result E B) b :
  m ≫= f = Ok b ↔ ∃ a, m = Ok a ∧ f a = Ok b.
Proof.
  destruct m; cbn; split; [eauto| |discriminate|].
  - by intros (? & [= ->] & ?).
  - by intros (? & ? & ?).
Qed.

Lemma mapM_result_Forall2 {E A B} (f : A → result E B) l k :
  mapM_result f l = Ok k ↔ Forall2 (λ x y, f x = Ok y) l k.
Proof.
  revert k. induction l as [|x l IH]; intros k; cbn.
  - split; [intros [= <-]; constructor|inversion 1; done].
  - split.
    + destruct (f x) eqn:Hx; cbn; [|done].
      destruct (mapM_result f l) eqn:Hl; cbn; [|done].
      intros [= <-]. constructor; [done|]. by apply IH.
    + inversion 1 as [|? y ? k' Hx Hl]; subst. rewrite Hx. cbn.
      apply IH in Hl. by rewrite Hl.
Qed.

(** The first element a Go [for range] loop with an early return selects. *)
Lemma find_some_split {A} (P : A → bool) l x :
  List.find P l = Some x →
  ∃ l1 l2, l = l1 ++ x :: l2 ∧ P x = true ∧ Forall (λ y, P y = false) l1.
Proof.
  induction l as [|y l IH]; cbn; [done|]. destruct (P y) eqn:Hy.
  - intros [= ->]. by exists [], l.
  - intros (l1 & l2 & -> & ? & ?)%IH. exists (y :: l1), l2.
    split; [done|]. split; [done|]. by constructor.
Qed.

Lemma find_none_Forall {A} (P : A → bool) l :
  List.find P l = None ↔ Forall (λ y, P y = false) l.
Proof.
  induction l as [|y l IH]; cbn.
  - split; [constructor|done].
  - rewrite Forall_cons. destruct (P y); naive_solver.
Qed.

Lemma Forall_concat {A} (P : A → Prop) (ls : list (list A)) :
  Forall P (concat ls) ↔ Forall (Forall P) ls.
Proof.
  induction ls as [|l ls IH]; cbn; [split; constructor|].
  by rewrite Forall_app, Forall_cons, IH.
Qed.

Lemma elem_of_concat_fmap {A B} (f : A → list B) l y : y ∈ concat (f <$> l) ↔ ∃ x, x ∈ l ∧ y ∈ f x.
Proof.
  induction l as [|x l IH]; cbn; [set_solver|]. rewrite elem_of_app, IH. set_solver.
Qed.

Lemma filter_or_perm {A} (f g h : A → bool) l :
  (∀ x, x ∈ l → h x = f x || g x) → (∀ x, x ∈ l → f x && g x = false) →
  List.filter h l ≡ₚ List.filter f l ++ List.filter g l.
Proof.
  induction l as [|x l IH]; intros Hor Hand; [done|]. cbn.
  rewrite Hor by left. specialize (Hand x ltac:(left)) as Hx. specialize (IH ltac:(set_solver) ltac:(set_solver)).
  destruct (f x), (g x); cbn in *; [done|by rewrite IH|rewrite IH; apply Permutation_middle|done].
Qed.

Lemma filter_all {A} (f : A → bool) l : (∀ x, x ∈ l → f x = true) → List.filter f l = l.
Proof.
  induction l as [|x l IH]; intros Hf; [done|]. cbn. rewrite Hf by left. f_equal. apply IH. set_solver.
Qed.

Lemma filter_none {A} (f : A → bool) l : (∀ x, x ∈ l → f x = false) → List.filter f l = [].
Proof.
  induction l as [|x l IH]; intros Hf; [done|]. cbn. rewrite Hf by left. apply IH. set_solver.
Qed.

Lemma elem_of_filter_bool {A} (f : A → bool) l x : x ∈ List.filter f l ↔ x ∈ l ∧ f x = true.
Proof. by rewrite !list_elem_of_In, filter_In. Qed.

Lemma NoDup_filter_bool {A} (f : A → bool) (l : list A) : NoDup l → NoDup (List.filter f l).
Proof. rewrite !NoDup_ListNoDup. apply List.NoDup_filter. Qed.

Lemma NoDup_fmap_inj {A B} (f : A → B) l x y : NoDup (f <$> l) → x ∈ l → y ∈ l → f x = f y → x = y.
Proof.
  induction l as [|z l IH]; cbn; intros Hnd Hx Hy Heq; [by apply elem_of_nil in Hx|].
  apply NoDup_cons in Hnd as [Hz Hnd]. apply elem_of_cons in Hx as [->|Hx], Hy as [->|Hy]; [done|..|auto].
  - destruct Hz. rewrite Heq. by apply list_elem_of_fmap_2.
  - destruct Hz. rewrite <-Heq. by apply list_elem_of_fmap_2.
Qed.

Lemma sumZ_app (l k : list Z) : foldr Z.add 0 (l ++ k) = foldr Z.add 0 l + foldr Z.add 0 k.
Proof. induction l; cbn; lia. Qed.

Lemma sumZ_permutation (l k : list Z) :
  l ≡ₚ k → foldr Z.add 0 l = foldr Z.add 0 k.
Proof. induction 1; cbn; lia. Qed.

(** ** Sorting

    [slices.SortFunc] returns a permutation of its argument ordered by the
    comparison; it does not promise to keep equal elements in order.  A
    component that sorts is written against this interface, so what is proved
    of it cannot depend on a tie-breaking order the library does not specify. *)
Class SortFunc := sort_func : ∀ {A : Type}, (A → A → Z) → list A → list A.

Class SortFuncSpec `{!SortFunc} : Prop := {
  sort_func_perm {A} (cmp : A → A → Z) l : sort_func cmp l ≡ₚ l;
  sort_func_sorted {A} (cmp : A → A → Z) l :
    (∀ x y z, cmp x y ≤ 0 → cmp y z ≤ 0 → cmp x z ≤ 0) →
    (∀ x y, cmp x y ≤ 0 ∨ cmp y x ≤ 0) →
    StronglySorted (λ x y, cmp x y ≤ 0) (sort_func cmp l) }.

Fixpoint insert_by {A} (cmp : A → A → Z) (x : A) (l : list A) : list A :=
  match l with
  | [] => [x]
  | y :: l' => if cmp x y <=? 0 then x :: l else y :: insert_by cmp x l'
  end.

(** An instance of the interface, used to run the components. *)
Definition insertion_sort {A} (cmp : A → A → Z) (l : list A) : list A :=
  foldr (insert_by cmp) [] l.

Lemma insert_by_perm {A} (cmp : A → A → Z) x l : insert_by cmp x l ≡ₚ x :: l.
Proof.
  induction l as [|y l IH]; cbn; [done|]. destruct (cmp x y <=? 0); [done|].
  rewrite IH. apply Permutation_swap.
Qed.

Lemma insertion_sort_perm {A} (cmp : A → A → Z) l : insertion_sort cmp l ≡ₚ l.
Proof.
  induction l as [|x l IH]; cbn; [done|].
  rewrite insert_by_perm. by rewrite IH.
Qed.

Lemma insert_by_sorted {A} (cmp : A → A → Z) x l :
  (∀ x y z, cmp x y ≤ 0 → cmp y z ≤ 0 → cmp x z ≤ 0) →
  (∀ x y, cmp x y ≤ 0 ∨ cmp y x ≤ 0) →
  StronglySorted (λ x y, cmp x y ≤ 0) l →
  StronglySorted (λ x y, cmp x y ≤ 0) (insert_by cmp x l).
Proof.
  intros Htrans Htot. induction 1 as [|y l Hl IH Hy]; cbn.
  - repeat constructor.
  - destruct (Z.leb_spec (cmp x y) 0) as [Hxy|Hxy].
    + constructor; [by constructor|]. constructor; [done|].
      eapply Forall_impl; [done|]. intros z ?. by eapply Htrans.
    + constructor; [done|]. rewrite insert_by_perm.
      constructor; [destruct (Htot x y); lia|done].
Qed.

Lemma insertion_sort_sorted {A} (cmp : A → A → Z) l :
  (∀ x y z, cmp x y ≤ 0 → cmp y z ≤ 0 → cmp x z ≤ 0) →
  (∀ x y, cmp x y ≤ 0 ∨ cmp y x ≤ 0) →
  StronglySorted (λ x y, cmp x y ≤ 0) (insertion_sort cmp l).
Proof.
  intros ? ?. induction l as [|x l IH]; cbn; [constructor|].
  by apply insert_by_sorted.
Qed.

Definition insertion_SortFunc : SortFunc := @insertion_sort.

Lemma insertion_SortFuncSpec : @SortFuncSpec insertion_SortFunc.
Proof.
  split; [apply @insertion_sort_perm|apply @insertion_sort_sorted].
Qed.

(** ** Sums over a list of indices *)

Definition sumf {A} (f : A → Z) (l : list A) : Z := foldr Z.add 0 (f <$> l).

Lemma sumf_cons {A} (f : A → Z) x l : sumf f (x :: l) = f x + sumf f l.
Proof. done. Qed.

Lemma sumf_app {A} (f : A → Z) l k : sumf f (l ++ k) = sumf f l + sumf f k.
Proof. unfold sumf. by rewrite fmap_app, sumZ_app. Qed.

Lemma sumf_ext {A} (f g : A → Z) l : (∀ x, x ∈ l → f x = g x) → sumf f l = sumf g l.
Proof.
  induction l as [|x l IH]; intros H; [done|]. rewrite !sumf_cons, H, IH by set_solver. done.
Qed.

Lemma sumf_add {A} (f g : A → Z) l : sumf (λ x, f x + g x) l = sumf f l + sumf g l.
Proof. induction l as [|x l IH]; [done|]. rewrite !sumf_cons, IH. lia. Qed.

Lemma sumf_le {A} (f g : A → Z) l : (∀ x, x ∈ l → f x ≤ g x) → sumf f l ≤ sumf g l.
Proof.
  induction l as [|x l IH]; intros H; [done|]. rewrite !sumf_cons.
  assert (f x ≤ g x) by (apply H; set_solver).
  assert (sumf f l ≤ sumf g l) by (apply IH; set_solver). lia.
Qed.

Lemma sumf_const {A} (z : Z) (l : list A) : sumf (λ _, z) l = z * Z.of_nat (length l).
Proof. induction l as [|x l IH]; [cbn; lia|]. rewrite sumf_cons, IH. cbn [length]. lia. Qed.

Lemma sumf_indicator {A} `{!EqDecision A} (k : A) (z : Z) l :
  NoDup l → k ∈ l → sumf (λ x, if decide (x = k) then z else 0) l = z.
Proof.
  induction 1 as [|x l Hx Hnd IH]; [by intros ?%elem_of_nil|].
  rewrite sumf_cons. intros [->|Hk]%elem_of_cons.
  - rewrite decide_True by done.
    rewrite (sumf_ext _ (λ _, 0)); [rewrite sumf_const; lia|].
    intros y Hy. rewrite decide_False; [done|]. by intros ->.
  - rewrite decide_False, IH; [done|done|]. by intros ->.
Qed.

(** A term of a sum, bounded through the others. *)
Lemma sumf_elem {A} (f : A → Z) l k :
  k ∈ l → ∃ l1 l2, l = l1 ++ k :: l2 ∧ sumf f l = f k + sumf f (l1 ++ l2).
Proof.
  intros (l1 & l2 & ->)%list_elem_of_split. exists l1, l2. split; [done|].
  rewrite !sumf_app, sumf_cons. lia.
Qed.

Lemma sumf_nonneg_zero {A} (f : A → Z) l :
  (∀ x, x ∈ l → 0 ≤ f x) → sumf f l = 0 → ∀ x, x ∈ l → f x = 0.
Proof.
  intros Hpos Hsum x Hx. destruct (sumf_elem f l x Hx) as (l1 & l2 & -> & Heq).
  assert (0 ≤ sumf f (l1 ++ l2)).
  { transitivity (sumf (λ _ : A, 0) (l1 ++ l2)); [rewrite sumf_const; lia|].
    apply sumf_le. intros y Hy. apply Hpos. set_solver. }
  assert (0 ≤ f x) by (apply Hpos; set_solver). lia.
Qed.

Lemma Forall2_elem_r {A B} (P : A → B → Prop) l k y :
  Forall2 P l k → y ∈ k → ∃ x, x ∈ l ∧ P x y.
Proof.
  intros HF [i Hi]%list_elem_of_lookup.
  destruct (Forall2_lookup_r _ _ _ _ _ HF Hi) as (x & Hx & HP).
  exists x. split; [by eapply list_elem_of_lookup_2|done].
Qed.

Lemma Forall2_elem_l {A B} (P : A → B → Prop) l k x :
  Forall2 P l k → x ∈ l → ∃ y, y ∈ k ∧ P x y.
Proof.
  intros HF [i Hi]%list_elem_of_lookup.
  destruct (Forall2_lookup_l _ _ _ _ _ HF Hi) as (y & Hy & HP).
  exists y. split; [by eapply list_elem_of_lookup_2|done].
Qed.

(** ** Grouping by a key

    What a Go loop over a list does that appends to the slices of a map and
    notes the keys in the order of their first appearance. *)
Fixpoint group_add {A} (k : string) (x : A) (groups : list (string * list A)) : list (string * list A) :=
  match groups with
  | [] => [(k, [x])]
  | (k', xs) :: groups =>
      if String.eqb k k' then (k', xs ++ [x]) :: groups else (k', xs) :: group_add k x groups
  end.

Definition group_by {A} (key : A → string) (l : list A) : list (string * list A) :=
  foldl (λ groups x, group_add (key x) x groups) [] l.

Lemma group_add_perm {A} k (x : A) groups :
  concat (group_add k x groups).*2 ≡ₚ x :: concat groups.*2.
Proof.
  induction groups as [|[k' xs] groups IH]; cbn; [done|].
  case_goal; cbn; [rewrite <-(assoc_L (++))|rewrite IH]; symmetry; apply Permutation_middle.
Qed.

Lemma group_by_perm {A} (key : A → string) l : concat (group_by key l).*2 ≡ₚ l.
Proof.
  unfold group_by. induction l as [|x l IH] using rev_ind; [done|].
  rewrite foldl_app. cbn. rewrite group_add_perm, IH. apply Permutation_cons_append.
Qed.

Lemma group_by_key {A} (key : A → string) l k xs :
  (k, xs) ∈ group_by key l → xs ≠ [] ∧ Forall (λ x, key x = k) xs.
Proof.
  unfold group_by. revert k xs. induction l as [|x l IH] using rev_ind; cbn; [set_solver|].
  rewrite foldl_app. cbn. revert IH. generalize (foldl (λ g y, group_add (key y) y g) [] l).
  intros groups IH. induction groups as [|[k' ys] groups IHg]; cbn; intros k xs.
  - intros Heq%list_elem_of_singleton. simplify_eq. by repeat constructor.
  - destruct (String.eqb_spec (key x) k') as [Hk|Hne]; intros [Heq|Hin]%elem_of_cons.
    + simplify_eq. destruct (IH (key x) ys) as [Hne Hall]; [left|]. split; [by destruct ys|].
      apply Forall_app. by repeat constructor.
    + apply IH. by right.
    + simplify_eq. apply IH. left.
    + apply IHg; [|done]. intros ?? ?. apply IH. by right.
Qed.
