(* ===== verification/GoStrings.v ===== *)
(** * The parts of Go's [strings], [strconv], [slices] and [net] the proxy uses

    A Go string is a sequence of bytes; it is modelled by [string], whose
    characters are bytes.  [ToLower] and [EqualFold] act on the ASCII letters
    and leave every other byte alone, which is what the Go functions do on
    ASCII input; header names, directives and host names are ASCII.
    [TrimSpace] knows every white-space code point of [unicode.IsSpace] by its
    UTF-8 encoding.  Each function is executable and carries the lemmas the
    components rely on. *)
From Stdlib Require Import DecimalString DecimalZ.
From S2P Require Import Prelude.

#[global] Arguments String.append !_ _ : simpl nomatch.

(** ** Bytes and slices of strings *)

Definition str_len (s : string) : Z := Z.of_nat (String.length s).

Fixpoint str_take (n : nat) (s : string) : string :=
  match n, s with
  | S n, String c s => String c (str_take n s)
  | _, _ => ""
  end.

Fixpoint str_drop (n : nat) (s : string) : string :=
  match n, s with
  | S n, String _ s => str_drop n s
  | _, _ => s
  end.

(** ** [strings]: prefixes, suffixes, search *)

Definition HasPrefix (s p : string) : bool := String.prefix p s.

Fixpoint HasSuffix (s p : string) : bool :=
  String.eqb s p || match s with "" => false | String _ s' => HasSuffix s' p end.

Definition CutPrefix (s p : string) : option string :=
  if HasPrefix s p then Some (str_drop (String.length p) s) else None.

Definition CutSuffix (s p : string) : option string :=
  if HasSuffix s p
  then Some (str_take (String.length s - String.length p) s) else None.

Definition TrimPrefix (s p : string) : string := default s (CutPrefix s p).
Definition TrimSuffix (s p : string) : string := default s (CutSuffix s p).

(** [strings.Index]: the first position of [sub], [-1] when there is none. *)
Definition Index (s sub : string) : Z :=
  match String.index 0 sub s with Some n => Z.of_nat n | None => -1 end.

Definition Contains (s sub : string) : bool := (0 <=? Index s sub)%Z.

Fixpoint index_byte (s : string) (c : ascii) : option nat :=
  match s with
  | "" => None
  | String a s => if Ascii.eqb a c then Some 0%nat else S <$> index_byte s c
  end.

Fixpoint last_index_byte (s : string) (c : ascii) : option nat :=
  match s with
  | "" => None
  | String a s =>
      match last_index_byte s c with
      | Some n => Some (S n)
      | None => if Ascii.eqb a c then Some 0%nat else None
      end
  end.

(** [strings.Cut] at a one-byte separator. *)
Fixpoint Cut (s : string) (c : ascii) : option (string * string) :=
  match s with
  | "" => None
  | String a s =>
      if Ascii.eqb a c then Some ("", s)
      else '(x, y) ← Cut s c; Some (String a x, y)
  end.

(** [strings.Split] at a one-byte separator: always at least one part. *)
Fixpoint Split (s : string) (c : ascii) : list string :=
  match s with
  | "" => [""]
  | String a s =>
      if Ascii.eqb a c then "" :: Split s c
      else match Split s c with
           | [] => [String a ""]
           | p :: ps => String a p :: ps
           end
  end.

Fixpoint Join (l : list string) (sep : string) : string :=
  match l with
  | [] => ""
  | [x] => x
  | x :: l => x +:+ sep +:+ Join l sep
  end.

(** [strings.Trim(s, c)] for a one-byte cut set. *)
Fixpoint trim_left (c : ascii) (s : string) : string :=
  match s with
  | "" => ""
  | String a s' => if Ascii.eqb a c then trim_left c s' else s
  end.

Fixpoint trim_right (c : ascii) (s : string) : string :=
  match s with
  | "" => ""
  | String a s' =>
      match trim_right c s' with
      | "" => if Ascii.eqb a c then "" else String a ""
      | r => String a r
      end
  end.

Definition Trim (s : string) (c : ascii) : string := trim_right c (trim_left c s).

(** The UTF-8 encodings of the code points of [unicode.IsSpace]. *)
Definition byte_string (l : list N) : string :=
  foldr (λ n s, String (ascii_of_N n) s) "" l.

Definition space_runes : list string :=
  map byte_string
    [[9]; [10]; [11]; [12]; [13]; [32]; [194; 133]; [194; 160];
     [225; 154; 128]; [226; 128; 128]; [226; 128; 129]; [226; 128; 130];
     [226; 128; 131]; [226; 128; 132]; [226; 128; 133]; [226; 128; 134];
     [226; 128; 135]; [226; 128; 136]; [226; 128; 137]; [226; 128; 138];
     [226; 128; 168]; [226; 128; 169]; [226; 128; 175]; [226; 129; 159];
     [227; 128; 128]]%N.

Fixpoint trim_space_left (fuel : nat) (s : string) : string :=
  match fuel with
  | O => s
  | S fuel =>
      match List.find (HasPrefix s) space_runes with
      | Some r => trim_space_left fuel (str_drop (String.length r) s)
      | None => s
      end
  end.

Fixpoint trim_space_right (fuel : nat) (s : string) : string :=
  match fuel with
  | O => s
  | S fuel =>
      match List.find (HasSuffix s) space_runes with
      | Some r => trim_space_right fuel
                    (str_take (String.length s - String.length r) s)
      | None => s
      end
  end.

(** Each round removes at least one byte, so the length is enough fuel. *)
Definition TrimSpace (s : string) : string :=
  let l := trim_space_left (String.length s) s in
  trim_space_right (String.length l) l.

Definition to_lower_byte (c : ascii) : ascii :=
  let n := N_of_ascii c in
  if ((65 <=? n) && (n <=? 90))%N then ascii_of_N (n + 32) else c.

Fixpoint ToLower (s : string) : string :=
  match s with
  | "" => ""
  | String c s => String (to_lower_byte c) (ToLower s)
  end.

Definition EqualFold (s t : string) : bool := String.eqb (ToLower s) (ToLower t).

(** [strings.Compare]. *)
Definition Compare (s t : string) : Z :=
  match String.compare s t with Lt => -1 | Eq => 0 | Gt => 1 end.

(** ** [slices.Contains] on strings *)
Definition str_contains (l : list string) (x : string) : bool :=
  existsb (String.eqb x) l.

(** ** [strconv] *)

Definition Itoa (z : Z) : string := NilZero.string_of_int (Z.to_int z).

(** [strconv.ParseInt(s, 10, 64)] (and [Atoi] on a 64-bit platform): an
    optional sign and decimal digits, [None] for a syntax or range error. *)
Definition ParseInt (s : string) : option Z :=
  z ← match s with
      | String "+" d => Z.of_uint <$> NilZero.uint_of_string d
      | _ => Z.of_int <$> NilZero.int_of_string s
      end;
  if ((int64_min <=? z) && (z <=? int64_max))%Z then Some z else None.

(** ** [net.SplitHostPort] *)

Definition colon : ascii := ":"%char.
Definition slash : ascii := "/"%char.
Definition comma : ascii := ","%char.
Definition lbracket : ascii := "["%char.
Definition rbracket : ascii := "]"%char.

Definition has_byte (s : string) (c : ascii) : bool :=
  match index_byte s c with Some _ => true | None => false end.

Definition SplitHostPort (hostport : string) : option (string * string) :=
  i ← last_index_byte hostport colon;
  '(host, j, k) ←
    match hostport with
    | String "[" _ =>
        e ← index_byte hostport rbracket;
        if Nat.eqb (S e) i
        then Some (str_drop 1 (str_take e hostport), 1%nat, S e)
        else None
    | _ =>
        let host := str_take i hostport in
        if has_byte host colon then None else Some (host, 0%nat, 0%nat)
    end;
  if has_byte (str_drop j hostport) lbracket then None
  else if has_byte (str_drop k hostport) rbracket then None
  else Some (host, str_drop (S i) hostport).

(** ** Bytes *)

Definition byte_of (c : ascii) : Z := Z.of_N (N_of_ascii c).

Fixpoint all_bytes (P : ascii → bool) (s : string) : bool :=
  match s with "" => true | String c s => P c && all_bytes P s end.

Fixpoint any_byte (P : ascii → bool) (s : string) : bool :=
  match s with "" => false | String c s => P c || any_byte P s end.

(** ** Lemmas *)

Lemma all_bytes_app f s t : all_bytes f (s +:+ t) = all_bytes f s && all_bytes f t.
Proof. induction s as [|c s IH]; cbn; [done|]. by rewrite IH, andb_assoc. Qed.

Lemma str_app_nil_r s : s +:+ "" = s.
Proof. induction s; cbn; congruence. Qed.

Lemma str_app_assoc (a b c : string) : a +:+ (b +:+ c) = (a +:+ b) +:+ c.
Proof. induction a; cbn; congruence. Qed.

Lemma str_app_inv_l (a b c : string) : a +:+ b = a +:+ c → b = c.
Proof. induction a; cbn; [done|]. intros [= ?]; auto. Qed.

Lemma str_length_app (a b : string) :
  String.length (a +:+ b) = (String.length a + String.length b)%nat.
Proof. induction a; cbn; [done|]. by f_equal. Qed.

Lemma str_len_nonneg s : 0 ≤ str_len s.
Proof. unfold str_len. lia. Qed.

Lemma str_app_inj_len (a b c d : string) :
  String.length a = String.length c → a +:+ b = c +:+ d → a = c ∧ b = d.
Proof.
  revert c. induction a as [|x a IH]; intros [|y c]; cbn; try done.
  intros [= Hlen] [= -> Heq]. destruct (IH c Hlen Heq) as [-> ->]. done.
Qed.

Lemma HasPrefix_spec s p : HasPrefix s p = true ↔ ∃ t, s = p +:+ t.
Proof.
  unfold HasPrefix. revert s. induction p as [|c p IH]; intros [|d s]; cbn.
  - split; [by exists ""|done].
  - split; [by exists (String d s)|done].
  - split; [done|by intros (? & ?)].
  - destruct (ascii_dec c d) as [->|Hne].
    + rewrite IH. split; [intros (t & ->); by exists t|].
      intros (t & [= ->]). by exists t.
    + split; [done|]. intros (? & [= ? ?]). by subst.
Qed.

Lemma HasPrefix_app p t : HasPrefix (p +:+ t) p = true.
Proof. apply HasPrefix_spec. by exists t. Qed.

Lemma HasPrefix_refl p : HasPrefix p p = true.
Proof. apply HasPrefix_spec. exists "". by rewrite str_app_nil_r. Qed.

Lemma HasPrefix_trans s p q :
  HasPrefix s p = true → HasPrefix p q = true → HasPrefix s q = true.
Proof.
  rewrite !HasPrefix_spec. intros (t & ->) (u & ->). exists (u +:+ t).
  by rewrite str_app_assoc.
Qed.

(** Two prefixes of one string are comparable; of equal length, equal. *)
Lemma HasPrefix_len_eq s p q :
  HasPrefix s p = true → HasPrefix s q = true →
  String.length p = String.length q → p = q.
Proof.
  rewrite !HasPrefix_spec. intros (t & ->) (u & Heq) Hlen.
  by apply str_app_inj_len in Heq as [-> _].
Qed.

Lemma HasSuffix_spec s p : HasSuffix s p = true ↔ ∃ t, s = t +:+ p.
Proof.
  induction s as [|c s IH]; cbn [HasSuffix].
  - rewrite orb_false_r, String.eqb_eq. split; [intros <-; by exists ""|].
    intros ([|c t] & Heq); [done|]. done.
  - rewrite orb_true_iff, String.eqb_eq, IH. split.
    + intros [<-|(t & ->)]; [by exists ""|by exists (String c t)].
    + intros ([|d t] & Heq); [by left|]. right. exists t.
      cbn in Heq. by injection Heq.
Qed.

Lemma HasSuffix_app t p : HasSuffix (t +:+ p) p = true.
Proof. apply HasSuffix_spec. by exists t. Qed.

Lemma str_drop_app p t : str_drop (String.length p) (p +:+ t) = t.
Proof. induction p; cbn; [by destruct t|done]. Qed.

Lemma str_take_app p t : str_take (String.length p) (p +:+ t) = p.
Proof. induction p; cbn; [by destruct t|congruence]. Qed.

Lemma str_take_drop n s : str_take n s +:+ str_drop n s = s.
Proof. revert s. induction n; intros [|c s]; cbn; congruence. Qed.

Lemma CutPrefix_Some s p t : CutPrefix s p = Some t ↔ s = p +:+ t.
Proof.
  unfold CutPrefix. destruct (HasPrefix s p) eqn:H.
  - apply HasPrefix_spec in H as (u & ->). rewrite str_drop_app.
    split; [by intros [= ->]|]. intros ?%str_app_inv_l. congruence.
  - split; [done|]. intros ->. by rewrite HasPrefix_app in H.
Qed.

Lemma CutSuffix_Some s p t : CutSuffix s p = Some t ↔ s = t +:+ p.
Proof.
  unfold CutSuffix. destruct (HasSuffix s p) eqn:H.
  - apply HasSuffix_spec in H as (u & ->).
    rewrite str_length_app, Nat.add_sub, str_take_app.
    split; [by intros [= ->]|]. intros Heq.
    assert (String.length u = String.length t) as Hlen.
    { apply (f_equal String.length) in Heq. rewrite !str_length_app in Heq. lia. }
    by apply str_app_inj_len in Heq as [-> _].
  - split; [done|]. intros ->. by rewrite HasSuffix_app in H.
Qed.

Lemma TrimPrefix_app p t : TrimPrefix (p +:+ t) p = t.
Proof.
  unfold TrimPrefix. by rewrite (proj2 (CutPrefix_Some (p +:+ t) p t)).
Qed.

Lemma Cut_Some s c x y :
  Cut s c = Some (x, y) ↔ s = x +:+ String c y ∧ index_byte x c = None.
Proof.
  revert x. induction s as [|a s IH]; intros x; cbn.
  - split; [done|]. by intros [H _]; destruct x.
  - destruct (Ascii.eqb_spec a c) as [->|Hne].
    + split; [by intros [= <- <-]|]. intros [Heq Hx].
      destruct x as [|b x]; cbn in *; [congruence|]. injection Heq as -> ->.
      by rewrite Ascii.eqb_refl in Hx.
    + split.
      * destruct (Cut s c) as [[x' y']|]; cbn; [|done]. intros [= <- <-].
        destruct (proj1 (IH x') eq_refl) as [-> Hx]. cbn. split; [done|].
        destruct (Ascii.eqb_spec a c); [done|]. by rewrite Hx.
      * intros [Heq Hx]. destruct x as [|b x]; cbn in *; [congruence|].
        injection Heq as <- ->. destruct (Ascii.eqb_spec a c); [done|].
        destruct (index_byte x c) eqn:E; [done|].
        by rewrite (proj2 (IH x) (conj eq_refl E)).
Qed.

Lemma Cut_None s c : Cut s c = None ↔ index_byte s c = None.
Proof.
  induction s as [|a s IH]; cbn; [done|].
  destruct (Ascii.eqb_spec a c); [done|].
  destruct (Cut s c) as [[x y]|], (index_byte s c); cbn; naive_solver.
Qed.

Lemma trim_left_id c s :
  trim_left c s = s ↔ (∀ t, s ≠ String c t).
Proof.
  destruct s as [|a s]; cbn; [done|].
  destruct (Ascii.eqb_spec a c) as [->|Hne]; [|naive_solver].
  split; [|intros H; by destruct (H s)].
  intros Heq. exfalso.
  assert (∀ u, (String.length (trim_left c u) ≤ String.length u)%nat) as Hle.
  { intros u. induction u as [|b u IHu]; cbn; [done|]. destruct (Ascii.eqb b c); cbn; lia. }
  specialize (Hle s). rewrite Heq in Hle. cbn in Hle. lia.
Qed.

Lemma trim_left_no_lead c s t : trim_left c s ≠ String c t.
Proof.
  induction s as [|a s IH]; cbn; [done|].
  destruct (Ascii.eqb_spec a c); [done|]. congruence.
Qed.

Lemma trim_right_no_trail c s t : trim_right c s ≠ t +:+ String c "".
Proof.
  revert t. induction s as [|a s IH]; intros t; cbn; [by destruct t|].
  destruct (trim_right c s) as [|b r] eqn:E.
  - destruct (Ascii.eqb_spec a c); [by destruct t|].
    destruct t as [|d [|? ?]]; cbn; congruence.
  - destruct t as [|d t]; cbn; [by intros [= ? ?]|].
    intros [= _ Heq]. by destruct (IH t).
Qed.

Lemma trim_right_lead c s a r :
  trim_right c s = String a r → ∃ r', s = String a r'.
Proof.
  destruct s as [|b s]; cbn; [done|].
  destruct (trim_right c s); [destruct (Ascii.eqb b c)|]; intros [= -> _]; eauto.
Qed.

Lemma trim_right_id c s : (∀ t, s ≠ t +:+ String c "") → trim_right c s = s.
Proof.
  induction s as [|a s IH]; intros H; cbn; [done|].
  destruct s as [|b s'].
  - cbn. destruct (Ascii.eqb_spec a c) as [->|]; [|done].
    by destruct (H "").
  - rewrite IH; [done|]. intros t Ht. apply (H (String a t)). cbn. by rewrite Ht.
Qed.

Lemma Trim_no_lead s c t : Trim s c ≠ String c t.
Proof.
  unfold Trim. intros H. destruct (trim_right_lead _ _ _ _ H) as (r & Hr).
  by apply (trim_left_no_lead c s r).
Qed.

Lemma Trim_no_trail s c t : Trim s c ≠ t +:+ String c "".
Proof. apply trim_right_no_trail. Qed.

Lemma Trim_id s c :
  (∀ t, s ≠ String c t) → (∀ t, s ≠ t +:+ String c "") → Trim s c = s.
Proof.
  intros H1 H2. unfold Trim. rewrite (proj2 (trim_left_id c s)) by done.
  by apply trim_right_id.
Qed.

Lemma Trim_idemp s c : Trim (Trim s c) c = Trim s c.
Proof.
  apply Trim_id; [apply Trim_no_lead|apply Trim_no_trail].
Qed.

Lemma str_contains_spec l x : str_contains l x = true ↔ x ∈ l.
Proof.
  unfold str_contains. rewrite existsb_exists. split.
  - intros (y & Hy & ->%String.eqb_eq). by apply list_elem_of_In.
  - intros Hx%list_elem_of_In. exists x. by rewrite String.eqb_refl.
Qed.

Lemma str_contains_false l x : str_contains l x = false ↔ x ∉ l.
Proof. rewrite <- str_contains_spec. destruct (str_contains l x); naive_solver. Qed.

Lemma to_lower_byte_idemp c : to_lower_byte (to_lower_byte c) = to_lower_byte c.
Proof. destruct c as [[] [] [] [] [] [] [] []]; reflexivity. Qed.

Lemma ToLower_idemp s : ToLower (ToLower s) = ToLower s.
Proof. induction s; cbn; [done|]. by rewrite to_lower_byte_idemp; f_equal. Qed.

(** Searching for one byte. *)
Lemma Contains_byte u c : Contains u (String c "") = has_byte u c.
Proof.
  unfold Contains, Index, has_byte. induction u as [|a u IH]; [done|]. cbn [String.index String.prefix index_byte].
  destruct (ascii_dec c a) as [->|Hc].
  - rewrite Ascii.eqb_refl. by destruct u.
  - rewrite (proj2 (Ascii.eqb_neq a c)) by congruence.
    destruct (String.index 0 (String c "") u), (index_byte u c); cbn in *; breflect; try done; try lia.
    all: try (apply Z.leb_le; lia).
Qed.

(** Printing and parsing an integer. *)
Lemma ParseInt_Itoa z : in_int64 z → ParseInt (Itoa z) = Some z.
Proof.
  intros [Hlo Hhi]. unfold ParseInt, Itoa.
  assert (NilZero.int_of_string (NilZero.string_of_int (Z.to_int z))
          = Some (Z.to_int z)) as Hrt.
  { apply NilZero.isi. all: destruct z; cbn; try done.
    - intros Heq. injection Heq as Heq. by destruct (DecimalPos.Unsigned.to_uint_nonnil p).
    - intros Heq. injection Heq as Heq. by destruct (DecimalPos.Unsigned.to_uint_nonnil p). }
  assert (∀ d, NilZero.string_of_int (Z.to_int z) ≠ String "+" d) as Hplus.
  { intros d. destruct (Z.to_int z) as [u|u]; cbn; [destruct u; cbn; congruence|congruence]. }
  destruct (NilZero.string_of_int (Z.to_int z)) as [|a s] eqn:E; [done|].
  assert (match String a s with
          | String "+" d => Z.of_uint <$> NilZero.uint_of_string d
          | _ => Z.of_int <$> NilZero.int_of_string (String a s)
          end = Some z) as ->.
  { destruct a as [[] [] [] [] [] [] [] []];
      try (rewrite Hrt; cbn; by rewrite DecimalZ.of_to).
    by destruct (Hplus s). }
  cbn. destruct (Z.leb_spec int64_min z), (Z.leb_spec z int64_max); done || lia.
Qed.

#[export] Hint Resolve HasPrefix_app HasPrefix_refl HasSuffix_app : go.

(** [strings.Compare] is a total order. *)
Lemma str_compare_cons a s b t :
  String.compare (String a s) (String b t) =
  match N.compare (N_of_ascii a) (N_of_ascii b) with
  | Eq => String.compare s t
  | x => x
  end.
Proof. done. Qed.

Lemma Compare_total s t : Compare s t ≤ 0 ∨ Compare t s ≤ 0.
Proof.
  unfold Compare. rewrite (String.compare_antisym s t).
  destruct (String.compare t s); cbn; lia.
Qed.

Lemma Compare_trans s t u : Compare s t ≤ 0 → Compare t u ≤ 0 → Compare s u ≤ 0.
Proof.
  unfold Compare. revert t u. induction s as [|a s IH]; intros [|b t] [|c u];
    rewrite ?str_compare_cons; try (cbn; lia).
  specialize (IH t u).
  destruct (N.compare_spec (N_of_ascii a) (N_of_ascii b)),
    (N.compare_spec (N_of_ascii b) (N_of_ascii c)),
    (N.compare_spec (N_of_ascii a) (N_of_ascii c)); lia.
Qed.

(** [slices.Sort] of strings: equal strings are indistinguishable, so every
    algorithm has this result. *)
Definition sort_strings (l : list string) : list string := insertion_sort Compare l.

Lemma sort_strings_perm l : sort_strings l ≡ₚ l.
Proof. apply insertion_sort_perm. Qed.
