(* ===== verification/NetIP.v ===== *)
(** * IP addresses and prefixes, as [net/netip] presents them to the proxy

    An address is the zero [Addr], an IPv4 address (a 32-bit number) or an IPv6
    address (a 128-bit number, with a zone).  The parsers follow the scanning
    loops of the library field by field; [Contains] and [Masked] are the bit
    operations it uses, shown to be range membership ([Contains_range]) and
    rounding down ([Masked_Contains]). *)
From S2P Require Import Prelude GoStrings.

(** ** Addresses *)

Inductive Addr :=
| AddrZero
| Addr4 (a : Z)
| Addr6 (a : Z) (zone : string).

#[export] Instance Addr_eq_dec : EqDecision Addr.
Proof. solve_decision. Defined.

#[export] Instance Addr_countable : Countable Addr.
Proof.
  refine (inj_countable'
    (λ a, match a with
          | AddrZero => inl tt
          | Addr4 a => inr (inl a)
          | Addr6 a z => inr (inr (a, z))
          end)
    (λ x, match x with
          | inl _ => AddrZero
          | inr (inl a) => Addr4 a
          | inr (inr (a, z)) => Addr6 a z
          end) _).
  by intros [].
Defined.

Definition IsValid (a : Addr) : bool := match a with AddrZero => false | _ => true end.

Definition BitLen (a : Addr) : Z :=
  match a with AddrZero => 0 | Addr4 _ => 32 | Addr6 _ _ => 128 end.

Definition Zone (a : Addr) : string := match a with Addr6 _ z => z | _ => "" end.

Definition WithZone (z : string) (a : Addr) : Addr :=
  match a with Addr6 x _ => Addr6 x z | _ => a end.

Definition Is6 (a : Addr) : bool := match a with Addr6 _ _ => true | _ => false end.

(** [::ffff:0:0/96], the IPv4-mapped addresses. *)
Definition Is4In6 (a : Addr) : bool :=
  match a with Addr6 x _ => Z.shiftr x 32 =? 0xffff | _ => false end.

Definition Unmap (a : Addr) : Addr :=
  match a with
  | Addr6 x _ => if Is4In6 a then Addr4 (Z.land x (Z.ones 32)) else a
  | _ => a
  end.

Definition addr_wf (a : Addr) : Prop :=
  match a with
  | AddrZero => True
  | Addr4 x => 0 ≤ x < 2 ^ 32
  | Addr6 x _ => 0 ≤ x < 2 ^ 128
  end.

(** ** Parsing *)

Definition dec_digit (c : ascii) : option Z :=
  let n := Z.of_N (N_of_ascii c) in
  if (48 <=? n) && (n <=? 57) then Some (n - 48) else None.

Definition hex_digit (c : ascii) : option Z :=
  let n := Z.of_N (N_of_ascii c) in
  if (48 <=? n) && (n <=? 57) then Some (n - 48)
  else if (97 <=? n) && (n <=? 102) then Some (n - 87)
  else if (65 <=? n) && (n <=? 70) then Some (n - 55)
  else None.

(** One octet: no leading zero, at most 255. *)
Fixpoint octet_from (val : Z) (digLen : nat) (s : string) : option Z :=
  match s with
  | "" => if Nat.eqb digLen 0 then None else Some val
  | String c s =>
      match dec_digit c with
      | None => None
      | Some d =>
          if Nat.eqb digLen 1 && (val =? 0) then None
          else let val := val * 10 + d in
               if 255 <? val then None else octet_from val (S digLen) s
      end
  end.

Definition parse_octet (s : string) : option Z := octet_from 0 0 s.

(** [parseIPv4Fields]: exactly four octets. *)
Definition parseIPv4Fields (s : string) : option (list Z) :=
  match mapM parse_octet (Split s ".") with
  | Some [a; b; c; d] => Some [a; b; c; d]
  | _ => None
  end.

Definition of_bytes (l : list Z) : Z := fold_left (λ acc b, acc * 256 + b) l 0.

Definition parseIPv4 (s : string) : option Addr :=
  (λ l, Addr4 (of_bytes l)) <$> parseIPv4Fields s.

(** The hexadecimal digits at the front of [s]: their number, their value and
    what follows them. *)
Fixpoint hex_field (off : nat) (acc : Z) (s : string) : nat * Z * string :=
  match s with
  | "" => (off, acc, "")
  | String c s' =>
      match hex_digit c with
      | None => (off, acc, s)
      | Some d => hex_field (S off) (acc * 16 + d) s'
      end
  end.

(** The loop of [parseIPv6]: [n] is the number of 16-bit fields the address
    still has room for, [ip] the bytes read, [ellipsis] where ["::"] stood. *)
Fixpoint parse6_loop (n : nat) (ip : list Z) (ellipsis : option nat) (s : string)
  : option (list Z * option nat * string) :=
  match n with
  | O => Some (ip, ellipsis, s)
  | S n' =>
      let '(off, acc, rest) := hex_field 0 0 s in
      if (4 <? off)%nat || Nat.eqb off 0 then None
      else if HasPrefix rest "." then
        if bool_decide (ellipsis = None) && negb (Nat.eqb n 2) then None
        else if Nat.eqb n 1 then None
        else match parseIPv4Fields s with
             | Some l => Some (ip ++ l, ellipsis, "")
             | None => None
             end
      else
        let ip := ip ++ [acc / 256; acc mod 256] in
        match rest with
        | "" => Some (ip, ellipsis, "")
        | String c rest =>
            if negb (Ascii.eqb c ":") then None
            else match rest with
                 | "" => None
                 | String c2 rest2 =>
                     if Ascii.eqb c2 ":" then
                       match ellipsis with
                       | Some _ => None
                       | None =>
                           if String.eqb rest2 "" then Some (ip, Some (length ip), "")
                           else parse6_loop n' ip (Some (length ip)) rest2
                       end
                     else parse6_loop n' ip ellipsis rest
                 end
        end
  end.

(** An address and its zone, which must not be empty when there is a ['%']. *)
Definition split_zone (s : string) : option (string * string) :=
  match Cut s "%" with
  | Some (s, z) => if String.eqb z "" then None else Some (s, z)
  | None => Some (s, "")
  end.

Definition parseIPv6 (input : string) : option Addr :=
  match split_zone input with
  | None => None
  | Some (s, zone) =>
    let '(ellipsis, s') := if HasPrefix s "::" then (Some 0%nat, str_drop 2 s) else (None, s) in
    if bool_decide (ellipsis = Some 0%nat) && String.eqb s' "" then Some (Addr6 0 zone)
    else
      match parse6_loop 8 [] ellipsis s' with
      | Some (ip, ell, "") =>
          match ell with
          | None => if Nat.eqb (length ip) 16 then Some (Addr6 (of_bytes ip) zone) else None
          | Some e =>
              if (length ip <? 16)%nat
              then Some (Addr6 (of_bytes (take e ip ++ replicate (16 - length ip) 0 ++ drop e ip)) zone)
              else None
          end
      | _ => None
      end
  end.

(** [netip.ParseAddr]: the first of ['.'], [':'] and ['%'] decides. *)
Fixpoint first_sep (s : string) : option ascii :=
  match s with
  | "" => None
  | String c s =>
      if Ascii.eqb c "." || Ascii.eqb c ":" || Ascii.eqb c "%" then Some c else first_sep s
  end.

Definition ParseAddr (s : string) : option Addr :=
  match first_sep s with
  | Some c =>
      if Ascii.eqb c "." then parseIPv4 s
      else if Ascii.eqb c ":" then parseIPv6 s else None
  | None => None
  end.

(** ** Prefixes *)

(** [pBits] is [-1] in an invalid prefix. *)
Record Prefix := mkPrefix { pAddr : Addr; pBits : Z }.

#[export] Instance Prefix_eq_dec : EqDecision Prefix.
Proof. solve_decision. Defined.
#[export] Instance Prefix_countable : Countable Prefix.
Proof.
  refine (inj_countable' (λ p, (pAddr p, pBits p)) (λ x, mkPrefix x.1 x.2) _).
  by intros [].
Defined.

Definition PrefixFrom (a : Addr) (bits : Z) : Prefix :=
  mkPrefix (WithZone "" a)
    (if IsValid a && (0 <=? bits) && (bits <=? BitLen a) then bits else -1).

(** The mask of the first [n] of [w] bits. *)
Definition mask (w n : Z) : Z := Z.shiftl (Z.ones n) (w - n).

(** [Addr.Prefix]. *)
Definition AddrPrefix (a : Addr) (b : Z) : option Prefix :=
  if b <? 0 then None
  else match a with
       | AddrZero => Some (mkPrefix AddrZero (-1))
       | Addr4 x => if 32 <? b then None else Some (PrefixFrom (Addr4 (Z.land x (mask 32 b))) b)
       | Addr6 x _ => if 128 <? b then None else Some (PrefixFrom (Addr6 (Z.land x (mask 128 b)) "") b)
       end.

Definition Masked (p : Prefix) : Prefix :=
  default (mkPrefix AddrZero (-1)) (AddrPrefix (pAddr p) (pBits p)).

Definition PrefixContains (p : Prefix) (a : Addr) : bool :=
  if (pBits p <? 0) || negb (String.eqb (Zone a) "") then false
  else match pAddr p, a with
       | Addr4 x, Addr4 y => Z.shiftr (Z.lxor y x) (32 - pBits p) =? 0
       | Addr6 x _, Addr6 y _ => Z.land (Z.lxor y x) (mask 128 (pBits p)) =? 0
       | _, _ => false
       end.

(** [netip.ParsePrefix]. *)
Definition ParsePrefix (s : string) : option Prefix :=
  match last_index_byte s slash with
  | None => None
  | Some i =>
      match ParseAddr (str_take i s) with
      | None => None
      | Some a =>
          if Is6 a && negb (String.eqb (Zone a) "") then None
          else
            let bitsStr := str_drop (S i) s in
            let bad := match bitsStr with
                       | String c (String _ _) =>
                           match dec_digit c with Some d => d =? 0 | None => true end
                       | _ => false
                       end in
            if bad then None
            else match ParseInt bitsStr with
                 | None => None
                 | Some bits =>
                     if (bits <? 0) || (BitLen a <? bits) then None
                     else Some (PrefixFrom a bits)
                 end
      end
  end.

(** ** Lemmas *)

Lemma shiftr_lxor_zero x y k : 0 ≤ k →
  Z.shiftr (Z.lxor y x) k = 0 ↔ y / 2 ^ k = x / 2 ^ k.
Proof.
  intros Hk. rewrite Z.shiftr_lxor, Z.lxor_eq_0_iff, !Z.shiftr_div_pow2 by done. done.
Qed.

Lemma land_mask_div w b v : 0 ≤ b ≤ w → 0 ≤ v < 2 ^ w →
  Z.land v (mask w b) = v / 2 ^ (w - b) * 2 ^ (w - b).
Proof.
  intros Hb Hv. unfold mask.
  rewrite <- Z.shiftr_div_pow2, <- Z.shiftl_mul_pow2 by lia.
  apply Z.bits_inj'. intros i Hi.
  rewrite Z.land_spec, !Z.shiftl_spec by lia.
  destruct (Z.ltb_spec i (w - b)).
  - rewrite !(Z.testbit_neg_r _ (i - (w - b))) by lia. by rewrite andb_false_r.
  - rewrite Z.shiftr_spec by lia. replace (i - (w - b) + (w - b)) with i by lia.
    destruct (Z.ltb_spec i w).
    + rewrite Z.testbit_ones_nonneg by lia.
      rewrite (proj2 (Z.ltb_lt _ _)) by lia. by rewrite andb_true_r.
    + destruct (Z.eq_dec v 0) as [->|]; [by rewrite !Z.testbit_0_l|].
      rewrite (Z.bits_above_log2 v i); [done|lia|].
      apply Z.log2_lt_pow2; [lia|]. apply Z.lt_le_trans with (2 ^ w); [lia|].
      apply Z.pow_le_mono_r; lia.
Qed.

Lemma land_mask_zero w b v : 0 ≤ b ≤ w → 0 ≤ v < 2 ^ w →
  Z.land v (mask w b) = 0 ↔ v / 2 ^ (w - b) = 0.
Proof.
  intros Hb Hv. rewrite land_mask_div by done.
  assert (0 < 2 ^ (w - b)) by (apply Z.pow_pos_nonneg; lia).
  rewrite Z.mul_eq_0. lia.
Qed.

Lemma lxor_bound w x y : 0 ≤ w → 0 ≤ x < 2 ^ w → 0 ≤ y < 2 ^ w → 0 ≤ Z.lxor x y < 2 ^ w.
Proof.
  intros Hw Hx Hy. split; [apply Z.lxor_nonneg; lia|].
  destruct (Z.eq_dec (Z.lxor x y) 0) as [->|Hne]; [apply Z.pow_pos_nonneg; lia|].
  assert (0 ≤ Z.lxor x y) by (apply Z.lxor_nonneg; lia).
  assert (Hlog : ∀ v, 0 ≤ v < 2 ^ w → v = 0 ∨ Z.log2 v < w).
  { intros v Hv. destruct (Z.eq_dec v 0); [by left|right]. apply Z.log2_lt_pow2; lia. }
  destruct (Hlog x Hx) as [->|Hlx]; [rewrite Z.lxor_0_l; lia|].
  destruct (Hlog y Hy) as [->|Hly]; [rewrite Z.lxor_0_r; lia|].
  apply Z.log2_lt_pow2; [lia|]. pose proof (Z.log2_lxor x y). lia.
Qed.

(** The numeric value of an address and the width of its family. *)
Definition addr_bits (a : Addr) : Z :=
  match a with AddrZero => 0 | Addr4 x => x | Addr6 x _ => x end.

Definition same_family (a b : Addr) : Prop :=
  match a, b with
  | Addr4 _, Addr4 _ => True
  | Addr6 _ _, Addr6 _ _ => True
  | _, _ => False
  end.

(** [Contains] is membership of a block of [2 ^ (w - bits)] addresses aligned
    at that size, in one address family. *)
Lemma PrefixContains_spec p a :
  addr_wf (pAddr p) → addr_wf a → pBits p ≤ BitLen (pAddr p) →
  PrefixContains p a = true ↔
  0 ≤ pBits p ∧ Zone a = "" ∧ same_family (pAddr p) a ∧
  addr_bits a / 2 ^ (BitLen (pAddr p) - pBits p) =
  addr_bits (pAddr p) / 2 ^ (BitLen (pAddr p) - pBits p).
Proof.
  intros Hp Ha Hb. unfold PrefixContains.
  destruct (Z.ltb_spec (pBits p) 0); cbn [orb]; [split; [done|lia]|].
  destruct (String.eqb_spec (Zone a) "") as [Hz|Hz]; cbn [negb]; [|naive_solver].
  destruct (pAddr p) as [|x|x z], a as [|y|y z']; cbn in *;
    try (split; [done|by intros (_ & _ & [] & _)]).
  - rewrite Z.eqb_eq, shiftr_lxor_zero by lia. naive_solver.
  - rewrite Z.eqb_eq, land_mask_zero by (try lia; apply lxor_bound; lia).
    rewrite <- Z.shiftr_div_pow2, shiftr_lxor_zero by lia. naive_solver.
Qed.

(** Masking keeps the members of a prefix: [10.1.2.3/8] is [10.0.0.0/8]. *)
Lemma Masked_Contains p a :
  addr_wf (pAddr p) → addr_wf a → pBits p ≤ BitLen (pAddr p) →
  PrefixContains (Masked p) a = PrefixContains p a.
Proof.
  intros Hp Ha Hb.
  destruct (Z.ltb_spec (pBits p) 0) as [Hneg|Hpos].
  { unfold PrefixContains, Masked, AddrPrefix.
    by rewrite (proj2 (Z.ltb_lt _ _) Hneg). }
  assert (Hdiv : ∀ w x, 0 ≤ pBits p ≤ w → 0 ≤ x < 2 ^ w →
            0 ≤ Z.land x (mask w (pBits p)) < 2 ^ w ∧
            Z.land x (mask w (pBits p)) / 2 ^ (w - pBits p) = x / 2 ^ (w - pBits p)).
  { intros w x Hw Hx. rewrite land_mask_div by lia.
    assert (0 < 2 ^ (w - pBits p)) by (apply Z.pow_pos_nonneg; lia).
    rewrite Z.div_mul by lia. pose proof (Z.mul_div_le x (2 ^ (w - pBits p))).
    assert (0 ≤ x / 2 ^ (w - pBits p)) by (apply Z.div_pos; lia). nia. }
  destruct (pAddr p) as [|x|x z] eqn:Ep; cbn in Hp, Hb.
  - unfold PrefixContains, Masked, AddrPrefix. rewrite Ep. cbn.
    rewrite (proj2 (Z.ltb_ge (pBits p) 0)) by lia. cbn. by destruct (negb _).
  - destruct (Hdiv 32 x) as [Hr Hd]; [lia|lia|].
    assert (Hm : Masked p = mkPrefix (Addr4 (Z.land x (mask 32 (pBits p)))) (pBits p)).
    { unfold Masked, AddrPrefix, PrefixFrom. rewrite Ep. cbn.
      rewrite (proj2 (Z.ltb_ge (pBits p) 0)), (proj2 (Z.ltb_ge 32 (pBits p))) by lia. cbn.
      by rewrite !(proj2 (Z.leb_le _ _)) by lia. }
    apply eq_true_iff_eq. rewrite Hm, !PrefixContains_spec by (try rewrite Ep; done).
    cbn. rewrite Ep. cbn. by rewrite Hd.
  - destruct (Hdiv 128 x) as [Hr Hd]; [lia|lia|].
    assert (Hm : Masked p = mkPrefix (Addr6 (Z.land x (mask 128 (pBits p))) "") (pBits p)).
    { unfold Masked, AddrPrefix, PrefixFrom. rewrite Ep. cbn.
      rewrite (proj2 (Z.ltb_ge (pBits p) 0)), (proj2 (Z.ltb_ge 128 (pBits p))) by lia. cbn.
      by rewrite !(proj2 (Z.leb_le _ _)) by lia. }
    apply eq_true_iff_eq. rewrite Hm, !PrefixContains_spec by (try rewrite Ep; done).
    cbn. rewrite Ep. cbn. by rewrite Hd.
Qed.

(** *** What the parsers return is well formed *)

Lemma dec_digit_range c d : dec_digit c = Some d → 0 ≤ d ≤ 9.
Proof.
  unfold dec_digit. destruct (_ && _)%bool eqn:H; [|done]. intros [= <-]. breflect. lia.
Qed.

Lemma hex_digit_range c d : hex_digit c = Some d → 0 ≤ d ≤ 15.
Proof. unfold hex_digit. repeat case_goal; intros [= <-]; breflect; lia. Qed.

Lemma octet_from_range s val n v : 0 ≤ val ≤ 255 → octet_from val n s = Some v → 0 ≤ v ≤ 255.
Proof.
  revert val n. induction s as [|c s IH]; intros val n Hval; cbn.
  - destruct (Nat.eqb n 0); [done|]. by intros [= <-].
  - destruct (dec_digit c) as [d|] eqn:Hd; [|done]. apply dec_digit_range in Hd.
    destruct (_ && _)%bool; [done|]. destruct (Z.ltb_spec 255 (val * 10 + d)); [done|].
    apply IH. lia.
Qed.

Definition is_byte (z : Z) : Prop := 0 ≤ z ≤ 255.

Lemma parseIPv4Fields_bytes s l : parseIPv4Fields s = Some l → length l = 4%nat ∧ Forall is_byte l.
Proof.
  unfold parseIPv4Fields.
  destruct (mapM parse_octet (Split s ".")) as [k|] eqn:Hk; [|done].
  apply mapM_Some in Hk. intros H.
  assert (Hl : k = l ∧ length l = 4%nat).
  { destruct k as [|? [|? [|? [|? [|]]]]]; by simplify_eq. }
  destruct Hl as [-> ?]. split; [done|].
  eapply Forall2_Forall_r; [exact Hk|]. apply Forall_forall. intros t _ v Hv.
  eapply octet_from_range; [|exact Hv]. lia.
Qed.

Lemma of_bytes_app l k : of_bytes (l ++ k) = of_bytes l * 256 ^ Z.of_nat (length k) + of_bytes k.
Proof.
  unfold of_bytes. rewrite fold_left_app. generalize (fold_left (λ acc b, acc * 256 + b) l 0).
  induction k as [|b k IH] using rev_ind; intros z; cbn; [lia|].
  rewrite !fold_left_app, IH, length_app. cbn.
  rewrite Nat2Z.inj_add, Z.pow_add_r by lia. cbn. rewrite Z.pow_1_r. lia.
Qed.

Lemma of_bytes_range l : Forall is_byte l → 0 ≤ of_bytes l < 256 ^ Z.of_nat (length l).
Proof.
  induction l as [|b l IH] using rev_ind; [cbn; lia|].
  intros [Hl [Hb _]%Forall_cons]%Forall_app. specialize (IH Hl).
  rewrite of_bytes_app, length_app, Nat2Z.inj_add, Z.pow_add_r by lia.
  unfold is_byte in Hb. change (of_bytes [b]) with b.
  change (256 ^ Z.of_nat (length [b])) with 256. lia.
Qed.

Lemma hex_field_value off acc s k v rest :
  hex_field off acc s = (k, v, rest) → 0 ≤ acc < 16 ^ Z.of_nat off →
  0 ≤ v < 16 ^ Z.of_nat k.
Proof.
  revert off acc. induction s as [|c s IH]; intros off acc; cbn.
  - by intros [= <- <- <-].
  - destruct (hex_digit c) as [d|] eqn:Hd; [|by intros [= <- <- <-]].
    apply hex_digit_range in Hd. intros H Hacc. eapply IH; [exact H|].
    rewrite Nat2Z.inj_succ, Z.pow_succ_r by lia. lia.
Qed.

Lemma parse6_loop_bytes n ip e s ip' e' s' :
  Forall is_byte ip → (length ip + 2 * n = 16)%nat →
  (∀ k, e = Some k → (k ≤ length ip)%nat) →
  parse6_loop n ip e s = Some (ip', e', s') →
  Forall is_byte ip' ∧ (length ip' ≤ 16)%nat ∧ (∀ k, e' = Some k → (k ≤ length ip')%nat).
Proof.
  revert ip e s. induction n as [|n IH]; intros ip e s Hip Hlen He; cbn [parse6_loop].
  { intros [= <- <- <-]. split; [done|]. split; [lia|done]. }
  destruct (hex_field 0 0 s) as [[off acc] rest] eqn:Hf.
  destruct ((4 <? off)%nat || Nat.eqb off 0) eqn:Hoff; [done|].
  apply orb_false_iff in Hoff as [Hoff _]. apply Nat.ltb_ge in Hoff.
  assert (Hacc : 0 ≤ acc < 65536).
  { apply hex_field_value in Hf; [|cbn; lia].
    assert (16 ^ Z.of_nat off ≤ 16 ^ 4) by (apply Z.pow_le_mono_r; lia). lia. }
  assert (Hip2 : Forall is_byte (ip ++ [acc / 256; acc mod 256])).
  { apply Forall_app. split; [done|].
    rewrite !Forall_cons. unfold is_byte. pose proof (Z.mod_pos_bound acc 256).
    assert (0 ≤ acc / 256) by (apply Z.div_pos; lia).
    assert (acc / 256 < 256) by (apply Z.div_lt_upper_bound; lia).
    split; [lia|]. split; [lia|constructor]. }
  assert (Hlen2 : length (ip ++ [acc / 256; acc mod 256]) = (length ip + 2)%nat)
    by (rewrite length_app; cbn; lia).
  destruct (HasPrefix rest "."); [|destruct rest as [|c rest]].
  - destruct (_ && _)%bool; [done|]. destruct (Nat.eqb_spec (S n) 1); [done|].
    destruct (parseIPv4Fields s) as [l|] eqn:Hl; [|done].
    apply parseIPv4Fields_bytes in Hl as [Hl4 Hl]. intros [= <- <- <-].
    rewrite length_app. split; [by apply Forall_app|]. split; [lia|].
    intros k ->. specialize (He k eq_refl). lia.
  - intros [= <- <- <-]. split; [done|]. split; [lia|]. intros k ->.
    specialize (He k eq_refl). lia.
  - destruct (negb _); [done|]. destruct rest as [|c2 rest2]; [done|].
    destruct (Ascii.eqb c2 ":").
    + destruct e; [done|]. destruct (String.eqb rest2 "").
      * intros [= <- <- <-]. split; [done|]. split; [lia|]. by intros k [= <-].
      * intros H. eapply IH; [done| |  |exact H]; [lia|]. by intros k [= <-].
    + intros H. eapply IH; [done| | |exact H]; [lia|]. intros k ->.
      specialize (He k eq_refl). lia.
Qed.

Lemma ParseAddr_wf s a : ParseAddr s = Some a → addr_wf a.
Proof.
  assert (H4 : parseIPv4 s = Some a → addr_wf a).
  { unfold parseIPv4. destruct (parseIPv4Fields s) as [l|] eqn:Hl; [|done].
    intros [= <-]. apply parseIPv4Fields_bytes in Hl as [Hlen Hl]. apply of_bytes_range in Hl.
    by rewrite Hlen in Hl. }
  assert (H6 : parseIPv6 s = Some a → addr_wf a).
  { unfold parseIPv6. destruct (split_zone s) as [[t z]|]; [|done].
    assert (Hloop : ∀ e t', (∀ k, e = Some k → k = 0%nat) →
      match parse6_loop 8 [] e t' with
      | Some (ip, None, "") =>
          if Nat.eqb (length ip) 16 then Some (Addr6 (of_bytes ip) z) else None
      | Some (ip, Some e, "") =>
          if (length ip <? 16)%nat
          then Some (Addr6 (of_bytes (take e ip ++ replicate (16 - length ip) 0 ++ drop e ip)) z)
          else None
      | _ => None
      end = Some a → addr_wf a).
    { intros e t' He. destruct (parse6_loop 8 [] e t') as [[[ip e'] s']|] eqn:Hp; [|done].
      apply parse6_loop_bytes in Hp as (Hb & Hlen & He'); [|done|done|].
      2:{ intros k Hk. apply He in Hk as ->. cbn. lia. }
      destruct e' as [k|], s'; try done.
      - destruct (Nat.ltb_spec (length ip) 16); [|done]. intros [= <-]. cbn.
        specialize (He' k eq_refl).
        assert (Hl : Forall is_byte (take k ip ++ replicate (16 - length ip) 0 ++ drop k ip)).
        { rewrite !Forall_app. split; [by apply Forall_take|]. split; [|by apply Forall_drop].
          apply Forall_replicate. unfold is_byte. lia. }
        apply of_bytes_range in Hl.
        rewrite !length_app, length_take, length_replicate, length_drop in Hl.
        replace (k `min` length ip + (16 - length ip + (length ip - k)))%nat with 16%nat in Hl by lia.
        done.
      - destruct (Nat.eqb_spec (length ip) 16) as [Hl|]; [|done]. intros [= <-]. cbn.
        apply of_bytes_range in Hb. by rewrite Hl in Hb. }
    destruct (HasPrefix t "::").
    - cbn [andb bool_decide]. destruct (_ && _)%bool; [intros [= <-]; cbn; lia|].
      intros H. apply (Hloop (Some 0%nat) (str_drop 2 t)); [by intros k [= <-]|].
      destruct (parse6_loop 8 [] (Some 0%nat) (str_drop 2 t)) as [[[ip [e'|]] s']|]; done.
    - cbn [andb]. intros H. apply (Hloop None t); [done|].
      destruct (parse6_loop 8 [] None t) as [[[ip [e'|]] s']|]; done. }
  unfold ParseAddr. destruct (first_sep s) as [c|]; [|done].
  destruct (Ascii.eqb c "."); [done|]. by destruct (Ascii.eqb c ":").
Qed.

Lemma ParseAddr_valid s a : ParseAddr s = Some a → IsValid a = true.
Proof.
  unfold ParseAddr, parseIPv4, parseIPv6. destruct (first_sep s) as [c|]; [|done].
  destruct (Ascii.eqb c "."); [by destruct (parseIPv4Fields s); intros [= <-]|].
  destruct (Ascii.eqb c ":"); [|done]. destruct (split_zone s) as [[t z]|]; [|done].
  destruct (if HasPrefix t "::" then _ else _) as [e t'].
  destruct (_ && _)%bool; [by intros [= <-]|].
  destruct (parse6_loop 8 [] e t') as [[[ip [e'|]] [|]]|]; try done;
    destruct (_ : bool); try done; by intros [= <-].
Qed.

Lemma WithZone_wf z a : addr_wf a → addr_wf (WithZone z a).
Proof. by destruct a. Qed.

Lemma Unmap_wf a : addr_wf a → addr_wf (Unmap a).
Proof.
  destruct a as [| |x z]; cbn; [done|done|]. intros Hx.
  destruct (Z.shiftr x 32 =? 65535); [cbn|done].
  rewrite Z.land_ones by lia. apply Z.mod_pos_bound. lia.
Qed.

Lemma ParsePrefix_wf s p :
  ParsePrefix s = Some p → addr_wf (pAddr p) ∧ 0 ≤ pBits p ≤ BitLen (pAddr p).
Proof.
  unfold ParsePrefix. destruct (last_index_byte s slash) as [i|]; [|done].
  destruct (ParseAddr (str_take i s)) as [a|] eqn:Ha; [|done].
  pose proof (ParseAddr_valid _ _ Ha) as HV. apply ParseAddr_wf in Ha.
  destruct (_ && _)%bool; [done|].
  lazymatch goal with |- context [if ?b then None else _] => destruct b; [done|] end.
  destruct (ParseInt (str_drop (S i) s)) as [b|]; [|done].
  destruct (_ || _)%bool eqn:Hb; [done|]. intros [= <-]. breflect. cbn.
  split; [by apply WithZone_wf|].
  rewrite HV, !(proj2 (Z.leb_le _ _)) by lia. cbn. destruct a; cbn in *; lia.
Qed.

Module NetIPExamples.

Example parse_v4 : ParseAddr "203.0.113.5" = Some (Addr4 3405803781).
Proof. reflexivity. Qed.
Example parse_leading_zero : ParseAddr "203.0.113.05" = None.
Proof. reflexivity. Qed.
Example parse_mapped :
  Unmap <$> ParseAddr "::ffff:203.0.113.5" = Some (Addr4 3405803781).
Proof. reflexivity. Qed.
Example parse_v6 : ParseAddr "2001:db8::1%eth0" = Some (Addr6 (0x20010db8 * 2 ^ 96 + 1) "eth0").
Proof. reflexivity. Qed.
Example parse_two_ellipses : ParseAddr "1::2::3" = None.
Proof. reflexivity. Qed.
Example parse_prefix :
  (λ p, PrefixContains p (Addr4 3405803781)) <$> ParsePrefix "203.0.113.77/24" = Some true.
Proof. reflexivity. Qed.
Example parse_prefix_sign : ParsePrefix "10.0.0.0/08" = None.
Proof. reflexivity. Qed.

End NetIPExamples.
