(* ===== verification/GoFloat.v ===== *)
(** * Floating point, as Go's [float64]

    IEEE 754 binary64 by the executable specification of the standard library:
    53 bits of precision, exponents up to 1024. *)
From Stdlib Require Import SpecFloat.
From S2P Require Import Prelude.

Definition float64 := spec_float.

Definition f64_prec : Z := 53.
Definition f64_emax : Z := 1024.

(** [float64(z)]: exact up to [2 ^ 53], rounded to nearest even above. *)
Definition f64_of_Z (z : Z) : float64 :=
  if Z.abs z <=? 2 ^ 53 then
    match z with
    | Z0 => S754_zero false
    | Zpos m => S754_finite false m 0
    | Zneg m => S754_finite true m 0
    end
  else binary_normalize f64_prec f64_emax z 0 false.

Definition f64_mul : float64 → float64 → float64 := SFmul f64_prec f64_emax.
Definition f64_div : float64 → float64 → float64 := SFdiv f64_prec f64_emax.
Definition f64_add : float64 → float64 → float64 := SFadd f64_prec f64_emax.
Definition f64_sub : float64 → float64 → float64 := SFsub f64_prec f64_emax.
Definition f64_zero : float64 := S754_zero false.

(** The sign and magnitude of a finite float: [n * 2 ^ e]. *)
Definition f64_finite (x : float64) : option (Z * Z) :=
  match x with
  | S754_zero _ => Some (0, 0)
  | S754_finite s m e => Some (if s then Z.neg m else Z.pos m, e)
  | _ => None
  end.

(** Comparison is of the numbers the floats stand for; nothing compares with
    a NaN. *)
Definition f64_compare (x y : float64) : option comparison :=
  match x, y with
  | S754_nan, _ | _, S754_nan => None
  | S754_infinity s, S754_infinity t =>
      Some (if Bool.eqb s t then Eq else if s then Lt else Gt)
  | S754_infinity s, _ => Some (if s then Lt else Gt)
  | _, S754_infinity t => Some (if t then Gt else Lt)
  | _, _ =>
      match f64_finite x, f64_finite y with
      | Some (n, e), Some (m, f) =>
          let g := Z.min e f in Some (n * 2 ^ (e - g) ?= m * 2 ^ (f - g))
      | _, _ => None
      end
  end.

Definition f64_ltb (x y : float64) : bool :=
  match f64_compare x y with Some Lt => true | _ => false end.
Definition f64_leb (x y : float64) : bool :=
  match f64_compare x y with Some Lt | Some Eq => true | _ => false end.
Definition f64_eqb (x y : float64) : bool :=
  match f64_compare x y with Some Eq => true | _ => false end.

(** [int(math.Ceil(x))]; a value an [int] cannot hold becomes the smallest
    one, as the conversion does on amd64. *)
Definition f64_ceil_int (x : float64) : Z :=
  match x with
  | S754_zero _ => 0
  | S754_finite s m e =>
      let n := if s then Z.neg m else Z.pos m in
      let z := if 0 <=? e then n * 2 ^ e else - ((- n) / 2 ^ (- e)) in
      if (int64_min <=? z) && (z <=? int64_max) then z else int64_min
  | _ => int64_min
  end.

Example f64_tenth : f64_ceil_int (f64_div (f64_of_Z 1) (f64_of_Z 10)) = 1.
Proof. reflexivity. Qed.
Example f64_mul_div : f64_ceil_int (f64_mul (f64_of_Z 7) (f64_div (f64_of_Z 5) (f64_of_Z 2))) = 18.
Proof. reflexivity. Qed.

(** An integer is at most a float exactly when it is at most its floor. *)
Lemma f64_leb_floor h m e :
  0 ≤ h ≤ 2 ^ 53 →
  f64_leb (f64_of_Z h) (S754_finite false m e) = true ↔
  h ≤ if 0 <=? e then Z.pos m * 2 ^ e else Z.pos m / 2 ^ (- e).
Proof.
  intros Hh. unfold f64_of_Z. rewrite (proj2 (Z.leb_le _ _)) by lia.
  assert (Hc : f64_compare (match h with Z0 => S754_zero false | Zpos m => S754_finite false m 0
                            | Zneg m => S754_finite true m 0 end) (S754_finite false m e) =
          Some (h * 2 ^ (0 - Z.min 0 e) ?= Z.pos m * 2 ^ (e - Z.min 0 e))).
  { by destruct h. }
  unfold f64_leb. rewrite Hc. clear Hc.
  assert (Hle : (match Some (h * 2 ^ (0 - Z.min 0 e) ?= Z.pos m * 2 ^ (e - Z.min 0 e)) with
                 | Some Lt | Some Eq => true | _ => false end) = true ↔
                h * 2 ^ (0 - Z.min 0 e) ≤ Z.pos m * 2 ^ (e - Z.min 0 e)).
  { unfold Z.le. by destruct (_ ?= _). }
  rewrite Hle. destruct (Z.leb_spec 0 e).
  - rewrite Z.min_l by lia. rewrite !Z.sub_0_r. cbn. by rewrite Z.mul_1_r.
  - rewrite Z.min_r by lia. rewrite Z.sub_diag, Z.sub_0_l, Z.pow_0_r, Z.mul_1_r.
    assert (0 < 2 ^ (- e)) by (apply Z.pow_pos_nonneg; lia). split.
    + intros. apply Z.div_le_lower_bound; lia.
    + intros Hq. pose proof (Z.mul_div_le (Z.pos m) (2 ^ (- e))). nia.
Qed.

(** The largest integer a float that is not negative is no less than. *)
Definition threshold (x : float64) : option Z :=
  match x with
  | S754_zero _ => Some 0
  | S754_finite false m e => Some (if 0 <=? e then Z.pos m * 2 ^ e else Z.pos m / 2 ^ (- e))
  | _ => None
  end.

Lemma f64_leb_threshold h x t :
  0 ≤ h ≤ 2 ^ 53 → threshold x = Some t → f64_leb (f64_of_Z h) x = true ↔ h ≤ t.
Proof.
  intros Hh. destruct x as [s|s| |[] m e]; cbn [threshold]; try done; intros [= <-].
  - destruct h as [|p|p]; [done| |lia]. unfold f64_of_Z. rewrite (proj2 (Z.leb_le _ _)) by lia.
    unfold f64_leb, f64_compare. cbn. split; [done|lia].
  - by apply f64_leb_floor.
Qed.

(** ** Floats that are not negative *)

Definition f64_nonneg (x : float64) : Prop :=
  match x with S754_zero s | S754_infinity s | S754_finite s _ _ => s = false | S754_nan => False end.

Lemma shr_1_nonneg r : 0 ≤ shr_m r → 0 ≤ shr_m (shr_1 r).
Proof. destruct r as [[|[]|[]] ? ?]; cbn; lia. Qed.

Lemma iter_shr_1_nonneg n r : 0 ≤ shr_m r → 0 ≤ shr_m (SpecFloat.iter_pos shr_1 n r).
Proof. revert r. induction n as [n IH|n IH|]; intros r Hr; cbn; auto using shr_1_nonneg. Qed.

Lemma shr_fexp_nonneg prec emax m e l : 0 ≤ m → 0 ≤ shr_m (shr_fexp prec emax m e l).1.
Proof.
  intros Hm. unfold shr_fexp, shr. assert (H0 : 0 ≤ shr_m (shr_record_of_loc m l)) by by destruct l as [|[]].
  destruct (_ - e); cbn; [done| |done]. by apply iter_shr_1_nonneg.
Qed.

(** Rounding keeps the sign. *)
Lemma binary_round_aux_nonneg prec emax m e l : 0 ≤ m → f64_nonneg (binary_round_aux prec emax false m e l).
Proof.
  intros Hm. unfold binary_round_aux. pose proof (shr_fexp_nonneg prec emax m e l Hm) as H1. destruct (shr_fexp prec emax m e l) as [r1 e1]; cbn in H1.
  assert (H2 : 0 ≤ round_nearest_even (shr_m r1) (loc_of_shr_record r1)).
  { unfold round_nearest_even. repeat case_match; lia. }
  pose proof (shr_fexp_nonneg prec emax _ e1 loc_Exact H2) as H3. destruct (shr_fexp prec emax _ e1 loc_Exact) as [r2 e2]; cbn in H3.
  destruct (shr_m r2); cbn; [done| |lia]. by case_match.
Qed.

Lemma binary_normalize_nonneg prec emax m e : 0 ≤ m → f64_nonneg (binary_normalize prec emax m e false).
Proof.
  intros Hm. destruct m; cbn; [done| |lia]. unfold binary_round. destruct (shl_align _ _ _). by apply binary_round_aux_nonneg.
Qed.

Lemma f64_of_Z_nonneg z : 0 ≤ z → f64_nonneg (f64_of_Z z).
Proof. intros Hz. unfold f64_of_Z. case_match; [|by apply binary_normalize_nonneg]. by destruct z. Qed.

Lemma f64_add_nonneg x y : f64_nonneg x → f64_nonneg y → f64_nonneg (f64_add x y).
Proof.
  destruct x as [s|s| |s m e], y as [t|t| |t n f]; cbn; try done; intros -> ->; try done.
  by apply binary_normalize_nonneg.
Qed.

Lemma f64_add_zero x : f64_nonneg x → f64_add x f64_zero = x.
Proof. by destruct x as [[]|[]| |[] m e]. Qed.

Lemma f64_div_nonneg x m e : f64_nonneg x → f64_nonneg (f64_div x (S754_finite false m e)).
Proof.
  destruct x as [s|s| |s n f]; cbn; try done; intros ->; try done. unfold f64_div, SFdiv, SFdiv_core_binary.
  set (k := match _ - _ with Z0 => _ | Zpos _ => _ | Zneg _ => _ end).
  assert (Hk : 0 ≤ k) by (unfold k; case_match; [lia|apply Z.shiftl_nonneg; lia|lia]).
  pose proof (Z_div_mod k (Zpos m) ltac:(lia)) as Hd. destruct (Z.div_eucl k (Zpos m)) as [q r]. apply binary_round_aux_nonneg. nia.
Qed.

(** They are ordered as the numbers they stand for. *)
Definition f64_at (g : Z) (x : float64) : Z := match f64_finite x with Some (n, e) => n * 2 ^ (e - g) | None => 0 end.

Lemma f64_compare_at g x y n e m f :
  f64_finite x = Some (n, e) → f64_finite y = Some (m, f) → g ≤ e → g ≤ f → f64_compare x y = Some (f64_at g x ?= f64_at g y).
Proof.
  intros Hx Hy He Hf. unfold f64_at. rewrite Hx, Hy. set (h := Z.min e f).
  assert (Hc : f64_compare x y = Some (n * 2 ^ (e - h) ?= m * 2 ^ (f - h))).
  { destruct x, y; cbn in *; try done; by simplify_eq. }
  rewrite Hc. f_equal.
  assert (Hshift : ∀ k i, h ≤ i → k * 2 ^ (i - g) = (k * 2 ^ (i - h)) * 2 ^ (h - g)).
  { intros k i ?. rewrite <-Z.mul_assoc, <-Z.pow_add_r by lia. do 2 f_equal. lia. }
  rewrite (Hshift n e), (Hshift m f) by lia. assert (0 < 2 ^ (h - g)) by (apply Z.pow_pos_nonneg; lia). by apply Zmult_compare_compat_r, Z.lt_gt.
Qed.

Lemma f64_compare_swap x y : f64_compare y x = CompOpp <$> f64_compare x y.
Proof.
  destruct (f64_finite x) as [[n e]|] eqn:Hx, (f64_finite y) as [[m f]|] eqn:Hy.
  - rewrite (f64_compare_at (Z.min e f) x y n e m f), (f64_compare_at (Z.min e f) y x m f n e) by (done || lia). cbn. f_equal. apply Z.compare_antisym.
  - by destruct x, y as [|[]| |]; cbn in *.
  - by destruct x as [|[]| |], y; cbn in *.
  - by destruct x as [|[]| |], y as [|[]| |]; cbn in *.
Qed.

Lemma f64_compare_nonneg x y : f64_nonneg x → f64_nonneg y → is_Some (f64_compare x y).
Proof.
  intros Hx Hy. destruct (f64_finite x) as [[n e]|] eqn:Hfx, (f64_finite y) as [[m f]|] eqn:Hfy.
  - rewrite (f64_compare_at (Z.min e f) x y n e m f) by (done || lia). eauto.
  - destruct x, y; cbn in *; try done; eauto.
  - destruct x, y; cbn in *; try done; eauto.
  - destruct x, y; cbn in *; try done; eauto.
Qed.

Lemma f64_ltb_leb x y : f64_nonneg x → f64_nonneg y → f64_ltb x y = negb (f64_leb y x).
Proof.
  intros Hx Hy. unfold f64_ltb, f64_leb. rewrite (f64_compare_swap x y). destruct (f64_compare_nonneg x y Hx Hy) as [c ->]. by destruct c.
Qed.

Lemma f64_leb_refl x : f64_nonneg x → f64_leb x x = true.
Proof.
  intros Hx. destruct (f64_finite x) as [[n e]|] eqn:Hf; [|by destruct x as [|[]| |]].
  unfold f64_leb. rewrite (f64_compare_at e x x n e n e) by done. by rewrite Z.compare_refl.
Qed.

Lemma f64_leb_trans x y z : f64_nonneg x → f64_nonneg y → f64_nonneg z → f64_leb x y = true → f64_leb y z = true → f64_leb x z = true.
Proof.
  intros Hx Hy Hz. destruct (f64_finite z) as [[k h]|] eqn:Hfz; [|by destruct x as [|[]| |[]], z as [|[]| |]; cbn in *].
  destruct (f64_finite y) as [[m f]|] eqn:Hfy; [|by destruct y as [|[]| |], z as [|[]| |[]]; cbn in *].
  destruct (f64_finite x) as [[n e]|] eqn:Hfx; [|by destruct x as [|[]| |], y as [|[]| |[]]; cbn in *].
  set (g := Z.min e (Z.min f h)). unfold f64_leb.
  rewrite (f64_compare_at g x y n e m f), (f64_compare_at g y z m f k h), (f64_compare_at g x z n e k h) by (done || lia).
  destruct (Z.compare_spec (f64_at g x) (f64_at g y)), (Z.compare_spec (f64_at g y) (f64_at g z)), (Z.compare_spec (f64_at g x) (f64_at g z)); (done || lia).
Qed.

Lemma f64_leb_zero x : f64_nonneg x → f64_leb f64_zero x = true.
Proof.
  intros Hx. destruct x as [s|s| |s m e]; cbn in Hx; try done; subst s; [done|]. unfold f64_leb.
  rewrite (f64_compare_at (Z.min 0 e) _ _ 0 0 (Zpos m) e) by (done || lia). unfold f64_at. cbn [f64_finite f64_zero].
  assert (0 < 2 ^ (e - Z.min 0 e)) by (apply Z.pow_pos_nonneg; lia). rewrite (proj2 (Z.compare_lt_iff _ _)); [done|lia].
Qed.

Lemma f64_leb_zero_inv x : f64_nonneg x → f64_leb x f64_zero = true → x = f64_zero.
Proof.
  intros Hx. destruct x as [s|s| |s m e]; cbn in Hx; try done; subst s; [done..|]. unfold f64_leb.
  rewrite (f64_compare_at (Z.min 0 e) _ _ (Zpos m) e 0 0) by (done || lia). unfold f64_at. cbn [f64_finite f64_zero].
  assert (0 < 2 ^ (e - Z.min 0 e)) by (apply Z.pow_pos_nonneg; lia). rewrite (proj2 (Z.compare_gt_iff _ _)); [done|lia].
Qed.
