(* ===== verification/TargetQueue.v ===== *)
(** * Queue times of a target: [internal/server/target_queue.go]

    The last minute of queue times, in a ring of one-second slots.  A slot is
    reused for the second that maps to it, and what is too old is left out when
    the ring is read; nothing sweeps it. *)
From S2P Require Import Prelude GoFloat.

Definition queueWindowSeconds : Z := 60.

(** [metrics.TargetQueueBucketsMs] *)
Definition TargetQueueBucketsMs : list float64 := f64_of_Z <$> [1; 2; 5; 10; 25; 50; 100; 250; 500; 1000; 2500; 5000].

Inductive QueueSource := queueSourceApp | queueSourceProxy.

Record QueueBucket := mkBucket { LeMs : float64; Count : Z }.

Record QueueDescription := mkDescription {
  WindowSeconds : Z;
  qRequests : Z;
  qSumMs : float64;
  qMaxMs : float64;
  qP95Ms : float64;
  qApp : Z;
  qProxy : Z;
  qBuckets : list QueueBucket }.

Record queueSlot := mkSlot {
  slSecond : Z;
  slBuckets : list Z;
  slCount : Z;
  slApp : Z;
  slProxy : Z;
  slSumMs : float64;
  slMaxMs : float64 }.

Definition emptySlot (second : Z) : queueSlot :=
  mkSlot second (replicate (S (length TargetQueueBucketsMs)) 0) 0 0 0 f64_zero f64_zero.

Definition newQueueWindow : list queueSlot := replicate (Z.to_nat queueWindowSeconds) (emptySlot 0).

(** [max] of floats *)
Definition f64_max (x y : float64) : float64 := if f64_ltb x y then y else x.

(** [sort.SearchFloat64s] in the bounds: the first that is not below. *)
Definition searchBucket (ms : float64) : nat :=
  match list_find (λ bound, f64_ltb bound ms = false) TargetQueueBucketsMs with
  | Some (i, _) => i
  | None => length TargetQueueBucketsMs
  end.

(** An observation: the second of the clock, the time in the queue in
    nanoseconds, and whose measurement it is. *)
Record Observation := mkObservation { obSecond : Z; obQueue : Z; obSource : QueueSource }.

Definition queueMs (queue : Z) : float64 := f64_div (f64_of_Z queue) (f64_of_Z 1000000).

Definition addToSlot (o : Observation) (slot : queueSlot) : queueSlot :=
  let ms := queueMs (obQueue o) in
  let app := match obSource o with queueSourceApp => 1 | queueSourceProxy => 0 end in
  mkSlot (slSecond slot) (alter (Z.add 1) (searchBucket ms) (slBuckets slot)) (slCount slot + 1) (slApp slot + app) (slProxy slot + (1 - app))
    (f64_add (slSumMs slot) ms) (f64_max (slMaxMs slot) ms).

(** [Observe] *)
Definition Observe (o : Observation) (w : list queueSlot) : list queueSlot :=
  let second := obSecond o in
  alter (λ slot, addToSlot o (if slSecond slot =? second then slot else emptySlot second))
    (Z.to_nat (second mod queueWindowSeconds)) w.

(** [bucketQuantile]: buckets with their bound and cumulative count, from the
    bucket before. *)
Fixpoint quantileFrom (rank lowerBound : float64) (lowerCount : Z) (buckets : list QueueBucket) : float64 :=
  match buckets with
  | [] => lowerBound
  | b :: buckets =>
      if f64_leb rank (f64_of_Z (Count b)) then
        let position := f64_div (f64_sub rank (f64_of_Z lowerCount)) (f64_of_Z (Count b - lowerCount)) in
        f64_add lowerBound (f64_mul (f64_sub (LeMs b) lowerBound) position)
      else quantileFrom rank (LeMs b) (Count b) buckets
  end.

Definition queueQuantile : float64 := f64_div (f64_of_Z 95) (f64_of_Z 100).

Definition bucketQuantile (quantile : float64) (buckets : list QueueBucket) (total : Z) : float64 :=
  if total =? 0 then f64_zero else quantileFrom (f64_mul quantile (f64_of_Z total)) f64_zero 0 buckets.

(** Is the slot of the last minute?  Its age is negative when the clock was set
    back. *)
Definition recentSlot (now : Z) (slot : queueSlot) : bool :=
  let age := now - slSecond slot in negb ((age <? 0) || (queueWindowSeconds <=? age)).

(** Running totals, as cumulative buckets. *)
Fixpoint cumulate (cumulative : Z) (bounds : list float64) (counts : list Z) : list QueueBucket :=
  match bounds, counts with
  | bound :: bounds, count :: counts => mkBucket bound (cumulative + count) :: cumulate (cumulative + count) bounds counts
  | _, _ => []
  end.

Definition sum_of (f : queueSlot → Z) (slots : list queueSlot) : Z := foldl (λ acc slot, acc + f slot) 0 slots.

Definition bucketOf (i : nat) (slot : queueSlot) : Z := default 0 (slBuckets slot !! i).

(** [Snapshot] *)
Definition SnapshotQueue (now : Z) (w : list queueSlot) : QueueDescription :=
  let slots := List.filter (recentSlot now) w in
  let counts := (λ i, sum_of (bucketOf i) slots) <$> seq 0 (S (length TargetQueueBucketsMs)) in
  let buckets := cumulate 0 TargetQueueBucketsMs counts in
  let requests := sum_of slCount slots in
  mkDescription queueWindowSeconds requests
    (foldl (λ acc slot, f64_add acc (slSumMs slot)) f64_zero slots) (foldl (λ acc slot, f64_max acc (slMaxMs slot)) f64_zero slots)
    (bucketQuantile queueQuantile buckets requests) (sum_of slApp slots) (sum_of slProxy slots) buckets.

(** ** What a window stands for *)

(** The last minute of a log, and how many of its entries are of a kind. *)
Definition lastMinute (now : Z) (log : list Observation) : list Observation :=
  List.filter (λ o, (now - queueWindowSeconds <? obSecond o) && (obSecond o <=? now)) log.

Definition count_if (p : Observation → bool) (log : list Observation) : Z := Z.of_nat (length (List.filter p log)).

(** Observations come in any order, none a minute late; no time in the queue is
    negative. *)
Inductive observed : list queueSlot → list Observation → Prop :=
| ob_new : observed newQueueWindow []
| ob_step w log o : observed w log → 0 ≤ obSecond o → 0 ≤ obQueue o → Forall (λ o', obSecond o' < obSecond o + queueWindowSeconds) log →
    observed (Observe o w) (log ++ [o]).

Definition is_app (o : Observation) : bool := match obSource o with queueSourceApp => true | queueSourceProxy => false end.
Definition bucket_is (i : nat) (o : Observation) : bool := Nat.eqb (searchBucket (queueMs (obQueue o))) i.
Definition of_second (t : Z) (o : Observation) : bool := obSecond o =? t.

(** The observations of a residue and a second. *)
Definition of_slot (i : nat) (t : Z) (o : Observation) : bool := (obSecond o =? t) && (obSecond o mod queueWindowSeconds =? Z.of_nat i).

(** The times of the observations of a kind, folded in the order they came. *)
Definition obMs (o : Observation) : float64 := queueMs (obQueue o).
Definition fold_ms (op : float64 → float64 → float64) (p : Observation → bool) (log : list Observation) : float64 :=
  foldl op f64_zero (obMs <$> List.filter p log).

(** The second of the last minute that is kept in slot [i]. *)
Definition slotSecond (now : Z) (i : nat) : Z := now - (now - Z.of_nat i) mod queueWindowSeconds.

(** The seconds of the last minute, each folded, folded in the order of the ring. *)
Definition fold_seconds (op : float64 → float64 → float64) (now : Z) (log : list Observation) : float64 :=
  foldl op f64_zero ((λ i, fold_ms op (of_second (slotSecond now i)) log) <$> seq 0 (Z.to_nat queueWindowSeconds)).

(** What histogram_quantile reads: in the first bucket that reaches the rank,
    as far between its bounds as the rank is between the counts; the last bound
    when none does. *)
Definition quantile_read (rank lowerBound : float64) (lowerCount : Z) (buckets : list QueueBucket) (x : float64) : Prop :=
  (∃ i b lo, buckets !! i = Some b ∧ f64_leb rank (f64_of_Z (Count b)) = true ∧
    (∀ j b', (j < i)%nat → buckets !! j = Some b' → f64_leb rank (f64_of_Z (Count b')) = false) ∧
    (mkBucket lowerBound lowerCount :: buckets) !! i = Some lo ∧
    x = f64_add (LeMs lo) (f64_mul (f64_sub (LeMs b) (LeMs lo))
          (f64_div (f64_sub rank (f64_of_Z (Count lo))) (f64_of_Z (Count b - Count lo))))) ∨
  (∀ b, b ∈ buckets → f64_leb rank (f64_of_Z (Count b)) = false) ∧ x = default lowerBound (LeMs <$> last buckets).

(** A slot holds the observations of one second: their count, sum and maximum. *)
Definition slot_counts (i : nat) (slot : queueSlot) (log : list Observation) : Prop :=
  let mine := of_slot i (slSecond slot) in
  length (slBuckets slot) = S (length TargetQueueBucketsMs) ∧
  slCount slot = count_if mine log ∧ slApp slot = count_if (λ o, mine o && is_app o) log ∧ slProxy slot = count_if (λ o, mine o && negb (is_app o)) log ∧
  (slSumMs slot = fold_ms f64_add mine log ∧ slMaxMs slot = fold_ms f64_max mine log) ∧
  ∀ k, (k ≤ length TargetQueueBucketsMs)%nat → bucketOf k slot = count_if (λ o, mine o && bucket_is k o) log.

(** It was last used for the latest second of its residue, if at all. *)
Definition slot_latest (i : nat) (slot : queueSlot) (log : list Observation) : Prop :=
  (slSecond slot = 0 ∨ ∃ o, o ∈ log ∧ obSecond o = slSecond slot ∧ obSecond o mod queueWindowSeconds = Z.of_nat i) ∧
  ∀ o, o ∈ log → obSecond o mod queueWindowSeconds = Z.of_nat i → obSecond o ≤ slSecond slot.

Definition window_ok (w : list queueSlot) (log : list Observation) : Prop :=
  length w = Z.to_nat queueWindowSeconds ∧ (∀ o, o ∈ log → 0 ≤ obSecond o ∧ 0 ≤ obQueue o) ∧
  ∀ i slot, w !! i = Some slot → slot_counts i slot log ∧ slot_latest i slot log.

Lemma count_if_app p log o : count_if p (log ++ [o]) = count_if p log + (if p o then 1 else 0).
Proof. unfold count_if. rewrite List.filter_app, length_app. cbn. destruct (p o); cbn; lia. Qed.

Lemma count_if_ext p q log : (∀ o, o ∈ log → p o = q o) → count_if p log = count_if q log.
Proof.
  intros H. unfold count_if. do 2 f_equal. induction log as [|o log IH]; [done|]. cbn. rewrite (H o) by set_solver.
  rewrite IH; [done|]. intros x Hx. apply H. set_solver.
Qed.

Lemma count_if_none p log : (∀ o, o ∈ log → p o = false) → count_if p log = 0.
Proof. intros H. rewrite (count_if_ext p (λ _, false)) by done. unfold count_if. clear H. by induction log. Qed.

Lemma fold_ms_app op p log o : fold_ms op p (log ++ [o]) = if p o then op (fold_ms op p log) (obMs o) else fold_ms op p log.
Proof. unfold fold_ms. rewrite List.filter_app, fmap_app, foldl_app. cbn. by destruct (p o). Qed.

Lemma filter_agree {A} (p q : A → bool) l : (∀ x, x ∈ l → p x = q x) → List.filter p l = List.filter q l.
Proof. induction l as [|x l IH]; intros H; [done|]. cbn. rewrite (H x) by set_solver. rewrite IH; [done|]. intros y Hy. apply H. set_solver. Qed.

Lemma fold_ms_ext op p q log : (∀ o, o ∈ log → p o = q o) → fold_ms op p log = fold_ms op q log.
Proof. intros H. unfold fold_ms. by rewrite (filter_agree p q log H). Qed.

Lemma fold_ms_none op p log : (∀ o, o ∈ log → p o = false) → fold_ms op p log = f64_zero.
Proof. intros H. rewrite (fold_ms_ext op p (λ _, false)) by done. unfold fold_ms. clear H. by induction log. Qed.

Lemma searchBucket_bound ms : (searchBucket ms ≤ length TargetQueueBucketsMs)%nat.
Proof.
  unfold searchBucket. destruct (list_find _ _) as [[i b]|] eqn:Hf; [|done]. apply list_find_Some in Hf as (Hi & _). apply lookup_lt_Some in Hi. lia.
Qed.

Lemma bucketOf_add o slot k :
  length (slBuckets slot) = S (length TargetQueueBucketsMs) →
  bucketOf k (addToSlot o slot) = bucketOf k slot + (if bucket_is k o then 1 else 0).
Proof.
  intros Hlen. unfold bucketOf, bucket_is. cbn [slBuckets addToSlot]. pose proof (searchBucket_bound (queueMs (obQueue o))) as Hb.
  destruct (Nat.eqb_spec (searchBucket (queueMs (obQueue o))) k) as [<-|Hne].
  - rewrite list_lookup_alter_eq. destruct (lookup_lt_is_Some_2 (slBuckets slot) (searchBucket (queueMs (obQueue o)))) as [x Hx]; [lia|]. rewrite Hx. cbn. lia.
  - rewrite list_lookup_alter_ne by done. lia.
Qed.

Lemma bucketOf_empty k t : bucketOf k (emptySlot t) = 0.
Proof. unfold bucketOf. cbn [slBuckets emptySlot]. destruct (replicate _ 0 !! k) eqn:Hk; [|done]. by apply lookup_replicate in Hk as [-> _]. Qed.

(** Adding to a slot of the observation's second. *)
Lemma slot_counts_add i slot log o :
  slSecond slot = obSecond o → obSecond o mod queueWindowSeconds = Z.of_nat i → slot_counts i slot log → slot_counts i (addToSlot o slot) (log ++ [o]).
Proof.
  intros Ht Hi (Hlen & Hc & Ha & Hp & [Hs Hm] & Hb). unfold slot_counts. cbn [slSecond addToSlot slCount slApp slProxy slSumMs slMaxMs].
  assert (Hmine : of_slot i (slSecond slot) o = true) by (unfold of_slot; by rewrite Ht, Hi, !Z.eqb_refl).
  split; [cbn; by rewrite length_alter|]. rewrite !count_if_app, !fold_ms_app, Hmine, Hc, Ha, Hp, Hs, Hm. cbn [andb]. unfold is_app.
  split; [done|]. split; [by destruct (obSource o)|]. split; [by destruct (obSource o)|]. split; [done|].
  intros k Hk. rewrite bucketOf_add, count_if_app, Hmine, Hb by done. done.
Qed.

Lemma window_ok_step w log o :
  window_ok w log → 0 ≤ obSecond o → 0 ≤ obQueue o → Forall (λ o', obSecond o' < obSecond o + queueWindowSeconds) log → window_ok (Observe o w) (log ++ [o]).
Proof.
  intros (Hlen & Hpos & Hslots) Ho Hq Hlate. rewrite Forall_forall in Hlate.
  assert (Hmod : 0 ≤ obSecond o mod queueWindowSeconds < queueWindowSeconds) by (apply Z.mod_pos_bound; done).
  split; [unfold Observe; by rewrite length_alter|]. split; [intros x; rewrite elem_of_app, list_elem_of_singleton; intros [Hx| ->]; auto|].
  intros i slot. unfold Observe. destruct (decide (Z.to_nat (obSecond o mod queueWindowSeconds) = i)) as [<-|Hne].
  - rewrite list_lookup_alter_eq. set (j := Z.to_nat _). destruct (w !! j) as [s|] eqn:Hs; [|done]. intros [= <-].
    assert (Hj : obSecond o mod queueWindowSeconds = Z.of_nat j) by (unfold j; lia).
    destruct (Hslots j s Hs) as [Hcounts [Hused Hmax]].
    assert (Hfresh : slSecond s ≠ obSecond o → ∀ x, x ∈ log → obSecond x mod queueWindowSeconds = Z.of_nat j → obSecond x < obSecond o).
    { intros Hne x Hx Hr. pose proof (Hmax x Hx Hr) as Hle. enough (slSecond s < obSecond o) by lia. destruct (Z.lt_trichotomy (slSecond s) (obSecond o)) as [?|[?|Hgt]]; [done..|].
      exfalso. destruct Hused as [?|(y & Hy & Hys & Hyr)]; [lia|]. specialize (Hlate y Hy). rewrite Hys in Hlate, Hyr.
      pose proof (Z.div_mod (slSecond s) queueWindowSeconds ltac:(done)). pose proof (Z.div_mod (obSecond o) queueWindowSeconds ltac:(done)).
      unfold queueWindowSeconds in *. nia. }
    split.
    + apply slot_counts_add; [destruct (Z.eqb_spec (slSecond s) (obSecond o)); done|done|].
      destruct (Z.eqb_spec (slSecond s) (obSecond o)) as [He|Hne]; [done|]. specialize (Hfresh Hne).
      assert (Hno : ∀ x, x ∈ log → of_slot j (obSecond o) x = false).
      { intros x Hx. unfold of_slot. destruct (Z.eqb_spec (obSecond x) (obSecond o)); [|done].
        destruct (Z.eqb_spec (obSecond x mod queueWindowSeconds) (Z.of_nat j)); [|done]. specialize (Hfresh x Hx ltac:(done)). lia. }
      assert (Hz : ∀ q, count_if (λ x, of_slot j (obSecond o) x && q x) log = 0).
      { intros q. apply count_if_none. intros x Hx. by rewrite Hno. }
      unfold slot_counts. cbn [slSecond emptySlot slCount slApp slProxy slSumMs slMaxMs]. split; [done|]. rewrite !Hz, !fold_ms_none, count_if_none by done.
      repeat (split; [done|]). intros k _. by rewrite bucketOf_empty, Hz.
    + assert (Hsec : slSecond (addToSlot o (if slSecond s =? obSecond o then s else emptySlot (obSecond o))) = obSecond o).
      { cbn. destruct (Z.eqb_spec (slSecond s) (obSecond o)); done. }
      split; rewrite Hsec; [right; exists o; set_solver|]. intros x. rewrite elem_of_app, list_elem_of_singleton. intros [Hx| ->] Hr; [|done].
      destruct (decide (slSecond s = obSecond o)) as [He|Hne]; [rewrite <-He; auto|]. specialize (Hfresh Hne x Hx Hr). lia.
  - rewrite list_lookup_alter_ne by done. intros Hs. destruct (Hslots i slot Hs) as [(Hl & Hc & Ha & Hp & [Hsum Hm] & Hb) [Hused Hmax]].
    assert (Hnot : obSecond o mod queueWindowSeconds ≠ Z.of_nat i) by (intros Heq; apply Hne; rewrite Heq; lia).
    assert (Hmine : of_slot i (slSecond slot) o = false) by (unfold of_slot; by rewrite (proj2 (Z.eqb_neq _ (Z.of_nat i)) Hnot), andb_false_r).
    split; [|split].
    + unfold slot_counts. rewrite !count_if_app, !fold_ms_app, Hmine, Hc, Ha, Hp, Hsum, Hm. cbn [andb]. rewrite !Z.add_0_r. repeat (split; [done|]).
      intros k Hk. rewrite count_if_app, Hmine, Hb by done. cbn. lia.
    + destruct Hused as [?|(y & ?)]; [by left|right; exists y; set_solver].
    + intros x. rewrite elem_of_app, list_elem_of_singleton. intros [Hx| ->]; [auto|done].
Qed.

Lemma observed_ok w log : observed w log → window_ok w log.
Proof.
  induction 1 as [|w log o _ IH Ho Hq Hlate]; [|by apply window_ok_step]. split; [done|]. split; [set_solver|].
  intros i slot [-> _]%lookup_replicate. split; [|split; [by left|set_solver]]. repeat (split; [done|]). intros k _. apply bucketOf_empty.
Qed.

(** ** Reading the window *)

Lemma sum_of_acc f slots acc : foldl (λ acc slot, acc + f slot) acc slots = acc + sum_of f slots.
Proof.
  unfold sum_of. revert acc. induction slots as [|s slots IH]; intros acc; cbn; [lia|]. rewrite IH, (IH (0 + f s)). lia.
Qed.

Lemma sum_of_cons f s slots : sum_of f (s :: slots) = f s + sum_of f slots.
Proof. unfold sum_of at 1. cbn. by rewrite sum_of_acc. Qed.

Lemma count_if_split p q r log :
  (∀ o, o ∈ log → p o = q o || r o) → (∀ o, o ∈ log → q o = true → r o = false) → count_if p log = count_if q log + count_if r log.
Proof.
  unfold count_if. induction log as [|o log IH]; intros H1 H2; [done|]. cbn.
  assert (IH' : Z.of_nat (length (List.filter p log)) = Z.of_nat (length (List.filter q log)) + Z.of_nat (length (List.filter r log))) by (apply IH; intros x Hx; [apply H1|apply H2]; set_solver).
  rewrite (H1 o) by set_solver. specialize (H2 o ltac:(set_solver)). destruct (q o), (r o); cbn [orb length]; lia.
Qed.

(** Slots that each count what is theirs sum to the count of all of it. *)
Lemma sum_slots (f : queueSlot → Z) (keep : queueSlot → bool) q log w (off : nat) :
  (∀ i slot, w !! i = Some slot → (if keep slot then f slot else 0) = count_if (λ o, q o && (obSecond o mod queueWindowSeconds =? Z.of_nat (off + i))) log) →
  sum_of f (List.filter keep w) =
    count_if (λ o, q o && ((Z.of_nat off <=? obSecond o mod queueWindowSeconds) && (obSecond o mod queueWindowSeconds <? Z.of_nat (off + length w)))) log.
Proof.
  revert off. induction w as [|slot w IH]; intros off Hslots.
  { cbn [List.filter length]. symmetry. apply count_if_none. intros o _.
    destruct (Z.leb_spec (Z.of_nat off) (obSecond o mod queueWindowSeconds)); cbn; [|by rewrite andb_false_r].
    rewrite (proj2 (Z.ltb_ge _ _)); [by rewrite andb_false_r|lia]. }
  pose proof (Hslots 0%nat slot eq_refl) as Hslot. rewrite Nat.add_0_r in Hslot.
  specialize (IH (S off)). cbn [List.filter length].
  assert (Hsum : sum_of f (if keep slot then slot :: List.filter keep w else List.filter keep w) = (if keep slot then f slot else 0) + sum_of f (List.filter keep w)).
  { destruct (keep slot); [apply sum_of_cons|lia]. }
  rewrite Hsum, Hslot, IH.
  - symmetry. apply count_if_split.
    + intros o _. destruct (q o); cbn; [|done].
      apply eq_true_iff_eq. rewrite orb_true_iff, !andb_true_iff, Z.eqb_eq, !Z.leb_le, !Z.ltb_lt. lia.
    + intros o _. rewrite andb_true_iff, Z.eqb_eq. intros [_ ->]. rewrite (proj2 (Z.leb_gt _ _)) by lia. by rewrite andb_false_r.
  - intros i s Hs. rewrite (Hslots (S i) s Hs). apply count_if_ext. intros o _. do 2 f_equal. lia.
Qed.

Lemma count_if_filter p q log : count_if p (List.filter q log) = count_if (λ o, p o && q o) log.
Proof.
  unfold count_if. f_equal. induction log as [|o log IH]; [done|]. cbn. destruct (q o); cbn; rewrite ?andb_true_r, ?andb_false_r; [|done].
  destruct (p o); cbn; by rewrite IH.
Qed.

Lemma count_if_all log : count_if (λ _, true) log = Z.of_nat (length log).
Proof. unfold count_if. f_equal. induction log as [|o log IH]; cbn; [done|by f_equal]. Qed.

(** The second of a slot in the last minute. *)
Lemma of_slotSecond now i o :
  (i < Z.to_nat queueWindowSeconds)%nat →
  of_second (slotSecond now i) o =
    ((now - queueWindowSeconds <? obSecond o) && (obSecond o <=? now)) && (obSecond o mod queueWindowSeconds =? Z.of_nat i).
Proof.
  intros Hi. apply eq_true_iff_eq. unfold of_second, slotSecond. rewrite !andb_true_iff, !Z.eqb_eq, Z.ltb_lt, Z.leb_le.
  assert (Hi' : Z.of_nat i < queueWindowSeconds) by lia. unfold queueWindowSeconds in *.
  pose proof (Z.div_mod (now - Z.of_nat i) 60 ltac:(done)). pose proof (Z.mod_pos_bound (now - Z.of_nat i) 60 ltac:(done)).
  pose proof (Z.div_mod (obSecond o) 60 ltac:(done)). pose proof (Z.mod_pos_bound (obSecond o) 60 ltac:(done)). split; intros ?; lia.
Qed.

(** A recent slot holds its second of the last minute; for another there is
    nothing to hold. *)
Lemma slot_in_window now i slot log :
  slot_latest i slot log → (∀ o, o ∈ log → 0 ≤ obSecond o ∧ 0 ≤ obQueue o) → (∀ o, o ∈ log → obSecond o ≤ now) →
  (i < Z.to_nat queueWindowSeconds)%nat → ∀ o, o ∈ log → of_second (slotSecond now i) o = recentSlot now slot && of_slot i (slSecond slot) o.
Proof.
  intros [Hused Hmax] Hpos Hnow Hi o Ho. rewrite of_slotSecond by done. unfold of_slot.
  destruct (Z.eqb_spec (obSecond o mod queueWindowSeconds) (Z.of_nat i)) as [Hr|]; [|by rewrite !andb_false_r]. rewrite !andb_true_r.
  specialize (Hmax o Ho Hr). pose proof (Hnow o Ho). destruct (Hpos o Ho) as [Hp _].
  assert (Hsec : slSecond slot ≤ now ∧ (obSecond o = slSecond slot ∨ obSecond o ≤ slSecond slot - queueWindowSeconds)).
  { destruct Hused as [Hz|(y & Hy & Hys & Hyr)]; [lia|]. rewrite <-Hys in *. split; [auto|]. unfold queueWindowSeconds in *.
    pose proof (Z.div_mod (obSecond y) 60 ltac:(done)). pose proof (Z.div_mod (obSecond o) 60 ltac:(done)). lia. }
  apply eq_true_iff_eq. unfold recentSlot. rewrite !andb_true_iff, negb_true_iff, orb_false_iff, Z.ltb_lt, Z.leb_le, Z.eqb_eq, Z.ltb_ge, Z.leb_gt. lia.
Qed.

(** What the recent slots add up to. *)
Lemma window_sum f p w log now :
  window_ok w log → (∀ o, o ∈ log → obSecond o ≤ now) →
  (∀ i slot, w !! i = Some slot → f slot = count_if (λ o, of_slot i (slSecond slot) o && p o) log) →
  sum_of f (List.filter (recentSlot now) w) = count_if p (lastMinute now log).
Proof.
  intros (Hlen & Hpos & Hslots) Hnow Hf. rewrite (sum_slots f (recentSlot now) (λ o, p o && ((now - queueWindowSeconds <? obSecond o) && (obSecond o <=? now))) log w 0).
  - rewrite Hlen. unfold lastMinute. rewrite count_if_filter. apply count_if_ext. intros o _.
    pose proof (Z.mod_pos_bound (obSecond o) queueWindowSeconds ltac:(done)).
    rewrite (proj2 (Z.leb_le (Z.of_nat 0) _)) by lia. rewrite (proj2 (Z.ltb_lt (obSecond o mod _) _)) by (change (Z.of_nat (0 + Z.to_nat queueWindowSeconds)) with queueWindowSeconds; lia).
    by rewrite !andb_true_r.
  - intros i slot Hs. destruct (Hslots i slot Hs) as [_ Hlatest]. rewrite (Hf i slot Hs). cbn [Nat.add].
    assert (Hi : (i < Z.to_nat queueWindowSeconds)%nat) by (rewrite <-Hlen; by eapply lookup_lt_Some).
    transitivity (count_if (λ o, of_second (slotSecond now i) o && p o) log).
    + destruct (recentSlot now slot) eqn:Hr; [apply count_if_ext|symmetry; apply count_if_none];
        intros o Ho; by rewrite (slot_in_window now i slot log Hlatest Hpos Hnow Hi o Ho), Hr.
    + apply count_if_ext. intros o Ho. rewrite of_slotSecond by auto. by destruct (p o), (_ <? _), (_ <=? _), (_ =? _).
Qed.

Lemma length_cumulate c bounds counts : (length bounds ≤ length counts)%nat → length (cumulate c bounds counts) = length bounds.
Proof. revert c counts. induction bounds as [|b bounds IH]; intros c [|n counts] Hlen; cbn in *; try done; [lia|]. rewrite IH; lia. Qed.

Lemma cumulate_lookup c bounds counts i bound :
  (length bounds ≤ length counts)%nat → bounds !! i = Some bound →
  cumulate c bounds counts !! i = Some (mkBucket bound (c + foldr Z.add 0 (take (S i) counts))).
Proof.
  revert c counts i. induction bounds as [|b bounds IH]; intros c [|n counts] i Hlen; try done; cbn in Hlen; [lia|].
  destruct i as [|i]; [intros [= ->]; cbn; by rewrite Z.add_0_r|]. cbn [lookup list_lookup cumulate]. intros Hi. change (cumulate (c + n) bounds counts !! i = Some (mkBucket bound (c + foldr Z.add 0 (take (S (S i)) (n :: counts))))).
  rewrite (IH (c + n) counts i) by (done || lia). do 2 f_equal. change (take (S (S i)) (n :: counts)) with (n :: take (S i) counts). cbn [foldr]. lia.
Qed.

Lemma sum_of_buckets (g : nat → Z) (p : nat → Observation → bool) log n k m :
  (∀ i, (i < m)%nat → g (k + i)%nat = count_if (p (k + i)%nat) log) → (n ≤ m)%nat →
  foldr Z.add 0 (take n (g <$> seq k m)) = foldr Z.add 0 ((λ i, count_if (p i) log) <$> seq k n).
Proof.
  revert k m. induction n as [|n IH]; intros k [|m] Hg Hn; try done; [lia|]. cbn. pose proof (Hg 0%nat ltac:(lia)) as H0. rewrite Nat.add_0_r in H0. rewrite H0. f_equal.
  apply IH; [|lia]. intros i Hi. specialize (Hg (S i) ltac:(lia)). by rewrite Nat.add_succ_r in Hg.
Qed.

Lemma counts_up_to log n :
  foldr Z.add 0 ((λ i, count_if (bucket_is i) log) <$> seq 0 n) = count_if (λ o, (searchBucket (queueMs (obQueue o)) <? n)%nat) log.
Proof.
  induction n as [|n IH]; [symmetry; apply count_if_none; intros o _; by apply Nat.ltb_ge; lia|].
  rewrite seq_S, fmap_app, foldr_app. cbn. rewrite Z.add_0_r.
  assert (Hacc : ∀ l x, foldr Z.add x l = foldr Z.add 0 l + x) by (intros l x; induction l; cbn; lia).
  rewrite Hacc, IH. symmetry. apply count_if_split; unfold bucket_is; intros o _.
  - apply eq_true_iff_eq. rewrite orb_true_iff, Nat.eqb_eq, Nat.ltb_lt, Nat.leb_le. lia.
  - rewrite Nat.ltb_lt, Nat.eqb_neq. lia.
Qed.

(** ** Sums and maxima *)

Lemma queueMs_nonneg q : 0 ≤ q → f64_nonneg (queueMs q).
Proof. intros Hq. by apply f64_div_nonneg, f64_of_Z_nonneg. Qed.

Lemma f64_max_nonneg x y : f64_nonneg x → f64_nonneg y → f64_nonneg (f64_max x y).
Proof. unfold f64_max. by case_match. Qed.

Lemma f64_max_zero x : f64_nonneg x → f64_max x f64_zero = x.
Proof. intros Hx. unfold f64_max. by rewrite f64_ltb_leb, f64_leb_zero by done. Qed.

Lemma f64_max_upper x y : f64_nonneg x → f64_nonneg y → f64_leb x (f64_max x y) = true ∧ f64_leb y (f64_max x y) = true.
Proof.
  intros Hx Hy. unfold f64_max. destruct (f64_ltb x y) eqn:Hlt; [split; [|by apply f64_leb_refl]|split; [by apply f64_leb_refl|]].
  - unfold f64_ltb in Hlt. unfold f64_leb. by repeat case_match.
  - by rewrite f64_ltb_leb, negb_false_iff in Hlt by done.
Qed.

(** The ring is folded with an operation that leaves zero alone. *)
Section Fold.
Context (op : float64 → float64 → float64).
Hypothesis op_nonneg : ∀ x y, f64_nonneg x → f64_nonneg y → f64_nonneg (op x y).
Hypothesis op_zero : ∀ x, f64_nonneg x → op x f64_zero = x.

Lemma fold_nonneg l x : f64_nonneg x → Forall f64_nonneg l → f64_nonneg (foldl op x l).
Proof using op_nonneg. intros Hx Hl. revert x Hx. induction Hl; intros x0 Hx; cbn; auto. Qed.

Lemma fold_ms_nonneg p log : (∀ o, o ∈ log → 0 ≤ obQueue o) → f64_nonneg (fold_ms op p log).
Proof using op_nonneg.
  intros Hlog. apply fold_nonneg; [done|]. apply Forall_forall. intros x (o & -> & Ho)%list_elem_of_fmap.
  apply list_elem_of_In, List.filter_In in Ho as [Ho%list_elem_of_In _]. by apply queueMs_nonneg, Hlog.
Qed.

Lemma fold_kept (f : queueSlot → float64) (keep : queueSlot → bool) (v : nat → float64) w off acc :
  f64_nonneg acc → (∀ i, f64_nonneg (v i)) →
  (∀ i slot, w !! i = Some slot → v (off + i)%nat = if keep slot then f slot else f64_zero) →
  foldl (λ acc slot, op acc (f slot)) acc (List.filter keep w) = foldl op acc (v <$> seq off (length w)).
Proof using op_nonneg op_zero.
  intros Hacc Hv. revert off acc Hacc. induction w as [|slot w IH]; intros off acc Hacc Hw; [done|]. cbn.
  pose proof (Hw 0%nat slot eq_refl) as H0. rewrite Nat.add_0_r in H0.
  assert (Hrest : ∀ i s, w !! i = Some s → v (S off + i)%nat = if keep s then f s else f64_zero).
  { intros i s Hs. rewrite <-(Hw (S i) s Hs). f_equal. lia. }
  rewrite H0. destruct (keep slot); cbn.
  - apply IH; [|done]. rewrite <-H0. auto.
  - rewrite op_zero by done. by apply IH.
Qed.

Lemma window_fold (f : queueSlot → float64) w log now :
  window_ok w log → (∀ o, o ∈ log → obSecond o ≤ now) →
  (∀ i slot, w !! i = Some slot → f slot = fold_ms op (of_slot i (slSecond slot)) log) →
  foldl (λ acc slot, op acc (f slot)) f64_zero (List.filter (recentSlot now) w) = fold_seconds op now log.
Proof using op_nonneg op_zero.
  intros (Hlen & Hpos & Hslots) Hnow Hf. unfold fold_seconds. rewrite <-Hlen. apply fold_kept; [done| |].
  - intros i. apply fold_ms_nonneg. intros o Ho. by apply Hpos.
  - intros i slot Hs. cbn [Nat.add]. destruct (Hslots i slot Hs) as [_ Hlatest].
    assert (Hi : (i < Z.to_nat queueWindowSeconds)%nat) by (rewrite <-Hlen; by eapply lookup_lt_Some).
    destruct (recentSlot now slot) eqn:Hr; [rewrite (Hf i slot Hs); apply fold_ms_ext|apply fold_ms_none];
      intros o Ho; by rewrite (slot_in_window now i slot log Hlatest Hpos Hnow Hi o Ho), Hr.
Qed.

End Fold.

Lemma fold_max_upper l x : f64_nonneg x → Forall f64_nonneg l → ∀ y, y ∈ x :: l → f64_leb y (foldl f64_max x l) = true.
Proof.
  intros Hx Hl. revert x Hx. induction Hl as [|z l Hz Hl IH]; intros x Hx y Hy.
  { apply list_elem_of_singleton in Hy as ->. by apply f64_leb_refl. }
  cbn. destruct (f64_max_upper x z Hx Hz) as [Hxm Hzm]. pose proof (f64_max_nonneg x z Hx Hz) as Hm.
  assert (Hup : f64_leb (f64_max x z) (foldl f64_max (f64_max x z) l) = true) by (apply IH; [done|set_solver]).
  pose proof (fold_nonneg f64_max f64_max_nonneg l _ Hm Hl) as Hf.
  apply elem_of_cons in Hy as [->|[->|Hy]%elem_of_cons]; [by eapply f64_leb_trans, Hup..|]. apply IH; [done|set_solver].
Qed.

Lemma fold_max_in l x : foldl f64_max x l = x ∨ foldl f64_max x l ∈ l.
Proof.
  revert x. induction l as [|y l IH]; intros x; [by left|]. cbn. destruct (IH (f64_max x y)) as [->|?]; [|right; set_solver].
  unfold f64_max. case_match; [right; set_solver|by left].
Qed.

Lemma elem_of_lastMinute now log o : o ∈ lastMinute now log ↔ o ∈ log ∧ now - queueWindowSeconds < obSecond o ≤ now.
Proof. unfold lastMinute. rewrite list_elem_of_In, List.filter_In, <-list_elem_of_In, andb_true_iff, Z.ltb_lt, Z.leb_le. tauto. Qed.

Lemma fold_seconds_recent op now log : fold_seconds op now log = fold_seconds op now (lastMinute now log).
Proof.
  unfold fold_seconds. f_equal. apply list_fmap_ext. intros k i [-> Hi]%lookup_seq. unfold fold_ms, lastMinute. do 2 f_equal. cbn [Nat.add].
  induction log as [|o log IH]; [done|]. cbn. destruct (of_second (slotSecond now k) o) eqn:Ho.
  - pose proof Ho as Hw. rewrite of_slotSecond in Hw by done. apply andb_true_iff in Hw as [-> _]. cbn. by rewrite Ho, IH.
  - destruct (_ && _); cbn; [by rewrite Ho|done].
Qed.

(** The maximum of the seconds' maxima is a maximum of what was observed. *)
Lemma fold_seconds_max now log :
  (∀ o, o ∈ log → 0 ≤ obSecond o ∧ 0 ≤ obQueue o) →
  let m := fold_seconds f64_max now log in
  let recent := lastMinute now log in
  (∀ o, o ∈ recent → f64_leb (obMs o) m = true) ∧
  if decide (recent = []) then m = f64_zero else ∃ o, o ∈ recent ∧ m = obMs o.
Proof.
  intros Hpos m recent. assert (Hq : ∀ o, o ∈ log → 0 ≤ obQueue o) by (intros o Ho; by apply Hpos).
  set (vs := (λ i, fold_ms f64_max (of_second (slotSecond now i)) log) <$> seq 0 (Z.to_nat queueWindowSeconds)).
  assert (Hvs : Forall f64_nonneg vs) by (apply Forall_fmap, Forall_true; intros i; by apply (fold_ms_nonneg f64_max f64_max_nonneg)).
  assert (Hof : ∀ i o, (i < Z.to_nat queueWindowSeconds)%nat → of_second (slotSecond now i) o = true ↔
    now - queueWindowSeconds < obSecond o ≤ now ∧ obSecond o mod queueWindowSeconds = Z.of_nat i).
  { intros i o Hi. rewrite of_slotSecond by done. by rewrite !andb_true_iff, Z.ltb_lt, Z.leb_le, Z.eqb_eq. }
  assert (Hms : ∀ p o, o ∈ log → p o = true → f64_leb (obMs o) (fold_ms f64_max p log) = true).
  { intros p o Ho Hp. apply fold_max_upper; [done| |].
    - apply Forall_forall. intros x (o' & -> & Ho')%list_elem_of_fmap. apply list_elem_of_In, List.filter_In in Ho' as [Ho'%list_elem_of_In _]. by apply queueMs_nonneg, Hq.
    - apply list_elem_of_further, list_elem_of_fmap. exists o. split; [done|]. by apply list_elem_of_In, List.filter_In; rewrite <-list_elem_of_In. }
  assert (Hle : ∀ o, o ∈ lastMinute now log → f64_leb (obMs o) m = true).
  { intros o [Ho Hin]%elem_of_lastMinute. pose proof (Z.mod_pos_bound (obSecond o) queueWindowSeconds ltac:(done)) as Hmod.
    set (i := Z.to_nat (obSecond o mod queueWindowSeconds)). assert (Hi : (i < Z.to_nat queueWindowSeconds)%nat) by lia.
    assert (Hsec : of_second (slotSecond now i) o = true) by (apply Hof; [done|split; [done|lia]]).
    eapply f64_leb_trans; [by apply queueMs_nonneg, Hq|by apply (fold_ms_nonneg f64_max f64_max_nonneg)|by apply (fold_nonneg f64_max f64_max_nonneg)|by apply Hms|].
    apply fold_max_upper; [done..|]. apply list_elem_of_further, list_elem_of_fmap. exists i. split; [done|]. apply elem_of_seq. lia. }
  split; [done|]. assert (Hin : m = f64_zero ∨ ∃ o, o ∈ recent ∧ m = obMs o).
  { destruct (fold_max_in vs f64_zero) as [?|(i & Hm & Hi%elem_of_seq)%list_elem_of_fmap]; [by left|]. fold vs in m.
    change m with (foldl f64_max f64_zero vs). rewrite Hm. unfold fold_ms.
    destruct (fold_max_in (obMs <$> List.filter (of_second (slotSecond now i)) log) f64_zero) as [->|(o & -> & Ho)%list_elem_of_fmap]; [by left|right].
    exists o. split; [|done]. apply list_elem_of_In, List.filter_In in Ho as [Ho Hs]. apply elem_of_lastMinute. rewrite list_elem_of_In.
    split; [done|]. apply Hof in Hs; [tauto|lia]. }
  destruct (decide (recent = [])) as [He|Hne]; destruct Hin as [Hz|(o & Ho & Hm)]; [done|by rewrite He in Ho; apply elem_of_nil in Ho| |eauto].
  destruct recent as [|o l] eqn:Hr; [done|]. exists o. split; [set_solver|]. rewrite Hz. symmetry. apply f64_leb_zero_inv.
  - apply queueMs_nonneg, Hq. assert (Ho : o ∈ lastMinute now log) by (fold recent; rewrite Hr; set_solver). by apply elem_of_lastMinute in Ho as [? _].
  - rewrite <-Hz. apply Hle. fold recent. rewrite Hr. set_solver.
Qed.

(** ** Buckets *)

Lemma bounds_sorted i j bi bj :
  (i ≤ j)%nat → TargetQueueBucketsMs !! i = Some bi → TargetQueueBucketsMs !! j = Some bj → f64_leb bi bj = true.
Proof.
  intros Hij Hi Hj.
  assert (Hall : forallb (λ j, forallb (λ i, f64_leb (nth i TargetQueueBucketsMs f64_zero) (nth j TargetQueueBucketsMs f64_zero)) (seq 0 (S j))) (seq 0 12) = true) by (vm_compute; reflexivity).
  rewrite List.forallb_forall in Hall. apply lookup_lt_Some in Hj as Hlt. specialize (Hall j). rewrite List.in_seq, List.forallb_forall in Hall.
  specialize (Hall ltac:(cbn in Hlt; lia) i). rewrite List.in_seq in Hall. specialize (Hall ltac:(lia)).
  by rewrite (nth_lookup_Some _ _ _ _ Hi), (nth_lookup_Some _ _ _ _ Hj) in Hall.
Qed.

(** A time is in the bucket of a bound, or one below, when it is no more than
    the bound. *)
Lemma searchBucket_le ms i bound :
  f64_nonneg ms → TargetQueueBucketsMs !! i = Some bound → (searchBucket ms <=? i)%nat = f64_leb ms bound.
Proof.
  intros Hms Hi. assert (Hbs : ∀ k b, TargetQueueBucketsMs !! k = Some b → f64_nonneg b).
  { intros k b Hb%list_elem_of_lookup_2. unfold TargetQueueBucketsMs in Hb. apply list_elem_of_fmap in Hb as (z & -> & Hz). apply f64_of_Z_nonneg.
    repeat (apply elem_of_cons in Hz as [->|Hz]; [lia|]). by apply elem_of_nil in Hz. }
  pose proof (Hbs i bound Hi) as Hb. apply lookup_lt_Some in Hi as Hlt. apply eq_true_iff_eq. rewrite Nat.leb_le. unfold searchBucket.
  destruct (list_find _ _) as [[j b]|] eqn:Hf.
  - apply list_find_Some in Hf as (Hj & Hge & Hfirst). pose proof (Hbs j b Hj) as Hbj.
    rewrite f64_ltb_leb, negb_false_iff in Hge by done. split.
    + intros Hji. by eapply f64_leb_trans, (bounds_sorted j i b bound).
    + intros Hle. destruct (decide (j ≤ i)%nat) as [|Hgt]; [done|]. exfalso. apply (Hfirst i bound Hi); [lia|].
      by rewrite f64_ltb_leb, Hle by done.
  - split; [lia|]. intros Hle. exfalso. rewrite list_find_None, Forall_forall in Hf. apply (Hf bound); [by eapply list_elem_of_lookup_2|].
    by rewrite f64_ltb_leb, Hle by done.
Qed.

Lemma quantileFrom_reads rank lb lc buckets : quantile_read rank lb lc buckets (quantileFrom rank lb lc buckets).
Proof.
  revert lb lc. induction buckets as [|b buckets IH]; intros lb lc; [right; split; [set_solver|done]|]. cbn [quantileFrom].
  destruct (f64_leb rank (f64_of_Z (Count b))) eqn:Hb.
  - left. exists 0%nat, b, (mkBucket lb lc). repeat (split; [done|]). split; [lia|]. done.
  - destruct (IH (LeMs b) (Count b)) as [(i & b' & lo & Hi & Hreach & Hfirst & Hlo & ->)|[Hnone ->]].
    + left. exists (S i), b', lo. split; [done|]. split; [done|]. split.
      * intros [|j] x Hj; [by intros [= <-]|apply Hfirst; lia].
      * split; [|done]. destruct i; [|done]. cbn in *. by destruct b.
    + right. split; [intros x [->|Hx]%elem_of_cons; auto|]. rewrite last_cons. by destruct (last buckets).
Qed.

(** C40: what is read off a target's window is what was observed in the last
    sixty seconds: how many requests, whose measurements, and for every bound how
    many waited that long or less; the sum of the times, second by second; a
    maximum that no time exceeds and that is one of them, zero when there are
    none; and the 95th percentile that those buckets give.  Nothing older counts,
    nothing is lost, and this without a sweep, in whatever order requests report,
    none a minute late. *)
Theorem queue_window_refines w log now :
  observed w log → (∀ o, o ∈ log → obSecond o ≤ now) →
  let d := SnapshotQueue now w in
  let recent := lastMinute now log in
  let n := Z.of_nat (length recent) in
  (qRequests d = n ∧ qApp d = count_if is_app recent ∧ qProxy d = count_if (λ o, negb (is_app o)) recent) ∧
  (length (qBuckets d) = length TargetQueueBucketsMs ∧
   ∀ i bound, TargetQueueBucketsMs !! i = Some bound →
     qBuckets d !! i = Some (mkBucket bound (count_if (λ o, f64_leb (queueMs (obQueue o)) bound) recent))) ∧
  qSumMs d = fold_seconds f64_add now recent ∧
  ((∀ o, o ∈ recent → f64_leb (queueMs (obQueue o)) (qMaxMs d) = true) ∧
   if decide (recent = []) then qMaxMs d = f64_zero else ∃ o, o ∈ recent ∧ qMaxMs d = queueMs (obQueue o)) ∧
  (if decide (recent = []) then qP95Ms d = f64_zero
   else quantile_read (f64_mul (f64_div (f64_of_Z 95) (f64_of_Z 100)) (f64_of_Z n)) f64_zero 0 (qBuckets d) (qP95Ms d)).
Proof.
  intros Hok%observed_ok Hnow d recent n. pose proof Hok as (_ & Hpos & Hslots).
  assert (Hsum : ∀ f p, (∀ i slot, w !! i = Some slot → f slot = count_if (λ o, of_slot i (slSecond slot) o && p o) log) →
    sum_of f (List.filter (recentSlot now) w) = count_if p recent) by (intros f p; by apply window_sum).
  assert (Hn : qRequests d = n).
  { change (sum_of slCount (List.filter (recentSlot now) w) = n). rewrite (Hsum slCount (λ _, true)); [apply count_if_all|].
    intros i slot Hs. destruct (Hslots i slot Hs) as [(_ & -> & _) _]. apply count_if_ext. intros o _. by rewrite andb_true_r. }
  assert (Hseconds : ∀ op, fold_seconds op now log = fold_seconds op now recent) by (intros op; apply fold_seconds_recent).
  split; [|split; [|split; [|split]]].
  - split; [done|]. split; [apply (Hsum slApp)|apply (Hsum slProxy)]; intros i slot Hs; by destruct (Hslots i slot Hs) as [(_ & _ & ? & ? & _) _].
  - split; [apply length_cumulate; by rewrite length_fmap, length_seq; lia|]. intros i bound Hi. apply lookup_lt_Some in Hi as Hlt.
    cbn [qBuckets d SnapshotQueue]. unfold d, SnapshotQueue. cbn [qBuckets].
    rewrite (cumulate_lookup _ _ _ i bound); [|by rewrite length_fmap, length_seq; lia|done]. do 2 f_equal. rewrite Z.add_0_l.
    rewrite (sum_of_buckets _ bucket_is recent (S i) 0 (S (length TargetQueueBucketsMs))); [|intros k Hk; cbn [Nat.add]|lia].
    + rewrite counts_up_to. apply count_if_ext. intros o [Ho _]%elem_of_lastMinute.
      rewrite <-(searchBucket_le _ i bound) by (done || by apply queueMs_nonneg, Hpos). apply eq_true_iff_eq. rewrite Nat.ltb_lt, Nat.leb_le. lia.
    + apply Hsum. intros j slot Hs. destruct (Hslots j slot Hs) as [(_ & _ & _ & _ & _ & Hb) _]. apply Hb. lia.
  - rewrite <-Hseconds. apply (window_fold f64_add f64_add_nonneg f64_add_zero slSumMs w log now Hok Hnow).
    intros i slot Hs. by destruct (Hslots i slot Hs) as [(_ & _ & _ & _ & [? _] & _) _].
  - assert (Hm : qMaxMs d = fold_seconds f64_max now log).
    { apply (window_fold f64_max f64_max_nonneg f64_max_zero slMaxMs w log now Hok Hnow).
      intros i slot Hs. by destruct (Hslots i slot Hs) as [(_ & _ & _ & _ & [_ ?] & _) _]. }
    rewrite Hm. by apply fold_seconds_max.
  - assert (Hp : qP95Ms d = bucketQuantile queueQuantile (qBuckets d) n) by (by rewrite <-Hn). rewrite Hp. unfold bucketQuantile.
    destruct (decide (recent = [])) as [He|Hne]; [unfold n; by rewrite He|]. destruct (Z.eqb_spec n 0) as [Hz|_]; [|apply quantileFrom_reads].
    destruct recent; [done|]. cbn in n. lia.
Qed.

Module TargetQueueExamples.

Definition waits : list Observation :=
  [mkObservation 100 700000 queueSourceProxy; mkObservation 159 30000000 queueSourceApp; mkObservation 161 4000000 queueSourceProxy; mkObservation 160 8000000000 queueSourceApp].

Definition ring : list queueSlot := foldl (λ w o, Observe o w) newQueueWindow waits.

Lemma queue_window_refines_witness :
  let d := SnapshotQueue 161 ring in
  observed ring waits ∧ qRequests d = 3 ∧ qApp d = 2 ∧ qBuckets d !! 4%nat = Some (mkBucket (f64_of_Z 25) 1) ∧
  f64_compare (qSumMs d) (f64_of_Z 8034) = Some Eq ∧ qMaxMs d = queueMs 8000000000 ∧
  quantile_read (f64_mul (f64_div (f64_of_Z 95) (f64_of_Z 100)) (f64_of_Z 3)) f64_zero 0 (qBuckets d) (qP95Ms d) ∧
  qRequests (SnapshotQueue 219 ring) = 2.
Proof.
  assert (Ho : observed ring waits).
  { apply (ob_step _ [_; _; _]); [apply (ob_step _ [_; _]); [apply (ob_step _ [_]); [apply (ob_step _ []); [apply ob_new|..]|..]|..]|..];
      repeat constructor; vm_compute; (discriminate || reflexivity). }
  assert (Hnow : ∀ t, 161 ≤ t → ∀ o, o ∈ waits → obSecond o ≤ t).
  { intros t Ht o Hin. unfold waits in Hin. repeat (apply elem_of_cons in Hin as [->|Hin]; [cbn; lia|]). by apply elem_of_nil in Hin. }
  destruct (queue_window_refines ring waits 161 Ho (Hnow 161 ltac:(lia))) as ((Hn & Ha & _) & (_ & Hb) & Hs & _ & Hp).
  destruct (queue_window_refines ring waits 219 Ho (Hnow 219 ltac:(lia))) as ((Hn' & _) & _).
  rewrite decide_False in Hp by (vm_compute; discriminate). cbv zeta. rewrite Hn, Ha, Hs, Hn', (Hb 4%nat (f64_of_Z 25) eq_refl). split; [exact Ho|].
  do 5 (split; [vm_compute; reflexivity|]). split; [exact Hp|vm_compute; reflexivity].
Defined.

(** A slot is reused a minute later: nothing of what it held is left. *)
Example slot_reused :
  let w := Observe (mkObservation 160 3000000 queueSourceApp) ring in
  let d := SnapshotQueue 220 (Observe (mkObservation 220 3000000 queueSourceApp) w) in
  (f64_compare (qMaxMs d) (f64_of_Z 4), f64_compare (qSumMs d) (f64_of_Z 7)) = (Some Eq, Some Eq).
Proof. vm_compute. reflexivity. Qed.

(** Past the last bound, the percentile is that bound; among few it is read
    within a bucket. *)
Example p95_read :
  (qP95Ms (SnapshotQueue 161 ring),
   f64_compare (qP95Ms (SnapshotQueue 159 (Observe (mkObservation 159 30000000 queueSourceApp) newQueueWindow))) (f64_div (f64_of_Z 4875) (f64_of_Z 100))) =
    (f64_of_Z 5000, Some Eq).
Proof. vm_compute. reflexivity. Qed.

(** The clock set back: what was observed before is left out until the clock has
    caught up, and what it overwrote is gone. *)
Example clock_set_back :
  (qRequests (SnapshotQueue 150 ring), qRequests (SnapshotQueue 161 ring)) = (0, 3).
Proof. vm_compute. reflexivity. Qed.

End TargetQueueExamples.
