(* ===== verification/GoRegexp.v ===== *)
(** * Regular expressions, as [regexp] presents them to the proxy

    The engine is a parameter of everything that matches a pattern: what a
    pattern compiles to, the submatch positions of the leftmost match, and the
    expansion of a replacement.  [literal_regexp] is an instance for literal
    patterns, with which the components run. *)
From S2P Require Import Prelude GoStrings.

Class Regexp := {
  Regex : Type;
  Compile : string → option Regex;
  FindStringSubmatchIndex : Regex → string → option (list Z);
  ExpandString : Regex → string → string → list Z → string }.

Definition MatchString `{!Regexp} (re : Regex) (s : string) : bool :=
  match FindStringSubmatchIndex re s with Some _ => true | None => false end.

(** ** An instance

    A pattern is a literal, or a literal followed by a group that captures the
    rest of the input, between the anchors the proxy writes around it; [$1] in
    a replacement stands for the capture. *)
Record literal := mkLiteral { litPrefix : string; litCapture : bool }.

Definition strip_anchors (p : string) : string :=
  TrimSuffix (TrimSuffix (TrimPrefix (TrimPrefix p "^(?:") "\A(?:") ")$") ")\z".

Definition literal_compile (p : string) : option literal :=
  let p := strip_anchors p in
  let '(l, capture) := match CutSuffix p "(.*)" with Some l => (l, true) | None => (p, false) end in
  if Contains l "(" || Contains l "[" then None else Some (mkLiteral l capture).

Definition literal_find (re : literal) (s : string) : option (list Z) :=
  if litCapture re then
    if HasPrefix s (litPrefix re)
    then Some [0; str_len s; str_len (litPrefix re); str_len s] else None
  else if String.eqb s (litPrefix re) then Some [0; str_len s] else None.

Fixpoint expand_from (sub : string) (tpl : string) : string :=
  match tpl with
  | "" => ""
  | String "$" (String "1" tpl) => sub +:+ expand_from sub tpl
  | String c tpl => String c (expand_from sub tpl)
  end.

Definition literal_expand (re : literal) (tpl s : string) (idx : list Z) : string :=
  match idx with
  | [_; _; from; _] => expand_from (str_drop (Z.to_nat from) s) tpl
  | _ => expand_from "" tpl
  end.

Definition literal_regexp : Regexp := {|
  Regex := literal;
  Compile := literal_compile;
  FindStringSubmatchIndex := literal_find;
  ExpandString := literal_expand |}.

(** What the components rely on: the text of a replacement before its first
    variable is copied. *)
Class RegexpSpec `{!Regexp} : Prop := {
  expand_literal c re tpl s idx : c ≠ "$"%char →
    ∃ rest, ExpandString re (String c tpl) s idx = String c rest }.

#[export] Instance literal_regexp_spec : @RegexpSpec literal_regexp.
Proof.
  split. intros c re tpl s idx Hc. cbn. unfold literal_expand.
  assert (H : ∀ sub, ∃ rest, expand_from sub (String c tpl) = String c rest).
  { intros sub. cbn. destruct c as [[] [] [] [] [] [] [] []]; eauto; done. }
  destruct idx as [|? [|? [|? [|? []]]]]; apply H.
Qed.
