(* ===== verification/GoURL.v ===== *)
(** * URLs, as [net/url] presents them to the proxy

    [URL] has the fields of [url.URL] the proxy can set or a parse can fill;
    user information is kept as the text before the ['@'].  [ParseURL],
    [EscapedPath] and [URLString] follow the library. *)
From S2P Require Import Prelude GoStrings.

Record URL := mkURL {
  Scheme : string;
  Opaque : string;
  UserInfo : option string;
  URLHost : string;
  Path : string;
  RawPath : string;
  ForceQuery : bool;
  URLRawQuery : string;
  Fragment : string }.

Definition emptyURL : URL := mkURL "" "" None "" "" "" false "" "".

Definition with_path (p raw : string) (u : URL) : URL :=
  mkURL (Scheme u) (Opaque u) (UserInfo u) (URLHost u) p raw (ForceQuery u) (URLRawQuery u) (Fragment u).
Definition with_query (q : string) (u : URL) : URL :=
  mkURL (Scheme u) (Opaque u) (UserInfo u) (URLHost u) (Path u) (RawPath u) (ForceQuery u) q (Fragment u).
Definition with_origin (scheme host : string) (u : URL) : URL :=
  mkURL scheme (Opaque u) (UserInfo u) host (Path u) (RawPath u) (ForceQuery u) (URLRawQuery u) (Fragment u).

Definition IsAbs (u : URL) : bool := negb (String.eqb (Scheme u) "").

(** ** Escaping *)

Inductive encoding := encodePath | encodeHost | encodeZone | encodeUserPassword | encodeFragment.

Definition in_bytes (c : ascii) (s : string) : bool := has_byte s c.

Definition is_alnum (c : ascii) : bool :=
  let n := byte_of c in
  ((48 <=? n) && (n <=? 57)) || ((65 <=? n) && (n <=? 90)) || ((97 <=? n) && (n <=? 122)).

Definition dquote : ascii := ascii_of_N 34.

(** [shouldEscape]. *)
Definition shouldEscape (c : ascii) (mode : encoding) : bool :=
  if is_alnum c then false
  else
    let hostish := match mode with encodeHost | encodeZone => true | _ => false end in
    if hostish && (in_bytes c "!$&'()*+,;=:[]<>" || Ascii.eqb c dquote) then false
    else if in_bytes c "-_.~" then false
    else
      let reserved :=
        if in_bytes c "$&+,/:;=?@" then
          match mode with
          | encodePath => Some (Ascii.eqb c "?")
          | encodeUserPassword => Some (in_bytes c "@/?:")
          | encodeFragment => Some false
          | _ => None
          end
        else None in
      match reserved with
      | Some b => b
      | None => match mode with
                | encodeFragment => negb (in_bytes c "!()*")
                | _ => true
                end
      end.

Definition hex_char (n : Z) : ascii :=
  ascii_of_N (Z.to_N (if n <? 10 then 48 + n else 55 + n)).

Definition escape_byte (c : ascii) : string :=
  String "%" (String (hex_char (byte_of c / 16)) (String (hex_char (byte_of c mod 16)) "")).

Fixpoint escape (s : string) (mode : encoding) : string :=
  match s with
  | "" => ""
  | String c s =>
      if shouldEscape c mode then escape_byte c +:+ escape s mode else String c (escape s mode)
  end.

Definition unhex (c : ascii) : option Z :=
  let n := byte_of c in
  if (48 <=? n) && (n <=? 57) then Some (n - 48)
  else if (97 <=? n) && (n <=? 102) then Some (n - 87)
  else if (65 <=? n) && (n <=? 70) then Some (n - 55)
  else None.

(** [unescape]: [None] for a malformed escape or a byte a host may not have. *)
Fixpoint unescape (s : string) (mode : encoding) : option string :=
  match s with
  | "" => Some ""
  | String c s1 =>
      if Ascii.eqb c "%" then
        match s1 with
        | String h (String l s2) =>
            match unhex h, unhex l with
            | Some x, Some y =>
                let allowed :=
                  match mode with
                  | encodeHost => negb (x <? 8) || ((x =? 2) && (y =? 5))
                  | encodeZone =>
                      ((x =? 2) && (y =? 5)) || (x * 16 + y =? 32)
                      || negb (shouldEscape (ascii_of_N (Z.to_N (x * 16 + y))) encodeHost)
                  | _ => true
                  end in
                if allowed then String (ascii_of_N (Z.to_N (x * 16 + y))) <$> unescape s2 mode
                else None
            | _, _ => None
            end
        | _ => None
        end
      else
        let hostish := match mode with encodeHost | encodeZone => true | _ => false end in
        if hostish && (byte_of c <? 128) && shouldEscape c mode then None
        else String c <$> unescape s1 mode
  end.

(** [validEncoded] for a path. *)
Fixpoint validEncoded (s : string) : bool :=
  match s with
  | "" => true
  | String c s =>
      (in_bytes c "!$&'()*+,;=:@" || in_bytes c "[]" || Ascii.eqb c "%" || negb (shouldEscape c encodePath))
      && validEncoded s
  end.

Definition EscapedPath (u : URL) : string :=
  let raw_ok :=
    negb (String.eqb (RawPath u) "") && validEncoded (RawPath u) &&
    match unescape (RawPath u) encodePath with
    | Some p => String.eqb p (Path u)
    | None => false
    end in
  if raw_ok then RawPath u
  else if String.eqb (Path u) "*" then "*"
  else escape (Path u) encodePath.

(** [URL.String]. *)
Definition URLString (u : URL) : string :=
  let scheme := if String.eqb (Scheme u) "" then "" else Scheme u +:+ ":" in
  let body :=
    if negb (String.eqb (Opaque u) "") then scheme +:+ Opaque u
    else
      let user := match UserInfo u with Some s => s +:+ "@" | None => "" end in
      let hasUser := match UserInfo u with Some _ => true | None => false end in
      let authority :=
        if negb (String.eqb (Scheme u) "") || negb (String.eqb (URLHost u) "") || hasUser then
          (if negb (String.eqb (URLHost u) "") || negb (String.eqb (Path u) "") || hasUser
           then "//" else "")
          +:+ user +:+ escape (URLHost u) encodeHost
        else "" in
      let path := EscapedPath u in
      let slashed := negb (String.eqb path "") && negb (HasPrefix path "/") && negb (String.eqb (URLHost u) "") in
      let front := scheme +:+ authority +:+ (if slashed then "/" else "") in
      let dot :=
        String.eqb front "" &&
        match Cut path "/" with Some (seg, _) => has_byte seg colon | None => has_byte path colon end in
      front +:+ (if dot then "./" else "") +:+ path in
  body
  +:+ (if ForceQuery u || negb (String.eqb (URLRawQuery u) "") then "?" +:+ URLRawQuery u else "")
  +:+ (if String.eqb (Fragment u) "" then "" else "#" +:+ escape (Fragment u) encodeFragment).

(** ** Parsing *)

Fixpoint has_ctl (s : string) : bool :=
  match s with
  | "" => false
  | String c s => (byte_of c <? 32) || (byte_of c =? 127) || has_ctl s
  end.

(** [getScheme]: [None] is a missing scheme before a colon. *)
Fixpoint scheme_from (first : bool) (acc s : string) : option (option (string * string)) :=
  match s with
  | "" => Some None
  | String c s =>
      let n := byte_of c in
      if ((97 <=? n) && (n <=? 122)) || ((65 <=? n) && (n <=? 90))
      then scheme_from false (acc +:+ String c "") s
      else if ((48 <=? n) && (n <=? 57)) || in_bytes c "+-."
      then if first then Some None else scheme_from false (acc +:+ String c "") s
      else if Ascii.eqb c ":" then if first then None else Some (Some (acc, s))
      else Some None
  end.

Definition getScheme (s : string) : option (string * string) :=
  match scheme_from true "" s with
  | None => None
  | Some None => Some ("", s)
  | Some (Some (scheme, rest)) => Some (ToLower scheme, rest)
  end.

Fixpoint all_digits (s : string) : bool :=
  match s with
  | "" => true
  | String c s => (48 <=? byte_of c) && (byte_of c <=? 57) && all_digits s
  end.

Definition validOptionalPort (port : string) : bool :=
  match port with
  | "" => true
  | String ":" digits => all_digits digits
  | _ => false
  end.

Definition parseHost (host : string) : option string :=
  if HasPrefix host "[" then
    match last_index_byte host rbracket with
    | None => None
    | Some i =>
        if negb (validOptionalPort (str_drop (S i) host)) then None
        else
          let inner := str_take i host in
          let zone := Index inner "%25" in
          if 0 <=? zone then
            h1 ← unescape (str_take (Z.to_nat zone) inner) encodeHost;
            h2 ← unescape (str_drop (Z.to_nat zone) inner) encodeZone;
            h3 ← unescape (str_drop i host) encodeHost;
            Some (h1 +:+ h2 +:+ h3)
          else unescape host encodeHost
    end
  else
    match last_index_byte host colon with
    | Some i => if validOptionalPort (str_drop i host) then unescape host encodeHost else None
    | None => unescape host encodeHost
    end.

Fixpoint validUserinfo (s : string) : bool :=
  match s with
  | "" => true
  | String c s => (is_alnum c || in_bytes c "-._:~!$&'()*+,;=%@") && validUserinfo s
  end.

Definition parseAuthority (authority : string) : option (option string * string) :=
  match last_index_byte authority "@" with
  | None => h ← parseHost authority; Some (None, h)
  | Some i =>
      h ← parseHost (str_drop (S i) authority);
      let user := str_take i authority in
      if validUserinfo user && bool_decide (is_Some (unescape user encodeUserPassword))
      then Some (Some user, h) else None
  end.

Definition setPath (p : string) (u : URL) : option URL :=
  path ← unescape p encodePath;
  Some (with_path path (if String.eqb p (escape path encodePath) then "" else p) u).

Definition count_byte (c : ascii) (s : string) : nat :=
  length (List.filter (Ascii.eqb c) (list_ascii_of_string s)).

Definition parse_nofrag (raw : string) : option URL :=
  if has_ctl raw then None
  else if String.eqb raw "*" then Some (with_path "*" "" emptyURL)
  else
    '(scheme, rest) ← getScheme raw;
    let '(rest, force, query) :=
      if HasSuffix rest "?" && Nat.eqb (count_byte "?" rest) 1
      then (str_take (String.length rest - 1) rest, true, "")
      else match Cut rest "?" with Some (p, q) => (p, false, q) | None => (rest, false, "") end in
    if negb (HasPrefix rest "/") && negb (String.eqb scheme "") then
      Some (mkURL scheme rest None "" "" "" force query "")
    else if negb (HasPrefix rest "/") &&
            match Cut rest "/" with Some (seg, _) => has_byte seg colon | None => has_byte rest colon end
    then None
    else if (negb (String.eqb scheme "") || negb (HasPrefix rest "///")) && HasPrefix rest "//" then
      let rest := str_drop 2 rest in
      let '(authority, path) :=
        match index_byte rest slash with
        | Some i => (str_take i rest, str_drop i rest)
        | None => (rest, "")
        end in
      '(user, host) ← parseAuthority authority;
      setPath path (mkURL scheme "" user host "" "" force query "")
    else setPath rest (mkURL scheme "" None "" "" "" force query "").

(** [url.Parse]. *)
Definition ParseURL (raw : string) : option URL :=
  let '(u, frag) := match Cut raw "#" with Some (u, f) => (u, f) | None => (raw, "") end in
  url ← parse_nofrag u;
  if String.eqb frag "" then Some url
  else
    f ← unescape frag encodeFragment;
    Some (mkURL (Scheme url) (Opaque url) (UserInfo url) (URLHost url) (Path url) (RawPath url)
            (ForceQuery url) (URLRawQuery url) f).

(** [URL.Hostname]: without the port and the brackets. *)
Definition Hostname (u : URL) : string :=
  let host := URLHost u in
  let host := match last_index_byte host colon with
              | Some i => if validOptionalPort (str_drop i host) then str_take i host else host
              | None => host
              end in
  if HasPrefix host "[" && HasSuffix host "]"
  then str_take (String.length host - 2) (str_drop 1 host) else host.

(** The check four options share: an absolute http or https URL with a host. *)
Definition isHTTPURL (raw : string) : bool :=
  match ParseURL raw with
  | None => false
  | Some u => (String.eqb (Scheme u) "http" || String.eqb (Scheme u) "https")
              && negb (String.eqb (Hostname u) "")
  end.

Module URLExamples.

Example parse_print :
  URLString <$> ParseURL "https://www.example:8443/a%2Fb?x=1" = Some "https://www.example:8443/a%2Fb?x=1".
Proof. reflexivity. Qed.
Example no_host : isHTTPURL "http://:8080" = false.
Proof. reflexivity. Qed.
Example v6_host : Hostname <$> ParseURL "http://[::1]:80/" = Some "::1".
Proof. reflexivity. Qed.
Example scheme_relative : URLString (with_origin "https" "a.example" (with_path "//evil.example" "" emptyURL))
  = "https://a.example//evil.example".
Proof. reflexivity. Qed.

End URLExamples.
