(* ===== verification/ServiceMap.v ===== *)
(** * Request routing: [internal/server/service_map.go]

    The map from (host, path prefix) to service, its rebuild on every deploy
    and removal, the conflict check that precedes an installation, and the
    lookup made for every request.

    A [*Service] held in a binding is represented by the service's name, which
    is the key it is stored under; the services themselves live in one map, so
    the in-place update of TLS options by [syncTLSOptionsFromRootDomain] is
    seen through every binding.  Go's [range] over a map visits the keys in an
    unspecified order: each loop takes the order as an argument. *)
From S2P Require Import Prelude GoStrings.


(** ** Data *)

Definition rootPath : string := "/".

(** The options routing reads. *)
Record ServiceOptions := mkServiceOptions {
  Hosts : list string;
  PathPrefixes : list string;
  TLSEnabled : bool;
  TLSRedirect : bool }.

Record Service := mkService { name : string; options : ServiceOptions }.

Record pathBinding := mkBinding { pathPrefix : string; service : string }.

Definition requestServiceMap := gmap string (list pathBinding).

Record ServiceMap := mkServiceMap {
  services : gmap string Service;
  requestMap : gmap string (list pathBinding);
  defaultTLSHostname : string }.

#[export] Instance pathBinding_eq_dec : EqDecision pathBinding.
Proof. solve_decision. Defined.

(** The order in which each of the three [range m.services] loops of an update
    visits the services. *)
Record RangeOrders := mkOrders {
  order_build : list string;
  order_sync : list string;
  order_tls : list string }.

(** [order] is an order in which Go may range over [m]. *)
Definition range_order {V} (m : gmap string V) (order : list string) : Prop :=
  order ≡ₚ elements (dom m).

Definition range_orders {V} (m : gmap string V) (r : RangeOrders) : Prop :=
  range_order m (order_build r) ∧ range_order m (order_sync r) ∧
  range_order m (order_tls r).

(** ** Paths *)

Definition EnsureTrailingSlash (path : string) : string :=
  if negb (HasSuffix path "/") then path +:+ "/" else path.

Definition NormalizeHosts (hosts : list string) : list string :=
  match hosts with [] => [""] | _ => hosts end.

Definition NormalizePathPrefix (p : string) : string := "/" +:+ Trim p slash.

Definition NormalizePathPrefixes (pathPrefixes : list string) : list string :=
  match pathPrefixes with
  | [] => [rootPath]
  | _ => map NormalizePathPrefix pathPrefixes
  end.

(** [strings.HasPrefix(EnsureTrailingSlash(path), EnsureTrailingSlash(prefix))] *)
Definition PathMatchesPrefix (path prefix : string) : bool :=
  HasPrefix (EnsureTrailingSlash path) (EnsureTrailingSlash prefix).

(** ** Lookup *)

Definition bindingsForHost (rsm : gmap string (list pathBinding)) (host : string)
  : list pathBinding :=
  match rsm !! host with
  | Some bindings => bindings
  | None =>
      let sep := Index host "." in
      match (if (0 <? sep)%Z
             then rsm !! ("*" +:+ str_drop (Z.to_nat sep) host) else None) with
      | Some bindings => bindings
      | None => default [] (rsm !! "")
      end
  end.

Definition serviceFor (rsm : gmap string (list pathBinding)) (host path : string)
  : option (string * string) :=
  b ← List.find (λ b, PathMatchesPrefix path (pathPrefix b)) (bindingsForHost rsm host);
  Some (service b, pathPrefix b).

Definition ServiceForHost (rsm : gmap string (list pathBinding)) (host : string)
  : option string :=
  fst <$> serviceFor rsm host rootPath.

Definition requestHost (host : string) : string :=
  if (0 <? Index host ":")%Z
  then match SplitHostPort host with Some (h, _) => h | None => host end
  else host.

Definition ServiceForRequest (m : ServiceMap) (host path : string)
  : option (string * string) :=
  serviceFor (requestMap m) (requestHost host) path.

Definition Get (m : ServiceMap) (n : string) : option Service := services m !! n.

(** ** Rebuilding the request map *)

Definition add_binding (h : string) (b : pathBinding)
    (rsm : gmap string (list pathBinding)) : gmap string (list pathBinding) :=
  <[h := (default [] (rsm !! h) ++ [b])%list]> rsm.

Definition bind_service (rsm : gmap string (list pathBinding)) (s : Service)
  : gmap string (list pathBinding) :=
  foldl (λ rsm h,
    foldl (λ rsm p, add_binding h (mkBinding p (name s)) rsm)
      rsm (PathPrefixes (options s)))
    rsm (Hosts (options s)).

Definition cmp_bindings (a b : pathBinding) : Z :=
  (str_len (pathPrefix b) - str_len (pathPrefix a))%Z.

Definition buildRequestServiceMap `{!SortFunc} (svcs : gmap string Service)
    (order : list string) : gmap string (list pathBinding) :=
  sort_func cmp_bindings <$>
    foldl (λ rsm n, match svcs !! n with
                    | Some s => bind_service rsm s
                    | None => rsm
                    end) ∅ order.

Definition servesRootPath (s : Service) : bool :=
  str_contains (PathPrefixes (options s)) rootPath.

Definition with_tls (s : Service) (enabled redirect : bool) : Service :=
  mkService (name s)
    (mkServiceOptions (Hosts (options s)) (PathPrefixes (options s)) enabled redirect).

(** [defaultServiceOptions.TLSEnabled] and [.TLSRedirect]. *)
Definition default_tls : bool * bool := (false, true).

Definition root_tls (svcs : gmap string Service) (rsm : gmap string (list pathBinding))
    (s : Service) : bool * bool :=
  let host := default "" (head (Hosts (options s))) in
  match ServiceForHost rsm host ≫= (svcs !!.) with
  | Some root => (TLSEnabled (options root), TLSRedirect (options root))
  | None => default_tls
  end.

Definition sync_service (rsm : gmap string (list pathBinding))
    (svcs : gmap string Service) (n : string) : gmap string Service :=
  match svcs !! n with
  | Some s =>
      if negb (servesRootPath s)
      then let '(enabled, redirect) := root_tls svcs rsm s in
           <[n := with_tls s enabled redirect]> svcs
      else svcs
  | None => svcs
  end.

Definition syncTLSOptionsFromRootDomain (rsm : gmap string (list pathBinding))
    (svcs : gmap string Service) (order : list string) : gmap string Service :=
  foldl (sync_service rsm) svcs order.

Definition tls_hostname (s : Service) : option string :=
  match Hosts (options s) with
  | h :: _ => if TLSEnabled (options s) && negb (String.eqb h "") then Some h else None
  | [] => None
  end.

Definition updateDefaultTLSHostname (svcs : gmap string Service)
    (order : list string) (current : string) : string :=
  match List.find (λ n, bool_decide (is_Some (svcs !! n ≫= tls_hostname))) order with
  | Some n => default current (svcs !! n ≫= tls_hostname)
  | None => current
  end.

(** [updateRequestServiceMap] followed by [updateDefaultTLSHostname]. *)
Definition rebuild `{!SortFunc} (svcs : gmap string Service) (dflt : string)
    (r : RangeOrders) : ServiceMap :=
  let rsm := buildRequestServiceMap svcs (order_build r) in
  let svcs' := syncTLSOptionsFromRootDomain rsm svcs (order_sync r) in
  mkServiceMap svcs' rsm (updateDefaultTLSHostname svcs' (order_tls r) dflt).

(** ** Operations *)

Definition NewServiceMap : ServiceMap := mkServiceMap ∅ ∅ "".

Definition SetService `{!SortFunc} (r : RangeOrders) (m : ServiceMap) (s : Service)
  : ServiceMap :=
  rebuild (<[name s := s]> (services m)) (defaultTLSHostname m) r.

Definition RemoveService `{!SortFunc} (r : RangeOrders) (m : ServiceMap) (n : string)
  : ServiceMap :=
  rebuild (delete n (services m)) (defaultTLSHostname m) r.

(** The name of the first service holding one of the requested bindings. *)
Definition CheckAvailability (m : ServiceMap) (n : string) (o : ServiceOptions)
  : option string :=
  service <$> List.find (λ b, negb (String.eqb (service b) n))
    (h ← Hosts o; p ← PathPrefixes o;
     List.filter (λ b, String.eqb p (pathPrefix b)) (default [] (requestMap m !! h))).

Inductive RouterError := ErrorHostInUse | ErrorServiceNotFound.

(** The critical section of [Router.installLoadBalancer]. *)
Definition installService `{!SortFunc} (r : RangeOrders) (m : ServiceMap) (s : Service)
  : result RouterError ServiceMap :=
  match CheckAvailability m (name s) (options s) with
  | Some _ => Err ErrorHostInUse
  | None => Ok (SetService r m s)
  end.

(** The critical section of [Router.RemoveService]. *)
Definition removeService `{!SortFunc} (r : RangeOrders) (m : ServiceMap) (n : string)
  : result RouterError ServiceMap :=
  match Get m n with
  | None => Err ErrorServiceNotFound
  | Some s => Ok (RemoveService r m (name s))
  end.

(** ** The abstract routing table *)

Module Routing.

(** Service [n] is deployed for host [h] and path prefix [p]. *)
Definition binds (svcs : gmap string Service) (h p n : string) : Prop :=
  ∃ s, svcs !! n = Some s ∧ h ∈ Hosts (options s) ∧ p ∈ PathPrefixes (options s).

Definition bound (svcs : gmap string Service) (h : string) : Prop :=
  ∃ p n, binds svcs h p n.

(** The wildcard pattern that covers a host with at least one label before
    its first dot. *)
Definition wildcardOf (host : string) : option string :=
  let sep := Index host "." in
  if (0 <? sep)%Z then Some ("*" +:+ str_drop (Z.to_nat sep) host) else None.

(** Which host entry answers for [host]: its own, else its wildcard, else
    the catch-all. *)
Inductive effective (svcs : gmap string Service) (host : string) : string → Prop :=
| eff_exact : bound svcs host → effective svcs host host
| eff_wildcard w : ¬ bound svcs host → wildcardOf host = Some w → bound svcs w →
    effective svcs host w
| eff_default : ¬ bound svcs host →
    (∀ w, wildcardOf host = Some w → ¬ bound svcs w) → effective svcs host "".

(** The service a request must reach: deployed for the effective host under
    the longest prefix that covers the path. *)
Definition routes (svcs : gmap string Service) (host path n p : string) : Prop :=
  ∃ h, effective svcs host h ∧ binds svcs h p n ∧ PathMatchesPrefix path p = true ∧
    ∀ p' n', binds svcs h p' n' → PathMatchesPrefix path p' = true →
      (String.length p' ≤ String.length p)%nat.

(** No two services hold the same host and prefix. *)
Definition exclusive (svcs : gmap string Service) : Prop :=
  ∀ h p n1 n2, binds svcs h p n1 → binds svcs h p n2 → n1 = n2.

Definition normalized (p : string) : Prop := ∃ q, p = NormalizePathPrefix q.

Definition service_ok (s : Service) : Prop :=
  Forall normalized (PathPrefixes (options s)).

(** The request map lists exactly the deployed bindings, longest first. *)
Definition represents (svcs : gmap string Service)
    (rsm : gmap string (list pathBinding)) : Prop :=
  ∀ h, match rsm !! h with
       | Some bs => bs ≠ [] ∧
           StronglySorted (λ a b, (cmp_bindings a b ≤ 0)%Z) bs ∧
           ∀ p n, mkBinding p n ∈ bs ↔ binds svcs h p n
       | None => ¬ bound svcs h
       end.

(** A service off the root path has the TLS settings of the service that
    serves the root of its first host. *)
Definition tls_synced (svcs : gmap string Service)
    (rsm : gmap string (list pathBinding)) : Prop :=
  ∀ n s, svcs !! n = Some s → servesRootPath s = false →
    (TLSEnabled (options s), TLSRedirect (options s)) = root_tls svcs rsm s.

Record wf (m : ServiceMap) : Prop := {
  wf_names : ∀ n s, services m !! n = Some s → name s = n;
  wf_services : ∀ n s, services m !! n = Some s → service_ok s;
  wf_exclusive : exclusive (services m);
  wf_represents : represents (services m) (requestMap m);
  wf_tls : tls_synced (services m) (requestMap m) }.

(** Deploys and removals, in any order and with any iteration order. *)
Inductive step `{!SortFunc} (m : ServiceMap) : ServiceMap → Prop :=
| step_deploy r s m' : service_ok s →
    range_orders (<[name s := s]> (services m)) r →
    installService r m s = Ok m' → step m m'
| step_remove r n m' : range_orders (delete n (services m)) r →
    removeService r m n = Ok m' → step m m'.

Definition reachable `{!SortFunc} (m : ServiceMap) : Prop := rtc step NewServiceMap m.

End Routing.


(** ** Paths: lemmas *)

Lemma NormalizePathPrefix_idemp q :
  NormalizePathPrefix (NormalizePathPrefix q) = NormalizePathPrefix q.
Proof.
  unfold NormalizePathPrefix. f_equal.
  change (Trim (String slash (Trim q slash)) slash = Trim q slash).
  unfold Trim at 1. cbn [trim_left]. rewrite Ascii.eqb_refl.
  rewrite (proj2 (trim_left_id _ _)) by (intros t; apply Trim_no_lead).
  apply trim_right_id. intros t. apply Trim_no_trail.
Qed.

Lemma normalized_cases p :
  Routing.normalized p → p = rootPath ∨ HasSuffix p "/" = false.
Proof.
  intros (q & ->). unfold NormalizePathPrefix, rootPath.
  destruct (Trim q slash) as [|c r] eqn:E; [by left|right].
  apply not_true_is_false. rewrite HasSuffix_spec. intros (t & Ht).
  destruct t as [|d t]; cbn in Ht; [done|]. injection Ht as _ Ht.
  apply (Trim_no_trail q slash t). by rewrite E, Ht.
Qed.

Lemma EnsureTrailingSlash_normalized p :
  Routing.normalized p →
  EnsureTrailingSlash p = if String.eqb p rootPath then rootPath else p +:+ "/".
Proof.
  intros Hp. unfold EnsureTrailingSlash.
  destruct (normalized_cases p Hp) as [->|Hs]; [done|].
  rewrite Hs. cbn. destruct (String.eqb_spec p rootPath) as [->|]; done.
Qed.

Lemma normalized_root_length p :
  Routing.normalized p → String.length p = 1%nat → p = rootPath.
Proof.
  intros (q & ->). unfold NormalizePathPrefix. cbn.
  by destruct (Trim q slash).
Qed.

(** Two normalized prefixes of one length that cover the same path are one. *)
Lemma PathMatchesPrefix_unique path p q :
  Routing.normalized p → Routing.normalized q →
  PathMatchesPrefix path p = true → PathMatchesPrefix path q = true →
  String.length p = String.length q → p = q.
Proof.
  unfold PathMatchesPrefix. intros Hp Hq.
  rewrite (EnsureTrailingSlash_normalized p), (EnsureTrailingSlash_normalized q) by done.
  destruct (String.eqb_spec p rootPath) as [->|Hpr],
           (String.eqb_spec q rootPath) as [->|Hqr]; intros Hmp Hmq Hlen.
  - done.
  - by destruct Hqr; apply normalized_root_length.
  - by destruct Hpr; apply normalized_root_length.
  - eapply (str_app_inj_len _ "/" _ "/"); [done|].
    apply (HasPrefix_len_eq _ _ _ Hmp Hmq). rewrite !str_length_app. lia.
Qed.

(** Only the root prefix covers the root path. *)
Lemma PathMatchesPrefix_root p :
  Routing.normalized p → PathMatchesPrefix rootPath p = true → p = rootPath.
Proof.
  intros Hp. unfold PathMatchesPrefix. rewrite (EnsureTrailingSlash_normalized p) by done.
  destruct (String.eqb_spec p rootPath) as [|Hne]; [done|].
  intros (t & Ht)%HasPrefix_spec. destruct Hp as (q & ->).
  apply (f_equal String.length) in Ht. rewrite !str_length_app in Ht.
  unfold NormalizePathPrefix in Ht. rewrite str_length_app in Ht. cbn in Ht. lia.
Qed.

Lemma rootPath_matches path p0 :
  path = rootPath +:+ p0 → PathMatchesPrefix path rootPath = true.
Proof.
  intros ->. unfold PathMatchesPrefix. apply HasPrefix_spec.
  unfold EnsureTrailingSlash. case_goal; [|by eexists].
  exists (p0 +:+ "/"). done.
Qed.

(** ** The rebuilt map lists the deployed bindings *)

Definition listing (rsm : gmap string (list pathBinding))
    (P : string → pathBinding → Prop) : Prop :=
  ∀ h, match rsm !! h with
       | Some bs => bs ≠ [] ∧ ∀ b, b ∈ bs ↔ P h b
       | None => ∀ b, ¬ P h b
       end.

Lemma listing_iff rsm P Q :
  (∀ h b, P h b ↔ Q h b) → listing rsm P → listing rsm Q.
Proof.
  intros HPQ H h. specialize (H h). destruct (rsm !! h); naive_solver.
Qed.

Lemma listing_add rsm P h b :
  listing rsm P →
  listing (add_binding h b rsm) (λ h' b', P h' b' ∨ (h' = h ∧ b' = b)).
Proof.
  intros H h'. unfold add_binding. destruct (decide (h' = h)) as [->|Hne].
  - rewrite lookup_insert_eq. split; [by destruct (default [] (rsm !! h))|].
    intros b'. rewrite elem_of_app, list_elem_of_singleton. specialize (H h).
    destruct (rsm !! h) as [bs|]; cbn; [naive_solver|]. set_solver.
  - rewrite lookup_insert_ne by done. specialize (H h').
    destruct (rsm !! h'); naive_solver.
Qed.

Lemma listing_foldl {A} (f : gmap string (list pathBinding) → A → gmap string (list pathBinding))
    (Q : A → string → pathBinding → Prop) l rsm P :
  (∀ rsm P x, listing rsm P → listing (f rsm x) (λ h b, P h b ∨ Q x h b)) →
  listing rsm P →
  listing (foldl f rsm l) (λ h b, P h b ∨ ∃ x, x ∈ l ∧ Q x h b).
Proof.
  intros Hf. revert rsm P. induction l as [|x l IH]; intros rsm P H; cbn.
  - eapply listing_iff; [|done]. set_solver.
  - eapply listing_iff; [|apply IH, Hf, H]. set_solver.
Qed.

Lemma listing_bind_service rsm P s :
  listing rsm P →
  listing (bind_service rsm s) (λ h b, P h b ∨
    (h ∈ Hosts (options s) ∧ pathPrefix b ∈ PathPrefixes (options s) ∧ service b = name s)).
Proof.
  intros H. eapply listing_iff; [|apply (listing_foldl _
    (λ h0 h b, ∃ p, p ∈ PathPrefixes (options s) ∧ h = h0 ∧ b = mkBinding p (name s))); [|done]].
  - intros h [p n]; cbn. naive_solver.
  - clear. intros rsm P h0 H.
    apply (listing_foldl _ (λ p h b, h = h0 ∧ b = mkBinding p (name s))); [|done].
    intros. by apply listing_add.
Qed.

Section rebuild.
Context `{SF : !SortFunc, SFS : !SortFuncSpec}.
Import Routing.

Lemma cmp_bindings_trans x y z :
  (cmp_bindings x y ≤ 0 → cmp_bindings y z ≤ 0 → cmp_bindings x z ≤ 0)%Z.
Proof. unfold cmp_bindings. lia. Qed.

Lemma cmp_bindings_total x y : (cmp_bindings x y ≤ 0 ∨ cmp_bindings y x ≤ 0)%Z.
Proof. unfold cmp_bindings. lia. Qed.

Lemma build_represents svcs order :
  range_order svcs order → (∀ n s, svcs !! n = Some s → name s = n) →
  represents svcs (buildRequestServiceMap svcs order).
Proof.
  intros Hord Hnames h. unfold buildRequestServiceMap. rewrite lookup_fmap.
  match goal with |- context [foldl ?f ?m0 order] =>
    assert (listing (foldl f m0 order) (λ h b, binds svcs h (pathPrefix b) (service b)))
      as Hl end.
  { eapply listing_iff; [|apply (listing_foldl _
      (λ n h b, ∃ s, svcs !! n = Some s ∧ h ∈ Hosts (options s) ∧
        pathPrefix b ∈ PathPrefixes (options s) ∧ service b = name s) order ∅ (λ _ _, False))].
    - intros h' [p n]; cbn. split.
      + intros [[]|(n' & _ & s & Hs & ? & ? & ->)]. exists s.
        by rewrite (Hnames _ _ Hs).
      + intros (s & Hs & ? & ?). right. exists n. split.
        * rewrite Hord. apply elem_of_elements, elem_of_dom. eauto.
        * exists s. by rewrite (Hnames _ _ Hs).
    - intros rsm P n HP. destruct (svcs !! n) as [s|] eqn:Hs.
      + eapply listing_iff; [|by apply listing_bind_service]. naive_solver.
      + eapply listing_iff; [|done]. naive_solver.
    - intros h'. rewrite lookup_empty. naive_solver. }
  specialize (Hl h).
  match goal with |- context [foldl ?f ?m0 order] =>
    destruct (foldl f m0 order !! h) as [bs|] end; cbn.
  - destruct Hl as [Hne Hbs]. split; [|split].
    + intros Hnil. apply Hne. pose proof (sort_func_perm cmp_bindings bs) as Hp.
      rewrite Hnil in Hp. by apply Permutation_nil in Hp.
    + apply sort_func_sorted; [apply cmp_bindings_trans|apply cmp_bindings_total].
    + intros p n. rewrite sort_func_perm, Hbs. done.
  - intros (p & n & ?). by apply (Hl (mkBinding p n)).
Qed.
End rebuild.

(** ** Propagating the TLS settings of the root service *)

Section sync.
Import Routing.

(** [s'] is [s] with possibly other TLS settings; a service on the root path
    is never touched. *)
Definition retls (s s' : Service) : Prop :=
  (∃ e r, s' = with_tls s e r) ∧ (servesRootPath s = true → s' = s).

Definition retls_map (svcs svcs' : gmap string Service) : Prop :=
  ∀ n, option_Forall2 retls (svcs !! n) (svcs' !! n).

Lemma with_tls_self s : with_tls s (TLSEnabled (options s)) (TLSRedirect (options s)) = s.
Proof. by destruct s as [? []]. Qed.

Lemma retls_refl s : retls s s.
Proof.
  split; [|done]. exists (TLSEnabled (options s)), (TLSRedirect (options s)).
  by rewrite with_tls_self.
Qed.

Lemma retls_trans s1 s2 s3 : retls s1 s2 → retls s2 s3 → retls s1 s3.
Proof.
  intros [(e & r & ->) H1] [(e' & r' & ->) H2]. split; [by exists e', r'|].
  intros Hs. rewrite H2 by (unfold servesRootPath in *; done). auto.
Qed.

Lemma retls_map_refl svcs : retls_map svcs svcs.
Proof. intros n. destruct (svcs !! n); constructor. apply retls_refl. Qed.

Lemma retls_map_trans m1 m2 m3 : retls_map m1 m2 → retls_map m2 m3 → retls_map m1 m3.
Proof.
  intros H1 H2 n. specialize (H1 n). specialize (H2 n).
  destruct H1; inversion H2; subst; constructor. by eapply retls_trans.
Qed.

Lemma sync_service_retls rsm svcs n : retls_map svcs (sync_service rsm svcs n).
Proof.
  unfold sync_service. destruct (svcs !! n) as [s|] eqn:Hs; [|apply retls_map_refl].
  destruct (servesRootPath s) eqn:Hr; cbn [negb]; [apply retls_map_refl|].
  destruct (root_tls svcs rsm s) as [e r]. intros n'.
  destruct (decide (n = n')) as [<-|Hne].
  - rewrite lookup_insert_eq, Hs. constructor. split; [by exists e, r|congruence].
  - rewrite lookup_insert_ne by done. apply retls_map_refl.
Qed.

Lemma sync_retls rsm svcs order :
  retls_map svcs (syncTLSOptionsFromRootDomain rsm svcs order).
Proof.
  unfold syncTLSOptionsFromRootDomain. revert svcs.
  induction order as [|n order IH]; intros svcs; cbn; [apply retls_map_refl|].
  eapply retls_map_trans; [apply sync_service_retls|apply IH].
Qed.

Lemma retls_binds svcs svcs' h p n :
  retls_map svcs svcs' → binds svcs h p n ↔ binds svcs' h p n.
Proof.
  intros H. unfold binds. specialize (H n).
  destruct H as [s s' [(e & r & ->) _]|]; [|by split; intros (? & ? & _)].
  split; intros (? & [= <-] & Hh & Hp); eexists; split; by eauto.
Qed.

Lemma retls_represents svcs svcs' rsm :
  retls_map svcs svcs' → represents svcs rsm → represents svcs' rsm.
Proof.
  intros HR H h. specialize (H h). destruct (rsm !! h).
  - destruct H as (? & ? & H). split; [done|]. split; [done|].
    intros p n. by rewrite H, (retls_binds svcs svcs').
  - intros (p & n & Hb). apply H. exists p, n. by apply (retls_binds svcs svcs').
Qed.

(** The service found for a host serves the root path. *)
Lemma ServiceForHost_root svcs rsm host n :
  represents svcs rsm → (∀ n s, svcs !! n = Some s → service_ok s) →
  ServiceForHost rsm host = Some n →
  ∃ s, svcs !! n = Some s ∧ servesRootPath s = true.
Proof.
  intros Hrep Hok. unfold ServiceForHost, serviceFor.
  destruct (List.find _ _) as [[p n']|] eqn:Hf; cbn; [|done]. intros [= ->].
  apply List.find_some in Hf as [Hin Hm]. cbn in Hm.
  assert (∃ h, binds svcs h p n) as (h & s & Hs & _ & Hp).
  { unfold bindingsForHost in Hin.
    assert (∀ h bs, rsm !! h = Some bs → In (mkBinding p n) bs → ∃ h, binds svcs h p n) as Hb.
    { intros h bs Hbs Hi. specialize (Hrep h). rewrite Hbs in Hrep.
      exists h. apply Hrep. by apply list_elem_of_In. }
    destruct (rsm !! host) eqn:?; [by eauto|]. destruct (if (0 <? _)%Z then _ else _) eqn:Hw.
    - destruct (0 <? _)%Z; [by eauto|done].
    - destruct (rsm !! "") eqn:?; [by eauto|by destruct Hin]. }
  exists s. split; [done|]. apply str_contains_spec.
  assert (p = rootPath) as <-; [|done].
  apply PathMatchesPrefix_root; [|done].
  by apply (proj1 (Forall_forall _ _) (Hok _ _ Hs)).
Qed.

Lemma root_tls_retls svcs svcs' rsm s s' :
  represents svcs rsm → (∀ n s, svcs !! n = Some s → service_ok s) →
  retls_map svcs svcs' → retls s s' → root_tls svcs' rsm s' = root_tls svcs rsm s.
Proof.
  intros Hrep Hok HR [(e & r & ->) _]. unfold root_tls. cbn.
  destruct (ServiceForHost rsm _) as [n|] eqn:Hn; [|done]. cbn.
  destruct (ServiceForHost_root svcs rsm _ n Hrep Hok Hn) as (root & Hroot & Hserves).
  specialize (HR n). rewrite Hroot in HR. 
  destruct (svcs' !! n) as [root'|]; inversion HR as [? ? [_ Heq]|]; subst.
  rewrite Hroot. cbn. by rewrite Heq.
Qed.

Lemma sync_lookup rsm order svcs n s :
  represents svcs rsm → (∀ n s, svcs !! n = Some s → service_ok s) →
  n ∈ order → svcs !! n = Some s → servesRootPath s = false →
  syncTLSOptionsFromRootDomain rsm svcs order !! n =
    Some (with_tls s (root_tls svcs rsm s).1 (root_tls svcs rsm s).2).
Proof.
  unfold syncTLSOptionsFromRootDomain. revert svcs s.
  induction order as [|n0 order IH] using rev_ind; intros svcs s Hrep Hok Hin Hs Hr.
  { by apply elem_of_nil in Hin. }
  rewrite foldl_app. cbn.
  set (mid := foldl (sync_service rsm) svcs order).
  assert (retls_map svcs mid) as HR by apply sync_retls.
  destruct (decide (n0 = n)) as [->|Hne].
  - unfold sync_service. pose proof (HR n) as Hn. rewrite Hs in Hn.
    destruct (mid !! n) as [s'|] eqn:Hmid; inversion Hn as [? ? Hss'|]; subst.
    assert (root_tls mid rsm s' = root_tls svcs rsm s) as Hroot
      by (by apply root_tls_retls).
    destruct Hss' as [(e & r & ->) _].
    replace (servesRootPath (with_tls s e r)) with false by done. cbn [negb].
    rewrite Hroot. destruct (root_tls svcs rsm s) as [e' r'].
    by rewrite lookup_insert_eq.
  - assert (mid !! n = Some (with_tls s (root_tls svcs rsm s).1 (root_tls svcs rsm s).2)) as Hm.
    { apply IH; [done..| |done|done]. set_solver. }
    unfold sync_service. destruct (mid !! n0); [|done].
    destruct (negb _); [|done]. destruct (root_tls mid rsm _).
    by rewrite lookup_insert_ne.
Qed.
End sync.

(** ** The invariant and the refinement *)

Section routing.
Context `{SF : !SortFunc, SFS : !SortFuncSpec}.
Import Routing.

Lemma rebuild_wf svcs dflt r :
  range_orders svcs r → (∀ n s, svcs !! n = Some s → name s = n) →
  (∀ n s, svcs !! n = Some s → service_ok s) → exclusive svcs →
  wf (rebuild svcs dflt r).
Proof.
  intros (Hb & Hsy & _) Hnames Hok Hex. unfold rebuild.
  set (rsm := buildRequestServiceMap svcs (order_build r)).
  assert (represents svcs rsm) as Hrep by (by apply build_represents).
  pose proof (sync_retls rsm svcs (order_sync r)) as HR.
  set (svcs' := syncTLSOptionsFromRootDomain rsm svcs (order_sync r)) in *.
  assert (∀ n s', svcs' !! n = Some s' → ∃ s, svcs !! n = Some s ∧ retls s s') as Hinv.
  { intros n s' Hs'. specialize (HR n). rewrite Hs' in HR.
    inversion HR as [s ? Hret Heq|]; subst. by exists s. }
  split; cbn.
  - intros n s' Hs'. destruct (Hinv _ _ Hs') as (s & Hs & (e & t & ->) & _). cbn. eauto.
  - intros n s' Hs'. destruct (Hinv _ _ Hs') as (s & Hs & (e & t & ->) & _).
    exact (Hok n s Hs).
  - intros h p n1 n2 H1 H2. apply (Hex h p); by apply (retls_binds svcs svcs').
  - by apply (retls_represents svcs).
  - intros n s' Hs' Hr. destruct (Hinv _ _ Hs') as (s & Hs & Hret).
    rewrite (root_tls_retls svcs svcs' rsm s s') by done.
    pose proof (sync_lookup rsm (order_sync r) svcs n s Hrep Hok) as Hl.
    fold svcs' in Hl. rewrite Hs' in Hl.
    assert (n ∈ order_sync r) as Hin by (rewrite Hsy; apply elem_of_elements, elem_of_dom; eauto).
    specialize (Hl Hin Hs). destruct Hret as [(e & t & ->) _].
    specialize (Hl Hr). injection Hl as -> ->. by destruct (root_tls svcs rsm s).
Qed.

Lemma NewServiceMap_wf : wf NewServiceMap.
Proof.
  split; cbn; [done|done| | |done].
  - intros ????(? & ? & _). done.
  - intros h. rewrite lookup_empty. intros (? & ? & ? & ? & _). done.
Qed.

Lemma CheckAvailability_None m n o :
  represents (services m) (requestMap m) →
  CheckAvailability m n o = None ↔
  ∀ h p n', h ∈ Hosts o → p ∈ PathPrefixes o → binds (services m) h p n' → n' = n.
Proof.
  intros Hrep. unfold CheckAvailability. rewrite fmap_None, find_none_Forall, Forall_forall.
  split.
  - intros H h p n' Hh Hp Hb.
    assert (negb (String.eqb n' n) = false) as Heq; [|by apply negb_false_iff, String.eqb_eq in Heq].
    apply (H (mkBinding p n')). apply list_elem_of_bind. exists h. split; [|done].
    apply list_elem_of_bind. exists p. split; [|done].
    apply list_elem_of_In, filter_In. cbn. rewrite String.eqb_refl. split; [|done].
    specialize (Hrep h). destruct (requestMap m !! h); cbn.
    + by apply list_elem_of_In, Hrep.
    + destruct Hrep. by exists p, n'.
  - intros H [p n'] (h & Hin & Hh)%list_elem_of_bind.
    apply list_elem_of_bind in Hin as (p' & Hin & Hp).
    apply list_elem_of_In, filter_In in Hin as [Hin ->%String.eqb_eq]. cbn in *.
    apply negb_false_iff, String.eqb_eq, (H h p); [done..|].
    specialize (Hrep h). destruct (requestMap m !! h); [|done].
    by apply Hrep, list_elem_of_In.
Qed.

Lemma binds_insert svcs s h p n :
  binds (<[name s := s]> svcs) h p n ↔
  (n = name s ∧ h ∈ Hosts (options s) ∧ p ∈ PathPrefixes (options s)) ∨
  (n ≠ name s ∧ binds svcs h p n).
Proof.
  unfold binds. destruct (decide (n = name s)) as [->|Hne].
  - setoid_rewrite lookup_insert_eq. naive_solver.
  - setoid_rewrite lookup_insert_ne; naive_solver.
Qed.

Lemma installService_wf r m s m' :
  wf m → service_ok s → range_orders (<[name s := s]> (services m)) r →
  installService r m s = Ok m' → wf m'.
Proof.
  intros Hwf Hs Hr. unfold installService, SetService.
  destruct (CheckAvailability m _ _) eqn:Hca; [done|]. intros [= <-].
  pose proof (proj1 (CheckAvailability_None m _ _ (wf_represents m Hwf)) Hca) as Hnone.
  apply rebuild_wf; [done| | |].
  - intros n s' [[<- <-]|[? ?]]%lookup_insert_Some; [done|by apply (wf_names m)].
  - intros n s' [[<- <-]|[? ?]]%lookup_insert_Some; [done|by eapply (wf_services m)].
  - intros h p n1 n2 [[-> [Hh Hp]]|[Hn1 Hb1]]%binds_insert [[-> [Hh2 Hp2]]|[Hn2 Hb2]]%binds_insert.
    + done.
    + by rewrite (Hnone h p n2).
    + by rewrite (Hnone h p n1).
    + by apply (wf_exclusive m Hwf h p).
Qed.

Lemma removeService_wf r m n m' :
  wf m → range_orders (delete n (services m)) r →
  removeService r m n = Ok m' → wf m'.
Proof.
  intros Hwf Hr. unfold removeService, Get, RemoveService.
  destruct (services m !! n) as [s|] eqn:Hs; [|done]. intros [= <-].
  rewrite (wf_names m Hwf n s Hs).
  apply rebuild_wf; [done| | |].
  - intros n' s' [_ ?]%lookup_delete_Some. by apply (wf_names m).
  - intros n' s' [_ ?]%lookup_delete_Some. by eapply (wf_services m).
  - intros h p n1 n2 (s1 & [_ ?]%lookup_delete_Some & ? & ?) (s2 & [_ ?]%lookup_delete_Some & ? & ?).
    apply (wf_exclusive m Hwf h p); eexists; eauto.
Qed.

Lemma reachable_wf m : reachable m → wf m.
Proof.
  apply (rtc_ind_r (λ m, wf m) NewServiceMap); [apply NewServiceMap_wf|].
  intros m1 m2 _ Hstep Hwf. destruct Hstep.
  - by eapply installService_wf.
  - by eapply removeService_wf.
Qed.

Lemma bindingsForHost_effective m host :
  represents (services m) (requestMap m) →
  ∃ h, effective (services m) host h ∧
    StronglySorted (λ a b, (cmp_bindings a b ≤ 0)%Z) (bindingsForHost (requestMap m) host) ∧
    ∀ p n, mkBinding p n ∈ bindingsForHost (requestMap m) host ↔ binds (services m) h p n.
Proof.
  intros Hrep.
  assert (∀ h bs, requestMap m !! h = Some bs → bound (services m) h) as Hbound.
  { intros h bs Hbs. specialize (Hrep h). rewrite Hbs in Hrep.
    destruct Hrep as (Hne & _ & Hin). destruct bs as [|[p n] bs]; [done|].
    exists p, n. apply Hin. set_solver. }
  assert (∀ h, requestMap m !! h = None → ¬ bound (services m) h) as Hunbound.
  { intros h Hh. specialize (Hrep h). by rewrite Hh in Hrep. }
  unfold bindingsForHost. destruct (requestMap m !! host) as [bs|] eqn:Hh.
  { exists host. specialize (Hrep host). rewrite Hh in Hrep.
    split; [constructor; eauto|]. by destruct Hrep as (_ & ? & ?). }
  destruct (if (0 <? _)%Z then _ else _) as [bs|] eqn:Hw.
  { destruct (0 <? Index host ".")%Z eqn:Hsep; [|done].
    eexists. split; [apply eff_wildcard; [eauto| |eauto]; unfold wildcardOf; by rewrite Hsep|].
    specialize (Hrep ("*" +:+ str_drop (Z.to_nat (Index host ".")) host)).
    rewrite Hw in Hrep. by destruct Hrep as (_ & ? & ?). }
  exists "". split.
  { constructor; [eauto|]. unfold wildcardOf. intros w. destruct (0 <? _)%Z; [|done].
    intros [= <-]. eauto. }
  pose proof (Hrep "") as Hr. destruct (requestMap m !! "") as [bs|]; cbn.
  { by destruct Hr as (_ & ? & ?). }
  split; [constructor|]. intros p n. split; [by intros ?%elem_of_nil|].
  intros ?. destruct Hr. by exists p, n.
Qed.

Lemma effective_functional svcs host h1 h2 :
  effective svcs host h1 → effective svcs host h2 → h1 = h2.
Proof. destruct 1; inversion 1; subst; naive_solver. Qed.

Lemma effective_ext svcs svcs' host h :
  (∀ h', bound svcs h' ↔ bound svcs' h') →
  effective svcs host h → effective svcs' host h.
Proof.
  intros Hb [H|w H Hw Hbw|H Hw].
  - apply eff_exact. by apply Hb.
  - apply eff_wildcard; [by rewrite <- Hb|done|by apply Hb].
  - apply eff_default; [by rewrite <- Hb|]. intros w ?. rewrite <- Hb. by apply Hw.
Qed.

Lemma serviceFor_routes m host path n p :
  wf m → serviceFor (requestMap m) host path = Some (n, p) ↔
         routes (services m) host path n p.
Proof.
  intros Hwf. destruct (bindingsForHost_effective m host) as (h & Heff & Hsort & Hin);
    [apply Hwf|]. unfold serviceFor.
  assert (∀ b1 b2 l1 l2, bindingsForHost (requestMap m) host = l1 ++ b1 :: l2 → b2 ∈ l2 →
    (String.length (pathPrefix b2) ≤ String.length (pathPrefix b1))%nat) as Hlen.
  { intros b1 b2 l1 l2 Heq Hb2. rewrite Heq in Hsort.
    apply StronglySorted_app_1_r, StronglySorted_inv in Hsort as [_ Hsort].
    rewrite Forall_forall in Hsort. specialize (Hsort b2 Hb2).
    unfold cmp_bindings, str_len in Hsort. lia. }
  assert (∀ p' n', binds (services m) h p' n' → normalized p') as Hnorm.
  { intros p' n' (s & Hs & _ & Hp). by apply (proj1 (Forall_forall _ _) (wf_services m Hwf _ _ Hs)). }
  destruct (List.find _ _) as [[p0 n0]|] eqn:Hf; cbn.
  - apply find_some_split in Hf as (l1 & l2 & Heq & Hm & Hbefore). cbn in Hm.
    assert (binds (services m) h p0 n0) as Hb0 by (apply Hin; rewrite Heq; set_solver).
    assert (∀ p' n', binds (services m) h p' n' → PathMatchesPrefix path p' = true →
      (String.length p' ≤ String.length p0)%nat) as Hmax.
    { intros p' n' Hb' Hm'. apply Hin in Hb'. rewrite Heq, elem_of_app, elem_of_cons in Hb'.
      destruct Hb' as [Hb'|[[= -> ->]|Hb']]; [|done|by apply (Hlen _ _ _ _ Heq) in Hb'].
      rewrite Forall_forall in Hbefore. apply Hbefore in Hb'. cbn in Hb'. congruence. }
    split.
    + intros [= <- <-]. by exists h.
    + intros (h' & Heff' & Hb & Hmp & Hlongest).
      rewrite <- (effective_functional _ _ _ _ Heff Heff') in *.
      assert (p0 = p) as ->.
      { apply (PathMatchesPrefix_unique path); [by eauto..|].
        apply Nat.le_antisymm; eauto. }
      by rewrite (wf_exclusive m Hwf h p n0 n).
  - split; [done|]. intros (h' & Heff' & Hb & Hmp & _).
    rewrite <- (effective_functional _ _ _ _ Heff Heff') in *.
    apply find_none_Forall in Hf. rewrite Forall_forall in Hf.
    apply Hin, Hf in Hb. cbn in Hb. congruence.
Qed.

(** Two well-formed maps with the same bindings answer alike. *)
Lemma same_binds_same_routes m1 m2 host path :
  wf m1 → wf m2 → (∀ h p n, binds (services m1) h p n ↔ binds (services m2) h p n) →
  serviceFor (requestMap m1) host path = serviceFor (requestMap m2) host path.
Proof.
  intros Hw1 Hw2 Hb.
  assert (∀ h', bound (services m1) h' ↔ bound (services m2) h') as Hbound.
  { intros h'. unfold bound. by setoid_rewrite Hb. }
  assert (∀ h', effective (services m1) host h' ↔ effective (services m2) host h') as Heff.
  { intros h'. split; apply effective_ext; [done|]. intros ?. by symmetry. }
  assert (∀ n p, routes (services m1) host path n p ↔ routes (services m2) host path n p) as Hr.
  { intros n p. unfold routes. setoid_rewrite Heff. by setoid_rewrite Hb. }
  apply option_eq. intros [n p]. by rewrite !serviceFor_routes, Hr.
Qed.
End routing.

(** ** Theorems *)

Section theorems.
Context `{SF : !SortFunc, SFS : !SortFuncSpec}.
Import Routing.

(** C2: after any history of deploys and removals, a lookup returns a service
    exactly when that service is deployed for the host that answers (the
    exact host, else its wildcard, else the catch-all) under the longest
    path prefix covering the request path. *)
Theorem routing_refines_table m host path n p :
  reachable m →
  serviceFor (requestMap m) host path = Some (n, p) ↔
  routes (services m) host path n p.
Proof. intros ?%reachable_wf. by apply serviceFor_routes. Qed.

(** Routing does not depend on the order Go iterates its maps in or on
    how the sort breaks ties: two reachable maps with the same deployed
    bindings answer every request alike. *)
Theorem routing_order_independent m1 m2 host path :
  reachable m1 → reachable m2 →
  (∀ h p n, binds (services m1) h p n ↔ binds (services m2) h p n) →
  ServiceForRequest m1 host path = ServiceForRequest m2 host path.
Proof.
  intros Hw1%reachable_wf Hw2%reachable_wf Hb. by apply same_binds_same_routes.
Qed.

(** An installation is refused exactly when another service already
    holds one of the requested host and prefix pairs, and an accepted one
    keeps every pair in a single service. *)
Theorem install_conflict m r s :
  reachable m → service_ok s → range_orders (<[name s := s]> (services m)) r →
  ((installService r m s = Err ErrorHostInUse ↔
     ∃ h p n, h ∈ Hosts (options s) ∧ p ∈ PathPrefixes (options s) ∧
       binds (services m) h p n ∧ n ≠ name s) ∧
   ∀ m', installService r m s = Ok m' → exclusive (services m')).
Proof.
  intros Hm%reachable_wf Hs Hr. split.
  - unfold installService. destruct (CheckAvailability m _ _) as [n|] eqn:Hc.
    + split; [intros _|done]. unfold CheckAvailability in Hc.
      apply fmap_Some in Hc as ([p n'] & Hf & ->).
      apply List.find_some in Hf as [Hin Hne]. cbn in Hne.
      apply list_elem_of_In, list_elem_of_bind in Hin as (h & Hin & Hh).
      apply list_elem_of_bind in Hin as (p' & Hin & Hp).
      apply list_elem_of_In, filter_In in Hin as [Hin ->%String.eqb_eq]. cbn in *.
      exists h, p, n'. split; [done|]. split; [done|]. split.
      * pose proof (wf_represents m Hm h) as Hrep.
        destruct (requestMap m !! h); [|done]. by apply Hrep, list_elem_of_In.
      * by apply negb_true_iff, String.eqb_neq in Hne.
    + split; [done|]. intros (h & p & n & Hh & Hp & Hb & Hne). destruct Hne.
      by eapply (CheckAvailability_None m); [apply Hm|..].
  - intros m' Hok. by eapply wf_exclusive, installService_wf.
Qed.

(** In every reachable map, a service that does not serve the root path
    carries the TLS settings of the service answering for the root of its
    first host, or the defaults when there is none. *)
Theorem tls_follows_root m n s :
  reachable m → services m !! n = Some s → servesRootPath s = false →
  (TLSEnabled (options s), TLSRedirect (options s)) =
  match ServiceForHost (requestMap m) (default "" (head (Hosts (options s))))
          ≫= (services m !!.) with
  | Some root => (TLSEnabled (options root), TLSRedirect (options root))
  | None => (false, true)
  end.
Proof. intros Hwf%reachable_wf Hs Hr. exact (wf_tls m Hwf n s Hs Hr). Qed.
End theorems.

(** ** Witnesses *)

Module Examples.
#[local] Existing Instance insertion_SortFunc.
#[local] Existing Instance insertion_SortFuncSpec.
Import Routing.

Definition app := mkService "app"
  (mkServiceOptions ["example.com"] ["/"] true false).
Definition api := mkService "api"
  (mkServiceOptions ["example.com"] ["/api"] false true).

Definition m1 : ServiceMap :=
  SetService (mkOrders ["app"] ["app"] ["app"]) NewServiceMap app.
Definition m2 : ServiceMap :=
  SetService (mkOrders ["app"; "api"] ["api"; "app"] ["app"; "api"]) m1 api.
Definition m3 : ServiceMap :=
  SetService (mkOrders ["api"; "app"] ["app"; "api"] ["api"; "app"]) m1 api.

Lemma app_ok : service_ok app.
Proof. constructor; [by exists ""|constructor]. Qed.

Lemma api_ok : service_ok api.
Proof. constructor; [by exists "api"|constructor]. Qed.

Ltac solve_range :=
  split; [|split]; unfold range_order; vm_compute; (reflexivity || apply Permutation_swap).

Lemma m1_step : step NewServiceMap m1.
Proof. eapply step_deploy; [apply app_ok| |reflexivity]. solve_range. Defined.

Lemma m2_step : step m1 m2.
Proof. eapply step_deploy; [apply api_ok| |reflexivity]. solve_range. Defined.

Lemma m3_step : step m1 m3.
Proof. eapply step_deploy; [apply api_ok| |reflexivity]. solve_range. Defined.

Lemma m1_reachable : reachable m1.
Proof. apply rtc_once, m1_step. Defined.

Lemma m2_reachable : reachable m2.
Proof. eapply rtc_r; [apply m1_reachable|apply m2_step]. Defined.

Lemma m3_reachable : reachable m3.
Proof. eapply rtc_r; [apply m1_reachable|apply m3_step]. Defined.

Lemma routing_refines_table_witness :
  routes (services m2) "example.com" "/api/users" "api" "/api".
Proof.
  apply (routing_refines_table m2 "example.com" "/api/users" "api" "/api" m2_reachable).
  vm_compute. reflexivity.
Defined.

Lemma routing_order_independent_witness :
  ServiceForRequest m2 "example.com:443" "/api" = ServiceForRequest m3 "example.com:443" "/api".
Proof.
  apply (routing_order_independent m2 m3 _ _ m2_reachable m3_reachable).
  intros h p n. replace (services m3) with (services m2) by (vm_compute; reflexivity). done.
Defined.

(** A second service asking for the root of the same host is refused. *)
Definition rival := mkService "rival"
  (mkServiceOptions ["other.com"; "example.com"] ["/"] false true).

Definition rival_orders : RangeOrders :=
  let o := ["app"; "rival"] in mkOrders o o o.

Lemma install_conflict_witness :
  installService rival_orders m1 rival = Err ErrorHostInUse ∧
  ∃ h p n, h ∈ Hosts (options rival) ∧ p ∈ PathPrefixes (options rival) ∧
    binds (services m1) h p n ∧ n ≠ name rival.
Proof.
  split; [vm_compute; reflexivity|].
  apply (install_conflict m1 rival_orders rival m1_reachable).
  - constructor; [by exists ""|constructor].
  - solve_range.
  - vm_compute. reflexivity.
Defined.

(** Removing the last TLS service leaves its host name as the default for
    handshakes without a server name. *)
Lemma default_tls_hostname_survives_removal :
  let m := RemoveService (mkOrders [] [] []) m1 "app" in
  services m = ∅ ∧ requestMap m = ∅ ∧ defaultTLSHostname m = "example.com".
Proof. vm_compute. auto. Qed.

Lemma tls_follows_root_witness :
  ∃ s, services m2 !! "api" = Some s ∧
    (TLSEnabled (options s), TLSRedirect (options s)) = (true, false).
Proof.
  eexists. split; [vm_compute; reflexivity|].
  rewrite (tls_follows_root m2 "api" _ m2_reachable); [|vm_compute; reflexivity..].
  vm_compute. reflexivity.
Defined.
End Examples.
