(* ===== verification/Target.v ===== *)
(** * A target: [internal/server/target.go], [target_weight.go], [target_pool.go]

    One upstream instance: how its deploy-time spec is read and written back,
    its place in the health state machine, the requests it is serving, and the
    smooth weighted round-robin its credit takes part in.  A target is shared
    by pointer between the load balancer's lists; here it lives in a list and
    is named by its position. *)
From S2P Require Import Prelude GoStrings.

(** ** Specs *)

Definition DefaultTargetWeight : Z := 1.
Definition MaxTargetWeight : Z := 1000.
Definition targetAttributeSeparator : ascii := ";"%char.
Definition targetWeightAttribute : string := "weight=".

Inductive TargetError :=
| ErrNotAnAttribute (attribute : string)
| ErrNotAWholeNumber (value : string)
| ErrWeightOutside (weight : Z)
| ErrorInvalidHostPattern (host : string).

#[export] Instance TargetError_eq_dec : EqDecision TargetError.
Proof. solve_decision. Defined.

Definition parseTargetSpec (spec : string) : result TargetError (string * Z) :=
  match Cut spec targetAttributeSeparator with
  | None => Ok (spec, DefaultTargetWeight)
  | Some (host, attribute) =>
      match CutPrefix attribute targetWeightAttribute with
      | None => Err (ErrNotAnAttribute attribute)
      | Some value =>
          match ParseInt value with
          | None => Err (ErrNotAWholeNumber value)
          | Some weight =>
              if (weight <? DefaultTargetWeight) || (MaxTargetWeight <? weight)
              then Err (ErrWeightOutside weight)
              else Ok (host, weight)
          end
      end
  end.

(** [hostRegex]: [^(\w[-_.\w+]+)(:\d+)?$]. *)
Definition between (lo hi : N) (c : ascii) : bool :=
  ((lo <=? N_of_ascii c) && (N_of_ascii c <=? hi))%N.

Definition is_digit (c : ascii) : bool := between 48 57 c.

Definition is_word (c : ascii) : bool :=
  is_digit c || between 65 90 c || between 97 122 c || Ascii.eqb c "_".

Definition is_host_char (c : ascii) : bool :=
  is_word c || Ascii.eqb c "-" || Ascii.eqb c "." || Ascii.eqb c "+".

Fixpoint str_all (P : ascii → bool) (s : string) : bool :=
  match s with "" => true | String c s => P c && str_all P s end.

Definition host_match (h : string) : bool :=
  match h with
  | String c (String d r) => is_word c && is_host_char d && str_all is_host_char r
  | _ => false
  end.

Definition hostRegex (s : string) : bool :=
  match Cut s colon with
  | None => host_match s
  | Some (h, port) => host_match h && negb (String.eqb port "") && str_all is_digit port
  end.

(** ** Options and pool settings *)

(** Only the fields read by the modelled code. *)
Record TargetOptions := mkTargetOptions {
  MaxConnsPerHost : Z;
  MaxIdleConnsPerHost : Z;
  IdleConnTimeout : Z;
  DialTimeout : Z;
  DisableKeepAlives : bool;
  HealthCheckPath : string }.

Record poolSettings := mkPoolSettings {
  ps_MaxConns : Z;
  ps_MaxIdleConns : Z;
  ps_IdleConnTimeout : Z;
  ps_DialTimeout : Z;
  ps_DisableKeepAlives : bool }.

Definition DefaultMaxIdleConnsPerHost : Z := 100.
Definition DefaultTargetDialTimeout : Z := 30 * second.
Definition DefaultTargetIdleConnTimeout : Z := 90 * second.

Definition resolvePoolSettings (o : TargetOptions) : poolSettings := {|
  ps_MaxConns := if MaxConnsPerHost o <? 0 then 0 else MaxConnsPerHost o;
  ps_MaxIdleConns := if MaxIdleConnsPerHost o <=? 0
                     then DefaultMaxIdleConnsPerHost else MaxIdleConnsPerHost o;
  ps_IdleConnTimeout := if IdleConnTimeout o <=? 0
                        then DefaultTargetIdleConnTimeout else IdleConnTimeout o;
  ps_DialTimeout := if DialTimeout o <=? 0
                    then DefaultTargetDialTimeout else DialTimeout o;
  ps_DisableKeepAlives := DisableKeepAlives o |}.

Inductive PoolOptionError :=
| NegativeMaxConns | NegativeMaxIdleConns | NegativeIdleConnTimeout | NegativeDialTimeout.

Definition ValidateTargetOptions (o : TargetOptions) : result PoolOptionError unit :=
  _ ← guard_err (negb (MaxConnsPerHost o <? 0)) NegativeMaxConns;
  _ ← guard_err (negb (MaxIdleConnsPerHost o <? 0)) NegativeMaxIdleConns;
  _ ← guard_err (negb (IdleConnTimeout o <? 0)) NegativeIdleConnTimeout;
  guard_err (negb (DialTimeout o <? 0)) NegativeDialTimeout.

(** ** State *)

Inductive TargetState :=
| TargetStateAdding
| TargetStateDraining
| TargetStateHealthy
| TargetStateUnhealthy.

#[export] Instance TargetState_eq_dec : EqDecision TargetState.
Proof. solve_decision. Defined.

(** A request in flight, by the identity of its [*http.Request]. *)
Record inflightRequest := mkInflight { hijacked : bool; cancelled : bool }.

Record Target := mkTarget {
  address : string;
  readonly : bool;
  weight : Z;
  currentWeight : Z;
  state : TargetState;
  inflight : gmap nat inflightRequest;
  healthcheck : bool }.

Definition NewTarget (spec : string) : result TargetError Target :=
  '(host, w) ← parseTargetSpec spec;
  if hostRegex host
  then Ok (mkTarget host false w 0 TargetStateAdding ∅ false)
  else Err (ErrorInvalidHostPattern host).

Definition set_readonly (t : Target) : Target :=
  mkTarget (address t) true (weight t) (currentWeight t) (state t) (inflight t) (healthcheck t).
Definition set_state (s : TargetState) (t : Target) : Target :=
  mkTarget (address t) (readonly t) (weight t) (currentWeight t) s (inflight t) (healthcheck t).
Definition set_inflight (m : gmap nat inflightRequest) (t : Target) : Target :=
  mkTarget (address t) (readonly t) (weight t) (currentWeight t) (state t) m (healthcheck t).
Definition set_healthcheck (b : bool) (t : Target) : Target :=
  mkTarget (address t) (readonly t) (weight t) (currentWeight t) (state t) (inflight t) b.
Definition add_credit (z : Z) (t : Target) : Target :=
  mkTarget (address t) (readonly t) (weight t) (currentWeight t + z) (state t) (inflight t)
    (healthcheck t).

Definition NewReadOnlyTarget (spec : string) : result TargetError Target :=
  set_readonly <$> NewTarget spec.

(** [NewTargetList]: writers first, then readers. *)
Definition NewTargetList (targetURLs readerURLs : list string)
  : result TargetError (list Target) :=
  ws ← mapM_result NewTarget targetURLs;
  rs ← mapM_result NewReadOnlyTarget readerURLs;
  Ok (ws ++ rs).

(** [Target.Spec]. *)
Definition Spec (t : Target) : string :=
  if weight t =? DefaultTargetWeight then address t
  else address t +:+ String targetAttributeSeparator (targetWeightAttribute +:+ Itoa (weight t)).

Definition targetsMatchingReadonly (b : bool) (tl : list Target) : list Target :=
  List.filter (λ t, Bool.eqb (readonly t) b) tl.

Definition Specs (tl : list Target) : list string := map Spec tl.

Definition hasWeights (tl : list Target) : bool :=
  existsb (λ t, negb (weight t =? DefaultTargetWeight)) tl.

Definition HasReaders (tl : list Target) : bool := existsb readonly tl.

(** [Target.StartRequest]: refused while draining. *)
Definition StartRequest (req : nat) (t : Target) : option Target :=
  match state t with
  | TargetStateDraining => None
  | _ => Some (set_inflight (<[req := mkInflight false false]> (inflight t)) t)
  end.

(** [endInflightRequest]. *)
Definition endInflightRequest (req : nat) (t : Target) : Target :=
  set_inflight (delete req (inflight t)) t.

(** The state update of [HealthCheckCompleted]; the second component says
    whether the state consumer is told. *)
Definition HealthCheckCompleted (success : bool) (t : Target) : Target * bool :=
  let newState :=
    if success then TargetStateHealthy
    else match state t with
         | TargetStateHealthy => TargetStateUnhealthy
         | s => s
         end in
  (set_state newState t, negb (bool_decide (newState = state t))).

(** ** Smooth weighted round-robin *)

Definition credit (ts : list Target) (i : nat) : Z :=
  match ts !! i with Some t => currentWeight t | None => 0 end.

Definition weightOf (ts : list Target) (i : nat) : Z :=
  match ts !! i with Some t => weight t | None => 0 end.

(** One iteration of the loop of [nextWeighted]: the target's credit grows by
    its weight, and it becomes the choice if it holds strictly more credit. *)
Definition nextWeighted_step (acc : list Target * Z * option nat) (i : nat)
  : list Target * Z * option nat :=
  let '(ts, total, chosen) := acc in
  let ts' := alter (add_credit (weightOf ts i)) i ts in
  let total' := total + weightOf ts i in
  match chosen with
  | None => (ts', total', Some i)
  | Some c => if credit ts' c <? credit ts' i then (ts', total', Some i)
              else (ts', total', Some c)
  end.

Definition nextWeighted (ts : list Target) (pool : list nat) : list Target * option nat :=
  let '(ts', total, chosen) := foldl nextWeighted_step (ts, 0, None) pool in
  match chosen with
  | None => (ts', None)
  | Some c => (alter (add_credit (- total)) c ts', Some c)
  end.

(** [k] consecutive selections from an unchanged pool. *)
Fixpoint nextWeighted_run (k : nat) (ts : list Target) (pool : list nat)
  : list Target * list nat :=
  match k with
  | O => (ts, [])
  | S k =>
      let '(ts1, chosen) := nextWeighted ts pool in
      let '(ts2, picks) := nextWeighted_run k ts1 pool in
      (ts2, match chosen with Some c => c :: picks | None => picks end)
  end.

Definition total_weight (ts : list Target) (pool : list nat) : Z :=
  sumf (weightOf ts) pool.

Definition picks_of (i : nat) (picks : list nat) : Z :=
  Z.of_nat (length (filter (i =.) picks)).

(** ** Lemmas: selection *)

Lemma credit_alter ts i z j :
  is_Some (ts !! i) →
  credit (alter (add_credit z) i ts) j = credit ts j + (if decide (j = i) then z else 0).
Proof.
  intros [t Ht]. unfold credit. destruct (decide (j = i)) as [->|Hne].
  - rewrite list_lookup_alter_eq, Ht. done.
  - rewrite list_lookup_alter_ne by done. lia.
Qed.

Lemma weightOf_alter ts i z j :
  weightOf (alter (add_credit z) i ts) j = weightOf ts j.
Proof.
  unfold weightOf. destruct (decide (j = i)) as [->|Hne].
  - rewrite list_lookup_alter_eq. by destruct (ts !! i).
  - by rewrite list_lookup_alter_ne.
Qed.

Lemma lookup_alter_is_Some (f : Target → Target) (ts : list Target) (i j : nat) :
  is_Some (alter f i ts !! j) ↔ is_Some (ts !! j).
Proof. by rewrite !lookup_lt_is_Some, length_alter. Qed.

Section weighted.
Context (pool : list nat).

Definition in_range (ts : list Target) : Prop := ∀ i, i ∈ pool → is_Some (ts !! i).

(** Two stores with the same targets, up to their credits. *)
Definition same_weights (ts ts' : list Target) : Prop :=
  (∀ j, weightOf ts' j = weightOf ts j) ∧ (∀ j, is_Some (ts' !! j) ↔ is_Some (ts !! j)).

Lemma same_weights_trans ts1 ts2 ts3 :
  same_weights ts1 ts2 → same_weights ts2 ts3 → same_weights ts1 ts3.
Proof.
  intros [H1 H2] [H3 H4]. split; intros j; [by rewrite H3|by rewrite H4].
Qed.

Lemma same_weights_alter ts i z : same_weights ts (alter (add_credit z) i ts).
Proof. split; [apply weightOf_alter|]. intros j. apply lookup_alter_is_Some. Qed.

Lemma total_same ts ts' : same_weights ts ts' → total_weight ts' pool = total_weight ts pool.
Proof. intros [H _]. apply sumf_ext. auto. Qed.

Lemma in_range_same ts ts' : same_weights ts ts' → in_range ts → in_range ts'.
Proof. intros [_ H] Hr i Hi. apply H. auto. Qed.
End weighted.

(** What the accumulation loop of [nextWeighted] has done after a prefix of the
    pool. *)
Lemma nextWeighted_fold ts pool :
  NoDup pool → in_range pool ts →
  ∃ ts' chosen,
    foldl nextWeighted_step (ts, 0, None) pool = (ts', total_weight ts pool, chosen) ∧
    same_weights ts ts' ∧
    (∀ j, credit ts' j = credit ts j + (if decide (j ∈ pool) then weightOf ts j else 0)) ∧
    match chosen with
    | None => pool = []
    | Some c => c ∈ pool ∧ ∀ i, i ∈ pool → credit ts' i ≤ credit ts' c
    end.
Proof.
  induction pool as [|i pool IH] using rev_ind; intros Hnd Hr.
  { exists ts, None. split; [done|]. split; [by split|]. split; [|done].
    intros j. rewrite decide_False by apply not_elem_of_nil. lia. }
  apply NoDup_app in Hnd as (Hnd & Hdisj & _).
  destruct IH as (ts' & ch & Hfold & Hsame & Hcred & Hch);
    [done|intros k Hk; apply Hr; set_solver|].
  assert (i ∉ pool) as Hi by set_solver.
  assert (is_Some (ts' !! i)) as Hsome by (apply Hsame, Hr; set_solver).
  rewrite foldl_app, Hfold. cbn [foldl nextWeighted_step].
  set (ts'' := alter (add_credit (weightOf ts' i)) i ts').
  assert (same_weights ts ts'') as Hsame'
    by (eapply same_weights_trans; [done|apply same_weights_alter]).
  assert (∀ j, credit ts'' j =
    credit ts j + (if decide (j ∈ pool ++ [i]) then weightOf ts j else 0)) as Hcred'.
  { intros j. unfold ts''. rewrite credit_alter, Hcred by done.
    rewrite (proj1 Hsame). destruct (decide (j = i)) as [->|Hji].
    - rewrite decide_False by done. rewrite decide_True by set_solver. lia.
    - destruct (decide (j ∈ pool)), (decide (j ∈ pool ++ [i])); (lia || set_solver). }
  assert (∀ k, k ∈ pool → credit ts'' k = credit ts' k) as Hold.
  { intros k Hk. unfold ts''. rewrite credit_alter, decide_False by (done || by intros ->). lia. }
  assert (total_weight ts pool + weightOf ts' i = total_weight ts (pool ++ [i])) as Htot.
  { unfold total_weight. rewrite sumf_app, (proj1 Hsame). cbn. lia. }
  rewrite Htot. destruct ch as [c|].
  - destruct Hch as [Hc Hmax]. destruct (Z.ltb_spec (credit ts'' c) (credit ts'' i)) as [Hlt|Hge].
    + exists ts'', (Some i). repeat (split; [done|]). split; [set_solver|].
      intros k [Hk|Hk]%elem_of_app; [|by apply list_elem_of_singleton in Hk as ->].
      specialize (Hmax k Hk). rewrite (Hold k), (Hold c) in * by done. lia.
    + exists ts'', (Some c). repeat (split; [done|]). split; [set_solver|].
      intros k [Hk|Hk]%elem_of_app; [|by apply list_elem_of_singleton in Hk as ->].
      specialize (Hmax k Hk). rewrite (Hold k), (Hold c) in * by done. lia.
  - subst pool. exists ts'', (Some i). repeat (split; [done|]). split; [set_solver|].
    intros k Hk. by apply list_elem_of_singleton in Hk as ->.
Qed.

(** One selection: every target of the pool is credited its weight, the choice
    holds the most credit and pays back the pool's total. *)
Lemma nextWeighted_spec ts pool :
  NoDup pool → in_range pool ts → pool ≠ [] →
  ∃ ts' c, nextWeighted ts pool = (ts', Some c) ∧ c ∈ pool ∧ same_weights ts ts' ∧
    (∀ i, i ∈ pool → credit ts' i =
       credit ts i + weightOf ts i - (if decide (i = c) then total_weight ts pool else 0)) ∧
    (∀ i, i ∉ pool → credit ts' i = credit ts i) ∧
    (∀ i, i ∈ pool → credit ts i + weightOf ts i ≤ credit ts c + weightOf ts c).
Proof.
  intros Hnd Hr Hne. unfold nextWeighted.
  destruct (nextWeighted_fold ts pool Hnd Hr) as (ts' & [c|] & -> & Hsame & Hcred & Hch);
    [|done]. destruct Hch as [Hc Hmax].
  exists (alter (add_credit (- total_weight ts pool)) c ts'), c.
  assert (is_Some (ts' !! c)) by (apply Hsame; auto).
  split; [done|]. split; [done|].
  split; [eapply same_weights_trans; [done|apply same_weights_alter]|].
  split; [|split].
  - intros i Hi. rewrite credit_alter, Hcred, decide_True by done.
    destruct (decide (i = c)); lia.
  - intros i Hi. rewrite credit_alter, Hcred, decide_False by done.
    rewrite decide_False; [lia|]. by intros ->.
  - intros i Hi. specialize (Hmax i Hi). rewrite !Hcred, !decide_True in Hmax; done.
Qed.

(** Between selections the credits of a pool sum to zero and none has fallen
    by the pool's total. *)
Definition balanced (pool : list nat) (ts : list Target) : Prop :=
  sumf (credit ts) pool = 0 ∧ ∀ i, i ∈ pool → - total_weight ts pool < credit ts i.

Definition positive_weights (pool : list nat) (ts : list Target) : Prop :=
  ∀ i, i ∈ pool → 1 ≤ weightOf ts i.

Lemma total_positive pool ts :
  positive_weights pool ts → pool ≠ [] → 0 < total_weight ts pool.
Proof.
  intros Hw Hne. unfold total_weight.
  assert (sumf (λ _, 1) pool ≤ sumf (weightOf ts) pool) as Hle by (by apply sumf_le).
  rewrite sumf_const in Hle. destruct pool; [done|]. cbn [length] in Hle. lia.
Qed.

Lemma balanced_start pool ts :
  positive_weights pool ts → (∀ i, i ∈ pool → credit ts i = 0) → pool ≠ [] →
  balanced pool ts.
Proof.
  intros Hw H0 Hne. pose proof (total_positive pool ts Hw Hne). split.
  - rewrite (sumf_ext _ (λ _, 0)) by done. rewrite sumf_const. lia.
  - intros i Hi. rewrite H0 by done. lia.
Qed.

Lemma nextWeighted_balanced ts pool ts' c :
  NoDup pool → in_range pool ts → positive_weights pool ts → balanced pool ts →
  nextWeighted ts pool = (ts', Some c) → balanced pool ts'.
Proof.
  intros Hnd Hr Hw [Hsum Hlow] Hnext.
  assert (pool ≠ []) as Hne by (intros ->; cbn in Hnext; done).
  destruct (nextWeighted_spec ts pool Hnd Hr Hne)
    as (ts1 & c1 & Heq & Hc & Hsame & Hcred & _ & Hmax).
  rewrite Heq in Hnext. injection Hnext as -> ->.
  set (W := total_weight ts pool) in *.
  pose proof (total_positive pool ts Hw Hne) as HW. fold W in HW.
  assert (0 < credit ts c + weightOf ts c) as Hpos.
  { assert (sumf (λ i, credit ts i + weightOf ts i) pool = W) as Hs
      by (rewrite sumf_add; unfold W, total_weight; lia).
    assert (sumf (λ i, credit ts i + weightOf ts i) pool
            ≤ sumf (λ _, credit ts c + weightOf ts c) pool) as Hle by (by apply sumf_le).
    rewrite Hs, sumf_const in Hle. destruct pool as [|p pool]; [done|].
    cbn [length] in Hle. nia. }
  split; rewrite ?(total_same pool ts ts') by done.
  - rewrite (sumf_ext _ (λ i, (credit ts i + weightOf ts i) +
                              (if decide (i = c) then - W else 0))).
    + rewrite !sumf_add, sumf_indicator, Hsum by done.
      change (sumf (weightOf ts) pool) with W. lia.
    + intros i Hi. rewrite Hcred by done. destruct (decide (i = c)); lia.
  - intros i Hi. fold W. rewrite Hcred by done. specialize (Hlow i Hi). specialize (Hw i Hi).
    destruct (decide (i = c)) as [->|]; lia.
Qed.

Lemma picks_of_cons i c l :
  picks_of i (c :: l) = (if decide (i = c) then 1 else 0) + picks_of i l.
Proof.
  unfold picks_of. rewrite filter_cons.
  repeat case_decide; cbn [length]; (lia || congruence).
Qed.

(** [k] selections: each target of the pool has been credited [k] times its
    weight and has paid the total once per turn it served. *)
Lemma nextWeighted_run_spec k ts pool ts' picks :
  NoDup pool → in_range pool ts → positive_weights pool ts → balanced pool ts → pool ≠ [] →
  nextWeighted_run k ts pool = (ts', picks) →
  same_weights ts ts' ∧ balanced pool ts' ∧ length picks = k ∧
  (∀ i, i ∈ pool → credit ts' i =
    credit ts i + Z.of_nat k * weightOf ts i - picks_of i picks * total_weight ts pool).
Proof.
  revert ts ts' picks. induction k as [|k IH]; intros ts ts' picks Hnd Hr Hw Hbal Hne Hrun.
  { cbn in Hrun. injection Hrun as <- <-. split; [by split|]. split; [done|]. split; [done|].
    intros i _. unfold picks_of. cbn. lia. }
  cbn [nextWeighted_run] in Hrun.
  destruct (nextWeighted_spec ts pool Hnd Hr Hne)
    as (ts1 & c & Heq & Hc & Hsame & Hcred & _ & _).
  rewrite Heq in Hrun. destruct (nextWeighted_run k ts1 pool) as [ts2 picks2] eqn:Hrun2.
  injection Hrun as <- <-.
  destruct (IH ts1 ts2 picks2) as (Hsame2 & Hbal2 & Hlen & Hcred2); [done|..|done|].
  { by eapply in_range_same. }
  { intros i Hi. rewrite (proj1 Hsame). auto. }
  { by eapply nextWeighted_balanced. }
  { done. }
  split; [by eapply same_weights_trans|]. split; [done|]. split; [cbn; lia|].
  intros i Hi. rewrite Hcred2, Hcred, (total_same pool ts ts1), (proj1 Hsame) by done.
  rewrite picks_of_cons. destruct (decide (i = c)); lia.
Qed.

(** ** Lemmas: specs *)

Lemma host_chars_no_byte (c : ascii) s :
  is_host_char c = false → str_all is_host_char s = true → index_byte s c = None.
Proof.
  intros Hc. induction s as [|a s IH]; cbn; [done|].
  rewrite andb_true_iff. intros [Ha Hs].
  destruct (Ascii.eqb_spec a c) as [->|]; [congruence|]. by rewrite IH.
Qed.

Lemma word_is_host_char c : is_word c = true → is_host_char c = true.
Proof. unfold is_host_char. by intros ->. Qed.

Lemma digit_is_host_char c : is_digit c = true → is_host_char c = true.
Proof. intros H. apply word_is_host_char. unfold is_word. by rewrite H. Qed.

Lemma host_match_chars h : host_match h = true → str_all is_host_char h = true.
Proof.
  destruct h as [|c [|d r]]; cbn; [done|done|].
  rewrite !andb_true_iff. intros [[Hc Hd] Hr]. by rewrite word_is_host_char.
Qed.

Lemma index_byte_app x y c :
  index_byte x c = None → index_byte y c = None → index_byte (x +:+ y) c = None.
Proof.
  intros Hx Hy. induction x as [|a x IH]; [done|].
  cbn in Hx |- *. destruct (Ascii.eqb a c); [done|].
  destruct (index_byte x c); [done|]. by rewrite IH.
Qed.

(** A deployed address never contains the attribute separator. *)
Lemma hostRegex_no_separator h :
  hostRegex h = true → index_byte h targetAttributeSeparator = None.
Proof.
  unfold hostRegex. destruct (Cut h colon) as [[x y]|] eqn:Hcut.
  - apply Cut_Some in Hcut as [-> _]. rewrite !andb_true_iff. intros [[Hx _] Hy].
    apply index_byte_app; [by apply host_chars_no_byte, host_match_chars|].
    cbn. rewrite host_chars_no_byte; [done|done|]. clear -Hy.
    induction y as [|a y IH]; cbn in *; [done|]. apply andb_true_iff in Hy as [Ha Hy].
    by rewrite digit_is_host_char, IH.
  - intros H. by apply host_chars_no_byte, host_match_chars.
Qed.

Lemma NewTarget_Ok spec t :
  NewTarget spec = Ok t →
  hostRegex (address t) = true ∧ 1 ≤ weight t ≤ MaxTargetWeight ∧ currentWeight t = 0 ∧
  state t = TargetStateAdding ∧ inflight t = ∅ ∧ readonly t = false ∧
  parseTargetSpec spec = Ok (address t, weight t).
Proof.
  unfold NewTarget. destruct (parseTargetSpec spec) as [[h w]|] eqn:Hp; cbn; [|done].
  destruct (hostRegex h) eqn:Hh; [|done]. intros [= <-]. cbn.
  split; [done|]. split; [|done].
  unfold parseTargetSpec in Hp. destruct (Cut _ _) as [[h' a]|]; [|by injection Hp as _ <-].
  destruct (CutPrefix _ _); [|done]. destruct (ParseInt _); [|done].
  destruct ((_ <? _) || (_ <? _))%bool eqn:Hb; [done|]. injection Hp as _ <-.
  breflect. unfold DefaultTargetWeight in *. lia.
Qed.

Lemma parseTargetSpec_Spec t :
  hostRegex (address t) = true → 1 ≤ weight t ≤ MaxTargetWeight →
  parseTargetSpec (Spec t) = Ok (address t, weight t).
Proof.
  intros Hh Hw. pose proof (hostRegex_no_separator _ Hh) as Hno.
  unfold Spec. destruct (Z.eqb_spec (weight t) DefaultTargetWeight) as [Heq|Hne].
  - unfold parseTargetSpec. by rewrite (proj2 (Cut_None _ _) Hno), Heq.
  - unfold parseTargetSpec.
    rewrite (proj2 (Cut_Some _ _ _ _) (conj eq_refl Hno)).
    rewrite (proj2 (CutPrefix_Some _ _ _) eq_refl).
    rewrite ParseInt_Itoa by (unfold in_int64, int64_min, int64_max, MaxTargetWeight in *; lia).
    destruct (Z.ltb_spec (weight t) DefaultTargetWeight);
      [unfold DefaultTargetWeight in *; lia|].
    destruct (Z.ltb_spec MaxTargetWeight (weight t)); [lia|]. done.
Qed.

(** ** Theorems *)

(** C32: over a full cycle of selections from an unchanged pool, each target
    serves exactly its weight and every credit is back to zero, so the next
    cycle repeats the same shares. *)
Theorem weighted_cycle_fair ts pool ts' picks :
  NoDup pool → pool ≠ [] → in_range pool ts → positive_weights pool ts →
  (∀ i, i ∈ pool → credit ts i = 0) →
  nextWeighted_run (Z.to_nat (total_weight ts pool)) ts pool = (ts', picks) →
  ∀ i, i ∈ pool → picks_of i picks = weightOf ts i ∧ credit ts' i = 0.
Proof.
  intros Hnd Hne Hr Hw H0 Hrun.
  pose proof (total_positive pool ts Hw Hne) as HW.
  pose proof (balanced_start pool ts Hw H0 Hne) as Hbal.
  destruct (nextWeighted_run_spec _ ts pool ts' picks Hnd Hr Hw Hbal Hne Hrun)
    as (Hsame & [Hsum Hlow] & _ & Hcred).
  rewrite Z2Nat.id in Hcred by lia. rewrite (total_same pool ts ts') in Hlow by done.
  set (W := total_weight ts pool) in *.
  assert (∀ i, i ∈ pool → credit ts' i = W * (weightOf ts i - picks_of i picks)) as Hmul
    by (intros i Hi; rewrite Hcred, H0 by done; lia).
  assert (∀ i, i ∈ pool → credit ts' i = 0) as Hzero.
  { apply sumf_nonneg_zero; [|done]. intros i Hi.
    specialize (Hlow i Hi). rewrite Hmul in Hlow |- * by done.
    apply Z.mul_nonneg_nonneg; [lia|]. apply Z.nlt_ge. intros ?. nia. }
  intros i Hi. split; [|auto]. specialize (Hzero i Hi). rewrite Hmul in Hzero by done.
  apply Z.mul_eq_0 in Hzero. lia.
Qed.

(** At every point of any number of selections, a target's credit, before
    and after it is topped up, stays strictly between minus the pool's total
    and the total times the size of the pool; with the weight cap and fewer
    than a million targets it cannot overflow an [int]. *)
Theorem weighted_credit_bounds k ts pool ts' picks i :
  NoDup pool → pool ≠ [] → in_range pool ts → positive_weights pool ts →
  (∀ j, j ∈ pool → weightOf ts j ≤ MaxTargetWeight) →
  (∀ j, j ∈ pool → credit ts j = 0) → Z.of_nat (length pool) ≤ 1000000 →
  nextWeighted_run k ts pool = (ts', picks) → i ∈ pool →
  - total_weight ts pool < credit ts' i ∧
  credit ts' i + weightOf ts i ≤ total_weight ts pool * Z.of_nat (length pool) ∧
  in_int64 (credit ts' i) ∧ in_int64 (credit ts' i + weightOf ts i).
Proof.
  intros Hnd Hne Hr Hw Hmaxw H0 Hlen Hrun Hi.
  pose proof (total_positive pool ts Hw Hne) as HW.
  pose proof (balanced_start pool ts Hw H0 Hne) as Hbal.
  destruct (nextWeighted_run_spec _ ts pool ts' picks Hnd Hr Hw Hbal Hne Hrun)
    as (Hsame & [Hsum Hlow] & _ & _).
  rewrite (total_same pool ts ts') in Hlow by done.
  set (W := total_weight ts pool) in *.
  assert (weightOf ts i ≤ W) as HwW.
  { unfold W, total_weight. destruct (sumf_elem (weightOf ts) pool i Hi) as (l1 & l2 & -> & ->).
    assert (sumf (λ _, 0) (l1 ++ l2) ≤ sumf (weightOf ts) (l1 ++ l2)) as Hge.
    { apply sumf_le. intros j Hj. assert (1 ≤ weightOf ts j) by (apply Hw; set_solver). lia. }
    rewrite sumf_const in Hge. lia. }
  assert (W ≤ MaxTargetWeight * Z.of_nat (length pool)) as HWmax.
  { unfold W, total_weight. rewrite <- sumf_const. by apply sumf_le. }
  assert (credit ts' i ≤ W * (Z.of_nat (length pool) - 1)) as Hhigh.
  { destruct (sumf_elem (credit ts') pool i Hi) as (l1 & l2 & Heq & Hs).
    assert (sumf (λ _, - W) (l1 ++ l2) ≤ sumf (credit ts') (l1 ++ l2)) as Hge.
    { apply sumf_le. intros j Hj. specialize (Hlow j). subst pool.
      assert (- W < credit ts' j) by (apply Hlow; set_solver). lia. }
    rewrite sumf_const in Hge.
    assert (length pool = S (length (l1 ++ l2))) as ->
      by (rewrite Heq, !length_app; cbn; lia). nia. }
  specialize (Hlow i Hi). specialize (Hw i Hi).
  unfold in_int64, int64_min, int64_max, MaxTargetWeight in *. nia.
Qed.

(** The target lists a service writes to its state file rebuild the same
    targets, weights and read-only marks included. *)
Theorem target_specs_roundtrip targetURLs readerURLs ts :
  NewTargetList targetURLs readerURLs = Ok ts →
  NewTargetList (Specs (targetsMatchingReadonly false ts))
                (Specs (targetsMatchingReadonly true ts)) = Ok ts.
Proof.
  unfold NewTargetList. intros H.
  apply result_bind_ok in H as (ws & Hws & H).
  apply result_bind_ok in H as (rs & Hrs & [= <-]).
  assert (∀ spec t, NewTarget spec = Ok t → NewTarget (Spec t) = Ok t) as Hone.
  { intros spec t Ht. pose proof (NewTarget_Ok _ _ Ht) as (Hh & Hw & Hc & Hs & Hi & Hro & _).
    unfold NewTarget in *. rewrite parseTargetSpec_Spec by done. cbn. rewrite Hh.
    destruct (parseTargetSpec spec) as [[h w]|]; cbn in Ht; [|done].
    destruct (hostRegex h); [|done]. by injection Ht as <-. }
  apply mapM_result_Forall2 in Hws, Hrs.
  assert (targetsMatchingReadonly false (ws ++ rs) = ws ∧
          targetsMatchingReadonly true (ws ++ rs) = rs) as [-> ->].
  { unfold targetsMatchingReadonly. rewrite !List.filter_app.
    assert (Forall (λ t, readonly t = false) ws) as Fw.
    { clear -Hws. induction Hws as [|spec t ? ? Ht]; constructor; [|done].
      by apply NewTarget_Ok in Ht as (_ & _ & _ & _ & _ & ? & _). }
    assert (Forall (λ t, readonly t = true) rs) as Fr.
    { clear -Hrs. induction Hrs as [|spec t ? ? Ht]; constructor; [|done].
      unfold NewReadOnlyTarget in Ht. destruct (NewTarget spec); cbn in Ht; [|done].
      by injection Ht as <-. }
    clear -Fw Fr. split; induction Fw as [|t ws Ht Fw IH]; cbn; rewrite ?Ht; cbn;
      try (by f_equal); induction Fr as [|r rs Hr Fr IHr]; cbn; rewrite ?Hr; cbn; auto.
    by f_equal. }
  assert (mapM_result NewTarget (Specs ws) = Ok ws) as ->.
  { apply mapM_result_Forall2. clear -Hws Hone. unfold Specs.
    induction Hws as [|spec t ? ? Ht]; cbn; constructor; eauto. }
  assert (mapM_result NewReadOnlyTarget (Specs rs) = Ok rs) as Hr; [|cbn; by rewrite Hr].
  apply mapM_result_Forall2. clear -Hrs Hone. unfold Specs.
  induction Hrs as [|spec t ? ? Ht]; cbn; constructor; [|done].
  unfold NewReadOnlyTarget in *. destruct (NewTarget spec) as [t0|] eqn:E; cbn in Ht; [|done].
  injection Ht as <-. change (Spec (set_readonly t0)) with (Spec t0). by rewrite (Hone spec).
Qed.

(** ** Witnesses *)

Module TargetExamples.
Definition tgt (a : string) (w : Z) : Target := mkTarget a false w 0 TargetStateHealthy ∅ true.
Definition pool3 : list Target := [tgt "a" 5; tgt "b" 1; tgt "c" 1].

(** The interleaving nginx documents for weights 5, 1, 1. *)
Example smooth_order :
  (nextWeighted_run 7 pool3 [0; 1; 2]%nat).2 = [0; 0; 1; 0; 2; 0; 0]%nat.
Proof. reflexivity. Qed.

Ltac three i Hi := repeat (apply elem_of_cons in Hi as [->|Hi]; [cbn; ((eexists; reflexivity) || (unfold MaxTargetWeight; cbn; lia))|]);
  by apply elem_of_nil in Hi.

Lemma weighted_cycle_fair_witness :
  picks_of 0 (nextWeighted_run 7 pool3 [0; 1; 2]%nat).2 = 5.
Proof.
  refine (proj1 (weighted_cycle_fair pool3 [0; 1; 2]%nat
    (nextWeighted_run 7 pool3 [0; 1; 2]%nat).1 (nextWeighted_run 7 pool3 [0; 1; 2]%nat).2
    _ _ _ _ _ _ 0%nat _)).
  - by apply (bool_decide_unpack _); vm_compute.
  - done.
  - intros i Hi. three i Hi.
  - intros i Hi. three i Hi.
  - intros i Hi. three i Hi.
  - vm_compute. reflexivity.
  - set_solver.
Defined.

Lemma weighted_credit_bounds_witness :
  - 7 < credit (nextWeighted_run 3 pool3 [0; 1; 2]%nat).1 0.
Proof.
  refine (proj1 (weighted_credit_bounds 3 pool3 [0; 1; 2]%nat
    (nextWeighted_run 3 pool3 [0; 1; 2]%nat).1 (nextWeighted_run 3 pool3 [0; 1; 2]%nat).2
    0%nat _ _ _ _ _ _ _ _ _)).
  - by apply (bool_decide_unpack _); vm_compute.
  - done.
  - intros i Hi. three i Hi.
  - intros i Hi. three i Hi.
  - intros i Hi. three i Hi.
  - intros i Hi. three i Hi.
  - cbn. lia.
  - vm_compute. reflexivity.
  - set_solver.
Defined.

Definition specs_list : list Target :=
  match NewTargetList ["web-1:3000;weight=3"; "web-2:3000"] ["db.replica"] with
  | Ok ts => ts | Err _ => [] end.

Lemma target_specs_roundtrip_witness :
  NewTargetList (Specs (targetsMatchingReadonly false specs_list))
                (Specs (targetsMatchingReadonly true specs_list)) = Ok specs_list ∧
  Specs specs_list = ["web-1:3000;weight=3"; "web-2:3000"; "db.replica"].
Proof.
  split; [|vm_compute; reflexivity].
  apply (target_specs_roundtrip ["web-1:3000;weight=3"; "web-2:3000"] ["db.replica"]).
  vm_compute. reflexivity.
Defined.
End TargetExamples.
