(* ===== verification/Http.v ===== *)
(** * HTTP requests and headers, as [net/http] presents them to the proxy

    [Header] is [http.Header]: canonical names to the list of field values, in
    order.  [Request] holds the fields of [*http.Request] the modelled code
    reads, plus the context values the proxy itself attaches.  [Cookies] is
    the list [net/http] parses out of the Cookie header. *)
From S2P Require Import Prelude GoStrings.

(** ** Header names *)

(** [httpguts.IsTokenRune] / the [validHeaderFieldByte] table: RFC 7230 tokens. *)
Definition is_token_byte (c : ascii) : bool :=
  let n := N_of_ascii c in
  ((48 <=? n) && (n <=? 57) || (65 <=? n) && (n <=? 90) || (97 <=? n) && (n <=? 122))%N
  || existsb (Ascii.eqb c) (list_ascii_of_string "!#$%&'*+-.^_`|~").

Fixpoint all_token (s : string) : bool :=
  match s with "" => true | String c s => is_token_byte c && all_token s end.

(** [httpguts.ValidHeaderFieldName]. *)
Definition ValidHeaderFieldName (s : string) : bool :=
  negb (String.eqb s "") && all_token s.

(** [httpguts.ValidHeaderFieldValue]: no control byte other than tab. *)
Definition is_value_byte (c : ascii) : bool :=
  let n := N_of_ascii c in
  negb (((n <? 32) || (n =? 127))%N) || (n =? 9)%N.

Fixpoint ValidHeaderFieldValue (s : string) : bool :=
  match s with "" => true | String c s => is_value_byte c && ValidHeaderFieldValue s end.

Definition to_upper_byte (c : ascii) : ascii :=
  let n := N_of_ascii c in
  if ((97 <=? n) && (n <=? 122))%N then ascii_of_N (n - 32) else c.

Fixpoint canonical_from (upper : bool) (s : string) : string :=
  match s with
  | "" => ""
  | String c s =>
      String (if upper then to_upper_byte c else to_lower_byte c)
             (canonical_from (Ascii.eqb c "-") s)
  end.

(** [http.CanonicalHeaderKey]: a name with a byte that is no token byte is
    returned unchanged. *)
Definition CanonicalHeaderKey (s : string) : string :=
  if all_token s then canonical_from true s else s.

(** ** Header fields *)

Definition Header := gmap string (list string).

Definition hdr_values (h : gmap string (list string)) (n : string) : list string :=
  default [] (h !! CanonicalHeaderKey n).

Definition hdr_get (h : gmap string (list string)) (n : string) : string :=
  default "" (head (hdr_values h n)).

Definition hdr_set (h : gmap string (list string)) (n v : string) : gmap string (list string) :=
  <[CanonicalHeaderKey n := [v]]> h.

Definition hdr_add (h : gmap string (list string)) (n v : string) : gmap string (list string) :=
  <[CanonicalHeaderKey n := hdr_values h n ++ [v]]> h.

Definition hdr_del (h : gmap string (list string)) (n : string) : gmap string (list string) :=
  delete (CanonicalHeaderKey n) h.

(** ** Requests *)

Record Request := mkRequest {
  Method : string;
  Host : string;
  URLPath : string;
  RawQuery : string;
  URLRawPath : string;
  URLForceQuery : bool;
  IsTLS : bool;
  RemoteAddr : string;
  ReqHeader : gmap string (list string);
  Cookies : list (string * string);
  ContentLength : Z;
  (** context values: the prefix the router matched, an internally made
      request, a session pin that already failed *)
  MatchedPrefix : option string;
  InternalRequest : bool;
  IgnoreSessionPin : bool }.

Definition with_ReqHeader (h : gmap string (list string)) (r : Request) : Request :=
  mkRequest (Method r) (Host r) (URLPath r) (RawQuery r) (URLRawPath r) (URLForceQuery r) (IsTLS r) (RemoteAddr r) h (Cookies r)
    (ContentLength r) (MatchedPrefix r) (InternalRequest r) (IgnoreSessionPin r).

(** [ignoreSessionPin]: the request with its session pin disregarded. *)
Definition ignoreSessionPin (r : Request) : Request :=
  mkRequest (Method r) (Host r) (URLPath r) (RawQuery r) (URLRawPath r) (URLForceQuery r) (IsTLS r) (RemoteAddr r) (ReqHeader r)
    (Cookies r) (ContentLength r) (MatchedPrefix r) (InternalRequest r) true.

(** [r.Cookie(name)]: the first cookie of that name. *)
Definition req_cookie (r : Request) (n : string) : option string :=
  snd <$> List.find (λ kv, String.eqb (fst kv) n) (Cookies r).

Definition MethodGet : string := "GET".
Definition MethodHead : string := "HEAD".

Definition is_get_or_head (r : Request) : bool :=
  String.eqb (Method r) MethodGet || String.eqb (Method r) MethodHead.

(** [RoutedTargetPath]: the path as the target sees it. *)
Definition RoutedTargetPath (r : Request) : string :=
  match MatchedPrefix r with
  | None => URLPath r
  | Some p => let path := TrimPrefix (URLPath r) p in
              if String.eqb path "" then "/" else path
  end.

(** [TargetOptions.IsHealthCheckRequest]. *)
Definition IsHealthCheckRequest (healthCheckPath : string) (r : Request) : bool :=
  is_get_or_head r && String.eqb (RoutedTargetPath r) healthCheckPath.

(** ** Responses

    What a handler writes through an [http.ResponseWriter]: the header map it
    edits, the cookies added to it with [http.SetCookie], the header blocks
    sent so far (an informational one is sent at once and leaves the response
    open, the first other one closes it, a later one is dropped) and the body
    bytes. *)
Record Cookie := mkCookie {
  CookieName : string;
  CookieValue : string;
  CookieSecure : bool;
  CookieExpires : option Z }.

Record ResponseWriter := mkRW {
  rwHeader : gmap string (list string);
  rwCookies : list Cookie;
  rwSent : list (Z * gmap string (list string) * list Cookie);
  rwClosed : bool;
  rwBody : string }.

Definition newRW : ResponseWriter := mkRW ∅ [] [] false "".

Definition rw_set_header (h : gmap string (list string)) (w : ResponseWriter) : ResponseWriter :=
  mkRW h (rwCookies w) (rwSent w) (rwClosed w) (rwBody w).

Definition SetCookie (c : Cookie) (w : ResponseWriter) : ResponseWriter :=
  mkRW (rwHeader w) (rwCookies w ++ [c]) (rwSent w) (rwClosed w) (rwBody w).

Definition informational (code : Z) : bool :=
  (100 <=? code) && (code <=? 199) && negb (code =? 101).

Definition WriteHeader (code : Z) (w : ResponseWriter) : ResponseWriter :=
  if rwClosed w then w
  else mkRW (rwHeader w) (rwCookies w) (rwSent w ++ [(code, rwHeader w, rwCookies w)])
         (negb (informational code)) (rwBody w).

Definition WriteBody (b : string) (w : ResponseWriter) : ResponseWriter :=
  let w := WriteHeader 200 w in
  mkRW (rwHeader w) (rwCookies w) (rwSent w) (rwClosed w) (rwBody w +:+ b).

(** A flush commits the header block first. *)
Definition FlushRW (w : ResponseWriter) : ResponseWriter := WriteHeader 200 w.

(** ** Lemmas *)

Lemma canonical_byte_idemp (b : bool) c :
  let d := if b then to_upper_byte c else to_lower_byte c in
  (if b then to_upper_byte d else to_lower_byte d) = d ∧
  Ascii.eqb d "-" = Ascii.eqb c "-" ∧ is_token_byte d = is_token_byte c.
Proof. destruct b, c as [[] [] [] [] [] [] [] []]; vm_compute; auto. Qed.

Lemma canonical_from_idemp b s : canonical_from b (canonical_from b s) = canonical_from b s.
Proof.
  revert b. induction s as [|c s IH]; intros b; cbn; [done|].
  destruct (canonical_byte_idemp b c) as (H1 & H2 & _). cbn in H1, H2.
  by rewrite H1, H2, IH.
Qed.

Lemma all_token_canonical b s : all_token (canonical_from b s) = all_token s.
Proof.
  revert b. induction s as [|c s IH]; intros b; cbn; [done|].
  destruct (canonical_byte_idemp b c) as (_ & _ & H). cbn in H. by rewrite H, IH.
Qed.

Lemma CanonicalHeaderKey_idemp s :
  CanonicalHeaderKey (CanonicalHeaderKey s) = CanonicalHeaderKey s.
Proof.
  unfold CanonicalHeaderKey. destruct (all_token s) eqn:H.
  - by rewrite all_token_canonical, H, canonical_from_idemp.
  - by rewrite H.
Qed.

Lemma hdr_values_set_eq h n v : hdr_values (hdr_set h n v) n = [v].
Proof. unfold hdr_values, hdr_set. by rewrite lookup_insert_eq. Qed.

Lemma hdr_values_set_ne h n m v :
  CanonicalHeaderKey n ≠ CanonicalHeaderKey m →
  hdr_values (hdr_set h n v) m = hdr_values h m.
Proof. intros ?. unfold hdr_values, hdr_set. by rewrite lookup_insert_ne. Qed.

Lemma hdr_values_add_eq h n v : hdr_values (hdr_add h n v) n = hdr_values h n ++ [v].
Proof. unfold hdr_values at 1, hdr_add. by rewrite lookup_insert_eq. Qed.

Lemma hdr_values_add_ne h n m v :
  CanonicalHeaderKey n ≠ CanonicalHeaderKey m →
  hdr_values (hdr_add h n v) m = hdr_values h m.
Proof. intros ?. unfold hdr_values at 1, hdr_add. by rewrite lookup_insert_ne. Qed.

Lemma hdr_values_del_eq h n : hdr_values (hdr_del h n) n = [].
Proof. unfold hdr_values, hdr_del. by rewrite lookup_delete_eq. Qed.

Lemma hdr_values_del_ne h n m :
  CanonicalHeaderKey n ≠ CanonicalHeaderKey m →
  hdr_values (hdr_del h n) m = hdr_values h m.
Proof. intros ?. unfold hdr_values, hdr_del. by rewrite lookup_delete_ne. Qed.

Lemma hdr_values_key h n m :
  CanonicalHeaderKey n = CanonicalHeaderKey m → hdr_values h n = hdr_values h m.
Proof. unfold hdr_values. by intros ->. Qed.
