(* ===== verification/Redirects.v ===== *)
(** * Redirects and rewrites: [internal/server/redirect_rules.go],
    [redirect_map.go], [validDynamicDomain] of [domain_source.go] and
    [Service.redirectURLIfNeeded] of [service.go]

    A rule is a pattern over the whole path and what a match becomes.  Static
    rules belong to the service, dynamic ones to a host; the hop to HTTPS or to
    the canonical host is folded into whatever a rule answers. *)
From S2P Require Import Prelude GoStrings GoRegexp GoURL Http ServiceMap.

(** ** Rules *)

Inductive pathRuleKind := redirectPathRuleKind | rewritePathRuleKind.

#[export] Instance pathRuleKind_eq_dec : EqDecision pathRuleKind.
Proof. solve_decision. Defined.

Definition StatusMovedPermanently : Z := 301.
Definition redirectStatuses : list Z := [301; 302; 303; 307; 308].

Record PathRule := mkPathRule { rulePattern : string; ruleReplacement : string; ruleStatus : Z }.

Inductive RuleError :=
| RuleNoSeparator | RuleNoPattern | RuleNoReplacement | RuleBadPattern
| RuleBadReplacement | RuleStatusOnRewrite | RuleBadStatus.

(** [strings.Cut] at a longer separator. *)
Definition CutString (s sep : string) : option (string * string) :=
  let i := Index s sep in
  if i <? 0 then None
  else Some (str_take (Z.to_nat i) s, str_drop (Z.to_nat i + String.length sep) s).

Definition hasURLScheme (value : string) : bool :=
  HasPrefix value "http://" || HasPrefix value "https://".

(** [cutRuleStatus]: only a number is taken for a status. *)
Definition cutRuleStatus (replacement : string) : string * Z :=
  match CutString replacement ";status=" with
  | None => (replacement, 0)
  | Some (head, tail) =>
      match ParseInt tail with
      | None => (replacement, 0)
      | Some status => (head, status)
      end
  end.

Definition statusAllowed (status : Z) : bool := existsb (Z.eqb status) redirectStatuses.

Definition validateReplacement (kind : pathRuleKind) (rule : PathRule) : result RuleError unit :=
  if HasPrefix (ruleReplacement rule) "/" then Ok tt
  else if bool_decide (kind = redirectPathRuleKind) && hasURLScheme (ruleReplacement rule) then Ok tt
  else Err RuleBadReplacement.

Section rules.
Context `{!Regexp}.

Definition compilePathRulePattern (rule : PathRule) : result RuleError Regex :=
  match Compile ("^(?:" +:+ rulePattern rule +:+ ")$") with
  | Some re => Ok re
  | None => Err RuleBadPattern
  end.

Definition validateRule (kind : pathRuleKind) (rule : PathRule) : result RuleError unit :=
  if String.eqb (rulePattern rule) "" then Err RuleNoPattern
  else if String.eqb (ruleReplacement rule) "" then Err RuleNoReplacement
  else
    _ ← compilePathRulePattern rule;
    _ ← validateReplacement kind rule;
    if ruleStatus rule =? 0 then Ok tt
    else if negb (bool_decide (kind = redirectPathRuleKind)) then Err RuleStatusOnRewrite
    else if statusAllowed (ruleStatus rule) then Ok tt else Err RuleBadStatus.

Definition parsePathRule (kind : pathRuleKind) (value : string) : result RuleError PathRule :=
  match Cut value "=" with
  | None => Err RuleNoSeparator
  | Some (pattern, replacement) =>
      let '(replacement, status) := cutRuleStatus replacement in
      let rule := mkPathRule pattern replacement status in
      _ ← validateRule kind rule; Ok rule
  end.

Definition newPathRules (kind : pathRuleKind) (values : list string) : result RuleError (list PathRule) :=
  mapM_result (parsePathRule kind) values.

Definition NewRedirectRules := newPathRules redirectPathRuleKind.
Definition NewRewriteRules := newPathRules rewritePathRuleKind.

(** The first error of a list of checks. *)
Fixpoint first_error {A E} (check : A → result E unit) (l : list A) : result E unit :=
  match l with
  | [] => Ok tt
  | x :: l => _ ← check x; first_error check l
  end.

Definition validatePathRules (redirects rewrites : list PathRule) : result RuleError unit :=
  _ ← first_error (validateRule redirectPathRuleKind) redirects;
  first_error (validateRule rewritePathRuleKind) rewrites.

Record compiledPathRule := mkCompiled { cPattern : Regex; cReplacement : string; cStatus : Z }.

Definition pathRuleSet := list compiledPathRule.

Definition compileRule (rule : PathRule) : result RuleError compiledPathRule :=
  re ← compilePathRulePattern rule; Ok (mkCompiled re (ruleReplacement rule) (ruleStatus rule)).

(** [newPathRuleSet]: no rules is the nil set. *)
Definition newPathRuleSet (rules : list PathRule) : result RuleError (option (list compiledPathRule)) :=
  if Nat.eqb (length rules) 0 then Ok None
  else c ← mapM_result compileRule rules; Ok (Some c).

Definition resolvePathRules (redirects rewrites : list PathRule)
  : result RuleError (option (list compiledPathRule) * option (list compiledPathRule)) :=
  a ← newPathRuleSet redirects; b ← newPathRuleSet rewrites; Ok (a, b).

Record pathRuleMatch := mkMatch { mTarget : URL; mStatus : Z }.

Definition splitRuleTarget (value : string) : URL :=
  let '(scheme, host, rest) :=
    if hasURLScheme value then
      match CutString value "://" with
      | Some (scheme, rest) =>
          match Cut rest "/" with
          | Some (host, path) => (scheme, host, "/" +:+ path)
          | None => (scheme, rest, "")
          end
      | None => (value, "", "")
      end
    else ("", "", value) in
  let '(path, query) := match Cut rest "?" with Some (p, q) => (p, q) | None => (rest, "") end in
  mkURL scheme "" None host path "" false query "".

Fixpoint match_rules (rules : list compiledPathRule) (path rawQuery : string) : option pathRuleMatch :=
  match rules with
  | [] => None
  | rule :: rules =>
      match FindStringSubmatchIndex (cPattern rule) path with
      | None => match_rules rules path rawQuery
      | Some indexes =>
          let target := splitRuleTarget (ExpandString (cPattern rule) (cReplacement rule) path indexes) in
          let target := if String.eqb (URLRawQuery target) "" then with_query rawQuery target else target in
          Some (mkMatch target (if cStatus rule =? 0 then StatusMovedPermanently else cStatus rule))
      end
  end.

(** [pathRuleSet.match]. *)
Definition matchRules (prs : option (list compiledPathRule)) (path rawQuery : string) : option pathRuleMatch :=
  match prs with None => None | Some rules => match_rules rules path rawQuery end.

(** ** Resolving a match *)

Definition sameResource (a b : URL) : bool :=
  let orRoot p := if String.eqb p "" then rootPath else p in
  EqualFold (Scheme a) (Scheme b) && EqualFold (URLHost a) (URLHost b) &&
  String.eqb (orRoot (EscapedPath a)) (orRoot (EscapedPath b)) &&
  String.eqb (URLRawQuery a) (URLRawQuery b).

Definition resolveRedirectLocation (m : pathRuleMatch) (current desired : URL) : option (string * Z) :=
  let target := if IsAbs (mTarget m) then mTarget m
                else with_origin (Scheme desired) (URLHost desired) (mTarget m) in
  if sameResource target current then None
  else Some (URLString target, mStatus m).

Definition redirectRuleURL (redirects : option (list compiledPathRule)) (current desired : URL)
  : option (string * Z) :=
  match matchRules redirects (Path current) (URLRawQuery current) with
  | None => None
  | Some m => resolveRedirectLocation m current desired
  end.

(** [rewriteRequest]: the request the target should see. *)
Definition rewriteRequest (rewrites : option (list compiledPathRule)) (r : Request) : Request :=
  if InternalRequest r then r
  else match matchRules rewrites (URLPath r) (RawQuery r) with
       | None => r
       | Some m =>
           mkRequest (Method r) (Host r) (Path (mTarget m)) (URLRawQuery (mTarget m)) "" (URLForceQuery r)
             (IsTLS r) (RemoteAddr r) (ReqHeader r) (Cookies r) (ContentLength r) (MatchedPrefix r)
             (InternalRequest r) (IgnoreSessionPin r)
       end.

(** ** The dynamic map *)

Definition maxRedirectHosts : nat := Z.to_nat 100000.
Definition maxRedirectPathRules : nat := Z.to_nat 100000.
Definition trailingSlashKeep : string := "".
Definition trailingSlashStrip : string := "strip".

Definition redirectExemptPrefixes : list string := ["/.well-known/acme-challenge/"; "/.kamal-proxy/"].

Definition isRedirectExemptPath (path : string) : bool :=
  existsb (HasPrefix path) redirectExemptPrefixes.

Record redirectPathRule := mkRedirectPathRule { rpFrom : string; rpTo : string; rpStatus : Z }.

Record redirectHostConfig := mkHostConfig {
  RedirectTo : string;
  hcStatus : Z;
  PreservePath : bool;
  TrailingSlash : string;
  hcPaths : list redirectPathRule }.

Inductive PayloadError := NoHostsKey | TooManyHosts | TooManyRules.

(** [parseRedirectPayload] on the decoded document: [None] when it has no
    "hosts" key. *)
Definition parseRedirectPayload (hosts : option (gmap string redirectHostConfig))
  : result PayloadError (gmap string redirectHostConfig) :=
  match hosts with
  | None => Err NoHostsKey
  | Some hosts =>
      if (maxRedirectHosts <? size hosts)%nat then Err TooManyHosts
      else
        let rules := sum_list (map_fold (λ _ h acc, length (hcPaths h) :: acc) [] hosts) in
        if (maxRedirectPathRules <? rules)%nat then Err TooManyRules
        else Ok hosts
  end.

(** [validDynamicDomain]: RFC 1123 host names of two labels or more. *)
Definition is_label_byte (c : ascii) : bool :=
  let n := byte_of c in ((97 <=? n) && (n <=? 122)) || ((48 <=? n) && (n <=? 57)) || (n =? 45).

Definition validLabel (label : string) : bool :=
  negb (String.eqb label "") && (str_len label <=? 63) &&
  negb (HasPrefix label "-") && negb (HasSuffix label "-") && all_bytes is_label_byte label.

Definition validDynamicDomain (domain : string) : bool :=
  negb (String.eqb domain "") && (str_len domain <=? 253) &&
  let labels := Split domain "." in
  (2 <=? length labels)%nat && forallb validLabel labels &&
  match last labels with
  | Some tld => any_byte (λ c, (97 <=? byte_of c) && (byte_of c <=? 122)) tld
  | None => false
  end.

Record compiledHostRedirect := mkHostRedirect {
  redirectTo : option URL;
  hrStatus : Z;
  preservePath : bool;
  stripTrailingSlash : bool;
  hrRules : option (list compiledPathRule);
  ruleCount : nat }.

Inductive HostError := BadRedirectTo | BadHostStatus | BadTrailingSlash.

(** The path rules of a host: an invalid one is dropped on its own. *)
Definition compileHostRule (p : redirectPathRule) : option compiledPathRule :=
  let rule := mkPathRule (rpFrom p) (rpTo p) (rpStatus p) in
  match compilePathRulePattern rule with
  | Err _ => None
  | Ok re =>
      match validateReplacement redirectPathRuleKind rule with
      | Err _ => None
      | Ok _ =>
          if negb (rpStatus p =? 0) && negb (statusAllowed (rpStatus p)) then None
          else Some (mkCompiled re (rpTo p) (rpStatus p))
      end
  end.

Definition compileHostRules (ps : list redirectPathRule) : list compiledPathRule :=
  omap compileHostRule ps.

(** [compileHostRedirect]: [Ok None] is an entry that does nothing. *)
Definition compileHostRedirect (config : redirectHostConfig) : result HostError (option compiledHostRedirect) :=
  to ← (if String.eqb (RedirectTo config) "" then Ok None
        else match ParseURL (RedirectTo config) with
             | None => Err BadRedirectTo
             | Some u =>
                 if (String.eqb (Scheme u) "http" || String.eqb (Scheme u) "https")
                    && negb (String.eqb (Hostname u) "")
                 then Ok (Some u) else Err BadRedirectTo
             end);
  status ← (if hcStatus config =? 0 then Ok StatusMovedPermanently
            else if statusAllowed (hcStatus config) then Ok (hcStatus config) else Err BadHostStatus);
  strip ← (if String.eqb (TrailingSlash config) trailingSlashKeep then Ok false
           else if String.eqb (TrailingSlash config) trailingSlashStrip then Ok true
           else Err BadTrailingSlash);
  let compiled := compileHostRules (hcPaths config) in
  let rules := if Nat.eqb (length compiled) 0 then None else Some compiled in
  Ok (if bool_decide (to = None) && Nat.eqb (length compiled) 0 && negb strip then None
      else Some (mkHostRedirect to status (PreservePath config) strip rules (length compiled))).

Record dynamicRedirectMap := mkRedirectMap {
  rmHosts : gmap string compiledHostRedirect;
  rmRuleCount : nat }.

Definition normalizeRedirectHost (host : string) : string :=
  ToLower (TrimSuffix (TrimSpace host) ".").

Definition compile_entry (m : dynamicRedirectMap) (host : string) (config : redirectHostConfig)
  : dynamicRedirectMap :=
  let normalized := normalizeRedirectHost host in
  if negb (validDynamicDomain normalized) then m
  else match rmHosts m !! normalized with
       | Some _ => m
       | None =>
           match compileHostRedirect config with
           | Err _ | Ok None => m
           | Ok (Some e) => mkRedirectMap (<[normalized := e]> (rmHosts m)) (rmRuleCount m + ruleCount e)
           end
       end.

(** [slices.Sorted(maps.Keys(hosts))]. *)
Definition sortedKeys {A} (m : gmap string A) : list string :=
  insertion_sort Compare (elements (dom m)).

Definition compileRedirectMap (hosts : gmap string redirectHostConfig) : dynamicRedirectMap :=
  fold_left (λ m host, match hosts !! host with
                       | Some config => compile_entry m host config
                       | None => m
                       end)
    (sortedKeys hosts) (mkRedirectMap ∅ 0).

Definition counts (m : option dynamicRedirectMap) : nat * nat :=
  match m with None => (0%nat, 0%nat) | Some m => (size (rmHosts m), rmRuleCount m) end.

(** [dynamicRedirectMap.redirectURL]. *)
Definition dynamicRedirectURL (m : option dynamicRedirectMap) (current desired : URL) : option (string * Z) :=
  match m with
  | None => None
  | Some m =>
      match rmHosts m !! normalizeRedirectHost (URLHost current) with
      | None => None
      | Some entry =>
          match redirectTo entry with
          | Some to =>
              let target :=
                if preservePath entry then
                  with_query (URLRawQuery current)
                    (with_path (TrimSuffix (Path to) "/" +:+ Path current)
                       (TrimSuffix (EscapedPath to) "/" +:+ EscapedPath current) to)
                else to in
              if sameResource target current then None
              else Some (URLString target, hrStatus entry)
          | None =>
              match matchRules (hrRules entry) (Path current) (URLRawQuery current) with
              | Some m => resolveRedirectLocation m current desired
              | None =>
                  if stripTrailingSlash entry && negb (String.eqb (Path current) rootPath)
                     && HasSuffix (Path current) "/" then
                    let p := trim_right slash (Path current) in
                    Some (URLString (with_query (URLRawQuery current)
                            (with_path (if String.eqb p "" then rootPath else p) (RawPath desired) desired)),
                          StatusMovedPermanently)
                  else None
              end
          end
      end
  end.

(** ** The redirect a request gets *)

(** [URL.RequestURI] of the request's URL. *)
Definition RequestURI (r : Request) : string :=
  let p := EscapedPath (with_path (URLPath r) (URLRawPath r) emptyURL) in
  (if String.eqb p "" then "/" else p) +:+
  (if URLForceQuery r || negb (String.eqb (RawQuery r) "") then "?" +:+ RawQuery r else "").

Record redirectOptions := mkRedirectOptions {
  roTLSEnabled : bool;
  roTLSRedirect : bool;
  roCanonicalHost : string }.

Definition currentHost (r : Request) : string :=
  match SplitHostPort (Host r) with Some (h, _) => h | None => Host r end.

Definition currentScheme (r : Request) : string := if IsTLS r then "https" else "http".

Definition desiredScheme (o : redirectOptions) (r : Request) : string :=
  if roTLSEnabled o && roTLSRedirect o && String.eqb (currentScheme r) "http" then "https" else currentScheme r.

Definition desiredHost (o : redirectOptions) (r : Request) : string :=
  if negb (String.eqb (roCanonicalHost o) "") && negb (String.eqb (currentHost r) (roCanonicalHost o))
  then roCanonicalHost o else currentHost r.

Definition currentURL (r : Request) : URL :=
  mkURL (currentScheme r) "" None (currentHost r) (URLPath r) (URLRawPath r) false (RawQuery r) "".

Definition desiredURL (o : redirectOptions) (r : Request) : URL :=
  mkURL (desiredScheme o r) "" None (desiredHost o r) "" "" false "" "".

(** An empty location is no redirect. *)
Definition nonempty (x : option (string * Z)) : option (string * Z) :=
  match x with
  | Some (location, status) => if String.eqb location "" then None else Some (location, status)
  | None => None
  end.

Definition redirectURLIfNeeded (o : redirectOptions) (dyn : option dynamicRedirectMap)
    (redirects : option (list compiledPathRule)) (r : Request) : option (string * Z) :=
  if InternalRequest r then None
  else
    let current := currentURL r in
    let desired := desiredURL o r in
    let byRule :=
      if isRedirectExemptPath (URLPath r) then None
      else match nonempty (dynamicRedirectURL dyn current desired) with
           | Some x => Some x
           | None => nonempty (redirectRuleURL redirects current desired)
           end in
    match byRule with
    | Some x => Some x
    | None =>
        if negb (String.eqb (desiredScheme o r) (currentScheme r))
           || negb (String.eqb (desiredHost o r) (currentHost r))
        then Some (desiredScheme o r +:+ "://" +:+ desiredHost o r +:+ RequestURI r, StatusMovedPermanently)
        else None
    end.

End rules.

(** ** Rules that name a path keep the client on its host *)

Definition path_rules `{!Regexp} (rules : option (list compiledPathRule)) : Prop :=
  ∀ l, rules = Some l → Forall (λ rule, HasPrefix (cReplacement rule) "/" = true) l.

Definition path_map `{!Regexp} (m : option dynamicRedirectMap) : Prop :=
  ∀ dm h e, m = Some dm → rmHosts dm !! h = Some e → redirectTo e = None ∧ path_rules (hrRules e).

(** A request line in origin form: its path starts at the root. *)
Definition origin_form (r : Request) : Prop :=
  HasPrefix (URLPath r) "/" = true ∧ (URLRawPath r = "" ∨ HasPrefix (URLRawPath r) "/" = true).

(** [loc] names a path on the given origin. *)
Definition on_origin (scheme host loc : string) : Prop :=
  ∃ tail, loc = scheme +:+ "://" +:+ host +:+ "/" +:+ tail.

Lemma HasPrefix_slash s : HasPrefix s "/" = true ↔ ∃ t, s = String "/" t.
Proof. rewrite HasPrefix_spec. split; intros [t ->]; by exists t. Qed.

Lemma EscapedPath_rooted u t : Path u = String "/" t →
  RawPath u = "" ∨ HasPrefix (RawPath u) "/" = true →
  ∃ t', EscapedPath u = String "/" t'.
Proof.
  intros Hp Hraw. unfold EscapedPath.
  destruct (negb (String.eqb (RawPath u) "") && validEncoded (RawPath u) && _) eqn:Hok.
  - destruct Hraw as [Hraw|Hraw]; [by rewrite Hraw in Hok|]. by apply HasPrefix_slash.
  - rewrite Hp. cbn. eauto.
Qed.

Lemma URLString_rooted scheme host p t q :
  scheme ≠ "" → p = String "/" t →
  on_origin scheme (escape host encodeHost) (URLString (mkURL scheme "" None host p "" false q "")).
Proof.
  intros Hs ->. unfold on_origin, URLString. cbn [Scheme Opaque UserInfo URLHost Path ForceQuery URLRawQuery Fragment].
  destruct (EscapedPath_rooted (mkURL scheme "" None host (String "/" t) "" false q "") t)
    as [t' ->]; [done|by left|].
  assert (HP : HasPrefix (String "/" t') "/" = true) by (apply HasPrefix_slash; eauto).
  apply String.eqb_neq in Hs. rewrite Hs, HP. cbn [negb orb andb String.eqb].
  rewrite orb_true_r, andb_false_r. cbn [orb andb].
  exists (t' +:+ (if negb (String.eqb q "") then "?" +:+ q else "")).
  rewrite !str_app_nil_r, <- !str_app_assoc. done.
Qed.

Lemma desiredScheme_ne o r : desiredScheme o r ≠ "".
Proof.
  unfold desiredScheme, currentScheme. by destruct (IsTLS r), (roTLSEnabled o), (roTLSRedirect o).
Qed.

Section confined.
Context `{!Regexp, !RegexpSpec}.

Lemma splitRuleTarget_rooted t :
  ∃ p q, splitRuleTarget (String "/" t) = mkURL "" "" None "" (String "/" p) "" false q "".
Proof.
  unfold splitRuleTarget. cbn. destruct (Cut t "?") as [[x y]|]; cbn; eauto.
Qed.

Lemma match_rules_rooted rules path q m :
  Forall (λ rule, HasPrefix (cReplacement rule) "/" = true) rules →
  match_rules rules path q = Some m →
  ∃ p q', mTarget m = mkURL "" "" None "" (String "/" p) "" false q' "".
Proof.
  induction 1 as [|rule rules Hr _ IH]; cbn; [done|].
  destruct (FindStringSubmatchIndex _ _) as [idx|]; [|done]. intros [= <-]. cbn [mTarget].
  apply HasPrefix_slash in Hr as [t Ht]. rewrite Ht.
  destruct (expand_literal "/" (cPattern rule) t path idx) as [rest ->]; [done|].
  destruct (splitRuleTarget_rooted rest) as (p & q' & ->).
  cbn [URLRawQuery]. destruct (String.eqb q' ""); [by exists p, q|by exists p, q'].
Qed.

Lemma resolve_rooted m current desired p q loc st :
  mTarget m = mkURL "" "" None "" (String "/" p) "" false q "" → Scheme desired ≠ "" →
  resolveRedirectLocation m current desired = Some (loc, st) →
  on_origin (Scheme desired) (escape (URLHost desired) encodeHost) loc.
Proof.
  intros Hm Hs. unfold resolveRedirectLocation. rewrite Hm. unfold with_origin.
  cbn [IsAbs Scheme String.eqb negb Opaque UserInfo Path RawPath ForceQuery URLRawQuery Fragment].
  destruct (sameResource _ _); [done|]. intros [= <- _].
  by eapply URLString_rooted.
Qed.

Lemma matchRules_confined rules current desired loc st :
  path_rules rules → Scheme desired ≠ "" →
  (m ← matchRules rules (Path current) (URLRawQuery current);
   resolveRedirectLocation m current desired) = Some (loc, st) →
  on_origin (Scheme desired) (escape (URLHost desired) encodeHost) loc.
Proof.
  intros Hr Hs. destruct rules as [l|]; [|done]. cbn.
  destruct (match_rules l _ _) as [m|] eqn:Hm; [|done]. cbn.
  apply match_rules_rooted in Hm as (p & q & Hm); [|by apply Hr].
  by eapply resolve_rooted.
Qed.

Lemma trim_right_rooted t :
  let p := trim_right slash (String "/" t) in
  ∃ t', (if String.eqb p "" then rootPath else p) = String "/" t'.
Proof.
  cbn. destruct (trim_right slash t) as [|c r]; cbn; [by exists ""|]. by exists (String c r).
Qed.

Lemma dynamic_confined dyn r o loc st :
  path_map dyn → origin_form r →
  dynamicRedirectURL dyn (currentURL r) (desiredURL o r) = Some (loc, st) →
  on_origin (desiredScheme o r) (escape (desiredHost o r) encodeHost) loc.
Proof.
  intros Hmap [Hp _] HD. unfold dynamicRedirectURL in HD. destruct dyn as [dm|]; [|done].
  destruct (rmHosts dm !! _) as [e|] eqn:He; [|done].
  destruct (Hmap dm _ e eq_refl He) as [Hto Hrules]. rewrite Hto in HD.
  assert (Hs : Scheme (desiredURL o r) ≠ "").
  { apply desiredScheme_ne. }
  destruct (matchRules (hrRules e) _ _) as [m|] eqn:Hm.
  - eapply (matchRules_confined _ (currentURL r) (desiredURL o r)); [exact Hrules|done|].
    rewrite Hm. exact HD.
  - destruct (_ && _)%bool; [|done]. injection HD as <- _. cbn [currentURL desiredURL Path RawPath].
    apply HasPrefix_slash in Hp as [t ->].
    destruct (trim_right_rooted t) as [t' ->]. by eapply URLString_rooted.
Qed.

Lemma nonempty_Some x loc st : nonempty x = Some (loc, st) → x = Some (loc, st) ∧ loc ≠ "".
Proof.
  destruct x as [[l s]|]; [|done]. cbn. destruct (String.eqb_spec l ""); [done|]. by intros [= <- <-].
Qed.

(** A redirect goes somewhere. *)
Lemma redirectURLIfNeeded_nonempty o dyn rules r loc st :
  redirectURLIfNeeded o dyn rules r = Some (loc, st) → loc ≠ "".
Proof.
  unfold redirectURLIfNeeded. destruct (InternalRequest r); [done|].
  assert (Hhop : (if negb (String.eqb (desiredScheme o r) (currentScheme r))
             || negb (String.eqb (desiredHost o r) (currentHost r))
      then Some (desiredScheme o r +:+ "://" +:+ desiredHost o r +:+ RequestURI r, StatusMovedPermanently)
      else None) = Some (loc, st) → loc ≠ "").
  { destruct (_ || _)%bool; [|done]. intros [= <- _]. by destruct (desiredScheme o r). }
  destruct (isRedirectExemptPath _); [done|].
  destruct (nonempty (dynamicRedirectURL _ _ _)) as [x|] eqn:Hd.
  { intros [= ->]. by apply nonempty_Some in Hd as [_ ?]. }
  destruct (nonempty (redirectRuleURL _ _ _)) as [x|] eqn:Hr; [|done].
  intros [= ->]. by apply nonempty_Some in Hr as [_ ?].
Qed.

Lemma desired_origin_stable o r r' :
  Host r' = desiredHost o r → IsTLS r' = String.eqb (desiredScheme o r) "https" →
  SplitHostPort (desiredHost o r) = None →
  desiredScheme o r' = currentScheme r' ∧ desiredHost o r' = currentHost r'.
Proof.
  intros Hh Ht Hport.
  assert (Hc : currentHost r' = desiredHost o r) by (unfold currentHost; by rewrite Hh, Hport).
  split.
  - unfold desiredScheme, currentScheme in *. rewrite Ht.
    destruct (IsTLS r), (roTLSEnabled o), (roTLSRedirect o); done.
  - unfold desiredHost at 1. rewrite Hc. unfold desiredHost.
    destruct (String.eqb_spec (roCanonicalHost o) "") as [|]; cbn; [done|].
    destruct (String.eqb_spec (currentHost r) (roCanonicalHost o)) as [->|]; cbn.
    + by rewrite String.eqb_refl.
    + by rewrite String.eqb_refl.
Qed.

End confined.

(** ** Theorems *)

Section theorems.
Context `{!Regexp, !RegexpSpec}.

(** C36: with rules that name paths, static and dynamic alike, a redirect never
    leaves the service's own origin: the answer is a path on the scheme and
    host the request was headed for, whatever the pattern captured, and a
    request to that origin needs no further hop to HTTPS or to the canonical
    host. *)
Theorem redirect_confined o dyn rules r loc st :
  path_map dyn → path_rules rules → origin_form r →
  escape (desiredHost o r) encodeHost = desiredHost o r →
  SplitHostPort (desiredHost o r) = None →
  redirectURLIfNeeded o dyn rules r = Some (loc, st) →
  on_origin (desiredScheme o r) (desiredHost o r) loc ∧
  ∀ r', Host r' = desiredHost o r → IsTLS r' = String.eqb (desiredScheme o r) "https" →
        redirectURLIfNeeded o None None r' = None.
Proof.
  intros Hdyn Hrules Hr Hesc Hport HR. split.
  - unfold redirectURLIfNeeded in HR. destruct (InternalRequest r); [done|].
    assert (Hhop : ∀ x, (if negb (String.eqb (desiredScheme o r) (currentScheme r))
             || negb (String.eqb (desiredHost o r) (currentHost r))
      then Some (desiredScheme o r +:+ "://" +:+ desiredHost o r +:+ RequestURI r, StatusMovedPermanently)
      else None) = Some x → on_origin (desiredScheme o r) (desiredHost o r) x.1).
    { intros x. destruct (_ || _)%bool; [|done]. intros [= <-]. cbn [fst].
      destruct Hr as [[t Hp]%HasPrefix_slash Hraw].
      destruct (EscapedPath_rooted (with_path (URLPath r) (URLRawPath r) emptyURL) t Hp Hraw) as [t' Ht'].
      unfold RequestURI. rewrite Ht'. eexists. reflexivity. }
    destruct (isRedirectExemptPath (URLPath r)); [by apply (Hhop (loc, st))|].
    destruct (nonempty (dynamicRedirectURL dyn _ _)) as [x|] eqn:Hd.
    { injection HR as ->. apply nonempty_Some in Hd as [Hd _]. rewrite <- Hesc. by eapply dynamic_confined. }
    destruct (nonempty (redirectRuleURL rules _ _)) as [x|] eqn:Hrule; [|by apply (Hhop (loc, st))].
    injection HR as ->. apply nonempty_Some in Hrule as [Hrule _]. rewrite <- Hesc. unfold redirectRuleURL in Hrule.
    eapply (matchRules_confined rules (currentURL r) (desiredURL o r)); [done| |].
    + apply desiredScheme_ne.
    + destruct (matchRules rules _ _); [exact Hrule|done].
  - intros r' Hh Ht. unfold redirectURLIfNeeded. destruct (InternalRequest r'); [done|].
    destruct (desired_origin_stable o r r' Hh Ht Hport) as [-> ->].
    rewrite !String.eqb_refl.
    unfold redirectRuleURL. cbn [negb orb dynamicRedirectURL matchRules nonempty].
    by destruct (isRedirectExemptPath (URLPath r')).
Qed.

End theorems.


Module RedirectExamples.

#[local] Existing Instance literal_regexp.

Definition get (host path : string) (tls : bool) : Request :=
  mkRequest "GET" host path "a=1" "" false tls "192.0.2.1:1" ∅ [] 0 None false false.

Definition secure : redirectOptions := mkRedirectOptions true true "www.example".

(** The pattern captures the rest of the path, here a host to lure to. *)
Definition moved : option (list compiledPathRule) :=
  Some [mkCompiled (mkLiteral "/old/" true) "/$1" 302].

Example moved_compiles :
  resolvePathRules [mkPathRule "/old/(.*)" "/$1" 302] [] = Ok (moved, None).
Proof. reflexivity. Qed.

Example lure_stays_home :
  redirectURLIfNeeded secure None moved (get "example:8080" "/old//evil.example/x" false)
  = Some ("https://www.example//evil.example/x?a=1", 302).
Proof. vm_compute. reflexivity. Qed.

Example host_entry :
  (λ m, redirectURLIfNeeded (mkRedirectOptions false false "") (Some m) None
          (get "Old.Example:80" "/p" false))
    (compileRedirectMap {["old.example." := mkHostConfig "https://www.example/base/" 0 true "" []]})
  = Some ("https://www.example/base/p?a=1", 301).
Proof. vm_compute. reflexivity. Qed.

(** The trailing-slash policy answers with the decoded path: an encoded slash
    becomes a separator. *)
Definition encoded_slash : Request :=
  mkRequest "GET" "old.example" "/a/b/" "" "/a%2Fb/" false false "192.0.2.1:1" ∅ [] 0 None false false.

Lemma strip_decodes_slash :
  redirectURLIfNeeded (mkRedirectOptions false false "")
    (Some (compileRedirectMap {["old.example" := mkHostConfig "" 0 false "strip" []]})) None encoded_slash
  = Some ("http://old.example/a/b", 301).
Proof. vm_compute. reflexivity. Qed.

(** A host that is an IPv6 literal loses its brackets in the hop to HTTPS. *)
Lemma hop_drops_brackets :
  redirectURLIfNeeded (mkRedirectOptions true true "") None None (get "[2001:db8::1]:80" "/p" false)
  = Some ("https://2001:db8::1/p?a=1", 301).
Proof. vm_compute. reflexivity. Qed.

Lemma redirect_confined_witness :
  on_origin "https" "www.example" "https://www.example//evil.example/x?a=1" ∧
  ∀ r', Host r' = "www.example" → IsTLS r' = true → redirectURLIfNeeded secure None None r' = None.
Proof.
  apply (redirect_confined secure None moved (get "example:8080" "/old//evil.example/x" false)
           "https://www.example//evil.example/x?a=1" 302).
  - by intros dm h e [=].
  - intros l [= <-]. constructor; [reflexivity|constructor].
  - split; [reflexivity|by left].
  - reflexivity.
  - reflexivity.
  - vm_compute. reflexivity.
Defined.

End RedirectExamples.
