(* ===== verification/Rollout.v ===== *)
(** * Rollout groups: [internal/server/rollout_controller.go]

    A client with a rollout cookie belongs to the rollout when its cookie is on
    the allow list or hashes below the percentage's split point. *)
From S2P Require Import Prelude GoStrings GoFloat Http.

Definition RolloutCookieName : string := "kamal-rollout".

Record RolloutController := mkRollout {
  Percentage : Z;
  PercentageSplitPoint : float64;
  Allowlist : list string }.

(** The largest value of the hash. *)
Definition maxHashValue : Z := 2 ^ 32 - 1.

Definition splitPoint (percentage : Z) : float64 :=
  f64_mul (f64_of_Z maxHashValue) (f64_div (f64_of_Z percentage) (f64_of_Z 100)).

Definition NewRolloutController (percentage : Z) (allowlist : list string) : RolloutController :=
  mkRollout percentage (splitPoint percentage) allowlist.

(** [fnv.New32a]: FNV-1a over the bytes, on 32 bits. *)
Definition fnv_offset32 : Z := 2166136261.
Definition fnv_prime32 : Z := 16777619.

Fixpoint fnv1a (h : Z) (s : string) : Z :=
  match s with
  | "" => h
  | String c s => fnv1a (Z.lxor h (Z.of_N (N_of_ascii c)) * fnv_prime32 mod 2 ^ 32) s
  end.

Definition hashForValue (value : string) : Z := fnv1a fnv_offset32 value.

(** [splitValue]: empty without the cookie. *)
Definition splitValue (r : Request) : string := default "" (req_cookie r RolloutCookieName).

Definition valueInAllowlist (rc : RolloutController) (value : string) : bool :=
  str_contains (Allowlist rc) value.

Definition valueInRolloutPercentage (rc : RolloutController) (value : string) : bool :=
  f64_leb (f64_of_Z (hashForValue value)) (PercentageSplitPoint rc).

Definition RequestUsesRolloutGroup (rc : RolloutController) (r : Request) : bool :=
  let value := splitValue r in
  if String.eqb value "" then false
  else if valueInAllowlist rc value then true
  else valueInRolloutPercentage rc value.

(** ** Lemmas *)

Lemma fnv1a_range h s : 0 ≤ h < 2 ^ 32 → 0 ≤ fnv1a h s < 2 ^ 32.
Proof.
  revert h. induction s as [|c s IH]; intros h Hh; cbn [fnv1a]; [done|].
  apply IH, Z.mod_pos_bound. lia.
Qed.

Lemma hashForValue_range v : 0 ≤ hashForValue v ≤ maxHashValue.
Proof. pose proof (fnv1a_range fnv_offset32 v). unfold hashForValue, maxHashValue, fnv_offset32 in *. lia. Qed.

(** Rounding loses nothing: at every percentage the split point's floor is the
    exact share of the hash range. *)
Lemma threshold_splitPoint p : 0 ≤ p ≤ 100 → threshold (splitPoint p) = Some (p * maxHashValue / 100).
Proof.
  intros Hp.
  assert (Hall : forallb (λ n, bool_decide (threshold (splitPoint (Z.of_nat n)) =
                                 Some (Z.of_nat n * maxHashValue / 100))) (seq 0 101) = true)
    by (vm_compute; reflexivity).
  rewrite forallb_forall in Hall. specialize (Hall (Z.to_nat p)).
  rewrite Z2Nat.id in Hall by lia. apply (bool_decide_eq_true_1 _), Hall, in_seq. lia.
Qed.

(** ** Theorem *)

(** At every percentage from 0 to 100, a client is in the rollout exactly
    when it carries the cookie and is allow-listed or its 32-bit hash is within
    that share of the hash range, to the last value in spite of floating
    point; raising the percentage keeps every client that was in. *)
Theorem rollout_share p allow r :
  0 ≤ p ≤ 100 →
  let v := splitValue r in
  (RequestUsesRolloutGroup (NewRolloutController p allow) r = true ↔
   v ≠ "" ∧ (v ∈ allow ∨ hashForValue v * 100 ≤ p * maxHashValue)) ∧
  ∀ p', p ≤ p' ≤ 100 →
    RequestUsesRolloutGroup (NewRolloutController p allow) r = true →
    RequestUsesRolloutGroup (NewRolloutController p' allow) r = true.
Proof.
  intros Hp v.
  assert (Hspec : ∀ q, 0 ≤ q ≤ 100 →
    RequestUsesRolloutGroup (NewRolloutController q allow) r = true ↔
    v ≠ "" ∧ (v ∈ allow ∨ hashForValue v * 100 ≤ q * maxHashValue)).
  { intros q Hq. unfold RequestUsesRolloutGroup. fold v.
    destruct (String.eqb_spec v "") as [Hv|Hv].
    { split; [done|]. intros [Hne _]. by destruct Hne. }
    unfold valueInAllowlist, valueInRolloutPercentage. cbn [Allowlist PercentageSplitPoint NewRolloutController].
    destruct (str_contains allow v) eqn:Hin.
    - apply str_contains_spec in Hin. split; [intros _; auto|done].
    - apply str_contains_false in Hin.
      pose proof (hashForValue_range v) as Hh. unfold maxHashValue in Hh.
      assert (Hh' : 0 ≤ hashForValue v ≤ 2 ^ 53) by lia.
      rewrite (f64_leb_threshold _ _ _ Hh' (threshold_splitPoint q Hq)).
      pose proof (Z.mul_div_le (q * maxHashValue) 100).
      split.
      + intros. split; [done|right]. lia.
      + intros [_ [?|?]]; [done|]. apply Z.div_le_lower_bound; lia. }
  split; [by apply Hspec|]. intros p' Hp'. rewrite !Hspec by lia.
  intros [Hv [?|?]]; split; [done|by left|done|right]. unfold maxHashValue in *. lia.
Qed.

Module RolloutExamples.

Definition visitor (cookie : string) : Request :=
  mkRequest "GET" "a.example" "/" "" "" false false "192.0.2.1:1" ∅ [(RolloutCookieName, cookie)] 0 None false false.

(** At zero percent one hash value is still in: this cookie hashes to zero. *)
Lemma zero_percent_admits :
  RequestUsesRolloutGroup (NewRolloutController 0 []) (visitor "sXbssr") = true.
Proof. vm_compute. reflexivity. Qed.

Lemma rollout_share_witness :
  (RequestUsesRolloutGroup (NewRolloutController 50 ["vip"]) (visitor "alice") = true ↔
   splitValue (visitor "alice") ≠ "" ∧
   (splitValue (visitor "alice") ∈ ["vip"] ∨
    hashForValue (splitValue (visitor "alice")) * 100 ≤ 50 * maxHashValue)) ∧
  ∀ p', 50 ≤ p' ≤ 100 →
    RequestUsesRolloutGroup (NewRolloutController 50 ["vip"]) (visitor "alice") = true →
    RequestUsesRolloutGroup (NewRolloutController p' ["vip"]) (visitor "alice") = true.
Proof. apply (rollout_share 50 ["vip"] (visitor "alice")). lia. Defined.

End RolloutExamples.
