(* ===== verification/ErrorPages.v ===== *)
(** * Error pages: [internal/server/error_page_middleware.go] and
    [error_intercept_middleware.go]

    A gate that refuses a request records the status in a slot the error page
    middlewares put into the request's context; the innermost of them that has
    a page for it renders it, the root one always does.  The intercepting
    writer discards a target's own error response and records its status in
    the same slot. *)
From S2P Require Import Prelude GoStrings Http.

(** ** The slot *)

Record errorResponse := mkErrorResponse { erStatus : Z; erMessage : string }.

(** What a handler works on: the writer, and the slot when the context has
    one. *)
Record Resp := mkResp { respW : ResponseWriter; respErr : option errorResponse }.

Definition Handler := Request → Resp → Resp.

Definition on_writer (f : ResponseWriter → ResponseWriter) (s : Resp) : Resp := mkResp (f (respW s)) (respErr s).

(** [http.StatusText] of the statuses the proxy answers with. *)
Definition StatusText (code : Z) : string :=
  default "" (snd <$> List.find (λ x, x.1 =? code)
    [(200, "OK"); (301, "Moved Permanently"); (400, "Bad Request"); (401, "Unauthorized"); (403, "Forbidden");
     (404, "Not Found"); (405, "Method Not Allowed"); (413, "Request Entity Too Large"); (429, "Too Many Requests");
     (500, "Internal Server Error"); (502, "Bad Gateway"); (503, "Service Unavailable"); (504, "Gateway Timeout")]).

Definition newline : string := String (ascii_of_N 10) "".

(** [http.Error]. *)
Definition httpError (text : string) (code : Z) (w : ResponseWriter) : ResponseWriter :=
  let h := hdr_del (hdr_del (hdr_del (hdr_del (rwHeader w) "Content-Length") "Etag") "Cache-Control") "Last-Modified" in
  let h := hdr_set (hdr_set h "Content-Type" "text/plain; charset=utf-8") "X-Content-Type-Options" "nosniff" in
  WriteBody (text +:+ newline) (WriteHeader code (rw_set_header h w)).

Definition SetErrorResponse (status : Z) (message : string) (s : Resp) : Resp :=
  match respErr s with
  | Some _ => mkResp (respW s) (Some (mkErrorResponse status message))
  | None => on_writer (httpError (StatusText status) status) s
  end.

(** ** The error page middleware *)

(** A template writes what it renders and tells whether it got through. *)
Record ErrorPageMiddleware := mkEPM {
  epTemplates : gmap string (string → string * bool);
  epRoot : bool }.

Definition getTemplate (h : ErrorPageMiddleware) (status : Z) : option (string → string * bool) :=
  epTemplates h !! (Itoa status +:+ ".html").

Definition writeErrorWithoutTemplate (h : ErrorPageMiddleware) (status : Z) (w : ResponseWriter)
  : ResponseWriter * bool :=
  if epRoot h
  then (WriteBody ("<h1>" +:+ Itoa status +:+ " " +:+ StatusText status +:+ "</h1>") w, true)
  else (w, false).

Definition respondWithErrorPage (h : ErrorPageMiddleware) (status : Z) (message : string) (w : ResponseWriter)
  : ResponseWriter * bool :=
  let w := rw_set_header (hdr_set (rwHeader w) "Content-Type" "text/html; charset=utf-8") w in
  let w := WriteHeader status w in
  match getTemplate h status with
  | None => writeErrorWithoutTemplate h status w
  | Some render =>
      let '(body, ok) := render message in
      let w := if String.eqb body "" then w else WriteBody body w in
      if ok then (w, true) else writeErrorWithoutTemplate h status w
  end.

(** [ErrorPageMiddleware.ServeHTTP]. *)
Definition ServeErrorPage (h : ErrorPageMiddleware) (next : Handler) (r : Request) (s : Resp) : Resp :=
  let own := match respErr s with Some _ => false | None => true end in
  let s1 := next r (mkResp (respW s) (Some (default (mkErrorResponse 0 "") (respErr s)))) in
  let s2 :=
    match respErr s1 with
    | Some e =>
        if erStatus e =? 0 then s1
        else let '(w, handled) := respondWithErrorPage h (erStatus e) (erMessage e) (respW s1) in
             mkResp w (Some (if handled then mkErrorResponse 0 (erMessage e) else e))
    | None => s1
    end in
  if own then mkResp (respW s2) None else s2.

(** ** The intercepting writer *)

Record interceptingResponseWriter := mkIRW {
  iStatuses : list Z;
  iHeaderWritten : bool;
  iInterceptedStatus : Z;
  iInner : ResponseWriter }.

Definition iWriteHeader (status : Z) (w : interceptingResponseWriter) : interceptingResponseWriter :=
  if iHeaderWritten w then w
  else if negb (existsb (Z.eqb status) (iStatuses w))
  then mkIRW (iStatuses w) true (iInterceptedStatus w) (WriteHeader status (iInner w))
  else mkIRW (iStatuses w) true status
         (rw_set_header (hdr_del (hdr_del (rwHeader (iInner w)) "Content-Length") "Content-Encoding") (iInner w)).

Definition iWrite (data : string) (w : interceptingResponseWriter) : interceptingResponseWriter :=
  let w := if iHeaderWritten w then w else iWriteHeader 200 w in
  if negb (iInterceptedStatus w =? 0) then w
  else mkIRW (iStatuses w) (iHeaderWritten w) (iInterceptedStatus w) (WriteBody data (iInner w)).

Definition iFlush (w : interceptingResponseWriter) : interceptingResponseWriter :=
  if negb (iInterceptedStatus w =? 0) then w
  else mkIRW (iStatuses w) (iHeaderWritten w) (iInterceptedStatus w) (FlushRW (iInner w)).

(** Header edits reach the shared header map. *)
Definition iSetHeader (h : gmap string (list string)) (w : interceptingResponseWriter) : interceptingResponseWriter :=
  mkIRW (iStatuses w) (iHeaderWritten w) (iInterceptedStatus w) (rw_set_header h (iInner w)).

Definition iHijack (w : interceptingResponseWriter) : interceptingResponseWriter :=
  mkIRW (iStatuses w) true (iInterceptedStatus w) (iInner w).

(** What a target does with a writer. *)
Inductive write_op := OHeader (h : gmap string (list string)) | OStatus (code : Z) | OBody (b : string) | OFlush.

Definition iOp (w : interceptingResponseWriter) (o : write_op) : interceptingResponseWriter :=
  match o with
  | OHeader h => iSetHeader h w
  | OStatus c => iWriteHeader c w
  | OBody b => iWrite b w
  | OFlush => iFlush w
  end.

Definition plainOp (w : ResponseWriter) (o : write_op) : ResponseWriter :=
  match o with
  | OHeader h => rw_set_header h w
  | OStatus c => WriteHeader c w
  | OBody b => WriteBody b w
  | OFlush => FlushRW w
  end.

(** [ErrorInterceptMiddleware.ServeHTTP] around a handler that performs [ops]. *)
Definition ServeIntercepted (statuses : list Z) (ops : list write_op) (s : Resp) : Resp :=
  let w := fold_left iOp ops (mkIRW statuses false 0 (respW s)) in
  let s := mkResp (iInner w) (respErr s) in
  if iInterceptedStatus w =? 0 then s else SetErrorResponse (iInterceptedStatus w) "" s.

(** ** Rendering once *)

(** A handler that refuses with an error and writes nothing. *)
Definition refusing (status : Z) (message : string) : Handler :=
  λ _ s, mkResp (respW s) (Some (mkErrorResponse status message)).

(** The client's response: header blocks sent and body. *)
Definition sent_statuses (w : ResponseWriter) : list Z := (λ x, x.1.1) <$> rwSent w.

Lemma WriteHeader_closed c w : rwClosed w = true → WriteHeader c w = w.
Proof. unfold WriteHeader. by intros ->. Qed.

Lemma WriteHeader_open c w : rwClosed w = false → informational c = false →
  rwClosed (WriteHeader c w) = true ∧ sent_statuses (WriteHeader c w) = sent_statuses w ++ [c] ∧
  rwBody (WriteHeader c w) = rwBody w.
Proof.
  unfold WriteHeader, sent_statuses. intros -> ->. cbn. by rewrite fmap_app.
Qed.

(** After the header block of early hints, the first byte, or the end, sends a
    200. *)
Definition ends_200 (u u' : ResponseWriter) (body : string) : Prop :=
  sent_statuses (FlushRW u') = sent_statuses u ++ (if rwClosed u then [] else [200]) ∧ rwBody (FlushRW u') = rwBody u +:+ body.

Lemma ends_200_body u p body u' : ends_200 (WriteBody p u) u' body → ends_200 u u' (p +:+ body).
Proof.
  unfold ends_200. destruct u as [h ck st [] b]; unfold WriteBody, WriteHeader; cbn; rewrite str_app_assoc; [done|].
  unfold sent_statuses. cbn. rewrite fmap_app. cbn. by rewrite app_nil_r.
Qed.

Lemma ends_200_flush u body u' : ends_200 (FlushRW u) u' body → ends_200 u u' body.
Proof.
  unfold ends_200. destruct u as [h ck st [] b]; unfold FlushRW, WriteHeader; cbn; [done|].
  unfold sent_statuses. cbn. rewrite fmap_app. cbn. by rewrite app_nil_r.
Qed.

Lemma ends_200_end u : ends_200 u u "".
Proof.
  unfold ends_200. destruct u as [h ck st [] b]; unfold FlushRW, WriteHeader, sent_statuses; cbn; rewrite str_app_nil_r; (split; [|done]); [by rewrite app_nil_r|by rewrite fmap_app].
Qed.

Lemma WriteBody_closed b w : rwClosed w = true →
  rwClosed (WriteBody b w) = true ∧ sent_statuses (WriteBody b w) = sent_statuses w ∧
  rwBody (WriteBody b w) = rwBody w +:+ b.
Proof. intros H. unfold WriteBody. by rewrite WriteHeader_closed. Qed.

(** What one middleware does to a response whose header block is out. *)
Definition page_of (h : ErrorPageMiddleware) (status : Z) (message : string) : string * bool :=
  match getTemplate h status with
  | None => if epRoot h then ("<h1>" +:+ Itoa status +:+ " " +:+ StatusText status +:+ "</h1>", true) else ("", false)
  | Some render =>
      let '(body, ok) := render message in
      if ok then (body, true)
      else if epRoot h then (body +:+ "<h1>" +:+ Itoa status +:+ " " +:+ StatusText status +:+ "</h1>", true)
           else (body, false)
  end.

Definition settled (w0 w : ResponseWriter) (sent : list Z) (body : string) : Prop :=
  rwClosed w = true ∧ sent_statuses w = sent ∧ rwBody w = rwBody w0 +:+ body.

Lemma respond_page h status message w sent :
  informational status = false →
  (rwClosed w = false ∧ sent = sent_statuses w ++ [status]) ∨ (rwClosed w = true ∧ sent = sent_statuses w) →
  let '(w', handled) := respondWithErrorPage h status message w in
  handled = (page_of h status message).2 ∧ settled w w' sent (page_of h status message).1.
Proof.
  intros Hi Hw. unfold respondWithErrorPage, page_of.
  set (w1 := WriteHeader status (rw_set_header _ w)).
  assert (H1 : settled w w1 sent "").
  { unfold settled. subst w1. destruct Hw as [[Hc ->]|[Hc ->]].
    - destruct (WriteHeader_open status (rw_set_header (hdr_set (rwHeader w) "Content-Type" "text/html; charset=utf-8") w))
        as (? & ? & ?); [done|done|]. by rewrite str_app_nil_r.
    - rewrite WriteHeader_closed by done. by rewrite str_app_nil_r. }
  assert (Hput : ∀ b x acc, settled w x sent acc →
            settled w (if String.eqb b "" then x else WriteBody b x) sent (acc +:+ b)).
  { intros b x acc (Hc & Hs & Hb). destruct (String.eqb_spec b "") as [->|].
    - by rewrite str_app_nil_r.
    - destruct (WriteBody_closed b x Hc) as (? & ? & Hb'). split; [done|]. split; [congruence|].
      rewrite Hb', Hb. by rewrite str_app_assoc. }
  clearbody w1.
  assert (Hwithout : ∀ x acc, settled w x sent acc →
    let '(w', handled) := writeErrorWithoutTemplate h status x in
    handled = epRoot h ∧
    settled w w' sent (acc +:+ if epRoot h then "<h1>" +:+ Itoa status +:+ " " +:+ StatusText status +:+ "</h1>" else "")).
  { intros x acc Hx. unfold writeErrorWithoutTemplate. destruct (epRoot h); [|by rewrite str_app_nil_r].
    split; [done|]. by apply (Hput ("<h1>" +:+ _)). }
  destruct (getTemplate h status) as [render|].
  - destruct (render message) as [body []].
    + split; [done|]. apply (Hput body w1 "" H1).
    + specialize (Hwithout _ _ (Hput body w1 "" H1)).
      destruct (writeErrorWithoutTemplate h status _). destruct (epRoot h); cbn in *; [done|].
      by rewrite str_app_nil_r in Hwithout.
  - specialize (Hwithout w1 "" H1). destruct (writeErrorWithoutTemplate h status w1).
    by destruct (epRoot h).
Qed.

(** Nested middlewares, outermost first. *)
Definition chain (ms : list ErrorPageMiddleware) (inner : Handler) : Handler :=
  foldr ServeErrorPage inner ms.

(** What the chain writes as the body, innermost page first, and whether some
    middleware took charge. *)
Fixpoint rendered (ms : list ErrorPageMiddleware) (status : Z) (message : string) : string * bool :=
  match ms with
  | [] => ("", false)
  | m :: ms =>
      let '(b, done) := rendered ms status message in
      if done then (b, true)
      else let '(b', d) := page_of m status message in (b +:+ b', d)
  end.

Lemma chain_renders ms status message r w e0 :
  status ≠ 0 → informational status = false → rwClosed w = false →
  ∃ w', chain ms (refusing status message) r (mkResp w (Some e0)) =
        mkResp w' (Some (mkErrorResponse (if (rendered ms status message).2 then 0 else status) message)) ∧
        (ms = [] ∧ w' = w ∨ settled w w' (sent_statuses w ++ [status]) (rendered ms status message).1).
Proof.
  intros Hne Hi Hc. induction ms as [|m ms (w1 & Hrun & Hw1)]; [by exists w; auto|].
  cbn [chain foldr]. unfold ServeErrorPage at 1. cbn [respErr respW from_option id].
  change (foldr ServeErrorPage (refusing status message) ms) with (chain ms (refusing status message)).
  rewrite Hrun. cbn [respErr respW erStatus erMessage rendered].
  destruct (rendered ms status message) as [b done] eqn:Hr. cbn [fst snd] in *.
  destruct done.
  - cbn. destruct Hw1 as [[-> _]|Hw1]; [done|]. eauto 10.
  - rewrite (proj2 (Z.eqb_neq _ _)) by done.
    pose proof (respond_page m status message w1 (sent_statuses w ++ [status]) Hi) as Hpage.
    assert (Hpre : (rwClosed w1 = false ∧ sent_statuses w ++ [status] = sent_statuses w1 ++ [status]) ∨
                   (rwClosed w1 = true ∧ sent_statuses w ++ [status] = sent_statuses w1)).
    { destruct Hw1 as [[-> ->]|(? & ? & _)]; [by left|by right]. }
    specialize (Hpage Hpre).
    destruct (respondWithErrorPage m status message w1) as [w2 handled].
    destruct (page_of m status message) as [b' d]. destruct Hpage as [-> (Hc2 & Hs2 & Hb2)]. cbn [fst snd] in *.
    exists w2. split; [by destruct d|]. right. split; [done|]. split; [done|].
    destruct Hw1 as [[-> ->]|(_ & _ & Hb1)].
    + injection Hr as <-. done.
    + rewrite Hb2, Hb1. by rewrite str_app_assoc.
Qed.

(** ** Theorems *)

(** A refusal inside any nesting of error pages below the root one reaches
    the client exactly once: one header block, with the refusal's status, and
    as body what the pages rendered, the innermost that has a working template
    having the last word. *)
Theorem error_page_once root ms status message r w :
  epRoot root = true → status ≠ 0 → informational status = false → rwClosed w = false →
  let s := chain (root :: ms) (refusing status message) r (mkResp w None) in
  sent_statuses (respW s) = sent_statuses w ++ [status] ∧
  rwBody (respW s) = rwBody w +:+ (rendered (root :: ms) status message).1 ∧
  (rendered (root :: ms) status message).2 = true ∧ respErr s = None.
Proof.
  intros Hroot Hne Hi Hc s.
  destruct (chain_renders (root :: ms) status message r w (mkErrorResponse 0 "") Hne Hi Hc)
    as (w' & Hrun & Hw').
  assert (Hs : s = mkResp w' None).
  { subst s. cbn [chain foldr] in *. unfold ServeErrorPage at 1 in Hrun. unfold ServeErrorPage at 1.
    cbn [respErr respW from_option id] in *. by rewrite Hrun. }
  rewrite Hs. cbn [respW respErr].
  destruct Hw' as [[[=] _]|(_ & Hsent & Hbody)].
  split; [done|]. split; [done|]. split; [|done].
  cbn. destruct (rendered ms status message) as [b []]; [done|].
  unfold page_of. rewrite Hroot. destruct (getTemplate root status) as [f|]; [|done].
  by destruct (f message) as [? []].
Qed.

(** ** Interception *)

Definition final_status (o : write_op) : option Z :=
  match o with OStatus c => Some c | OBody _ => Some 200 | _ => None end.

Lemma intercepted_frozen ops w :
  iHeaderWritten w = true → iInterceptedStatus w ≠ 0 →
  let w' := fold_left iOp ops w in
  iInterceptedStatus w' = iInterceptedStatus w ∧ iHeaderWritten w' = true ∧
  rwSent (iInner w') = rwSent (iInner w) ∧ rwBody (iInner w') = rwBody (iInner w) ∧
  rwClosed (iInner w') = rwClosed (iInner w).
Proof.
  revert w. induction ops as [|o ops IH]; intros w Hh Hs; [done|]. cbn [fold_left].
  assert (Hs' : negb (iInterceptedStatus w =? 0) = true)
    by (apply negb_true_iff; by apply Z.eqb_neq).
  assert (Ho : iHeaderWritten (iOp w o) = true ∧ iInterceptedStatus (iOp w o) = iInterceptedStatus w ∧
    rwSent (iInner (iOp w o)) = rwSent (iInner w) ∧ rwBody (iInner (iOp w o)) = rwBody (iInner w) ∧
    rwClosed (iInner (iOp w o)) = rwClosed (iInner w)).
  { destruct o; cbn; unfold iWriteHeader, iWrite, iFlush; rewrite ?Hh, ?Hs'; done. }
  destruct Ho as (H1 & H2 & H3 & H4 & H5).
  destruct (IH (iOp w o) H1) as (? & ? & ? & ? & ?); [congruence|].
  repeat split; congruence.
Qed.

Lemma passing_same statuses ops w :
  iHeaderWritten w = true → iInterceptedStatus w = 0 → iStatuses w = statuses →
  rwClosed (iInner w) = true →
  iInner (fold_left iOp ops w) = fold_left plainOp ops (iInner w) ∧
  iInterceptedStatus (fold_left iOp ops w) = 0.
Proof.
  revert w. induction ops as [|o ops IH]; intros w Hh Hs Hst Hc; [done|]. cbn [fold_left].
  assert (Ho : iInner (iOp w o) = plainOp (iInner w) o ∧ iHeaderWritten (iOp w o) = true ∧
    iInterceptedStatus (iOp w o) = 0 ∧ iStatuses (iOp w o) = statuses ∧ rwClosed (plainOp (iInner w) o) = true).
  { destruct o; cbn; unfold iWriteHeader, iWrite, iFlush, WriteBody, FlushRW; rewrite ?Hh, ?Hs; cbn;
      rewrite ?WriteHeader_closed by done; done. }
  destruct Ho as (H1 & H2 & H3 & H4 & H5).
  destruct (IH (iOp w o) H2 H3 H4) as [IH1 IH2]; [by rewrite H1|]. rewrite IH1, H1. done.
Qed.

(** A target's response that starts with a final status: an opted-in status is
    replaced as a whole, every other response passes untouched. *)
Lemma intercept_replaces statuses hdrs code ops s :
  informational code = false → rwClosed (respW s) = false → code ≠ 0 →
  Forall (λ o, ∃ h, o = OHeader h) hdrs →
  let s' := ServeIntercepted statuses (hdrs ++ OStatus code :: ops) s in
  if existsb (Z.eqb code) statuses
  then respErr s ≠ None →
       respErr s' = Some (mkErrorResponse code "") ∧ rwSent (respW s') = rwSent (respW s) ∧
       rwBody (respW s') = rwBody (respW s) ∧ rwClosed (respW s') = false
  else s' = mkResp (fold_left plainOp (hdrs ++ OStatus code :: ops) (respW s)) (respErr s).
Proof.
  intros Hi Hopen Hne Hh s'.
  assert (Hpre : ∀ w, Forall (λ o, ∃ h, o = OHeader h) hdrs → iHeaderWritten w = false → iInterceptedStatus w = 0 →
    let w' := fold_left iOp hdrs w in
    iHeaderWritten w' = false ∧ iInterceptedStatus w' = 0 ∧ iStatuses w' = iStatuses w ∧
    iInner w' = fold_left plainOp hdrs (iInner w) ∧ rwSent (iInner w') = rwSent (iInner w) ∧
    rwBody (iInner w') = rwBody (iInner w) ∧ rwClosed (iInner w') = rwClosed (iInner w)).
  { clear. induction hdrs as [|o hdrs IH]; intros w Hf H1 H2; [done|]. inversion Hf as [|? ? [h ->] Hf']; subst.
    cbn [fold_left]. destruct (IH (iOp w (OHeader h)) Hf' H1 H2) as (?&?&?&?&?&?&?). done. }
  destruct (Hpre (mkIRW statuses false 0 (respW s)) Hh eq_refl eq_refl) as (E1 & E2 & E3 & E4 & E5 & E6 & E7).
  subst s'. unfold ServeIntercepted. rewrite !fold_left_app. cbn [fold_left iOp plainOp].
  set (w := fold_left iOp hdrs _) in *. clearbody w. cbn in E3, E4, E5, E6, E7.
  unfold iWriteHeader. rewrite E1, E3.
  destruct (existsb (Z.eqb code) statuses) eqn:Hin; cbn [negb].
  - intros Hslot.
    destruct (intercepted_frozen ops (mkIRW statuses true code
      (rw_set_header (hdr_del (hdr_del (rwHeader (iInner w)) "Content-Length") "Content-Encoding") (iInner w))))
      as (F1 & F2 & F3 & F4 & F5); [done|done|]. cbn in F1, F3, F4, F5.
    rewrite F1, (proj2 (Z.eqb_neq _ _)) by done.
    unfold SetErrorResponse. cbn [respErr respW]. destruct (respErr s); [|done]. cbn.
    repeat split; congruence.
  - destruct (WriteHeader_open code (iInner w)) as (Hcl & _ & _); [congruence|done|].
    destruct (passing_same statuses ops (mkIRW statuses true (iInterceptedStatus w) (WriteHeader code (iInner w))))
      as [G1 G2]; [done|done|done|done|].
    rewrite G2. cbn. rewrite G1. cbn. by rewrite E4.
Qed.

Module ErrorPageExamples.

Definition root : ErrorPageMiddleware := mkEPM ∅ true.
Definition branded : ErrorPageMiddleware :=
  mkEPM {["503.html" := λ msg, ("<p>" +:+ msg +:+ "</p>", true)]} false.

Definition visit : Request :=
  mkRequest "GET" "a.example" "/" "" "" false false "192.0.2.1:1" ∅ [] 0 None false false.

Example branded_page :
  rwBody (respW (chain [root; branded] (refusing 503 "back soon") visit (mkResp newRW None))) = "<p>back soon</p>".
Proof. vm_compute. reflexivity. Qed.

Example fallback_page :
  rwBody (respW (chain [root; branded] (refusing 504 "") visit (mkResp newRW None))) = "<h1>504 Gateway Timeout</h1>".
Proof. vm_compute. reflexivity. Qed.

Lemma error_page_once_witness :
  let s := chain [root; branded] (refusing 503 "back soon") visit (mkResp newRW None) in
  sent_statuses (respW s) = [503] ∧
  rwBody (respW s) = "<p>back soon</p>" ∧
  (rendered [root; branded] 503 "back soon").2 = true ∧ respErr s = None.
Proof.
  apply (error_page_once root [branded] 503 "back soon" visit newRW); [reflexivity|lia|reflexivity|reflexivity].
Defined.

(** Early hints are taken for the response's status: the error that follows is
    neither intercepted nor sent, and the client sees a success. *)
Lemma intercept_after_hints :
  sent_statuses (respW (ServeIntercepted [500] [OStatus 103; OStatus 500; OBody "oops"] (mkResp newRW None)))
  = [103; 200].
Proof. vm_compute. reflexivity. Qed.

End ErrorPageExamples.
