(* ===== verification/Buffers.v ===== *)
(** * Buffering: [internal/server/buffer.go], [request_buffer_middleware.go]
    and [response_buffer_middleware.go]

    A buffer keeps what is written to it in memory up to a bound, spills the
    rest to a file, and refuses what goes over a second bound.  One middleware
    reads a request's body into a buffer before it is passed on; another holds a
    response back until it is complete, unless it is a stream.

    What the disk does is an argument of every write: whether a spill file can
    be made, and how much of a write it takes. *)
From S2P Require Import Prelude GoStrings Http Redirects ErrorPages.

(** ** The buffer *)

Inductive BufferError := ErrMaximumSizeExceeded | ErrWriteAfterRead | ErrSpill | ErrDisk.

#[export] Instance BufferError_eq_dec : EqDecision BufferError := ltac:(solve_decision).

(** The memory and the disk part, and what is left to read once reading began. *)
Record Buffer := mkBuffer {
  maxBytes : Z;
  maxMemBytes : Z;
  memoryBuffer : string;
  memBytesWritten : Z;
  diskBuffer : option string;
  diskBytesWritten : Z;
  overflowed : bool;
  reader : option string }.

Definition NewBufferedWriteCloser (maxBytes maxMemBytes : Z) : Buffer :=
  mkBuffer maxBytes maxMemBytes "" 0 None 0 false None.

(** What the disk is willing to do during a write. *)
Record Disk := mkDisk { canSpill : bool; room : nat }.

(** It does what it is asked for writes of this size. *)
Definition healthy (p : string) (d : Disk) : Prop := canSpill d = true ∧ (String.length p ≤ room d)%nat.

Definition writeToMemory (p : string) (b : Buffer) : Buffer * (nat * option BufferError) :=
  (mkBuffer (maxBytes b) (maxMemBytes b) (memoryBuffer b +:+ p) (memBytesWritten b + str_len p) (diskBuffer b)
     (diskBytesWritten b) (overflowed b) (reader b),
   (String.length p, None)).

Definition writeToDisk (d : Disk) (p : string) (b : Buffer) : Buffer * (nat * option BufferError) :=
  let taken := str_take (room d) p in
  (mkBuffer (maxBytes b) (maxMemBytes b) (memoryBuffer b) (memBytesWritten b) (Some (default "" (diskBuffer b) +:+ taken))
     (diskBytesWritten b + str_len taken) (overflowed b) (reader b),
   (String.length taken, if (String.length p <=? room d)%nat then None else Some ErrDisk)).

Definition createSpill (b : Buffer) : Buffer :=
  mkBuffer (maxBytes b) (maxMemBytes b) (memoryBuffer b) (memBytesWritten b) (Some "") (diskBytesWritten b) (overflowed b) (reader b).

Definition overflow (b : Buffer) : Buffer :=
  mkBuffer (maxBytes b) (maxMemBytes b) (memoryBuffer b) (memBytesWritten b) (diskBuffer b) (diskBytesWritten b) true (reader b).

(** [Buffer.Write]: how much was taken, and the error. *)
Definition BufferWrite (d : Disk) (p : string) (b : Buffer) : Buffer * (nat * option BufferError) :=
  match reader b with
  | Some _ => (b, (0%nat, Some ErrWriteAfterRead))
  | None =>
      let length := str_len p in
      if (0 <? maxBytes b) && (maxBytes b <? memBytesWritten b + diskBytesWritten b + length)
      then (overflow b, (0%nat, Some ErrMaximumSizeExceeded))
      else match diskBuffer b with
           | Some _ => writeToDisk d p b
           | None =>
               if memBytesWritten b + length <=? maxMemBytes b then writeToMemory p b
               else if negb (canSpill d) then (b, (0%nat, Some ErrSpill))
               else
                 let k := Z.to_nat (maxMemBytes b - memBytesWritten b) in
                 let '(b, (memWritten, _)) := writeToMemory (str_take k p) (createSpill b) in
                 let '(b, (diskWritten, err)) := writeToDisk d (str_drop k p) b in
                 (b, ((memWritten + diskWritten)%nat, err))
           end
  end.

(** What has been written. *)
Definition written (b : Buffer) : string := memoryBuffer b +:+ default "" (diskBuffer b).

Definition setReader (b : Buffer) : Buffer :=
  match reader b with
  | Some _ => b
  | None => mkBuffer (maxBytes b) (maxMemBytes b) (memoryBuffer b) (memBytesWritten b) (diskBuffer b) (diskBytesWritten b)
              (overflowed b) (Some (written b))
  end.

(** Read everything that is left ([io.Copy] of the buffer). *)
Definition drainReader (b : Buffer) : Buffer * string :=
  let b := setReader b in
  (mkBuffer (maxBytes b) (maxMemBytes b) (memoryBuffer b) (memBytesWritten b) (diskBuffer b) (diskBytesWritten b)
     (overflowed b) (Some ""), default "" (reader b)).

(** ** Requests *)

(** How a body ends: cleanly, or with an error of its encoding or of another
    kind. *)
Inductive BodyEnd := BodyEOF | BodyChunkedError | BodyError.

Inductive CopyError := CopyWrite (e : BufferError) | CopyRead (chunked : bool).

(** [io.Copy] into the buffer, read by read. *)
Fixpoint copyInto (b : Buffer) (reads : list (string * Disk)) (ending : BodyEnd) : result CopyError Buffer :=
  match reads with
  | [] => match ending with BodyEOF => Ok b | BodyChunkedError => Err (CopyRead true) | BodyError => Err (CopyRead false) end
  | (p, d) :: reads =>
      match BufferWrite d p b with
      | (b, (_, None)) => copyInto b reads ending
      | (_, (_, Some e)) => Err (CopyWrite e)
      end
  end.

Definition NewBufferedReadCloser (maxBytes maxMemBytes : Z) (reads : list (string * Disk)) (ending : BodyEnd) : result CopyError Buffer :=
  copyInto (NewBufferedWriteCloser maxBytes maxMemBytes) reads ending.

(** [RequestBufferMiddleware.ServeHTTP]: the next handler is given the body. *)
Definition ServeRequestBuffer (maxBytes maxMemBytes : Z) (reads : list (string * Disk)) (ending : BodyEnd) (next : string → Resp → Resp) (s : Resp)
  : Resp :=
  match NewBufferedReadCloser maxBytes maxMemBytes reads ending with
  | Ok b => next (drainReader b).2 s
  | Err (CopyWrite ErrMaximumSizeExceeded) => SetErrorResponse 413 "" s
  | Err (CopyRead true) => SetErrorResponse 400 "" s
  | Err _ => SetErrorResponse 500 "" s
  end.

(** ** Responses *)

Record bufferedResponseWriter := mkBRW {
  bUnder : ResponseWriter;
  bStatusCode : Z;
  bBuffer : Buffer;
  bHijacked : bool;
  bHeaderWritten : bool;
  bBypass : bool }.

(** Nothing is written for an empty buffer. *)
Definition sendBody (body : string) (w : ResponseWriter) : ResponseWriter := if String.eqb body "" then w else WriteBody body w.

(** [Send]: whether the buffer had overflowed. *)
Definition bSend (w : bufferedResponseWriter) : bufferedResponseWriter * option BufferError :=
  if overflowed (bBuffer w) then (w, Some ErrMaximumSizeExceeded)
  else if bHijacked w || bBypass w then (w, None)
  else
    let under := if bHeaderWritten w then WriteHeader (bStatusCode w) (bUnder w) else bUnder w in
    let '(buffer, body) := drainReader (bBuffer w) in
    (mkBRW (sendBody body under) (bStatusCode w) buffer (bHijacked w) (bHeaderWritten w) (bBypass w), None).

Definition ShouldSwitchToUnbuffered (h : gmap string (list string)) : bool :=
  let contentType := match CutString (hdr_get h "Content-Type") ";" with Some (a, _) => a | None => hdr_get h "Content-Type" end in
  String.eqb contentType "text/event-stream" || String.eqb (hdr_get h "Transfer-Encoding") "chunked".

Definition SwitchToUnbuffered (w : bufferedResponseWriter) : bufferedResponseWriter :=
  let w := (bSend w).1 in
  mkBRW (bUnder w) (bStatusCode w) (bBuffer w) (bHijacked w) (bHeaderWritten w) true.

Definition bWriteHeader (code : Z) (w : bufferedResponseWriter) : bufferedResponseWriter :=
  if bHeaderWritten w then w
  else
    let w := mkBRW (bUnder w) code (bBuffer w) (bHijacked w) true (bBypass w) in
    if ShouldSwitchToUnbuffered (rwHeader (bUnder w)) then SwitchToUnbuffered w else w.

Definition bWrite (d : Disk) (data : string) (w : bufferedResponseWriter) : bufferedResponseWriter :=
  if bBypass w then mkBRW (WriteBody data (bUnder w)) (bStatusCode w) (bBuffer w) (bHijacked w) (bHeaderWritten w) (bBypass w)
  else mkBRW (bUnder w) (bStatusCode w) (BufferWrite d data (bBuffer w)).1 (bHijacked w) (bHeaderWritten w) (bBypass w).

(** The error [Write] answers with: none for a response that is too large. *)
Definition bWriteError (d : Disk) (data : string) (w : bufferedResponseWriter) : option BufferError :=
  if bBypass w then None
  else match (BufferWrite d data (bBuffer w)).2.2 with Some ErrMaximumSizeExceeded => None | e => e end.

Definition bFlush (w : bufferedResponseWriter) : bufferedResponseWriter :=
  if bBypass w then mkBRW (FlushRW (bUnder w)) (bStatusCode w) (bBuffer w) (bHijacked w) (bHeaderWritten w) (bBypass w) else w.

Definition bHijack (w : bufferedResponseWriter) : bufferedResponseWriter :=
  mkBRW (bUnder w) (bStatusCode w) (bBuffer w) true (bHeaderWritten w) (bBypass w).

(** What a handler does with the writer; header edits reach the shared map. *)
Definition bOp (w : bufferedResponseWriter) (od : write_op * Disk) : bufferedResponseWriter :=
  match od.1 with
  | OHeader h => mkBRW (rw_set_header h (bUnder w)) (bStatusCode w) (bBuffer w) (bHijacked w) (bHeaderWritten w) (bBypass w)
  | OStatus c => bWriteHeader c w
  | OBody p => bWrite od.2 p w
  | OFlush => bFlush w
  end.

Definition newBRW (maxBytes maxMemBytes : Z) (under : ResponseWriter) : bufferedResponseWriter :=
  mkBRW under 200 (NewBufferedWriteCloser maxBytes maxMemBytes) false false false.

(** [ResponseBufferMiddleware.ServeHTTP] around a handler that performs [ops]. *)
Definition ServeResponseBuffer (maxBytes maxMemBytes : Z) (ops : list (write_op * Disk)) (s : Resp) : Resp :=
  let '(w, err) := bSend (foldl bOp (newBRW maxBytes maxMemBytes (respW s)) ops) in
  let s := mkResp (bUnder w) (respErr s) in
  match err with Some _ => SetErrorResponse 500 "" s | None => s end.

(** ** What a buffer holds *)

Lemma str_length_take n s : String.length (str_take n s) = Nat.min n (String.length s).
Proof. revert s. induction n as [|n IH]; intros [|c s]; cbn; auto. Qed.

Lemma str_take_whole n s : (String.length s ≤ n)%nat → str_take n s = s.
Proof. revert s. induction n as [|n IH]; intros [|c s]; cbn; try done; [lia|]. intros Hle. f_equal. apply IH. lia. Qed.

Lemma str_len_app a b : str_len (a +:+ b) = str_len a + str_len b.
Proof. unfold str_len. rewrite str_length_app. lia. Qed.

Lemma str_take_app_drop k n s : str_take k s +:+ str_take n (str_drop k s) = str_take (k + n) s ∨ (String.length s < k)%nat.
Proof.
  revert s. induction k as [|k IH]; intros s; [by left|]. destruct s as [|c s]; cbn; [right; lia|].
  destruct (IH s) as [<-|]; [by left|right; lia].
Qed.

(** The counts are right and the bounds are kept. *)
Definition buffer_ok (b : Buffer) : Prop :=
  0 ≤ maxMemBytes b ∧ memBytesWritten b = str_len (memoryBuffer b) ∧ diskBytesWritten b = str_len (default "" (diskBuffer b)) ∧
  memBytesWritten b ≤ maxMemBytes b ∧ (0 < maxBytes b → memBytesWritten b + diskBytesWritten b ≤ maxBytes b).

(** Would this much more be too much? *)
Definition too_much (b : Buffer) (p : string) : bool := (0 <? maxBytes b) && (maxBytes b <? str_len (written b) + str_len p).

Lemma buffer_ok_length b : buffer_ok b → str_len (written b) = memBytesWritten b + diskBytesWritten b.
Proof. intros (_ & -> & -> & _). apply str_len_app. Qed.

Lemma write_spec d p b :
  buffer_ok b → reader b = None →
  let '(b', (n, err)) := BufferWrite d p b in
  buffer_ok b' ∧ reader b' = None ∧ maxBytes b' = maxBytes b ∧ maxMemBytes b' = maxMemBytes b ∧
  written b' = written b +:+ str_take n p ∧ overflowed b' = overflowed b || too_much b p ∧
  (err = Some ErrMaximumSizeExceeded ↔ too_much b p = true) ∧ (err = None → (String.length p ≤ n)%nat) ∧
  (too_much b p = false → healthy p d → err = None).
Proof.
  intros Hok Hr. pose proof Hok as (Hmax & Hmem & Hdisk & Hle & Htotal). unfold BufferWrite. rewrite Hr.
  assert (Hmuch : (0 <? maxBytes b) && (maxBytes b <? memBytesWritten b + diskBytesWritten b + str_len p) = too_much b p)
    by (unfold too_much; by rewrite buffer_ok_length). rewrite Hmuch.
  pose proof (str_len_nonneg p) as Hp. destruct (too_much b p) eqn:Hover.
  { split; [done|]. split; [done|]. cbn. rewrite str_app_nil_r, orb_true_r. by repeat split. }
  assert (Hfit : 0 < maxBytes b → memBytesWritten b + diskBytesWritten b + str_len p ≤ maxBytes b).
  { intros Hpos. apply andb_false_iff in Hmuch as [Hb|Hb]; [apply Z.ltb_ge in Hb; lia|by apply Z.ltb_ge in Hb]. }
  assert (Hlens : ∀ n s, str_len (str_take n s) ≤ str_len s ∧ str_len (str_take n s) = Z.min (Z.of_nat n) (str_len s)).
  { intros n s. unfold str_len. rewrite str_length_take. lia. }
  destruct (diskBuffer b) as [disk|] eqn:Hd.
  - cbn. destruct (Hlens (room d) p) as [Ht1 Ht2]. unfold buffer_ok, written. cbn. rewrite Hd. cbn in *. rewrite !str_len_app, orb_false_r.
    repeat split; try done; try lia.
    + rewrite str_app_assoc. f_equal. symmetry. rewrite str_length_take. destruct (Nat.leb_spec (String.length p) (room d)).
      * rewrite (str_take_whole (room d) p) by lia. by rewrite str_take_whole by lia.
      * f_equal. lia.
    + case_goal; done.
    + rewrite str_length_take. destruct (Nat.leb_spec (String.length p) (room d)); [intros _; lia|done].
    + intros _ [_ Hroom]. by rewrite (proj2 (Nat.leb_le _ _)).
  - destruct (Z.leb_spec (memBytesWritten b + str_len p) (maxMemBytes b)).
    + cbn. unfold buffer_ok, written. cbn. rewrite Hd, orb_false_r. cbn in *. rewrite !str_app_nil_r, str_take_whole by lia. rewrite str_len_app. repeat split; try done; lia.
    + destruct (canSpill d) eqn:Hspill; cbn [negb].
      * set (k := Z.to_nat (maxMemBytes b - memBytesWritten b)). change (diskBytesWritten b = 0) in Hdisk.
        assert (Hk : (k < String.length p)%nat) by (unfold str_len in *; lia).
        assert (Htk : str_len (str_take k p) = Z.of_nat k) by (unfold str_len; rewrite str_length_take; lia).
        assert (Hkm : Z.of_nat k = maxMemBytes b - memBytesWritten b) by lia.
        assert (Hdrop : Z.of_nat k + str_len (str_drop k p) = str_len p).
        { rewrite <-Htk, <-str_len_app. by rewrite str_take_drop. }
        cbn. destruct (Hlens (room d) (str_drop k p)) as [Ht1 Ht2]. unfold buffer_ok, written. cbn. rewrite Hd, orb_false_r. cbn.
        rewrite str_len_app, Htk, str_app_nil_r.
        repeat split; try done; try lia.
        -- rewrite <-str_app_assoc. f_equal. rewrite !str_length_take. rewrite (Nat.min_l k) by lia.
           destruct (str_take_app_drop k (room d) p) as [->|]; [|lia].
           unfold str_len in Hdrop. destruct (Nat.leb_spec (String.length (str_drop k p)) (room d)).
           ++ rewrite !str_take_whole by lia. done.
           ++ f_equal. lia.
        -- case_goal; done.
        -- rewrite !str_length_take. unfold str_len in Hdrop. destruct (Nat.leb_spec (String.length (str_drop k p)) (room d)); [|done]. intros _. lia.
        -- intros _ [_ Hroom]. rewrite (proj2 (Nat.leb_le _ _)); [done|]. unfold str_len in Hdrop. lia.
      * split; [done|]. cbn. rewrite str_app_nil_r, orb_false_r. repeat split; try done. intros _ [Hn _]. congruence.
Qed.

(** Never more in memory than asked for, never more in all than allowed, and
    what is read is what was written, whatever the disk does. *)
Lemma copyInto_spec reads ending b :
  buffer_ok b → reader b = None →
  match copyInto b reads ending with
  | Ok b' => ending = BodyEOF ∧ buffer_ok b' ∧ written b' = written b +:+ String.concat "" (fst <$> reads) ∧
      (0 < maxBytes b → str_len (written b) + str_len (String.concat "" (fst <$> reads)) ≤ maxBytes b) ∧ reader b' = None
  | Err (CopyWrite ErrMaximumSizeExceeded) =>
      0 < maxBytes b ∧ maxBytes b < str_len (written b) + str_len (String.concat "" (fst <$> reads))
  | Err (CopyRead chunked) => ending = (if chunked then BodyChunkedError else BodyError)
  | Err (CopyWrite _) => ¬ Forall (λ pd, healthy pd.1 pd.2) reads
  end.
Proof.
  assert (Hcat : ∀ p l, String.concat "" (p :: l) = p +:+ String.concat "" l).
  { intros p [|q l]; cbn; [by rewrite str_app_nil_r|done]. }
  revert b. induction reads as [|[p d] reads IH]; intros b Hok Hr; cbn [copyInto].
  { destruct ending; [|done..]. cbn. rewrite str_app_nil_r. split; [done|]. split; [done|]. split; [done|]. split; [|done].
    intros Hpos. rewrite buffer_ok_length by done. destruct Hok as (_ & _ & _ & _ & Ht). specialize (Ht Hpos). change (str_len "") with 0. lia. }
  pose proof (write_spec d p b Hok Hr) as Hw. destruct (BufferWrite d p b) as [b1 [n err]].
  destruct Hw as (Hok1 & Hr1 & Hmax & _ & Hwr & _ & Hover & Hn & Hhealthy). rewrite fmap_cons, Hcat. cbn [fst]. rewrite str_len_app.
  destruct err as [e|].
  - destruct (decide (e = ErrMaximumSizeExceeded)) as [->|Hne].
    + destruct Hover as [Hover _]. specialize (Hover eq_refl). apply andb_true_iff in Hover as [H1%Z.ltb_lt H2%Z.ltb_lt].
      pose proof (str_len_nonneg (String.concat "" (fst <$> reads))). split; lia.
    + assert (¬ Forall (λ pd, healthy pd.1 pd.2) ((p, d) :: reads)); [|by destruct e].
      rewrite Forall_cons. intros [Hh _]. destruct (too_much b p); [by destruct Hne; destruct Hover as [_ Hover]; injection (Hover eq_refl)|].
      by specialize (Hhealthy eq_refl Hh).
  - specialize (Hn eq_refl). rewrite str_take_whole in Hwr by done. specialize (IH b1 Hok1 Hr1). rewrite Hmax, Hwr, str_len_app in IH.
    destruct (copyInto b1 reads ending) as [b2|[[]|]].
    + destruct IH as (He & Hok2 & Hwr2 & Hle & Hr2). split; [done|]. split; [done|]. split; [by rewrite Hwr2, str_app_assoc|]. split; [|done].
      intros Hpos. specialize (Hle Hpos). lia.
    + destruct IH. split; [done|lia].
    + by rewrite Forall_cons; intros [_ ?].
    + by rewrite Forall_cons; intros [_ ?].
    + by rewrite Forall_cons; intros [_ ?].
    + done.
Qed.

(** However a request's body arrives, in reads of whatever sizes, and
    wherever the memory bound falls, the next handler is given exactly the body
    when it is complete and no larger than allowed; a larger one is refused with
    413, a malformed one with 400, and nothing else is passed on in part. *)
Theorem request_buffer_exact limit mem reads ending next s :
  let body := String.concat "" (fst <$> reads) in
  let over := (0 <? limit) && (limit <? str_len body) in
  0 ≤ mem → Forall (λ pd, healthy pd.1 pd.2) reads →
  (ending = BodyEOF → ServeRequestBuffer limit mem reads ending next s = if over then SetErrorResponse 413 "" s else next body s) ∧
  (ending ≠ BodyEOF → ∃ status, In status [413; 400; 500] ∧ ServeRequestBuffer limit mem reads ending next s = SetErrorResponse status "" s ∧
     (over = false → status = match ending with BodyChunkedError => 400 | _ => 500 end)).
Proof.
  intros body over Hmem Hhealthy. unfold ServeRequestBuffer, NewBufferedReadCloser.
  assert (Hok : buffer_ok (NewBufferedWriteCloser limit mem)) by (unfold buffer_ok; cbn; repeat split; lia).
  pose proof (copyInto_spec reads ending _ Hok eq_refl) as Hc. change (written (NewBufferedWriteCloser limit mem)) with "" in Hc.
  change (maxBytes (NewBufferedWriteCloser limit mem)) with limit in Hc. change (str_len "") with 0 in Hc. fold body in Hc.
  destruct (copyInto _ reads ending) as [b|[e|chunked]].
  - destruct Hc as (-> & _ & Hwr & Hle & Hr). split; [intros _|done]. unfold drainReader, setReader. rewrite Hr. cbn. rewrite Hwr. cbn.
    assert (over = false) as ->; [|done]. unfold over. destruct (Z.ltb_spec 0 limit); [|done]. cbn. apply Z.ltb_ge. specialize (Hle H). lia.
  - assert (He : e = ErrMaximumSizeExceeded) by (by destruct e). rewrite He in Hc |- *. destruct Hc as [H1 H2]. assert (over = true) as -> by (unfold over; rewrite andb_true_iff, !Z.ltb_lt; lia).
    split; [done|]. intros _. exists 413. split; [cbn; auto|done].
  - split; [intros ->; by destruct chunked|]. intros _. exists (if chunked then 400 else 500). subst ending.
    destruct chunked; cbn; auto.
Qed.

(** ** Responses *)

(** A handler that edits the headers, announces a status or does not, and then
    writes; it may flush at any time. *)
Definition orderly (ops : list (write_op * Disk)) : Prop :=
  ∃ hs bs, Forall (λ od, match od.1 with OHeader _ | OFlush => True | _ => False end) hs ∧
    Forall (λ od, match od.1 with OBody _ | OFlush => True | _ => False end) bs ∧
    (ops = hs ++ bs ∨ ∃ c d, informational c = false ∧ ops = hs ++ (OStatus c, d) :: bs).

Definition body_of (ops : list (write_op * Disk)) : string :=
  String.concat "" ((λ od, match od.1 with OBody p => p | _ => "" end) <$> ops).

(** None of its writes is answered with an error: the disk takes what is
    spilled. *)
Fixpoint untroubled (w : bufferedResponseWriter) (ops : list (write_op * Disk)) : Prop :=
  match ops with
  | [] => True
  | od :: ops => match od.1 with OBody p => bWriteError od.2 p w = None | _ => True end ∧ untroubled (bOp w od) ops
  end.

(** A handler that begins with an informational status, such as early hints,
    and goes on in any way. *)
Definition hinted (c : Z) (ops : list (write_op * Disk)) : Prop :=
  ∃ hs d rest, ops = hs ++ (OStatus c, d) :: rest ∧ Forall (λ od, match od.1 with OHeader _ | OFlush => True | _ => False end) hs ∧ informational c = true.

(** The handler writing to the client itself, without its flushes. *)
Definition directly (ops : list (write_op * Disk)) (w : ResponseWriter) : ResponseWriter :=
  foldl plainOp w (List.filter (λ o, match o with OFlush => false | _ => true end) (fst <$> ops)).

Lemma body_of_cons od ops : body_of (od :: ops) = match od.1 with OBody p => p | _ => "" end +:+ body_of ops.
Proof. unfold body_of. rewrite fmap_cons. destruct ops; cbn; [by rewrite str_app_nil_r|done]. Qed.

Lemma body_of_app a b : body_of (a ++ b) = body_of a +:+ body_of b.
Proof. induction a as [|x a IH]; [done|]. cbn [app]. by rewrite !body_of_cons, IH, str_app_assoc. Qed.

Lemma directly_cons od ops w : directly (od :: ops) w = directly ops (match od.1 with OFlush => w | o => plainOp w o end).
Proof. unfold directly. rewrite fmap_cons. cbn. by destruct (od.1). Qed.

Lemma directly_app a b w : directly (a ++ b) w = directly b (directly a w).
Proof. revert w. induction a as [|x a IH]; intros w; [done|]. cbn [app]. by rewrite !directly_cons, IH. Qed.

Lemma WriteBody_twice a b w : WriteBody b (WriteBody a w) = WriteBody (a +:+ b) w.
Proof.
  unfold WriteBody at 1. assert (Hcl : rwClosed (WriteBody a w) = true).
  { unfold WriteBody, WriteHeader. destruct (rwClosed w) eqn:Hc; cbn; by rewrite ?Hc. }
  rewrite WriteHeader_closed by done. unfold WriteBody. cbn. by rewrite str_app_assoc.
Qed.

(** Writes to a client whose header block is sent. *)
Lemma directly_bodies bs w :
  Forall (λ od, match od.1 with OBody _ | OFlush => True | _ => False end) bs →
  FlushRW (directly bs w) = FlushRW (sendBody (body_of bs) w).
Proof.
  assert (Hsend : ∀ p b w, FlushRW (sendBody b (WriteBody p w)) = FlushRW (WriteBody (p +:+ b) w)).
  { intros p b w'. unfold sendBody. destruct (String.eqb_spec b "") as [->|]; [by rewrite str_app_nil_r|by rewrite WriteBody_twice]. }
  assert (Hempty : ∀ w, FlushRW (WriteBody "" w) = FlushRW w).
  { intros [h c st [] b]; unfold FlushRW, WriteBody, WriteHeader; cbn; by rewrite str_app_nil_r. }
  revert w. induction bs as [|od bs IH]; intros w; [done|]. rewrite Forall_cons. intros [Hod Hbs]. rewrite directly_cons, body_of_cons, IH by done.
  destruct (od.1) as [h|c|p|]; try done. cbn [plainOp]. rewrite Hsend. unfold sendBody at 1. destruct (String.eqb_spec (p +:+ body_of bs) "") as [->|]; [apply Hempty|done].
Qed.

Definition heads (hs : list (write_op * Disk)) : Prop := Forall (λ od, match od.1 with OHeader _ | OFlush => True | _ => False end) hs.
Definition bodies (bs : list (write_op * Disk)) : Prop := Forall (λ od, match od.1 with OBody _ | OFlush => True | _ => False end) bs.

(** The announcements change nothing but the shared header map. *)
Lemma run_heads hs u st b :
  heads hs → foldl bOp (mkBRW u st b false false false) hs = mkBRW (directly hs u) st b false false false ∧ body_of hs = "" ∧
  ∃ h, directly hs u = rw_set_header h u.
Proof.
  revert u. induction hs as [|[o d] hs IH]; intros u.
  { intros _. split; [done|]. split; [done|]. exists (rwHeader u). by destruct u. }
  unfold heads. rewrite Forall_cons. intros [Ho Hhs]. cbn [foldl]. rewrite directly_cons, body_of_cons. destruct o; try done; cbn [fst snd].
  - destruct (IH (rw_set_header h u) Hhs) as (Hrun & -> & h' & Hh'). split; [exact Hrun|]. split; [done|]. exists h'. change (directly hs (rw_set_header h u) = rw_set_header h' u). by rewrite Hh'.
  - destruct (IH u Hhs) as (Hrun & -> & Hh'). done.
Qed.

Lemma untroubled_app w a b : untroubled w (a ++ b) ↔ untroubled w a ∧ untroubled (foldl bOp w a) b.
Proof. revert w. induction a as [|od a IH]; intros w; cbn; [tauto|]. rewrite IH. tauto. Qed.

(** Held back, the body is in the buffer, or the buffer has overflowed.  Once a
    status is announced, others are ignored; edits of the headers reach the map. *)
Lemma run_held bs u st b hw :
  hw = true ∨ bodies bs → untroubled (mkBRW u st b false hw false) bs → buffer_ok b → reader b = None →
  ∃ b' h, foldl bOp (mkBRW u st b false hw false) bs = mkBRW (rw_set_header h u) st b' false hw false ∧ (bodies bs → rw_set_header h u = u) ∧
    buffer_ok b' ∧ reader b' = None ∧ maxBytes b' = maxBytes b ∧
    (overflowed b' = true ∨ written b' = written b +:+ body_of bs ∧ overflowed b' = overflowed b) ∧
    (maxBytes b ≤ 0 ∨ str_len (written b) + str_len (body_of bs) ≤ maxBytes b → written b' = written b +:+ body_of bs ∧ overflowed b' = overflowed b).
Proof.
  revert u b. induction bs as [|[o d] bs IH]; intros u b.
  { intros _ _ Hok Hr. exists b, (rwHeader u). rewrite str_app_nil_r. destruct u; eauto 12. }
  intros Hbs [He Hun] Hok Hr. cbn [foldl]. rewrite body_of_cons.
  assert (Hbs' : hw = true ∨ bodies bs) by (destruct Hbs as [?|Hbs]; [by left|right; by apply Forall_cons in Hbs as [_ ?]]).
  assert (Hsub : bodies ((o, d) :: bs) → bodies bs) by (by intros [_ ?]%Forall_cons).
  destruct o as [h0|c|p|]; cbn [fst snd] in *.
  - destruct (IH (rw_set_header h0 u) b Hbs' Hun Hok Hr) as (b' & h & Hrun & _ & Hrest). exists b', h. split; [exact Hrun|]. split; [by intros [[] _]%Forall_cons|exact Hrest].
  - destruct Hbs as [->|[[] _]%Forall_cons]. destruct (IH u b Hbs' Hun Hok Hr) as (b' & h & Hrun & _ & Hrest). exists b', h. split; [exact Hrun|]. split; [by intros [[] _]%Forall_cons|exact Hrest].
  - pose proof (write_spec d p b Hok Hr) as Hspec. unfold bWriteError in He. unfold bOp at 2. unfold bOp in Hun. cbn [fst snd bBypass bBuffer] in *. unfold bWrite in *. cbn [bBypass bUnder bStatusCode bBuffer bHijacked bHeaderWritten] in *.
    destruct (BufferWrite d p b) as [b1 [n err]]. cbn [fst snd] in *. destruct Hspec as (Hok1 & Hr1 & Hmax & _ & Hwr & Hover & Herr & Hn & _).
    destruct (IH u b1 Hbs' Hun Hok1 Hr1) as (b' & h & Hrun & Hsame & Hok' & Hr' & Hmax' & Hor & Hfit). exists b', h. split; [exact Hrun|]. split; [auto|]. split; [done|]. split; [done|].
    split; [congruence|]. rewrite Hmax in Hfit. pose proof (str_len_nonneg (body_of bs)) as Hpos. destruct (too_much b p) eqn:Hmuch.
    + rewrite orb_true_r in Hover. split; [left; destruct Hor as [?|[_ ->]]; [done|exact Hover]|].
      apply andb_true_iff in Hmuch as [H1%Z.ltb_lt H2%Z.ltb_lt]. rewrite str_len_app. lia.
    + assert (Hnone : err = None) by (destruct err as [[]|]; try done; by destruct Herr as [Herr _]; specialize (Herr eq_refl)).
      rewrite orb_false_r in Hover. rewrite (str_take_whole n p) in Hwr by auto. rewrite Hwr, Hover in Hor, Hfit.
      rewrite !str_len_app in Hfit |- *. rewrite <-str_app_assoc in Hor, Hfit. split; [done|]. intros [?|?]; apply Hfit; [by left|right; lia].
  - destruct (IH u b Hbs' Hun Hok Hr) as (b' & h & Hrun & Hsame & Hrest). exists b', h. split; [exact Hrun|]. split; [auto|exact Hrest].
Qed.

(** Let through, it is at the client. *)
Lemma run_through bs u st b :
  bodies bs → rwClosed u = true → foldl bOp (mkBRW u st b false true true) bs = mkBRW (directly bs u) st b false true true.
Proof.
  revert u. induction bs as [|[o d] bs IH]; intros u; [done|]. unfold bodies. rewrite Forall_cons. intros [Ho Hbs] Hcl. cbn [foldl]. rewrite directly_cons.
  destruct o; try done; unfold bOp at 2; cbn [fst snd].
  - unfold bWrite. cbn [bBypass bUnder bStatusCode bBuffer bHijacked bHeaderWritten]. rewrite IH; [done|done|]. unfold WriteBody. by rewrite WriteHeader_closed.
  - unfold bFlush. cbn [bBypass bUnder bStatusCode bBuffer bHijacked bHeaderWritten]. unfold FlushRW. rewrite WriteHeader_closed by done. by apply IH.
Qed.

(** A stream that began with early hints. *)
Lemma run_bypassed rest u st b :
  ∃ u', foldl bOp (mkBRW u st b false true true) rest = mkBRW u' st b false true true ∧ ends_200 u u' (body_of rest).
Proof.
  revert u. induction rest as [|[o d] rest IH]; intros u; [exists u; split; [done|apply ends_200_end]|]. cbn [foldl]. rewrite body_of_cons. cbn [fst].
  destruct o as [h|c|p|].
  - destruct (IH (rw_set_header h u)) as (u' & Hrun & Hend). exists u'. split; [exact Hrun|exact Hend].
  - apply IH.
  - destruct (IH (WriteBody p u)) as (u' & Hrun & Hend). exists u'. split; [exact Hrun|by apply ends_200_body].
  - destruct (IH (FlushRW u)) as (u' & Hrun & Hend). exists u'. split; [exact Hrun|by apply ends_200_flush].
Qed.

Lemma send_held u st b hw :
  reader b = None → overflowed b = false →
  bSend (mkBRW u st b false hw false) =
  (mkBRW (sendBody (written b) (if hw then WriteHeader st u else u)) st (drainReader b).1 false hw false, None).
Proof. intros Hr Ho. unfold bSend. cbn. rewrite Ho. unfold drainReader, setReader. by rewrite Hr. Qed.

(** What becomes of the writer at the end. *)
Definition finishResponse (w : bufferedResponseWriter) (e : option errorResponse) : Resp :=
  let '(w, err) := bSend w in match err with Some _ => SetErrorResponse 500 "" (mkResp (bUnder w) e) | None => mkResp (bUnder w) e end.

(** A response that was held: sent as a whole, or not at all. *)
Lemma finish_held limit mem bs u st hw e :
  0 ≤ mem → hw = true ∨ bodies bs → untroubled (mkBRW u st (NewBufferedWriteCloser limit mem) false hw false) bs →
  let r := finishResponse (foldl bOp (mkBRW u st (NewBufferedWriteCloser limit mem) false hw false) bs) e in
  ∃ h, (bodies bs → rw_set_header h u = u) ∧
    (limit ≤ 0 ∨ str_len (body_of bs) ≤ limit →
       r = mkResp (sendBody (body_of bs) (if hw then WriteHeader st (rw_set_header h u) else rw_set_header h u)) e) ∧
    (0 < limit → limit < str_len (body_of bs) → r = SetErrorResponse 500 "" (mkResp (rw_set_header h u) e)).
Proof.
  intros Hmem Hbs Hun r. unfold r. clear r. set (b0 := NewBufferedWriteCloser limit mem) in *.
  assert (Hok0 : buffer_ok b0) by (unfold buffer_ok; cbn; repeat split; lia).
  destruct (run_held bs u st b0 hw Hbs Hun Hok0 eq_refl) as (b' & h & -> & Hsame & Hok' & Hr' & Hmax' & Hor & Hfit). exists h. split; [done|].
  change (written b0) with "" in Hor, Hfit. change (overflowed b0) with false in Hor, Hfit. change (maxBytes b0) with limit in *. change (str_len "") with 0 in Hfit.
  change ("" +:+ body_of bs) with (body_of bs) in Hor, Hfit. unfold finishResponse. destruct (overflowed b') eqn:Hov.
  - unfold bSend. cbn [bBuffer overflowed]. rewrite Hov. split; [|done]. intros Hle. by destruct (Hfit Hle) as [_ ?].
  - rewrite send_held by done. cbn. destruct Hor as [?|[Hwr _]]; [done|]. rewrite Hwr. split; [done|]. intros Hpos Hlt. exfalso.
    pose proof (buffer_ok_length _ Hok') as Hlen. rewrite Hwr in Hlen. destruct Hok' as (_ & _ & _ & _ & Ht). rewrite Hmax' in Ht. specialize (Ht Hpos). lia.
Qed.

(** Does the handler announce a stream? *)
Definition streams (ops : list (write_op * Disk)) (w : ResponseWriter) : Prop :=
  ∃ hs c d bs, ops = hs ++ (OStatus c, d) :: bs ∧ heads hs ∧ ShouldSwitchToUnbuffered (rwHeader (directly hs w)) = true.

Lemma streams_at hs c d bs w : heads hs → streams (hs ++ (OStatus c, d) :: bs) w → ShouldSwitchToUnbuffered (rwHeader (directly hs w)) = true.
Proof.
  intros Hhs (hs' & c' & d' & bs' & Heq & Hhs' & Hsw). enough (hs = hs') by congruence. clear Hsw. revert hs' Heq Hhs'.
  induction hs as [|x hs IH]; intros [|y hs'] Heq Hhs'; cbn in Heq; try done.
  - injection Heq as <- _. by apply Forall_cons in Hhs' as [? _].
  - injection Heq as -> _. by apply Forall_cons in Hhs as [? _].
  - injection Heq as -> Heq. apply Forall_cons in Hhs as [_ Hhs]. apply Forall_cons in Hhs' as [_ Hhs']. f_equal. by apply IH.
Qed.

Lemma streams_status hs bs w : heads hs → bodies bs → ¬ streams (hs ++ bs) w.
Proof.
  intros Hhs Hbs (hs' & c & d & bs' & Heq & _). assert (Hin : (OStatus c, d) ∈ hs ++ bs) by (rewrite Heq; set_solver).
  apply elem_of_app in Hin as [Hin|Hin]; [by apply (proj1 (Forall_forall _ _) Hhs) in Hin|by apply (proj1 (Forall_forall _ _) Hbs) in Hin].
Qed.

(** The handler announces its status: the response is held from there, or let
    through. *)
Lemma run_status limit mem hs c d rest s :
  heads hs →
  let u := directly hs (respW s) in
  let b0 := NewBufferedWriteCloser limit mem in
  foldl bOp (newBRW limit mem (respW s)) (hs ++ (OStatus c, d) :: rest) =
    if ShouldSwitchToUnbuffered (rwHeader u) then foldl bOp (mkBRW (WriteHeader c u) c (drainReader b0).1 false true true) rest
    else foldl bOp (mkBRW u c b0 false true false) rest.
Proof.
  intros Hhs u b0. destruct (run_heads hs (respW s) 200 b0 Hhs) as (Hheads & _). rewrite foldl_app. unfold newBRW. fold b0. rewrite Hheads. cbn [foldl]. fold u.
  unfold bOp at 2. cbn [fst]. unfold bWriteHeader. cbn [bHeaderWritten bUnder bBuffer bHijacked bBypass].
  destruct (ShouldSwitchToUnbuffered (rwHeader u)); [|done]. unfold SwitchToUnbuffered. rewrite send_held by done. done.
Qed.

Section serve.
Context (limit mem : Z) (s : Resp).
Hypothesis mem_pos : 0 ≤ mem.
Hypothesis open : rwClosed (respW s) = false.

Let served ops := finishResponse (foldl bOp (newBRW limit mem (respW s)) ops) (respErr s).
Let fresh := newBRW limit mem (respW s).

Lemma serve_unannounced hs bs :
  heads hs → bodies bs → untroubled fresh (hs ++ bs) →
  (limit ≤ 0 ∨ str_len (body_of (hs ++ bs)) ≤ limit ∨ streams (hs ++ bs) (respW s) →
     respErr (served (hs ++ bs)) = respErr s ∧ FlushRW (respW (served (hs ++ bs))) = FlushRW (directly (hs ++ bs) (respW s))) ∧
  (0 < limit → limit < str_len (body_of (hs ++ bs)) →
     ∃ h, served (hs ++ bs) = SetErrorResponse 500 "" (mkResp (rw_set_header h (respW s)) (respErr s))).
Proof.
  intros Hhs Hbs Hun. destruct (run_heads hs (respW s) 200 (NewBufferedWriteCloser limit mem) Hhs) as (Hheads & Hnobody & h0 & Hh0).
  apply untroubled_app in Hun as [_ Hun]. unfold served, fresh, newBRW in *. rewrite foldl_app. rewrite Hheads in Hun |- *.
  rewrite body_of_app, Hnobody. change ("" +:+ body_of bs) with (body_of bs).
  destruct (finish_held limit mem bs (directly hs (respW s)) 200 false (respErr s) mem_pos (or_intror Hbs) Hun) as (h & Hsame & Hfits & Hbig).
  rewrite (Hsame Hbs) in Hfits, Hbig. split.
  - intros Hwhole. assert (Hfit : limit ≤ 0 ∨ str_len (body_of bs) ≤ limit).
    { destruct Hwhole as [?|[?|Hst]]; [by left|by right|]. by apply streams_status in Hst. }
    rewrite (Hfits Hfit). cbn [respW respErr]. split; [done|]. by rewrite directly_app, directly_bodies.
  - intros Hpos Hlt. exists h0. by rewrite (Hbig Hpos Hlt), Hh0.
Qed.

Lemma serve_announced hs c d bs :
  heads hs → bodies bs → informational c = false → untroubled fresh (hs ++ (OStatus c, d) :: bs) →
  limit ≤ 0 ∨ str_len (body_of (hs ++ (OStatus c, d) :: bs)) ≤ limit ∨ streams (hs ++ (OStatus c, d) :: bs) (respW s) →
  let r := served (hs ++ (OStatus c, d) :: bs) in
  respErr r = respErr s ∧ FlushRW (respW r) = FlushRW (directly (hs ++ (OStatus c, d) :: bs) (respW s)).
Proof.
  intros Hhs Hbs Hc Hun Hwhole r. unfold r, served. clear r. rewrite run_status by done.
  destruct (run_heads hs (respW s) 200 (NewBufferedWriteCloser limit mem) Hhs) as (_ & Hnobody & h0 & Hh0).
  rewrite body_of_app, Hnobody, body_of_cons in Hwhole. cbn [fst] in Hwhole. change ("" +:+ ("" +:+ body_of bs)) with (body_of bs) in Hwhole.
  rewrite directly_app, directly_cons. cbn [fst plainOp].
  destruct (ShouldSwitchToUnbuffered (rwHeader (directly hs (respW s)))) eqn:Hsw.
  - assert (Hcl : rwClosed (WriteHeader c (directly hs (respW s))) = true) by (rewrite Hh0; unfold WriteHeader; cbn; rewrite open; cbn; by rewrite Hc).
    rewrite run_through by done. done.
  - pose proof Hun as Hun'. unfold fresh in Hun'. rewrite cons_middle, app_assoc in Hun'. apply untroubled_app in Hun' as [_ Hun'].
    rewrite run_status, Hsw in Hun' by done.
    destruct (finish_held limit mem bs (directly hs (respW s)) c true (respErr s) mem_pos (or_introl eq_refl) Hun') as (h & Hsame & Hfits & _).
    rewrite Hfits; [|destruct Hwhole as [?|[?|Hst]]; [by left|by right|apply streams_at in Hst; [congruence|done]]].
    rewrite (Hsame Hbs). cbn [respW respErr]. split; [done|]. by rewrite directly_bodies.
Qed.

Lemma serve_hinted hs c d rest :
  heads hs → informational c = true → untroubled fresh (hs ++ (OStatus c, d) :: rest) →
  limit ≤ 0 ∨ str_len (body_of (hs ++ (OStatus c, d) :: rest)) ≤ limit ∨ streams (hs ++ (OStatus c, d) :: rest) (respW s) →
  let r := served (hs ++ (OStatus c, d) :: rest) in
  respErr r = respErr s ∧ sent_statuses (FlushRW (respW r)) = sent_statuses (respW s) ++ [c; 200] ∧
  rwBody (FlushRW (respW r)) = rwBody (respW s) +:+ body_of (hs ++ (OStatus c, d) :: rest).
Proof.
  intros Hhs Hc Hun Hwhole r. unfold r, served. clear r. rewrite run_status by done.
  destruct (run_heads hs (respW s) 200 (NewBufferedWriteCloser limit mem) Hhs) as (_ & Hnobody & h0 & Hh0).
  rewrite body_of_app, Hnobody, body_of_cons in Hwhole |- *. cbn [fst] in Hwhole |- *. change ("" +:+ ("" +:+ body_of rest)) with (body_of rest) in Hwhole |- *.
  assert (Hhint : ∀ h, let u := WriteHeader c (rw_set_header h (respW s)) in
    rwClosed u = false ∧ sent_statuses u = sent_statuses (respW s) ++ [c] ∧ rwBody u = rwBody (respW s)).
  { intros h. unfold WriteHeader. cbn. rewrite open. cbn. rewrite Hc. unfold sent_statuses. cbn. by rewrite fmap_app. }
  destruct (ShouldSwitchToUnbuffered (rwHeader (directly hs (respW s)))) eqn:Hsw.
  - destruct (run_bypassed rest (WriteHeader c (directly hs (respW s))) c (drainReader (NewBufferedWriteCloser limit mem)).1) as (u' & -> & Hst & Hb).
    rewrite Hh0 in Hst, Hb. destruct (Hhint h0) as (Hcl & Hs & Hbody). rewrite Hcl, Hs, <-app_assoc in Hst. rewrite Hbody in Hb. done.
  - pose proof Hun as Hun'. unfold fresh in Hun'. rewrite cons_middle, app_assoc in Hun'. apply untroubled_app in Hun' as [_ Hun'].
    rewrite run_status, Hsw in Hun' by done.
    destruct (finish_held limit mem rest (directly hs (respW s)) c true (respErr s) mem_pos (or_introl eq_refl) Hun') as (h & _ & Hfits & _).
    rewrite Hfits; [|destruct Hwhole as [?|[?|Hst]]; [by left|by right|apply streams_at in Hst; [congruence|done]]].
    cbn [respW respErr]. split; [done|]. rewrite Hh0. change (rw_set_header h (rw_set_header h0 (respW s))) with (rw_set_header h (respW s)).
    destruct (Hhint h) as (Hcl & Hs & Hbody). set (u := WriteHeader c (rw_set_header h (respW s))) in *.
    assert (Hend : ends_200 u (sendBody (body_of rest) u) (body_of rest)).
    { unfold sendBody. destruct (String.eqb_spec (body_of rest) "") as [->|]; [apply ends_200_end|].
      rewrite <-(str_app_nil_r (body_of rest)) at 2. apply ends_200_body, ends_200_end. }
    destruct Hend as [He Hb]. rewrite Hcl, Hs, <-app_assoc in He. rewrite Hbody in Hb. done.
Qed.

Lemma serve_too_large hs c d rest :
  heads hs → untroubled fresh (hs ++ (OStatus c, d) :: rest) →
  0 < limit → limit < str_len (body_of (hs ++ (OStatus c, d) :: rest)) → ¬ streams (hs ++ (OStatus c, d) :: rest) (respW s) →
  ∃ h, served (hs ++ (OStatus c, d) :: rest) = SetErrorResponse 500 "" (mkResp (rw_set_header h (respW s)) (respErr s)).
Proof.
  intros Hhs Hun Hpos Hbig Hst. unfold served. rewrite run_status by done.
  destruct (run_heads hs (respW s) 200 (NewBufferedWriteCloser limit mem) Hhs) as (_ & Hnobody & h0 & Hh0).
  rewrite body_of_app, Hnobody, body_of_cons in Hbig. cbn [fst] in Hbig. change ("" +:+ ("" +:+ body_of rest)) with (body_of rest) in Hbig.
  destruct (ShouldSwitchToUnbuffered (rwHeader (directly hs (respW s)))) eqn:Hsw.
  { exfalso. apply Hst. exists hs, c, d, rest. done. }
  pose proof Hun as Hun'. unfold fresh in Hun'. rewrite cons_middle, app_assoc in Hun'. apply untroubled_app in Hun' as [_ Hun'].
  rewrite run_status, Hsw in Hun' by done.
  destruct (finish_held limit mem rest (directly hs (respW s)) c true (respErr s) mem_pos (or_introl eq_refl) Hun') as (h & _ & _ & Hlarge).
  rewrite (Hlarge Hpos Hbig), Hh0. by exists h.
Qed.

End serve.

(** C27: holding a response back changes nothing the client can see, but when.
    Of a handler that sets its headers before its status and that before its
    body, and sees no write fail: if the response fits or is a stream, the client
    gets the header block and the bytes the handler would have sent itself; if it
    is too large and no stream, the client gets none of it, and an error is
    answered instead.  The exception is a handler that begins with an
    informational status: it is taken for the status, so that the client is told
    200 after it, whatever the handler's own. *)
Theorem response_buffer_transparent limit mem ops s :
  0 ≤ mem → rwClosed (respW s) = false → untroubled (newBRW limit mem (respW s)) ops →
  let r := ServeResponseBuffer limit mem ops s in
  let whole := limit ≤ 0 ∨ str_len (body_of ops) ≤ limit ∨ streams ops (respW s) in
  (whole → orderly ops → respErr r = respErr s ∧ FlushRW (respW r) = FlushRW (directly ops (respW s))) ∧
  (whole → ∀ c, hinted c ops →
     respErr r = respErr s ∧ sent_statuses (FlushRW (respW r)) = sent_statuses (respW s) ++ [c; 200] ∧
     rwBody (FlushRW (respW r)) = rwBody (respW s) +:+ body_of ops) ∧
  (0 < limit → limit < str_len (body_of ops) → ¬ streams ops (respW s) → orderly ops ∨ (∃ c, hinted c ops) →
     ∃ h, r = SetErrorResponse 500 "" (mkResp (rw_set_header h (respW s)) (respErr s))).
Proof.
  intros Hmem Hopen Hun r whole. unfold whole, r. clear whole r.
  change (ServeResponseBuffer limit mem ops s) with (finishResponse (foldl bOp (newBRW limit mem (respW s)) ops) (respErr s)).
  split; [|split].
  - intros Hwhole (hs & bs & Hhs & Hbs & [->|(c & d & Hc & ->)]).
    + by apply serve_unannounced.
    + by apply serve_announced.
  - intros Hwhole c (hs & d & rest & -> & Hhs & Hc). by apply serve_hinted.
  - intros Hpos Hbig Hst [(hs & bs & Hhs & Hbs & [->|(c & d & Hc & ->)])|(c & hs & d & rest & -> & Hhs & Hc)].
    + by apply serve_unannounced.
    + by apply serve_too_large.
    + by apply serve_too_large.
Qed.

(** ** Examples *)

Module BufferExamples.

Definition fine : Disk := mkDisk true 100.
Definition quiet : Resp := mkResp newRW (Some (mkErrorResponse 0 "")).
Definition plain : gmap string (list string) := {["Content-Type" := ["text/plain"]]}.

Example spilled :
  (λ b, (memoryBuffer b, diskBuffer b)) <$> (match NewBufferedReadCloser 10 4 [("ab", fine); ("cdef", fine); ("gh", fine)] BodyEOF with Ok b => Some b | Err _ => None end)
  = Some ("abcd", Some "efgh").
Proof. reflexivity. Qed.

Lemma request_buffer_exact_witness :
  let reads := [("ab", fine); ("cdef", fine); ("gh", fine)] in
  ServeRequestBuffer 10 4 reads BodyEOF (λ body, on_writer (WriteBody body)) quiet = on_writer (WriteBody "abcdefgh") quiet ∧
  ServeRequestBuffer 7 4 reads BodyEOF (λ body, on_writer (WriteBody body)) quiet = SetErrorResponse 413 "" quiet.
Proof.
  intros reads. assert (Hh : Forall (λ pd, healthy pd.1 pd.2) reads) by (repeat constructor; cbn; lia). split.
  - exact (proj1 (request_buffer_exact 10 4 reads BodyEOF (λ body, on_writer (WriteBody body)) quiet ltac:(lia) Hh) eq_refl).
  - exact (proj1 (request_buffer_exact 7 4 reads BodyEOF (λ body, on_writer (WriteBody body)) quiet ltac:(lia) Hh) eq_refl).
Defined.

Definition page : list (write_op * Disk) := [(OHeader plain, fine); (OStatus 404, fine); (OBody "not ", fine); (OFlush, fine); (OBody "here", fine)].

Definition hints : list (write_op * Disk) := [(OStatus 103, fine); (OStatus 404, fine); (OBody "no", fine)].

Lemma response_buffer_transparent_witness :
  orderly page ∧ FlushRW (respW (ServeResponseBuffer 10 4 page quiet)) = mkRW plain [] [(404, plain, [])] true "not here" ∧
  (∃ h, ServeResponseBuffer 6 4 page quiet = SetErrorResponse 500 "" (mkResp (rw_set_header h newRW) (Some (mkErrorResponse 0 "")))) ∧
  sent_statuses (FlushRW (respW (ServeResponseBuffer 10 4 hints quiet))) = [103; 200].
Proof.
  assert (Ho : orderly page).
  { exists [(OHeader plain, fine)], [(OBody "not ", fine); (OFlush, fine); (OBody "here", fine)]. split; [repeat constructor|]. split; [repeat constructor|].
    right. exists 404, fine. split; reflexivity. }
  assert (Hw : ∀ limit, limit ∈ [6; 10] → untroubled (newBRW limit 4 (respW quiet)) page).
  { intros limit Hl. repeat (apply elem_of_cons in Hl as [->|Hl]; [vm_compute; repeat split|]). by apply elem_of_nil in Hl. }
  assert (Hhint : hinted 103 hints) by (exists [], fine, [(OStatus 404, fine); (OBody "no", fine)]; repeat split; constructor).
  split; [exact Ho|]. split; [|split].
  - destruct (response_buffer_transparent 10 4 page quiet ltac:(lia) eq_refl (Hw 10 ltac:(set_solver))) as [Hfit _].
    destruct (Hfit ltac:(right; left; vm_compute; discriminate) Ho) as [_ ->]. vm_compute. reflexivity.
  - apply (response_buffer_transparent 6 4 page quiet ltac:(lia) eq_refl (Hw 6 ltac:(set_solver))); [lia|vm_compute; reflexivity| |left; exact Ho].
    intros (hs & c & d & bs & Heq & Hhs & Hsw). unfold page in Heq. destruct hs as [|x [|y hs]].
    + discriminate Heq.
    + cbn in Heq. injection Heq as <- <- <- <-. vm_compute in Hsw. discriminate.
    + injection Heq as <- <- _. apply Forall_cons in Hhs as [_ Hhs]. apply Forall_cons in Hhs as [[] _].
  - destruct (response_buffer_transparent 10 4 hints quiet ltac:(lia) eq_refl ltac:(vm_compute; repeat split)) as (_ & Hhinted & _).
    destruct (Hhinted ltac:(right; left; vm_compute; discriminate) 103 Hhint) as (_ & -> & _). reflexivity.
Defined.

(** ** What modelling showed *)

(** Early hints take the place of the status: the client of a page that is not
    there is told that it is. *)
Example early_hints_hide_the_status :
  let r := ServeResponseBuffer 0 100 [(OStatus 103, fine); (OStatus 404, fine); (OBody "no", fine)] quiet in
  sent_statuses (respW r) = [103; 200] ∧ sent_statuses (directly [(OStatus 103, fine); (OStatus 404, fine); (OBody "no", fine)] newRW) = [103; 404].
Proof. vm_compute. split; reflexivity. Qed.

End BufferExamples.
