(* ===== verification/Endpoints.v ===== *)
(** * The proxy's own endpoints: [internal/server/refresh_nudge.go],
    [dynamic_domains_handler.go], [dynamic_redirects_handler.go] and
    [ping_handler.go]

    A few paths are answered before any service is looked up: the nudges that
    have the domain and redirect sources polled at once, the nonce that the
    pre-flight probe asks for, and the liveness probe.  The digest the tokens
    are compared by is a parameter. *)
From S2P Require Import Prelude GoStrings Http ErrorPages.

Definition refreshMinInterval : Z := 10 * second.
Definition redirectsRefreshPath : string := "/.kamal-proxy/redirects/refresh".
Definition domainsRefreshPath : string := "/.kamal-proxy/domains/refresh".
Definition preflightPathPrefix : string := "/.kamal-proxy/preflight/".
Definition pingPath : string := "/.kamal-proxy/ping".
Definition pingBody : string := "OK" +:+ newline.
Definition MethodPost : string := "POST".

(** [http.NotFound] *)
Definition NotFound (w : ResponseWriter) : ResponseWriter := httpError "404 page not found" 404 w.

Definition with_header (n v : string) (w : ResponseWriter) : ResponseWriter := rw_set_header (hdr_set (rwHeader w) n v) w.

Section endpoints.
Variable sha256 : string → string.

Definition bearerToken (r : Request) : option string := CutPrefix (hdr_get (ReqHeader r) "Authorization") "Bearer ".

(** Constant-time comparison is comparison. *)
Definition tokensEqual (a b : string) : bool := String.eqb (sha256 a) (sha256 b).

(** ** The nudges *)

(** What a nudge endpoint knows of its manager: the token, whether there is
    anything to poll, and when it was last let through, if ever. *)
Record refreshNudge := mkNudge {
  nToken : string;
  nHasSources : bool;
  nLastRefresh : option Z }.

(** [tryClaimRefresh], which reads the clock twice. *)
Definition tryClaimRefresh (now later : Z) (n : refreshNudge) : refreshNudge * bool :=
  match nLastRefresh n with
  | Some last => if now - last <? refreshMinInterval then (n, false) else (mkNudge (nToken n) (nHasSources n) (Some later), true)
  | None => (mkNudge (nToken n) (nHasSources n) (Some later), true)
  end.

(** [serve]: the response, and whether the sources were nudged. *)
Definition serveNudge (now later : Z) (n : refreshNudge) (r : Request) (w : ResponseWriter) : refreshNudge * ResponseWriter * bool :=
  if String.eqb (nToken n) "" || negb (nHasSources n) then (n, NotFound w, false)
  else if negb (String.eqb (Method r) MethodPost)
  then (n, httpError "method not allowed" 405 (with_header "Allow" MethodPost w), false)
  else
    let authorized := match bearerToken r with Some token => tokensEqual token (nToken n) | None => false end in
    if negb authorized then (n, httpError "unauthorized" 401 w, false)
    else
      let '(n, claimed) := tryClaimRefresh now later n in
      if claimed then (n, WriteHeader 202 w, true)
      else (n, httpError "refresh requested too recently" 429 (with_header "Retry-After" (Itoa (refreshMinInterval / second)) w), false).

(** ** The other paths *)

Definition handlePreflight (nonce : string) (r : Request) (w : ResponseWriter) : ResponseWriter :=
  if negb (is_get_or_head r) then httpError "method not allowed" 405 w
  else if negb (String.eqb (URLPath r) (preflightPathPrefix +:+ nonce)) then NotFound w
  else WriteBody nonce (with_header "Content-Type" "text/plain" w).

(** [WithPingMiddleware], for the ping path. *)
Definition handlePing (r : Request) (w : ResponseWriter) : ResponseWriter :=
  if negb (is_get_or_head r) then httpError "method not allowed" 405 w
  else WriteBody pingBody (WriteHeader 200 (with_header "Cache-Control" "no-store" (with_header "Content-Type" "text/plain; charset=utf-8" w))).

(** The endpoints a proxy has mounted. *)
Record Endpoints := mkEndpoints {
  epRedirects : option refreshNudge;
  epDomains : option (refreshNudge * string) }.

(** Which sources a request had polled. *)
Inductive Nudged := NudgedNothing | NudgedRedirects | NudgedDomains.

(** The handlers as they are mounted around each other; [None]: the request is
    for the router. *)
Definition serveOwn (now later : Z) (e : Endpoints) (r : Request) (w : ResponseWriter) : option (Endpoints * ResponseWriter * Nudged) :=
  if String.eqb (URLPath r) pingPath then Some (e, handlePing r w, NudgedNothing)
  else match epRedirects e with
  | Some n =>
      if String.eqb (URLPath r) redirectsRefreshPath then
        let '(n, w, nudged) := serveNudge now later n r w in
        Some (mkEndpoints (Some n) (epDomains e), w, if nudged then NudgedRedirects else NudgedNothing)
      else None
  | None => None
  end ∪
  match epDomains e with
  | Some (n, nonce) =>
      if String.eqb (URLPath r) domainsRefreshPath then
        let '(n, w, nudged) := serveNudge now later n r w in
        Some (mkEndpoints (epRedirects e) (Some (n, nonce)), w, if nudged then NudgedDomains else NudgedNothing)
      else if HasPrefix (URLPath r) preflightPathPrefix then Some (e, handlePreflight nonce r w, NudgedNothing)
      else None
  | None => None
  end.

(** ** What a nudge takes *)

Definition nudge_due (now : Z) (n : refreshNudge) : Prop :=
  match nLastRefresh n with Some last => refreshMinInterval ≤ now - last | None => True end.

(** The request carries the token. *)
Definition authorized (n : refreshNudge) (r : Request) : Prop :=
  ∃ token, hdr_get (ReqHeader r) "Authorization" = "Bearer " +:+ token ∧ sha256 token = sha256 (nToken n).

(** What each request of a refresh endpoint is answered with.  The sources
    are nudged exactly when the endpoint is enabled, has sources, the request is
    a POST with the token, and the last nudge let through was ten seconds ago;
    nothing else touches the endpoint's memory, so that an outsider can neither
    nudge nor use up a nudge; and while it is disabled every request gets the
    same answer. *)
Theorem nudge_answers now later n r w :
  let '(n', w', nudged) := serveNudge now later n r w in
  (nudged = true ↔ nToken n ≠ "" ∧ nHasSources n = true ∧ Method r = MethodPost ∧ authorized n r ∧ nudge_due now n) ∧
  n' = (if nudged then mkNudge (nToken n) (nHasSources n) (Some later) else n) ∧
  w' = (if nudged then WriteHeader 202 w
        else if bool_decide (nToken n = "" ∨ nHasSources n = false) then NotFound w
        else if bool_decide (Method r ≠ MethodPost) then httpError "method not allowed" 405 (with_header "Allow" MethodPost w)
        else match bearerToken r with
             | Some token => if bool_decide (sha256 token = sha256 (nToken n))
                 then httpError "refresh requested too recently" 429 (with_header "Retry-After" "10" w)
                 else httpError "unauthorized" 401 w
             | None => httpError "unauthorized" 401 w
             end).
Proof.
  unfold serveNudge, authorized, nudge_due. destruct (String.eqb_spec (nToken n) "") as [Ht|Ht]; cbn [orb].
  { rewrite (bool_decide_true (nToken n = "" ∨ _)) by auto. split; [split; [done|by intros []]|done]. }
  destruct (nHasSources n) eqn:Hs; cbn [negb].
  2: { rewrite (bool_decide_true (nToken n = "" ∨ _)) by auto. split; [split; [done|by intros (_ & ? & _)]|done]. }
  rewrite (bool_decide_false (nToken n = "" ∨ _)) by (by intros []).
  destruct (String.eqb_spec (Method r) MethodPost) as [Hm|Hm]; cbn [negb].
  2: { rewrite (bool_decide_true (Method r ≠ _)) by done. split; [split; [done|by intros (_ & _ & ? & _)]|done]. }
  rewrite (bool_decide_false (Method r ≠ _)) by auto.
  assert (Hbearer : ∀ t, bearerToken r = Some t ↔ hdr_get (ReqHeader r) "Authorization" = "Bearer " +:+ t) by (intros t; apply CutPrefix_Some).
  destruct (bearerToken r) as [t|] eqn:Hb.
  2: { cbn [negb]. split; [split; [done|]|done]. intros (_ & _ & _ & (t & Ha%Hbearer & _) & _). done. }
  pose proof (proj1 (Hbearer t) eq_refl) as Ha. unfold tokensEqual.
  destruct (String.eqb_spec (sha256 t) (sha256 (nToken n))) as [He|He]; cbn [negb].
  2: { rewrite (bool_decide_false (sha256 t = _)) by done. split; [split; [done|]|done].
       intros (_ & _ & _ & (t' & Ha'%Hbearer & He') & _). congruence. }
  rewrite (bool_decide_true (sha256 t = _)) by done. unfold tryClaimRefresh. rewrite Hs.
  destruct (nLastRefresh n) as [last|]; [destruct (Z.ltb_spec (now - last) refreshMinInterval)|].
  - split; [split; [done|]|done]. intros (_ & _ & _ & _ & ?). lia.
  - split; [split; [intros _; eauto 10|done]|done].
  - split; [split; [intros _; eauto 10|done]|done].
Qed.

(** ** Nudges over time *)

(** The requests an endpoint gets: when its handling began and when it reads the
    clock again, whether there were sources, and the request. *)
Fixpoint nudges (n : refreshNudge) (rs : list (Z * Z * bool * Request)) : list Z :=
  match rs with
  | [] => []
  | (now, later, has, r) :: rs =>
      let '(n, _, nudged) := serveNudge now later (mkNudge (nToken n) has (nLastRefresh n)) r newRW in
      (if nudged then [later] else []) ++ nudges n rs
  end.

(** The clock does not go back. *)
Fixpoint in_time (t : Z) (rs : list (Z * Z * bool * Request)) (finish : Z) : Prop :=
  match rs with
  | [] => t ≤ finish
  | (now, later, _, _) :: rs => t ≤ now ∧ now ≤ later ∧ in_time later rs finish
  end.

Lemma in_time_mono t rs finish : in_time t rs finish → t ≤ finish.
Proof. revert t. induction rs as [|[[[now later] has] r] rs IH]; intros t; cbn; [done|]. intros (? & ? & H%IH). lia. Qed.

Lemma nudges_after n rs t finish :
  in_time t rs finish →
  Z.of_nat (length (nudges n rs)) * refreshMinInterval ≤
    match nLastRefresh n with Some last => Z.max 0 (finish - last) | None => finish - t + refreshMinInterval end.
Proof.
  revert n t. induction rs as [|[[[now later] has] r] rs IH]; intros n t Hin; cbn [nudges].
  { cbn in Hin |- *. destruct (nLastRefresh n); unfold refreshMinInterval, second; lia. }
  destruct Hin as (H1 & H2 & Hin). pose proof (nudge_answers now later (mkNudge (nToken n) has (nLastRefresh n)) r newRW) as Hans.
  destruct (serveNudge _ _ _ _ _) as [[n' w'] nudged]. destruct Hans as (Hiff & -> & _). pose proof (in_time_mono _ _ _ Hin) as Hfin.
  destruct nudged; cbn [app length].
  - destruct Hiff as [Hdue _]. destruct (Hdue eq_refl) as (_ & _ & _ & _ & Hd). unfold nudge_due in Hd. cbn in Hd.
    specialize (IH (mkNudge (nToken n) has (Some later)) later Hin). cbn [nLastRefresh nToken nHasSources] in IH |- *.
    rewrite Nat2Z.inj_succ, Z.mul_succ_l. destruct (nLastRefresh n) as [last|]; lia.
  - specialize (IH (mkNudge (nToken n) has (nLastRefresh n)) later Hin). cbn [nLastRefresh] in IH |- *. destruct (nLastRefresh n); lia.
Qed.

(** C39: whoever asks, and however often, the sources are not nudged more than
    once in ten seconds: the nudges an endpoint lets through in a stretch of time
    number at most one and one for every ten seconds of it. *)
Theorem nudges_bounded token rs start finish :
  in_time start rs finish →
  Z.of_nat (length (nudges (mkNudge token false None) rs)) ≤ 1 + (finish - start) / refreshMinInterval.
Proof.
  intros Hin. pose proof (nudges_after (mkNudge token false None) rs start finish Hin) as Hb. cbn [nLastRefresh] in Hb.
  assert (Hpos : 0 < refreshMinInterval) by (unfold refreshMinInterval, second; lia).
  enough (Z.of_nat (length (nudges (mkNudge token false None) rs)) - 1 ≤ (finish - start) / refreshMinInterval) by lia.
  apply Z.div_le_lower_bound; lia.
Qed.

End endpoints.

Module EndpointExamples.

(** Any digest will do that tells these tokens apart. *)
Definition digest (s : string) : string := s.

Definition ask (meth token : string) : Request :=
  mkRequest meth "www.example" redirectsRefreshPath "" "" false false "192.0.2.1:1" {["Authorization" := ["Bearer " +:+ token]]} [] 0 None false false.

Definition asked : list (Z * Z * bool * Request) :=
  [(0, 1, true, ask "POST" "secret"); (2, 3, true, ask "POST" "guess"); (4, 5, true, ask "POST" "secret");
   (10 * second + 1, 10 * second + 2, true, ask "POST" "secret")].

Lemma nudges_bounded_witness :
  nudges digest (mkNudge "secret" false None) asked = [1; 10 * second + 2] ∧
  Z.of_nat (length (nudges digest (mkNudge "secret" false None) asked)) ≤ 1 + (10 * second + 2 - 0) / refreshMinInterval.
Proof.
  split; [vm_compute; reflexivity|]. apply (nudges_bounded digest "secret" asked 0 (10 * second + 2)). repeat split; vm_compute; discriminate.
Defined.

(** The disabled endpoint answers by itself: the service that has the rest of
    the host never sees the request. *)
Example hidden_answers_itself :
  (λ x, sent_statuses x.1.2) <$> serveOwn digest 0 0 (mkEndpoints (Some (mkNudge "" true None)) None) (ask "GET" "") newRW = Some [404].
Proof. vm_compute. reflexivity. Qed.

End EndpointExamples.
