(* ===== verification/LoadBalancer.v ===== *)
(** * The load balancer: [internal/server/load_balancer.go], [session_affinity.go]

    The targets of one deployment, the pools of healthy writers and readers,
    and the choice of a target for a request: session pin first, then the
    rotation of the pool the request belongs to.  A target is named by its
    position in [all]; the pools are lists of positions, as they are lists of
    pointers in the code.  [waitForHealthyContext] is a context numbered by
    the resume that created it; [markHealthy] cancels the current one. *)
From S2P Require Import Prelude GoStrings Target Http.

(** ** Data *)

Definition LoadBalancerAffinityOptOutHeader : string := "X-Writer-Affinity".
Definition LoadBalancerTargetHeader : string := "X-Kamal-Target".
Definition LoadBalancerWriteCookieName : string := "kamal-writer".
Definition DefaultSessionAffinityCookieName : string := "kamal-session".

(** [sessionPinner]: the cookie name and the opaque identifier of each target
    (a keyed digest of its address). *)
Record sessionPinner := mkPinner { cookieName : string; ids : list string }.

Record LoadBalancer := mkLoadBalancer {
  all : list Target;
  writers : list nat;
  readers : list nat;
  writerAffinityTimeout : Z;
  readTargetsAcceptWebsockets : bool;
  writerIndex : Z;
  readerIndex : Z;
  multiTarget : bool;
  hasReaders : bool;
  weighted : bool;
  persistentHealthChecks : bool;
  waitForHealthyContext : nat;
  cancelledContexts : gset nat;
  sessionAffinity : option sessionPinner }.

Inductive LBError := ErrorNoHealthyTargets | ErrorDraining.

(** *** Field updates *)

Definition with_all (ts : list Target) (lb : LoadBalancer) : LoadBalancer :=
  mkLoadBalancer ts (writers lb) (readers lb) (writerAffinityTimeout lb)
    (readTargetsAcceptWebsockets lb) (writerIndex lb) (readerIndex lb) (multiTarget lb)
    (hasReaders lb) (weighted lb) (persistentHealthChecks lb) (waitForHealthyContext lb)
    (cancelledContexts lb) (sessionAffinity lb).

Definition with_pools (ws rs : list nat) (lb : LoadBalancer) : LoadBalancer :=
  mkLoadBalancer (all lb) ws rs (writerAffinityTimeout lb)
    (readTargetsAcceptWebsockets lb) (writerIndex lb) (readerIndex lb) (multiTarget lb)
    (hasReaders lb) (weighted lb) (persistentHealthChecks lb) (waitForHealthyContext lb)
    (cancelledContexts lb) (sessionAffinity lb).

Definition with_indices (wi ri : Z) (lb : LoadBalancer) : LoadBalancer :=
  mkLoadBalancer (all lb) (writers lb) (readers lb) (writerAffinityTimeout lb)
    (readTargetsAcceptWebsockets lb) wi ri (multiTarget lb)
    (hasReaders lb) (weighted lb) (persistentHealthChecks lb) (waitForHealthyContext lb)
    (cancelledContexts lb) (sessionAffinity lb).

Definition with_context (c : nat) (s : gset nat) (lb : LoadBalancer) : LoadBalancer :=
  mkLoadBalancer (all lb) (writers lb) (readers lb) (writerAffinityTimeout lb)
    (readTargetsAcceptWebsockets lb) (writerIndex lb) (readerIndex lb) (multiTarget lb)
    (hasReaders lb) (weighted lb) (persistentHealthChecks lb) c s (sessionAffinity lb).

Definition with_persistent (b : bool) (lb : LoadBalancer) : LoadBalancer :=
  mkLoadBalancer (all lb) (writers lb) (readers lb) (writerAffinityTimeout lb)
    (readTargetsAcceptWebsockets lb) (writerIndex lb) (readerIndex lb) (multiTarget lb)
    (hasReaders lb) (weighted lb) b (waitForHealthyContext lb)
    (cancelledContexts lb) (sessionAffinity lb).

(** ** Health *)

Definition is_healthy (t : Target) : bool := bool_decide (state t = TargetStateHealthy).

(** The positions of the healthy targets with the given read-only mark, in the
    order of [all]: what the loop of [updateHealthyTargets] appends. *)
Fixpoint healthy_from (b : bool) (i : nat) (ts : list Target) : list nat :=
  match ts with
  | [] => []
  | t :: ts =>
      if is_healthy t && Bool.eqb (readonly t) b then i :: healthy_from b (S i) ts
      else healthy_from b (S i) ts
  end.

Definition healthyCount (ts : list Target) : nat := length (List.filter is_healthy ts).

Definition BeginHealthChecks (ts : list Target) : list Target := map (set_healthcheck true) ts.
Definition StopHealthChecks (ts : list Target) : list Target := map (set_healthcheck false) ts.

Definition updateHealthyTargets (lb : LoadBalancer) : LoadBalancer :=
  let ws := healthy_from false 0 (all lb) in
  let rs := healthy_from true 0 (all lb) in
  let lb1 := with_pools ws rs lb in
  let lb2 := if negb (multiTarget lb) && Nat.eqb (length ws) 1 &&
                negb (persistentHealthChecks lb)
             then with_all (StopHealthChecks (all lb1)) lb1 else lb1 in
  if Nat.eqb (healthyCount (all lb)) (length (all lb))
  then with_context (waitForHealthyContext lb2)
         ({[waitForHealthyContext lb2]} ∪ cancelledContexts lb2) lb2
  else lb2.

Definition NewLoadBalancer (targets : list Target) (affinity : Z) (acceptWebsockets : bool)
  : LoadBalancer :=
  mkLoadBalancer (BeginHealthChecks targets) [] [] affinity acceptWebsockets 0 0
    (Nat.ltb 1 (length targets)) (HasReaders targets) (hasWeights targets) false 0 ∅ None.

(** *** Locked sections

    Each of these is one critical section or one call on every target; the
    operations below are sequences of them, and other goroutines may run
    between any two. *)
Definition setState (i : nat) (s : TargetState) (lb : LoadBalancer) : LoadBalancer :=
  with_all (alter (set_state s) i (all lb)) lb.

Definition setStates (s : TargetState) (lb : LoadBalancer) : LoadBalancer :=
  foldl (λ lb i, setState i s lb) lb (seq 0 (length (all lb))).

Definition beginProbes (lb : LoadBalancer) : LoadBalancer :=
  with_all (BeginHealthChecks (all lb)) lb.

Definition stopProbes (lb : LoadBalancer) : LoadBalancer :=
  with_all (StopHealthChecks (all lb)) lb.

Definition clearPools (lb : LoadBalancer) : LoadBalancer := with_pools [] [] lb.

Definition rearm (lb : LoadBalancer) : LoadBalancer :=
  with_context (S (waitForHealthyContext lb)) (cancelledContexts lb) lb.

(** *** Operations *)

Definition MarkAllHealthy (lb : LoadBalancer) : LoadBalancer :=
  updateHealthyTargets (setStates TargetStateHealthy lb).

Definition RecheckHealth (lb : LoadBalancer) : LoadBalancer :=
  beginProbes (with_persistent true lb).

Definition SuspendForSleep (lb : LoadBalancer) : LoadBalancer :=
  clearPools (setStates TargetStateUnhealthy (stopProbes lb)).

Definition ResumeFromSleep (lb : LoadBalancer) : LoadBalancer :=
  beginProbes (setStates TargetStateAdding (rearm lb)).

Definition Dispose (lb : LoadBalancer) : LoadBalancer := stopProbes lb.

Definition HealthyTargets (lb : LoadBalancer) : list nat := writers lb ++ readers lb.

(** [WaitUntilHealthy] returns nil exactly when the context it captured was
    cancelled before its deadline. *)
Definition becameHealthy (c : nat) (lb : LoadBalancer) : bool :=
  bool_decide (c ∈ cancelledContexts lb).

(** A probe of target [i] reports; the pools are only updated by the
    [TargetStateChanged] call that may follow. *)
Definition probeCompleted (i : nat) (success : bool) (lb : LoadBalancer) : LoadBalancer :=
  with_all (alter (λ t, (HealthCheckCompleted success t).1) i (all lb)) lb.

Definition TargetStateChanged (lb : LoadBalancer) : LoadBalancer := updateHealthyTargets lb.

(** ** Choosing a target *)

Definition isWebSocketRequest (r : Request) : bool :=
  String.eqb (Method r) MethodGet &&
  EqualFold (hdr_get (ReqHeader r) "Upgrade") "websocket" &&
  Contains (ToLower (hdr_get (ReqHeader r) "Connection")) "upgrade".

Definition isReadRequest (lb : LoadBalancer) (r : Request) : bool :=
  is_get_or_head r && (readTargetsAcceptWebsockets lb || negb (isWebSocketRequest r)).

Definition UnixMilli (t : Z) : Z := t / millisecond.

Definition hasWriteCookie (now : Z) (r : Request) : bool :=
  match req_cookie r LoadBalancerWriteCookieName ≫= ParseInt with
  | Some expires => UnixMilli now <? expires
  | None => false
  end.

(** [setWriterAffinityCookie], unless the target opted out; the opt-out header
    never reaches the client. *)
Definition setWriterAffinityCookie (now timeout : Z) (w : ResponseWriter) : ResponseWriter :=
  let w1 :=
    if negb (String.eqb (hdr_get (rwHeader w) LoadBalancerAffinityOptOutHeader) "false")
    then let expires := now + timeout in
         SetCookie (mkCookie LoadBalancerWriteCookieName (Itoa (UnixMilli expires)) false
                      (Some (expires + second))) w
    else w in
  rw_set_header (hdr_del (rwHeader w1) LoadBalancerAffinityOptOutHeader) w1.

(** [loadBalancerResponseWriter]. *)
Record loadBalancerResponseWriter := mkLBRW {
  lbrwUnder : ResponseWriter;
  lbrwHeaderWritten : bool;
  lbrwTimeout : Z }.

Definition lbrwWriteHeader (now code : Z) (w : loadBalancerResponseWriter)
  : loadBalancerResponseWriter :=
  mkLBRW (WriteHeader code (setWriterAffinityCookie now (lbrwTimeout w) (lbrwUnder w))) true
    (lbrwTimeout w).

Definition lbrwWrite (now : Z) (b : string) (w : loadBalancerResponseWriter)
  : loadBalancerResponseWriter :=
  let w := if lbrwHeaderWritten w then w else lbrwWriteHeader now 200 w in
  mkLBRW (WriteBody b (lbrwUnder w)) (lbrwHeaderWritten w) (lbrwTimeout w).

(** [nextTarget]: the rotation of the pool the request belongs to. *)
Definition rotate (pool : list nat) (index : Z) : Z * option nat :=
  let index' := (index + 1) mod Z.of_nat (length pool) in
  (index', pool !! Z.to_nat index').

Definition nextTarget (reader : bool) (lb : LoadBalancer) : LoadBalancer * option nat :=
  if reader && negb (Nat.eqb (length (readers lb)) 0) then
    if weighted lb
    then let '(ts, c) := nextWeighted (all lb) (readers lb) in (with_all ts lb, c)
    else let '(i, c) := rotate (readers lb) (readerIndex lb) in
         (with_indices (writerIndex lb) i lb, c)
  else if negb (Nat.eqb (length (writers lb)) 0) then
    if weighted lb
    then let '(ts, c) := nextWeighted (all lb) (writers lb) in (with_all ts lb, c)
    else let '(i, c) := rotate (writers lb) (writerIndex lb) in
         (with_indices i (readerIndex lb) lb, c)
  else (lb, None).

Definition pinnedID (p : sessionPinner) (r : Request) : string :=
  default "" (req_cookie r (cookieName p)).

Definition pinnedTarget (r : Request) (reader : bool) (lb : LoadBalancer) : option nat :=
  match sessionAffinity lb with
  | None => None
  | Some p =>
      if IgnoreSessionPin r then None
      else if reader && negb (Nat.eqb (length (readers lb)) 0) then None
      else let id := pinnedID p r in
           if String.eqb id "" then None
           else List.find (λ i, String.eqb (default "" (ids p !! i)) id) (writers lb)
  end.

(** [WithSessionAffinity]: the digest stands for the keyed HMAC of an address. *)
Definition WithSessionAffinity (digest : string → string) (enabled : bool) (cookie : string)
    (lb : LoadBalancer) : LoadBalancer :=
  if enabled
  then mkLoadBalancer (all lb) (writers lb) (readers lb) (writerAffinityTimeout lb)
         (readTargetsAcceptWebsockets lb) (writerIndex lb) (readerIndex lb) (multiTarget lb)
         (hasReaders lb) (weighted lb) (persistentHealthChecks lb) (waitForHealthyContext lb)
         (cancelledContexts lb)
         (Some (mkPinner (if String.eqb cookie "" then DefaultSessionAffinityCookieName else cookie)
                  (map (λ t, digest (address t)) (all lb))))
  else lb.

(** [cookieFor]: the pin to hand back, none when the request already has it. *)
Definition cookieFor (p : sessionPinner) (r : Request) (i : nat) : option Cookie :=
  let id := default "" (ids p !! i) in
  if String.eqb id "" || String.eqb id (pinnedID p r) then None
  else Some (mkCookie (cookieName p) id (IsTLS r) None).

(** [sessionAffinityWriter]: absent until a pin is first staged. *)
Record sessionAffinityWriter := mkSAW { sawCookie : option Cookie; sawHeaderWritten : bool }.

Definition target_readonly (lb : LoadBalancer) (i : nat) : bool :=
  match all lb !! i with Some t => readonly t | None => false end.

Definition pinSession (lb : LoadBalancer) (w : option sessionAffinityWriter) (r : Request)
    (i : nat) : option sessionAffinityWriter :=
  match sessionAffinity lb with
  | None => w
  | Some p =>
      if target_readonly lb i then w
      else let cookie := cookieFor p r i in
           match w with
           | Some pinned => Some (mkSAW cookie (sawHeaderWritten pinned))
           | None => match cookie with
                     | None => None
                     | Some c => Some (mkSAW (Some c) false)
                     end
           end
  end.

Definition clearSessionPin (w : option sessionAffinityWriter) : option sessionAffinityWriter :=
  (λ pinned, mkSAW None (sawHeaderWritten pinned)) <$> w.

Definition sawWriteHeader (code : Z) (ws : sessionAffinityWriter * ResponseWriter)
  : sessionAffinityWriter * ResponseWriter :=
  let '(s, w) := ws in
  let w1 := match sawHeaderWritten s, sawCookie s with
            | false, Some c => SetCookie c w
            | _, _ => w
            end in
  (mkSAW (sawCookie s) true, WriteHeader code w1).

(** [claimTarget]: the chosen target is entered into its in-flight requests. *)
Definition treatAsRead (now : Z) (r : Request) (lb : LoadBalancer) : bool :=
  isReadRequest lb r && negb (hasWriteCookie now r).

Definition claimTarget (now : Z) (r : Request) (req : nat) (lb : LoadBalancer)
  : LoadBalancer * result LBError (nat * bool) :=
  let readRequest := isReadRequest lb r in
  let reader := treatAsRead now r lb in
  let '(lb', chosen) :=
    match pinnedTarget r reader lb with
    | Some i => (lb, Some i)
    | None => nextTarget reader lb
    end in
  match chosen with
  | None => (lb', Err ErrorNoHealthyTargets)
  | Some i =>
      match all lb' !! i ≫= Target.StartRequest req with
      | Some t => (with_all (<[i := t]> (all lb')) lb', Ok (i, readRequest))
      | None => (lb', Err ErrorDraining)
      end
  end.

(** [setTargetHeader]: the target's address, after those earlier hops recorded
    when they are trusted. *)
Definition setTargetHeader (forwardHeaders : bool) (addr : string) (r : Request) : Request :=
  let prior := default [] (ReqHeader r !! LoadBalancerTargetHeader) in
  let address := match forwardHeaders, prior with
                 | true, _ :: _ => Join prior ", " +:+ ", " +:+ addr
                 | _, _ => addr
                 end in
  with_ReqHeader (hdr_set (ReqHeader r) LoadBalancerTargetHeader address) r.

(** [StartRequest] without retries: what the returned closure forwards, or
    [None] for the 503 answered in place. *)
Record Forward := mkForward {
  fwdTarget : nat;
  fwdRequest : Request;
  fwdWriterAffinity : bool;
  fwdSession : option sessionAffinityWriter }.

Definition StartRequest (forwardHeaders : bool) (now : Z) (r : Request) (req : nat)
    (lb : LoadBalancer) : LoadBalancer * option Forward :=
  match claimTarget now r req lb with
  | (lb', Err _) => (lb', None)
  | (lb', Ok (i, readRequest)) =>
      let addr := match all lb' !! i with Some t => address t | None => "" end in
      (lb', Some (mkForward i (setTargetHeader forwardHeaders addr r)
                    ((0 <? writerAffinityTimeout lb') && hasReaders lb' && negb readRequest)
                    (pinSession lb' None r i)))
  end.

(** ** The load balancer as a transition system

    Every critical section another goroutine can run, in any order; the
    operations are sequences of them ([SuspendForSleep_steps] and the like).
    A probe result and the pool update it triggers are separate steps, since
    the target's lock is released between them; [updateHealthyTargets] reads
    all states at once. *)
Module LB.

Inductive step (lb : LoadBalancer) : LoadBalancer → Prop :=
| step_probe i success : step lb (probeCompleted i success lb)
| step_update : step lb (updateHealthyTargets lb)
| step_state i s : step lb (setState i s lb)
| step_end i req : step lb (with_all (alter (endInflightRequest req) i (all lb)) lb)
| step_claim now r req : step lb (claimTarget now r req lb).1
| step_persistent : step lb (with_persistent true lb)
| step_begin : step lb (beginProbes lb)
| step_stop : step lb (stopProbes lb)
| step_clear : step lb (clearPools lb)
| step_rearm : step lb (rearm lb).

(** The pools hold positions of targets of the right kind, each once. *)
Definition pool_ok (ts : list Target) (b : bool) (pool : list nat) : Prop :=
  NoDup pool ∧ ∀ i, i ∈ pool → ∃ t, ts !! i = Some t ∧ readonly t = b.

Record wf (lb : LoadBalancer) : Prop := {
  wf_writers : pool_ok (all lb) false (writers lb);
  wf_readers : pool_ok (all lb) true (readers lb);
  wf_writerIndex : 0 ≤ writerIndex lb;
  wf_readerIndex : 0 ≤ readerIndex lb;
  wf_contexts : ∀ c, c ∈ cancelledContexts lb → (c ≤ waitForHealthyContext lb)%nat }.

Definition all_healthy (lb : LoadBalancer) : Prop :=
  Forall (λ t, state t = TargetStateHealthy) (all lb).

(** A load balancer is made with or without session pins, and keeps to that. *)
Definition reachable (targets : list Target) (affinity : Z) (ws : bool) (lb : LoadBalancer)
  : Prop :=
  ∃ digest enabled cookie,
    rtc step (WithSessionAffinity digest enabled cookie (NewLoadBalancer targets affinity ws)) lb.

(** What no step changes: the addresses, marks and weights of the targets. *)
Definition identity (t : Target) : string * bool * Z := (address t, readonly t, weight t).

Definition same_targets (ts ts' : list Target) : Prop := map identity ts = map identity ts'.

End LB.

(** ** Lemmas *)

Lemma map_alter_same {A B} (π : A → B) (f : A → A) i (l : list A) :
  (∀ x, π (f x) = π x) → map π (alter f i l) = map π l.
Proof.
  intros H. revert i. induction l as [|x l IH]; intros [|i]; cbn; try done.
  - by rewrite H.
  - f_equal. apply (IH i).
Qed.

Lemma map_insert_same {A B} (π : A → B) i x y (l : list A) :
  l !! i = Some x → π y = π x → map π (<[i := y]> l) = map π l.
Proof.
  revert i. induction l as [|z l IH]; intros [|i]; cbn; try done.
  - by intros [= ->] ->.
  - intros. f_equal. by apply IH.
Qed.

(** Every field of a target but its credit survives a selection. *)
Section projection.
Context {B : Type} (π : Target → B) (Hπ : ∀ z t, π (add_credit z t) = π t).

Lemma nextWeighted_map ts pool : map π (nextWeighted ts pool).1 = map π ts.
Proof.
  unfold nextWeighted.
  assert (H : ∀ acc, map π (foldl nextWeighted_step acc pool).1.1 = map π acc.1.1).
  { induction pool as [|i pool IH]; intros acc; cbn [foldl]; [done|]. rewrite IH.
    destruct acc as [[ts' total] [c|]]; cbn; [case_goal; cbn|]; apply map_alter_same; auto. }
  specialize (H (ts, 0, None)).
  destruct (foldl nextWeighted_step (ts, 0, None) pool) as [[ts' total] [c|]]; cbn in *; [|done].
  rewrite map_alter_same; auto.
Qed.

Lemma nextTarget_map reader lb : map π (all (nextTarget reader lb).1) = map π (all lb).
Proof.
  unfold nextTarget.
  destruct (reader && _); [|destruct (negb _)]; [..|done]; destruct (weighted lb); try done.
  - pose proof (nextWeighted_map (all lb) (readers lb)). by destruct (nextWeighted _ _).
  - pose proof (nextWeighted_map (all lb) (writers lb)). by destruct (nextWeighted _ _).
Qed.
End projection.

(** What [nextTarget] leaves alone. *)
Lemma nextTarget_frame reader lb :
  let lb' := (nextTarget reader lb).1 in
  writers lb' = writers lb ∧ readers lb' = readers lb ∧
  waitForHealthyContext lb' = waitForHealthyContext lb ∧
  cancelledContexts lb' = cancelledContexts lb ∧
  sessionAffinity lb' = sessionAffinity lb ∧ weighted lb' = weighted lb.
Proof.
  cbn zeta. unfold nextTarget.
  destruct (reader && _); [|destruct (negb _)]; [..|done]; destruct (weighted lb) eqn:Hw.
  all: try destruct (nextWeighted _ _); cbn; auto 10.
Qed.

(** The part of a load balancer no request changes. *)
Definition settled (lb : LoadBalancer) :=
  (map LB.identity (all lb), map state (all lb), (writers lb, readers lb),
   (waitForHealthyContext lb, cancelledContexts lb), sessionAffinity lb, weighted lb).

Lemma nextTarget_settled reader lb : settled (nextTarget reader lb).1 = settled lb.
Proof.
  unfold settled. rewrite !nextTarget_map by done.
  destruct (nextTarget_frame reader lb) as (-> & -> & -> & -> & -> & ->). done.
Qed.

(** [claimTarget], unfolded into the choice and the entry of the request. *)
Definition choose (now : Z) (r : Request) (lb : LoadBalancer) : LoadBalancer * option nat :=
  match pinnedTarget r (treatAsRead now r lb) lb with
  | Some i => (lb, Some i)
  | None => nextTarget (treatAsRead now r lb) lb
  end.

Lemma claimTarget_choose now r req lb :
  claimTarget now r req lb =
  match choose now r lb with
  | (lb', None) => (lb', Err ErrorNoHealthyTargets)
  | (lb', Some i) =>
      match all lb' !! i ≫= Target.StartRequest req with
      | Some t => (with_all (<[i := t]> (all lb')) lb', Ok (i, isReadRequest lb r))
      | None => (lb', Err ErrorDraining)
      end
  end.
Proof. unfold claimTarget, choose. by destruct (pinnedTarget _ _ _). Qed.

Lemma choose_settled now r lb : settled (choose now r lb).1 = settled lb.
Proof. unfold choose. destruct (pinnedTarget _ _ _); [done|apply nextTarget_settled]. Qed.

Lemma StartRequest_inv req t t' :
  Target.StartRequest req t = Some t' →
  state t ≠ TargetStateDraining ∧ LB.identity t' = LB.identity t ∧ state t' = state t ∧
  inflight t' = <[req := mkInflight false false]> (inflight t).
Proof. unfold Target.StartRequest. by destruct (state t) eqn:?; intros [= <-]. Qed.

Lemma claimTarget_settled now r req lb : settled (claimTarget now r req lb).1 = settled lb.
Proof.
  rewrite claimTarget_choose. pose proof (choose_settled now r lb) as H.
  destruct (choose now r lb) as [lb' [i|]]; cbn in H; [|done].
  destruct (all lb' !! i) as [t|] eqn:Hi; cbn; [|done].
  destruct (Target.StartRequest req t) as [t'|] eqn:Hs; cbn; [|done].
  apply StartRequest_inv in Hs as (_ & Hid & Hst & _).
  rewrite <-H. unfold settled. cbn.
  by rewrite !(map_insert_same _ i t t' (all lb')).
Qed.

Lemma choose_index now r lb :
  0 ≤ writerIndex lb → 0 ≤ readerIndex lb →
  0 ≤ writerIndex (choose now r lb).1 ∧ 0 ≤ readerIndex (choose now r lb).1.
Proof.
  intros Hw Hr. unfold choose. destruct (pinnedTarget _ _ _); [done|]. unfold nextTarget.
  destruct (_ && _) eqn:E1; [|destruct (negb (Nat.eqb (length (writers lb)) 0)) eqn:E2];
    [..|done]; destruct (weighted lb); cbn.
  - by destruct (nextWeighted _ _).
  - split; [done|]. apply andb_true_iff in E1 as [_ E1].
    apply negb_true_iff, Nat.eqb_neq in E1. apply Z.mod_pos_bound. lia.
  - by destruct (nextWeighted _ _).
  - apply negb_true_iff, Nat.eqb_neq in E2. split; [|done]. apply Z.mod_pos_bound. lia.
Qed.

(** *** Pools *)

Lemma elem_of_healthy_from b k ts i :
  i ∈ healthy_from b k ts ↔
  ∃ j t, i = (k + j)%nat ∧ ts !! j = Some t ∧ state t = TargetStateHealthy ∧ readonly t = b.
Proof.
  revert k. induction ts as [|t ts IH]; intros k; cbn.
  - rewrite elem_of_nil. split; [done|]. intros (j & ? & _ & ? & _). done.
  - assert (Hrec : i ∈ healthy_from b (S k) ts ↔ ∃ j u, i = (k + S j)%nat ∧ ts !! j = Some u ∧
      state u = TargetStateHealthy ∧ readonly u = b).
    { rewrite IH. by setoid_rewrite <-plus_n_Sm. }
    destruct (is_healthy t && Bool.eqb (readonly t) b) eqn:E.
    + apply andb_true_iff in E as [E1%bool_decide_eq_true E2%eqb_prop].
      rewrite elem_of_cons, Hrec. split.
      * intros [->|(j & u & ? & ?)]; [|by exists (S j), u].
        exists O, t. rewrite Nat.add_0_r. done.
      * intros ([|j] & u & -> & Hu & ?); [left; lia|right; by exists j, u].
    + rewrite Hrec. split; [intros (j & u & ? & ?); by exists (S j), u|].
      intros ([|j] & u & -> & Hu & Hs & Hb); [|by exists j, u]. exfalso.
      injection Hu as ->. subst b. unfold is_healthy in E.
      rewrite bool_decide_true, eqb_reflx in E by done. done.
Qed.

Lemma NoDup_healthy_from b k ts : NoDup (healthy_from b k ts).
Proof.
  revert k. induction ts as [|t ts IH]; intros k; cbn; [constructor|].
  destruct (_ && _); [|done]. constructor; [|done].
  rewrite elem_of_healthy_from. intros (j & ? & ? & _). lia.
Qed.

Lemma pool_ok_healthy b ts : LB.pool_ok ts b (healthy_from b 0 ts).
Proof.
  split; [apply NoDup_healthy_from|].
  intros i (j & t & -> & Ht & _ & Hb)%elem_of_healthy_from. eauto.
Qed.

Lemma pool_ok_targets ts ts' b pool :
  map LB.identity ts' = map LB.identity ts → LB.pool_ok ts b pool → LB.pool_ok ts' b pool.
Proof.
  intros Heq [Hnd Hp]. split; [done|]. intros i (t & Ht & Hb)%Hp.
  assert (Hm : map LB.identity ts' !! i = Some (LB.identity t))
    by (rewrite Heq, list_lookup_fmap, Ht; done).
  rewrite list_lookup_fmap in Hm. destruct (ts' !! i) as [t'|] eqn:E; [|done].
  exists t'. split; [done|]. unfold LB.identity in Hm. cbn in Hm. by simplify_eq.
Qed.

Lemma healthyCount_all ts :
  Nat.eqb (healthyCount ts) (length ts) = true ↔ Forall (λ t, state t = TargetStateHealthy) ts.
Proof.
  unfold healthyCount. rewrite Nat.eqb_eq.
  assert (H : ∀ l, (length (List.filter is_healthy l) ≤ length l)%nat).
  { induction l as [|t l IH]; cbn; [done|]. destruct (is_healthy t); cbn; lia. }
  induction ts as [|t ts IH]; cbn; [split; [constructor|done]|].
  rewrite Forall_cons, <-IH. specialize (H ts). unfold is_healthy at 1.
  destruct (bool_decide_reflect (state t = TargetStateHealthy)); cbn.
  - split; [intros [= ?]; auto|intros [_ ->]; done].
  - split; [lia|]. intros [??]. done.
Qed.

(** *** Invariant *)

(** An update of the targets that keeps their identities keeps the invariant. *)
Lemma wf_with_all ts lb :
  map LB.identity ts = map LB.identity (all lb) → LB.wf lb → LB.wf (with_all ts lb).
Proof. intros Heq [????]. split; cbn; [by eapply pool_ok_targets..|done|done|done]. Qed.

Lemma wf_markHealthy lb :
  LB.wf lb → LB.wf (with_context (waitForHealthyContext lb)
                      ({[waitForHealthyContext lb]} ∪ cancelledContexts lb) lb).
Proof.
  intros [????]. split; cbn; try done.
  intros c [->%elem_of_singleton|?]%elem_of_union; [done|auto].
Qed.

Lemma wf_updateHealthyTargets lb : LB.wf lb → LB.wf (updateHealthyTargets lb).
Proof.
  intros [_ _ Hw Hr Hc]. unfold updateHealthyTargets.
  set (lb1 := with_pools _ _ lb).
  assert (LB.wf lb1) by (split; try done; apply pool_ok_healthy).
  assert (LB.wf (with_all (StopHealthChecks (all lb1)) lb1)).
  { apply wf_with_all; [|done]. unfold StopHealthChecks. by rewrite map_map. }
  cbv zeta. repeat case_goal; auto using wf_markHealthy.
Qed.

Lemma wf_claimTarget now r req lb : LB.wf lb → LB.wf (claimTarget now r req lb).1.
Proof.
  intros [Hws Hrs Hw Hr Hc]. pose proof (claimTarget_settled now r req lb) as Hs.
  assert (0 ≤ writerIndex (claimTarget now r req lb).1 ∧
          0 ≤ readerIndex (claimTarget now r req lb).1) as [Hw' Hr'].
  { rewrite claimTarget_choose. pose proof (choose_index now r lb Hw Hr) as Hi.
    destruct (choose now r lb) as [lb' [i|]]; cbn in *; [|done].
    by destruct (all lb' !! i ≫= _). }
  unfold settled in Hs. injection Hs as Hid Hst Hws' Hrs' Hctx Hcan _ _.
  split; rewrite ?Hws', ?Hrs', ?Hctx, ?Hcan; try done; by eapply pool_ok_targets.
Qed.
Lemma updateHealthyTargets_targets lb :
  map LB.identity (all (updateHealthyTargets lb)) = map LB.identity (all lb) ∧
  sessionAffinity (updateHealthyTargets lb) = sessionAffinity lb.
Proof.
  unfold updateHealthyTargets. cbv zeta.
  repeat case_goal; cbn; unfold StopHealthChecks; by rewrite ?map_map.
Qed.

(** No step changes which targets there are, nor the pinner. *)
Lemma step_targets lb lb' :
  LB.step lb lb' →
  map LB.identity (all lb') = map LB.identity (all lb) ∧
  sessionAffinity lb' = sessionAffinity lb.
Proof.
  destruct 1; try (split; [|done]); try done.
  - cbn. by rewrite map_alter_same.
  - apply updateHealthyTargets_targets.
  - cbn. by rewrite map_alter_same.
  - cbn. by rewrite map_alter_same.
  - pose proof (claimTarget_settled now r req lb) as H. unfold settled in H. by simplify_eq.
  - cbn. unfold BeginHealthChecks. by rewrite map_map.
  - cbn. unfold StopHealthChecks. by rewrite map_map.
Qed.

Lemma steps_targets lb lb' :
  rtc LB.step lb lb' →
  map LB.identity (all lb') = map LB.identity (all lb) ∧
  sessionAffinity lb' = sessionAffinity lb.
Proof.
  induction 1 as [|x y z [H1 H2]%step_targets _ [IH1 IH2]]; [done|]. split; congruence.
Qed.

Lemma wf_step lb lb' : LB.step lb lb' → LB.wf lb → LB.wf lb'.
Proof.
  intros Hstep Hwf. pose proof (step_targets _ _ Hstep) as [Hid _].
  destruct Hstep; try (by apply wf_with_all).
  - by apply wf_updateHealthyTargets.
  - by apply wf_claimTarget.
  - by destruct Hwf.
  - destruct Hwf. split; cbn; try done; by split; [constructor|intros ? ?%elem_of_nil].
  - destruct Hwf as [???? Hc]. split; try done. cbn. intros c ?%Hc. lia.
Qed.

Lemma wf_steps lb lb' : rtc LB.step lb lb' → LB.wf lb → LB.wf lb'.
Proof. induction 1; eauto using wf_step. Qed.

Lemma wf_New targets affinity ws : LB.wf (NewLoadBalancer targets affinity ws).
Proof.
  split; cbn; try lia; try by (split; [constructor|intros ? ?%elem_of_nil]).
  set_solver.
Qed.

Lemma wf_pinned digest enabled cookie lb : LB.wf lb → LB.wf (WithSessionAffinity digest enabled cookie lb).
Proof. intros []. by destruct enabled. Qed.

Lemma wf_reachable targets affinity ws lb : LB.reachable targets affinity ws lb → LB.wf lb.
Proof. intros (digest & enabled & cookie & H). eapply wf_steps; [exact H|]. apply wf_pinned, wf_New. Qed.

#[export] Hint Resolve wf_reachable wf_New : go.

(** *** Operations as sequences of critical sections *)

(** The targets themselves stay what they are. *)
Lemma identity_healthchecks b ts : map LB.identity (map (set_healthcheck b) ts) = map LB.identity ts.
Proof. by rewrite map_map. Qed.

Lemma step_same_targets lb lb' : LB.step lb lb' → LB.same_targets (all lb) (all lb').
Proof.
  unfold LB.same_targets. intros Hstep. symmetry.
  destruct Hstep as [i success| |i s|i req|now r req| | | | |]; cbn; try done.
  - by apply map_alter_same.
  - unfold updateHealthyTargets, StopHealthChecks.
    destruct (_ && _ && _)%bool, (Nat.eqb (healthyCount _) _); cbn; by rewrite ?identity_healthchecks.
  - by apply map_alter_same.
  - by apply map_alter_same.
  - pose proof (claimTarget_settled now r req lb) as H. unfold settled in H. congruence.
  - apply identity_healthchecks.
  - apply identity_healthchecks.
Qed.

Lemma steps_same_targets lb lb' : rtc LB.step lb lb' → LB.same_targets (all lb) (all lb').
Proof.
  induction 1 as [|x y z Hxy _ IH]; [done|]. unfold LB.same_targets in *.
  rewrite (step_same_targets x y Hxy). exact IH.
Qed.

Lemma setStates_steps s lb : rtc LB.step lb (setStates s lb).
Proof.
  unfold setStates. generalize (seq 0 (length (all lb))). intros l. revert lb.
  induction l as [|i l IH]; intros lb; cbn; [done|].
  eapply rtc_l; [apply (LB.step_state _ i s)|apply IH].
Qed.

Lemma SuspendForSleep_steps lb : rtc LB.step lb (SuspendForSleep lb).
Proof.
  eapply rtc_l; [apply LB.step_stop|]. eapply rtc_r; [apply setStates_steps|apply LB.step_clear].
Qed.

Lemma ResumeFromSleep_steps lb : rtc LB.step (rearm lb) (ResumeFromSleep lb).
Proof. eapply rtc_r; [apply setStates_steps|apply LB.step_begin]. Qed.

Lemma MarkAllHealthy_steps lb : rtc LB.step lb (MarkAllHealthy lb).
Proof. eapply rtc_r; [apply setStates_steps|apply LB.step_update]. Qed.

Lemma RecheckHealth_steps lb : rtc LB.step lb (RecheckHealth lb).
Proof. eapply rtc_l; [apply LB.step_persistent|apply rtc_once, LB.step_begin]. Qed.

(** *** Choices *)

Lemma rotate_elem pool index :
  pool ≠ [] → ∃ i, (rotate pool index).2 = Some i ∧ i ∈ pool.
Proof.
  intros Hne. unfold rotate. cbn.
  assert (0 < Z.of_nat (length pool)) by (destruct pool; cbn; [done|lia]).
  pose proof (Z.mod_pos_bound (index + 1) (Z.of_nat (length pool))).
  destruct (lookup_lt_is_Some_2 pool (Z.to_nat ((index + 1) mod Z.of_nat (length pool))))
    as [i Hi]; [lia|]. exists i. split; [done|]. by eapply list_elem_of_lookup_2.
Qed.

Lemma nextWeighted_elem ts pool b :
  LB.pool_ok ts b pool → pool ≠ [] → ∃ i, (nextWeighted ts pool).2 = Some i ∧ i ∈ pool.
Proof.
  intros [Hnd Hp] Hne.
  destruct (nextWeighted_spec ts pool) as (ts' & c & -> & Hc & _); eauto.
  intros i (t & Ht & _)%Hp. eauto.
Qed.

(** The pool a request draws from. *)
Definition pool_for (reader : bool) (lb : LoadBalancer) : list nat :=
  if reader && negb (Nat.eqb (length (readers lb)) 0) then readers lb else writers lb.

Lemma nextTarget_choice reader lb :
  LB.wf lb →
  match (nextTarget reader lb).2 with
  | Some i => i ∈ pool_for reader lb
  | None => pool_for reader lb = []
  end.
Proof.
  intros [Hw Hr _ _ _]. unfold nextTarget, pool_for.
  destruct (reader && _) eqn:E1; [|destruct (negb (Nat.eqb (length (writers lb)) 0)) eqn:E2].
  - assert (readers lb ≠ []) by (intros E; rewrite E, andb_false_r in E1; done).
    destruct (weighted lb).
    + destruct (nextWeighted_elem _ _ _ Hr) as (i & Hi & ?); [done|].
      by destruct (nextWeighted _ _) as [? ?]; cbn in *; subst.
    + destruct (rotate_elem (readers lb) (readerIndex lb)) as (i & Hi & ?); [done|].
      by destruct (rotate _ _) as [? ?]; cbn in *; subst.
  - assert (writers lb ≠ []) by (by intros E; rewrite E in E2).
    destruct (weighted lb).
    + destruct (nextWeighted_elem _ _ _ Hw) as (i & Hi & ?); [done|].
      by destruct (nextWeighted _ _) as [? ?]; cbn in *; subst.
    + destruct (rotate_elem (writers lb) (writerIndex lb)) as (i & Hi & ?); [done|].
      by destruct (rotate _ _) as [? ?]; cbn in *; subst.
  - cbn. by destruct (writers lb).
Qed.

Lemma pinnedTarget_choice r reader lb i :
  pinnedTarget r reader lb = Some i → i ∈ pool_for reader lb ∧ i ∈ writers lb.
Proof.
  unfold pinnedTarget, pool_for. destruct (sessionAffinity lb) as [p|]; [|done].
  destruct (IgnoreSessionPin r); [done|]. destruct (reader && _); [done|].
  destruct (String.eqb _ _); [done|]. intros [H _]%List.find_some.
  by apply list_elem_of_In in H.
Qed.

Lemma choose_choice now r lb :
  LB.wf lb →
  match (choose now r lb).2 with
  | Some i => i ∈ pool_for (treatAsRead now r lb) lb
  | None => pool_for (treatAsRead now r lb) lb = []
  end.
Proof.
  intros Hwf. unfold choose. destruct (pinnedTarget _ _ _) eqn:E.
  - by apply pinnedTarget_choice in E as [? _].
  - by apply nextTarget_choice.
Qed.

(** *** Round robin *)

(** [n] consecutive selections with nothing else happening in between. *)
Fixpoint nextTarget_run (n : nat) (reader : bool) (lb : LoadBalancer)
  : LoadBalancer * list (option nat) :=
  match n with
  | O => (lb, [])
  | S n => let '(lb1, c) := nextTarget reader lb in
           let '(lb2, cs) := nextTarget_run n reader lb1 in (lb2, c :: cs)
  end.

Fixpoint rotate_run (n : nat) (pool : list nat) (index : Z) : list (option nat) :=
  match n with
  | O => []
  | S n => let '(index', c) := rotate pool index in c :: rotate_run n pool index'
  end.

Definition pool_index (reader : bool) (lb : LoadBalancer) : Z :=
  if reader && negb (Nat.eqb (length (readers lb)) 0) then readerIndex lb else writerIndex lb.

Lemma nextTarget_rotate reader lb :
  weighted lb = false → pool_for reader lb ≠ [] →
  let lb' := (nextTarget reader lb).1 in
  ((pool_index reader lb', (nextTarget reader lb).2) =
     rotate (pool_for reader lb) (pool_index reader lb)) ∧
  pool_for reader lb' = pool_for reader lb ∧ weighted lb' = false.
Proof.
  intros Hw Hne. unfold nextTarget, pool_for, pool_index in *. rewrite Hw.
  destruct (reader && _) eqn:E1; cbn; rewrite ?E1; [done|].
  destruct (Nat.eqb (length (writers lb)) 0) eqn:E2; cbn; rewrite ?E1; [|done].
  by apply Nat.eqb_eq, length_zero_iff_nil in E2.
Qed.

Lemma nextTarget_run_rotate n reader lb :
  weighted lb = false → pool_for reader lb ≠ [] →
  (nextTarget_run n reader lb).2 = rotate_run n (pool_for reader lb) (pool_index reader lb).
Proof.
  revert lb. induction n as [|n IH]; intros lb Hw Hne; [done|].
  destruct (nextTarget_rotate reader lb Hw Hne) as (Hr & Hp & Hw').
  cbn [nextTarget_run rotate_run]. rewrite <-Hr.
  destruct (nextTarget reader lb) as [lb1 c]. cbn [fst snd] in *.
  specialize (IH lb1 Hw'). rewrite Hp in IH. specialize (IH Hne).
  destruct (nextTarget_run n reader lb1) as [lb2 cs]. cbn in *. by rewrite IH.
Qed.

Lemma rotate_run_lookup n pool index k :
  pool ≠ [] → (k < n)%nat →
  rotate_run n pool index !! k =
  Some (pool !! Z.to_nat ((index + 1 + Z.of_nat k) mod Z.of_nat (length pool))).
Proof.
  intros Hne. assert (0 < Z.of_nat (length pool)) by (destruct pool; cbn; [done|lia]).
  revert index k. induction n as [|n IH]; intros index k Hk; [lia|].
  cbn [rotate_run rotate]. destruct k as [|k]; cbn [lookup list_lookup].
  - by rewrite Z.add_0_r.
  - rewrite IH by lia. do 3 f_equal.
    rewrite <-Z.add_assoc, Zplus_mod_idemp_l. f_equal. lia.
Qed.

Lemma rotate_run_cycle pool index :
  pool ≠ [] → rotate_run (length pool) pool index ≡ₚ Some <$> pool.
Proof.
  intros Hne. set (n := length pool).
  assert (Hn : 0 < Z.of_nat n) by (unfold n; destruct pool; cbn; [done|lia]).
  set (s := Z.to_nat ((index + 1) mod Z.of_nat n)).
  assert (Hs : (s < n)%nat).
  { unfold s. pose proof (Z.mod_pos_bound (index + 1) (Z.of_nat n)). lia. }
  assert (Hlen : ∀ m p x, length (rotate_run m p x) = m).
  { induction m as [|m IH]; intros; cbn; [done|]. by rewrite IH. }
  enough (rotate_run n pool index = Some <$> (drop s pool ++ take s pool)) as ->.
  { apply fmap_Permutation. rewrite Permutation_app_comm. by rewrite take_drop. }
  apply list_eq_same_length with n.
  { rewrite length_fmap, length_app, length_drop, length_take. fold n. lia. }
  { apply Hlen. }
  intros k x y Hk. rewrite rotate_run_lookup by done. fold n.
  rewrite list_lookup_fmap. intros [= <-].
  rewrite <-Zplus_mod_idemp_l.
  replace ((index + 1) mod Z.of_nat n) with (Z.of_nat s)
    by (unfold s; rewrite Z2Nat.id; [done|apply Z.mod_pos_bound; lia]).
  destruct (decide (s + k < n)%nat) as [Hlt|Hge].
  - rewrite Z.mod_small by lia. rewrite lookup_app_l by (rewrite length_drop; fold n; lia).
    rewrite lookup_drop. replace (Z.to_nat (Z.of_nat s + Z.of_nat k)) with (s + k)%nat by lia.
    destruct (pool !! (s + k)%nat); cbn; congruence.
  - replace (Z.of_nat s + Z.of_nat k) with (Z.of_nat (s + k - n) + 1 * Z.of_nat n) by lia.
    rewrite Z_mod_plus_full, Z.mod_small, Nat2Z.id by lia.
    rewrite lookup_app_r by (rewrite length_drop; fold n; lia).
    rewrite length_drop. fold n. replace (k - (n - s))%nat with (s + k - n)%nat by lia.
    rewrite lookup_take_lt by lia. destruct (pool !! (s + k - n)%nat); cbn; congruence.
Qed.

(** *** Contexts *)

(** A context that some steps cancelled while it was the current one was
    cancelled by an update that saw every target healthy. *)
Lemma step_cancels lb lb' c :
  LB.step lb lb' → c ∈ cancelledContexts lb' → c ∉ cancelledContexts lb →
  LB.all_healthy lb ∧ c = waitForHealthyContext lb.
Proof.
  destruct 1; cbn; try done.
  - unfold updateHealthyTargets. cbv zeta.
    destruct (Nat.eqb _ _) eqn:E; [|by case_goal]. apply healthyCount_all in E.
    intros [H|H]%elem_of_union; [|by case_hyp H]. split; [done|].
    apply elem_of_singleton in H. by case_hyp H.
  - pose proof (claimTarget_settled now r req lb) as H. unfold settled in H.
    injection H as _ _ _ _ _ -> _ _. done.
Qed.

Lemma steps_cancel lb lb' c :
  rtc LB.step lb lb' → c ∈ cancelledContexts lb' → c ∉ cancelledContexts lb →
  ∃ m, rtc LB.step lb m ∧ rtc LB.step m lb' ∧ LB.all_healthy m ∧ c = waitForHealthyContext m.
Proof.
  induction 1 as [|x y z Hstep Hsteps IH]; [done|]. intros Hin Hout.
  destruct (decide (c ∈ cancelledContexts y)) as [Hy|Hy].
  - destruct (step_cancels _ _ _ Hstep Hy Hout) as [??].
    exists x. split; [done|]. split; [by eapply rtc_l|done].
  - destruct (IH Hin Hy) as (m & ? & ?). exists m. split; [by eapply rtc_l|done].
Qed.

(** *** Pins *)

Lemma pinnedTarget_find p r reader lb id :
  sessionAffinity lb = Some p → IgnoreSessionPin r = false →
  pool_for reader lb = writers lb → (reader = true → readers lb = []) →
  pinnedID p r = id → id ≠ "" →
  pinnedTarget r reader lb =
    List.find (λ i, String.eqb (default "" (ids p !! i)) id) (writers lb).
Proof.
  intros Hp Hign _ Hr Hid Hne. unfold pinnedTarget. rewrite Hp, Hign.
  destruct reader; [rewrite Hr by done|]; cbn; rewrite Hid;
    by destruct (String.eqb_spec id "").
Qed.

Lemma StartRequest_state fh now r req lb :
  (StartRequest fh now r req lb).1 = (claimTarget now r req lb).1.
Proof. unfold StartRequest. by destruct (claimTarget now r req lb) as [? [[]|]]. Qed.

(** ** Theorems *)

(** C8: for every load balancer the program can reach, with session pins or
    without, a claimed target, be it pinned or next in the rotation, is a
    member of the pool the request belongs to: a read-only target is only ever
    handed out to a read without a valid writer-affinity cookie, and to such a
    read whenever one is in the pool; the target is not draining and has the
    request among its in-flight ones.  Claiming fails with "no healthy
    targets" exactly when that pool is empty, and otherwise only because the
    chosen target drains. *)
Theorem claim_respects_roles targets affinity ws lb now r req :
  LB.reachable targets affinity ws lb →
  let pool := pool_for (treatAsRead now r lb) lb in
  match claimTarget now r req lb with
  | (lb', Ok (i, rd)) =>
      i ∈ pool ∧ rd = isReadRequest lb r ∧
      ∃ t t', all lb !! i = Some t ∧ all lb' !! i = Some t' ∧
        (readonly t = true ↔ treatAsRead now r lb = true ∧ readers lb ≠ []) ∧
        state t ≠ TargetStateDraining ∧ is_Some (inflight t' !! req)
  | (lb', Err ErrorNoHealthyTargets) => pool = []
  | (lb', Err ErrorDraining) =>
      ∃ i t, i ∈ pool ∧ all lb !! i = Some t ∧ state t = TargetStateDraining
  end.
Proof.
  intros Hwf%wf_reachable pool. rewrite claimTarget_choose.
  pose proof (choose_choice now r lb Hwf) as Hc. fold pool in Hc.
  pose proof (choose_settled now r lb) as Hs.
  destruct (choose now r lb) as [lb1 [i|]]; cbn in Hc, Hs; [|done].
  assert (Hk : ∃ t, all lb !! i = Some t ∧
    (readonly t = true ↔ treatAsRead now r lb = true ∧ readers lb ≠ [])).
  { destruct Hwf as [[_ Hw] [_ Hr] _ _ _]. unfold pool, pool_for in Hc.
    destruct (treatAsRead now r lb) eqn:Et; cbn in Hc.
    - destruct (Nat.eqb (length (readers lb)) 0) eqn:El; cbn in Hc.
      + apply Nat.eqb_eq, length_zero_iff_nil in El.
        destruct (Hw i Hc) as (t & ? & Hb). exists t. rewrite El, Hb. naive_solver.
      + destruct (Hr i Hc) as (t & ? & Hb). exists t. split; [done|]. split; [|done].
        intros _. split; [done|]. by intros El'; rewrite El' in El.
    - destruct (Hw i Hc) as (t & ? & Hb). exists t. rewrite Hb. naive_solver. }
  destruct Hk as (t & Ht & Hro).
  injection Hs as Hid Hst _ _ _ _ _ _.
  assert (Hm1 : map LB.identity (all lb1) !! i = Some (LB.identity t))
    by (rewrite Hid, list_lookup_fmap, Ht; done).
  assert (Hm2 : map state (all lb1) !! i = Some (state t))
    by (rewrite Hst, list_lookup_fmap, Ht; done).
  rewrite list_lookup_fmap in Hm1. rewrite list_lookup_fmap in Hm2.
  destruct (all lb1 !! i) as [t1|] eqn:Ht1; [|done]. cbn in Hm1, Hm2 |- *.
  injection Hm2 as Hst1.
  destruct (Target.StartRequest req t1) as [t'|] eqn:Hsr.
  - apply StartRequest_inv in Hsr as (Hd & _ & _ & Hin). split; [done|]. split; [done|].
    exists t, t'. split; [done|]. cbn. rewrite list_lookup_insert_eq by (by eapply lookup_lt_Some).
    split; [done|]. split; [done|]. split; [congruence|]. rewrite Hin, lookup_insert_eq. eauto.
  - exists i, t. split; [done|]. split; [done|]. rewrite <-Hst1.
    unfold Target.StartRequest in Hsr. by destruct (state t1).
Qed.

(** Without weights the rotation is fair: as many consecutive selections
    as the pool has members, from any position of the rotation, choose every
    member exactly once. *)
Theorem round_robin_fair lb reader :
  weighted lb = false →
  (nextTarget_run (length (pool_for reader lb)) reader lb).2 ≡ₚ Some <$> pool_for reader lb.
Proof.
  intros Hw. destruct (pool_for reader lb) as [|i pool] eqn:E; [done|].
  rewrite nextTarget_run_rotate by (done || by rewrite E). rewrite <-E.
  apply rotate_run_cycle. by rewrite E.
Qed.

(** Targets keep their place and their address. *)
Lemma identity_lookup (ts us : list Target) j t :
  map LB.identity us = map LB.identity ts → us !! j = Some t →
  ∃ u, ts !! j = Some u ∧ address u = address t.
Proof.
  intros Hid Hj.
  assert (Hm : map LB.identity ts !! j = Some (LB.identity t))
    by (rewrite <-Hid, list_lookup_fmap, Hj; done).
  rewrite list_lookup_fmap in Hm. destruct (ts !! j) as [u|]; [|done].
  exists u. unfold LB.identity in Hm. cbn in Hm. by simplify_eq.
Qed.

(** After a wake has re-armed the wait, [WaitUntilHealthy] on the new
    context reports success only if, at some moment since, every target was
    healthy at once; whatever the probes, requests, suspensions and further
    wakes in between did, in whatever order. *)
Theorem wake_waits_for_health targets affinity ws lb lb' :
  LB.reachable targets affinity ws lb →
  rtc LB.step (rearm lb) lb' →
  becameHealthy (waitForHealthyContext (rearm lb)) lb' = true →
  ∃ m, rtc LB.step (rearm lb) m ∧ rtc LB.step m lb' ∧ LB.all_healthy m.
Proof.
  intros [_ _ _ _ Hc]%wf_reachable Hsteps Hb%bool_decide_eq_true.
  destruct (steps_cancel _ _ _ Hsteps Hb) as (m & ? & ? & ? & _); [|by eauto].
  cbn. intros ?%Hc. lia.
Qed.

(** The session pin a response hands out brings the client back: a later
    request that carries it, that no replica may serve, and whose target is
    still among the healthy writers, is placed on a target with the very same
    address, and the rotation is not advanced.  The keyed digest of the
    addresses is a parameter that must not be empty or collide on them. *)
Theorem session_pin_roundtrip targets affinity ws digest cookie lb0 lb1 lb2 lb3 fh now r req f c now' r' :
  LB.reachable targets affinity ws lb0 →
  (∀ t, t ∈ all lb0 → digest (address t) ≠ "") →
  (∀ t u, t ∈ all lb0 → u ∈ all lb0 → digest (address t) = digest (address u) →
     address t = address u) →
  rtc LB.step (WithSessionAffinity digest true cookie lb0) lb1 →
  StartRequest fh now r req lb1 = (lb2, Some f) →
  fwdSession f = Some (mkSAW (Some c) false) →
  rtc LB.step lb2 lb3 →
  req_cookie r' (CookieName c) = Some (CookieValue c) → IgnoreSessionPin r' = false →
  (treatAsRead now' r' lb3 = true → readers lb3 = []) →
  fwdTarget f ∈ writers lb3 →
  ∃ i t u, choose now' r' lb3 = (lb3, Some i) ∧ all lb3 !! i = Some t ∧
    all lb0 !! fwdTarget f = Some u ∧ address t = address u.
Proof.
  intros Hreach Hne Hinj H01 Hstart Hf H23 Hck Hign Hread Hin.
  assert (Hwf : LB.wf lb3).
  { assert (LB.wf lb2).
    { replace lb2 with (StartRequest fh now r req lb1).1 by (by rewrite Hstart).
      rewrite StartRequest_state. apply wf_claimTarget. eapply wf_steps; [done|].
      apply wf_reachable in Hreach. by destruct Hreach. }
    by eapply wf_steps. }
  apply steps_targets in H01 as [Hid1 Hp1]. apply steps_targets in H23 as [Hid3 Hp3].
  cbn in Hid1, Hp1.
  set (p := mkPinner _ _) in Hp1.
  unfold StartRequest in Hstart.
  pose proof (claimTarget_settled now r req lb1) as Hs.
  destruct (claimTarget now r req lb1) as [lbc [[i rd]|]]; [|done].
  injection Hstart as -> <-. cbn in Hf, Hin |- *.
  unfold settled in Hs. injection Hs as Hid2 _ _ _ _ _ Hp2 _.
  assert (Hp : sessionAffinity lb2 = Some p) by congruence.
  assert (Hid : map LB.identity (all lb3) = map LB.identity (all lb0)) by congruence.
  unfold pinSession in Hf. rewrite Hp in Hf. destruct (target_readonly _ _); [done|].
  destruct (cookieFor p r i) as [c'|] eqn:Hcf; [|done]. simplify_eq.
  unfold cookieFor in Hcf. destruct (_ || _) eqn:Eid; [done|]. simplify_eq/=.
  apply orb_false_iff in Eid as [Eid _]. apply String.eqb_neq in Eid.
  assert (Haddr : ∀ j t3, all lb3 !! j = Some t3 →
    ∃ t0, all lb0 !! j = Some t0 ∧ address t0 = address t3 ∧ ids p !! j = Some (digest (address t0))).
  { intros j t3 Hj. destruct (identity_lookup _ _ j t3 Hid Hj) as (t0 & H0 & Ha).
    exists t0. split; [done|]. split; [done|]. cbn. by rewrite list_lookup_fmap, H0. }
  destruct (LB.wf_writers _ Hwf) as [_ Hw].
  destruct (Hw _ Hin) as (t3 & Ht3 & _). destruct (Haddr _ _ Ht3) as (t0 & Ht0 & Hat & Hidt).
  unfold choose. erewrite pinnedTarget_find with (p := p);
    [|congruence|done| |done| |done].
  2: { unfold pool_for. destruct (treatAsRead _ _ _); [rewrite Hread by done|]; done. }
  2: { unfold pinnedID. cbn. by rewrite Hck. }
  destruct (List.find _ (writers lb3)) as [j|] eqn:Hfind.
  - apply List.find_some in Hfind as [Hj Hjid]. apply list_elem_of_In in Hj.
    apply String.eqb_eq in Hjid.
    destruct (Hw _ Hj) as (tj & Htj & _). destruct (Haddr _ _ Htj) as (uj & Huj & Haj & Hidj).
    exists j, tj, t0. split; [done|]. split; [done|]. split; [done|].
    rewrite <-Haj. apply Hinj; [by eapply list_elem_of_lookup_2..|].
    assert (default "" (ids p !! j) = default "" (ids p !! i)) as Hq by exact Hjid.
    by rewrite Hidj, Hidt in Hq.
  - exfalso. apply find_none_Forall, Forall_forall with (x := i) in Hfind; [|done].
    apply String.eqb_neq in Hfind. done.
Qed.

(** The writer-affinity cookie a write's response carries keeps the
    client on the writers for exactly the configured time: a request that
    returns it is a write for the balancer until the cookie's millisecond, and
    an ordinary request from then on. *)
Theorem writer_affinity_window now timeout code w r now' lb :
  in_int64 (UnixMilli (now + timeout)) →
  hdr_get (rwHeader w) LoadBalancerAffinityOptOutHeader ≠ "false" → rwClosed w = false →
  let w' := lbrwUnder (lbrwWriteHeader now code (mkLBRW w false timeout)) in
  ∃ h c, last (rwSent w') = Some (code, h, rwCookies w ++ [c]) ∧
    hdr_values h LoadBalancerAffinityOptOutHeader = [] ∧
    (req_cookie r (CookieName c) = Some (CookieValue c) →
       (hasWriteCookie now' r = true ↔ UnixMilli now' < UnixMilli (now + timeout)) ∧
       (UnixMilli now' < UnixMilli (now + timeout) →
          pool_for (treatAsRead now' r lb) lb = writers lb)).
Proof.
  intros Hrange Hopt Hopen w'. unfold w', lbrwWriteHeader, setWriterAffinityCookie.
  apply String.eqb_neq in Hopt. cbn [lbrwUnder lbrwTimeout]. rewrite Hopt. cbn [negb].
  unfold WriteHeader. cbn. rewrite Hopen. cbn. rewrite last_snoc.
  eexists _, _. split; [done|]. split; [apply hdr_values_del_eq|].
  cbn [CookieName CookieValue]. intros Hck.
  assert (Hhw : hasWriteCookie now' r = (UnixMilli now' <? UnixMilli (now + timeout))).
  { unfold hasWriteCookie. rewrite Hck. cbn. by rewrite ParseInt_Itoa. }
  split; [rewrite Hhw; apply Z.ltb_lt|]. intros Hlt.
  unfold treatAsRead, pool_for. rewrite Hhw. apply Z.ltb_lt in Hlt. rewrite Hlt.
  by rewrite andb_false_r.
Qed.

(** ** Witnesses *)

Module LBExamples.
Definition wr (a : string) : Target := mkTarget a false 1 0 TargetStateAdding ∅ false.
Definition rd (a : string) : Target := mkTarget a true 1 0 TargetStateAdding ∅ false.
Definition fleet : list Target := [wr "w1:80"; wr "w2:80"; rd "r1:80"].
Definition fresh : LoadBalancer := NewLoadBalancer fleet (3 * second) false.
Definition up : LoadBalancer := MarkAllHealthy fresh.
Definition get (cookies : list (string * string)) : Request :=
  mkRequest "GET" "example.com" "/" "" "" false false "10.0.0.1:1" ∅ cookies 0 None false false.
Definition post (cookies : list (string * string)) : Request :=
  mkRequest "POST" "example.com" "/" "" "" false false "10.0.0.1:1" ∅ cookies 0 None false false.

Example read_goes_to_replica : (claimTarget 0 (get []) 1 up).2 = Ok (2%nat, true).
Proof. vm_compute. reflexivity. Qed.

Example write_goes_to_writer : (claimTarget 0 (post []) 1 up).2 = Ok (1%nat, false).
Proof. vm_compute. reflexivity. Qed.

(** A digest that keeps addresses apart, to run the pinner with. *)
Definition digest (a : string) : string := "id-" +:+ a.
Definition pinning : LoadBalancer := MarkAllHealthy (WithSessionAffinity digest true "" fresh).

Lemma pinning_reachable : LB.reachable fleet (3 * second) false pinning.
Proof. exists digest, true, "". exact (MarkAllHealthy_steps (WithSessionAffinity digest true "" fresh)). Qed.

Lemma fresh_reachable lb : rtc LB.step fresh lb → LB.reachable fleet (3 * second) false lb.
Proof. intros H. by exists digest, false, "". Qed.

(** A client that is pinned to the second writer writes to it, and reads from
    the replica. *)
Lemma claim_respects_roles_witness :
  match claimTarget 0 (post [("kamal-session", "id-w2:80")]) 1 pinning, claimTarget 0 (get [("kamal-session", "id-w2:80")]) 1 pinning with
  | (_, Ok (i, _)), (_, Ok (j, _)) => i = 1%nat ∧ i ∈ writers pinning ∧ j = 2%nat ∧ j ∈ readers pinning
  | _, _ => False
  end.
Proof.
  pose proof (claim_respects_roles fleet (3 * second) false pinning 0 (post [("kamal-session", "id-w2:80")]) 1 pinning_reachable) as H.
  pose proof (claim_respects_roles fleet (3 * second) false pinning 0 (get [("kamal-session", "id-w2:80")]) 1 pinning_reachable) as H'.
  vm_compute in H, H' |- *. split; [reflexivity|]. split; [exact (proj1 H)|]. split; [reflexivity|]. exact (proj1 H').
Defined.

Lemma round_robin_fair_witness :
  (nextTarget_run 2 false up).2 ≡ₚ [Some 0%nat; Some 1%nat].
Proof. apply (round_robin_fair up false). vm_compute. reflexivity. Defined.

Definition woken : LoadBalancer := MarkAllHealthy (ResumeFromSleep (SuspendForSleep up)).

Lemma up_asleep_reachable : LB.reachable fleet (3 * second) false (SuspendForSleep up).
Proof. 
  apply fresh_reachable.
  transitivity up; [exact (MarkAllHealthy_steps fresh)|exact (SuspendForSleep_steps up)].
Qed.

Lemma wake_waits_for_health_witness :
  becameHealthy 1 woken = true ∧
  ∃ m, rtc LB.step (rearm (SuspendForSleep up)) m ∧ rtc LB.step m woken ∧ LB.all_healthy m.
Proof.
  split; [vm_compute; reflexivity|].
  apply (wake_waits_for_health fleet (3 * second) false (SuspendForSleep up) woken).
  - apply up_asleep_reachable.
  - transitivity (ResumeFromSleep (SuspendForSleep up));
      [apply ResumeFromSleep_steps|apply (MarkAllHealthy_steps (ResumeFromSleep _))].
  - vm_compute. reflexivity.
Defined.

Definition pinned : LoadBalancer := WithSessionAffinity digest true "" up.
Definition first : LoadBalancer * option Forward := StartRequest false 0 (post []) 1 pinned.

Lemma session_pin_roundtrip_witness :
  ∃ i t u, choose 1 (post [("kamal-session", "id-w2:80")]) first.1 = (first.1, Some i) ∧
    all first.1 !! i = Some t ∧ all up !! 1%nat = Some u ∧ address t = address u.
Proof.
  refine (session_pin_roundtrip fleet (3 * second) false digest "" up pinned first.1 first.1
    false 0 (post []) 1 (mkForward 1 (setTargetHeader false "w2:80" (post [])) true
      (Some (mkSAW (Some (mkCookie "kamal-session" "id-w2:80" false None)) false)))
    (mkCookie "kamal-session" "id-w2:80" false None) 1 _ (fresh_reachable _ (MarkAllHealthy_steps fresh))
    _ _ (rtc_refl _ _) _ _ (rtc_refl _ _) _ _ _ _).
  - intros t _. discriminate.
  - intros t u _ _ H. unfold digest in H. cbn in H. congruence.
  - vm_compute. reflexivity.
  - reflexivity.
  - reflexivity.
  - reflexivity.
  - vm_compute. discriminate.
  - vm_compute. right. left.
Defined.

Lemma writer_affinity_window_witness :
  let w' := lbrwUnder (lbrwWriteHeader 0 200 (mkLBRW newRW false (3 * second))) in
  ∃ h c, last (rwSent w') = Some (200, h, [c]) ∧ CookieValue c = "3000".
Proof.
  destruct (writer_affinity_window 0 (3 * second) 200 newRW (get []) 0 up)
    as (h & c & Hlast & _).
  - vm_compute. split; discriminate.
  - vm_compute. discriminate.
  - reflexivity.
  - exists h, c. split; [exact Hlast|]. vm_compute in Hlast. injection Hlast as _ <-. reflexivity.
Defined.
End LBExamples.
