(* ===== verification/Drain.v ===== *)
(** * Draining a target: [Target.Drain] of [internal/server/target.go] and
    [DrainAll] of [internal/server/load_balancer.go]

    [Drain] holds no lock while it waits, so it is modelled one statement at a
    time: a program counter on top of the target, interleaved with requests
    that start, end, are hijacked or given up, and with the health checks. *)
From S2P Require Import Prelude GoStrings Target Http LoadBalancer.

(** ** One drain *)

(** [orig] is [originalState], [l] the copy of the in-flight map made by
    [pendingRequestsToCancel], in the order Go ranges over it, and [todo] what
    the current loop has left. *)
Inductive DrainPc :=
| DBegin
| DSnapshot (orig : TargetState)
| DHijacked (orig : TargetState) (l todo : list nat)
| DWaiting (orig : TargetState) (l todo : list nat)
| DCancelling (orig : TargetState) (l todo : list nat)
| DRestoring (orig : TargetState) (l : list nat)
| DReturned (l : list nat).

Record Draining := mkDraining {
  drTarget : Target;
  drEnded : gset nat;          (** requests that have ended: their contexts are done *)
  drExpired : bool;            (** the deadline has passed *)
  drPc : DrainPc }.

(** [inflight.cancel(ErrorDraining)]; nothing for a request that has ended. *)
Definition cancelRequest (r : nat) (t : Target) : Target :=
  set_inflight (alter (λ i, Target.mkInflight (hijacked i) true) r (inflight t)) t.

Definition hijackRequest (r : nat) (t : Target) : Target :=
  set_inflight (alter (λ i, Target.mkInflight true (cancelled i)) r (inflight t)) t.

(** [<-req.Context().Done()] is ready. *)
Definition ctxDone (s : Draining) (r : nat) : bool :=
  bool_decide (r ∈ drEnded s) || match inflight (drTarget s) !! r with Some i => cancelled i | None => false end.

Definition isHijacked (t : Target) (r : nat) : bool :=
  match inflight t !! r with Some i => hijacked i | None => false end.

(** The next statement of [Drain]; [None] when the drain has to wait.  [order]
    is the order the map is ranged in, [timer] the choice of a [select] whose
    two cases are both ready. *)
Definition drainNext (order : list nat) (timer : bool) (s : Draining) : option Draining :=
  let t := drTarget s in
  let goto t pc := Some (mkDraining t (drEnded s) (drExpired s) pc) in
  match drPc s with
  | DBegin =>
      if bool_decide (state t = TargetStateDraining) then goto t (DReturned [])
      else goto (set_state TargetStateDraining t) (DSnapshot (state t))
  | DSnapshot orig => goto t (DHijacked orig order order)
  | DHijacked orig l (r :: todo) =>
      goto (if isHijacked t r then cancelRequest r t else t) (DHijacked orig l todo)
  | DHijacked orig l [] => goto t (DWaiting orig l l)
  | DWaiting orig l (r :: todo) =>
      if drExpired s && (timer || negb (ctxDone s r)) then goto t (DCancelling orig l l)
      else if ctxDone s r then goto t (DWaiting orig l todo)
      else None
  | DWaiting orig l [] => goto t (DCancelling orig l l)
  | DCancelling orig l (r :: todo) => goto (cancelRequest r t) (DCancelling orig l todo)
  | DCancelling orig l [] => goto t (DRestoring orig l)
  | DRestoring orig l => goto (set_state orig t) (DReturned l)
  | DReturned _ => None
  end.

(** ** What runs beside it *)

(** [probing]: health checks (or anything else that sets the target's state)
    run during the drain. *)
Inductive drain_step (probing : bool) (s : Draining) : Draining → Prop :=
| drain_own order timer s' :
    order ≡ₚ elements (dom (inflight (drTarget s))) →
    drainNext order timer s = Some s' → drain_step probing s s'
| drain_start r t' :
    r ∉ drEnded s → r ∉ dom (inflight (drTarget s)) → Target.StartRequest r (drTarget s) = Some t' →
    drain_step probing s (mkDraining t' (drEnded s) (drExpired s) (drPc s))
| drain_end r :
    r ∈ dom (inflight (drTarget s)) →
    drain_step probing s
      (mkDraining (endInflightRequest r (drTarget s)) ({[r]} ∪ drEnded s) (drExpired s) (drPc s))
| drain_hijack r :
    drain_step probing s (mkDraining (hijackRequest r (drTarget s)) (drEnded s) (drExpired s) (drPc s))
| drain_gone r :
    drain_step probing s (mkDraining (cancelRequest r (drTarget s)) (drEnded s) (drExpired s) (drPc s))
| drain_expire :
    drain_step probing s (mkDraining (drTarget s) (drEnded s) true (drPc s))
| drain_probe success :
    probing = true →
    drain_step probing s
      (mkDraining (HealthCheckCompleted success (drTarget s)).1 (drEnded s) (drExpired s) (drPc s))
| drain_state st :
    probing = true →
    drain_step probing s (mkDraining (set_state st (drTarget s)) (drEnded s) (drExpired s) (drPc s)).

Definition drain_init (t : Target) : Draining := mkDraining t ∅ false DBegin.

Definition drain_reachable (probing : bool) (t : Target) (s : Draining) : Prop :=
  rtc (drain_step probing) (drain_init t) s.

(** ** Invariant *)

(** The requests a drain has yet to see off, of those it took on. *)
Definition drain_left (pc : DrainPc) : option (list nat * list nat) :=
  match pc with
  | DBegin | DSnapshot _ => None
  | DHijacked _ l _ | DWaiting _ l _ => Some (l, l)
  | DCancelling _ l todo => Some (l, todo)
  | DRestoring _ l | DReturned l => Some (l, [])
  end.

Definition known (s : Draining) (r : nat) : Prop :=
  r ∈ drEnded s ∨ r ∈ dom (inflight (drTarget s)).

Definition drain_ok (s : Draining) : Prop :=
  ∀ l todo, drain_left (drPc s) = Some (l, todo) →
    (∀ r, r ∈ l → known s r) ∧ (∀ r, r ∈ l → r ∉ todo → ctxDone s r = true).

Lemma ctxDone_true s r :
  ctxDone s r = true ↔
  r ∈ drEnded s ∨ ∃ i, inflight (drTarget s) !! r = Some i ∧ cancelled i = true.
Proof.
  unfold ctxDone. rewrite orb_true_iff, bool_decide_eq_true.
  destruct (inflight (drTarget s) !! r); naive_solver.
Qed.

(** A step that keeps every known request known and every done one done keeps
    the invariant, as long as the drain is where it was. *)
Lemma drain_ok_mono s s' :
  drPc s' = drPc s → (∀ r, known s r → known s' r) →
  (∀ r, known s r → ctxDone s r = true → ctxDone s' r = true) → drain_ok s → drain_ok s'.
Proof.
  intros Hpc Hk Hd Hok l todo. rewrite Hpc. intros Hl. destruct (Hok l todo Hl) as [H1 H2].
  split; [by auto|]. intros r Hr Ht. apply Hd; auto.
Qed.

Lemma cancel_known s e pc r r' :
  known s r → known (mkDraining (cancelRequest r' (drTarget s)) (drEnded s) e pc) r.
Proof. unfold known, cancelRequest. cbn. by rewrite dom_alter_L. Qed.

Lemma cancel_done s e pc r r' :
  known s r → ctxDone s r = true ∨ r = r' →
  ctxDone (mkDraining (cancelRequest r' (drTarget s)) (drEnded s) e pc) r = true.
Proof.
  intros Hk Hd. apply ctxDone_true. cbn. rewrite ctxDone_true in Hd.
  destruct (decide (r ∈ drEnded s)) as [He|He]; [by left|]. right.
  unfold known in Hk. destruct Hk as [?|Hk]; [done|]. apply elem_of_dom in Hk as [i Hi].
  destruct (decide (r = r')) as [->|Hne].
  - rewrite lookup_alter_eq, Hi. cbn. eauto.
  - rewrite lookup_alter_ne by done. rewrite Hi. naive_solver.
Qed.

Lemma drainNext_ok order timer s s' :
  order ≡ₚ elements (dom (inflight (drTarget s))) →
  drainNext order timer s = Some s' → drain_ok s → drain_ok s'.
Proof.
  intros Ho Hn Hok. unfold drain_ok in Hok. unfold drainNext in Hn.
  destruct (drPc s) as [|o|o l todo|o l todo|o l todo|o l|l] eqn:Hpc; cbn in Hok.
  - case_bool_decide; simplify_eq; intros l todo Hl; cbn in Hl; simplify_eq; split; by intros r ?%elem_of_nil.
  - simplify_eq. intros l todo Hl. cbn in Hl. simplify_eq. split; [|by intros].
    intros r Hr. right. cbn. rewrite Ho in Hr. by apply elem_of_elements in Hr.
  - destruct (Hok l l eq_refl) as [Hk _]. destruct todo as [|r todo]; simplify_eq;
      intros l' todo' Hl; cbn in Hl; simplify_eq; (split; [|by intros]); intros r' Hr'; [by apply Hk|].
    destruct (isHijacked (drTarget s) r); [|by apply Hk].
    by apply cancel_known, Hk.
  - destruct (Hok l l eq_refl) as [Hk _].
    assert (∃ pc, s' = mkDraining (drTarget s) (drEnded s) (drExpired s) pc ∧
            drain_left pc = Some (l, l)) as (pc & -> & Hleft).
    { destruct todo as [|r todo]; simplify_eq; [by eauto|].
      destruct (_ && _)%bool; simplify_eq; [by eauto|]. destruct (ctxDone s r); simplify_eq. by eauto. }
    intros l' todo' Hl. cbn in Hl. rewrite Hleft in Hl. simplify_eq. split; [|by intros]. exact Hk.
  - destruct (Hok l todo eq_refl) as [Hk Hd]. destruct todo as [|r todo]; simplify_eq;
      intros l' todo' Hl; cbn in Hl; simplify_eq.
    + split; [exact Hk|]. intros r Hr _. apply (Hd r Hr). by intros ?%elem_of_nil.
    + split; intros r' Hr'; [by apply cancel_known, Hk|].
      intros Ht. apply cancel_done; [by apply Hk|].
      destruct (decide (r' = r)) as [->|Hne]; [by right|left]. apply (Hd r' Hr').
      intros [?|?]%elem_of_cons; done.
  - destruct (Hok l [] eq_refl) as [Hk Hd]. simplify_eq. intros l' todo' Hl. cbn in Hl. simplify_eq. done.
  - done.
Qed.

Lemma drain_step_ok probing s s' : drain_step probing s s' → drain_ok s → drain_ok s'.
Proof.
  intros Hstep. destruct Hstep as [order timer s' Ho Hn|r t' He Hf Hs|r Hr|r|r| |success _|st _].
  - by apply (drainNext_ok order timer).
  - apply StartRequest_inv in Hs as (_ & _ & _ & Hin).
    apply drain_ok_mono; [done|..]; intros r'; unfold known; rewrite ?ctxDone_true; cbn; rewrite Hin.
    + rewrite dom_insert_L. set_solver.
    + intros [Hk|Hk]; [by left|]. rewrite lookup_insert_ne; [naive_solver|]. intros <-. done.
  - apply drain_ok_mono; [done|..]; intros r'; unfold known, endInflightRequest; rewrite ?ctxDone_true; cbn.
    + destruct (decide (r' = r)) as [->|?]; set_solver.
    + intros _ [Hd|(i & Hi & Hc)]; [left; set_solver|].
      destruct (decide (r' = r)) as [->|?]; [left; set_solver|right].
      exists i. by rewrite lookup_delete_ne.
  - apply drain_ok_mono; [done|..]; intros r'; unfold known, hijackRequest; rewrite ?ctxDone_true; cbn.
    + by rewrite dom_alter_L.
    + intros _ [Hd|(i & Hi & Hc)]; [by left|right].
      destruct (decide (r' = r)) as [->|?].
      * rewrite lookup_alter_eq, Hi. cbn. eauto.
      * rewrite lookup_alter_ne by done. eauto.
  - apply drain_ok_mono; [done|..]; intros r'.
    + intros Hk. by apply cancel_known.
    + intros Hk Hd. apply cancel_done; auto.
  - by apply drain_ok_mono.
  - by apply drain_ok_mono.
  - by apply drain_ok_mono.
Qed.

Lemma drain_ok_reachable probing t s : drain_reachable probing t s → drain_ok s.
Proof.
  intros Hr. refine (rtc_ind_l (λ x, drain_ok x → drain_ok s) s _ _ _ Hr _); [done|..].
  - intros x y Hxy _ IH Hx. eauto using drain_step_ok.
  - by intros l todo.
Qed.

(** *** A quiet drain *)

(** Without health checks the target refuses requests until the drain gives it
    back, so that nothing is in flight that the drain does not know. *)
Definition quiet_ok (s : Draining) : Prop :=
  match drPc s with
  | DBegin | DReturned _ => True
  | DSnapshot _ => state (drTarget s) = TargetStateDraining
  | DHijacked _ l _ | DWaiting _ l _ | DCancelling _ l _ | DRestoring _ l =>
      state (drTarget s) = TargetStateDraining ∧ ∀ r, r ∈ dom (inflight (drTarget s)) → r ∈ l
  end.

(** Every step beside the drain keeps a quiet drain quiet. *)
Lemma quiet_ok_mono s s' :
  drPc s' = drPc s → state (drTarget s') = state (drTarget s) →
  (state (drTarget s) = TargetStateDraining → dom (inflight (drTarget s')) ⊆ dom (inflight (drTarget s))) →
  quiet_ok s → quiet_ok s'.
Proof.
  intros Hpc Hst Hdom. unfold quiet_ok. rewrite Hpc, Hst.
  destruct (drPc s); try done; intros [Hd Hl]; (split; [done|]); intros r Hr; apply Hl, (Hdom Hd), Hr.
Qed.

Lemma drainNext_quiet order timer s s' :
  order ≡ₚ elements (dom (inflight (drTarget s))) →
  drainNext order timer s = Some s' → quiet_ok s → quiet_ok s'.
Proof.
  intros Ho Hn. unfold quiet_ok, drainNext in *.
  destruct (drPc s) as [|o|o l [|r todo]|o l [|r todo]|o l [|r todo]|o l|l]; simplify_eq; try done.
  - case_bool_decide; by simplify_eq.
  - intros Hd. cbn. split; [done|]. intros r Hr. rewrite Ho. by apply elem_of_elements.
  - unfold cancelRequest. destruct (isHijacked _ _); cbn; rewrite ?dom_alter_L; done.
  - destruct (_ && _)%bool; simplify_eq; [done|]. destruct (ctxDone s r); by simplify_eq.
  - unfold cancelRequest. cbn. by rewrite dom_alter_L.
Qed.

Lemma drain_step_quiet s s' : drain_step false s s' → quiet_ok s → quiet_ok s'.
Proof.
  intros Hstep. destruct Hstep as [order timer s' Ho Hn|r t' He Hf Hs|r Hr|r|r| |success ?|st ?]; [|..|done|done].
  - by apply (drainNext_quiet order timer).
  - apply StartRequest_inv in Hs as (Hnd & _ & Hst & _). by apply quiet_ok_mono.
  - apply quiet_ok_mono; [done..|]. intros _. cbn. rewrite dom_delete_L. set_solver.
  - apply quiet_ok_mono; [done..|]. intros _. cbn. by rewrite dom_alter_L.
  - apply quiet_ok_mono; [done..|]. intros _. cbn. by rewrite dom_alter_L.
  - by apply quiet_ok_mono.
Qed.

Lemma quiet_ok_reachable t s : drain_reachable false t s → quiet_ok s.
Proof.
  intros Hr. refine (rtc_ind_l (λ x, quiet_ok x → quiet_ok s) s _ _ _ Hr _); [done|..].
  - intros x y Hxy _ IH Hx. eauto using drain_step_quiet.
  - done.
Qed.

(** *** Termination *)

(** Once the deadline has passed the drain never waits again. *)
Definition drain_measure (order : list nat) (pc : DrainPc) : nat :=
  let n := length order in
  match pc with
  | DBegin => 3 * n + 7
  | DSnapshot _ => 3 * n + 6
  | DHijacked _ l todo => length todo + (2 * length l + 5)
  | DWaiting _ l todo => length todo + (length l + 4)
  | DCancelling _ l todo => length todo + 2
  | DRestoring _ _ => 1
  | DReturned _ => 0
  end.

Fixpoint drain_run (fuel : nat) (order : list nat) (timer : bool) (s : Draining) : Draining :=
  match fuel with
  | O => s
  | S fuel => match drainNext order timer s with
              | Some s => drain_run fuel order timer s
              | None => s
              end
  end.

Lemma drainNext_expired order timer s :
  drExpired s = true →
  (∃ l, drPc s = DReturned l) ∨
  ∃ s', drainNext order timer s = Some s' ∧ drExpired s' = true ∧
    (drain_measure order (drPc s') < drain_measure order (drPc s))%nat.
Proof.
  intros He. unfold drainNext.
  destruct (drPc s) as [|o|o l [|r todo]|o l [|r todo]|o l [|r todo]|o l|l]; [..|by eauto];
    right; cbn [drain_measure length].
  - case_bool_decide; (eexists; split; [reflexivity|]; split; [done|cbn; lia]).
  - eexists; split; [reflexivity|]; split; [done|cbn; lia].
  - eexists; split; [reflexivity|]; split; [done|cbn; lia].
  - eexists; split; [reflexivity|]; split; [done|cbn; lia].
  - eexists; split; [reflexivity|]; split; [done|cbn; lia].
  - rewrite He. destruct (ctxDone s r), timer; cbn;
      (eexists; split; [reflexivity|]; split; [done|cbn; lia]).
  - eexists; split; [reflexivity|]; split; [done|cbn; lia].
  - eexists; split; [reflexivity|]; split; [done|cbn; lia].
  - eexists; split; [reflexivity|]; split; [done|cbn; lia].
Qed.

Lemma drain_run_returns order timer n s :
  drExpired s = true → (drain_measure order (drPc s) ≤ n)%nat →
  ∃ l, drPc (drain_run n order timer s) = DReturned l.
Proof.
  revert s. induction n as [|n IH]; intros s He Hn;
    destruct (drainNext_expired order timer s He) as [[l Hl]|(s' & Hs' & He' & Hm)]; cbn.
  - eauto.
  - lia.
  - unfold drainNext. rewrite Hl. eauto.
  - rewrite Hs'. apply IH; [done|lia].
Qed.

(** ** Theorems *)

(** C22: however requests start, end, are hijacked or given up meanwhile, and
    whatever the health checks report, when a drain returns every request it
    took on has ended or been cancelled; and when no health check interferes,
    these are all the requests in flight: up to the moment the target is given
    back, nothing is in flight that has not been cancelled. *)
Theorem drain_clears probing t s :
  drain_reachable probing t s →
  (∀ l, drPc s = DReturned l → ∀ r, r ∈ l → ctxDone s r = true) ∧
  (probing = false → ∀ o l, drPc s = DRestoring o l →
     state (drTarget s) = TargetStateDraining ∧
     ∀ r, r ∈ dom (inflight (drTarget s)) → ctxDone s r = true).
Proof.
  intros Hr. pose proof (drain_ok_reachable _ _ _ Hr) as Hok. split.
  - intros l Hl r Hin. apply (Hok l []); [by rewrite Hl|done|by intros ?%elem_of_nil].
  - intros -> o l Hl. pose proof (quiet_ok_reachable _ _ Hr) as Hq. unfold quiet_ok in Hq. rewrite Hl in Hq.
    destruct Hq as [Hst Hin]. split; [done|]. intros r Hr'. apply (Hok l []); [by rewrite Hl|by apply Hin|].
    by intros ?%elem_of_nil.
Qed.

(** A drain always returns: from wherever it is once its deadline has
    passed, it takes no further waiting and at most three statements for each
    request it took on, and seven more. *)
Theorem drain_terminates order timer s :
  drExpired s = true →
  ∃ l, drPc (drain_run (drain_measure order (drPc s)) order timer s) = DReturned l.
Proof. intros He. by apply drain_run_returns. Qed.

(** ** Draining beside the health checks *)

(** [DrainAll] puts every state back without telling the load balancer.  A
    probe that succeeds during a drain takes the target out of it, and the pool
    is then computed while the other targets still drain; these come back
    healthy, but outside the pool, and no later successful probe changes a
    state, so that none of them is seen again. *)
Lemma drain_strands_target :
  let lb := LBExamples.up in
  let draining := setStates TargetStateDraining lb in
  let probed := TargetStateChanged (probeCompleted 0 true draining) in
  let restored := setStates TargetStateHealthy probed in
  LB.all_healthy restored ∧ HealthyTargets restored = [0%nat] ∧
  (∀ i t, all restored !! i = Some t → (HealthCheckCompleted true t).2 = false).
Proof.
  cbn zeta. split; [|split].
  - unfold LB.all_healthy. vm_compute. repeat constructor.
  - vm_compute. reflexivity.
  - intros [|[|[|i]]] t Ht; vm_compute in Ht; by simplify_eq.
Qed.

Module DrainExamples.

Definition busy : Target :=
  mkTarget "a:80" false 1 0 TargetStateHealthy
    {[1%nat := Target.mkInflight false false; 2%nat := Target.mkInflight true false]} true.

Definition waiting : Draining :=
  mkDraining (cancelRequest 2 (set_state TargetStateDraining busy)) ∅ true
    (DWaiting TargetStateHealthy [1; 2]%nat [1; 2]%nat).

(** The upgraded connection is cut at once, the other request at the deadline. *)
Lemma drain_terminates_witness :
  drain_run 8 [1; 2]%nat false waiting =
    mkDraining
      (mkTarget "a:80" false 1 0 TargetStateHealthy
         {[1%nat := Target.mkInflight false true; 2%nat := Target.mkInflight true true]} true)
      ∅ true (DReturned [1; 2]%nat) ∧
  ∃ l, drPc (drain_run (drain_measure [1; 2]%nat (drPc waiting)) [1; 2]%nat false waiting) = DReturned l.
Proof. split; [vm_compute; reflexivity|]. apply drain_terminates. reflexivity. Defined.

Definition alone : Target :=
  mkTarget "a:80" false 1 0 TargetStateHealthy {[1%nat := Target.mkInflight false false]} true.

Definition at_pc (b : bool) (e : bool) (pc : DrainPc) : Draining :=
  mkDraining (mkTarget "a:80" false 1 0 TargetStateDraining {[1%nat := Target.mkInflight false b]} true) ∅ e pc.

Lemma alone_own b b' e pc pc' :
  drainNext [1%nat] false (at_pc b e pc) = Some (at_pc b' e pc') →
  drain_step false (at_pc b e pc) (at_pc b' e pc').
Proof. apply drain_own. destruct b; vm_compute; reflexivity. Qed.

Lemma alone_run : drain_reachable false alone (at_pc true true (DRestoring TargetStateHealthy [1%nat])).
Proof.
  apply (rtc_l _ _ (at_pc false false (DSnapshot TargetStateHealthy))).
  { by apply (drain_own _ _ [1%nat] false). }
  eapply rtc_l; [apply alone_own; reflexivity|].
  eapply rtc_l; [apply (alone_own false false); vm_compute; reflexivity|].
  eapply rtc_l; [apply (alone_own false false); vm_compute; reflexivity|].
  eapply rtc_l; [apply drain_expire|].
  eapply rtc_l; [apply (alone_own false false true); vm_compute; reflexivity|].
  eapply rtc_l; [apply (alone_own false true true); vm_compute; reflexivity|].
  eapply rtc_l; [apply (alone_own true true true); vm_compute; reflexivity|].
  apply rtc_refl.
Qed.

Lemma drain_clears_witness :
  ctxDone (at_pc true true (DRestoring TargetStateHealthy [1%nat])) 1 = true.
Proof.
  destruct (drain_clears false alone _ alone_run) as [_ H].
  apply (H eq_refl TargetStateHealthy [1%nat] eq_refl). cbn. apply elem_of_dom. eexists. reflexivity.
Defined.

End DrainExamples.
