(* ===== verification/Retry.v ===== *)
(** * Retrying a request on another target: [internal/server/retry.go]

    The retry policy, which failures and which requests may be retried, and
    the loop that places one request on target after target until one answers
    or the try duration runs out.  The errors of the transport are classified
    by the tests the code makes on them ([errors.As], [errors.Is]).

    The loop runs against an environment: for every iteration, what the clock,
    the load balancer (changed by other goroutines between iterations), the
    transport and the client's context answer.  [serve] consumes a list of
    such iterations; [retry_terminates] shows how many are enough. *)
From S2P Require Import Prelude GoStrings Target Http LoadBalancer.

(** ** Policy *)

Definition DefaultTargetTryInterval : Z := 250 * millisecond.

Record RetryPolicy := mkRetryPolicy { TryDuration : Z; TryInterval : Z }.

Definition retry_enabled (p : RetryPolicy) : bool := 0 <? TryDuration p.

Definition retry_interval (p : RetryPolicy) : Z :=
  if 0 <? TryInterval p then TryInterval p else DefaultTargetTryInterval.

Inductive RetryOptionError :=
  NegativeTryDuration | NegativeTryInterval | IntervalWithoutDuration.

Definition validateRetries (p : RetryPolicy) : result RetryOptionError unit :=
  if TryDuration p <? 0 then Err NegativeTryDuration
  else if TryInterval p <? 0 then Err NegativeTryInterval
  else if (0 <? TryInterval p) && (TryDuration p =? 0) then Err IntervalWithoutDuration
  else Ok tt.

(** ** What may be retried *)

Definition isReplayableRequest (r : Request) : bool :=
  str_contains ["GET"; "HEAD"; "OPTIONS"; "TRACE"; "PUT"; "DELETE"] (Method r) &&
  (ContentLength r =? 0).

(** A transport error, by the tests made on it: the chain of a Go error may
    satisfy several. *)
Record ProxyError := mkProxyError {
  isRequestEntityTooLarge : bool;
  isGatewayTimeout : bool;
  isClientCancellation : bool;
  isDraining : bool;
  isChunkedEncodingError : bool;
  isOpError : bool }.

(** [deadlineExceeded]: the request was cancelled by its own deadline. *)
Definition isRetryableProxyError (deadlineExceeded : bool) (e : ProxyError) : bool :=
  if isDraining e then true
  else if isRequestEntityTooLarge e || isGatewayTimeout e || deadlineExceeded ||
          isClientCancellation e || isChunkedEncodingError e then false
  else isOpError e.

Definition StatusClientClosedRequest : Z := 499.

(** [handleProxyError]: the error recorded for a retry ([None]), or the status
    the client gets. *)
Definition handleProxyError (attempt deadlineExceeded : bool) (e : ProxyError) : option Z :=
  if attempt && isRetryableProxyError deadlineExceeded e then None
  else Some (if isRequestEntityTooLarge e then 413
             else if isGatewayTimeout e then 504
             else if deadlineExceeded then 504
             else if isClientCancellation e then StatusClientClosedRequest
             else if isDraining e then 504
             else if isChunkedEncodingError e then 400
             else 502).

(** ** Pacing *)

(** [waitBeforeRetry]: [now] is the clock it reads; the wait ends with the
    context or with the timer. *)
Definition waitTime (deadline now interval : Z) : Z := Z.min interval (deadline - now).

Definition waitBeforeRetry (deadline now : Z) (ctxDone : bool) : bool :=
  if deadline - now <=? 0 then false else negb ctxDone.

(** [retryLoop.again]: the new hop count, and whether to go round again.
    [healthy] is the size of the pool it looks at. *)
Definition again (deadline now1 : Z) (healthy : Z) (now2 : Z) (ctxDone : bool) (hops : Z)
  : Z * bool :=
  if negb (now1 <? deadline) then (hops, false)
  else if hops <? healthy - 1 then (hops + 1, true)
  else (0, waitBeforeRetry deadline now2 ctxDone).

(** ** The loop *)

(** What one iteration meets. *)
Record Iteration := mkIteration {
  itNow : Z;                          (** the clock in [claimTarget] *)
  itLB : LoadBalancer;                (** the load balancer it claims from *)
  itReq : nat;                        (** the identity of the claimed request *)
  itError : option (bool * ProxyError);  (** what proxying failed with, if it did *)
  itNow1 : Z; itHealthy : Z; itNow2 : Z; itCtxDone : bool }.

Record LoopState := mkLoop {
  loopHops : Z;
  loopRetrying : bool;
  loopSession : option sessionAffinityWriter;
  loopAffinity : bool }.              (** the writer that sets the affinity cookie is in place *)

Inductive ServeOutcome :=
| Served                              (** the target's response *)
| Rendered (status : Z)               (** the target failed and rendered an error *)
| NoTarget                            (** 503: nothing to place the request on *)
| GaveUp (status : Z).                (** out of time after a retryable failure *)

(** A forwarded attempt: the target, whether proxying deferred its error, and
    the request as it was forwarded. *)
Record Sent := mkSent { sentTarget : nat; sentDeferred : bool; sentRequest : Request }.

Definition iterate (forwardHeaders : bool) (deadline : Z) (r : Request) (it : Iteration)
    (s : LoopState) : list Sent * (LoopState * option ServeOutcome) :=
  let replayable := isReplayableRequest r in
  let claiming := if loopRetrying s then ignoreSessionPin r else r in
  let '(hops, more) :=
    again deadline (itNow1 it) (itHealthy it) (itNow2 it) (itCtxDone it) (loopHops s) in
  let loop h rt w := mkLoop h rt w (loopAffinity s) in
  match claimTarget (itNow it) claiming (itReq it) (itLB it) with
  | (_, Err _) =>
      if more then ([], (loop hops true (loopSession s), None))
      else ([], (loop hops (loopRetrying s) (clearSessionPin (loopSession s)), Some NoTarget))
  | (lb, Ok (i, _)) =>
      let addr := match all lb !! i with Some t => address t | None => "" end in
      let req := setTargetHeader forwardHeaders addr claiming in
      let w := pinSession lb (loopSession s) r i in
      match itError it with
      | None => ([mkSent i false req], (loop (loopHops s) (loopRetrying s) w, Some Served))
      | Some (dl, e) =>
          match handleProxyError replayable dl e with
          | Some status =>
              ([mkSent i false req],
               (loop (loopHops s) (loopRetrying s) w, Some (Rendered status)))
          | None =>
              ([mkSent i true req],
               if more then (loop hops true w, None)
               else (loop hops (loopRetrying s) (clearSessionPin w),
                     Some (GaveUp (default 502 (handleProxyError false dl e)))))
          end
      end
  end.

Fixpoint serve (forwardHeaders : bool) (deadline : Z) (r : Request) (its : list Iteration) (s : LoopState)
  : list Sent * (LoopState * option ServeOutcome) :=
  match its with
  | [] => ([], (s, None))
  | it :: its =>
      match iterate forwardHeaders deadline r it s with
      | (sent, (s', Some o)) => (sent, (s', Some o))
      | (sent, (s', None)) =>
          let '(sent', res) := serve forwardHeaders deadline r its s' in (sent ++ sent', res)
      end
  end.

(** [serveWithRetries] of the load balancer [lb] started at [start]. *)
Definition serveWithRetries (forwardHeaders : bool) (p : RetryPolicy) (start : Z)
    (lb : LoadBalancer) (r : Request) (its : list Iteration)
  : list Sent * (LoopState * option ServeOutcome) :=
  let affinity := (0 <? writerAffinityTimeout lb) && hasReaders lb && negb (isReadRequest lb r) in
  serve forwardHeaders (start + TryDuration p) r its (mkLoop 0 false None affinity).

(** ** What time does *)

(** The clock never runs backwards, and a wait that was not cut short lasts
    what was asked for; [bound] bounds the size of the pool. *)
Fixpoint timed (p : RetryPolicy) (deadline bound : Z) (its : list Iteration) (hops t : Z) : Prop :=
  match its with
  | [] => True
  | it :: its =>
      t ≤ itNow1 it ∧ itNow1 it ≤ itNow2 it ∧ itHealthy it ≤ bound ∧
      let waits := negb (hops <? itHealthy it - 1) in
      timed p deadline bound its (if waits then 0 else hops + 1)
        (if waits then itNow2 it + waitTime deadline (itNow2 it) (retry_interval p)
         else itNow1 it)
  end.

(** The number of attempts that fit: one round of the pool per interval begun,
    and one more. *)
Definition max_attempts (p : RetryPolicy) (bound : Z) : Z :=
  ((TryDuration p + retry_interval p - 1) / retry_interval p + 1) * bound.

(** ** Lemmas *)

Lemma retry_interval_pos p : 0 < retry_interval p.
Proof. unfold retry_interval. destruct (Z.ltb_spec 0 (TryInterval p)); [done|]. by vm_compute. Qed.

Lemma again_true deadline now1 healthy now2 ctx hops hops' :
  again deadline now1 healthy now2 ctx hops = (hops', true) →
  now1 < deadline ∧
  if hops <? healthy - 1 then hops' = hops + 1 else hops' = 0 ∧ now2 < deadline ∧ ctx = false.
Proof.
  unfold again, waitBeforeRetry. destruct (now1 <? deadline) eqn:?; cbn; [|done].
  destruct (hops <? healthy - 1); [by intros [= <-]; breflect|].
  destruct (deadline - now2 <=? 0) eqn:?; [done|]. destruct ctx; [done|]. intros [= <-].
  breflect. split; [done|]. split; [done|]. split; [lia|done].
Qed.

(** An iteration that goes round again was told to by [again]. *)
Lemma iterate_more fh deadline r it s sent s' :
  iterate fh deadline r it s = (sent, (s', None)) →
  again deadline (itNow1 it) (itHealthy it) (itNow2 it) (itCtxDone it) (loopHops s) =
    (loopHops s', true) ∧ loopRetrying s' = true ∧
  Forall (λ x, sentDeferred x = true) sent ∧
  (isReplayableRequest r = false → sent = []).
Proof.
  unfold iterate. destruct (again _ _ _ _ _ _) as [hops more].
  destruct (claimTarget _ _ _ _) as [lb [[i rd]|e]].
  - destruct (itError it) as [[dl e]|]; [|done].
    destruct (handleProxyError _ dl e) eqn:Hh; [done|]. destruct more; [|done].
    intros [= <- <-]. cbn. repeat split; [by repeat constructor|].
    intros Hr. by rewrite Hr in Hh.
  - destruct more; [|done]. intros [= <- <-]. by repeat split; constructor.
Qed.

Lemma iterate_done fh deadline r it s sent s' o :
  iterate fh deadline r it s = (sent, (s', Some o)) →
  (length sent ≤ 1)%nat ∧
  (o = NoTarget ∨ (∃ st, o = GaveUp st) →
     ∀ w, loopSession s' = Some w → sawCookie w = None) ∧
  match o with
  | Served | Rendered _ => ∃ x, sent = [x] ∧ sentDeferred x = false
  | NoTarget => sent = []
  | GaveUp _ => ∃ x, sent = [x] ∧ sentDeferred x = true
  end.
Proof.
  assert (Hclear : ∀ v w, clearSessionPin v = Some w → sawCookie w = None)
    by (intros [v|] w; cbn; [by intros [= <-]|done]).
  unfold iterate. destruct (again _ _ _ _ _ _) as [hops more].
  destruct (claimTarget _ _ _ _) as [lb [[i rd]|e]].
  - destruct (itError it) as [[dl e]|].
    + destruct (handleProxyError _ dl e) eqn:Hh.
      * intros [= <- <- <-]. split; [done|]. split; [by intros [?|[? ?]]|by eexists].
      * destruct more; [done|]. intros [= <- <- <-]. split; [done|].
        split; [intros _ w; apply Hclear|by eexists].
    + intros [= <- <- <-]. split; [done|]. split; [by intros [?|[? ?]]|by eexists].
  - destruct more; [done|]. intros [= <- <- <-]. split; [cbn; lia|].
    split; [intros _ w; apply Hclear|done].
Qed.

Lemma serve_app_sent fh deadline r its s sent s' o :
  serve fh deadline r its s = (sent, (s', Some o)) →
  ∃ pre last, sent = pre ++ last ∧ Forall (λ x, sentDeferred x = true) pre ∧
    (isReplayableRequest r = false → pre = []) ∧ (length last ≤ 1)%nat ∧
    (o = NoTarget ∨ (∃ st, o = GaveUp st) →
       ∀ w, loopSession s' = Some w → sawCookie w = None) ∧
    match o with
    | Served | Rendered _ => ∃ x, last = [x] ∧ sentDeferred x = false
    | NoTarget => last = []
    | GaveUp _ => ∃ x, last = [x] ∧ sentDeferred x = true
    end.
Proof.
  revert s sent. induction its as [|it its IH]; intros s sent; cbn [serve]; [done|].
  destruct (iterate fh deadline r it s) as [sent1 [s1 [o1|]]] eqn:Hit.
  - intros [= <- <- <-]. apply iterate_done in Hit. exists [], sent1.
    split; [done|]. split; [constructor|]. split; [done|]. exact Hit.
  - apply iterate_more in Hit as (_ & _ & Hd & Hr).
    destruct (serve fh deadline r its s1) as [sent2 [s2 o2]] eqn:Hserve.
    intros [= <- -> ->]. destruct (IH s1 sent2 Hserve) as (pre & last & -> & Hpre & Hr' & Hrest).
    exists (sent1 ++ pre), last. rewrite app_assoc. split; [done|].
    split; [by apply Forall_app|]. split; [|exact Hrest].
    intros H. by rewrite Hr, Hr'.
Qed.

(** An attempt made while retrying does not honour a session pin. *)
Lemma iterate_ignores_pin fh deadline r it s :
  loopRetrying s = true →
  Forall (λ x, IgnoreSessionPin (sentRequest x) = true) (iterate fh deadline r it s).1.
Proof.
  intros Hs. unfold iterate. rewrite Hs. destruct (again _ _ _ _ _ _) as [hops more].
  destruct (claimTarget _ _ _ _) as [lb [[i rd]|e]].
  - destruct (itError it) as [[dl e]|]; [|by repeat constructor].
    destruct (handleProxyError _ dl e); by repeat constructor.
  - by destruct more; constructor.
Qed.

Lemma serve_ignores_pin fh deadline r its s :
  loopRetrying s = true →
  Forall (λ x, IgnoreSessionPin (sentRequest x) = true) (serve fh deadline r its s).1.
Proof.
  revert s. induction its as [|it its IH]; intros s Hs; cbn [serve]; [constructor|].
  pose proof (iterate_ignores_pin fh deadline r it s Hs) as Hit.
  destruct (iterate fh deadline r it s) as [sent [s' [o|]]] eqn:E; [done|].
  apply iterate_more in E as (_ & Hr & _). specialize (IH s' Hr).
  destruct (serve fh deadline r its s') as [sent' res]. by apply Forall_app.
Qed.

(** Only the very first attempt may: an iteration forwards at most once. *)
Lemma serve_pin_once fh deadline r its s :
  Forall (λ x, IgnoreSessionPin (sentRequest x) = true) (tail (serve fh deadline r its s).1).
Proof.
  destruct its as [|it its]; cbn [serve]; [constructor|].
  destruct (iterate fh deadline r it s) as [sent [s' [o|]]] eqn:E.
  - apply iterate_done in E as [Hlen _]. destruct sent as [|x [|y l]]; cbn in *; [constructor..|lia].
  - pose proof E as (_ & Hr & _)%iterate_more.
    pose proof (serve_ignores_pin fh deadline r its s' Hr) as Hs.
    assert (length sent ≤ 1)%nat as Hlen.
    { revert E. unfold iterate. destruct (again _ _ _ _ _ _) as [hops [|]];
        destruct (claimTarget _ _ _ _) as [lb [[i rd]|e]];
        repeat case_match; intros [= <- _]; cbn; lia. }
    destruct (serve fh deadline r its s') as [sent' res].
    destruct sent as [|x [|y l]]; cbn in *; [|done|lia]. by apply Forall_tail.
Qed.

(** The rounds left at time [t], and the measure every iteration lowers. *)
Definition rounds (p : RetryPolicy) (deadline t : Z) : Z :=
  (deadline - t + retry_interval p - 1) / retry_interval p.

Lemma rounds_mono p deadline t u : t ≤ u → rounds p deadline u ≤ rounds p deadline t.
Proof. intros. apply Z.div_le_mono; [apply retry_interval_pos|lia]. Qed.

Lemma rounds_pos p deadline t : t < deadline → 1 ≤ rounds p deadline t.
Proof.
  intros. pose proof (retry_interval_pos p). unfold rounds.
  apply Z.div_le_lower_bound; lia.
Qed.

Lemma rounds_wait p deadline t :
  t < deadline →
  rounds p deadline (t + waitTime deadline t (retry_interval p)) ≤ rounds p deadline t - 1.
Proof.
  intros Ht. pose proof (retry_interval_pos p) as Hi. unfold waitTime.
  destruct (Z.le_gt_cases (retry_interval p) (deadline - t)).
  - rewrite Z.min_l by done. unfold rounds.
    replace (deadline - (t + retry_interval p) + retry_interval p - 1)
      with (deadline - t + retry_interval p - 1 + (-1) * retry_interval p) by lia.
    rewrite Z.div_add by lia. lia.
  - rewrite Z.min_r by lia. pose proof (rounds_pos p deadline t Ht).
    replace (rounds p deadline (t + (deadline - t))) with 0; [lia|].
    unfold rounds. rewrite Z.div_small; lia.
Qed.

Lemma serve_finishes fh p deadline bound r its s t :
  1 ≤ bound → 0 ≤ loopHops s ≤ bound - 1 → timed p deadline bound its (loopHops s) t →
  Z.max 0 (rounds p deadline t) * bound + (bound - loopHops s) < Z.of_nat (length its) →
  is_Some (serve fh deadline r its s).2.2.
Proof.
  intros Hb. revert s t. induction its as [|it its IH]; intros s t Hh Ht Hlen.
  { cbn in Hlen. nia. }
  cbn [serve]. destruct (iterate fh deadline r it s) as [sent [s' [o|]]] eqn:Hit; [by eexists|].
  apply iterate_more in Hit as (Ha & _ & _). apply again_true in Ha as [Hlt Ha].
  destruct Ht as (H1 & H2 & H3 & Ht). cbn [length] in Hlen.
  assert (is_Some (serve fh deadline r its s').2.2) as HS.
  { destruct (loopHops s <? itHealthy it - 1) eqn:Hhop; cbn [negb] in Ht.
    - breflect. rewrite <-Ha in Ht. eapply IH; [lia|done|].
      pose proof (rounds_mono p deadline t (itNow1 it) H1). nia.
    - destruct Ha as (Ha & Hn2 & _). rewrite <-Ha in Ht. eapply IH; [lia|done|].
      pose proof (rounds_mono p deadline t (itNow2 it)).
      pose proof (rounds_wait p deadline (itNow2 it) Hn2).
      pose proof (rounds_pos p deadline (itNow2 it) Hn2). nia. }
  by destruct (serve fh deadline r its s') as [? [? ?]].
Qed.

(** ** Theorems *)

(** C9: a request is answered from at most one target: every forwarded
    attempt but the last ended in a deferred, retryable failure, so nothing
    reached the client before it; a request that cannot be replayed is
    forwarded at most once.  A session pin is honoured on the first attempt
    only, and when the loop gives up, no pin of a failed attempt is left on
    the response. *)
Theorem retry_answers_once fh p start lb r its sent s o :
  serveWithRetries fh p start lb r its = (sent, (s, Some o)) →
  (isReplayableRequest r = false → (length sent ≤ 1)%nat) ∧
  Forall (λ x, IgnoreSessionPin (sentRequest x) = true) (tail sent) ∧
  ∃ pre last, sent = pre ++ last ∧ Forall (λ x, sentDeferred x = true) pre ∧
    match o with
    | Served | Rendered _ => ∃ x, last = [x] ∧ sentDeferred x = false
    | NoTarget => last = []
    | GaveUp _ => ∃ x, last = [x] ∧ sentDeferred x = true
    end ∧
    (o = NoTarget ∨ (∃ st, o = GaveUp st) →
       ∀ w, loopSession s = Some w → sawCookie w = None).
Proof.
  unfold serveWithRetries. intros H. split_and!.
  - intros Hn. apply serve_app_sent in H as (pre & last & -> & _ & ->%(λ H, H Hn) & Hlen & _). done.
  - match type of H with ?x = _ => pose proof (f_equal fst H) as H'; cbn in H' end.
    rewrite <-H'. apply serve_pin_once.
  - apply serve_app_sent in H as (pre & last & -> & Hd & _ & _ & Hpin & Ho). by exists pre, last.
Qed.

(** The loop ends: with a pool of at most [bound] healthy targets, a
    clock that does not run backwards and waits that last what was asked for,
    the request is answered after at most [max_attempts] iterations, about
    [bound] attempts per try interval of the try duration. *)
Theorem retry_terminates fh p start bound lb r its :
  1 ≤ bound → 0 ≤ TryDuration p →
  timed p (start + TryDuration p) bound its 0 start →
  max_attempts p bound < Z.of_nat (length its) →
  ∃ sent s o, serveWithRetries fh p start lb r its = (sent, (s, Some o)).
Proof.
  intros Hb Hd Ht Hlen. unfold serveWithRetries.
  destruct (serve_finishes fh p (start + TryDuration p) bound r its
    (mkLoop 0 false None ((0 <? writerAffinityTimeout lb) && hasReaders lb && negb (isReadRequest lb r))) start)
    as [o Ho]; [done|cbn; lia|done| |].
  - cbn. unfold max_attempts, rounds in *.
    replace (start + TryDuration p - start) with (TryDuration p) by lia.
    pose proof (retry_interval_pos p).
    assert (0 ≤ (TryDuration p + retry_interval p - 1) / retry_interval p)
      by (apply Z.div_pos; lia). nia.
  - destruct (serve _ _ _ _) as [sent [s' o']]. cbn in Ho. subst. eauto.
Qed.

(** ** Witnesses *)

Module RetryExamples.
Import LBExamples.
Definition policy : RetryPolicy := mkRetryPolicy (1 * second) 0.
Definition refused : ProxyError := mkProxyError false false false false false true.
Definition it (now : Z) (err : option (bool * ProxyError)) : Iteration :=
  mkIteration now up 1 err now 3 now false.

(** What the examples look at of a run. *)
Definition attempts_of (x : list Sent * (LoopState * option ServeOutcome)) : list (nat * bool * bool) :=
  map (λ y, (sentTarget y, sentDeferred y, IgnoreSessionPin (sentRequest y))) x.1.

Example post_is_not_replayed :
  let x := serveWithRetries false policy 0 up (post []) [it 0 (Some (false, refused))] in
  attempts_of x = [(1%nat, false, false)] ∧ x.2.2 = Some (Rendered 502).
Proof. vm_compute. done. Qed.

Definition two : list Iteration := [it 0 (Some (false, refused)); it 1 None].

Lemma retry_answers_once_witness :
  let x := serveWithRetries false policy 0 up (get []) two in
  x.2.2 = Some Served ∧ attempts_of x = [(2%nat, true, false); (2%nat, false, true)] ∧
  Forall (λ x, IgnoreSessionPin (sentRequest x) = true) (tail x.1).
Proof.
  split; [vm_compute; reflexivity|]. split; [vm_compute; reflexivity|].
  apply (retry_answers_once false policy 0 up (get []) two
    (serveWithRetries false policy 0 up (get []) two).1
    (serveWithRetries false policy 0 up (get []) two).2.1 Served).
  vm_compute. reflexivity.
Defined.

(** Every attempt is refused; the clock moves by the interval each wait. *)
Fixpoint outage (n : nat) (t : Z) : list Iteration :=
  match n with
  | O => []
  | S n => mkIteration t up 1 (Some (false, refused)) t 1 t false ::
           outage n (t + 250 * millisecond)
  end.

Lemma retry_terminates_witness :
  max_attempts policy 1 = 5 ∧
  ∃ sent s o, serveWithRetries false policy 0 up (get []) (outage 6 0) = (sent, (s, Some o)).
Proof.
  split; [vm_compute; reflexivity|].
  apply (retry_terminates false policy 0 1 up (get []) (outage 6 0)).
  - lia.
  - vm_compute. discriminate.
  - vm_compute. repeat split; discriminate.
  - vm_compute. reflexivity.
Defined.

(** A read that first failed on a writer and is then served by a replica still
    carries the failed writer's pin: [pinSession] leaves the writer alone for
    a read-only target. *)
Definition writers_only : LoadBalancer :=
  with_pools (writers pinned) [] pinned.

Example replica_answer_keeps_failed_pin :
  let its := [mkIteration 0 writers_only 1 (Some (false, refused)) 0 3 0 false;
              mkIteration 1 pinned 2 None 1 3 1 false] in
  let x := serveWithRetries false policy 0 pinned (get []) its in
  attempts_of x = [(1%nat, true, false); (2%nat, false, true)] ∧ x.2.2 = Some Served ∧
  loopSession x.2.1 = Some (mkSAW (Some (mkCookie "kamal-session" "id-w2:80" false None)) false).
Proof. vm_compute. done. Qed.
End RetryExamples.
