(* ===== verification/Deadlines.v ===== *)
(** * Timeouts per path and whole-request deadlines:
    [internal/server/path_timeouts.go], [request_deadline_middleware.go] and
    [Target.handlerForRequest]

    The timeout of a path is that of the longest configured prefix it falls
    below.  The deadline middleware arms a timer for a request that is not a
    stream, and stops it when the response turns out to be one; it is modelled
    as the run of a sequence of timed writer calls. *)
From S2P Require Import Prelude GoStrings ServiceMap Target Http LoadBalancer.

(** ** Path timeouts *)

Record PathTimeout := mkPathTimeout { ptPrefix : string; ptTimeout : Z }.

#[export] Instance PathTimeout_eq_dec : EqDecision PathTimeout.
Proof. solve_decision. Defined.

Definition cmp_timeouts (a b : PathTimeout) : Z :=
  let diff := str_len (ptPrefix b) - str_len (ptPrefix a) in
  if negb (diff =? 0) then diff else Compare (ptPrefix a) (ptPrefix b).

Definition normalize_timeout (t : PathTimeout) : PathTimeout :=
  mkPathTimeout (NormalizePathPrefix (ptPrefix t)) (ptTimeout t).

Definition NormalizePathTimeouts `{!SortFunc} (l : list PathTimeout) : list PathTimeout :=
  match l with
  | [] => []
  | _ => sort_func cmp_timeouts (map normalize_timeout l)
  end.

Fixpoint ResolvePathTimeout (path : string) (l : list PathTimeout) (fallback : Z) : Z :=
  match l with
  | [] => fallback
  | t :: l => if PathMatchesPrefix path (ptPrefix t) then ptTimeout t
              else ResolvePathTimeout path l fallback
  end.

(** The response timeout of the proxy handler [handlerForRequest] chooses:
    one handler per normalized path timeout, else the service-wide one. *)
Definition handlerForRequest (path : string) (pathProxyHandlers : list PathTimeout)
    (proxyHandler : Z) : Z :=
  match List.find (λ h, PathMatchesPrefix path (ptPrefix h)) pathProxyHandlers with
  | Some h => ptTimeout h
  | None => proxyHandler
  end.

(** ** The deadline middleware *)

Definition isStreamingRequest (r : Request) : bool :=
  isWebSocketRequest r ||
  existsb (λ a, Contains (ToLower a) "text/event-stream") (hdr_values (ReqHeader r) "Accept").

(** The timer [ServeHTTP] arms, if any. *)
Definition armed (timeout : Z) (l : list PathTimeout) (r : Request) : option Z :=
  let timeout := ResolvePathTimeout (URLPath r) l timeout in
  if (timeout <=? 0) || isStreamingRequest r then None else Some timeout.

(** [isStreamingResponse]: [contentType] is the header when it is written. *)
Definition isStreamingResponse (code : Z) (contentType : string) : bool :=
  if code =? 101 then true
  else let ct := match Cut contentType ";" with Some (x, _) => x | None => contentType end in
       String.eqb (TrimSpace ct) "text/event-stream".

#[global] Arguments isStreamingResponse : simpl never.

(** What the handler does with the writer, with the clock at each call. *)
Inductive writer_event :=
| EvWriteHeader (t code : Z) (contentType : string)
| EvWrite (t : Z) (contentType : string)
| EvHijack (t : Z).

Definition event_time (e : writer_event) : Z :=
  match e with EvWriteHeader t _ _ => t | EvWrite t _ => t | EvHijack t => t end.

Record deadlineResponseWriter := mkDRW {
  drwTimer : option Z;        (** when the pending timer fires *)
  drwFired : bool;            (** the request was cancelled by its deadline *)
  drwHeaderWritten : bool }.

Definition expire (t : Z) (w : deadlineResponseWriter) : deadlineResponseWriter :=
  match drwTimer w with
  | Some d => if d <=? t then mkDRW None true (drwHeaderWritten w) else w
  | None => w
  end.

Definition stopDeadline (w : deadlineResponseWriter) : deadlineResponseWriter :=
  mkDRW None (drwFired w) (drwHeaderWritten w).

Definition drwWriteHeader (code : Z) (contentType : string) (w : deadlineResponseWriter)
  : deadlineResponseWriter :=
  if drwHeaderWritten w then w
  else let w := mkDRW (drwTimer w) (drwFired w) true in
       if isStreamingResponse code contentType then stopDeadline w else w.

Definition drw_event (w : deadlineResponseWriter) (e : writer_event) : deadlineResponseWriter :=
  let w := expire (event_time e) w in
  match e with
  | EvWriteHeader _ code ct => drwWriteHeader code ct w
  | EvWrite _ ct => if drwHeaderWritten w then w else drwWriteHeader 200 ct w
  | EvHijack _ => stopDeadline w
  end.

(** The request served from [start]; the handler returns at [finish], which
    stops the timer.  True when the deadline cancelled it. *)
Definition deadlineExceeded (start : Z) (timer : option Z) (events : list writer_event)
    (finish : Z) : bool :=
  drwFired (expire finish
    (foldl drw_event (mkDRW ((λ d, start + d) <$> timer) false false) events)).

(** ** Lemmas *)

Lemma cmp_timeouts_total a b : cmp_timeouts a b ≤ 0 ∨ cmp_timeouts b a ≤ 0.
Proof.
  unfold cmp_timeouts. pose proof (Compare_total (ptPrefix a) (ptPrefix b)).
  destruct (Z.eqb_spec (str_len (ptPrefix b) - str_len (ptPrefix a)) 0),
    (Z.eqb_spec (str_len (ptPrefix a) - str_len (ptPrefix b)) 0); cbn; lia.
Qed.

Lemma cmp_timeouts_trans a b c :
  cmp_timeouts a b ≤ 0 → cmp_timeouts b c ≤ 0 → cmp_timeouts a c ≤ 0.
Proof.
  unfold cmp_timeouts. pose proof (Compare_trans (ptPrefix a) (ptPrefix b) (ptPrefix c)).
  destruct (Z.eqb_spec (str_len (ptPrefix b) - str_len (ptPrefix a)) 0),
    (Z.eqb_spec (str_len (ptPrefix c) - str_len (ptPrefix b)) 0),
    (Z.eqb_spec (str_len (ptPrefix c) - str_len (ptPrefix a)) 0); cbn; lia.
Qed.

Lemma cmp_timeouts_len a b :
  cmp_timeouts a b ≤ 0 → str_len (ptPrefix b) ≤ str_len (ptPrefix a).
Proof.
  unfold cmp_timeouts.
  destruct (Z.eqb_spec (str_len (ptPrefix b) - str_len (ptPrefix a)) 0); cbn; lia.
Qed.

Lemma Resolve_find path l fallback :
  ResolvePathTimeout path l fallback =
  match List.find (λ t, PathMatchesPrefix path (ptPrefix t)) l with
  | Some t => ptTimeout t
  | None => fallback
  end.
Proof. induction l as [|t l IH]; cbn; [done|]. by destruct (PathMatchesPrefix _ _). Qed.

Section normalized.
Context `{!SortFunc, !SortFuncSpec}.

Lemma NormalizePathTimeouts_perm l : NormalizePathTimeouts l ≡ₚ map normalize_timeout l.
Proof. destruct l; [done|]. apply sort_func_perm. Qed.

Lemma NormalizePathTimeouts_sorted l :
  StronglySorted (λ a b, cmp_timeouts a b ≤ 0) (NormalizePathTimeouts l).
Proof.
  destruct l; [constructor|]. apply sort_func_sorted; [|apply cmp_timeouts_total].
  intros x y z. apply cmp_timeouts_trans.
Qed.

(** The first match of the normalized list is the longest. *)
Lemma find_longest path l t :
  List.find (λ t, PathMatchesPrefix path (ptPrefix t)) (NormalizePathTimeouts l) = Some t →
  t ∈ map normalize_timeout l ∧ PathMatchesPrefix path (ptPrefix t) = true ∧
  ∀ u, u ∈ map normalize_timeout l → PathMatchesPrefix path (ptPrefix u) = true →
    str_len (ptPrefix u) ≤ str_len (ptPrefix t).
Proof.
  intros (l1 & l2 & Heq & Ht & Hl1)%find_some_split.
  pose proof (NormalizePathTimeouts_sorted l) as Hs. rewrite Heq in Hs.
  setoid_rewrite <-(NormalizePathTimeouts_perm l). rewrite Heq.
  split; [set_solver|]. split; [done|]. intros u Hu Hm.
  apply elem_of_app in Hu as [Hu|[->|Hu]%elem_of_cons]; [|done|].
  - rewrite Forall_forall in Hl1. rewrite Hl1 in Hm by done. done.
  - apply StronglySorted_app_1_r, StronglySorted_inv in Hs as [_ Hs].
    rewrite Forall_forall in Hs. apply cmp_timeouts_len; auto.
Qed.
End normalized.

Lemma drw_no_timer w e : drwTimer w = None → drwTimer (drw_event w e) = None ∧
  drwFired (drw_event w e) = drwFired w.
Proof.
  intros H. unfold drw_event, expire, drwWriteHeader. rewrite H. destruct e; cbn; [..|done].
  - destruct (drwHeaderWritten w); [done|]. by destruct (isStreamingResponse _ _).
  - destruct (drwHeaderWritten w); [done|]. by destruct (isStreamingResponse _ _).
Qed.

Lemma drw_stopped w events finish :
  drwTimer w = None → drwFired (expire finish (foldl drw_event w events)) = drwFired w.
Proof.
  revert w. induction events as [|e events IH]; intros w H; cbn.
  - unfold expire. by rewrite H.
  - destruct (drw_no_timer w e H) as [H1 H2]. by rewrite IH.
Qed.

(** Calls before the deadline that do not turn the response into a stream. *)
Definition plain_event (e : writer_event) : bool :=
  match e with
  | EvWriteHeader _ code ct => negb (isStreamingResponse code ct)
  | EvWrite _ ct => negb (isStreamingResponse 200 ct)
  | EvHijack _ => false
  end.

Lemma drw_plain w events d :
  drwTimer w = Some d → drwFired w = false →
  Forall (λ e, plain_event e = true ∨ drwHeaderWritten w = true ∧ ∀ t, e ≠ EvHijack t) events →
  Forall (λ e, event_time e < d) events →
  let w' := foldl drw_event w events in drwTimer w' = Some d ∧ drwFired w' = false.
Proof.
  intros Ht Hf. revert w Ht Hf. induction events as [|e events IH]; intros w Ht Hf Hp Hd; [done|].
  apply Forall_cons in Hp as [Hp Hps]. apply Forall_cons in Hd as [Hd Hds].
  assert (Hexp : expire (event_time e) w = w).
  { unfold expire. rewrite Ht. destruct (Z.leb_spec d (event_time e)); [lia|done]. }
  assert (Hnext : drwTimer (drw_event w e) = Some d ∧ drwFired (drw_event w e) = false ∧
    (drwHeaderWritten w = true → drwHeaderWritten (drw_event w e) = true)).
  { unfold drw_event, drwWriteHeader. rewrite Hexp.
    destruct e as [t code ct|t ct|t]; cbn in *;
      [..|destruct Hp as [?|[_ Hp]]; [done|by destruct (Hp t)]];
      (destruct (drwHeaderWritten w) eqn:?; [done|]);
      (destruct Hp as [Hp|[? _]]; [|done]); apply negb_true_iff in Hp; rewrite Hp; done. }
  destruct Hnext as (H1 & H2 & H3). cbn [foldl]. apply IH; [done..| |done].
  eapply Forall_impl; [exact Hps|]. cbn. intros x [?|[? ?]]; [by left|right; auto].
Qed.

(** ** Theorems *)

(** The timeout of a path is the timeout of the most specific configured
    prefix it falls below, whatever the order the prefixes were given in, and
    the service-wide one when it falls below none; the proxy handler chosen
    for the path carries that same timeout. *)
Theorem path_timeout_most_specific `{!SortFunc, !SortFuncSpec} path l fallback :
  let l' := NormalizePathTimeouts l in
  handlerForRequest path l' fallback = ResolvePathTimeout path l' fallback ∧
  ((∃ t, t ∈ l ∧ PathMatchesPrefix path (NormalizePathPrefix (ptPrefix t)) = true ∧
      ResolvePathTimeout path l' fallback = ptTimeout t ∧
      ∀ u, u ∈ l → PathMatchesPrefix path (NormalizePathPrefix (ptPrefix u)) = true →
        str_len (NormalizePathPrefix (ptPrefix u)) ≤ str_len (NormalizePathPrefix (ptPrefix t)))
   ∨ (Forall (λ t, PathMatchesPrefix path (NormalizePathPrefix (ptPrefix t)) = false) l ∧
      ResolvePathTimeout path l' fallback = fallback)).
Proof.
  cbn zeta. rewrite Resolve_find. split; [done|].
  destruct (List.find _ (NormalizePathTimeouts l)) as [t|] eqn:Hfind.
  - left. apply find_longest in Hfind as (Hin & Hm & Hmax).
    apply list_elem_of_fmap in Hin as (t0 & -> & Hin). exists t0.
    split; [done|]. split; [done|]. split; [done|]. intros u Hu Hmu.
    apply (Hmax (normalize_timeout u)); [|done]. by apply list_elem_of_fmap_2.
  - right. split; [|done]. apply find_none_Forall in Hfind.
    rewrite NormalizePathTimeouts_perm, Forall_fmap in Hfind. exact Hfind.
Qed.

(** A whole-request deadline cuts off exactly the requests it is meant
    for.  When the first call on the writer comes in time and announces a
    stream or hijacks the connection, the request is never cancelled, however
    long it lasts; when it starts an ordinary response, the request is
    cancelled exactly if it is not finished by the deadline. *)
Theorem deadline_spares_streams start timeout l r d e after finish :
  armed timeout l r = Some d → event_time e < start + d →
  (plain_event e = false →
     deadlineExceeded start (armed timeout l r) (e :: after) finish = false) ∧
  (plain_event e = true → Forall (λ e, ∀ t, e ≠ EvHijack t) after →
   Forall (λ e, event_time e < start + d) after →
     deadlineExceeded start (armed timeout l r) (e :: after) finish = (start + d <=? finish)).
Proof.
  intros -> He.
  unfold deadlineExceeded. cbn [fmap option_fmap option_map foldl].
  set (w0 := mkDRW (Some (start + d)) false false).
  assert (Hexp : expire (event_time e) w0 = w0).
  { cbn. destruct (Z.leb_spec (start + d) (event_time e)); [lia|done]. }
  split.
  - intros Hs. rewrite drw_stopped; unfold drw_event; rewrite Hexp; destruct e; cbn in *;
      try done; apply negb_false_iff in Hs; unfold drwWriteHeader; cbn; by rewrite Hs.
  - intros Hp Hnh Hbefore.
    assert (H1 : drwTimer (drw_event w0 e) = Some (start + d) ∧
                 drwFired (drw_event w0 e) = false ∧ drwHeaderWritten (drw_event w0 e) = true).
    { unfold drw_event. rewrite Hexp. destruct e; cbn in *; [..|done];
        apply negb_true_iff in Hp; unfold drwWriteHeader; cbn; by rewrite Hp. }
    destruct H1 as (H1 & H2 & H3).
    destruct (drw_plain (drw_event w0 e) after (start + d)) as [H4 H5]; [done..| |done|].
    + eapply Forall_impl; [exact Hnh|]. cbn. auto.
    + unfold expire. rewrite H4. destruct (start + d <=? finish); cbn; [done|]. by rewrite H5.
Qed.

(** ** Witnesses *)

Module DeadlineExamples.
Definition get (path : string) : Request :=
  mkRequest "GET" "example.com" path "" "" false false "10.0.0.1:1" ∅ [] 0 None false false.

Example specific_wins :
  ResolvePathTimeout "/api/reports/1"
    (@NormalizePathTimeouts insertion_SortFunc
       [mkPathTimeout "/api" 5; mkPathTimeout "api/reports/" 60]) 30 = 60.
Proof. vm_compute. reflexivity. Qed.

Lemma path_timeout_most_specific_witness :
  let l := [mkPathTimeout "/api" 5; mkPathTimeout "api/reports/" 60] in
  handlerForRequest "/api/x" (@NormalizePathTimeouts insertion_SortFunc l) 30 = 5.
Proof.
  destruct (@path_timeout_most_specific insertion_SortFunc insertion_SortFuncSpec "/api/x"
    [mkPathTimeout "/api" 5; mkPathTimeout "api/reports/" 60] 30) as [H _].
  cbv zeta. rewrite H. vm_compute. reflexivity.
Defined.

Lemma deadline_spares_streams_witness :
  deadlineExceeded 0 (armed (3 * second) [] (get "/events"))
    [EvWriteHeader 1 200 "text/event-stream; charset=utf-8"] (60 * second) = false.
Proof.
  apply (deadline_spares_streams 0 (3 * second) [] (get "/events") (3 * second)
    (EvWriteHeader 1 200 "text/event-stream; charset=utf-8") [] (60 * second));
    vm_compute; reflexivity.
Defined.

(** An informational response before the stream hides it: its header block is
    the one that is looked at. *)
Example early_hints_hide_the_stream :
  deadlineExceeded 0 (armed (3 * second) [] (get "/events"))
    [EvWriteHeader 1 103 ""; EvWriteHeader 2 200 "text/event-stream"] (60 * second) = true.
Proof. vm_compute. reflexivity. Qed.
End DeadlineExamples.
