(* ===== verification/HeaderRules.v ===== *)
(** * Header rules: [internal/server/header_rules.go]

    The header changes a service asks for, parsed from flags and applied to
    the header of a request or a response: removals, then sets, then adds. *)
From S2P Require Import Prelude GoStrings Http.

(** ** Data *)

Inductive headerDirection := requestHeaderDirection | responseHeaderDirection.

#[export] Instance headerDirection_eq_dec : EqDecision headerDirection.
Proof. solve_decision. Defined.

Record HeaderRule := mkHeaderRule { hrName : string; hrValue : string }.

Record HeaderRules := mkHeaderRules {
  Remove : list string;
  SetRules : list HeaderRule;
  AddRules : list HeaderRule }.

Record HeaderRuleFlags := mkHeaderRuleFlags {
  flagRemove : list string;
  flagSet : list string;
  flagAdd : list string }.

Inductive HeaderRuleError :=
| MissingColon (value : string)
| InvalidHeaderValue (name value : string)
| InvalidHeaderName (name : string)
| CannotRewriteHost.

(** ** Parsing *)

Definition parseHeaderName (d : headerDirection) (name : string) : result HeaderRuleError string :=
  if negb (ValidHeaderFieldName name) then Err (InvalidHeaderName name)
  else let canonical := CanonicalHeaderKey name in
       if bool_decide (d = requestHeaderDirection) && String.eqb canonical "Host"
       then Err CannotRewriteHost
       else Ok canonical.

Definition parseHeaderNames (d : headerDirection) (values : list string)
  : result HeaderRuleError (list string) :=
  mapM_result (λ v, parseHeaderName d (TrimSpace v)) values.

Definition parseHeaderRule (d : headerDirection) (value : string)
  : result HeaderRuleError HeaderRule :=
  match Cut value colon with
  | None => Err (MissingColon value)
  | Some (rawName, rawValue) =>
      name ← parseHeaderName d (TrimSpace rawName);
      let headerValue := TrimSpace rawValue in
      if negb (ValidHeaderFieldValue headerValue)
      then Err (InvalidHeaderValue name headerValue)
      else Ok (mkHeaderRule name headerValue)
  end.

Definition parseHeaderRules (d : headerDirection) (values : list string)
  : result HeaderRuleError (list HeaderRule) :=
  mapM_result (parseHeaderRule d) values.

Definition newHeaderRules (flags : HeaderRuleFlags) (d : headerDirection)
  : result HeaderRuleError HeaderRules :=
  remove ← parseHeaderNames d (flagRemove flags);
  set ← parseHeaderRules d (flagSet flags);
  add ← parseHeaderRules d (flagAdd flags);
  Ok (mkHeaderRules remove set add).

(** ** Applying *)

Definition apply_remove (names : list string) (h : gmap string (list string)) :=
  foldl hdr_del h names.

Definition apply_set (rules : list HeaderRule) (h : gmap string (list string)) :=
  foldl (λ h r, hdr_set h (hrName r) (hrValue r)) h rules.

Definition apply_add (rules : list HeaderRule) (h : gmap string (list string)) :=
  foldl (λ h r, hdr_add h (hrName r) (hrValue r)) h rules.

Definition apply (hr : HeaderRules) (h : gmap string (list string)) : gmap string (list string) :=
  apply_add (AddRules hr) (apply_set (SetRules hr) (apply_remove (Remove hr) h)).

(** ** What the rules ask for *)

Definition same_header (n m : string) : bool :=
  String.eqb (CanonicalHeaderKey n) (CanonicalHeaderKey m).

Definition values_for (n : string) (rules : list HeaderRule) : list string :=
  hrValue <$> filter (λ r, same_header (hrName r) n = true) rules.

(** The values of one header after the rules: what is added comes after what
    the last set gives, and a set or a removal drops what was there. *)
Definition ruled (hr : HeaderRules) (n : string) (old : list string) : list string :=
  let base := match last (values_for n (SetRules hr)) with
              | Some v => [v]
              | None => if existsb (same_header n) (Remove hr) then [] else old
              end in
  base ++ values_for n (AddRules hr).

(** ** Lemmas *)

Lemma same_header_true n m :
  same_header n m = true ↔ CanonicalHeaderKey n = CanonicalHeaderKey m.
Proof. apply String.eqb_eq. Qed.

Lemma same_header_false n m :
  same_header n m = false ↔ CanonicalHeaderKey n ≠ CanonicalHeaderKey m.
Proof. apply String.eqb_neq. Qed.

Lemma same_header_sym n m : same_header n m = same_header m n.
Proof. apply String.eqb_sym. Qed.

Lemma values_for_snoc n rules r :
  values_for n (rules ++ [r]) =
  values_for n rules ++ (if same_header (hrName r) n then [hrValue r] else []).
Proof.
  unfold values_for. rewrite filter_app, fmap_app. f_equal.
  destruct (same_header (hrName r) n) eqn:E.
  - by rewrite filter_cons_True.
  - rewrite filter_cons_False; [done|]. by rewrite E.
Qed.

Lemma apply_remove_values names h n :
  hdr_values (apply_remove names h) n =
  if existsb (same_header n) names then [] else hdr_values h n.
Proof.
  unfold apply_remove. induction names as [|m names IH] using rev_ind; [done|].
  rewrite foldl_app, existsb_app. cbn [foldl existsb].
  destruct (same_header n m) eqn:E.
  - apply same_header_true in E. rewrite orb_true_r.
    erewrite hdr_values_key by exact E. apply hdr_values_del_eq.
  - rewrite hdr_values_del_ne by (apply same_header_false; by rewrite same_header_sym).
    by rewrite IH, !orb_false_r.
Qed.

Lemma apply_set_values rules h n :
  hdr_values (apply_set rules h) n =
  match last (values_for n rules) with Some v => [v] | None => hdr_values h n end.
Proof.
  unfold apply_set. induction rules as [|r rules IH] using rev_ind; [done|].
  rewrite foldl_app, values_for_snoc. cbn [foldl].
  destruct (same_header (hrName r) n) eqn:E.
  - rewrite last_snoc. apply same_header_true in E.
    erewrite <-hdr_values_key by exact E. apply hdr_values_set_eq.
  - rewrite app_nil_r, hdr_values_set_ne by by apply same_header_false. exact IH.
Qed.

Lemma apply_add_values rules h n :
  hdr_values (apply_add rules h) n = hdr_values h n ++ values_for n rules.
Proof.
  unfold apply_add. induction rules as [|r rules IH] using rev_ind.
  { by rewrite app_nil_r. }
  rewrite foldl_app, values_for_snoc. cbn [foldl].
  destruct (same_header (hrName r) n) eqn:E.
  - apply same_header_true in E.
    erewrite <-hdr_values_key by exact E. rewrite hdr_values_add_eq.
    erewrite hdr_values_key by exact E. by rewrite IH, app_assoc.
  - rewrite app_nil_r, hdr_values_add_ne by by apply same_header_false. exact IH.
Qed.

Lemma Forall2_image {A B} (R : A → B → Prop) (P : B → Prop) l k :
  (∀ x y, R x y → P y) → Forall2 R l k → Forall P k.
Proof. intros HP. induction 1; constructor; eauto. Qed.

(** A name the parser lets through. *)
Definition name_ok (d : headerDirection) (n : string) : Prop :=
  CanonicalHeaderKey n = n ∧ (d = requestHeaderDirection → n ≠ "Host").

Definition rule_ok (d : headerDirection) (r : HeaderRule) : Prop :=
  name_ok d (hrName r) ∧ ValidHeaderFieldValue (hrValue r) = true.

Lemma parseHeaderName_ok d s n : parseHeaderName d s = Ok n → name_ok d n.
Proof.
  unfold parseHeaderName. destruct (ValidHeaderFieldName s); cbn; [|done].
  destruct (_ && _) eqn:E; [done|]. intros [= <-].
  split; [apply CanonicalHeaderKey_idemp|]. intros -> Hh. by rewrite Hh in E.
Qed.

Lemma parseHeaderRule_ok d s r : parseHeaderRule d s = Ok r → rule_ok d r.
Proof.
  unfold parseHeaderRule. destruct (Cut s colon) as [[x y]|]; [|done].
  intros (n & Hn%parseHeaderName_ok & H)%result_bind_ok. cbn zeta in H.
  destruct (ValidHeaderFieldValue (TrimSpace y)) eqn:E; [|done]. cbn in H.
  injection H as <-. by split.
Qed.

(** ** Theorems *)

(** Applying a rule set gives every header exactly the values the rules
    ask for: removals first, then the last set of that header, then all adds
    in order, with names compared as HTTP compares them; a header no rule
    names keeps its values. *)
Theorem header_rules_effect hr h n :
  hdr_values (apply hr h) n = ruled hr n (hdr_values h n) ∧
  (existsb (same_header n) (Remove hr ++ map hrName (SetRules hr ++ AddRules hr)) = false →
   hdr_values (apply hr h) n = hdr_values h n).
Proof.
  assert (H : hdr_values (apply hr h) n = ruled hr n (hdr_values h n)).
  { unfold apply, ruled. by rewrite apply_add_values, apply_set_values, apply_remove_values. }
  split; [exact H|]. intros Hno. rewrite H. unfold ruled.
  assert (Hnone : ∀ rules, existsb (same_header n) (map hrName rules) = false →
    values_for n rules = []).
  { induction rules as [|r rules IH] using rev_ind; [done|].
    rewrite map_app, existsb_app. cbn [map existsb].
    intros [Hr [Hrs _]%orb_false_iff]%orb_false_iff.
    by rewrite values_for_snoc, IH, same_header_sym, Hrs. }
  rewrite map_app, !existsb_app in Hno.
  apply orb_false_iff in Hno as [Hr [Hs Ha]%orb_false_iff].
  rewrite (Hnone _ Hs), (Hnone _ Ha), Hr. cbn. by rewrite app_nil_r.
Qed.

(** Every rule set the flags parse into names its headers in canonical
    form and carries only values HTTP allows, so no rule can smuggle a line
    break into a header; a rule for requests never names the Host header.
    Parsing fails as a whole when any flag value is malformed. *)
Theorem parsed_rules_valid flags d hr :
  newHeaderRules flags d = Ok hr →
  Forall (name_ok d) (Remove hr) ∧ Forall (rule_ok d) (SetRules hr) ∧
  Forall (rule_ok d) (AddRules hr) ∧
  length (Remove hr) = length (flagRemove flags) ∧
  length (SetRules hr) = length (flagSet flags) ∧
  length (AddRules hr) = length (flagAdd flags).
Proof.
  intros (rm & Hrm & (st & Hst & (ad & Had & [= <-])%result_bind_ok)%result_bind_ok)%result_bind_ok.
  unfold parseHeaderNames, parseHeaderRules in *.
  apply mapM_result_Forall2 in Hrm, Hst, Had. cbn.
  split; [eapply Forall2_image; [|exact Hrm]; cbn; eauto using parseHeaderName_ok|].
  split; [eapply Forall2_image; [|exact Hst]; cbn; eauto using parseHeaderRule_ok|].
  split; [eapply Forall2_image; [|exact Had]; cbn; eauto using parseHeaderRule_ok|].
  split; [|split]; symmetry; by eapply Forall2_length.
Qed.

(** ** Witnesses *)

Module HeaderRulesExamples.
Definition flags : HeaderRuleFlags :=
  mkHeaderRuleFlags ["server"] ["x-frame-options: DENY"] ["Content-Security-Policy: img-src https:"].

Definition rules : HeaderRules :=
  mkHeaderRules ["Server"] [mkHeaderRule "X-Frame-Options" "DENY"]
    [mkHeaderRule "Content-Security-Policy" "img-src https:"].

Lemma header_rules_effect_witness :
  hdr_values (apply rules {["Server" := ["nginx"]; "Etag" := ["1"]]}) "etag" = ["1"].
Proof.
  destruct (header_rules_effect rules {["Server" := ["nginx"]; "Etag" := ["1"]]} "etag")
    as [_ H].
  rewrite H; vm_compute; reflexivity.
Defined.

Lemma parsed_rules_valid_witness :
  newHeaderRules flags responseHeaderDirection = Ok rules ∧
  Forall (rule_ok responseHeaderDirection) (SetRules rules).
Proof.
  split; [vm_compute; reflexivity|].
  apply (parsed_rules_valid flags responseHeaderDirection rules). vm_compute. reflexivity.
Defined.

Example host_is_refused :
  newHeaderRules (mkHeaderRuleFlags [] ["host: evil"] []) requestHeaderDirection =
  Err CannotRewriteHost.
Proof. vm_compute. reflexivity. Qed.
End HeaderRulesExamples.
