(* ===== verification/TargetProxy.v ===== *)
(** * What a target receives and what the client gets back:
    [rewrite], [forwardHeaders], [applyResponseHeaderRules] and
    [targetResponseWriter] of [internal/server/target.go],
    [request_id_middleware.go] and [request_start_middleware.go]

    [httputil.ReverseProxy] hands [rewrite] the request as it came in and a
    copy it has prepared ([prepareOut]): without the hop-by-hop headers, without
    the forwarding headers, and with a query that it does not fully understand
    parsed and written anew; [SetURL] and [SetXForwarded] are its helpers. *)
From S2P Require Import Prelude GoStrings GoURL Http Target LoadBalancer HeaderRules.

(** ** The outgoing request *)

(** [ProxyRequest.Out]. *)
Record OutRequest := mkOut {
  outURL : URL;
  outHost : string;
  outHeader : gmap string (list string) }.

(** The URL of a request as the server parsed it. *)
Definition requestURL (r : Request) : URL :=
  mkURL "" "" None "" (URLPath r) (URLRawPath r) (URLForceQuery r) (RawQuery r) "".

(** *** The copy the reverse proxy prepares *)

(** [url.QueryEscape] and [url.QueryUnescape]. *)
Fixpoint QueryEscape (s : string) : string :=
  match s with
  | "" => ""
  | String c s =>
      if Ascii.eqb c " " then String "+" (QueryEscape s)
      else if is_alnum c || in_bytes c "-_.~" then String c (QueryEscape s)
      else escape_byte c +:+ QueryEscape s
  end.

Fixpoint plus_to_space (s : string) : string :=
  match s with "" => "" | String c s => String (if Ascii.eqb c "+" then " "%char else c) (plus_to_space s) end.

Definition QueryUnescape (s : string) : option string := unescape (plus_to_space s) encodePath.

(** [url.ParseQuery], the parameters in their order and the bad ones left out. *)
Definition parseParam (key : string) : option (string * string) :=
  if has_byte key ";" || String.eqb key "" then None
  else
    let '(k, v) := default (key, "") (Cut key "=") in
    k ← QueryUnescape k; v ← QueryUnescape v; Some (k, v).

Definition ParseQuery (query : string) : list (string * string) := omap parseParam (Split query "&").

(** [url.Values.Encode]: sorted by key. *)
Fixpoint sorted_keys (l : list string) : list string :=
  match l with
  | x :: (y :: _) as l' => if String.eqb x y then sorted_keys l' else x :: sorted_keys l'
  | l => l
  end.

Definition EncodeQuery (params : list (string * string)) : string :=
  let values k := List.filter (λ kv : string * string, String.eqb kv.1 k) params in
  Join (concat ((λ k, (λ kv : string * string, QueryEscape k +:+ "=" +:+ QueryEscape kv.2) <$> values k) <$>
                sorted_keys (sort_strings (fst <$> params)))) "&".

(** Has the query a semicolon, or a percent sign that escapes nothing? *)
Fixpoint query_odd (s : string) : bool :=
  match s with
  | "" => false
  | String c s1 =>
      if Ascii.eqb c ";" then true
      else if Ascii.eqb c "%" then
        match s1 with
        | String h (String l s2) =>
            negb (bool_decide (is_Some (unhex h)) && bool_decide (is_Some (unhex l))) || query_odd s2
        | _ => true
        end
      else query_odd s1
  end.

Definition cleanQueryParams (s : string) : string := if query_odd s then EncodeQuery (ParseQuery s) else s.

(** The tokens of a header, and whether one of them is the given one. *)
Definition is_ows (c : ascii) : bool := Ascii.eqb c " " || (byte_of c =? 9).

Fixpoint trim_ows_left (s : string) : string :=
  match s with String c s' => if is_ows c then trim_ows_left s' else s | "" => "" end.

Fixpoint trim_ows_right (s : string) : string :=
  match s with
  | String c s => let t := trim_ows_right s in if is_ows c && String.eqb t "" then "" else String c t
  | "" => ""
  end.

Definition trim_ows (s : string) : string := trim_ows_right (trim_ows_left s).

Definition header_tokens (values : list string) : list string := trim_ows <$> concat ((λ v, Split v ",") <$> values).

Definition HeaderValuesContainsToken (values : list string) (token : string) : bool :=
  existsb (λ t, EqualFold t token) (header_tokens values).

Definition hopHeaders : list string :=
  ["Connection"; "Proxy-Connection"; "Keep-Alive"; "Proxy-Authenticate"; "Proxy-Authorization"; "Te"; "Trailer";
   "Transfer-Encoding"; "Upgrade"].

Definition removeHopByHopHeaders (h : gmap string (list string)) : gmap string (list string) :=
  let named := List.filter (λ t, negb (String.eqb t "")) (header_tokens (hdr_values h "Connection")) in
  foldl hdr_del (foldl hdr_del h named) hopHeaders.

Definition upgradeType (h : gmap string (list string)) : string :=
  if HeaderValuesContainsToken (hdr_values h "Connection") "Upgrade" then hdr_get h "Upgrade" else "".

(** [ReverseProxy.ServeHTTP], up to its call of [Rewrite]. *)
Definition prepareOut (r : Request) : OutRequest :=
  let h := removeHopByHopHeaders (ReqHeader r) in
  let h := if HeaderValuesContainsToken (hdr_values (ReqHeader r) "Te") "trailers" then hdr_set h "Te" "trailers" else h in
  let up := upgradeType (ReqHeader r) in
  let h := if String.eqb up "" then h else hdr_set (hdr_set h "Connection" "Upgrade") "Upgrade" up in
  let h := foldl hdr_del h ["Forwarded"; "X-Forwarded-For"; "X-Forwarded-Host"; "X-Forwarded-Proto"] in
  mkOut (with_query (cleanQueryParams (RawQuery r)) (requestURL r)) (Host r) h.

(** [joinURLPath] of [net/http/httputil]. *)
Definition joinURLPath (a b : URL) : string * string :=
  if String.eqb (RawPath a) "" && String.eqb (RawPath b) "" then
    let aslash := HasSuffix (Path a) "/" in
    let bslash := HasPrefix (Path b) "/" in
    (if aslash && bslash then Path a +:+ str_drop 1 (Path b)
     else if negb aslash && negb bslash then Path a +:+ "/" +:+ Path b
     else Path a +:+ Path b, "")
  else
    let apath := EscapedPath a in
    let bpath := EscapedPath b in
    let aslash := HasSuffix apath "/" in
    let bslash := HasPrefix bpath "/" in
    if aslash && bslash then (Path a +:+ str_drop 1 (Path b), apath +:+ str_drop 1 bpath)
    else if negb aslash && negb bslash then (Path a +:+ "/" +:+ Path b, apath +:+ "/" +:+ bpath)
    else (Path a +:+ Path b, apath +:+ bpath).

(** [ProxyRequest.SetURL]. *)
Definition SetURL (target : URL) (out : OutRequest) : OutRequest :=
  let u := outURL out in
  let '(p, raw) := joinURLPath target u in
  let query :=
    if String.eqb (URLRawQuery target) "" || String.eqb (URLRawQuery u) ""
    then URLRawQuery target +:+ URLRawQuery u
    else URLRawQuery target +:+ "&" +:+ URLRawQuery u in
  mkOut (with_query query (with_path p raw (with_origin (Scheme target) (URLHost target) u))) ""
    (outHeader out).

(** [ProxyRequest.SetXForwarded]. *)
Definition SetXForwarded (r : Request) (h : gmap string (list string)) : gmap string (list string) :=
  let h := match SplitHostPort (RemoteAddr r) with
           | Some (ip, _) =>
               let prior := default [] (h !! "X-Forwarded-For") in
               hdr_set h "X-Forwarded-For"
                 (if Nat.eqb (length prior) 0 then ip else Join prior ", " +:+ ", " +:+ ip)
           | None => hdr_del h "X-Forwarded-For"
           end in
  let h := hdr_set h "X-Forwarded-Host" (Host r) in
  hdr_set h "X-Forwarded-Proto" (if IsTLS r then "https" else "http").

(** [parseTargetURL]: the URL of a target that [hostRegex] accepts. *)
Definition targetURL (t : Target) : URL := mkURL "http" "" None (address t) "" "" false "" "".

Definition forwardHeaders (forward : bool) (r : Request) (h : gmap string (list string))
  : gmap string (list string) :=
  let h := if forward then <["X-Forwarded-For" := default [] (ReqHeader r !! "X-Forwarded-For")]> h else h in
  let h := SetXForwarded r h in
  if forward then
    let h := if String.eqb (hdr_get (ReqHeader r) "X-Forwarded-Proto") "" then h
             else hdr_set h "X-Forwarded-Proto" (hdr_get (ReqHeader r) "X-Forwarded-Proto") in
    if String.eqb (hdr_get (ReqHeader r) "X-Forwarded-Host") "" then h
    else hdr_set h "X-Forwarded-Host" (hdr_get (ReqHeader r) "X-Forwarded-Host")
  else h.

(** [rewrite]; the trace it attaches to the context last changes nothing that
    is sent. *)
Definition rewrite (t : Target) (forward : bool) (rules : HeaderRules) (r : Request) (out : OutRequest)
  : OutRequest :=
  let out := mkOut (outURL out) (outHost out) (forwardHeaders forward r (outHeader out)) in
  let out := SetURL (targetURL t) out in
  let u := with_query (RawQuery r) (with_path (RoutedTargetPath r) (RawPath (outURL out)) (outURL out)) in
  mkOut u (Host r) (HeaderRules.apply rules (outHeader out)).

Definition applyResponseHeaderRules (rules : HeaderRules) (h : gmap string (list string))
  : gmap string (list string) := HeaderRules.apply rules h.

(** ** Headers every request gets *)

Definition requestIDHeader : string := "X-Request-ID".
Definition requestStartHeader : string := "X-Request-Start".
Definition dashRequestStartHeader : string := "X-Dash-Request-Start".

(** [RequestIDMiddleware], with the identifier it would generate. *)
Definition RequestIDMiddleware (id : string) (r : Request) : Request :=
  if String.eqb (hdr_get (ReqHeader r) requestIDHeader) ""
  then with_ReqHeader (hdr_set (ReqHeader r) requestIDHeader id) r else r.

Definition RequestStartMiddleware (now : Z) (r : Request) : Request :=
  let start := "t=" +:+ Itoa (UnixMilli now) in
  let h := if String.eqb (hdr_get (ReqHeader r) requestStartHeader) ""
           then hdr_set (ReqHeader r) requestStartHeader start else ReqHeader r in
  with_ReqHeader (hdr_set h dashRequestStartHeader start) r.

(** ** The response of a target *)

(** The writer keeps a header map of its own until the target's answer is
    committed; [scope] is the effect of [CookieScope.ApplyToHeader]. *)
Record targetResponseWriter := mkTRW {
  trwInner : ResponseWriter;
  trwHeader : gmap string (list string);
  trwWritten : bool;
  trwScope : option (gmap string (list string) → gmap string (list string)) }.

Definition newTargetResponseWriter (w : ResponseWriter)
    (scope : option (gmap string (list string) → gmap string (list string))) : targetResponseWriter :=
  mkTRW w ∅ false scope.

Definition trwSetHeader (h : gmap string (list string)) (w : targetResponseWriter) : targetResponseWriter :=
  mkTRW (trwInner w) h (trwWritten w) (trwScope w).

Definition trwWriteHeader (code : Z) (w : targetResponseWriter) : targetResponseWriter :=
  let h := match trwScope w with Some f => f (trwHeader w) | None => trwHeader w end in
  mkTRW (WriteHeader code (rw_set_header (h ∪ rwHeader (trwInner w)) (trwInner w))) h true (trwScope w).

Definition trwWrite (b : string) (w : targetResponseWriter) : targetResponseWriter :=
  let w := if trwWritten w then w else trwWriteHeader 200 w in
  mkTRW (WriteBody b (trwInner w)) (trwHeader w) (trwWritten w) (trwScope w).

Definition trwFlush (w : targetResponseWriter) : targetResponseWriter :=
  mkTRW (FlushRW (trwInner w)) (trwHeader w) (trwWritten w) (trwScope w).

(** ** Lemmas *)

(** Where the path does not change, what is sent escaped does not either. *)
Lemma EscapedPath_rejoin u v :
  Path v = Path u → Path u ≠ "*" →
  (RawPath v = "" ∧ RawPath u = "") ∨ RawPath v = EscapedPath u →
  EscapedPath v = EscapedPath u.
Proof.
  intros Hp Hstar Hraw. unfold EscapedPath at 1. rewrite Hp.
  apply String.eqb_neq in Hstar. rewrite Hstar. destruct Hraw as [[-> Hu]| ->].
  - unfold EscapedPath. rewrite Hu. cbn. by rewrite Hstar.
  - case_goal; [done|]. unfold EscapedPath in *. case_goal.
    + repeat (case_hyp H; try done). congruence.
    + by rewrite Hstar.
Qed.

Lemma joinURLPath_root t u :
  HasPrefix (Path u) "/" = true → HasPrefix (EscapedPath u) "/" = true →
  joinURLPath (targetURL t) u = (Path u, if String.eqb (RawPath u) "" then "" else EscapedPath u).
Proof. intros H1 H2. unfold joinURLPath. cbn. destruct (String.eqb (RawPath u) ""); cbn; by rewrite ?H1, ?H2. Qed.

Lemma hdr_default h k : CanonicalHeaderKey k = k → default [] (h !! k) = hdr_values h k.
Proof. unfold hdr_values. by intros ->. Qed.

(** The address the connection came from, after the chain it brought when that
    chain is trusted. *)
Definition forwardedFor (forward : bool) (r : Request) : list string :=
  match SplitHostPort (RemoteAddr r) with
  | None => []
  | Some (ip, _) =>
      let chain := if forward then hdr_values (ReqHeader r) "X-Forwarded-For" else [] in
      [Join (chain ++ [ip]) ", "]
  end.

Lemma Join_snoc l x sep :
  Join (l ++ [x]) sep = if Nat.eqb (length l) 0 then x else Join l sep +:+ sep +:+ x.
Proof.
  induction l as [|y [|z l] IH]; [done|done|].
  change (((y :: z :: l) ++ [x])%list) with (y :: ((z :: l) ++ [x])%list).
  change (Join (y :: z :: l) sep) with (y +:+ sep +:+ Join (z :: l) sep).
  assert (Hne : Join (y :: ((z :: l) ++ [x])%list) sep = y +:+ sep +:+ Join ((z :: l) ++ [x])%list sep) by done.
  rewrite Hne, IH. cbn [length Nat.eqb]. by rewrite !str_app_assoc.
Qed.

Lemma SetXForwarded_for r h :
  hdr_values (SetXForwarded r h) "X-Forwarded-For" =
  match SplitHostPort (RemoteAddr r) with
  | Some (ip, _) => [Join (hdr_values h "X-Forwarded-For" ++ [ip]) ", "]
  | None => []
  end.
Proof.
  unfold SetXForwarded. rewrite !hdr_values_set_ne by done.
  destruct (SplitHostPort (RemoteAddr r)) as [[ip port]|].
  - by rewrite hdr_values_set_eq, Join_snoc, hdr_default.
  - apply hdr_values_del_eq.
Qed.

Lemma forwardHeaders_for forward r h :
  hdr_values h "X-Forwarded-For" = [] →
  hdr_values (forwardHeaders forward r h) "X-Forwarded-For" = forwardedFor forward r.
Proof.
  intros Hh. unfold forwardHeaders, forwardedFor. destruct forward.
  - assert (H : hdr_values (SetXForwarded r (<["X-Forwarded-For" := default [] (ReqHeader r !! "X-Forwarded-For")]> h))
                  "X-Forwarded-For" =
        match SplitHostPort (RemoteAddr r) with
        | Some (ip, _) => [Join (hdr_values (ReqHeader r) "X-Forwarded-For" ++ [ip]) ", "]
        | None => []
        end).
    { rewrite SetXForwarded_for. destruct (SplitHostPort _) as [[ip port]|]; [|done].
      unfold hdr_values at 1. change (CanonicalHeaderKey "X-Forwarded-For") with "X-Forwarded-For".
      by rewrite lookup_insert_eq, hdr_default. }
    repeat case_goal; rewrite ?hdr_values_set_ne by done; by rewrite H.
  - rewrite SetXForwarded_for, Hh. by destruct (SplitHostPort _) as [[ip port]|].
Qed.

(** The forwarding headers are the only ones [forwardHeaders] sets. *)
Lemma forwardHeaders_other forward r h n :
  CanonicalHeaderKey n ∉ ["X-Forwarded-For"; "X-Forwarded-Host"; "X-Forwarded-Proto"] →
  hdr_values (forwardHeaders forward r h) n = hdr_values h n.
Proof.
  rewrite !not_elem_of_cons. intros (H1 & H2 & H3 & _).
  assert (Hset : ∀ h m v, m ∈ ["X-Forwarded-For"; "X-Forwarded-Host"; "X-Forwarded-Proto"] → hdr_values (hdr_set h m v) n = hdr_values h n).
  { intros h' m v Hm. apply hdr_values_set_ne. rewrite !elem_of_cons, elem_of_nil in Hm.
    destruct Hm as [->|[->|[->|[]]]]; vm_compute (CanonicalHeaderKey (String _ _)); congruence. }
  assert (Hx : ∀ h, hdr_values (SetXForwarded r h) n = hdr_values h n).
  { intros h'. unfold SetXForwarded. rewrite !Hset by set_solver. destruct (SplitHostPort _) as [[ip port]|].
    - by rewrite Hset by set_solver.
    - apply hdr_values_del_ne. intros He. apply H1. by rewrite <-He. }
  assert (Hi : ∀ v, hdr_values (<["X-Forwarded-For" := v]> h) n = hdr_values h n).
  { intros v. unfold hdr_values. by rewrite lookup_insert_ne. }
  unfold forwardHeaders. destruct forward; [|apply Hx].
  repeat case_goal; rewrite ?Hset by set_solver; by rewrite Hx, Hi.
Qed.

Lemma prepared_for r : hdr_values (outHeader (prepareOut r)) "X-Forwarded-For" = [].
Proof.
  unfold prepareOut. cbn [outHeader foldl]. rewrite !hdr_values_del_ne by (vm_compute; discriminate). apply hdr_values_del_eq.
Qed.

(** ** Theorems *)

(** C23: what the target is sent.  The query and the Host header are the
    client's, byte for byte, although the reverse proxy has cleaned the query of
    the copy it prepared of what it does not understand, and where no prefix is
    stripped so is the path as it was escaped.  X-Forwarded-For ends in the
    address the connection came from, preceded by the chain the client sent only
    where forwarded headers are trusted; every header but the three forwarding
    ones is as the reverse proxy prepared it; and the operator's header rules
    have the last word on all of them. *)
Theorem rewrite_transparent t forward rules r :
  HasPrefix (URLPath r) "/" = true → HasPrefix (EscapedPath (requestURL r)) "/" = true →
  let out' := rewrite t forward rules r (prepareOut r) in
  outHost out' = Host r ∧ URLRawQuery (outURL out') = RawQuery r ∧
  URLHost (outURL out') = address t ∧ Path (outURL out') = RoutedTargetPath r ∧
  (MatchedPrefix r = None → EscapedPath (outURL out') = EscapedPath (requestURL r)) ∧
  hdr_values (outHeader out') "X-Forwarded-For" = ruled rules "X-Forwarded-For" (forwardedFor forward r) ∧
  ∀ n, CanonicalHeaderKey n ∉ ["X-Forwarded-For"; "X-Forwarded-Host"; "X-Forwarded-Proto"] →
    hdr_values (outHeader out') n = ruled rules n (hdr_values (outHeader (prepareOut r)) n).
Proof.
  intros Hp He. pose proof (prepared_for r) as Hh. unfold rewrite, SetURL. cbn [outURL outHeader outHost].
  set (u := outURL (prepareOut r)).
  assert (Hpath : Path u = URLPath r ∧ RawPath u = URLRawPath r ∧ EscapedPath u = EscapedPath (requestURL r)) by done.
  destruct Hpath as (HP & HR & HE). rewrite (joinURLPath_root t u) by (by rewrite ?HP, ?HE). cbn zeta.
  split; [done|]. split; [done|]. split; [done|]. split; [done|]. split; [|split].
  - intros Hm. apply EscapedPath_rejoin; cbn.
    + unfold RoutedTargetPath. by rewrite Hm.
    + intros Hs. by rewrite Hs in Hp.
    + destruct (String.eqb_spec (URLRawPath r) "") as [->|Hne]; [by left|by right].
  - cbn [outHeader]. rewrite (proj1 (header_rules_effect rules _ _)). f_equal. by apply forwardHeaders_for.
  - intros n Hn. cbn [outHeader]. rewrite (proj1 (header_rules_effect rules _ _)). f_equal. by apply forwardHeaders_other.
Qed.

(** Under a stripped prefix the escaped form of the path is lost: the URL that
    is sent keeps the client's raw path, which no longer belongs to its path,
    and the path is escaped anew, an escaped slash sent as a slash. *)
Lemma strip_loses_escapes :
  let r := mkRequest "GET" "a.example" "/api/a/b" "" "/api/a%2Fb" false false "192.0.2.1:1" ∅ [] 0
             (Some "/api") false false in
  let t := mkTarget "web:3000" false 1 0 TargetStateHealthy ∅ true in
  EscapedPath (requestURL r) = "/api/a%2Fb" ∧
  EscapedPath (outURL (rewrite t false (mkHeaderRules [] [] []) r (mkOut (requestURL r) "" ∅))) = "/a/b".
Proof. vm_compute. split; reflexivity. Qed.

(** An attempt that committed nothing left nothing behind: whatever headers
    it collected, the client's writer is as it was. *)
Lemma uncommitted_attempt w scope hs :
  trwInner (foldl (λ w h, trwSetHeader h w) (newTargetResponseWriter w scope) hs) = w.
Proof.
  assert (H : ∀ tw, trwInner (foldl (λ w h, trwSetHeader h w) tw hs) = trwInner tw); [|by apply H].
  induction hs as [|h hs IH]; intros tw; [done|]. cbn. by rewrite IH.
Qed.

Module TargetProxyExamples.

Definition web : Target := mkTarget "web:3000" false 1 0 TargetStateHealthy ∅ true.

Definition visit : Request :=
  mkRequest "GET" "a.example" "/a b/c" "q=1;2" "/a%20b%2Fc" false true "192.0.2.1:4711"
    {["X-Forwarded-For" := ["203.0.113.9"]]} [] 0 None false false.

Lemma rewrite_transparent_witness :
  let out' := rewrite web true (mkHeaderRules [] [] []) visit (prepareOut visit) in
  URLRawQuery (outURL (prepareOut visit)) = "" ∧ URLRawQuery (outURL out') = "q=1;2" ∧
  hdr_values (outHeader out') "X-Forwarded-For" = ["203.0.113.9, 192.0.2.1"].
Proof.
  destruct (rewrite_transparent web true (mkHeaderRules [] [] []) visit)
    as (_ & Hq & _ & _ & _ & Hf & _); [vm_compute; reflexivity..|].
  split; [vm_compute; reflexivity|]. split; [exact Hq|]. rewrite Hf. vm_compute. reflexivity.
Defined.

Example escapes_survive :
  EscapedPath (outURL (rewrite web false (mkHeaderRules [] [] [])
    (mkRequest "GET" "a.example" "/a/b" "" "/a%2Fb" false false "192.0.2.1:1" ∅ [] 0 None false false)
    (mkOut (mkURL "" "" None "" "/a/b" "/a%2Fb" false "" "") "" ∅))) = "/a%2Fb".
Proof. vm_compute. reflexivity. Qed.

(** What the reverse proxy does to a query on its own. *)
Example queries_cleaned :
  cleanQueryParams "b=2&a=1;x&a=%zz&c=x+y&b=%26" = "b=2&b=%26&c=x+y" ∧ cleanQueryParams "b=2&a=1+%26" = "b=2&a=1+%26".
Proof. vm_compute. split; reflexivity. Qed.

Example hop_headers_gone :
  outHeader (prepareOut (mkRequest "GET" "a.example" "/" "" "" false false "192.0.2.1:1"
    {["Connection" := ["X-Hop, Upgrade"]; "Upgrade" := ["websocket"]; "X-Hop" := ["1"]; "Te" := ["trailers"]; "Forwarded" := ["for=x"]; "Accept" := ["*/*"]]}
    [] 0 None false false)) = {["Connection" := ["Upgrade"]; "Upgrade" := ["websocket"]; "Te" := ["trailers"]; "Accept" := ["*/*"]]}.
Proof. vm_compute. reflexivity. Qed.

End TargetProxyExamples.
