(* ===== verification/TokenBucket.v ===== *)
(** * The token bucket: [internal/server/token_bucket.go]

    It paces the creation of certificate orders.  The clock is an argument of
    every operation; [Time.Sub] saturates and the division of durations
    truncates, as in Go. *)
From S2P Require Import Prelude.

Record tokenBucket := mkBucket {
  tokens : Z;
  capacity : Z;
  refillInterval : Z;
  lastRefill : Z }.

Definition newTokenBucket (cap interval now : Z) : tokenBucket := mkBucket cap cap interval now.

Definition refill (now : Z) (b : tokenBucket) : tokenBucket :=
  if capacity b <=? tokens b then mkBucket (tokens b) (capacity b) (refillInterval b) now
  else
    let elapsed := time_sub now (lastRefill b) in
    let replenished := Z.quot elapsed (refillInterval b) in
    if replenished =? 0 then b
    else mkBucket (Z.min (tokens b + replenished) (capacity b)) (capacity b) (refillInterval b)
           (lastRefill b + wrap64 (replenished * refillInterval b)).

Definition TryTake (now : Z) (b : tokenBucket) : tokenBucket * bool :=
  let b := refill now b in
  if tokens b =? 0 then (b, false)
  else (mkBucket (tokens b - 1) (capacity b) (refillInterval b) (lastRefill b), true).

Definition nextTokenIn (now : Z) (b : tokenBucket) : Z :=
  let wait := refillInterval b - time_sub now (lastRefill b) in
  if wait <? millisecond then millisecond else wait.

(** [Take] by one caller alone: it tries at [now], then after every wait.  A
    wait ends late by an amount the scheduler chooses, or with the context
    ([None]). *)
Inductive TakeOutcome :=
| Taken (at_time : Z)
| Canceled
| StillWaiting.                (** the given waits are over *)

Fixpoint Take (waits : list (option Z)) (now : Z) (b : tokenBucket) : tokenBucket * TakeOutcome :=
  let '(b', ok) := TryTake now b in
  if ok then (b', Taken now)
  else match waits with
       | [] => (b', StillWaiting)
       | None :: _ => (b', Canceled)
       | Some late :: waits => Take waits (now + nextTokenIn now b' + late) b'
       end.

(** Attempts at the given times; the number that got a token. *)
Fixpoint attempts (times : list Z) (b : tokenBucket) : tokenBucket * Z :=
  match times with
  | [] => (b, 0)
  | t :: times =>
      let '(b1, ok) := TryTake t b in
      let '(b2, n) := attempts times b1 in
      (b2, n + (if ok then 1 else 0))
  end.

(** ** Invariant *)

(** [wf t b]: the bucket as it is at time [t] or later. *)
Definition wf (t : Z) (b : tokenBucket) : Prop :=
  0 < refillInterval b ∧ 0 < capacity b ∧ 0 ≤ tokens b ≤ capacity b ∧ lastRefill b ≤ t.

(** Times that do not run backwards, from [t] on. *)
Definition clock (t : Z) (times : list Z) : Prop := StronglySorted Z.le (t :: times).

(** What the bucket could give out by time [t], in units of the interval. *)
Definition credit_at (t : Z) (b : tokenBucket) : Z :=
  tokens b * refillInterval b + (t - lastRefill b).

(** ** Lemmas *)

Lemma wf_new cap interval now : 0 < interval → 0 < cap → wf now (newTokenBucket cap interval now).
Proof. unfold wf, newTokenBucket. cbn. lia. Qed.

Lemma wf_later t u b : wf t b → t ≤ u → wf u b.
Proof. unfold wf. lia. Qed.

(** The whole intervals that passed since the last refill. *)
Lemma replenished_bounds t b :
  wf t b →
  let r := Z.quot (time_sub t (lastRefill b)) (refillInterval b) in
  0 ≤ r ∧ 0 ≤ r * refillInterval b ≤ t - lastRefill b ∧ in_int64 (r * refillInterval b) ∧
  (t - lastRefill b ≤ int64_max → t - lastRefill b < (r + 1) * refillInterval b).
Proof.
  intros (Hi & Hc & Ht & Hl). cbn zeta.
  pose proof (time_sub_nonneg t (lastRefill b) Hl) as Hs.
  assert (Hmax : time_sub t (lastRefill b) ≤ int64_max).
  { unfold time_sub. unfold int64_min, int64_max.
    destruct (_ <? - 2 ^ 63) eqn:?; [lia|]. destruct (2 ^ 63 - 1 <? _) eqn:?; breflect; lia. }
  rewrite Z.quot_div_nonneg by lia.
  pose proof (Z.div_pos (time_sub t (lastRefill b)) (refillInterval b)).
  pose proof (Z.mul_div_le (time_sub t (lastRefill b)) (refillInterval b)).
  pose proof (Z.mul_succ_div_gt (time_sub t (lastRefill b)) (refillInterval b)).
  split; [lia|]. split; [nia|]. split.
  - unfold in_int64, int64_min in *. nia.
  - intros Hex. assert (time_sub t (lastRefill b) = t - lastRefill b) as Heq.
    { apply time_sub_exact. unfold in_int64, int64_min. lia. }
    rewrite Heq in *. nia.
Qed.

Lemma refill_spec t b :
  wf t b →
  let b' := refill t b in
  wf t b' ∧ capacity b' = capacity b ∧ refillInterval b' = refillInterval b ∧
  tokens b ≤ tokens b' ∧ credit_at t b' ≤ credit_at t b ∧
  (t - lastRefill b ≤ int64_max → credit_at t b' < (capacity b + 1) * refillInterval b).
Proof.
  intros Hwf. pose proof (replenished_bounds t b Hwf) as (Hr0 & Hr1 & Hr2 & Hr3).
  destruct Hwf as (Hi & Hc & Ht & Hl). unfold refill, credit_at, wf.
  destruct (Z.leb_spec (capacity b) (tokens b)); cbn.
  { split; [lia|]. split; [done|]. split; [done|]. split; [lia|]. split; [lia|].
    intros _. nia. }
  set (r := Z.quot _ _) in *. destruct (Z.eqb_spec r 0) as [->|Hne]; cbn.
  { split; [lia|]. split; [done|]. split; [done|]. split; [lia|]. split; [lia|].
    intros Hx. specialize (Hr3 Hx). nia. }
  rewrite wrap64_id by done.
  split; [lia|]. split; [done|]. split; [done|]. split; [lia|]. split; [nia|].
  intros Hx. specialize (Hr3 Hx).
  destruct (Z.min_spec (tokens b + r) (capacity b)) as [[? ->]|[? ->]]; nia.
Qed.

Lemma TryTake_spec t b :
  wf t b →
  let '(b', ok) := TryTake t b in
  wf t b' ∧ capacity b' = capacity b ∧ refillInterval b' = refillInterval b ∧
  credit_at t b' + (if ok then refillInterval b else 0) ≤ credit_at t b ∧
  (t - lastRefill b ≤ int64_max →
     credit_at t b' + (if ok then refillInterval b else 0) < (capacity b + 1) * refillInterval b).
Proof.
  intros Hwf. destruct (refill_spec t b Hwf) as (Hwf' & Hc & Hi & _ & Hcr & Hmax).
  unfold TryTake. destruct (Z.eqb_spec (tokens (refill t b)) 0).
  - split; [done|]. split; [done|]. split; [done|]. rewrite Z.add_0_r. auto.
  - unfold wf, credit_at in *. cbn.
    split; [lia|]. split; [lia|]. split; [lia|]. split; [lia|].
    intros H. specialize (Hmax H). lia.
Qed.

Lemma attempts_credit times t b :
  wf t b → clock t times →
  let '(b', n) := attempts times b in
  n * refillInterval b ≤ credit_at (default t (last times)) b ∧ 0 ≤ n.
Proof.
  revert t b. induction times as [|u times IH]; intros t b Hwf Hclock; cbn [attempts].
  { destruct Hwf as (? & ? & ? & ?). cbn. unfold credit_at. nia. }
  apply StronglySorted_inv in Hclock as [Hclock Ht]. apply Forall_cons in Ht as [Htu _].
  pose proof (TryTake_spec u b (wf_later _ _ _ Hwf Htu)) as H.
  destruct (TryTake u b) as [b1 ok]. destruct H as (Hwf1 & Hc & Hi & Hcr & _).
  specialize (IH u b1 Hwf1 Hclock). destruct (attempts times b1) as [b2 n].
  destruct IH as [IH Hn]. rewrite Hi in IH. rewrite last_cons.
  set (v := default u (last times)) in *.
  replace (default t _) with v by (unfold v; by destruct (last times)).
  unfold credit_at in *. rewrite Hi in *. destruct ok; nia.
Qed.

Lemma clock_last t times : clock t times → t ≤ default t (last times).
Proof.
  intros [_ H]%StronglySorted_inv. destruct (last times) as [v|] eqn:E; cbn; [|done].
  apply last_Some in E as [l ->]. apply Forall_app in H as [_ H]. by inversion H.
Qed.

(** A history of attempts keeps the invariant. *)
Lemma attempts_wf times t b :
  wf t b → clock t times →
  wf (default t (last times)) (attempts times b).1 ∧
  capacity (attempts times b).1 = capacity b ∧
  refillInterval (attempts times b).1 = refillInterval b.
Proof.
  revert t b. induction times as [|u times IH]; intros t b Hwf Hclock; [done|].
  apply StronglySorted_inv in Hclock as [Hclock Ht]. apply Forall_cons in Ht as [Htu _].
  pose proof (TryTake_spec u b (wf_later _ _ _ Hwf Htu)) as H. cbn [attempts].
  destruct (TryTake u b) as [b1 ok]. destruct H as (Hwf1 & Hc & Hi & _ & _).
  specialize (IH u b1 Hwf1 Hclock). destruct (attempts times b1) as [b2 n]. cbn in *.
  rewrite last_cons. destruct IH as (IH & -> & ->).
  split; [|done]. by destruct (last times).
Qed.

(** ** Theorems *)

(** The bucket limits the rate over every window, not only from the
    start: after any history, attempts made between two moments get at most
    the capacity plus one token per refill interval begun in between.  (The
    clock does not run backwards, and the bucket has not been left alone for
    the 292 years a duration can hold.) *)
Theorem bucket_rate_limit cap interval t0 history a window :
  0 < interval → 0 < cap → clock t0 history → clock (default t0 (last history)) (a :: window) →
  let b := (attempts history (newTokenBucket cap interval t0)).1 in
  a - lastRefill b ≤ int64_max →
  (attempts (a :: window) b).2 ≤
    cap + (default a (last window) - a + interval - 1) / interval.
Proof.
  intros Hi Hc Hh Hw b Hage.
  destruct (attempts_wf history t0 (newTokenBucket cap interval t0)) as (Hwf & Hcap & Hint);
    [by apply wf_new|done|]. fold b in Hwf, Hcap, Hint. cbn in Hcap, Hint.
  apply StronglySorted_inv in Hw as [Hw Ha]. apply Forall_cons in Ha as [Ha _].
  pose proof (TryTake_spec a b (wf_later _ _ _ Hwf Ha)) as H. cbn [attempts].
  destruct (TryTake a b) as [b1 ok]. destruct H as (Hwf1 & Hc1 & Hi1 & _ & Hmax).
  specialize (Hmax Hage).
  pose proof (attempts_credit window a b1 Hwf1 Hw) as H.
  pose proof (clock_last _ _ Hw) as Hla.
  destruct (attempts window b1) as [b2 n]. destruct H as [H _]. cbn.
  set (z := default a (last window)) in *. rewrite Hi1, Hint in *. rewrite Hcap in *.
  unfold credit_at in H, Hmax. rewrite Hi1 in *.
  enough (n + (if ok then 1 else 0) - cap ≤ (z - a + interval - 1) / interval) by lia.
  apply Z.div_le_lower_bound; [done|]. destruct ok; nia.
Qed.

(** A caller that waits gets its token: if the bucket is empty now, then
    after the wait [nextTokenIn] asks for, or any later, an attempt succeeds
    provided nobody else took the token; so [Take] alone needs one wait. *)
Theorem bucket_take_succeeds t b late rest :
  wf t b → 0 ≤ late →
  t + refillInterval b + millisecond + late - lastRefill b ≤ int64_max →
  ∃ b' u, Take (Some late :: rest) t b = (b', Taken u) ∧ t ≤ u ∧
    u ≤ t + Z.max (refillInterval b) millisecond + late.
Proof.
  intros Hwf Hlate Hrange. cbn [Take].
  destruct (refill_spec t b Hwf) as (Hwf1 & Hc1 & Hi1 & _ & _ & _).
  destruct (TryTake t b) as [b1 ok] eqn:E. destruct ok.
  { exists b1, t. split; [done|]. unfold millisecond. lia. }
  assert (Hb1 : b1 = refill t b ∧ tokens b1 = 0).
  { unfold TryTake in E. destruct (Z.eqb_spec (tokens (refill t b)) 0); by simplify_eq. }
  destruct Hb1 as [-> Htok]. clear E.
  assert (Hlast : lastRefill b ≤ lastRefill (refill t b)).
  { unfold refill. pose proof (replenished_bounds t b Hwf) as (? & ? & ? & _).
    destruct Hwf as (? & ? & ? & ?).
    destruct (_ <=? _); [done|]. destruct (_ =? 0); [done|]. cbn. rewrite wrap64_id by done. lia. }
  set (b1 := refill t b) in *. set (u := t + nextTokenIn t b1 + late).
  assert (Hu : t + (refillInterval b - (t - lastRefill b1)) ≤ u ∧ t ≤ u ∧
               u ≤ t + Z.max (refillInterval b) millisecond + late).
  { unfold u, nextTokenIn. destruct Hwf1 as (? & ? & ? & ?).
    rewrite time_sub_exact by (unfold in_int64, int64_min; unfold millisecond in *; lia).
    rewrite Hi1. destruct (Z.ltb_spec (refillInterval b - (t - lastRefill b1)) millisecond);
      unfold millisecond in *; lia. }
  destruct Hu as (Hu1 & Hu2 & Hu3).
  assert (Hwfu : wf u b1) by by eapply wf_later.
  pose proof (replenished_bounds u b1 Hwfu) as (Hr0 & Hr1 & Hr2 & Hr3).
  destruct Hwf1 as (Hi & Hc & Ht & Hl).
  assert (tokens (refill u b1) ≠ 0) as Hne.
  { unfold refill. rewrite Htok. destruct (Z.leb_spec (capacity b1) 0); [lia|].
    set (r := Z.quot _ _) in *.
    assert (1 ≤ r).
    { destruct (Z.le_gt_cases 1 r); [done|]. assert (r = 0) as Hr by lia.
      rewrite Hr in Hr3. unfold millisecond in *. lia. }
    destruct (Z.eqb_spec r 0); cbn; lia. }
  destruct (TryTake u b1) as [b2 ok] eqn:E2.
  assert (ok = true).
  { unfold TryTake in E2. destruct (Z.eqb_spec (tokens (refill u b1)) 0); by simplify_eq. }
  subst ok. exists b2, u. split; [|done]. destruct rest as [|[?|] ?]; cbn [Take]; by rewrite E2.
Qed.

(** ** Witnesses *)

Module BucketExamples.
Definition bucket : tokenBucket := newTokenBucket 2 (10 * second) 0.

Example burst_then_wait : (attempts [0; 0; 0; 10 * second] bucket).2 = 3.
Proof. vm_compute. reflexivity. Qed.

Lemma bucket_rate_limit_witness :
  (attempts [0; 1; 2; 10 * second] (attempts [0] bucket).1).2 ≤ 3.
Proof.
  apply (bucket_rate_limit 2 (10 * second) 0 [0] 0 [1; 2; 10 * second]).
  - vm_compute. reflexivity.
  - lia.
  - repeat constructor; vm_compute; discriminate.
  - repeat constructor; vm_compute; discriminate.
  - vm_compute. discriminate.
Defined.

Definition drained : tokenBucket := (attempts [0; 0] bucket).1.

Lemma bucket_take_succeeds_witness :
  ∃ b' u, Take [Some 5] 1 drained = (b', Taken u) ∧ 1 ≤ u ∧ u ≤ 1 + 10 * second + 5.
Proof.
  apply (bucket_take_succeeds 1 drained 5 []).
  - vm_compute. repeat split; discriminate.
  - lia.
  - vm_compute. discriminate.
Defined.
End BucketExamples.
