(* ===== verification/ClientAddr.v ===== *)
(** * Who a request comes from, and who is let in:
    [internal/server/ip_allow_list.go], [deny_list.go] and
    [client_ip_middleware.go]

    The connecting peer is the client unless it is one of the operator's own
    proxies; then the forwarded chain is walked from its near end.  The allow
    list and the deny list are checked against that address. *)
From S2P Require Import Prelude GoStrings GoRegexp NetIP Http TokenBucket.

(** ** Prefix lists *)

Inductive IPError :=
| EmptyEntry | BadCIDR | MappedCIDR | BadAddress | MappedAddress | ZonedAddress.

Definition normalizeAddr (a : Addr) : Addr := WithZone "" (Unmap a).

Definition containsAddr (prefixes : list Prefix) (a : Addr) : bool :=
  existsb (λ p, PrefixContains p (normalizeAddr a)) prefixes.

Definition parseIPPrefix (entry : string) : result IPError Prefix :=
  let entry := TrimSpace entry in
  if String.eqb entry "" then Err EmptyEntry
  else if Contains entry "/" then
    match ParsePrefix entry with
    | None => Err BadCIDR
    | Some p => if Is4In6 (pAddr p) then Err MappedCIDR else Ok (Masked p)
    end
  else
    match ParseAddr entry with
    | None => Err BadAddress
    | Some a =>
        if Is4In6 a then Err MappedAddress
        else if negb (String.eqb (Zone a) "") then Err ZonedAddress
        else Ok (PrefixFrom a (BitLen a))
    end.

Definition parseIPPrefixes (entries : list string) : result IPError (list Prefix) :=
  mapM_result parseIPPrefix entries.

(** ** The client address *)

Definition forwardedChainLimit : nat := 32.
Definition deniedLogBurst : Z := 10.
Definition deniedLogInterval : Z := 10 * second.

(** [parseHostAddr]: the zero address when there is none. *)
Definition parseHostAddr (hostPort : string) : Addr :=
  let host := match SplitHostPort hostPort with Some (h, _) => h | None => hostPort end in
  match ParseAddr (TrimSpace host) with
  | Some a => normalizeAddr a
  | None => AddrZero
  end.

Definition parseForwardedAddr (entry : string) : Addr :=
  let entry := TrimSpace entry in
  match ParseAddr entry with
  | Some a => normalizeAddr a
  | None => parseHostAddr entry
  end.

Record forwardedResolver := mkResolver {
  trusted : list Prefix;
  clientIPHeader : string }.

Definition newForwardedResolver (trustedProxies : list string) (header : string)
  : result IPError forwardedResolver :=
  t ← parseIPPrefixes trustedProxies;
  Ok (mkResolver t (if String.eqb header "" then "" else CanonicalHeaderKey header)).

(** The entries of the forwarded chain, every header line included. *)
Definition chainEntries (f : forwardedResolver) (r : Request) : list string :=
  let header := if String.eqb (clientIPHeader f) "" then "X-Forwarded-For" else clientIPHeader f in
  v ← hdr_values (ReqHeader r) header; Split v comma.

(** The walk, over the entries from the nearest hop backwards. *)
Fixpoint walkChain (trusted : list Prefix) (entries : list string) : Addr :=
  match entries with
  | [] => AddrZero
  | e :: entries =>
      let a := parseForwardedAddr e in
      if negb (IsValid a) then AddrZero
      else if negb (containsAddr trusted a) then a
      else walkChain trusted entries
  end.

Definition lastEntries (l : list string) : list string :=
  if (forwardedChainLimit <? length l)%nat then drop (length l - forwardedChainLimit) l else l.

Definition forwardedAddr (f : forwardedResolver) (r : Request) : Addr :=
  walkChain (trusted f) (rev (lastEntries (chainEntries f r))).

Definition clientAddr (f : forwardedResolver) (r : Request) : Addr :=
  let peer := parseHostAddr (RemoteAddr r) in
  if Nat.eqb (length (trusted f)) 0 || negb (IsValid peer) || negb (containsAddr (trusted f) peer)
  then peer else forwardedAddr f r.

(** [ClientIPMiddleware.ServeHTTP]: the request the next handler sees. *)
Definition ClientIPMiddleware (headerName : string) (r : Request) : Request :=
  let clientIP := hdr_get (ReqHeader r) (CanonicalHeaderKey headerName) in
  if String.eqb clientIP "" then r
  else with_ReqHeader (hdr_set (ReqHeader r) "X-Forwarded-For" clientIP) r.

(** ** The allow list *)

Record ipAllowList := mkAllowList {
  alResolver : forwardedResolver;
  alPrefixes : list Prefix;
  alDenied : tokenBucket }.

Definition newIPAllowList (allowIPs trustedProxies : list string) (header : string) (now : Z)
  : result IPError ipAllowList :=
  ps ← parseIPPrefixes allowIPs;
  f ← newForwardedResolver trustedProxies header;
  Ok (mkAllowList f ps (newTokenBucket deniedLogBurst deniedLogInterval now)).

Definition permits (l : ipAllowList) (a : Addr) : bool :=
  IsValid a && containsAddr (alPrefixes l) a.

(** [resolveIPAllowList]: a stored list that cannot be read back denies. *)
Definition resolveIPAllowList (allowIPs trustedProxies : list string) (header : string) (now : Z)
  : option ipAllowList :=
  if Nat.eqb (length allowIPs) 0 then None
  else match newIPAllowList allowIPs trustedProxies header now with
       | Ok l => Some l
       | Err _ => Some (mkAllowList (mkResolver [] "") [] (newTokenBucket deniedLogBurst deniedLogInterval now))
       end.

(** The probes every gate lets pass. *)
Definition isExempt (healthCheckPath : string) (r : Request) : bool :=
  InternalRequest r || IsHealthCheckRequest healthCheckPath r.

Definition logDeniedIP (now : Z) (l : ipAllowList) : ipAllowList :=
  mkAllowList (alResolver l) (alPrefixes l) (TryTake now (alDenied l)).1.

(** [rejectDisallowedIP]: the list afterwards, and the status answered. *)
Definition rejectDisallowedIP (healthCheckPath : string) (now : Z) (l : option ipAllowList) (r : Request)
  : option ipAllowList * option Z :=
  match l with
  | None => (None, None)
  | Some l' =>
      if isExempt healthCheckPath r then (l, None)
      else if permits l' (clientAddr (alResolver l') r) then (l, None)
      else (Some (logDeniedIP now l'), Some 403)
  end.

(** [withMetricsAllowList]: whether the metrics handler is reached. *)
Definition metricsAllowed (allowed : list Prefix) (r : Request) : bool :=
  if Nat.eqb (length allowed) 0 then true
  else let a := parseHostAddr (RemoteAddr r) in IsValid a && containsAddr allowed a.

(** ** The deny list *)

Inductive DenyError := DenyIP (e : IPError) | EmptyPattern | BadPattern.

Definition emptyUserAgentPattern : string := "^$".

Section deny.
Context `{!Regexp}.

Record denyUserAgentRule := mkDenyUA { uaPattern : string; uaMatcher : Regex }.

Record denyList := mkDenyList {
  dlResolver : forwardedResolver;
  dlPrefixes : list Prefix;
  dlUserAgents : list denyUserAgentRule;
  denyAll : bool;
  dlDenied : tokenBucket }.

Definition parseDenyUserAgent (pattern : string) : result DenyError denyUserAgentRule :=
  let trimmed := TrimSpace pattern in
  if String.eqb trimmed "" then Err EmptyPattern
  else match Compile ("\A(?:" +:+ trimmed +:+ ")\z") with
       | None => Err BadPattern
       | Some m => Ok (mkDenyUA trimmed m)
       end.

Definition parseDenyUserAgents (patterns : list string) : result DenyError (list denyUserAgentRule) :=
  mapM_result parseDenyUserAgent patterns.

Definition lift_ip {A} (r : result IPError A) : result DenyError A :=
  match r with Ok a => Ok a | Err e => Err (DenyIP e) end.

Definition newDenyList (denyIPs denyUserAgents trustedProxies : list string) (header : string) (now : Z)
  : result DenyError denyList :=
  ps ← lift_ip (parseIPPrefixes denyIPs);
  uas ← parseDenyUserAgents denyUserAgents;
  f ← lift_ip (newForwardedResolver trustedProxies header);
  Ok (mkDenyList f ps uas false (newTokenBucket deniedLogBurst deniedLogInterval now)).

Definition deniesAddr (l : denyList) (a : Addr) : bool :=
  IsValid a && containsAddr (dlPrefixes l) a.

Definition deniesUserAgent (l : denyList) (userAgent : string) : bool :=
  if String.eqb userAgent "" then
    existsb (λ rule, String.eqb (uaPattern rule) emptyUserAgentPattern) (dlUserAgents l)
  else existsb (λ rule, MatchString (uaMatcher rule) userAgent) (dlUserAgents l).

Definition hasDenyRules (denyIPs denyUserAgents : list string) : bool :=
  negb (Nat.eqb (length denyIPs) 0) || negb (Nat.eqb (length denyUserAgents) 0).

Definition resolveDenyList (denyIPs denyUserAgents trustedProxies : list string) (header : string) (now : Z)
  : option denyList :=
  if negb (hasDenyRules denyIPs denyUserAgents) then None
  else match newDenyList denyIPs denyUserAgents trustedProxies header now with
       | Ok l => Some l
       | Err _ => Some (mkDenyList (mkResolver [] "") [] [] true
                          (newTokenBucket deniedLogBurst deniedLogInterval now))
       end.

Inductive DenyKind := DenyUnreadable | DenyByIP | DenyByUserAgent.

Definition deniedBy (l : denyList) (r : Request) : option DenyKind :=
  if denyAll l then Some DenyUnreadable
  else if deniesAddr l (clientAddr (dlResolver l) r) then Some DenyByIP
  else if deniesUserAgent l (hdr_get (ReqHeader r) "User-Agent") then Some DenyByUserAgent
  else None.

Definition logDenied (now : Z) (l : denyList) : denyList :=
  mkDenyList (dlResolver l) (dlPrefixes l) (dlUserAgents l) (denyAll l) (TryTake now (dlDenied l)).1.

Definition rejectDenied (healthCheckPath : string) (now : Z) (l : option denyList) (r : Request)
  : option denyList * option Z :=
  match l with
  | None => (None, None)
  | Some l' =>
      if isExempt healthCheckPath r then (l, None)
      else match deniedBy l' r with
           | None => (l, None)
           | Some _ => (Some (logDenied now l'), Some 403)
           end
  end.

(** ** Validation *)

Inductive ClientOptionError :=
| TrustedUnused | HeaderWithoutTrusted | DefaultRouteTrusted
| InvalidIP (e : IPError) | InvalidDeny (e : DenyError) | RootHealthCheck.

(** [validateAllowIPs]; [rateLimited] tells whether a rate limit is set. *)
Definition validateAllowIPs (allowIPs denyIPs trustedProxies : list string) (header : string)
    (rateLimited : bool) : result ClientOptionError unit :=
  if negb (Nat.eqb (length trustedProxies) 0) && Nat.eqb (length allowIPs) 0
     && negb rateLimited && Nat.eqb (length denyIPs) 0 then Err TrustedUnused
  else if negb (Nat.eqb (length allowIPs) 0) && negb (String.eqb header "")
     && Nat.eqb (length trustedProxies) 0 then Err HeaderWithoutTrusted
  else match parseIPPrefixes allowIPs with
       | Err e => Err (InvalidIP e)
       | Ok _ =>
           match parseIPPrefixes trustedProxies with
           | Err e => Err (InvalidIP e)
           | Ok ps => if existsb (λ p, pBits p =? 0) ps then Err DefaultRouteTrusted else Ok tt
           end
       end.

Definition validateDeny (denyIPs denyUserAgents trustedProxies : list string) (header : string)
  : result ClientOptionError unit :=
  match parseIPPrefixes denyIPs with
  | Err e => Err (InvalidIP e)
  | Ok _ =>
      match parseDenyUserAgents denyUserAgents with
      | Err e => Err (InvalidDeny e)
      | Ok _ =>
          if negb (Nat.eqb (length denyIPs) 0) && negb (String.eqb header "")
             && Nat.eqb (length trustedProxies) 0 then Err HeaderWithoutTrusted
          else Ok tt
      end
  end.

(** The rule the four gates share: a health check path of the root would
    exempt the service's index page. *)
Definition rootHealthCheck (path : string) : bool := String.eqb path "" || String.eqb path "/".

Definition validateAllowIPsHealthCheck (allowIPs : list string) (path : string)
  : result ClientOptionError unit :=
  if Nat.eqb (length allowIPs) 0 then Ok tt
  else if rootHealthCheck path then Err RootHealthCheck else Ok tt.

Definition validateDenyHealthCheck (denyIPs denyUserAgents : list string) (path : string)
  : result ClientOptionError unit :=
  if negb (hasDenyRules denyIPs denyUserAgents) then Ok tt
  else if rootHealthCheck path then Err RootHealthCheck else Ok tt.

End deny.

(** ** The walk *)

(** An entry one of our own proxies may have written. *)
Definition trusted_entry (ps : list Prefix) (e : string) : Prop :=
  IsValid (parseForwardedAddr e) = true ∧ containsAddr ps (parseForwardedAddr e) = true.

#[export] Instance trusted_entry_dec ps e : Decision (trusted_entry ps e).
Proof. unfold trusted_entry. apply _. Defined.

(** The walk stops at the nearest entry that is not ours. *)
Lemma walkChain_stop ps post e rest :
  Forall (trusted_entry ps) post → ¬ trusted_entry ps e →
  walkChain ps (post ++ e :: rest) = parseForwardedAddr e.
Proof.
  induction 1 as [|x post [Hv Hc] _ IH]; intros He; cbn.
  - unfold trusted_entry in He.
    destruct (IsValid (parseForwardedAddr e)) eqn:Hv; cbn.
    + destruct (containsAddr ps (parseForwardedAddr e)) eqn:Hc; cbn; [naive_solver|done].
    + by destruct (parseForwardedAddr e).
  - rewrite Hv, Hc. cbn. by apply IH.
Qed.

Lemma walkChain_all ps l : Forall (trusted_entry ps) l → walkChain ps l = AddrZero.
Proof. induction 1 as [|x l [Hv Hc] _ IH]; cbn; [done|]. by rewrite Hv, Hc. Qed.

Lemma split_last_untrusted ps l :
  Forall (trusted_entry ps) l ∨
  ∃ pre e post, l = pre ++ e :: post ∧ ¬ trusted_entry ps e ∧ Forall (trusted_entry ps) post.
Proof.
  induction l as [|x l [IH|(pre & e & post & -> & He & Hp)]]; [by left| |].
  - destruct (decide (trusted_entry ps x)); [left; by constructor|].
    right. by exists [], x, l.
  - right. by exists (x :: pre), e, post.
Qed.

Lemma lastEntries_suffix pre l :
  (length l ≤ forwardedChainLimit)%nat →
  ∃ pre', lastEntries (pre ++ l) = pre' ++ l.
Proof.
  intros Hl. unfold lastEntries. rewrite length_app.
  destruct (Nat.ltb_spec forwardedChainLimit (length pre + length l)); [|by exists pre].
  exists (drop (length pre + length l - forwardedChainLimit) pre).
  rewrite drop_app_le by lia. done.
Qed.

(** Whether the forwarded chain is consulted at all. *)
Definition peer_trusted (f : forwardedResolver) (r : Request) : bool :=
  IsValid (parseHostAddr (RemoteAddr r)) && containsAddr (trusted f) (parseHostAddr (RemoteAddr r)).

Lemma clientAddr_peer f r :
  clientAddr f r = if peer_trusted f r then forwardedAddr f r else parseHostAddr (RemoteAddr r).
Proof.
  unfold clientAddr, peer_trusted.
  destruct (IsValid (parseHostAddr (RemoteAddr r))); cbn; [|by rewrite orb_true_r].
  destruct (trusted f) as [|p ps] eqn:Ht; [done|]. cbn [length Nat.eqb orb].
  by destruct (containsAddr _ _).
Qed.

Lemma forwardedAddr_unforgeable f r pre e post :
  chainEntries f r = pre ++ e :: post →
  (length (e :: post) ≤ forwardedChainLimit)%nat →
  ¬ trusted_entry (trusted f) e → Forall (trusted_entry (trusted f)) post →
  forwardedAddr f r = parseForwardedAddr e.
Proof.
  intros Hc Hl He Hp. unfold forwardedAddr. rewrite Hc.
  destruct (lastEntries_suffix pre (e :: post) Hl) as [pre' ->].
  rewrite rev_app_distr. cbn [rev]. rewrite <- app_assoc. cbn [app].
  apply walkChain_stop; [|done].
  by apply Forall_rev.
Qed.

(** ** Address normalization *)

Lemma containsAddr_mapped ps x z :
  0 ≤ x < 2 ^ 32 →
  containsAddr ps (Addr6 (0xffff * 2 ^ 32 + x) z) = containsAddr ps (Addr4 x).
Proof.
  intros Hx. assert (normalizeAddr (Addr6 (0xffff * 2 ^ 32 + x) z) = normalizeAddr (Addr4 x)) as H.
  { unfold normalizeAddr, Unmap, Is4In6.
    rewrite Z.shiftr_div_pow2, Z.div_add_l, Z.div_small by lia. cbn [Z.add Z.eqb Pos.eqb].
    rewrite Z.land_ones, (Z.add_comm _ x), Z.mod_add, Z.mod_small by lia. done. }
  unfold containsAddr. by rewrite H.
Qed.

Lemma normalizeAddr_wf a : addr_wf a → addr_wf (normalizeAddr a).
Proof. intros. by apply WithZone_wf, Unmap_wf. Qed.

Lemma parseHostAddr_wf s : addr_wf (parseHostAddr s).
Proof.
  unfold parseHostAddr. destruct (ParseAddr _) eqn:H; [|done].
  by eapply normalizeAddr_wf, ParseAddr_wf.
Qed.

Lemma parseForwardedAddr_wf s : addr_wf (parseForwardedAddr s).
Proof.
  unfold parseForwardedAddr. destruct (ParseAddr _) eqn:H; [|apply parseHostAddr_wf].
  by eapply normalizeAddr_wf, ParseAddr_wf.
Qed.

Lemma walkChain_wf ps l : addr_wf (walkChain ps l).
Proof.
  induction l as [|e l IH]; cbn; [done|]. destruct (negb _); [done|].
  destruct (negb _); [apply parseForwardedAddr_wf|done].
Qed.

Lemma clientAddr_wf f r : addr_wf (clientAddr f r).
Proof.
  rewrite clientAddr_peer. destruct (peer_trusted f r); [apply walkChain_wf|apply parseHostAddr_wf].
Qed.

(** ** What a list entry covers *)

(** [entry] names a range [a] lies in: same family, same leading bits. *)
Definition entry_covers (entry : string) (a : Addr) : Prop :=
  ∃ p, parseIPPrefix entry = Ok p ∧ same_family (pAddr p) a ∧
       addr_bits a / 2 ^ (BitLen a - pBits p) = addr_bits (pAddr p) / 2 ^ (BitLen a - pBits p).

Lemma PrefixFrom_bits a : IsValid a = true → pBits (PrefixFrom a (BitLen a)) = BitLen a.
Proof. by destruct a. Qed.

Lemma Masked_wf p : addr_wf (pAddr p) → 0 ≤ pBits p ≤ BitLen (pAddr p) → IsValid (pAddr p) = true →
  addr_wf (pAddr (Masked p)) ∧ pBits (Masked p) = pBits p ∧ BitLen (pAddr (Masked p)) = BitLen (pAddr p).
Proof.
  intros Hp Hb HV. unfold Masked, AddrPrefix.
  rewrite (proj2 (Z.ltb_ge (pBits p) 0)) by lia.
  assert (Hm : ∀ w x, 0 ≤ pBits p ≤ w → 0 ≤ x < 2 ^ w → 0 ≤ Z.land x (mask w (pBits p)) < 2 ^ w).
  { intros w x Hw Hx. rewrite land_mask_div by lia.
    assert (0 < 2 ^ (w - pBits p)) by (apply Z.pow_pos_nonneg; lia).
    pose proof (Z.mul_div_le x (2 ^ (w - pBits p))).
    assert (0 ≤ x / 2 ^ (w - pBits p)) by (apply Z.div_pos; lia). nia. }
  destruct (pAddr p) as [|x|x z] eqn:Ep; [done| |]; cbn in Hp, Hb.
  - rewrite (proj2 (Z.ltb_ge 32 (pBits p))) by lia. cbn.
    rewrite !(proj2 (Z.leb_le _ _)) by lia. split; [apply Hm; lia|done].
  - rewrite (proj2 (Z.ltb_ge 128 (pBits p))) by lia. cbn.
    rewrite !(proj2 (Z.leb_le _ _)) by lia. split; [apply Hm; lia|done].
Qed.

Lemma ParsePrefix_valid s p : ParsePrefix s = Some p → IsValid (pAddr p) = true.
Proof.
  unfold ParsePrefix. destruct (last_index_byte s slash) as [i|]; [|done].
  destruct (ParseAddr (str_take i s)) as [a|] eqn:Ha; [|done]. apply ParseAddr_valid in Ha.
  destruct (_ && _)%bool; [done|].
  lazymatch goal with |- context [if ?b then None else _] => destruct b; [done|] end.
  destruct (ParseInt _) as [b|]; [|done]. destruct (_ || _)%bool; [done|].
  intros [= <-]. by destruct a.
Qed.

Lemma parseIPPrefix_wf s p : parseIPPrefix s = Ok p →
  addr_wf (pAddr p) ∧ 0 ≤ pBits p ≤ BitLen (pAddr p).
Proof.
  unfold parseIPPrefix. destruct (String.eqb _ _); [done|]. destruct (Contains _ _).
  - destruct (ParsePrefix _) as [q|] eqn:Hq; [|done]. destruct (Is4In6 _); [done|].
    intros [= <-]. pose proof (ParsePrefix_valid _ _ Hq). apply ParsePrefix_wf in Hq as [Hq Hb].
    destruct (Masked_wf q Hq Hb) as (? & -> & ->); done.
  - destruct (ParseAddr _) as [a|] eqn:Ha; [|done].
    destruct (Is4In6 a); [done|]. destruct (negb _); [done|]. intros [= <-].
    pose proof (ParseAddr_valid _ _ Ha) as HV. apply ParseAddr_wf in Ha.
    rewrite PrefixFrom_bits by done. destruct a; cbn in *; [done|lia|lia].
Qed.

Lemma normalizeAddr_zone a : Zone (normalizeAddr a) = "".
Proof. unfold normalizeAddr. by destruct (Unmap a). Qed.

Lemma same_family_BitLen a b : same_family a b → BitLen a = BitLen b.
Proof. by destruct a, b. Qed.

(** Membership of a parsed list is being covered by one of its entries. *)
Lemma containsAddr_entries entries ps a :
  parseIPPrefixes entries = Ok ps → addr_wf a →
  containsAddr ps a = true ↔ ∃ e, e ∈ entries ∧ entry_covers e (normalizeAddr a).
Proof.
  unfold parseIPPrefixes. rewrite mapM_result_Forall2. intros Hps Ha.
  apply normalizeAddr_wf in Ha. unfold containsAddr. rewrite existsb_exists.
  assert (Hone : ∀ e p, parseIPPrefix e = Ok p →
            PrefixContains p (normalizeAddr a) = true ↔ entry_covers e (normalizeAddr a)).
  { intros e p Hp. destruct (parseIPPrefix_wf _ _ Hp) as [Hw Hb].
    rewrite PrefixContains_spec by (done || lia). rewrite normalizeAddr_zone.
    unfold entry_covers. split.
    - intros (_ & _ & Hf & Heq). exists p. split; [done|]. split; [done|].
      by rewrite <- (same_family_BitLen _ _ Hf).
    - intros (q & Hq & Hf & Heq). rewrite Hp in Hq. injection Hq as <-. split; [lia|]. split; [done|]. split; [done|].
      by rewrite (same_family_BitLen _ _ Hf). }
  split.
  - intros (p & Hin%list_elem_of_In & Hc).
    destruct (Forall2_elem_r _ _ _ _ Hps Hin) as (e & He & Hp).
    exists e. split; [done|]. by apply (Hone e p).
  - intros (e & He & Hc). destruct (Forall2_elem_l _ _ _ _ Hps He) as (p & Hin & Hp).
    exists p. split; [by apply list_elem_of_In|]. by apply (Hone e p).
Qed.

Lemma entry_covers_valid e a : entry_covers e a → IsValid a = true.
Proof. intros (p & _ & Hf & _). by destruct a, (pAddr p). Qed.

Lemma normalizeAddr_valid a : IsValid (normalizeAddr a) = IsValid a.
Proof.
  destruct a as [| |x z]; [done|done|]. unfold normalizeAddr, Unmap. by destruct (Is4In6 _).
Qed.

Lemma permits_entries allowIPs f ps b a :
  parseIPPrefixes allowIPs = Ok ps → addr_wf a →
  permits (mkAllowList f ps b) a = true ↔ ∃ e, e ∈ allowIPs ∧ entry_covers e (normalizeAddr a).
Proof.
  intros Hps Ha. unfold permits. cbn. rewrite andb_true_iff, (containsAddr_entries _ _ _ Hps Ha).
  split; [naive_solver|]. intros (e & He & Hc). split; [|eauto].
  rewrite <- normalizeAddr_valid. by eapply entry_covers_valid.
Qed.

(** ** Theorems *)

(** C21: the client address cannot be forged: when the peer is not a trusted
    proxy, it is the peer, whatever the headers say; otherwise it is what the
    nearest entry of the chain says that no proxy of ours wrote, whatever
    stands before it (also on header lines of its own), and a chain without
    such an entry gives no address. *)
Theorem client_addr_unforgeable f r :
  (peer_trusted f r = false → clientAddr f r = parseHostAddr (RemoteAddr r)) ∧
  (peer_trusted f r = true →
     (∀ pre e post,
        chainEntries f r = pre ++ e :: post →
        (length (e :: post) ≤ forwardedChainLimit)%nat →
        ¬ trusted_entry (trusted f) e → Forall (trusted_entry (trusted f)) post →
        clientAddr f r = parseForwardedAddr e) ∧
     (Forall (trusted_entry (trusted f)) (lastEntries (chainEntries f r)) →
        clientAddr f r = AddrZero)).
Proof.
  rewrite clientAddr_peer. split; [by intros ->|]. intros ->. split.
  - intros pre e post. apply forwardedAddr_unforgeable.
  - intros H. apply walkChain_all. by apply Forall_rev.
Qed.

(** A service with an allow list serves a request exactly when it is a
    probe every gate lets pass or its client address lies in a range some
    entry names; a stored list that cannot be read back serves probes only. *)
Theorem allow_list_admits allowIPs trustedProxies header t hc now r l :
  resolveIPAllowList allowIPs trustedProxies header t = Some l →
  (rejectDisallowedIP hc now (Some l) r).2 = None ↔
  isExempt hc r = true ∨
  ∃ ps f, parseIPPrefixes allowIPs = Ok ps ∧ newForwardedResolver trustedProxies header = Ok f ∧
    ∃ entry, entry ∈ allowIPs ∧ entry_covers entry (normalizeAddr (clientAddr f r)).
Proof.
  unfold resolveIPAllowList. destruct (Nat.eqb _ _); [done|].
  unfold rejectDisallowedIP. intros Hl.
  destruct (isExempt hc r); cbn; [naive_solver|].
  unfold newIPAllowList in Hl.
  destruct (parseIPPrefixes allowIPs) as [ps|e] eqn:Hps; cbn in Hl.
  2:{ injection Hl as <-. unfold permits. cbn. rewrite andb_false_r. naive_solver. }
  destruct (newForwardedResolver trustedProxies header) as [f|e] eqn:Hf; cbn in Hl.
  2:{ injection Hl as <-. unfold permits. cbn. rewrite andb_false_r. naive_solver. }
  injection Hl as <-. cbn [alResolver].
  pose proof (permits_entries _ f ps (newTokenBucket deniedLogBurst deniedLogInterval t)
                (clientAddr f r) Hps (clientAddr_wf f r)) as Hp.
  destruct (permits _ _); cbn.
  { split; [|done]. intros _. right. exists ps, f. split; [done|]. split; [done|]. by apply Hp. }
  split; [done|]. intros [|(ps' & f' & [= <-] & [= <-] & Hex)]; [done|].
  by apply Hp in Hex.
Qed.

Section deny_theorems.
Context `{!Regexp}.

(** The deny list refuses exactly what its rules name, and everything but
    probes once its stored rules cannot be read back. *)
Lemma deny_list_refuses denyIPs denyUserAgents trustedProxies header t hc now r l :
  resolveDenyList denyIPs denyUserAgents trustedProxies header t = Some l →
  isExempt hc r = false →
  (rejectDenied hc now (Some l) r).2 = Some 403 ↔
  (∃ e, newDenyList denyIPs denyUserAgents trustedProxies header t = Err e) ∨
  ∃ f uas, newForwardedResolver trustedProxies header = Ok f ∧
    parseDenyUserAgents denyUserAgents = Ok uas ∧ newDenyList denyIPs denyUserAgents trustedProxies header t = Ok l ∧
    ((∃ entry, entry ∈ denyIPs ∧ entry_covers entry (normalizeAddr (clientAddr f r))) ∨
     deniesUserAgent l (hdr_get (ReqHeader r) "User-Agent") = true).
Proof.
  unfold resolveDenyList. destruct (negb _); [done|]. intros Hl Hex.
  unfold rejectDenied. rewrite Hex.
  destruct (newDenyList _ _ _ _ _) as [l'|e] eqn:Hn; injection Hl as <-.
  2:{ cbn. naive_solver. }
  unfold newDenyList in Hn. unfold lift_ip in Hn.
  destruct (parseIPPrefixes denyIPs) as [ps|] eqn:Hps; cbn in Hn; [|done].
  destruct (parseDenyUserAgents denyUserAgents) as [uas|] eqn:Hua; cbn in Hn; [|done].
  destruct (newForwardedResolver trustedProxies header) as [f|] eqn:Hf; cbn in Hn; [|done].
  injection Hn as <-. unfold deniedBy, deniesAddr. cbn [denyAll dlResolver dlPrefixes].
  pose proof (containsAddr_entries _ _ (clientAddr f r) Hps (clientAddr_wf f r)) as Hc.
  destruct (IsValid (clientAddr f r) && containsAddr ps (clientAddr f r)) eqn:Hip; cbn [snd].
  - apply andb_true_iff in Hip as [_ Hip]. split; [|done]. intros _. right.
    exists f, uas. naive_solver.
  - assert (¬ ∃ e, e ∈ denyIPs ∧ entry_covers e (normalizeAddr (clientAddr f r))) as Hno.
    { intros Hx. pose proof Hx as (e & _ & HV%entry_covers_valid).
      rewrite normalizeAddr_valid in HV. apply Hc in Hx. by rewrite HV, Hx in Hip. }
    destruct (deniesUserAgent _ _) eqn:Hu; cbn; [|naive_solver].
    split; [|done]. intros _. right. exists f, uas. naive_solver.
Qed.

End deny_theorems.

Module ClientAddrExamples.

Definition req (peer : string) (xff : list string) : Request :=
  mkRequest "GET" "a.example" "/" "" "" false false peer {["X-Forwarded-For" := xff]} [] 0 None false false.

Definition edge : forwardedResolver :=
  mkResolver [mkPrefix (Addr4 0x0a000000) 8] "".

Example forged_header_ignored :
  clientAddr edge (req "192.0.2.1:4711" ["203.0.113.9"]) = Addr4 0xc0000201.
Proof. reflexivity. Qed.

Example second_line_wins :
  clientAddr edge (req "10.0.0.1:80" ["203.0.113.9"; "192.0.2.7, 10.0.0.2"]) = Addr4 0xc0000207.
Proof. reflexivity. Qed.

Lemma client_addr_unforgeable_witness :
  clientAddr edge (req "10.0.0.1:80" ["203.0.113.9"; "192.0.2.7, 10.0.0.2"]) =
  parseForwardedAddr "192.0.2.7".
Proof.
  pose proof (client_addr_unforgeable edge (req "10.0.0.1:80" ["203.0.113.9"; "192.0.2.7, 10.0.0.2"]))
    as [_ H].
  apply H with (pre := ["203.0.113.9"]) (post := [" 10.0.0.2"]).
  - reflexivity.
  - reflexivity.
  - vm_compute. lia.
  - vm_compute. intros [_ [=]].
  - constructor; [|constructor]. split; reflexivity.
Defined.

Definition office : list string := ["203.0.113.77/24"; "2001:db8::/32"].

Definition office_list : option ipAllowList := resolveIPAllowList office ["10.0.0.0/8"] "" 0.

Example office_admits :
  (rejectDisallowedIP "/up" 0 office_list (req "10.0.0.1:80" ["203.0.113.9"])).2 = None ∧
  (rejectDisallowedIP "/up" 0 office_list (req "[::ffff:203.0.113.9]:80" [])).2 = None ∧
  (rejectDisallowedIP "/up" 0 office_list (req "192.0.2.1:80" ["203.0.113.9"])).2 = Some 403.
Proof. repeat split. Qed.

Definition office_resolved : ipAllowList :=
  mkAllowList edge [mkPrefix (Addr4 0xcb007100) 24; mkPrefix (Addr6 (0x20010db8 * 2 ^ 96) "") 32]
    (newTokenBucket deniedLogBurst deniedLogInterval 0).

Lemma allow_list_admits_witness :
  (rejectDisallowedIP "/up" 0 (Some office_resolved) (req "10.0.0.1:80" ["203.0.113.9"])).2 = None ↔
  isExempt "/up" (req "10.0.0.1:80" ["203.0.113.9"]) = true ∨
  ∃ ps f, parseIPPrefixes office = Ok ps ∧ newForwardedResolver ["10.0.0.0/8"] "" = Ok f ∧
    ∃ entry, entry ∈ office ∧
      entry_covers entry (normalizeAddr (clientAddr f (req "10.0.0.1:80" ["203.0.113.9"]))).
Proof. apply (allow_list_admits office ["10.0.0.0/8"] "" 0). vm_compute. reflexivity. Defined.

End ClientAddrExamples.
