(* ===== verification/RateLimit.v ===== *)
(** * Rate limiting: [internal/server/rate_limit.go]

    A budget per client, kept in a bounded map of token buckets that is swept
    now and then.  The bucket is [golang.org/x/time/rate]'s; the limiter is
    written against its interface and documented behaviour ([RateLimiter],
    [RateLimiterSpec]). *)
From S2P Require Import Prelude GoStrings GoFloat NetIP Http TokenBucket ClientAddr.

(** ** [rate.Limiter]

    [AllowN now n] spends [n] tokens when there are as many; [HoldsAtLeast now
    n] is [TokensAt(now) >= float64(n)]. *)
Class RateLimiter := {
  Limiter : Type;
  NewLimiter : float64 → Z → Limiter;
  AllowN : Z → Z → Limiter → Limiter * bool;
  HoldsAtLeast : Z → Z → Limiter → bool }.

(** A limiter is a bucket of size [burst], initially full, refilled at the
    limit: one that is full again behaves like a new one.  [lim_sim t x y]:
    nothing tells [x] and [y] apart from time [t] on. *)
Class RateLimiterSpec `{!RateLimiter} := {
  configured : float64 → Z → Limiter → Prop;
  lim_sim : Z → Limiter → Limiter → Prop;
  configured_new limit burst : configured limit burst (NewLimiter limit burst);
  configured_allow limit burst now n x :
    configured limit burst x → configured limit burst (AllowN now n x).1;
  lim_sim_refl t x : lim_sim t x x;
  lim_sim_trans t x y z : lim_sim t x y → lim_sim t y z → lim_sim t x z;
  lim_sim_later t t' x y : t ≤ t' → lim_sim t x y → lim_sim t' x y;
  lim_sim_allow t n x y : lim_sim t x y →
    (AllowN t n x).2 = (AllowN t n y).2 ∧ lim_sim t (AllowN t n x).1 (AllowN t n y).1;
  full_is_new limit burst now x : configured limit burst x →
    HoldsAtLeast now burst x = true → lim_sim now x (NewLimiter limit burst) }.

(** ** The limiter *)

Definition rateLimitIPv6PrefixBits : Z := 64.
Definition rateLimitMaxTrackedClients : nat := Z.to_nat 50000.
Definition rateLimitSweepInterval : Z := minute.
Definition rateLimitLogBurst : Z := 10.
Definition rateLimitLogInterval : Z := 10 * second.

Definition rateLimitClientKey (a : Addr) : Prefix :=
  let a := normalizeAddr a in
  if Is6 a then Masked (PrefixFrom a rateLimitIPv6PrefixBits) else PrefixFrom a (BitLen a).

Section limiter.
Context `{!RateLimiter}.

Record rateLimiter := mkLimiter {
  rlResolver : forwardedResolver;
  rlLimit : float64;
  rlBurst : Z;
  rlExempt : list Prefix;
  rlBuckets : gmap Prefix Limiter;
  rlOverflow : Limiter;
  rlLastSweep : Z;
  rlThrottled : tokenBucket }.

Definition with_buckets (bs : gmap Prefix Limiter) (o : Limiter) (t : Z) (l : rateLimiter) : rateLimiter :=
  mkLimiter (rlResolver l) (rlLimit l) (rlBurst l) (rlExempt l) bs o t (rlThrottled l).

Definition newBareRateLimiter (limit : float64) (burst : Z) (now : Z) : rateLimiter :=
  let burst := if burst <=? 0 then Z.max 1 (f64_ceil_int limit) else burst in
  mkLimiter (mkResolver [] "") limit burst [] ∅ (NewLimiter limit burst) now
    (newTokenBucket rateLimitLogBurst rateLimitLogInterval now).

Definition newRateLimiter (limit : float64) (burst : Z) (exempt trustedProxies : list string)
    (header : string) (now : Z) : result IPError rateLimiter :=
  ex ← parseIPPrefixes exempt;
  f ← newForwardedResolver trustedProxies header;
  let l := newBareRateLimiter limit burst now in
  Ok (mkLimiter f (rlLimit l) (rlBurst l) ex (rlBuckets l) (rlOverflow l) (rlLastSweep l) (rlThrottled l)).

(** The bucket a client spends from: its own ([Some]), created when there is
    room, or the overflow bucket ([None]). *)
Definition bucketFor (a : Addr) (l : rateLimiter) : rateLimiter * option Prefix :=
  if negb (IsValid a) then (l, None)
  else
    let key := rateLimitClientKey a in
    match rlBuckets l !! key with
    | Some _ => (l, Some key)
    | None =>
        if (rateLimitMaxTrackedClients <=? size (rlBuckets l))%nat then (l, None)
        else (with_buckets (<[key := NewLimiter (rlLimit l) (rlBurst l)]> (rlBuckets l))
                (rlOverflow l) (rlLastSweep l) l, Some key)
    end.

Definition sweepIfDue (now : Z) (l : rateLimiter) : rateLimiter :=
  if time_sub now (rlLastSweep l) <? rateLimitSweepInterval then l
  else with_buckets (filter (λ kb, HoldsAtLeast now (rlBurst l) kb.2 = false) (rlBuckets l))
         (rlOverflow l) now l.

(** [AllowN(now, 1)] on the bucket [bucketFor] chose. *)
Definition spend (now : Z) (k : option Prefix) (l : rateLimiter) : rateLimiter * bool :=
  match k with
  | None =>
      let '(o, ok) := AllowN now 1 (rlOverflow l) in
      (with_buckets (rlBuckets l) o (rlLastSweep l) l, ok)
  | Some key =>
      match rlBuckets l !! key with
      | None => (l, false)
      | Some b =>
          let '(b', ok) := AllowN now 1 b in
          (with_buckets (<[key := b']> (rlBuckets l)) (rlOverflow l) (rlLastSweep l) l, ok)
      end
  end.

Definition allow (now : Z) (r : Request) (l : rateLimiter) : rateLimiter * bool :=
  let a := clientAddr (rlResolver l) r in
  if IsValid a && containsAddr (rlExempt l) a then (l, true)
  else let '(l, k) := bucketFor a (sweepIfDue now l) in spend now k l.

Definition retryAfterSeconds (l : rateLimiter) : Z :=
  Z.max 1 (f64_ceil_int (f64_div (f64_of_Z 1) (rlLimit l))).

Definition tracked (l : rateLimiter) : nat := size (rlBuckets l).

Definition resolveRateLimiter (limit : float64) (burst : Z) (exempt trustedProxies : list string)
    (header : string) (now : Z) : option rateLimiter :=
  if f64_leb limit f64_zero then None
  else match newRateLimiter limit burst exempt trustedProxies header now with
       | Ok l => Some l
       | Err _ => Some (newBareRateLimiter limit burst now)
       end.

Definition logRateLimited (now : Z) (l : rateLimiter) : rateLimiter :=
  mkLimiter (rlResolver l) (rlLimit l) (rlBurst l) (rlExempt l) (rlBuckets l) (rlOverflow l)
    (rlLastSweep l) (TryTake now (rlThrottled l)).1.

(** [rejectRateLimited]: the limiter afterwards, and the Retry-After answered
    with a 429. *)
Definition rejectRateLimited (healthCheckPath : string) (now : Z) (l : option rateLimiter) (r : Request)
  : option rateLimiter * option Z :=
  match l with
  | None => (None, None)
  | Some l' =>
      if isExempt healthCheckPath r then (l, None)
      else let '(l', ok) := allow now r l' in
           if ok then (Some l', None)
           else (Some (logRateLimited now l'), Some (retryAfterSeconds l'))
  end.

End limiter.

(** ** Validation *)

Inductive RateLimitError :=
| NegativeRate | BurstWithoutRate | ExemptWithoutRate | NegativeBurst
| RateHeaderWithoutTrusted | RateInvalidIP (e : IPError) | RateRootHealthCheck.

Definition validateRateLimit (limit : float64) (burst : Z) (exempt trustedProxies : list string)
    (header : string) : result RateLimitError unit :=
  if f64_ltb limit f64_zero then Err NegativeRate
  else if f64_eqb limit f64_zero then
    if negb (burst =? 0) then Err BurstWithoutRate
    else if negb (Nat.eqb (length exempt) 0) then Err ExemptWithoutRate
    else Ok tt
  else if burst <? 0 then Err NegativeBurst
  else if negb (String.eqb header "") && Nat.eqb (length trustedProxies) 0
  then Err RateHeaderWithoutTrusted
  else match parseIPPrefixes exempt with
       | Ok _ => Ok tt
       | Err e => Err (RateInvalidIP e)
       end.

Definition validateRateLimitHealthCheck (limit : float64) (path : string) : result RateLimitError unit :=
  if f64_leb limit f64_zero then Ok tt
  else if rootHealthCheck path then Err RateRootHealthCheck else Ok tt.

(** ** The reference: a bucket per client, never forgotten *)

Section reference.
Context `{!RateLimiter}.

Record Budgets := mkBudgets { own : gmap Prefix Limiter; shared : Limiter }.

Section step.
Variables (f : forwardedResolver) (limit : float64) (burst : Z) (exempt : list Prefix).

Definition own_budget (m : gmap Prefix Limiter) (k : Prefix) : Limiter :=
  default (NewLimiter limit burst) (m !! k).

Definition budget_step (now : Z) (r : Request) (b : Budgets) : Budgets * bool :=
  let a := clientAddr f r in
  if IsValid a && containsAddr exempt a then (b, true)
  else if negb (IsValid a) then
    let '(o, ok) := AllowN now 1 (shared b) in (mkBudgets (own b) o, ok)
  else
    let k := rateLimitClientKey a in
    let '(x, ok) := AllowN now 1 (own_budget (own b) k) in
    (mkBudgets (<[k := x]> (own b)) (shared b), ok).

End step.

Fixpoint budget_run f limit burst exempt (reqs : list (Z * Request)) (b : Budgets) : list bool :=
  match reqs with
  | [] => []
  | (now, r) :: reqs =>
      let '(b, ok) := budget_step f limit burst exempt now r b in
      ok :: budget_run f limit burst exempt reqs b
  end.

Fixpoint allow_run (reqs : list (Z * Request)) (l : rateLimiter) : list bool :=
  match reqs with
  | [] => []
  | (now, r) :: reqs => let '(l, ok) := allow now r l in ok :: allow_run reqs l
  end.

(** The clients a sequence of requests comes from. *)
Definition clients (f : forwardedResolver) (reqs : list (Z * Request)) : gset Prefix :=
  list_to_set ((λ x, rateLimitClientKey (clientAddr f x.2)) <$> reqs).

End reference.

(** ** Refinement *)

Section refinement.
Context `{!RateLimiter, !RateLimiterSpec}.
Context (f : forwardedResolver) (limit : float64) (burst : Z) (exempt : list Prefix).
Context (K : gset Prefix) (HK : (size K ≤ rateLimitMaxTrackedClients)%nat).

(** What the limiter and the reference share between requests. *)
Record tracks (t : Z) (l : rateLimiter) (b : Budgets) : Prop := {
  tr_resolver : rlResolver l = f;
  tr_limit : rlLimit l = limit;
  tr_burst : rlBurst l = burst;
  tr_exempt : rlExempt l = exempt;
  tr_configured k x : rlBuckets l !! k = Some x → configured limit burst x;
  tr_clients : dom (rlBuckets l) ⊆ K;
  tr_shared : lim_sim t (shared b) (rlOverflow l);
  tr_own k : lim_sim t (own_budget limit burst (own b) k) (own_budget limit burst (rlBuckets l) k) }.

Lemma tracks_later t now l b : t ≤ now → tracks t l b → tracks now l b.
Proof. intros Ht []. split; try done; eauto using lim_sim_later. Qed.

Lemma tracks_sweep now l b : tracks now l b → tracks now (sweepIfDue now l) b.
Proof.
  intros [H1 H2 H3 H4 H5 H6 H7 H8]. unfold sweepIfDue. destruct (_ <? _); [done|].
  split; cbn; try done.
  - intros k x [Hk _]%map_lookup_filter_Some. eauto.
  - etrans; [apply dom_filter_subseteq|done].
  - intros k. eapply lim_sim_trans; [apply H8|]. unfold own_budget at 1.
    destruct (rlBuckets l !! k) as [x|] eqn:Hx; cbn.
    + unfold own_budget. destruct (HoldsAtLeast now (rlBurst l) x) eqn:Hfull.
      * rewrite map_lookup_filter_None_2; cbn.
        -- rewrite H3 in Hfull. eapply full_is_new; [by eapply H5|done].
        -- right. intros y Hy [=]. simplify_eq. cbn in *. congruence.
      * rewrite (proj2 (map_lookup_filter_Some _ _ _ _) (conj Hx Hfull)). apply lim_sim_refl.
    + unfold own_budget. rewrite map_lookup_filter_None_2 by auto. apply lim_sim_refl.
Qed.

(** One client's bucket is spent from, the others stay. *)
Lemma tracks_spend now k x l b :
  tracks now l b → rlBuckets l !! k = Some x →
  let s := AllowN now 1 (own_budget limit burst (own b) k) in
  (AllowN now 1 x).2 = s.2 ∧
  tracks now (with_buckets (<[k := (AllowN now 1 x).1]> (rlBuckets l)) (rlOverflow l) (rlLastSweep l) l)
    (mkBudgets (<[k := s.1]> (own b)) (shared b)).
Proof.
  intros [H1 H2 H3 H4 H5 H6 H7 H8] Hx s.
  assert (Hsim : lim_sim now (own_budget limit burst (own b) k) x).
  { specialize (H8 k). unfold own_budget in H8 at 2. by rewrite Hx in H8. }
  destruct (lim_sim_allow _ 1 _ _ Hsim) as [Hok Hsim']. split; [done|].
  split; cbn; try done.
  - intros k' y. destruct (decide (k = k')) as [<-|].
    + rewrite lookup_insert_eq. intros [= <-]. apply configured_allow. eauto.
    + rewrite lookup_insert_ne by done. eauto.
  - apply elem_of_dom_2 in Hx. set_solver.
  - intros k'. unfold own_budget. destruct (decide (k = k')) as [<-|].
    + rewrite !lookup_insert_eq. done.
    + rewrite !lookup_insert_ne by done. apply H8.
Qed.


(** A client without a bucket gets a fresh one: there is room for it. *)
Lemma tracks_bucketFor now a l b :
  tracks now l b → IsValid a = true → rateLimitClientKey a ∈ K →
  ∃ l' x, bucketFor a l = (l', Some (rateLimitClientKey a)) ∧ tracks now l' b ∧
          rlBuckets l' !! rateLimitClientKey a = Some x.
Proof.
  intros HT HV HkK. pose proof HT as [H1 H2 H3 H4 H5 H6 H7 H8].
  unfold bucketFor. rewrite HV. cbn.
  destruct (rlBuckets l !! rateLimitClientKey a) as [x|] eqn:Hx; [by exists l, x|].
  assert (Hroom : (size (rlBuckets l) < rateLimitMaxTrackedClients)%nat).
  { apply not_elem_of_dom in Hx. rewrite <- size_dom.
    apply Nat.lt_le_trans with (size K); [|done]. apply subset_size. set_solver. }
  rewrite (proj2 (Nat.leb_gt _ _)) by done.
  exists (with_buckets (<[rateLimitClientKey a := NewLimiter (rlLimit l) (rlBurst l)]> (rlBuckets l))
           (rlOverflow l) (rlLastSweep l) l), (NewLimiter (rlLimit l) (rlBurst l)).
  split; [done|]. split; [|cbn; by rewrite lookup_insert_eq].
  rewrite H2, H3. split; cbn; try done.
  - intros k y. destruct (decide (k = rateLimitClientKey a)) as [->|].
    + rewrite lookup_insert_eq. intros [= <-]. apply configured_new.
    + rewrite lookup_insert_ne by done. eauto.
  - set_solver.
  - intros k. specialize (H8 k). unfold own_budget in *.
    destruct (decide (k = rateLimitClientKey a)) as [->|].
    + rewrite lookup_insert_eq. by rewrite Hx in H8.
    + by rewrite lookup_insert_ne by done.
Qed.

Lemma tracks_step t now r l b :
  tracks t l b → t ≤ now → rateLimitClientKey (clientAddr f r) ∈ K →
  (allow now r l).2 = (budget_step f limit burst exempt now r b).2 ∧
  tracks now (allow now r l).1 (budget_step f limit burst exempt now r b).1.
Proof.
  intros HT Ht HK'. apply (tracks_later _ now) in HT; [|done].
  unfold allow, budget_step. rewrite (tr_resolver _ _ _ HT), (tr_exempt _ _ _ HT).
  destruct (_ && _)%bool; [done|].
  apply (tracks_sweep now) in HT. set (l1 := sweepIfDue now l) in *. clearbody l1.
  destruct (IsValid (clientAddr f r)) eqn:HV; cbn.
  - destruct (tracks_bucketFor now _ l1 b HT HV HK') as (l' & x & -> & HT' & Hx).
    unfold spend. rewrite Hx. destruct (tracks_spend now _ x l' b HT' Hx) as [Hok HT2].
    destruct (AllowN now 1 x), (AllowN now 1 (own_budget _ _ _ _)). done.
  - unfold bucketFor, spend. rewrite HV. cbn.
    pose proof HT as [H1 H2 H3 H4 H5 H6 H7 H8].
    destruct (lim_sim_allow _ 1 _ _ H7) as [Hok Hsim].
    destruct (AllowN now 1 (shared b)), (AllowN now 1 (rlOverflow l1)). cbn in *.
    split; [done|]. by split.
Qed.

Lemma tracks_run reqs t l b :
  tracks t l b → StronglySorted Z.le (t :: reqs.*1) → clients f reqs ⊆ K →
  allow_run reqs l = budget_run f limit burst exempt reqs b.
Proof.
  revert t l b. induction reqs as [|[now r] reqs IH]; intros t l b HT Hs HC; [done|].
  cbn in *. inversion Hs as [|? ? Hs' Hf]; subst. inversion Hf; subst.
  destruct (tracks_step t now r l b HT) as [Hok HT']; [done|set_solver|].
  destruct (allow now r l) as [l' ok], (budget_step f limit burst exempt now r b) as [b' ok'].
  cbn in *. subst ok'. f_equal. eapply IH; [exact HT'|done|set_solver].
Qed.

End refinement.

Section bounds.
Context `{!RateLimiter}.

Lemma allow_tracked now r l :
  (tracked l ≤ rateLimitMaxTrackedClients)%nat →
  (tracked (allow now r l).1 ≤ rateLimitMaxTrackedClients)%nat.
Proof.
  unfold tracked. intros Hl. unfold allow. destruct (_ && _)%bool; [done|].
  assert (Hs : (size (rlBuckets (sweepIfDue now l)) ≤ rateLimitMaxTrackedClients)%nat).
  { unfold sweepIfDue. destruct (_ <? _); [done|]. cbn.
    etrans; [apply map_subseteq_size, map_filter_subseteq|done]. }
  set (l1 := sweepIfDue now l) in *. clearbody l1.
  assert (Hb : ∀ a, (size (rlBuckets (bucketFor a l1).1) ≤ rateLimitMaxTrackedClients)%nat).
  { intros a. unfold bucketFor. destruct (negb _); [done|].
    destruct (rlBuckets l1 !! _) eqn:Hx; [done|].
    destruct (Nat.leb_spec rateLimitMaxTrackedClients (size (rlBuckets l1))) as [|Hr]; [done|].
    unfold with_buckets. cbn [fst rlBuckets].
    rewrite map_size_insert_None by done. exact Hr. }
  specialize (Hb (clientAddr (rlResolver l) r)).
  destruct (bucketFor _ l1) as [l2 [k|]]; cbn [fst] in Hb; unfold spend.
  - destruct (rlBuckets l2 !! k) eqn:Hk; [|done]. destruct (AllowN _ _ _). cbn [fst with_buckets rlBuckets].
    rewrite map_size_insert_Some; [done|]. by rewrite Hk.
  - destruct (AllowN _ _ _). done.
Qed.

End bounds.

(** ** Whose budget *)

Lemma rateLimitClientKey_eq a b :
  addr_wf a → addr_wf b →
  rateLimitClientKey a = rateLimitClientKey b ↔
  match normalizeAddr a, normalizeAddr b with
  | AddrZero, AddrZero => True
  | Addr4 x, Addr4 y => x = y
  | Addr6 x _, Addr6 y _ => x / 2 ^ 64 = y / 2 ^ 64
  | _, _ => False
  end.
Proof.
  intros Ha Hb. apply normalizeAddr_wf in Ha, Hb. unfold rateLimitClientKey.
  destruct (normalizeAddr a) as [|x|x z], (normalizeAddr b) as [|y|y z']; cbn in *; try done;
    unfold Masked, AddrPrefix, PrefixFrom; cbn;
    try (split; [by intros [=]|done]).
  - split; [by intros [= ->]|by intros ->].
  - unfold rateLimitIPv6PrefixBits. rewrite !land_mask_div by lia. change (128 - 64) with 64.
    split; [intros [= H]|by intros ->]. by apply Z.mul_cancel_r in H.
Qed.

(** ** Theorems *)

Section theorems.
Context `{!RateLimiter, !RateLimiterSpec}.

(** C20: as long as the clients fit the tracking cap, the limiter decides every
    request of any sequence as if each client had a bucket of its own that is
    never forgotten: sweeping hands out no amnesty, and no client spends from
    another's budget. *)
Theorem rate_limit_refines limit burst exempt trustedProxies header t l reqs :
  newRateLimiter limit burst exempt trustedProxies header t = Ok l →
  StronglySorted Z.le (t :: reqs.*1) →
  (size (clients (rlResolver l) reqs) ≤ rateLimitMaxTrackedClients)%nat →
  allow_run reqs l =
  budget_run (rlResolver l) (rlLimit l) (rlBurst l) (rlExempt l) reqs
    (mkBudgets ∅ (NewLimiter (rlLimit l) (rlBurst l))).
Proof.
  intros Hl Hs Hc. eapply (tracks_run _ _ _ _ _ Hc reqs t); [|done|done].
  unfold newRateLimiter in Hl. destruct (parseIPPrefixes exempt); cbn in Hl; [|done].
  destruct (newForwardedResolver _ _); cbn in Hl; [|done]. injection Hl as <-.
  split; cbn; try done; eauto using lim_sim_refl.
Qed.

(** However many addresses requests come from, no more clients are
    tracked than the cap. *)
Theorem rate_limit_tracked_bounded limit burst exempt trustedProxies header t l reqs :
  resolveRateLimiter limit burst exempt trustedProxies header t = Some l →
  (tracked (fold_left (λ l x, (allow x.1 x.2 l).1) reqs l) ≤ rateLimitMaxTrackedClients)%nat.
Proof.
  intros Hl.
  assert (Hb : (tracked l ≤ rateLimitMaxTrackedClients)%nat).
  { unfold resolveRateLimiter, newRateLimiter in Hl. destruct (f64_leb _ _); [done|].
    unfold tracked. destruct (parseIPPrefixes exempt), (newForwardedResolver trustedProxies header);
      injection Hl as <-; cbn; rewrite map_size_empty; lia. }
  clear Hl. revert l Hb. induction reqs as [|[now r] reqs IH]; intros l Hb; cbn; [done|].
  apply IH. by apply allow_tracked.
Qed.

End theorems.

(** ** An exact bucket, and the limiter at work *)

Module RateLimitExamples.

(** A bucket that counts nano-tokens: [lRate] tokens per second is [lRate]
    nano-tokens per nanosecond. *)
Record bucket := mkB { lRate : Z; lCap : Z; lTokens : Z; lLast : Z }.

Definition held (now : Z) (b : bucket) : Z :=
  Z.min (lCap b * second) (lTokens b + Z.max 0 (now - lLast b) * lRate b).

Definition bucket_allow (now n : Z) (b : bucket) : bucket * bool :=
  if n * second <=? held now b
  then (mkB (lRate b) (lCap b) (held now b - n * second) now, true)
  else (mkB (lRate b) (lCap b) (held now b) now, false).

#[local] Instance exact_limiter : RateLimiter := {|
  Limiter := bucket;
  NewLimiter limit burst := mkB (Z.max 0 (f64_ceil_int limit)) burst (burst * second) 0;
  AllowN := bucket_allow;
  HoldsAtLeast now n b := n * second <=? held now b |}.

Definition alike (t : Z) (x y : bucket) : Prop :=
  lRate x = lRate y ∧ lCap x = lCap y ∧ ∀ t', t ≤ t' → held t' x = held t' y.

#[local] Instance exact_limiter_spec : RateLimiterSpec.
Proof.
  refine {| configured limit burst x := lRate x = Z.max 0 (f64_ceil_int limit) ∧ lCap x = burst;
            lim_sim := alike |}.
  - done.
  - intros limit burst now n x [? ?]. cbn. unfold bucket_allow. by destruct (_ <=? _).
  - done.
  - intros t x y z (? & ? & H1) (? & ? & H2). repeat split; [congruence|congruence|].
    intros t' Ht. by rewrite H1, H2.
  - intros t t' x y Ht (? & ? & H). repeat split; [done|done|]. intros. apply H. lia.
  - intros t n x y (Hr & Hc & H). cbn. unfold bucket_allow. rewrite (H t) by lia.
    destruct (_ <=? _); cbn; (split; [done|]); (split; [done|split; [done|]]);
      intros t' _; unfold held; cbn; by rewrite Hr, Hc.
  - intros limit burst now x [Hr Hc] Hfull. cbn in Hfull. apply Z.leb_le in Hfull.
    split; [done|]. split; [done|]. intros t' Ht. unfold held in *. cbn in *. rewrite Hr, Hc in *.
    assert (0 ≤ Z.max 0 (f64_ceil_int limit)) by lia. nia.
Defined.

Definition from (peer : string) : Request :=
  mkRequest "GET" "a.example" "/" "" "" false false peer ∅ [] 0 None false false.

Definition two_clients : list (Z * Request) :=
  [(0, from "192.0.2.1:80"); (0, from "192.0.2.1:81"); (0, from "[::ffff:192.0.2.1]:82");
   (0, from "[2001:db8::1]:80"); (0, from "[2001:db8::2]:80"); (0, from "[2001:db8::3]:80");
   (100 * second, from "192.0.2.1:83")].

Definition limiter_two : result IPError rateLimiter :=
  newRateLimiter (f64_of_Z 1) 2 [] [] "" 0.

Example limited_per_client :
  (λ l, allow_run two_clients l) <$> limiter_two = Ok [true; true; false; true; true; false; true].
Proof. vm_compute. reflexivity. Qed.

Definition the_limiter : rateLimiter :=
  mkLimiter (mkResolver [] "") (f64_of_Z 1) 2 [] ∅ (NewLimiter (f64_of_Z 1) 2) 0
    (newTokenBucket rateLimitLogBurst rateLimitLogInterval 0).

Lemma rate_limit_refines_witness :
  allow_run two_clients the_limiter =
  budget_run (mkResolver [] "") (f64_of_Z 1) 2 [] two_clients
    (mkBudgets ∅ (NewLimiter (f64_of_Z 1) 2)).
Proof.
  apply (rate_limit_refines (f64_of_Z 1) 2 [] [] "" 0 the_limiter two_clients); [reflexivity| |].
  - repeat constructor; vm_compute; discriminate.
  - transitivity 2%nat; [vm_compute; lia|]. unfold rateLimitMaxTrackedClients. lia.
Defined.

Lemma rate_limit_tracked_bounded_witness :
  (tracked (fold_left (λ l x, (allow x.1 x.2 l).1) two_clients the_limiter)
   ≤ rateLimitMaxTrackedClients)%nat.
Proof. apply (rate_limit_tracked_bounded (f64_of_Z 1) 2 [] [] "" 0). reflexivity. Defined.

End RateLimitExamples.
