(* ===== verification/BasicAuth.v ===== *)
(** * Basic authentication: [internal/server/basic_auth.go]

    The credential is stored as a salted digest, encoded for the command line
    and the state file; a request is let through when the digest of what it
    carries is the stored one.  SHA-256 and the random salt are parameters. *)
From S2P Require Import Prelude GoStrings GoURL Http ClientAddr.

Definition basicAuthScheme : string := "sha256".
Definition basicAuthSaltSize : nat := 16.
Definition basicAuthDigestSize : nat := 32.
Definition basicAuthRealm : string :=
  "Basic realm=" +:+ String dquote "Restricted" +:+ String dquote ", charset=" +:+ String dquote "UTF-8" +:+ String dquote "".

(** ** [encoding/hex] *)

Definition hex_low (n : Z) : ascii := ascii_of_N (Z.to_N (if n <? 10 then 48 + n else 87 + n)).

Fixpoint EncodeHex (s : string) : string :=
  match s with
  | "" => ""
  | String c s => String (hex_low (byte_of c / 16)) (String (hex_low (byte_of c mod 16)) (EncodeHex s))
  end.

Fixpoint DecodeHex (s : string) : option string :=
  match s with
  | "" => Some ""
  | String h (String l s) =>
      match unhex h, unhex l with
      | Some x, Some y => String (ascii_of_N (Z.to_N (x * 16 + y))) <$> DecodeHex s
      | _, _ => None
      end
  | _ => None
  end.

(** ** [encoding/base64] and [Request.BasicAuth] *)

Definition unbase64 (c : ascii) : option Z :=
  let n := byte_of c in
  if (65 <=? n) && (n <=? 90) then Some (n - 65)
  else if (97 <=? n) && (n <=? 122) then Some (n - 71)
  else if (48 <=? n) && (n <=? 57) then Some (n + 4)
  else if n =? 43 then Some 62 else if n =? 47 then Some 63 else None.

Definition byte_char (n : Z) : ascii := ascii_of_N (Z.to_N (n mod 256)).

(** Four characters at a time; padding ends the input. *)
Fixpoint base64_quads (s : string) : option string :=
  match s with
  | "" => Some ""
  | String a (String b (String c (String d s))) =>
      x ← unbase64 a; y ← unbase64 b;
      if Ascii.eqb c "=" then
        if Ascii.eqb d "=" && String.eqb s "" then Some (String (byte_char (x * 4 + y / 16)) "") else None
      else
        z ← unbase64 c;
        if Ascii.eqb d "=" then
          if String.eqb s "" then
            Some (String (byte_char (x * 4 + y / 16)) (String (byte_char (y * 16 + z / 4)) ""))
          else None
        else
          w ← unbase64 d; rest ← base64_quads s;
          Some (String (byte_char (x * 4 + y / 16))
                 (String (byte_char (y * 16 + z / 4)) (String (byte_char (z * 64 + w)) rest)))
  | _ => None
  end.

Fixpoint strip_newlines (s : string) : string :=
  match s with
  | "" => ""
  | String c s =>
      if (byte_of c =? 10) || (byte_of c =? 13) then strip_newlines s else String c (strip_newlines s)
  end.

Definition DecodeBase64 (s : string) : option string := base64_quads (strip_newlines s).

(** [parseBasicAuth]: the scheme in any case, the name up to the first colon. *)
Definition parseBasicAuth (auth : string) : option (string * string) :=
  if (str_len auth <? 6) || negb (EqualFold (str_take 6 auth) "Basic ") then None
  else c ← DecodeBase64 (str_drop 6 auth); Cut c colon.

Definition requestBasicAuth (r : Request) : option (string * string) :=
  let auth := hdr_get (ReqHeader r) "Authorization" in
  if String.eqb auth "" then None else parseBasicAuth auth.

(** ** Credentials *)

Inductive BasicAuthError :=
| EmptyUsername | EmptyPassword | ColonInUsername
| NotAScheme | MissingDigest | UnreadableSalt | UnreadableDigest | BasicAuthRootHealthCheck.

Record basicAuthCredential := mkCredential { baSalt : string; baDigest : string; baDenyAll : bool }.

Section auth.
Variable sha256 : string → string.

Definition basicAuthDigest (salt username password : string) : string :=
  sha256 (salt +:+ username +:+ ":" +:+ password).

(** [EncodeBasicAuthCredential] with the salt the random source gave. *)
Definition EncodeBasicAuthCredential (salt username password : string) : result BasicAuthError string :=
  if String.eqb username "" then Err EmptyUsername
  else if String.eqb password "" then Err EmptyPassword
  else if Contains username ":" then Err ColonInUsername
  else Ok (basicAuthScheme +:+ ":" +:+ EncodeHex salt +:+ ":" +:+
           EncodeHex (basicAuthDigest salt username password)).

Definition parseBasicAuthCredential (encoded : string) : result BasicAuthError basicAuthCredential :=
  match Cut encoded colon with
  | None => Err NotAScheme
  | Some (scheme, rest) =>
      if negb (String.eqb scheme basicAuthScheme) then Err NotAScheme
      else match Cut rest colon with
           | None => Err MissingDigest
           | Some (rawSalt, rawDigest) =>
               match DecodeHex rawSalt with
               | Some salt =>
                   if negb (Nat.eqb (String.length salt) basicAuthSaltSize) then Err UnreadableSalt
                   else match DecodeHex rawDigest with
                        | Some digest =>
                            if negb (Nat.eqb (String.length digest) basicAuthDigestSize) then Err UnreadableDigest
                            else Ok (mkCredential salt digest false)
                        | None => Err UnreadableDigest
                        end
               | None => Err UnreadableSalt
               end
           end
  end.

Definition credentialMatches (c : basicAuthCredential) (username password : string) : bool :=
  if baDenyAll c then false
  else String.eqb (basicAuthDigest (baSalt c) username password) (baDigest c).

Definition validateBasicAuth (stored : string) : result BasicAuthError unit :=
  if String.eqb stored "" then Ok tt
  else _ ← parseBasicAuthCredential stored; Ok tt.

Definition validateBasicAuthHealthCheck (stored path : string) : result BasicAuthError unit :=
  if String.eqb stored "" then Ok tt
  else if rootHealthCheck path then Err BasicAuthRootHealthCheck else Ok tt.

Definition resolveBasicAuth (stored : string) : option basicAuthCredential :=
  if String.eqb stored "" then None
  else match parseBasicAuthCredential stored with
       | Ok c => Some c
       | Err _ => Some (mkCredential "" "" true)
       end.

(** [rejectUnauthenticated]: the request further on, without its credentials,
    and whether it was challenged with a 401. *)
Definition rejectUnauthenticated (healthCheckPath : string) (c : option basicAuthCredential) (r : Request)
  : Request * bool :=
  match c with
  | None => (r, false)
  | Some c =>
      let credentials := requestBasicAuth r in
      let r' := with_ReqHeader (hdr_del (ReqHeader r) "Authorization") r in
      if isExempt healthCheckPath r' then (r', false)
      else match credentials with
           | Some (u, p) => if credentialMatches c u p then (r', false) else (r', true)
           | None => (r', true)
           end
  end.

End auth.

(** ** Lemmas *)

Lemma hex_byte_roundtrip c :
  match unhex (hex_low (byte_of c / 16)), unhex (hex_low (byte_of c mod 16)) with
  | Some x, Some y => ascii_of_N (Z.to_N (x * 16 + y)) = c
  | _, _ => False
  end.
Proof. destruct c as [[] [] [] [] [] [] [] []]; vm_compute; reflexivity. Qed.

Lemma DecodeHex_EncodeHex s : DecodeHex (EncodeHex s) = Some s.
Proof.
  induction s as [|c s IH]; [done|]. cbn [EncodeHex DecodeHex].
  pose proof (hex_byte_roundtrip c) as H.
  destruct (unhex (hex_low (byte_of c / 16))), (unhex (hex_low (byte_of c mod 16))); [|done|done|done].
  by rewrite H, IH.
Qed.

Lemma hex_low_not_colon n : 0 ≤ n < 16 → hex_low n ≠ colon.
Proof.
  intros Hn Heq.
  assert (Hall : forallb (λ n, negb (Ascii.eqb (hex_low (Z.of_nat n)) colon)) (seq 0 16) = true) by reflexivity.
  rewrite forallb_forall in Hall. specialize (Hall (Z.to_nat n)). rewrite Z2Nat.id in Hall by lia.
  rewrite Heq in Hall. assert (In (Z.to_nat n) (seq 0 16)) by (apply in_seq; lia).
  by specialize (Hall H).
Qed.

Lemma EncodeHex_no_colon s : index_byte (EncodeHex s) colon = None.
Proof.
  induction s as [|c s IH]; [done|]. cbn [EncodeHex index_byte].
  assert (Hb : 0 ≤ byte_of c < 256).
  { unfold byte_of. pose proof (N_ascii_bounded c). lia. }
  assert (H1 : hex_low (byte_of c / 16) ≠ colon).
  { apply hex_low_not_colon. split; [apply Z.div_pos; lia|apply Z.div_lt_upper_bound; lia]. }
  assert (H2 : hex_low (byte_of c mod 16) ≠ colon) by (apply hex_low_not_colon, Z.mod_pos_bound; lia).
  apply Ascii.eqb_neq in H1, H2. by rewrite H1, H2, IH.
Qed.

Lemma Cut_app a b : index_byte a colon = None → Cut (a +:+ ":" +:+ b) colon = Some (a, b).
Proof.
  induction a as [|c a IH]; [done|]. cbn. destruct (Ascii.eqb c colon); [done|].
  intros H. destruct (index_byte a colon) eqn:Ha; [done|]. specialize (IH eq_refl).
  cbn in IH. by rewrite IH.
Qed.

Lemma Cut_colon s u p : Cut s colon = Some (u, p) → s = u +:+ ":" +:+ p ∧ index_byte u colon = None.
Proof.
  revert u. induction s as [|c s IH]; intros u; [done|]. cbn.
  destruct (Ascii.eqb_spec c colon) as [->|Hc]; [by intros [= <- <-]|].
  destruct (Cut s colon) as [[x y]|]; [|done]. cbn. intros [= <- <-].
  destruct (IH x eq_refl) as [-> Hx]. split; [done|]. cbn.
  apply Ascii.eqb_neq in Hc. by rewrite Hc, Hx.
Qed.

Lemma colon_split_inj u p u' p' :
  index_byte u colon = None → index_byte u' colon = None →
  u +:+ ":" +:+ p = u' +:+ ":" +:+ p' → u = u' ∧ p = p'.
Proof.
  intros Hu Hu' Heq. pose proof (Cut_app u p Hu) as H1. rewrite Heq, (Cut_app u' p' Hu') in H1.
  by injection H1 as -> ->.
Qed.

Lemma Contains_colon u : Contains u ":" = false → index_byte u colon = None.
Proof. rewrite Contains_byte. change ":"%char with colon. unfold has_byte. by destruct (index_byte u colon). Qed.

Section roundtrip.
Variable sha256 : string → string.
Hypothesis sha256_size : ∀ s, String.length (sha256 s) = basicAuthDigestSize.

Lemma parse_encoded salt u p e :
  String.length salt = basicAuthSaltSize →
  EncodeBasicAuthCredential sha256 salt u p = Ok e →
  parseBasicAuthCredential e = Ok (mkCredential salt (basicAuthDigest sha256 salt u p) false) ∧
  index_byte u colon = None ∧ e ≠ "".
Proof.
  intros Hsalt. unfold EncodeBasicAuthCredential.
  destruct (String.eqb u ""); [done|]. destruct (String.eqb p ""); [done|].
  destruct (Contains u ":") eqn:Hu; [done|]. intros Heq.
  apply (f_equal (λ x, match x with Ok a => a | Err _ => "" end)) in Heq. subst e.
  split; [|split; [by apply Contains_colon|done]].
  unfold parseBasicAuthCredential.
  rewrite (Cut_app basicAuthScheme) by done. cbn [String.eqb negb].
  rewrite String.eqb_refl. cbn [negb].
  rewrite (Cut_app (EncodeHex salt)) by apply EncodeHex_no_colon.
  rewrite !DecodeHex_EncodeHex, Hsalt. rewrite Nat.eqb_refl. cbn [negb].
  unfold basicAuthDigest at 1. rewrite sha256_size, Nat.eqb_refl. done.
Qed.

End roundtrip.

(** ** Theorem *)

Section theorem.
Variable sha256 : string → string.
Hypothesis sha256_size : ∀ s, String.length (sha256 s) = basicAuthDigestSize.

(** A credential encoded for a user reads back from the state file, and a
    request (that is no probe) passes exactly when it carries that user name
    and password, provided the digests of the two do not collide; whatever the
    outcome, no credential is handed on to the target. *)
Theorem basic_auth_roundtrip salt u p e hc r :
  String.length salt = basicAuthSaltSize →
  EncodeBasicAuthCredential sha256 salt u p = Ok e →
  isExempt hc r = false →
  (∀ u' p', requestBasicAuth r = Some (u', p') →
     basicAuthDigest sha256 salt u' p' = basicAuthDigest sha256 salt u p →
     u' +:+ ":" +:+ p' = u +:+ ":" +:+ p) →
  let '(r', challenged) := rejectUnauthenticated sha256 hc (resolveBasicAuth e) r in
  (challenged = false ↔ requestBasicAuth r = Some (u, p)) ∧
  hdr_values (ReqHeader r') "Authorization" = [].
Proof.
  intros Hsalt He Hex Hcoll.
  destruct (parse_encoded sha256 sha256_size salt u p e Hsalt He) as (Hparse & Hu & Hne).
  unfold resolveBasicAuth. apply String.eqb_neq in Hne. rewrite Hne, Hparse.
  unfold rejectUnauthenticated.
  assert (Hex' : isExempt hc (with_ReqHeader (hdr_del (ReqHeader r) "Authorization") r) = false) by exact Hex.
  rewrite Hex'.
  assert (Hdel : hdr_values (ReqHeader (with_ReqHeader (hdr_del (ReqHeader r) "Authorization") r)) "Authorization" = [])
    by apply hdr_values_del_eq.
  destruct (requestBasicAuth r) as [[u' p']|] eqn:Hcred; [|by split].
  unfold credentialMatches. cbn [baDenyAll baSalt baDigest].
  destruct (String.eqb_spec (basicAuthDigest sha256 salt u' p') (basicAuthDigest sha256 salt u p)) as [Hd|Hd].
  - split; [|done]. split; [|done]. intros _. specialize (Hcoll u' p' eq_refl Hd).
    assert (Hu' : index_byte u' colon = None).
    { unfold requestBasicAuth, parseBasicAuth in Hcred. destruct (String.eqb _ _); [done|].
      destruct (_ || _)%bool; [done|]. destruct (DecodeBase64 _) as [c|]; [|done].
      by apply Cut_colon in Hcred as [_ ?]. }
    by destruct (colon_split_inj _ _ _ _ Hu' Hu Hcoll) as [-> ->].
  - split; [|done]. split; [done|]. by intros [= -> ->].
Qed.

End theorem.

Module BasicAuthExamples.

(** A stand-in digest of the right size that keeps the end of its input. *)
Fixpoint pad (n : nat) (s : string) : string :=
  match n with
  | O => ""
  | S n => match s with "" => String "." (pad n "") | String c s => String c (pad n s) end
  end.

Definition digest (s : string) : string := pad 32 (str_drop 16 s).

Definition with_auth (v : string) : Request :=
  mkRequest "GET" "a.example" "/" "" "" false true "192.0.2.1:1" {["Authorization" := [v]]} [] 0 None false false.

Definition sixteen : string := "0123456789abcdef".

(** The header is base64 of "joe:pw". *)
Lemma basic_auth_roundtrip_witness :
  let '(r', challenged) :=
    rejectUnauthenticated digest "/up"
      (resolveBasicAuth ("sha256:" +:+ EncodeHex sixteen +:+ ":" +:+ EncodeHex (digest (sixteen +:+ "joe:pw"))))
      (with_auth "Basic am9lOnB3") in
  (challenged = false ↔ requestBasicAuth (with_auth "Basic am9lOnB3") = Some ("joe", "pw")) ∧
  hdr_values (ReqHeader r') "Authorization" = [].
Proof.
  apply (basic_auth_roundtrip digest) with (salt := sixteen).
  - intros s. unfold digest. generalize (str_drop 16 s). intros t. unfold basicAuthDigestSize.
    generalize 32%nat. intros n. revert t. induction n as [|n IH]; intros [|c t]; cbn; auto.
  - reflexivity.
  - reflexivity.
  - reflexivity.
  - intros u' p' H. vm_compute in H. injection H as <- <-. reflexivity.
Defined.

Example right_password_passes :
  (rejectUnauthenticated digest "/up"
     (resolveBasicAuth ("sha256:" +:+ EncodeHex sixteen +:+ ":" +:+ EncodeHex (digest (sixteen +:+ "joe:pw"))))
     (with_auth "basic am9lOnB3")).2 = false.
Proof. vm_compute. reflexivity. Qed.

End BasicAuthExamples.
