(* ===== verification/Tracing.v ===== *)
(** * Trace context: [internal/server/trace_context.go]

    A request may carry the trace it belongs to in the W3C [traceparent] header.
    The proxy leaves a valid one alone and logs it; asked to, it starts a trace
    for a request that carries none.  The random bytes of a new trace are an
    argument. *)
From S2P Require Import Prelude GoStrings Http BasicAuth.

Definition traceparentHeader : string := "Traceparent".
Definition tracestateHeader : string := "Tracestate".
Definition traceIDLength : nat := 32.
Definition spanIDLength : nat := 16.
Definition traceFlagsLength : nat := 2.
Definition traceVersionSize : nat := 2.

Inductive TraceContextMode := TraceContextOff | TraceContextPropagate | TraceContextGenerate.

(** [ParseTraceContextMode]; [None]: not a mode. *)
Definition ParseTraceContextMode (value : string) : option TraceContextMode :=
  let mode := ToLower (TrimSpace value) in
  if String.eqb mode "" then Some TraceContextPropagate
  else if String.eqb mode "off" then Some TraceContextOff
  else if String.eqb mode "propagate" then Some TraceContextPropagate
  else if String.eqb mode "generate" then Some TraceContextGenerate
  else None.

Record traceContext := mkTrace { TraceID : string; SpanID : string; Flags : string }.

Definition TraceString (tc : traceContext) : string := "00-" +:+ TraceID tc +:+ "-" +:+ SpanID tc +:+ "-" +:+ Flags tc.

Definition is_lower_hex_byte (c : ascii) : bool :=
  let n := byte_of c in ((48 <=? n) && (n <=? 57)) || ((97 <=? n) && (n <=? 102)).

Definition isLowerHex (value : string) (length : nat) : bool :=
  Nat.eqb (String.length value) length && all_bytes is_lower_hex_byte value.

(** [strings.Count(value, "0") == len(value)] *)
Definition isAllZeroes (value : string) : bool := all_bytes (Ascii.eqb "0") value.

(** The part of a [traceparent] that names a trace. *)
Definition valid_trace (tc : traceContext) : bool :=
  isLowerHex (TraceID tc) traceIDLength && negb (isAllZeroes (TraceID tc)) &&
  (isLowerHex (SpanID tc) spanIDLength && negb (isAllZeroes (SpanID tc))) && isLowerHex (Flags tc) traceFlagsLength.

Definition parseTraceparent (values : list string) : option traceContext :=
  match values with
  | [value] =>
      match Split value "-" with
      | version :: traceID :: spanID :: flags :: rest =>
          if negb (isLowerHex version traceVersionSize) || String.eqb version "ff" then None
          else if String.eqb version "00" && negb (Nat.eqb (length rest) 0) then None
          else if negb (isLowerHex traceID traceIDLength) || isAllZeroes traceID then None
          else if negb (isLowerHex spanID spanIDLength) || isAllZeroes spanID then None
          else if negb (isLowerHex flags traceFlagsLength) then None
          else Some (mkTrace traceID spanID flags)
      | _ => None
      end
  | _ => None
  end.

(** [newTraceContext], given what [rand.Read] filled the buffer with. *)
Definition newTraceContext (buffer : string) : traceContext :=
  mkTrace (EncodeHex (str_take (traceIDLength / 2) buffer)) (EncodeHex (str_drop (traceIDLength / 2) buffer)) "01".

(** [TraceContextMiddleware.ServeHTTP]: the request that is passed on, and the
    trace that is logged with it. *)
Definition ServeTrace (mode : TraceContextMode) (buffer : string) (r : Request) : Request * option traceContext :=
  match mode with
  | TraceContextOff => (r, None)
  | _ =>
      match parseTraceparent (hdr_values (ReqHeader r) traceparentHeader), mode with
      | None, TraceContextGenerate =>
          let tc := newTraceContext buffer in
          (with_ReqHeader (hdr_del (hdr_set (ReqHeader r) traceparentHeader (TraceString tc)) tracestateHeader) r, Some tc)
      | tc, _ => (r, tc)
      end
  end.

(** ** Reading what was written *)

Lemma Split_app p s c : index_byte p c = None → Split (p +:+ String c s) c = p :: Split s c.
Proof.
  induction p as [|a p IH]; cbn; [by rewrite Ascii.eqb_refl|]. destruct (Ascii.eqb a c) eqn:Ha; [done|].
  destruct (index_byte p c); [done|]. intros _. by rewrite IH.
Qed.

Lemma Split_last p c : index_byte p c = None → Split p c = [p].
Proof.
  induction p as [|a p IH]; cbn; [done|]. destruct (Ascii.eqb a c) eqn:Ha; [done|]. destruct (index_byte p c); [done|]. intros _. by rewrite IH.
Qed.

Lemma hex_no_dash s : all_bytes is_lower_hex_byte s = true → index_byte s "-" = None.
Proof.
  induction s as [|c s IH]; cbn; [done|]. intros [Hc Hs]%andb_true_iff. destruct (Ascii.eqb_spec c "-") as [->|]; [done|]. by rewrite IH.
Qed.

Lemma isLowerHex_dash s n : isLowerHex s n = true → index_byte s "-" = None.
Proof. intros [_ H]%andb_true_iff. by apply hex_no_dash. Qed.

Lemma parse_valid values tc : parseTraceparent values = Some tc → valid_trace tc = true.
Proof.
  unfold parseTraceparent, valid_trace. destruct values as [|value [|]]; try done.
  destruct (Split value "-") as [|version [|t [|s [|f rest]]]]; try done.
  destruct (negb (isLowerHex version _) || _); [done|]. destruct (String.eqb version "00" && _); [done|].
  destruct (isLowerHex t _) eqn:H1; cbn [negb orb]; [|done]. destruct (isAllZeroes t) eqn:H2; [done|].
  destruct (isLowerHex s _) eqn:H3; cbn [negb orb]; [|done]. destruct (isAllZeroes s) eqn:H4; [done|].
  destruct (isLowerHex f _) eqn:H5; cbn [negb]; [|done]. intros [= <-]. cbn [TraceID SpanID Flags]. by rewrite H1, H2, H3, H4, H5.
Qed.

Lemma parse_written tc : valid_trace tc = true → parseTraceparent [TraceString tc] = Some tc.
Proof.
  unfold valid_trace. rewrite !andb_true_iff, !negb_true_iff. intros ([[H1 H2] [H3 H4]] & H5). destruct tc as [t s f]. cbn [TraceID SpanID Flags] in *.
  unfold parseTraceparent, TraceString. cbn [TraceID SpanID Flags].
  change ("00-" +:+ t +:+ "-" +:+ s +:+ "-" +:+ f) with ("00" +:+ String "-" (t +:+ String "-" (s +:+ String "-" f))).
  rewrite !Split_app by (done || by eapply isLowerHex_dash). rewrite Split_last by (by eapply isLowerHex_dash).
  change (isLowerHex "00" traceVersionSize) with true. change (String.eqb "00" "ff") with false. cbn [negb orb length Nat.eqb]. rewrite andb_false_r. by rewrite H1, H2, H3, H4, H5.
Qed.

(** What the proxy writes of a trace it reads back as the same trace
    exactly when the trace is one the standard allows, and it never takes
    anything else for a trace. *)
Theorem traceparent_roundtrip tc :
  (valid_trace tc = true ↔ parseTraceparent [TraceString tc] = Some tc) ∧ ∀ values, parseTraceparent values = Some tc → valid_trace tc = true.
Proof.
  split; [|intros values; apply parse_valid]. split; [apply parse_written|apply parse_valid].
Qed.

(** ** New traces *)

Lemma EncodeHex_length s : String.length (EncodeHex s) = (2 * String.length s)%nat.
Proof. induction s as [|c s IH]; [done|]. cbn. rewrite IH. lia. Qed.

Lemma EncodeHex_lower s : all_bytes is_lower_hex_byte (EncodeHex s) = true.
Proof.
  assert (Hdigit : ∀ n, 0 ≤ n < 16 → is_lower_hex_byte (hex_low n) = true).
  { intros n Hn. unfold is_lower_hex_byte, hex_low, byte_of. destruct (Z.ltb_spec n 10).
    - rewrite N_ascii_embedding by lia. rewrite Z2N.id by lia. apply orb_true_iff. left. rewrite andb_true_iff, !Z.leb_le. lia.
    - rewrite N_ascii_embedding by lia. rewrite Z2N.id by lia. apply orb_true_iff. right. rewrite andb_true_iff, !Z.leb_le. lia. }
  induction s as [|c s IH]; [done|]. cbn [EncodeHex all_bytes].
  assert (Hc : 0 ≤ byte_of c < 256) by (unfold byte_of; pose proof (N_ascii_bounded c); lia).
  rewrite !Hdigit, IH; [done|apply Z.mod_pos_bound; lia|]. split; [apply Z.div_pos; lia|apply Z.div_lt_upper_bound; lia].
Qed.

(** Random bytes that make a trace: enough of them, and not all zero in either
    part. *)
Definition usable_bytes (buffer : string) : Prop :=
  String.length buffer = ((traceIDLength + spanIDLength) / 2)%nat ∧
  isAllZeroes (TraceID (newTraceContext buffer)) = false ∧ isAllZeroes (SpanID (newTraceContext buffer)) = false.

Lemma new_trace_valid buffer : usable_bytes buffer → valid_trace (newTraceContext buffer) = true.
Proof.
  intros (Hlen & H1 & H2). unfold valid_trace, isLowerHex. rewrite H1, H2. cbn [TraceID SpanID Flags newTraceContext].
  rewrite !EncodeHex_length, !EncodeHex_lower. pose proof (str_take_drop (traceIDLength / 2) buffer) as Happ.
  assert (Ht : String.length (str_take (traceIDLength / 2) buffer) = 16%nat).
  { clear -Hlen. change (String.length buffer = 24%nat) in Hlen. change (traceIDLength / 2)%nat with 16%nat. do 24 (destruct buffer as [|? buffer]; [done|]). done. }
  assert (Hd : String.length (str_drop (traceIDLength / 2) buffer) = 8%nat).
  { rewrite <-Happ, str_length_app, Ht in Hlen. change (16 + String.length (str_drop (traceIDLength / 2) buffer) = 24)%nat in Hlen. lia. }
  by rewrite Ht, Hd.
Qed.

(** A trace that comes in goes on as it came, byte for byte, and is the one
    that is logged; without one, a proxy that starts traces passes on exactly
    one valid [traceparent], naming the trace it logs, and no [tracestate] of
    another trace; a proxy that does not changes no request. *)
Theorem trace_goes_on mode buffer r :
  usable_bytes buffer →
  let '(r', logged) := ServeTrace mode buffer r in
  (∀ n, CanonicalHeaderKey n ≠ traceparentHeader → CanonicalHeaderKey n ≠ tracestateHeader → hdr_values (ReqHeader r') n = hdr_values (ReqHeader r) n) ∧
  match mode, parseTraceparent (hdr_values (ReqHeader r) traceparentHeader) with
  | TraceContextOff, _ => r' = r ∧ logged = None
  | _, Some tc => r' = r ∧ logged = Some tc
  | TraceContextPropagate, None => r' = r ∧ logged = None
  | TraceContextGenerate, None => ∃ tc, logged = Some tc ∧ valid_trace tc = true ∧ hdr_values (ReqHeader r') traceparentHeader = [TraceString tc] ∧
      parseTraceparent (hdr_values (ReqHeader r') traceparentHeader) = Some tc ∧ hdr_values (ReqHeader r') tracestateHeader = []
  end.
Proof.
  intros Hu%new_trace_valid. unfold ServeTrace. destruct mode; [done| |]; destruct (parseTraceparent _) as [tc|] eqn:Hp; try done.
  assert (Hset : hdr_values (hdr_del (hdr_set (ReqHeader r) traceparentHeader (TraceString (newTraceContext buffer))) tracestateHeader) traceparentHeader
    = [TraceString (newTraceContext buffer)]).
  { rewrite hdr_values_del_ne by (vm_compute; discriminate). apply hdr_values_set_eq. }
  split.
  - intros n H1 H2. cbn [ReqHeader with_ReqHeader]. rewrite hdr_values_del_ne by auto. by rewrite hdr_values_set_ne by auto.
  - exists (newTraceContext buffer). cbn [ReqHeader with_ReqHeader]. rewrite Hset. repeat split; try done; [by apply parse_written|]. apply hdr_values_del_eq.
Qed.

Module TracingExamples.

Definition sixes : string := "0123456789abcdefghijklmn".

Example foreign_version : parseTraceparent ["cc-0af7651916cd43dd8448eb211c80319c-b7ad6b7169203331-01-what-is-this"]
  = Some (mkTrace "0af7651916cd43dd8448eb211c80319c" "b7ad6b7169203331" "01").
Proof. vm_compute. reflexivity. Qed.

Definition traced (values : list string) : Request :=
  mkRequest "GET" "www.example" "/" "" "" false false "192.0.2.1:1" {[traceparentHeader := values; tracestateHeader := ["a=b"]]} [] 0 None false false.

Lemma trace_goes_on_witness :
  usable_bytes sixes ∧ ∃ tc, (ServeTrace TraceContextGenerate sixes (traced ["00-x"; "00-y"])).2 = Some tc ∧
    hdr_values (ReqHeader (ServeTrace TraceContextGenerate sixes (traced ["00-x"; "00-y"])).1) traceparentHeader = [TraceString tc].
Proof.
  assert (Hu : usable_bytes sixes) by (repeat split; vm_compute; reflexivity). split; [exact Hu|].
  pose proof (trace_goes_on TraceContextGenerate sixes (traced ["00-x"; "00-y"]) Hu) as Hthm. destruct (ServeTrace _ _ _) as [r' logged].
  destruct Hthm as [_ Hthm]. vm_compute (parseTraceparent _) in Hthm. destruct Hthm as (tc & -> & _ & Hv & _). exists tc. split; [reflexivity|exact Hv].
Defined.

End TracingExamples.
