(* ===== verification/PauseController.v ===== *)
(** * Pausing a service: [internal/server/pause_controller.go]

    A paused service parks its requests on a channel that resuming or stopping
    closes.  A channel is a number; the set of closed ones is part of the
    state, closing one twice or closing a nil channel is the panic it is in Go
    ([None]).  Every operation is one critical section. *)
From S2P Require Import Prelude.

Inductive PauseState := PauseStateRunning | PauseStatePaused | PauseStateStopped.

#[export] Instance PauseState_eq_dec : EqDecision PauseState.
Proof. solve_decision. Defined.

Inductive PauseWaitAction :=
  PauseWaitActionProceed | PauseWaitActionTimedOut | PauseWaitActionStopped.

Record PauseController := mkPause {
  pcState : PauseState;
  pcStopMessage : string;
  pcFailAfter : Z;
  pauseChannel : option nat;      (** [None]: the nil channel *)
  nextChannel : nat;              (** channels made so far *)
  closedChannels : gset nat }.

Definition NewPauseController : PauseController := mkPause PauseStateRunning "" 0 None 0 ∅.

(** [close(ch)]. *)
Definition close_channel (ch : option nat) (closed : gset nat) : option (gset nat) :=
  match ch with
  | None => None
  | Some c => if bool_decide (c ∈ closed) then None else Some ({[c]} ∪ closed)
  end.

Definition setPauseState (newState : PauseState) (message : string) (p : PauseController)
  : option PauseController :=
  closed ← (if negb (bool_decide (pcState p = newState)) && bool_decide (pcState p = PauseStatePaused)
            then close_channel (pauseChannel p) (closedChannels p)
            else Some (closedChannels p));
  Some (mkPause newState message (pcFailAfter p) (pauseChannel p) (nextChannel p) closed).

Definition Stop (message : string) : PauseController → option PauseController :=
  setPauseState PauseStateStopped message.

Definition Resume : PauseController → option PauseController :=
  setPauseState PauseStateRunning "".

Definition Pause (failAfter : Z) (p : PauseController) : option PauseController :=
  let '(ch, next) := if bool_decide (pcState p = PauseStatePaused)
                     then (pauseChannel p, nextChannel p)
                     else (Some (nextChannel p), S (nextChannel p)) in
  Some (mkPause PauseStatePaused "" failAfter ch next (closedChannels p)).

(** [UnmarshalJSON]: the fields of a saved controller are assigned to a fresh
    one, then the operation that leads to its state is run on it. *)
Definition UnmarshalJSON (s : PauseState) (message : string) (failAfter : Z)
  : option PauseController :=
  let p := mkPause s message failAfter None 0 ∅ in
  match s with
  | PauseStateRunning => Resume p
  | PauseStatePaused => Pause failAfter p
  | PauseStateStopped => Stop message p
  end.

(** ** Waiting *)

(** [getWaitState] at time [now]: what a request knows when it parks.  The
    timer is armed under the same lock. *)
Record Waiter := mkWaiter {
  wtState : PauseState;
  wtMessage : string;
  wtChannel : option nat;
  wtDeadline : Z }.

Definition getWaitState (now : Z) (p : PauseController) : Waiter :=
  match pcState p with
  | PauseStatePaused => mkWaiter PauseStatePaused "" (pauseChannel p) (now + pcFailAfter p)
  | s => mkWaiter s (pcStopMessage p) None 0
  end.

(** Whether the channel a waiter parked on is closed; a nil channel never is. *)
Definition released (w : Waiter) (p : PauseController) : bool :=
  match wtChannel w with
  | Some c => bool_decide (c ∈ closedChannels p)
  | None => false
  end.

(** The ways [Wait] can return, at time [now]: [p] is the controller when a
    released waiter looks at the state, [q] when it looks at the message, which
    are two critical sections.  With both channels ready, Go's [select] may take
    either. *)
Inductive wait_returns (w : Waiter) (now : Z) (p q : PauseController)
  : PauseWaitAction → string → Prop :=
| wait_running : wtState w = PauseStateRunning → wait_returns w now p q PauseWaitActionProceed ""
| wait_stopped : wtState w = PauseStateStopped →
    wait_returns w now p q PauseWaitActionStopped (wtMessage w)
| wait_released_stopped : wtState w = PauseStatePaused → released w p = true →
    pcState p = PauseStateStopped → wait_returns w now p q PauseWaitActionStopped (pcStopMessage q)
| wait_released : wtState w = PauseStatePaused → released w p = true →
    pcState p ≠ PauseStateStopped → wait_returns w now p q PauseWaitActionProceed ""
| wait_timed_out : wtState w = PauseStatePaused → wtDeadline w ≤ now →
    wait_returns w now p q PauseWaitActionTimedOut "".

(** ** Sequences of operations *)

Inductive pause_op := OpStop (message : string) | OpPause (failAfter : Z) | OpResume.

Definition pause_step (p : PauseController) (o : pause_op) : option PauseController :=
  match o with
  | OpStop m => Stop m p
  | OpPause f => Pause f p
  | OpResume => Resume p
  end.

Fixpoint pause_run (ops : list pause_op) (p : PauseController) : option PauseController :=
  match ops with
  | [] => Some p
  | o :: ops => p ← pause_step p o; pause_run ops p
  end.

Definition is_pause (o : pause_op) : bool :=
  match o with OpPause _ => true | _ => false end.

(** A controller that was made, or restored from a state file, other than
    paused; what a pause leaves in the file is [restored_pause_panics]. *)
Inductive pause_started : PauseController → Prop :=
| started_new : pause_started NewPauseController
| started_restored s message failAfter p :
    s ≠ PauseStatePaused → UnmarshalJSON s message failAfter = Some p → pause_started p.

(** What there is to tell a request about the last operation [o], with the
    operations [more] coming between its two looks. *)
Definition told (o : pause_op) (more : list pause_op) : PauseWaitAction * string :=
  match o with
  | OpStop _ => (PauseWaitActionStopped, match default o (last more) with OpStop m => m | _ => "" end)
  | _ => (PauseWaitActionProceed, "")
  end.

(** ** Invariant *)

(** A paused controller holds an open channel, and it is the only open one. *)
Definition pause_ok (p : PauseController) : Prop :=
  (∀ c, c ∈ closedChannels p → (c < nextChannel p)%nat) ∧
  match pcState p with
  | PauseStatePaused => ∃ c, pauseChannel p = Some c ∧ (c < nextChannel p)%nat ∧
      (c ∉ closedChannels p) ∧ (∀ d, (d < nextChannel p)%nat → d ≠ c → d ∈ closedChannels p)
  | _ => ∀ d, (d < nextChannel p)%nat → d ∈ closedChannels p
  end.

Lemma pause_ok_new : pause_ok NewPauseController.
Proof. split; cbn; [set_solver|lia]. Qed.

Lemma pause_ok_started p : pause_started p → pause_ok p.
Proof.
  intros [|s m f q Hs Hq]; [exact pause_ok_new|].
  destruct s; cbn in Hq; [|done|]; injection Hq as <-; (split; cbn; [set_solver|lia]).
Qed.

(** Leaving a state for a state other than paused closes the channel, if one is
    open, and nothing else. *)
Lemma setPauseState_ok new message p :
  pause_ok p → new ≠ PauseStatePaused →
  ∃ p', setPauseState new message p = Some p' ∧ pause_ok p' ∧
    closedChannels p ⊆ closedChannels p' ∧ nextChannel p' = nextChannel p ∧
    pcState p' = new ∧ pcStopMessage p' = message.
Proof.
  intros [Hlt Hst] Hnew. unfold setPauseState.
  destruct (decide (pcState p = PauseStatePaused)) as [E|E].
  - rewrite E in Hst. destruct Hst as (c & Hc & Hcn & Hco & Hcl).
    rewrite bool_decide_false by congruence. rewrite bool_decide_true by done. rewrite Hc. cbn.
    rewrite bool_decide_false by done. cbn. eexists. split; [done|].
    split; [|cbn; split; [set_solver|done]]. split; cbn; [set_solver|].
    destruct new; [|done|]; intros d Hd; destruct (decide (d = c)); set_solver.
  - rewrite (bool_decide_false (pcState p = PauseStatePaused)), andb_false_r by done. cbn.
    eexists. split; [done|]. split; [|done]. split; [done|]. cbn.
    destruct new, (pcState p); done.
Qed.

Lemma Pause_ok failAfter p :
  pause_ok p →
  ∃ p', Pause failAfter p = Some p' ∧ pause_ok p' ∧
    closedChannels p' = closedChannels p ∧ (nextChannel p ≤ nextChannel p')%nat ∧
    pcState p' = PauseStatePaused ∧ pcStopMessage p' = "" ∧
    (pcState p = PauseStatePaused → pauseChannel p' = pauseChannel p).
Proof.
  intros [Hlt Hst]. unfold Pause.
  destruct (decide (pcState p = PauseStatePaused)) as [E|E].
  - rewrite bool_decide_true by done. eexists. split; [done|].
    split; [|by cbn; auto]. split; [done|]. by rewrite E in Hst.
  - rewrite bool_decide_false by done. eexists. split; [done|].
    split; [|cbn; repeat split; try done; lia].
    split; cbn; [intros c ?%Hlt; lia|].
    exists (nextChannel p). split; [done|]. split; [lia|]. split; [by intros ?%Hlt; lia|].
    intros d ??. destruct (pcState p); [|done|]; apply Hst; lia.
Qed.

(** No operation panics on a well-formed controller, and each does what its
    name says. *)
Lemma pause_step_ok p o :
  pause_ok p →
  ∃ p', pause_step p o = Some p' ∧ pause_ok p' ∧ closedChannels p ⊆ closedChannels p' ∧
    (nextChannel p ≤ nextChannel p')%nat ∧
    pcState p' = match o with OpStop _ => PauseStateStopped | OpPause _ => PauseStatePaused
                 | OpResume => PauseStateRunning end ∧
    pcStopMessage p' = match o with OpStop m => m | _ => "" end ∧
    (is_pause o = true → pcState p = PauseStatePaused → pauseChannel p' = pauseChannel p).
Proof.
  intros Hp. destruct o as [m|f|]; cbn [pause_step is_pause].
  - destruct (setPauseState_ok PauseStateStopped m p Hp) as (p' & ? & ? & ? & Hn & ? & ?); [done|].
    exists p'. by rewrite Hn.
  - destruct (Pause_ok f p Hp) as (p' & ? & ? & Hc & ? & ? & ? & ?).
    exists p'. rewrite Hc. auto 10.
  - destruct (setPauseState_ok PauseStateRunning "" p Hp) as (p' & ? & ? & ? & Hn & ? & ?); [done|].
    exists p'. by rewrite Hn.
Qed.

Lemma pause_run_ok ops p :
  pause_ok p →
  ∃ p', pause_run ops p = Some p' ∧ pause_ok p' ∧ closedChannels p ⊆ closedChannels p'.
Proof.
  revert p. induction ops as [|o ops IH]; intros p Hp; [by exists p|].
  destruct (pause_step_ok p o Hp) as (p1 & H1 & Hp1 & Hc1 & _).
  destruct (IH p1 Hp1) as (p2 & H2 & Hp2 & Hc2).
  exists p2. cbn. rewrite H1. cbn. split; [done|]. split; [done|]. by etransitivity.
Qed.

(** While a service stays paused its channel stays open; the first other
    operation closes it for good. *)
Lemma pause_run_channel ops p p' c :
  pause_ok p → pcState p = PauseStatePaused → pauseChannel p = Some c →
  pause_run ops p = Some p' →
  (c ∈ closedChannels p' ↔ existsb (negb ∘ is_pause) ops = true).
Proof.
  revert p. induction ops as [|o ops IH]; intros p Hp Hst Hch Hrun.
  - cbn in *. simplify_eq. destruct Hp as [_ Hp]. rewrite Hst in Hp.
    destruct Hp as (c' & ? & _ & ? & _). simplify_eq. done.
  - destruct (pause_step_ok p o Hp) as (p1 & H1 & Hp1 & Hc1 & Hn1 & Hst1 & _ & Hpause).
    cbn in Hrun. rewrite H1 in Hrun. cbn in Hrun. cbn [existsb].
    destruct (is_pause o) eqn:Eo.
    + pose proof (Hpause eq_refl Hst) as Hch1.
      change ((negb ∘ is_pause) o) with (negb (is_pause o)). rewrite Eo.
      apply (IH p1); [done| |congruence|done]. by destruct o.
    + change ((negb ∘ is_pause) o) with (negb (is_pause o)). rewrite Eo.
      split; [done|]. intros _.
      destruct (pause_run_ok ops p1 Hp1) as (p2 & H2 & _ & Hc2).
      assert (p2 = p') as -> by congruence. apply Hc2.
      destruct Hp as [_ Hp]. rewrite Hst in Hp. destruct Hp as (c' & ? & Hcn & _). simplify_eq.
      destruct Hp1 as [_ Hp1]. rewrite Hst1 in Hp1. destruct o; [|done|]; apply Hp1; lia.
Qed.

Lemma pause_run_app a b p : pause_run (a ++ b) p = pause_run a p ≫= pause_run b.
Proof. revert p. induction a as [|o a IH]; intros p; [done|]. cbn. destruct (pause_step p o); [apply IH|done]. Qed.

(** What the last operation left. *)
Lemma pause_run_last ops o p p' :
  pause_ok p → pause_run (ops ++ [o]) p = Some p' →
  (pcState p' = PauseStateStopped ↔ (told o []).1 = PauseWaitActionStopped) ∧
  pcStopMessage p' = match o with OpStop m => m | _ => "" end.
Proof.
  intros Hp. rewrite pause_run_app. destruct (pause_run_ok ops p Hp) as (p1 & -> & Hp1 & _). cbn.
  destruct (pause_step_ok p1 o Hp1) as (p2 & -> & _ & _ & _ & Hs & Hm & _). cbn. intros [= <-].
  rewrite Hs, Hm. by destruct o.
Qed.

Lemma pause_run_message ops o more p p' q :
  pause_ok p → pause_run (ops ++ [o]) p = Some p' → pause_run more p' = Some q →
  pcStopMessage q = match default o (last more) with OpStop m => m | _ => "" end.
Proof.
  intros Hp Hp' Hq. destruct more as [|x more _] using rev_ind.
  - injection Hq as <-. by apply (pause_run_last ops o p).
  - rewrite last_snoc. apply (pause_run_last ((ops ++ [o]) ++ more) x p q); [done|].
    by rewrite <-app_assoc, pause_run_app, Hp'.
Qed.

(** ** Theorems *)

(** C31: no request is stranded, and each is told what became of the service.
    However a controller that was made or restored, other than paused, has been
    paused, resumed and stopped since, the operations never panic.  A request
    parked while it was paused is released by the first resume or stop that
    follows; until then it stays parked, and only its own timeout ends its
    wait.  Released, it can go on at once, and unless its timeout comes first
    it is told what the last operation was: that it may proceed, or that the
    service is stopped, with the message of that stop, or of a later one that
    came before it had read the message. *)
Theorem pause_releases_waiters p0 before after p w now :
  pause_started p0 → pause_run before p0 = Some p → pcState p = PauseStatePaused →
  w = getWaitState now p →
  ∃ p', pause_run after p = Some p' ∧
    (released w p' = true ↔ existsb (negb ∘ is_pause) after = true) ∧
    (existsb (negb ∘ is_pause) after = false →
       ∀ later q action msg, wait_returns w later p' q action msg →
         action = PauseWaitActionTimedOut ∧ now + pcFailAfter p ≤ later) ∧
    (∀ ops o, after = ops ++ [o] → released w p' = true →
       (∀ later, wait_returns w later p' p' (told o []).1 (told o []).2) ∧
       (∀ more q later action msg, pause_run more p' = Some q → wait_returns w later p' q action msg →
          (action, msg) = told o more ∨ action = PauseWaitActionTimedOut ∧ now + pcFailAfter p ≤ later)).
Proof.
  intros Hstart Hbefore Hst ->.
  destruct (pause_run_ok before _ (pause_ok_started p0 Hstart)) as (p1 & Hp1 & Hok & _).
  assert (p1 = p) as -> by congruence.
  destruct (pause_run_ok after p Hok) as (p' & Hafter & _).
  assert (∃ c, pauseChannel p = Some c) as [c Hc].
  { destruct Hok as [_ Hok]. rewrite Hst in Hok. destruct Hok as (c & ? & _). eauto. }
  pose proof (pause_run_channel after p p' c Hok Hst Hc Hafter) as Hiff.
  assert (Hw : getWaitState now p = mkWaiter PauseStatePaused "" (Some c) (now + pcFailAfter p))
    by (unfold getWaitState; by rewrite Hst, Hc).
  rewrite Hw. exists p'. split; [done|]. split; [unfold released; cbn; by rewrite bool_decide_eq_true|].
  split.
  - intros Hno later q action msg [Hs|Hs|? Hr|? Hr|? Hd]; try done;
      apply bool_decide_eq_true, Hiff in Hr; congruence.
  - intros ops o -> Hrel. destruct (pause_run_last ops o p p' Hok Hafter) as [Hstop Hmsg]. split.
    + intros later. destruct o as [m|f|]; cbn in *.
      * rewrite <-Hmsg. apply wait_released_stopped; [done|done|by apply Hstop].
      * apply wait_released; [done|done|]. by intros ?%Hstop.
      * apply wait_released; [done|done|]. by intros ?%Hstop.
    + intros more q later action msg Hq [Hs|Hs|? Hr Hs|? Hr Hs|? Hd]; try done; [..|by right]; left.
      * rewrite (pause_run_message ops o more p p' q Hok Hafter Hq). apply Hstop in Hs. by destruct o.
      * destruct o as [m|f|]; [|done..]. by destruct Hs; apply Hstop.
Qed.

(** A controller restored from a saved paused state has no channel: a
    request that waits on it can only time out, whatever operations follow,
    and the resume or stop that should release it panics instead. *)
Theorem restored_pause_panics message failAfter m now :
  ∃ p, UnmarshalJSON PauseStatePaused message failAfter = Some p ∧
    Resume p = None ∧ Stop m p = None ∧
    (∀ p' q later action msg, wait_returns (getWaitState now p) later p' q action msg →
       action = PauseWaitActionTimedOut).
Proof.
  eexists. split; [done|]. split; [done|]. split; [done|].
  intros p' q later action msg Hw. destruct Hw as [Hs|Hs|? Hr|? Hr|]; cbn in *; done.
Qed.

(** ** Witnesses *)

Module PauseExamples.
(** A service restored as stopped, paused, paused again and stopped. *)
Definition parked : PauseController := mkPause PauseStatePaused "" 10 (Some 0%nat) 1 ∅.

Lemma pause_releases_waiters_witness :
  ∃ p', pause_run [OpPause 5; OpStop "maintenance"] parked = Some p' ∧
    released (getWaitState 0 parked) p' = true ∧
    wait_returns (getWaitState 0 parked) 7 p' p' PauseWaitActionStopped "maintenance" ∧
    (∀ action msg, wait_returns (getWaitState 0 parked) 7 p' p' action msg →
       (action, msg) = (PauseWaitActionStopped, "maintenance")).
Proof.
  destruct (pause_releases_waiters (mkPause PauseStateStopped "off" 0 None 0 ∅) [OpPause 10] [OpPause 5; OpStop "maintenance"]
    parked (getWaitState 0 parked) 0) as (p' & H1 & H2 & _ & H4).
  - apply (started_restored PauseStateStopped "off" 0); [discriminate|reflexivity].
  - vm_compute. reflexivity.
  - reflexivity.
  - reflexivity.
  - assert (Hr : released (getWaitState 0 parked) p' = true) by (apply H2; reflexivity).
    destruct (H4 [OpPause 5] (OpStop "maintenance") eq_refl Hr) as [Hcan Honly].
    exists p'. split; [exact H1|]. split; [exact Hr|]. split; [exact (Hcan 7)|].
    intros action msg Hw. destruct (Honly [] p' 7 action msg eq_refl Hw) as [Ht|[_ Hd]]; [exact Ht|].
    exfalso. apply Hd. reflexivity.
Defined.
End PauseExamples.
