(* ===== verification/IdleController.v ===== *)
(** * Scale to zero: [internal/server/idle_controller.go], and the hooks of
    [service_idle.go] it drives

    The controller stops a service's containers when it has been idle, and
    starts them again for the next request.  Every operation is one critical
    section on the controller; the goroutines that stop and start containers
    work outside the lock and report back under the generation they started
    with.  They are jobs of the system below, interleaved with everything
    else; the containers and the health of the pool answer as they like. *)
From S2P Require Import Prelude GoStrings.

Definition DefaultWakeTimeout : Z := 30 * second.
Definition maxWakeBackoff : Z := 30 * second.
Definition idleTimerIdlePark : Z := hour.

Inductive IdleState := IdleStateActive | IdleStateStopping | IdleStateSleeping | IdleStateWaking.

#[export] Instance IdleState_eq_dec : EqDecision IdleState.
Proof. solve_decision. Defined.

Definition IdleState_String (s : IdleState) : string :=
  match s with
  | IdleStateStopping => "stopping"
  | IdleStateSleeping => "sleeping"
  | IdleStateWaking => "waking"
  | IdleStateActive => "active"
  end.

Definition ParseIdleState (name : string) : IdleState :=
  if str_contains ["sleeping"; "stopping"; "waking"] name then IdleStateSleeping
  else IdleStateActive.

(** [ErrWakeFailed] names the container it wraps, if any. *)
Inductive IdleError := ErrWakeTimeout | ErrWakeFailed (ref : string) | ErrNotHealthy
  | ErrCanceled.

(** ** State *)

Record IdleController := mkIdle {
  hasLifecycle : bool;            (** a container runtime was given *)
  icState : IdleState;
  generation : nat;
  refs : list string;
  icInflight : nat;
  lastRequest : Z;
  sleepAfter : Z;
  wakeTimeout : Z;
  lastErr : option IdleError;
  failures : Z;
  retryAfter : option Z;          (** [None]: the zero time *)
  disabled : bool;
  changed : nat;                  (** the current channel; all before it are closed *)
  icClosed : bool }.

Definition NewIdleController (lc : bool) (rs : list string) (sleep wake now : Z) : IdleController :=
  mkIdle lc IdleStateActive 0 rs 0 now sleep (if wake <=? 0 then DefaultWakeTimeout else wake)
    None 0 None false 0 false.

(** [setStateLocked]: a transition bumps the generation and replaces the
    channel waiters park on; the same state is no transition. *)
Definition setStateLocked (s : IdleState) (c : IdleController) : IdleController :=
  if bool_decide (icState c = s) then c
  else mkIdle (hasLifecycle c) s (S (generation c)) (refs c) (icInflight c) (lastRequest c) (sleepAfter c)
         (wakeTimeout c) (lastErr c) (failures c) (retryAfter c) (disabled c) (S (changed c))
         (icClosed c).

(** Field updates that are not transitions. *)
Definition with_inflight (n : nat) (now : Z) (c : IdleController) : IdleController :=
  mkIdle (hasLifecycle c) (icState c) (generation c) (refs c) n now (sleepAfter c)
    (wakeTimeout c) (lastErr c) (failures c) (retryAfter c) (disabled c) (changed c) (icClosed c).

Definition with_lastRequest (now : Z) (c : IdleController) : IdleController :=
  with_inflight (icInflight c) now c.

Definition with_outcome (e : option IdleError) (n : Z) (ra : option Z) (c : IdleController)
  : IdleController :=
  mkIdle (hasLifecycle c) (icState c) (generation c) (refs c) (icInflight c) (lastRequest c) (sleepAfter c)
    (wakeTimeout c) e n ra (disabled c) (changed c) (icClosed c).

Definition with_settings (sleep wake : Z) (rs : list string) (c : IdleController)
  : IdleController :=
  mkIdle (hasLifecycle c) (icState c) (generation c) rs (icInflight c) (lastRequest c) sleep
    wake (lastErr c) (failures c) (retryAfter c) (disabled c) (changed c) (icClosed c).

Definition with_disabled (b : bool) (c : IdleController) : IdleController :=
  mkIdle (hasLifecycle c) (icState c) (generation c) (refs c) (icInflight c) (lastRequest c) (sleepAfter c)
    (wakeTimeout c) (lastErr c) (failures c) (retryAfter c) b (changed c) (icClosed c).

Definition bump_generation (c : IdleController) : IdleController :=
  mkIdle (hasLifecycle c) (icState c) (S (generation c)) (refs c) (icInflight c) (lastRequest c) (sleepAfter c)
    (wakeTimeout c) (lastErr c) (failures c) (retryAfter c) (disabled c) (changed c) (icClosed c).

Definition CloseIdle (c : IdleController) : IdleController :=
  mkIdle (hasLifecycle c) (icState c) (generation c) (refs c) (icInflight c) (lastRequest c) (sleepAfter c)
    (wakeTimeout c) (lastErr c) (failures c) (retryAfter c) (disabled c) (changed c) true.

(** ** Operations *)

Definition RestoreSleeping (c : IdleController) : IdleController :=
  if bool_decide (icState c = IdleStateActive) then setStateLocked IdleStateSleeping c else c.

Definition Disable (c : IdleController) : IdleController := with_disabled true c.

Definition Enable (now : Z) (c : IdleController) : IdleController :=
  with_lastRequest now (with_disabled false c).

(** The common part of [Reset] and of [Configure] with a new container set. *)
Definition supersede (now : Z) (c : IdleController) : IdleController :=
  let c := with_outcome None 0 None (with_lastRequest now c) in
  if bool_decide (icState c = IdleStateActive) then bump_generation c
  else setStateLocked IdleStateActive c.

Definition Reset (now : Z) (rs : list string) (c : IdleController) : IdleController :=
  supersede now (with_settings (sleepAfter c) (wakeTimeout c) rs c).

Definition Configure (now sleep wake : Z) (rs : list string) (c : IdleController)
  : IdleController :=
  let wake := if wake <=? 0 then DefaultWakeTimeout else wake in
  let c' := with_settings sleep wake rs c in
  if bool_decide (refs c = rs) then c' else supersede now c'.

Definition wakeBackoff (n : Z) : Z :=
  Z.min (second * 2 ^ (Z.min (n - 1) 5)) maxWakeBackoff.

(** [startWakeLocked]: the state part; the goroutine it starts carries the
    generation of the new state. *)
Definition startWakeLocked (c : IdleController) : IdleController * nat :=
  let c := setStateLocked IdleStateWaking c in (c, generation c).

(** What [admit] hands back. *)
Inductive Admission :=
| LetThrough                         (** nil channel, nil error *)
| Rejected (e : option IdleError)  (** nil channel, the last wake's error *)
| Wait (ch : nat).                 (** park on this channel *)

(** The third component: the generation of a wake it started. *)
Definition idle_admit (now : Z) (c : IdleController) : IdleController * Admission * option nat :=
  match icState c with
  | IdleStateActive => (with_inflight (S (icInflight c)) now c, LetThrough, None)
  | IdleStateSleeping =>
      if match retryAfter c with Some t => now <? t | None => false end
      then (c, Rejected (lastErr c), None)
      else let '(c', g) := startWakeLocked c in (c', Wait (changed c'), Some g)
  | _ => (c, Wait (changed c), None)
  end.

Definition EndRequest (now : Z) (c : IdleController) : IdleController :=
  with_inflight (pred (icInflight c)) now c.

(** The error of the wake goroutine: the first container that does not start,
    else what waiting for the pool within the remaining budget gives. *)
Definition wakeOutcome (rs : list string) (start : string → bool) (remaining : Z)
    (resume : option IdleError) : option IdleError :=
  match List.find (λ r, negb (start r)) rs with
  | Some r => Some (ErrWakeFailed r)
  | None => if remaining <=? 0 then Some ErrWakeTimeout else resume
  end.

(** [finishWake]: [None] when the outcome belongs to a superseded wake. *)
Definition finishWake (now : Z) (g : nat) (err : option IdleError) (c : IdleController)
  : option IdleController :=
  if negb (Nat.eqb (generation c) g) then None
  else Some match err with
       | None =>
           setStateLocked IdleStateActive (with_lastRequest now (with_outcome None 0 None c))
       | Some e =>
           setStateLocked IdleStateSleeping
             (with_outcome (Some e) (failures c + 1)
                (Some (now + wakeBackoff (failures c + 1))) c)
       end.

Definition canSleep (now : Z) (c : IdleController) : bool :=
  negb (disabled c) && bool_decide (icState c = IdleStateActive) && Nat.eqb (icInflight c) 0 &&
  (0 <? sleepAfter c) && hasLifecycle c && negb (Nat.eqb (length (refs c)) 0) &&
  (sleepAfter c <=? time_sub now (lastRequest c)).

(** The first critical section of [trySleep], and the generation of the stop. *)
Definition trySleep (now : Z) (c : IdleController) : option (IdleController * nat) :=
  if canSleep now c then let c := setStateLocked IdleStateStopping c in Some (c, generation c)
  else None.

(** Its second critical section; [None] when superseded. *)
Definition finishSleep (now : Z) (g : nat) (stopErr : bool) (c : IdleController)
  : option IdleController :=
  if negb (Nat.eqb (generation c) g) then None
  else Some (if stopErr then setStateLocked IdleStateActive (with_lastRequest now c)
             else setStateLocked IdleStateSleeping c).

(** How long [run] sleeps before it looks again. *)
Definition runWait (now : Z) (c : IdleController) : Z :=
  let eligible := negb (disabled c) && bool_decide (icState c = IdleStateActive) &&
    Nat.eqb (icInflight c) 0 && (0 <? sleepAfter c) && negb (Nat.eqb (length (refs c)) 0) in
  Z.max (if eligible then sleepAfter c - time_sub now (lastRequest c) else idleTimerIdlePark) 0.

(** ** The system *)

(** A goroutine working outside the lock, with its generation. *)
Inductive Job :=
| JSuspend (g : nat)        (** stopping: the pool is about to be emptied *)
| JStop (g : nat)           (** stopping: the containers are being stopped *)
| JWake (g : nat)           (** waking: the containers are being started *)
| JWoken (g : nat)          (** waking: the pool is back, waiting for it to answer *)
| JResume                   (** after a failed stop: the pool is about to come back *)
| JBackOut.                 (** after a failed wake: the pool is about to be emptied *)

#[export] Instance Job_eq_dec : EqDecision Job.
Proof. solve_decision. Defined.

Record IdleSystem := mkIdleSystem {
  ctl : IdleController;
  jobs : list Job;
  serving : nat;              (** requests admitted and not yet ended *)
  poolUp : bool }.            (** whether the pool has its targets *)

Definition job_gen (j : Job) : option nat :=
  match j with
  | JSuspend g | JStop g | JWake g | JWoken g => Some g
  | JResume | JBackOut => None
  end.

(** One step of anything: a request, the timer, a goroutine, an operator. *)
Inductive idle_step (s : IdleSystem) : IdleSystem → Prop :=
| is_admit now c' a w :
    idle_admit now (ctl s) = (c', a, w) →
    idle_step s (mkIdleSystem c' (match w with Some g => [JWake g] | None => [] end ++ jobs s)
      (match a with LetThrough => S (serving s) | _ => serving s end) (poolUp s))
| is_end now n :
    serving s = S n → idle_step s (mkIdleSystem (EndRequest now (ctl s)) (jobs s) n (poolUp s))
| is_sleep now c' g :
    trySleep now (ctl s) = Some (c', g) →
    idle_step s (mkIdleSystem c' (JSuspend g :: jobs s) (serving s) (poolUp s))
| is_suspend g l1 l2 :
    jobs s = l1 ++ JSuspend g :: l2 →
    idle_step s (mkIdleSystem (ctl s) (l1 ++ JStop g :: l2) (serving s) false)
| is_stopped g l1 l2 now stopErr c' :
    jobs s = l1 ++ JStop g :: l2 → finishSleep now g stopErr (ctl s) = Some c' →
    idle_step s (mkIdleSystem c' (l1 ++ (if stopErr then [JResume] else []) ++ l2)
      (serving s) (poolUp s))
| is_stop_superseded g l1 l2 now stopErr :
    jobs s = l1 ++ JStop g :: l2 → finishSleep now g stopErr (ctl s) = None →
    idle_step s (mkIdleSystem (ctl s) (l1 ++ l2) (serving s) (poolUp s))
| is_resume l1 l2 :
    jobs s = l1 ++ JResume :: l2 →
    idle_step s (mkIdleSystem (ctl s) (l1 ++ l2) (serving s) true)
| is_started g l1 l2 :
    jobs s = l1 ++ JWake g :: l2 →
    idle_step s (mkIdleSystem (ctl s) (l1 ++ JWoken g :: l2) (serving s) true)
| is_woken g l1 l2 now err c' :
    (jobs s = l1 ++ JWake g :: l2 ∧ err ≠ None ∨ jobs s = l1 ++ JWoken g :: l2) →
    finishWake now g err (ctl s) = Some c' →
    idle_step s (mkIdleSystem c' (l1 ++ match err with Some _ => [JBackOut] | None => [] end ++ l2)
      (serving s) (poolUp s))
| is_wake_superseded g l1 l2 now err :
    (jobs s = l1 ++ JWake g :: l2 ∧ err ≠ None ∨ jobs s = l1 ++ JWoken g :: l2) →
    finishWake now g err (ctl s) = None →
    idle_step s (mkIdleSystem (ctl s) (l1 ++ l2) (serving s) (poolUp s))
| is_backout l1 l2 :
    jobs s = l1 ++ JBackOut :: l2 →
    idle_step s (mkIdleSystem (ctl s) (l1 ++ l2) (serving s) false)
| is_reset now rs : idle_step s (mkIdleSystem (Reset now rs (ctl s)) (jobs s) (serving s) (poolUp s))
| is_deploy now sleep wake rs :
    idle_step s (mkIdleSystem (Configure now sleep wake rs (ctl s)) (jobs s) (serving s) true)
| is_disable : idle_step s (mkIdleSystem (Disable (ctl s)) (jobs s) (serving s) (poolUp s))
| is_enable now : idle_step s (mkIdleSystem (Enable now (ctl s)) (jobs s) (serving s) (poolUp s))
| is_close : idle_step s (mkIdleSystem (CloseIdle (ctl s)) (jobs s) (serving s) (poolUp s)).

(** A fresh service, or one restored as sleeping; a controller is only ever
    built around a container runtime. *)
Inductive idle_init : IdleSystem → Prop :=
| init_fresh rs sleep wake now :
    idle_init (mkIdleSystem (NewIdleController true rs sleep wake now) [] 0 true)
| init_sleeping rs sleep wake now :
    idle_init (mkIdleSystem (RestoreSleeping (NewIdleController true rs sleep wake now)) [] 0 false).

Definition idle_reachable (s : IdleSystem) : Prop := ∃ s0, idle_init s0 ∧ rtc idle_step s0 s.

(** ** Invariant *)

(** The jobs that may still write the state. *)
Definition live (c : IdleController) (js : list Job) : list Job :=
  filter (λ j, job_gen j = Some (generation c)) js.

#[global] Arguments live : simpl never.

Definition job_for (s : IdleState) (j : Job) : Prop :=
  match j with
  | JSuspend _ | JStop _ => s = IdleStateStopping
  | JWake _ | JWoken _ => s = IdleStateWaking
  | _ => False
  end.

(** A settled state has no live job, a transient one has exactly the job that
    will end it. *)
Definition live_for (st : IdleState) (l : list Job) : Prop :=
  match st with
  | IdleStateActive | IdleStateSleeping => l = []
  | _ => ∃ j, l = [j] ∧ job_for st j
  end.

Record idle_ok (s : IdleSystem) : Prop := {
  ok_count : icInflight (ctl s) = serving s;
  ok_down : icState (ctl s) ≠ IdleStateActive → serving s = 0%nat;
  ok_gens : ∀ j g, j ∈ jobs s → job_gen j = Some g → (g ≤ generation (ctl s))%nat;
  ok_live : live_for (icState (ctl s)) (live (ctl s) (jobs s));
  ok_err : ∀ t, retryAfter (ctl s) = Some t → lastErr (ctl s) ≠ None }.

(** ** Lemmas *)

Lemma live_split c l1 j l2 :
  live c (l1 ++ j :: l2) =
  live c l1 ++ (if decide (job_gen j = Some (generation c)) then [j] else []) ++ live c l2.
Proof.
  unfold live. rewrite filter_app. f_equal. destruct (decide _).
  - by rewrite filter_cons_True.
  - by rewrite filter_cons_False.
Qed.

Lemma live_app c l1 l2 : live c (l1 ++ l2) = live c l1 ++ live c l2.
Proof. apply filter_app. Qed.

Lemma live_push c j js :
  job_gen j = Some (generation c) → live c (j :: js) = j :: live c js.
Proof. intros. unfold live. by rewrite filter_cons_True. Qed.

Lemma live_same c c' js : generation c' = generation c → live c' js = live c js.
Proof. intros H. unfold live. by rewrite H. Qed.

(** After a generation bump no job is live. *)
Lemma live_bumped c c' js :
  (generation c < generation c')%nat →
  (∀ j g, j ∈ js → job_gen j = Some g → (g ≤ generation c)%nat) → live c' js = [].
Proof.
  intros Hlt Hle. unfold live. induction js as [|j js IH]; [done|].
  rewrite filter_cons_False.
  - apply IH. intros j' g ?. apply Hle. set_solver.
  - intros H. specialize (Hle j (generation c')). specialize (Hle ltac:(set_solver) H). lia.
Qed.

(** The only live job is the one at hand. *)
Lemma live_unique c l1 j l2 k :
  live c (l1 ++ j :: l2) = [k] → job_gen j = Some (generation c) →
  k = j ∧ live c l1 = [] ∧ live c l2 = [].
Proof.
  intros H Hj. rewrite live_split, decide_True in H by done.
  destruct (live c l1) as [|? [|]]; [|done|done]. cbn in H. by injection H as -> ->.
Qed.

Lemma live_not_nil c l1 j l2 :
  live c (l1 ++ j :: l2) = [] → job_gen j ≠ Some (generation c).
Proof.
  intros H Hj. rewrite live_split, decide_True in H by done. by destruct (live c l1).
Qed.

(** A job that is not live can be dropped, or replaced by one that is not. *)
Lemma live_drop c l1 j l2 :
  job_gen j ≠ Some (generation c) → live c (l1 ++ l2) = live c (l1 ++ j :: l2).
Proof. intros H. by rewrite live_split, live_app, decide_False. Qed.

Lemma live_replace c l1 j j' l2 st :
  job_gen j' = job_gen j → (job_for st j → job_for st j') →
  live_for st (live c (l1 ++ j :: l2)) → live_for st (live c (l1 ++ j' :: l2)).
Proof.
  intros Hg Hfor H.
  destruct (decide (job_gen j = Some (generation c))) as [Hj|Hj].
  - assert (Hk : ∀ k, live c (l1 ++ j :: l2) = [k] → k = j ∧ live c (l1 ++ j' :: l2) = [j']).
    { intros k Hk. destruct (live_unique _ _ _ _ _ Hk Hj) as (-> & H1 & H2).
      split; [done|]. by rewrite live_split, H1, H2, decide_True by congruence. }
    destruct st; cbn in H |- *; [by apply live_not_nil in H| |by apply live_not_nil in H|];
      destruct H as (k & Hl & Hjk); destruct (Hk k Hl) as [-> ?]; eauto.
  - assert (live c (l1 ++ j' :: l2) = live c (l1 ++ j :: l2)) as ->; [|done].
    by rewrite !live_split, !decide_False by congruence.
Qed.

Lemma setStateLocked_fields st c :
  let c' := setStateLocked st c in
  icState c' = st ∧ icInflight c' = icInflight c ∧ retryAfter c' = retryAfter c ∧
  lastErr c' = lastErr c ∧ (generation c ≤ generation c')%nat ∧
  (icState c ≠ st → generation c' = S (generation c) ∧ changed c' = S (changed c)) ∧
  (icState c = st → c' = c).
Proof.
  unfold setStateLocked. case_bool_decide; cbn; repeat split; try done; lia.
Qed.

Lemma supersede_fields now c :
  let c' := supersede now c in
  icState c' = IdleStateActive ∧ icInflight c' = icInflight c ∧ retryAfter c' = None ∧
  generation c' = S (generation c).
Proof.
  unfold supersede, setStateLocked. cbn. by case_bool_decide.
Qed.

(** Dropping to a settled state after its job is done. *)
Lemma live_after_transition c c' l1 j l2 extra :
  (∀ k g, k ∈ l1 ++ j :: l2 → job_gen k = Some g → (g ≤ generation c)%nat) →
  (∀ k, k ∈ extra → job_gen k = None) →
  (generation c < generation c')%nat →
  live c' (l1 ++ extra ++ l2) = [].
Proof.
  intros Hle Hex Hlt. rewrite !live_app.
  rewrite (live_bumped c c' l1), (live_bumped c c' l2); try done;
    [|intros k g ?; apply Hle; set_solver..].
  rewrite app_nil_r. cbn. unfold live. induction extra as [|k extra IH]; [done|].
  rewrite filter_cons_False; [apply IH; set_solver|]. rewrite Hex by set_solver. done.
Qed.

(** *** Preservation *)

(** An update of fields the invariant does not read. *)
Lemma idle_ok_frame s c' :
  idle_ok s → icState c' = icState (ctl s) → generation c' = generation (ctl s) →
  icInflight c' = icInflight (ctl s) → retryAfter c' = retryAfter (ctl s) →
  lastErr c' = lastErr (ctl s) → ∀ up, idle_ok (mkIdleSystem c' (jobs s) (serving s) up).
Proof.
  intros [H1 H2 H3 H4 H5] Hst Hg Hi Hr He up.
  split; cbn; rewrite ?Hst, ?Hg, ?Hi, ?Hr, ?He; auto.
  rewrite (live_same (ctl s) c') by done. exact H4.
Qed.

Lemma idle_ok_supersede s now c :
  idle_ok s → generation c = generation (ctl s) → icInflight c = icInflight (ctl s) →
  ∀ up, idle_ok (mkIdleSystem (supersede now c) (jobs s) (serving s) up).
Proof.
  intros [H1 H2 H3 H4 H5] Hg Hi up.
  destruct (supersede_fields now c) as (Hst & Hin & Hra & Hgen).
  split; cbn; rewrite ?Hst, ?Hin, ?Hra, ?Hgen, ?Hg; auto; [by rewrite Hi| |].
  - intros j g Hj Hjg. specialize (H3 j g Hj Hjg). lia.
  - apply (live_bumped (ctl s)); [rewrite Hgen, Hg; lia|done].
Qed.

Lemma idle_ok_admit s now c' a w :
  idle_ok s → idle_admit now (ctl s) = (c', a, w) →
  idle_ok (mkIdleSystem c' (match w with Some g => [JWake g] | None => [] end ++ jobs s)
    (match a with LetThrough => S (serving s) | _ => serving s end) (poolUp s)).
Proof.
  intros Hok. pose proof Hok as [H1 H2 H3 H4 H5]. unfold idle_admit.
  destruct (icState (ctl s)) eqn:Est.
  - intros [= <- <- <-]. split; cbn; rewrite ?Est; auto; done.
  - intros [= <- <- <-]. by apply (idle_ok_frame s).
  - case_match eqn:Et; [intros [= <- <- <-]; by apply (idle_ok_frame s)|].
    cbn. destruct (setStateLocked_fields IdleStateWaking (ctl s))
      as (Hst & Hin & Hra & Herr & _ & Hch & _).
    destruct Hch as [Hg Hc]; [congruence|]. intros [= <- <- <-].
    split; cbn [ctl jobs serving app]; rewrite ?Hin, ?Hra, ?Herr, ?Hst; auto.
    + intros j g [->|Hj]%elem_of_cons; cbn; [by intros [= ->]|].
      intros Hjg. specialize (H3 j g Hj Hjg). lia.
    + eexists (JWake _). split; [|done]. rewrite live_push by done. f_equal.
      apply (live_bumped (ctl s)); [lia|done].
  - intros [= <- <- <-]. by apply (idle_ok_frame s).
Qed.

Lemma idle_ok_sleep s now c' g :
  idle_ok s → trySleep now (ctl s) = Some (c', g) →
  idle_ok (mkIdleSystem c' (JSuspend g :: jobs s) (serving s) (poolUp s)).
Proof.
  intros [H1 H2 H3 H4 H5]. unfold trySleep. destruct (canSleep now (ctl s)) eqn:Hc; [|done].
  cbn. destruct (setStateLocked_fields IdleStateStopping (ctl s))
    as (Hst & Hin & Hra & Herr & _ & Hch & _).
  unfold canSleep in Hc. breflect.
  assert (icState (ctl s) = IdleStateActive) as Est by done.
  destruct Hch as [Hg Hcc]; [congruence|]. intros [= <- <-].
  split; cbn [ctl jobs serving app]; rewrite ?Hin, ?Hra, ?Herr, ?Hst; auto.
  - intros _. rewrite <-H1. by apply Nat.eqb_eq.
  - intros j g [->|Hj]%elem_of_cons; cbn; [by intros [= ->]|].
    intros Hjg. specialize (H3 j g Hj Hjg). lia.
  - eexists (JSuspend _). split; [|done]. rewrite live_push by done. f_equal.
    apply (live_bumped (ctl s)); [lia|done].
Qed.

(** A job reports: the state it leads to is settled, and no job is live. *)
Lemma idle_ok_report s l1 j l2 extra c' :
  idle_ok s → jobs s = l1 ++ j :: l2 → (∀ k, k ∈ extra → job_gen k = None) →
  icInflight c' = icInflight (ctl s) →
  (icState c' = IdleStateActive ∨ icState c' = IdleStateSleeping ∧ serving s = 0%nat) →
  (generation (ctl s) < generation c')%nat →
  (∀ t, retryAfter c' = Some t → lastErr c' ≠ None) →
  idle_ok (mkIdleSystem c' (l1 ++ extra ++ l2) (serving s) (poolUp s)).
Proof.
  intros [H1 H2 H3 H4 H5] Hj Hex Hin Hst Hgen Herr. rewrite Hj in H3.
  split; cbn; [congruence| | | |done].
  - intros ?. destruct Hst as [?|[_ ?]]; done.
  - intros k g Hk Hkg. apply elem_of_app in Hk as [Hk|[Hk|Hk]%elem_of_app].
    + specialize (H3 k g ltac:(set_solver) Hkg). lia.
    + rewrite Hex in Hkg by done. done.
    + specialize (H3 k g ltac:(set_solver) Hkg). lia.
  - pose proof (live_after_transition (ctl s) c' l1 j l2 extra H3 Hex Hgen) as Hl.
    destruct Hst as [->|[-> _]]; done.
Qed.

(** A superseded job is not live. *)
Lemma idle_ok_drop s l1 j l2 up :
  idle_ok s → jobs s = l1 ++ j :: l2 → job_gen j ≠ Some (generation (ctl s)) →
  idle_ok (mkIdleSystem (ctl s) (l1 ++ l2) (serving s) up).
Proof.
  intros [H1 H2 H3 H4 H5] Hj Hg. split; cbn; auto.
  - intros k g Hk. apply H3. rewrite Hj. set_solver.
  - rewrite (live_drop _ _ j), <-Hj by done. exact H4.
Qed.

Lemma idle_ok_replace s l1 j j' l2 up :
  idle_ok s → jobs s = l1 ++ j :: l2 → job_gen j' = job_gen j →
  (∀ st, job_for st j → job_for st j') →
  idle_ok (mkIdleSystem (ctl s) (l1 ++ j' :: l2) (serving s) up).
Proof.
  intros [H1 H2 H3 H4 H5] Hj Hg Hfor. split; cbn; auto.
  - intros k g Hk Hkg. apply elem_of_app in Hk as [Hk|[->|Hk]%elem_of_cons].
    + apply (H3 k g); [rewrite Hj; set_solver|done].
    + apply (H3 j g); [rewrite Hj; set_solver|congruence].
    + apply (H3 k g); [rewrite Hj; set_solver|done].
  - rewrite Hj in H4.
    exact (live_replace (ctl s) l1 j j' l2 _ Hg (Hfor _) H4).
Qed.

(** The live job of a given kind tells the state. *)
Lemma idle_ok_state s l1 j l2 :
  idle_ok s → jobs s = l1 ++ j :: l2 → job_gen j = Some (generation (ctl s)) →
  job_for (icState (ctl s)) j.
Proof.
  intros [_ _ _ H4 _] Hj Hg. rewrite Hj in H4.
  destruct (icState (ctl s)); [by apply live_not_nil in H4| |by apply live_not_nil in H4|];
    destruct H4 as (k & Hk & Hfor); by destruct (live_unique _ _ _ _ _ Hk Hg) as [<- _].
Qed.

Lemma finishSleep_Some now g stopErr c c' :
  finishSleep now g stopErr c = Some c' → icState c = IdleStateStopping →
  generation c = g ∧ icInflight c' = icInflight c ∧
  icState c' = (if stopErr then IdleStateActive else IdleStateSleeping) ∧
  generation c' = S (generation c) ∧ retryAfter c' = retryAfter c ∧ lastErr c' = lastErr c.
Proof.
  unfold finishSleep. destruct (Nat.eqb_spec (generation c) g); cbn; [|done].
  intros [= <-] Hst. split; [done|].
  destruct stopErr; unfold setStateLocked; cbn; rewrite Hst; done.
Qed.

Lemma finishWake_Some now g err c c' :
  finishWake now g err c = Some c' → icState c = IdleStateWaking →
  generation c = g ∧ icInflight c' = icInflight c ∧
  icState c' = match err with Some _ => IdleStateSleeping | None => IdleStateActive end ∧
  generation c' = S (generation c) ∧ lastErr c' = err ∧
  retryAfter c' = match err with Some _ => Some (now + wakeBackoff (failures c + 1)) | None => None end.
Proof.
  unfold finishWake. destruct (Nat.eqb_spec (generation c) g); cbn; [|done].
  intros [= <-] Hst. split; [done|].
  destruct err; unfold setStateLocked; cbn; rewrite Hst; done.
Qed.

Lemma finish_superseded now g err c :
  finishWake now g err c = None → generation c ≠ g.
Proof. unfold finishWake. by destruct (Nat.eqb_spec (generation c) g). Qed.

Lemma sleep_superseded now g e c : finishSleep now g e c = None → generation c ≠ g.
Proof. unfold finishSleep. by destruct (Nat.eqb_spec (generation c) g). Qed.

Lemma finish_generation now g err c c' : finishWake now g err c = Some c' → generation c = g.
Proof. unfold finishWake. by destruct (Nat.eqb_spec (generation c) g). Qed.

Lemma sleep_generation now g e c c' : finishSleep now g e c = Some c' → generation c = g.
Proof. unfold finishSleep. by destruct (Nat.eqb_spec (generation c) g). Qed.

Lemma idle_ok_stopped s l1 g l2 now stopErr c' :
  idle_ok s → jobs s = l1 ++ JStop g :: l2 → finishSleep now g stopErr (ctl s) = Some c' →
  idle_ok (mkIdleSystem c' (l1 ++ (if stopErr then [JResume] else []) ++ l2)
    (serving s) (poolUp s)).
Proof.
  intros Hok Hj Hf. pose proof (sleep_generation _ _ _ _ _ Hf) as Hg.
  assert (Hst : icState (ctl s) = IdleStateStopping).
  { apply (idle_ok_state s l1 (JStop g) l2 Hok Hj). cbn. by rewrite Hg. }
  destruct (finishSleep_Some _ _ _ _ _ Hf Hst) as (_ & Hin & Hst' & Hgen & Hra & Herr).
  eapply idle_ok_report; [done|done| |done| |lia|].
  - intros k Hk. destruct stopErr; [|by apply elem_of_nil in Hk].
    by apply list_elem_of_singleton in Hk as ->.
  - rewrite Hst'. destruct stopErr; [by left|right]. split; [done|].
    apply (ok_down s Hok). by rewrite Hst.
  - rewrite Hra, Herr. apply (ok_err s Hok).
Qed.

Lemma idle_ok_woken s l1 j g l2 now err c' :
  idle_ok s → jobs s = l1 ++ j :: l2 → (j = JWake g ∨ j = JWoken g) →
  finishWake now g err (ctl s) = Some c' →
  idle_ok (mkIdleSystem c' (l1 ++ match err with Some _ => [JBackOut] | None => [] end ++ l2)
    (serving s) (poolUp s)).
Proof.
  intros Hok Hj Hwake Hf. pose proof (finish_generation _ _ _ _ _ Hf) as Hg.
  assert (Hst : icState (ctl s) = IdleStateWaking).
  { assert (job_for (icState (ctl s)) j) as H.
    { apply (idle_ok_state s l1 j l2 Hok Hj). by destruct Hwake as [-> | ->]; cbn; rewrite Hg. }
    by destruct Hwake as [-> | ->]. }
  destruct (finishWake_Some _ _ _ _ _ Hf Hst) as (_ & Hin & Hst' & Hgen & Herr & Hra).
  eapply idle_ok_report; [done|done| |done| |lia|].
  - intros k Hk. destruct err; [|by apply elem_of_nil in Hk].
    by apply list_elem_of_singleton in Hk as ->.
  - rewrite Hst'. destruct err; [right|by left]. split; [done|].
    apply (ok_down s Hok). by rewrite Hst.
  - rewrite Hra, Herr. by destruct err.
Qed.

Lemma idle_ok_step s s' : idle_ok s → idle_step s s' → idle_ok s'.
Proof.
  intros Hok Hstep. destruct Hstep as
    [now c' a w Ha|now n Hn|now c' g Hs|g l1 l2 Hj|g l1 l2 now e c' Hj Hf|g l1 l2 now e Hj Hf
    |l1 l2 Hj|g l1 l2 Hj|g l1 l2 now err c' Hj Hf|g l1 l2 now err Hj Hf|l1 l2 Hj|now rs
    |now sleep wake rs| |now|].
  - by eapply idle_ok_admit.
  - destruct Hok as [H1 H2 H3 H4 H5]. split; cbn; auto.
    + by rewrite H1, Hn.
    + intros Hd. specialize (H2 Hd). congruence.
  - by eapply idle_ok_sleep.
  - by eapply (idle_ok_replace s l1 (JSuspend g) (JStop g)).
  - by eapply idle_ok_stopped.
  - eapply (idle_ok_drop s l1 (JStop g)); [done..|]. apply sleep_superseded in Hf. cbn. congruence.
  - by eapply (idle_ok_drop s l1 JResume).
  - by eapply (idle_ok_replace s l1 (JWake g) (JWoken g)).
  - destruct Hj as [[Hj _]|Hj]; eapply idle_ok_woken; eauto.
  - apply finish_superseded in Hf.
    destruct Hj as [[Hj _]|Hj]; eapply idle_ok_drop; eauto; cbn; congruence.
  - by eapply (idle_ok_drop s l1 JBackOut).
  - by apply idle_ok_supersede.
  - unfold Configure. case_bool_decide; [by apply idle_ok_frame|by apply idle_ok_supersede].
  - by apply idle_ok_frame.
  - by apply idle_ok_frame.
  - by apply idle_ok_frame.
Qed.

Lemma idle_ok_init s : idle_init s → idle_ok s.
Proof. by destruct 1; split; cbn; try done; intros ?? ?%elem_of_nil. Qed.

Lemma idle_ok_reachable s : idle_reachable s → idle_ok s.
Proof.
  intros (s0 & Hinit%idle_ok_init & Hsteps).
  induction Hsteps; eauto using idle_ok_step.
Qed.

(** ** Theorems *)

(** C14: no request is in progress while the containers are down.  Whatever
    requests, timers, deploys and container operations interleave, the service
    only leaves the active state when nothing is being served, admits nothing
    until it is active again, and its in-flight count is exact. *)
Theorem idle_no_request_while_down s :
  idle_reachable s →
  icInflight (ctl s) = serving s ∧
  (icState (ctl s) ≠ IdleStateActive → serving s = 0%nat).
Proof. intros [H1 H2 _ _ _]%idle_ok_reachable. done. Qed.

(** A transient state always has exactly one goroutine that will end it,
    and a settled state has none: wakes coalesce, a stop and a wake never
    compete for the state, and the outcome of a superseded one is dropped.
    So a held request is never left waiting for a transition nobody makes. *)
Theorem idle_one_live_job s :
  idle_reachable s →
  match icState (ctl s) with
  | IdleStateActive | IdleStateSleeping => live (ctl s) (jobs s) = []
  | st => ∃ j, live (ctl s) (jobs s) = [j] ∧ job_for st j
  end.
Proof. intros [_ _ _ H _]%idle_ok_reachable. by destruct (icState (ctl s)). Qed.

(** What [admit] answers.  A request is let through exactly when the
    service is active, and is counted; it is turned away exactly when the
    service sleeps within the back-off of a failed wake, always with that
    wake's error and without starting a container; otherwise it is told to
    wait on the channel the next transition closes, and a job is under way
    that will make one. *)
Theorem idle_admit_sound s now c' a w s' :
  idle_reachable s → idle_admit now (ctl s) = (c', a, w) →
  s' = mkIdleSystem c' (match w with Some g => [JWake g] | None => [] end ++ jobs s)
         (match a with LetThrough => S (serving s) | _ => serving s end) (poolUp s) →
  match a with
  | LetThrough => icState (ctl s) = IdleStateActive ∧ icInflight c' = S (icInflight (ctl s)) ∧
                w = None
  | Rejected e => icState (ctl s) = IdleStateSleeping ∧ e ≠ None ∧ c' = ctl s ∧ w = None ∧
                  ∃ t, retryAfter (ctl s) = Some t ∧ now < t
  | Wait ch => ch = changed c' ∧
               (icState c' = IdleStateStopping ∨ icState c' = IdleStateWaking) ∧
               ∃ j, live c' (jobs s') = [j] ∧ job_for (icState c') j
  end.
Proof.
  intros Hr Ha ->. pose proof (idle_ok_reachable _ Hr) as Hok.
  pose proof (idle_ok_admit _ _ _ _ _ Hok Ha) as [_ _ _ Hlive _]. cbn [ctl jobs] in Hlive.
  unfold idle_admit in Ha. destruct (icState (ctl s)) eqn:Est.
  - by injection Ha as <- <- <-.
  - injection Ha as <- <- <-. split; [done|]. rewrite Est in *. split; [by left|exact Hlive].
  - destruct (retryAfter (ctl s)) as [t|] eqn:Et; [destruct (Z.ltb_spec now t)|].
    + injection Ha as <- <- <-. split; [done|]. split; [by eapply ok_err|]. eauto.
    + cbn in Ha. destruct (setStateLocked_fields IdleStateWaking (ctl s)) as (Hst & _).
      injection Ha as <- <- <-. split; [done|]. rewrite Hst in *. split; [by right|exact Hlive].
    + cbn in Ha. destruct (setStateLocked_fields IdleStateWaking (ctl s)) as (Hst & _).
      injection Ha as <- <- <-. split; [done|]. rewrite Hst in *. split; [by right|exact Hlive].
  - injection Ha as <- <- <-. split; [done|]. rewrite Est in *. split; [by right|exact Hlive].
Qed.

(** The back-off after [n] failed wakes in a row is between one and thirty
    seconds and never shrinks. *)
Lemma wakeBackoff_bounds n : 1 ≤ n → second ≤ wakeBackoff n ≤ maxWakeBackoff.
Proof.
  intros Hn. unfold wakeBackoff, maxWakeBackoff, second.
  assert (1 ≤ 2 ^ Z.min (n - 1) 5).
  { change 1 with (2 ^ 0). apply Z.pow_le_mono_r; lia. }
  lia.
Qed.

(** ** Witnesses *)

Module IdleExamples.
Definition c0 : IdleController := NewIdleController true ["web-1"] (5 * minute) 0 0.
Definition s0 : IdleSystem := mkIdleSystem c0 [] 0 true.
Definition t1 : Z := 6 * minute.

(** The service goes to sleep, and a request wakes it. *)
Definition c1 : IdleController := setStateLocked IdleStateStopping c0.
Definition s1 : IdleSystem := mkIdleSystem c1 [JSuspend 1] 0 true.
Definition s2 : IdleSystem := mkIdleSystem c1 [JStop 1] 0 false.
Definition c3 : IdleController := setStateLocked IdleStateSleeping c1.
Definition s3 : IdleSystem := mkIdleSystem c3 [] 0 false.
Definition c4 : IdleController := setStateLocked IdleStateWaking c3.
Definition s4 : IdleSystem := mkIdleSystem c4 [JWake 3] 0 false.

Lemma s0_s1 : idle_step s0 s1.
Proof. exact (is_sleep s0 t1 c1 1 eq_refl). Qed.

Lemma s1_s2 : idle_step s1 s2.
Proof. exact (is_suspend s1 1 [] [] eq_refl). Qed.

Lemma s2_s3 : idle_step s2 s3.
Proof. exact (is_stopped s2 1 [] [] t1 false c3 eq_refl eq_refl). Qed.

Lemma s3_s4 : idle_step s3 s4.
Proof. exact (is_admit s3 (t1 + 1) c4 (Wait 3) (Some 3%nat) eq_refl). Qed.

Lemma s3_reachable : idle_reachable s3.
Proof.
  exists s0. split; [exact (init_fresh ["web-1"] (5 * minute) 0 0)|].
  eapply rtc_l; [exact s0_s1|]. eapply rtc_l; [exact s1_s2|]. apply rtc_once. exact s2_s3.
Qed.

Lemma s4_reachable : idle_reachable s4.
Proof.
  destruct s3_reachable as (s & Hi & Hs). exists s. split; [done|].
  eapply rtc_r; [exact Hs|exact s3_s4].
Qed.

Lemma idle_no_request_while_down_witness :
  icState (ctl s4) = IdleStateWaking ∧ serving s4 = 0%nat.
Proof.
  split; [reflexivity|]. apply (idle_no_request_while_down s4); [exact s4_reachable|discriminate].
Defined.

Lemma idle_one_live_job_witness :
  ∃ j, live (ctl s4) (jobs s4) = [j] ∧ job_for IdleStateWaking j.
Proof. exact (idle_one_live_job s4 s4_reachable). Defined.

Lemma idle_admit_sound_witness :
  3%nat = changed c4 ∧ (icState c4 = IdleStateStopping ∨ icState c4 = IdleStateWaking) ∧
  ∃ j, live c4 (jobs s4) = [j] ∧ job_for (icState c4) j.
Proof.
  exact (idle_admit_sound s3 (t1 + 1) c4 (Wait 3) (Some 3%nat) s4 s3_reachable eq_refl eq_refl).
Defined.

(** A deploy that lands between the decision to sleep and the emptying of the
    pool: the stop is superseded, yet it empties the pool the deploy
    installed, and nothing brings it back while the service is active. *)
Lemma deploy_during_suspend_empties_pool :
  ∃ s, rtc idle_step s0 s ∧ icState (ctl s) = IdleStateActive ∧ poolUp s = false ∧ jobs s = [].
Proof.
  set (c := Configure t1 (5 * minute) 0 ["web-2"] c1).
  exists (mkIdleSystem c [] 0 false). split; [|done].
  eapply rtc_l; [exact s0_s1|].
  eapply rtc_l; [exact (is_deploy s1 t1 (5 * minute) 0 ["web-2"])|].
  eapply rtc_l; [exact (is_suspend (mkIdleSystem c [JSuspend 1] 0 true) 1 [] [] eq_refl)|].
  apply rtc_once.
  exact (is_stop_superseded (mkIdleSystem c [JStop 1] 0 false) 1 [] [] t1 false eq_refl eq_refl).
Qed.
End IdleExamples.
