(* ===== verification/ServiceIdle.v ===== *)
(** * Requests at a service that may sleep: [internal/server/service_idle.go]
    and [IdleController.BeginRequest]

    The gate a request passes before anything is chosen for it.  Waiting is a
    loop around [admit]; every round meets the controller as other goroutines
    left it and one of the events its [select] waits for. *)
From S2P Require Import Prelude GoStrings Http IdleController.

(** ** Options *)

Inductive SleepOptionError := NegativeSleep | SleepWithOnDemand | ContainersWithoutSleep.

Definition validateSleep (sleepAfter wakeTimeout : Z) (onDemandURL : string)
    (containers : list string) : result SleepOptionError unit :=
  if (sleepAfter <? 0) || (wakeTimeout <? 0) then Err NegativeSleep
  else if (0 <? sleepAfter) && negb (String.eqb onDemandURL "") then Err SleepWithOnDemand
  else if (sleepAfter <=? 0) && negb (Nat.eqb (length containers) 0) then Err ContainersWithoutSleep
  else Ok tt.

(** [configureIdleController]: the controller after a deploy with these
    options, [lc] telling whether a container runtime is known and [restored]
    the state read from the state file. *)
Definition configureIdleController (now : Z) (lc : bool) (restored : IdleState)
    (sleep wake : Z) (rs : list string) (controller : option IdleController)
  : option IdleController :=
  if sleep <=? 0 then
    match controller with
    | Some c => Some (Configure now 0 0 [] c)
    | None => None
    end
  else
    match controller with
    | Some c => Some (Configure now sleep wake rs c)
    | None =>
        if negb lc then None
        else let c := Configure now sleep wake rs (NewIdleController lc [] 0 0 now) in
             Some (if bool_decide (restored = IdleStateSleeping) then RestoreSleeping c else c)
    end.

(** ** Waiting *)

Inductive Wakeup := WChanged | WTimedOut | WCanceled | WClosed.

(** One round of the loop: the clock and the controller [admit] meets, the
    clock when the remaining time is read, and what ends the wait. *)
Record Round := mkRound { rdNow : Z; rdCtl : IdleController; rdUntil : Z; rdEvent : Wakeup }.

(** The controller as [admit] leaves it; [Some] when the request is decided. *)
Definition begin_round (deadline : Z) (x : Round)
  : IdleController * option (option IdleError) :=
  let '(c', a, _) := idle_admit (rdNow x) (rdCtl x) in
  (c', match a with
       | LetThrough => Some None
       | Rejected e => Some e
       | Wait _ =>
           if deadline - rdUntil x <=? 0 then Some (Some ErrWakeTimeout)
           else match rdEvent x with
                | WChanged => None
                | WTimedOut => Some (Some ErrWakeTimeout)
                | WCanceled => Some (Some ErrCanceled)
                | WClosed => Some (Some (ErrWakeFailed ""))
                end
       end).

Fixpoint BeginRequest (deadline : Z) (rounds : list Round)
  : list IdleController * option (option IdleError) :=
  match rounds with
  | [] => ([], None)
  | x :: rounds =>
      match begin_round deadline x with
      | (c, Some res) => ([c], Some res)
      | (c, None) => let '(cs, res) := BeginRequest deadline rounds in (c :: cs, res)
      end
  end.

(** ** The gate *)

Inductive Gate :=
| Pass (release : bool)                  (** go on; [release]: [EndRequest] when done *)
| Answer (status : Z) (retryAfter : bool)
| Gone.                                  (** the client hung up *)

Definition answerIdleHealthCheck (c : IdleController) : Gate :=
  if bool_decide (icState c = IdleStateActive) then Pass false
  else match lastErr c with
       | Some _ => Answer 503 false
       | None => Answer 200 false
       end.

(** [handleIdleRequest] at [start]: the controllers its waiting leaves behind,
    and what becomes of the request. *)
Definition handleIdleRequest (healthCheckPath : string) (start : Z) (r : Request)
    (controller : option IdleController) (rounds : list Round)
  : list IdleController * option Gate :=
  match controller with
  | None => ([], Some (Pass false))
  | Some c =>
      if InternalRequest r then ([], Some (Pass false))
      else if IsHealthCheckRequest healthCheckPath r then ([], Some (answerIdleHealthCheck c))
      else
        let '(cs, res) := BeginRequest (start + wakeTimeout c) rounds in
        (cs, match res with
             | None => None
             | Some None => Some (Pass true)
             | Some (Some ErrCanceled) => Some Gone
             | Some (Some _) => Some (Answer 503 true)
             end)
  end.

(** ** Lemmas *)

(** A round of a real controller. *)
Definition real (x : Round) : Prop := ∃ s, idle_reachable s ∧ ctl s = rdCtl x.

Lemma begin_round_through deadline x c :
  real x → begin_round deadline x = (c, Some None) →
  icState (rdCtl x) = IdleStateActive ∧ icInflight c = S (icInflight (rdCtl x)).
Proof.
  intros (s & Hr & Hx). pose proof (ok_err _ (idle_ok_reachable _ Hr)) as Hs. rewrite Hx in Hs.
  unfold begin_round, idle_admit. destruct (icState (rdCtl x)).
  - by intros [= <-].
  - destruct (_ <=? 0); [done|]. by destruct (rdEvent x).
  - destruct (retryAfter (rdCtl x)) as [t|] eqn:Et; [destruct (rdNow x <? t)|]; cbn.
    + intros [= <- He]. by destruct (Hs t eq_refl).
    + destruct (_ <=? 0); [done|]. by destruct (rdEvent x).
    + destruct (_ <=? 0); [done|]. by destruct (rdEvent x).
  - destruct (_ <=? 0); [done|]. by destruct (rdEvent x).
Qed.

Lemma BeginRequest_through deadline rounds cs :
  Forall real rounds → BeginRequest deadline rounds = (cs, Some None) →
  ∃ x c, x ∈ rounds ∧ last cs = Some c ∧ icState (rdCtl x) = IdleStateActive ∧
    icInflight c = S (icInflight (rdCtl x)).
Proof.
  revert cs. induction rounds as [|x rounds IH]; intros cs Hr; cbn; [done|].
  apply Forall_cons in Hr as [Hx Hr].
  destruct (begin_round deadline x) as [c [res|]] eqn:Eb.
  - intros [= <- ->]. destruct (begin_round_through deadline x c Hx Eb) as [H1 H2].
    exists x, c. split; [left|]. done.
  - destruct (BeginRequest deadline rounds) as [cs' res'] eqn:E. intros [= <- ->].
    destruct (IH cs' Hr eq_refl) as (y & d & Hy & Hd & H1 & H2).
    exists y, d. split; [by right|]. split; [|done]. destruct cs'; [done|exact Hd].
Qed.

(** Whatever happens, the first round past the deadline decides. *)
Lemma BeginRequest_decides deadline rounds x :
  x ∈ rounds → deadline ≤ rdUntil x → is_Some (BeginRequest deadline rounds).2.
Proof.
  induction rounds as [|y rounds IH]; [by intros ?%elem_of_nil|].
  intros Hin Hd. cbn. destruct (begin_round deadline y) as [c [res|]] eqn:Eb; [by eexists|].
  apply elem_of_cons in Hin as [->|Hin].
  - unfold begin_round in Eb. destruct (idle_admit (rdNow y) (rdCtl y)) as [[c' a] w].
    destruct a; [done..|]. destruct (Z.leb_spec (deadline - rdUntil y) 0); [done|lia].
  - specialize (IH Hin Hd). by destruct (BeginRequest deadline rounds).
Qed.

(** ** Theorems *)

(** The gate in front of a service that may sleep.  A health check or a
    request made by the proxy itself never wakes it: it changes nothing, and
    while the service is down a health check is answered 200, or 503 once a
    wake has failed.  Any other request goes on only when some controller it
    met was active, with its slot taken, and is otherwise answered 503 with
    [Retry-After] or dropped with its client; and it is decided no later than
    the first time it looks at the clock past the wake timeout. *)
Theorem idle_gate path start r c rounds cs g :
  Forall real rounds →
  handleIdleRequest path start r (Some c) rounds = (cs, g) →
  (InternalRequest r = true ∨ IsHealthCheckRequest path r = true → cs = []) ∧
  (InternalRequest r = false → IsHealthCheckRequest path r = true →
     icState c ≠ IdleStateActive →
     g = Some (Answer (match lastErr c with Some _ => 503 | None => 200 end) false)) ∧
  (InternalRequest r = false → IsHealthCheckRequest path r = false →
     (∀ x, x ∈ rounds → start + wakeTimeout c ≤ rdUntil x → is_Some g) ∧
     match g with
     | Some (Pass release) => release = true ∧
         ∃ x c', x ∈ rounds ∧ last cs = Some c' ∧ icState (rdCtl x) = IdleStateActive ∧
           icInflight c' = S (icInflight (rdCtl x))
     | Some (Answer status retry) => status = 503 ∧ retry = true
     | Some Gone | None => True
     end).
Proof.
  intros Hr. unfold handleIdleRequest. destruct (InternalRequest r).
  { intros [= <- <-]. by repeat split. }
  destruct (IsHealthCheckRequest path r).
  { intros [= <- <-]. split; [done|]. split; [|done]. intros _ _ Hst. unfold answerIdleHealthCheck.
    rewrite bool_decide_false by done. by destruct (lastErr c). }
  destruct (BeginRequest _ rounds) as [cs' res] eqn:Eb. intros [= <- <-].
  split; [by intros [?|?]|]. split; [done|]. intros _ _. split.
  - intros x Hx Hd. pose proof (BeginRequest_decides (start + wakeTimeout c) rounds x Hx Hd) as H.
    rewrite Eb in H. destruct H as [[e|] He]; cbn in He; subst; [destruct e|]; by eexists.
  - destruct res as [[e|]|]; [by destruct e| |done]. split; [done|].
    by eapply BeginRequest_through.
Qed.

(** ** Witnesses *)

Module ServiceIdleExamples.
Import IdleExamples.

Definition visit : Request :=
  mkRequest "GET" "example.com" "/" "" "" false false "10.0.0.1:1" ∅ [] 0 None false false.

(** Asleep at first, awake after the change. *)
Definition two_rounds : list Round :=
  [mkRound 0 c3 0 WChanged; mkRound second c0 second WTimedOut].

Lemma idle_gate_witness :
  handleIdleRequest "/up" 0 visit (Some c3) two_rounds =
    (fst (handleIdleRequest "/up" 0 visit (Some c3) two_rounds), Some (Pass true)) ∧
  ∃ x c', x ∈ two_rounds ∧
    last (fst (handleIdleRequest "/up" 0 visit (Some c3) two_rounds)) = Some c' ∧
    icState (rdCtl x) = IdleStateActive ∧ icInflight c' = S (icInflight (rdCtl x)).
Proof.
  split; [vm_compute; reflexivity|].
  refine (proj2 (proj2 (proj2 (proj2 (idle_gate "/up" 0 visit c3 two_rounds _ (Some (Pass true))
    _ _)) _ _))); [|vm_compute; reflexivity..].
  constructor; [exact (ex_intro _ s3 (conj s3_reachable eq_refl))|]. constructor; [|constructor].
  exists s0. split; [|reflexivity]. exists s0. split; [apply init_fresh|apply rtc_refl].
Defined.
End ServiceIdleExamples.
