(* ===== verification/Quarantine.v ===== *)
(** * Holding back failing domains: [internal/server/domain_quarantine.go]

    The failure history of every domain and the end of its current hold; the
    hold grows along a ladder with every failure.  The clock is an argument of
    each operation; [None] is the zero time, which is before any clock. *)
From S2P Require Import Prelude GoStrings.

Inductive quarantineKind := quarantineACME | quarantinePreflight | quarantineRateLimited.

#[export] Instance quarantineKind_eq_dec : EqDecision quarantineKind.
Proof. solve_decision. Defined.

Definition acmeBackoffLadder : list Z := [15 * minute; hour; 4 * hour; 24 * hour].
Definition preflightBackoffLadder : list Z :=
  [5 * minute; 15 * minute; hour; 4 * hour; 24 * hour].
Definition rateLimitHoldMargin : Z := minute.

Record quarantineEntry := mkEntry {
  Until : option Z;
  Failures : Z;
  Kind : quarantineKind }.

Definition domainQuarantine := gmap string quarantineEntry.

Definition before (now : Z) (t : option Z) : bool :=
  match t with Some t => now <? t | None => false end.

(** [record]: the entry with one more failure. *)
Definition record (d : string) (k : quarantineKind) (q : gmap string quarantineEntry)
  : quarantineEntry :=
  match q !! d with
  | Some e => mkEntry (Until e) (Failures e + 1) k
  | None => mkEntry None 1 k
  end.

(** [ladder[min(n, len(ladder))-1]]; out of range panics in Go, and never
    happens since a recorded failure makes [n] at least one. *)
Definition ladder_at (ladder : list Z) (n : Z) : Z :=
  default 0 (ladder !! Z.to_nat (Z.min n (Z.of_nat (length ladder)) - 1)).

Definition RecordFailure (now : Z) (d : string) (k : quarantineKind)
    (q : gmap string quarantineEntry) : gmap string quarantineEntry * Z :=
  let e := record d k q in
  let ladder := match k with
                | quarantinePreflight => preflightBackoffLadder
                | _ => acmeBackoffLadder
                end in
  let backoff := ladder_at ladder (Failures e) in
  (<[d := mkEntry (Some (now + backoff)) (Failures e) k]> q, backoff).

Definition RecordRateLimited (now : Z) (d : string) (retryAfter : option Z)
    (q : gmap string quarantineEntry) : gmap string quarantineEntry * Z :=
  let e := record d quarantineRateLimited q in
  let hold u := (<[d := mkEntry (Some u) (Failures e) quarantineRateLimited]> q) in
  let fallback := let backoff := ladder_at acmeBackoffLadder (Failures e) in
                  (hold (now + backoff), backoff) in
  match retryAfter with
  | None => fallback
  | Some ra => let until := ra + rateLimitHoldMargin in
               if negb (now <? until) then fallback
               else (hold until, time_sub until now)
  end.

Definition Release (now : Z) (d : string) (q : gmap string quarantineEntry)
  : gmap string quarantineEntry * bool :=
  match q !! d with
  | Some e => if before now (Until e)
              then (<[d := mkEntry None (Failures e) (Kind e)]> q, true)
              else (q, false)
  | None => (q, false)
  end.

Definition Clear (d : string) (q : gmap string quarantineEntry) : gmap string quarantineEntry :=
  delete d q.

Definition IsQuarantined (now : Z) (d : string) (q : gmap string quarantineEntry) : bool :=
  match q !! d with Some e => before now (Until e) | None => false end.

(** [Filter]: the clock is read once per domain; [clock] gives each reading. *)
Fixpoint Filter (clock : string → Z) (ds : list string) (q : gmap string quarantineEntry)
  : list string * list string :=
  match ds with
  | [] => ([], [])
  | d :: ds => let '(allowed, held) := Filter clock ds q in
               if IsQuarantined (clock d) d q then (allowed, d :: held) else (d :: allowed, held)
  end.

Definition Snapshot (q : gmap string quarantineEntry) : gmap string quarantineEntry := q.

Definition Restore (snapshot : gmap string quarantineEntry) : gmap string quarantineEntry :=
  (λ e, mkEntry (Until e) (Failures e) (Kind e)) <$> snapshot.

(** ** Histories *)

Inductive q_op :=
| QFail (now : Z) (d : string) (k : quarantineKind)
| QRate (now : Z) (d : string) (retryAfter : option Z)
| QRelease (now : Z) (d : string)
| QClear (d : string).

Definition q_domain (o : q_op) : string :=
  match o with QFail _ d _ | QRate _ d _ | QRelease _ d | QClear d => d end.

Definition q_step (q : gmap string quarantineEntry) (o : q_op) : gmap string quarantineEntry :=
  match o with
  | QFail now d k => (RecordFailure now d k q).1
  | QRate now d ra => (RecordRateLimited now d ra q).1
  | QRelease now d => (Release now d q).1
  | QClear d => Clear d q
  end.

Definition q_run (ops : list q_op) : gmap string quarantineEntry := foldl q_step ∅ ops.

(** The failures of a domain since it was last cleared. *)
Definition failures_since (d : string) (ops : list q_op) : Z :=
  foldl (λ n o, if String.eqb (q_domain o) d
                then match o with
                     | QFail _ _ _ | QRate _ _ _ => n + 1
                     | QRelease _ _ => n
                     | QClear _ => 0
                     end
                else n) 0 ops.

(** ** Lemmas *)

Definition entry_failures (d : string) (q : gmap string quarantineEntry) : Z :=
  match q !! d with Some e => Failures e | None => 0 end.

Lemma record_failures d k q : Failures (record d k q) = entry_failures d q + 1.
Proof. unfold record, entry_failures. by destruct (q !! d). Qed.

Lemma q_step_other q o d : q_domain o ≠ d → q_step q o !! d = q !! d.
Proof.
  destruct o as [now d' k|now d' ra|now d'|d']; cbn; intros Hne.
  - by rewrite lookup_insert_ne.
  - unfold RecordRateLimited. destruct ra as [ra|]; [case_goal|]; cbn; by rewrite lookup_insert_ne.
  - unfold Release. destruct (q !! d') as [e|]; [|done].
    destruct (before now (Until e)); [|done]. cbn. by rewrite lookup_insert_ne.
  - unfold Clear. by rewrite lookup_delete_ne.
Qed.

Lemma q_steps_other others q d :
  Forall (λ o, q_domain o ≠ d) others → foldl q_step q others !! d = q !! d.
Proof.
  intros H. revert q. induction H as [|o os Ho _ IH]; intros q; [done|].
  cbn. by rewrite IH, q_step_other.
Qed.

Lemma q_step_failures q o :
  entry_failures (q_domain o) (q_step q o) =
  match o with
  | QFail _ _ _ | QRate _ _ _ => entry_failures (q_domain o) q + 1
  | QRelease _ _ => entry_failures (q_domain o) q
  | QClear _ => 0
  end.
Proof.
  destruct o as [now d k|now d ra|now d|d]; cbn.
  - unfold entry_failures at 1. rewrite lookup_insert_eq. cbn. apply record_failures.
  - unfold RecordRateLimited. destruct ra as [ra|]; [case_goal|]; cbn;
      unfold entry_failures at 1; rewrite lookup_insert_eq; cbn; apply record_failures.
  - unfold Release, entry_failures. destruct (q !! d) as [e|] eqn:E; cbn; [|by rewrite E].
    destruct (before now (Until e)); cbn; [by rewrite lookup_insert_eq|by rewrite E].
  - unfold Clear, entry_failures. by rewrite lookup_delete_eq.
Qed.

Lemma q_run_failures d ops : entry_failures d (q_run ops) = failures_since d ops.
Proof.
  unfold q_run, failures_since. induction ops as [|o ops IH] using rev_ind.
  { done. }
  rewrite !foldl_app. cbn [foldl]. destruct (String.eqb_spec (q_domain o) d) as [<-|Hne].
  - rewrite q_step_failures. destruct o; cbn in *; by rewrite ?IH.
  - unfold entry_failures in *. by rewrite q_step_other.
Qed.

Lemma failures_since_nonneg d ops : 0 ≤ failures_since d ops.
Proof.
  unfold failures_since. induction ops as [|o ops IH] using rev_ind; [done|].
  rewrite foldl_app. cbn. destruct (String.eqb _ _); [|done]. destruct o; lia.
Qed.

(** The rungs: from [n] failures on, what the ladder gives is between its ends
    and never shrinks. *)
Lemma ladder_bounds k n :
  1 ≤ n →
  let l := match k with quarantinePreflight => preflightBackoffLadder | _ => acmeBackoffLadder end in
  5 * minute ≤ ladder_at l n ≤ 24 * hour ∧ ladder_at l n ≤ ladder_at l (n + 1).
Proof.
  intros Hn.
  assert (H : n = 1 ∨ n = 2 ∨ n = 3 ∨ n = 4 ∨ 5 ≤ n) by lia.
  destruct H as [->|[->|[->|[->|H]]]]; [destruct k; vm_compute; repeat split; discriminate..|].
  assert (Hl : ∀ l, (1 ≤ length l ≤ 5)%nat → ∀ m, 5 ≤ m →
    ladder_at l m = default 0 (l !! (length l - 1)%nat)).
  { intros l Hlen m Hm. unfold ladder_at. rewrite Z.min_r by lia. do 2 f_equal. lia. }
  destruct k; cbn zeta iota; rewrite !Hl by (cbn; lia); vm_compute; repeat split; discriminate.
Qed.

(** ** Failures recorded one after the other *)

Definition counts_nonneg (q : gmap string quarantineEntry) : Prop := ∀ d, 0 ≤ entry_failures d q.

(** A failure of [d] recorded at [now]. *)
Definition fails_at (now : Z) (d : string) (o : q_op) : Prop :=
  match o with QFail t d' _ | QRate t d' _ => t = now ∧ d' = d | _ => False end.

Lemma fails_at_holds now d o q :
  fails_at now d o → counts_nonneg q → counts_nonneg (q_step q o) ∧ IsQuarantined now d (q_step q o) = true.
Proof.
  intros Hf Hq. assert (Hd : q_domain o = d) by (by destruct o; destruct Hf).
  assert (Hcount : counts_nonneg (q_step q o)).
  { intros x. destruct (decide (d = x)) as [<-|Hne].
    - rewrite <-Hd, q_step_failures, Hd. specialize (Hq d). destruct o; try done; lia.
    - unfold entry_failures. rewrite q_step_other by congruence. apply Hq. }
  split; [done|]. destruct o as [t d' k|t d' ra|t d'|d']; try done; destruct Hf as [-> ->]; cbn.
  - unfold IsQuarantined, RecordFailure. cbn. rewrite lookup_insert_eq. cbn. apply Z.ltb_lt.
    destruct (ladder_bounds k (Failures (record d k q))) as [Hb _]; [rewrite record_failures; specialize (Hq d); lia|].
    unfold minute, second in Hb. destruct k; cbn in *; lia.
  - unfold IsQuarantined, RecordRateLimited.
    destruct (ladder_bounds quarantineRateLimited (Failures (record d quarantineRateLimited q))) as [Hb _];
      [rewrite record_failures; specialize (Hq d); lia|].
    unfold minute, second in Hb. destruct ra as [ra|]; [destruct (negb _) eqn:Hpast|]; cbn; rewrite lookup_insert_eq; cbn;
      apply Z.ltb_lt; cbn in Hb; [lia| |lia]. apply negb_false_iff, Z.ltb_lt in Hpast. lia.
Qed.

Lemma fold_holds now (op : string → q_op) ds q :
  (∀ d, fails_at now d (op d)) → counts_nonneg q →
  counts_nonneg (foldl (λ q d, q_step q (op d)) q ds) ∧
  ∀ d, IsQuarantined now d q = true ∨ d ∈ ds → IsQuarantined now d (foldl (λ q d, q_step q (op d)) q ds) = true.
Proof.
  intros Hop. revert q. induction ds as [|x ds IH]; intros q Hq; cbn [foldl].
  { split; [done|]. intros d [?|?%elem_of_nil]; done. }
  destruct (fails_at_holds now x (op x) q (Hop x) Hq) as [Hq' Hx]. destruct (IH _ Hq') as [Hn Hh].
  split; [done|]. intros d Hd. apply Hh. destruct (decide (d = x)) as [->|Hne]; [by left|].
  destruct Hd as [Hd|[->|Hd]%elem_of_cons]; [left|done|by right].
  unfold IsQuarantined in *. rewrite q_step_other; [done|]. specialize (Hop x). destruct (op x); destruct Hop; cbn; congruence.
Qed.

(** ** Theorems *)

(** A failing domain is held back, alone, and ever longer.  After any
    history, a recorded failure holds the domain for the rung of the ladder
    given by its failures since it was last cleared (between five minutes and
    a day, the next rung never shorter); it is held exactly until that time
    has passed, however the other domains fare meanwhile. *)
Theorem quarantine_holds ops d k now others now' :
  Forall (λ o, q_domain o ≠ d) others →
  let '(q, backoff) := RecordFailure now d k (q_run ops) in
  let ladder := match k with
                | quarantinePreflight => preflightBackoffLadder
                | _ => acmeBackoffLadder
                end in
  backoff = ladder_at ladder (failures_since d ops + 1) ∧
  5 * minute ≤ backoff ≤ 24 * hour ∧
  backoff ≤ ladder_at ladder (failures_since d ops + 2) ∧
  (IsQuarantined now' d (foldl q_step q others) = true ↔ now' < now + backoff).
Proof.
  intros Hothers. cbn [RecordFailure]. unfold RecordFailure.
  rewrite record_failures, q_run_failures.
  pose proof (failures_since_nonneg d ops) as Hpos.
  destruct (ladder_bounds k (failures_since d ops + 1)) as [Hb Hm]; [lia|].
  split; [done|]. split; [exact Hb|]. split.
  { replace (failures_since d ops + 2) with (failures_since d ops + 1 + 1) by lia. exact Hm. }
  unfold IsQuarantined. rewrite q_steps_other, lookup_insert_eq by done. apply Z.ltb_lt.
Qed.

(** A release lifts the hold and keeps the history, so a domain that
    flaps keeps climbing the ladder: after a release the domain is not held,
    and its next failure is one rung higher than the one before. *)
Theorem release_keeps_climbing ops d k now released_at next :
  let '(q1, b1) := RecordFailure now d k (q_run ops) in
  let '(q2, lifted) := Release released_at d q1 in
  let '(_, b2) := RecordFailure next d k q2 in
  lifted = bool_decide (released_at < now + b1) ∧
  (lifted = true → ∀ t, IsQuarantined t d q2 = false) ∧
  b2 = ladder_at (match k with
                  | quarantinePreflight => preflightBackoffLadder
                  | _ => acmeBackoffLadder
                  end) (failures_since d ops + 2) ∧ b1 ≤ b2.
Proof.
  unfold RecordFailure at 1. rewrite record_failures, q_run_failures.
  set (b1 := ladder_at _ _). set (q1 := <[d := _]> _).
  pose proof (failures_since_nonneg d ops) as Hpos.
  destruct (ladder_bounds k (failures_since d ops + 1)) as [Hb Hm]; [lia|].
  assert (Hf : ∀ q, entry_failures d q = failures_since d ops + 1 →
    (RecordFailure next d k q).2 = ladder_at (match k with
      | quarantinePreflight => preflightBackoffLadder | _ => acmeBackoffLadder end)
      (failures_since d ops + 2)).
  { intros q Hq. cbn. rewrite record_failures, Hq. f_equal. lia. }
  assert (Hb12 : b1 ≤ ladder_at (match k with
      | quarantinePreflight => preflightBackoffLadder | _ => acmeBackoffLadder end)
      (failures_since d ops + 2)).
  { replace (failures_since d ops + 2) with (failures_since d ops + 1 + 1) by lia. exact Hm. }
  unfold Release. replace (q1 !! d) with
    (Some (mkEntry (Some (now + b1)) (failures_since d ops + 1) k))
    by (unfold q1; by rewrite lookup_insert_eq).
  cbn [Until before]. destruct (Z.ltb_spec released_at (now + b1)) as [Hlt|Hge].
  - set (q2 := <[d := _]> q1). specialize (Hf q2).
    destruct (RecordFailure next d k q2) as [q3 b2]. cbn [snd] in Hf.
    rewrite Hf by (unfold entry_failures, q2; by rewrite lookup_insert_eq).
    split; [by rewrite bool_decide_true|]. split; [|done].
    intros _ t. unfold IsQuarantined, q2. by rewrite lookup_insert_eq.
  - specialize (Hf q1). destruct (RecordFailure next d k q1) as [q3 b2]. cbn [snd] in Hf.
    rewrite Hf by (unfold entry_failures, q1; by rewrite lookup_insert_eq).
    split; [by rewrite bool_decide_false by lia|]. done.
Qed.

(** A snapshot restores to the same quarantine. *)
Lemma snapshot_restore q : Restore (Snapshot q) = q.
Proof.
  unfold Restore, Snapshot. rewrite <-(map_fmap_id q) at 2.
  apply map_fmap_ext. by intros d [u n k] _.
Qed.

(** [Filter] splits its input, keeping the order. *)
Lemma Filter_spec clock ds q :
  Filter clock ds q =
  (List.filter (λ d, negb (IsQuarantined (clock d) d q)) ds,
   List.filter (λ d, IsQuarantined (clock d) d q) ds).
Proof.
  induction ds as [|d ds IH]; cbn; [done|]. rewrite IH. by destruct (IsQuarantined _ _ _).
Qed.

(** ** Witnesses *)

Module QuarantineExamples.
Definition history : list q_op :=
  [QFail 0 "a.example" quarantineACME; QFail 5 "b.example" quarantinePreflight].

Lemma quarantine_holds_witness :
  let '(q, backoff) := RecordFailure (20 * minute) "a.example" quarantineACME (q_run history) in
  backoff = hour ∧ (IsQuarantined (30 * minute) "a.example" q = true ↔
                    30 * minute < 20 * minute + backoff).
Proof.
  pose proof (quarantine_holds history "a.example" quarantineACME (20 * minute) []
    (30 * minute) (Forall_nil_2 _)) as H.
  destruct (RecordFailure (20 * minute) "a.example" quarantineACME (q_run history)) as [q b].
  destruct H as (Hb & _ & _ & H). split; [rewrite Hb; vm_compute; reflexivity|exact H].
Defined.
End QuarantineExamples.
