(* ===== verification/CertPlan.v ===== *)
(** * Which names share a certificate order: [internal/server/acme/mapping.go],
    [domain_group.go], [dynamic_wildcard.go], the planning half of
    [san_cert_issuance.go] and the zones of [san_cert_zones.go]

    An ACME order names a set of identifiers and is answered by one solver: the
    DNS-01 provider of a mapped zone, the default provider, or HTTP-01.  This
    file models how the names that need a certificate become identifiers
    (themselves, or a wildcard) and how these are split into orders.  A solver
    is known by its name.  The public suffix list of [golang.org/x/net] is an
    argument. *)
From S2P Require Import Prelude GoStrings.

(** ** Providers and zones *)

Definition ProviderAuto : string := "auto".
Definition ProviderNone : string := "".

(** [ParseProviderName]: [None] for a name it does not support. *)
Definition ParseProviderName (s : string) : option string :=
  let s := ToLower s in
  if str_contains ["cloudflare"; "cf"] s then Some "cloudflare"
  else if str_contains ["route53"; "aws"; "r53"] s then Some "route53"
  else if str_contains ["digitalocean"; "do"] s then Some "digitalocean"
  else if str_contains ["gcloud"; "google"; "gcp"; "googledns"] s then Some "gcloud"
  else if str_contains ["namecheap"; "nc"] s then Some "namecheap"
  else if str_contains ["godaddy"; "gd"] s then Some "godaddy"
  else if str_contains ["hetzner"; "hz"] s then Some "hetzner"
  else if str_contains ["vultr"; "vr"] s then Some "vultr"
  else if String.eqb s "auto" then Some ProviderAuto
  else if str_contains [""; "none"] s then Some ProviderNone
  else None.

Definition normalizeZone (zone : string) : string :=
  TrimSuffix (TrimPrefix (ToLower (TrimSpace zone)) "*.") ".".

Record ProviderSelection := mkSelection {
  psDefault : string;
  Zones : gmap string string }.

Definition HasZones (s : ProviderSelection) : bool := negb (Nat.eqb (size (Zones s)) 0).

(** One turn of the loop of [ProviderFor]: a longer matching zone wins. *)
Definition better_zone (candidate : string) (zp : string * string) (best : string * string)
  : string * string :=
  let '(zone, provider) := zp in
  if negb (String.eqb candidate zone) && negb (HasSuffix candidate ("." +:+ zone)) then best
  else if str_len best.1 <? str_len zone then (zone, provider)
  else best.

(** [ProviderFor]: the provider, and the zone that selected it. *)
Definition ProviderFor (s : ProviderSelection) (domain : string) : string * string :=
  let candidate := normalizeZone domain in
  let '(zone, provider) := foldr (better_zone candidate) ("", "") (map_to_list (Zones s)) in
  if negb (String.eqb zone "") then (provider, zone) else (psDefault s, "").

Inductive ProviderError :=
| ProviderNotSupported (s : string)
| MultipleDefaults
| EmptyZone
| ZoneAuto (zone : string)
| ZoneNone (zone : string)
| DuplicateZone (zone : string).

Definition lift_provider (o : option string) (s : string) : result ProviderError string :=
  match o with Some p => Ok p | None => Err (ProviderNotSupported s) end.

(** One entry; the flag says that a default was named before. *)
Definition parseProviderEntry (entry : string) (st : ProviderSelection * bool)
  : result ProviderError (ProviderSelection * bool) :=
  let '(s, haveDefault) := st in
  let entry := TrimSpace entry in
  if String.eqb entry "" then Ok st
  else match Cut entry "=" with
       | None =>
           name ← lift_provider (ParseProviderName entry) entry;
           if (haveDefault : bool) then Err MultipleDefaults
           else Ok (mkSelection name (Zones s), true)
       | Some (zone, value) =>
           let zone := normalizeZone zone in
           if String.eqb zone "" then Err EmptyZone
           else
             name ← lift_provider (ParseProviderName value) value;
             if String.eqb name ProviderAuto then Err (ZoneAuto zone)
             else if String.eqb name ProviderNone then Err (ZoneNone zone)
             else if bool_decide (is_Some (Zones s !! zone)) then Err (DuplicateZone zone)
             else Ok (mkSelection (psDefault s) (<[zone := name]> (Zones s)), haveDefault)
       end.

Fixpoint parseProviderEntries (entries : list string) (st : ProviderSelection * bool)
  : result ProviderError (ProviderSelection * bool) :=
  match entries with
  | [] => Ok st
  | e :: entries => st ← parseProviderEntry e st; parseProviderEntries entries st
  end.

Definition ParseProviderEntries (entries : list string) : result ProviderError ProviderSelection :=
  '(s, _) ← parseProviderEntries entries (mkSelection ProviderNone ∅, false); Ok s.

(** ** Names *)

Definition normalizeDomainName (domain : string) : string :=
  ToLower (TrimSuffix (TrimSpace domain) ".").

Definition is_wildcard (d : string) : bool := HasPrefix d "*.".

Definition zoneContains (zone domain : string) : bool :=
  let candidate := normalizeDomainName domain in
  String.eqb candidate zone || HasSuffix candidate ("." +:+ zone).

(** [wildcardParent]: the dot is neither the first byte nor the last. *)
Definition wildcardParent (domain : string) : option string :=
  match Cut domain "." with
  | None => None
  | Some (label, parent) =>
      if String.eqb label "" || String.eqb parent "" then None else Some ("*." +:+ parent)
  end.

Definition matchesWildcard (pattern domain : string) : bool :=
  if negb (is_wildcard pattern) then false
  else match wildcardParent domain with
       | Some parent => String.eqb parent pattern
       | None => false
       end.

Definition identifiersCover (identifiers : list string) (domain : string) : bool :=
  existsb (λ i, String.eqb i domain || matchesWildcard i domain) identifiers.

Definition containsWildcard (domains : list string) : bool := existsb is_wildcard domains.

(** ** Groups of domains: [domain_group.go] *)

Inductive CertStrategy := StrategyWildcard | StrategySAN | StrategyIndividual.

#[export] Instance CertStrategy_eq_dec : EqDecision CertStrategy.
Proof. solve_decision. Defined.

Record DomainGroup := mkGroup {
  RootDomain : string;
  Subdomains : list string;
  FullDomains : list string;
  IncludesApex : bool;
  Strategy : CertStrategy;
  WildcardDomain : string }.

Record DomainGrouper := mkGrouper {
  MinSubdomainsForWildcard : Z;
  PreferWildcard : bool;
  DNSProviderAvailable : bool }.

Definition NewDomainGrouper : DomainGrouper := mkGrouper 2 true false.

(** [publicsuffix.EffectiveTLDPlusOne]: the registrable domain of a name. *)
Class PublicSuffix := EffectiveTLDPlusOne : string → option string.

Class PublicSuffixSpec `{!PublicSuffix} : Prop :=
  etld_suffix d r : EffectiveTLDPlusOne d = Some r →
    r ≠ "" ∧ (d = r ∨ ∃ sub, sub ≠ "" ∧ d = sub +:+ "." +:+ r).

Section grouping.
Context `{!PublicSuffix, !SortFunc}.

Definition newGroup (root : string) : DomainGroup := mkGroup root [] [] false StrategyWildcard "".

(** The first loop of [AnalyzeDomains], for one domain. *)
Definition addDomain (groups : gmap string DomainGroup) (domain : string) : gmap string DomainGroup :=
  if is_wildcard domain then
    let root := str_drop 2 domain in
    let g := default (newGroup root) (groups !! root) in
    <[root := mkGroup (RootDomain g) (Subdomains g) (FullDomains g) (IncludesApex g) StrategyWildcard domain]> groups
  else
    let root := default domain (EffectiveTLDPlusOne domain) in
    let g := default (newGroup root) (groups !! root) in
    let full := FullDomains g ++ [domain] in
    <[root := if String.eqb domain root
              then mkGroup (RootDomain g) (Subdomains g) full true (Strategy g) (WildcardDomain g)
              else mkGroup (RootDomain g) (Subdomains g ++ [TrimSuffix domain ("." +:+ root)]) full
                     (IncludesApex g) (Strategy g) (WildcardDomain g)]> groups.

Definition rootGroups (domains : list string) : gmap string DomainGroup := foldl addDomain ∅ domains.

Definition with_strategy (s : CertStrategy) (w : string) (g : DomainGroup) : DomainGroup :=
  mkGroup (RootDomain g) (Subdomains g) (FullDomains g) (IncludesApex g) s w.

Definition determineStrategy (gr : DomainGrouper) (g : DomainGroup) : DomainGroup :=
  if negb (String.eqb (WildcardDomain g) "") then with_strategy StrategyWildcard (WildcardDomain g) g
  else
    let allSingleLevel := forallb (λ s, negb (Contains s ".")) (Subdomains g) in
    if DNSProviderAvailable gr && PreferWildcard gr && allSingleLevel &&
       (MinSubdomainsForWildcard gr <=? Z.of_nat (length (Subdomains g)))
    then with_strategy StrategyWildcard ("*." +:+ RootDomain g) g
    else
      let n := length (FullDomains g) in
      if (2 <=? n)%nat && (n <=? 100)%nat then with_strategy StrategySAN (WildcardDomain g) g
      else with_strategy StrategyIndividual (WildcardDomain g) g.

Record DomainAnalysis := mkAnalysis {
  Groups : list DomainGroup;
  DNSRequired : bool;
  TotalDomains : Z;
  TotalCerts : Z;
  WildcardDomains : list string }.

(** [AnalyzeDomains]; [order] is the order in which the roots are ranged over. *)
Definition AnalyzeDomains (order : list string) (gr : DomainGrouper) (domains : list string) : DomainAnalysis :=
  if Nat.eqb (length domains) 0 then mkAnalysis [] false 0 0 []
  else
    let groups := determineStrategy gr <$> omap (λ root, rootGroups domains !! root) order in
    let wildcards := List.filter (λ g, bool_decide (Strategy g = StrategyWildcard)) groups in
    mkAnalysis (sort_func (λ a b, Compare (RootDomain a) (RootDomain b)) groups)
      (negb (Nat.eqb (length wildcards) 0)) (Z.of_nat (length domains))
      (sumf (λ g, match Strategy g with
                  | StrategyWildcard => 1
                  | _ => Z.of_nat (length (FullDomains g))
                  end) groups)
      (WildcardDomain <$> wildcards).

Definition GetDomainsForCert (g : DomainGroup) : list string :=
  match Strategy g with
  | StrategyWildcard => WildcardDomain g :: (if IncludesApex g then [RootDomain g] else [])
  | _ => FullDomains g
  end.

Definition MatchesDomain (g : DomainGroup) (domain : string) : bool :=
  str_contains (FullDomains g) domain ||
  (bool_decide (Strategy g = StrategyWildcard) && negb (String.eqb (WildcardDomain g) "") &&
   match CutSuffix domain (str_drop 1 (WildcardDomain g)) with
   | Some prefix => negb (Contains prefix ".") && negb (String.eqb prefix "")
   | None => false
   end) ||
  (IncludesApex g && String.eqb domain (RootDomain g)).

(** ** What a manager plans with *)

(** The selection and the DNS-01 solvers of one ACME identity, and the grouper;
    [dnsObtainer] answers for what no mapped zone answers for. *)
Record Planner := mkPlanner {
  selection : ProviderSelection;
  dnsObtainer : option string;
  dnsObtainers : gmap string string;
  grouper : DomainGrouper }.

Definition resolveObtainerFrom (s : ProviderSelection) (domain : string) (def : option string)
    (zoned : gmap string string) : option string * string :=
  let '(provider, zone) := ProviderFor s domain in
  if negb (String.eqb zone "") then (zoned !! provider, "zone:" +:+ provider) else (def, "").

(** [None]: the order spans providers. *)
Definition orderObtainerFrom (s : ProviderSelection) (domains : list string) (def : option string)
    (zoned : gmap string string) : option (option string) :=
  match domains with
  | [] => Some None
  | d :: ds =>
      let '(obtainer, key) := resolveObtainerFrom s d def zoned in
      if forallb (λ d, String.eqb (resolveObtainerFrom s d def zoned).2 key) ds then Some obtainer else None
  end.

Definition orderObtainer (p : Planner) (domains : list string) : option (option string) :=
  orderObtainerFrom (selection p) domains (dnsObtainer p) (dnsObtainers p).

Definition hasDNSProviderFor (p : Planner) (domain : string) : bool :=
  match orderObtainer p [domain] with Some (Some _) => true | _ => false end.

(** [planIssuanceDomains], for the hosts registered by deploys. *)
Definition planGroup (p : Planner) (domains : list string) (g : DomainGroup) : list string :=
  if bool_decide (Strategy g = StrategyWildcard) && negb (str_contains domains (WildcardDomain g)) &&
     negb (hasDNSProviderFor p (WildcardDomain g))
  then FullDomains g else GetDomainsForCert g.

Definition planIssuanceDomains (order : list string) (p : Planner) (domains : list string) : list string :=
  if negb (bool_decide (is_Some (dnsObtainer p))) && Nat.eqb (size (dnsObtainers p)) 0 then domains
  else
    let planned := concat (planGroup p domains <$> Groups (AnalyzeDomains order (grouper p) domains)) in
    if Nat.eqb (length planned) 0 then domains else planned.

(** ** Planning the dynamic path: [dynamic_wildcard.go] *)

Definition mappedZoneWildcard (p : Planner) (domain : string) : option string :=
  if is_wildcard domain then None
  else
    let '(_, zone) := ProviderFor (selection p) domain in
    if String.eqb zone "" then None
    else match CutSuffix (normalizeDomainName domain) ("." +:+ zone) with
         | Some label =>
             if String.eqb label "" || Contains label "." then None
             else if hasDNSProviderFor p ("*." +:+ zone) then Some ("*." +:+ zone) else None
         | None => None
         end.

(** The identifier that is ordered for a name; [held]: is it on the ladder? *)
Definition planIdentifier (p : Planner) (held : string → bool) (domain : string) : string :=
  if negb (PreferWildcard (grouper p)) then domain
  else match mappedZoneWildcard p domain with
       | Some w => if held w then domain else w
       | None => domain
       end.

Definition planDynamicIdentifiers (p : Planner) (held : string → bool) (domains : list string)
  : gmap string string := list_to_map ((λ d, (d, planIdentifier p held d)) <$> domains).

(** Append what is not there yet. *)
Definition add_new (l : list string) (x : string) : list string :=
  if str_contains l x then l else l ++ [x].

Definition planDynamicIssuance (p : Planner) (held : string → bool) (domains : list string) : list string :=
  let identifierOf := planDynamicIdentifiers p held domains in
  foldl (λ planned d, add_new planned (default "" (identifierOf !! d))) [] domains.

(** ** Splitting an order: [san_cert_zones.go] *)

Definition providerPartitionKey (p : Planner) (domain : string) : string :=
  let '(provider, zone) := ProviderFor (selection p) domain in
  if String.eqb zone "" then "" else "zone:" +:+ provider.

Record wildcardAnchor := mkAnchor {
  anZone : string;
  anProvider : string;
  anKey : string;
  anSolvable : bool }.

Definition anchorOf (p : Planner) (domain : string) : wildcardAnchor :=
  let zone := normalizeDomainName (str_drop 2 domain) in
  let pk := providerPartitionKey p domain in
  if hasDNSProviderFor p domain
  then mkAnchor zone pk ("wildcard:" +:+ zone +:+ "|" +:+ pk) true
  else mkAnchor zone pk ("unsolvable-wildcard:" +:+ zone) false.

Definition addAnchor (p : Planner) (anchors : list wildcardAnchor) (domain : string) : list wildcardAnchor :=
  if negb (is_wildcard domain) then anchors
  else if existsb (λ a, String.eqb (anZone a) (normalizeDomainName (str_drop 2 domain))) anchors
  then anchors
  else anchors ++ [anchorOf p domain].

(** Longest zone first, by a stable sort. *)
Definition wildcardAnchors (p : Planner) (domains : list string) : list wildcardAnchor :=
  insertion_sort (λ a b, str_len (anZone b) - str_len (anZone a)) (foldl (addAnchor p) [] domains).

Definition solvabilityPartitionKey (p : Planner) (anchors : list wildcardAnchor) (domain : string) : string :=
  let concrete :=
    let pk := providerPartitionKey p domain in
    match List.find (λ a, anSolvable a && String.eqb (anProvider a) pk && zoneContains (anZone a) domain) anchors with
    | Some a => anKey a
    | None => pk
    end in
  if is_wildcard domain then
    match List.find (λ a, String.eqb (anZone a) (normalizeDomainName (str_drop 2 domain))) anchors with
    | Some a => anKey a
    | None => concrete
    end
  else concrete.

Definition splitByProviderZone (p : Planner) (domains : list string) : list (list string) :=
  let anchors := wildcardAnchors p domains in
  if negb (HasZones (selection p)) && Nat.eqb (length anchors) 0 then [domains]
  else (group_by (solvabilityPartitionKey p anchors) domains).*2.

(** The first identifier outside every wildcard zone of the order; [""] when
    there is none. *)
Definition outsideWildcardZones (domains : list string) : string :=
  let zones := (λ d, normalizeDomainName (str_drop 2 d)) <$> List.filter is_wildcard domains in
  match List.find (λ d, negb (is_wildcard d) && negb (existsb (λ z, zoneContains z d) zones)) domains with
  | Some d => d
  | None => ""
  end.
End grouping.

(** ** Names without white space *)

(** The bytes of host names and wildcards. *)
Definition is_name_byte (c : ascii) : bool :=
  let n := byte_of c in
  ((97 <=? n) && (n <=? 122)) || ((65 <=? n) && (n <=? 90)) || ((48 <=? n) && (n <=? 57)) ||
  Ascii.eqb c "-" || Ascii.eqb c "." || Ascii.eqb c "*" || Ascii.eqb c "_".

Definition cert_name (d : string) : Prop := all_bytes is_name_byte d = true.

Lemma space_not_name r t : r ∈ space_runes → ¬ cert_name (r +:+ t).
Proof.
  intros Hr. assert (H : forallb (λ r, match r with String c _ => negb (is_name_byte c) | _ => false end) space_runes = true)
    by (vm_compute; reflexivity).
  rewrite forallb_forall in H. specialize (H r). rewrite <-list_elem_of_In in H. specialize (H Hr).
  destruct r as [|c r]; [done|]. unfold cert_name. cbn. apply negb_true_iff in H. by rewrite H.
Qed.

Lemma cert_name_TrimSpace d : cert_name d → TrimSpace d = d.
Proof.
  intros Hd. unfold TrimSpace.
  assert (Hl : trim_space_left (String.length d) d = d).
  { destruct (String.length d); [done|]. cbn [trim_space_left].
    destruct (List.find (HasPrefix d) space_runes) as [r|] eqn:Hf; [|done].
    apply find_some in Hf as [Hr [t ->]%HasPrefix_spec]. apply list_elem_of_In in Hr.
    by apply space_not_name in Hd. }
  cbv zeta. rewrite Hl. destruct (String.length d); [done|]. cbn [trim_space_right].
  destruct (List.find (HasSuffix d) space_runes) as [r|] eqn:Hf; [|done].
  apply find_some in Hf as [Hr [t ->]%HasSuffix_spec]. apply list_elem_of_In in Hr.
  unfold cert_name in Hd. rewrite all_bytes_app in Hd. apply andb_true_iff in Hd as [_ Hd].
  pose proof (space_not_name r "" Hr) as Hn. by rewrite str_app_nil_r in Hn.
Qed.

Lemma ToLower_app s t : ToLower (s +:+ t) = ToLower s +:+ ToLower t.
Proof. induction s as [|c s IH]; cbn; congruence. Qed.

Lemma to_lower_byte_dot c : to_lower_byte c = "."%char → c = "."%char.
Proof.
  destruct c as [[] [] [] [] [] [] [] []]; first [reflexivity | discriminate].
Qed.

Lemma HasSuffix_dot_lower x : HasSuffix (ToLower x) "." = HasSuffix x ".".
Proof.
  apply eq_true_iff_eq. rewrite !HasSuffix_spec. split; [|intros [t ->]; exists (ToLower t); by rewrite ToLower_app].
  induction x as [|c x IH]; cbn; [intros [t Ht]; by destruct t|].
  intros [t Ht]. destruct t as [|a t]; cbn in Ht.
  - injection Ht as Hc Hx. destruct x; [|done]. apply to_lower_byte_dot in Hc as ->. by exists "".
  - injection Ht as _ Hx. destruct IH as [u ->]; [by exists t|]. by exists (String c u).
Qed.

Lemma ToLower_TrimSuffix x : ToLower (TrimSuffix x ".") = TrimSuffix (ToLower x) ".".
Proof.
  unfold TrimSuffix, CutSuffix. rewrite HasSuffix_dot_lower. destruct (HasSuffix x ".") eqn:H; [|done]. cbn.
  apply HasSuffix_spec in H as [t ->]. rewrite ToLower_app, !str_length_app, !Nat.add_sub.
  by rewrite !str_take_app.
Qed.

Lemma is_wildcard_spec d : is_wildcard d = true → d = "*." +:+ str_drop 2 d.
Proof. unfold is_wildcard. intros [t ->]%HasPrefix_spec. done. Qed.

(** A wildcard and its zone select the same provider. *)
Lemma normalizeZone_wildcard d :
  is_wildcard d = true → cert_name d → normalizeZone d = normalizeDomainName (str_drop 2 d).
Proof.
  intros Hw Hd. unfold normalizeZone, normalizeDomainName.
  rewrite (cert_name_TrimSpace d Hd). rewrite (is_wildcard_spec d Hw) in Hd |- *. set (x := str_drop 2 d) in *.
  assert (Hx : cert_name x) by (unfold cert_name in *; by rewrite all_bytes_app in Hd).
  rewrite ToLower_app. change (ToLower "*.") with "*.". rewrite TrimPrefix_app.
  change (str_drop 2 ("*." +:+ x)) with x. by rewrite (cert_name_TrimSpace x Hx), ToLower_TrimSuffix.
Qed.

Lemma cert_name_normal x : cert_name x → cert_name (normalizeDomainName x).
Proof.
  intros Hx. unfold normalizeDomainName. rewrite (cert_name_TrimSpace x Hx).
  assert (Hl : ∀ s, all_bytes is_name_byte s = true → all_bytes is_name_byte (ToLower s) = true).
  { induction s as [|c s IH]; cbn; [done|]. rewrite !andb_true_iff. intros [Hc Hs]. split; [|by apply IH].
    revert Hc. destruct c as [[] [] [] [] [] [] [] []]; vm_compute; first [reflexivity | discriminate]. }
  apply Hl. unfold TrimSuffix, CutSuffix. destruct (HasSuffix x ".") eqn:Hs; cbn; [|done].
  apply HasSuffix_spec in Hs as [t ->]. rewrite str_length_app, Nat.add_sub, str_take_app.
  unfold cert_name in Hx. rewrite all_bytes_app in Hx. by apply andb_true_iff in Hx as [? _].
Qed.

Lemma cert_name_no_bar x : cert_name x → index_byte x "|" = None.
Proof.
  unfold cert_name. induction x as [|c x IH]; cbn; [done|]. intros [Hc Hx]%andb_true_iff.
  destruct (Ascii.eqb_spec c "|") as [->|]; [done|]. by rewrite IH.
Qed.

(** ** The provider of a name *)

Definition zone_matches (candidate zone : string) : bool :=
  String.eqb candidate zone || HasSuffix candidate ("." +:+ zone).

Lemma better_zones candidate l :
  let best := foldr (better_zone candidate) ("", "") l in
  (best = ("", "") ∨ best ∈ l ∧ zone_matches candidate best.1 = true) ∧
  (∀ zp, zp ∈ l → zone_matches candidate zp.1 = true → str_len zp.1 ≤ str_len best.1).
Proof.
  induction l as [|[z p] l [IH1 IH2]]; [split; [by left|set_solver]|]. cbn [foldr].
  set (best := foldr _ _ l) in *.
  assert (Hstep : better_zone candidate (z, p) best =
    if negb (zone_matches candidate z) then best else if str_len best.1 <? str_len z then (z, p) else best).
  { unfold better_zone, zone_matches. by rewrite negb_orb. }
  cbv zeta. rewrite Hstep.
  destruct (zone_matches candidate z) eqn:Hm; cbn.
  - destruct (Z.ltb_spec (str_len best.1) (str_len z)) as [Hlt|Hge]; cbn.
    + split; [right; split; [left|done]|]. intros zp [->|Hin]%elem_of_cons Hz; [done|]. specialize (IH2 zp Hin Hz). lia.
    + split; [destruct IH1 as [?|[??]]; [by left|right; split; [by right|done]]|].
      intros zp [->|Hin]%elem_of_cons Hz; [done|]. by apply IH2.
  - split; [destruct IH1 as [?|[??]]; [by left|right; split; [by right|done]]|].
    intros zp [->|Hin]%elem_of_cons Hz; cbn in *; [congruence|]. by apply IH2.
Qed.

(** The longest mapped zone a name lies in, whatever order the zones are in. *)
Lemma ProviderFor_spec s d provider zone :
  ProviderFor s d = (provider, zone) →
  (zone = "" ∧ provider = psDefault s ∧
     ∀ z p, Zones s !! z = Some p → zone_matches (normalizeZone d) z = true → z = "") ∨
  (zone ≠ "" ∧ Zones s !! zone = Some provider ∧ zone_matches (normalizeZone d) zone = true ∧
     ∀ z p, Zones s !! z = Some p → zone_matches (normalizeZone d) z = true → str_len z ≤ str_len zone).
Proof.
  unfold ProviderFor. destruct (better_zones (normalizeZone d) (map_to_list (Zones s))) as [Hb Hmax]. revert Hb Hmax.
  destruct (foldr _ _ _) as [z p]. cbn. intros Hb Hmax.
  assert (Hlong : ∀ z' p', Zones s !! z' = Some p' → zone_matches (normalizeZone d) z' = true → str_len z' ≤ str_len z).
  { intros z' p' Hz. by apply (Hmax (z', p')), elem_of_map_to_list. }
  destruct (String.eqb_spec z "") as [->|Hne]; cbn; intros [= <- <-].
  - left. repeat split. intros z' p' Hz Hm. specialize (Hlong z' p' Hz Hm). by destruct z'.
  - right. destruct Hb as [?|[Hin Hm]]; [naive_solver|]. apply elem_of_map_to_list in Hin. by repeat split.
Qed.

Lemma ProviderFor_normal s d d' : normalizeZone d = normalizeZone d' → ProviderFor s d = ProviderFor s d'.
Proof. unfold ProviderFor. by intros ->. Qed.

Lemma resolve_key p d :
  (resolveObtainerFrom (selection p) d (dnsObtainer p) (dnsObtainers p)).2 = providerPartitionKey p d.
Proof.
  unfold resolveObtainerFrom, providerPartitionKey. destruct (ProviderFor _ d) as [provider zone].
  by destruct (String.eqb zone "").
Qed.

(** Names of one provider partition have one solver. *)
Lemma resolve_same p d d' :
  providerPartitionKey p d = providerPartitionKey p d' →
  resolveObtainerFrom (selection p) d (dnsObtainer p) (dnsObtainers p) =
  resolveObtainerFrom (selection p) d' (dnsObtainer p) (dnsObtainers p).
Proof.
  unfold resolveObtainerFrom, providerPartitionKey.
  destruct (ProviderFor _ d) as [provider zone], (ProviderFor _ d') as [provider' zone'].
  destruct (String.eqb zone ""), (String.eqb zone' ""); cbn; [done..|]. by intros [= ->].
Qed.

Lemma orderObtainer_same p d ds :
  d ∈ ds → Forall (λ x, providerPartitionKey p x = providerPartitionKey p d) ds →
  orderObtainer p ds = Some (resolveObtainerFrom (selection p) d (dnsObtainer p) (dnsObtainers p)).1.
Proof.
  intros Hin Hall. unfold orderObtainer, orderObtainerFrom. destruct ds as [|x ds]; [set_solver|].
  rewrite Forall_cons in Hall. destruct Hall as [Hx Hall]. rewrite (resolve_same p x d Hx).
  destruct (resolveObtainerFrom (selection p) d (dnsObtainer p) (dnsObtainers p)) as [o key] eqn:Hr.
  rewrite (proj2 (forallb_forall _ _)); [done|]. intros y Hy%list_elem_of_In.
  rewrite Forall_forall in Hall. rewrite (resolve_same p y d (Hall y Hy)), Hr. apply String.eqb_refl.
Qed.

Lemma hasDNSProviderFor_resolve p d :
  hasDNSProviderFor p d = true ↔
  is_Some (resolveObtainerFrom (selection p) d (dnsObtainer p) (dnsObtainers p)).1.
Proof.
  unfold hasDNSProviderFor. rewrite (orderObtainer_same p d [d]); [|set_solver|by repeat constructor].
  destruct (_.1); naive_solver.
Qed.

Lemma hasDNSProviderFor_same p d d' :
  providerPartitionKey p d = providerPartitionKey p d' → hasDNSProviderFor p d = hasDNSProviderFor p d'.
Proof. intros H. apply eq_true_iff_eq. by rewrite !hasDNSProviderFor_resolve, (resolve_same p d d' H). Qed.

(** ** Anchors *)

Lemma addAnchors p ds :
  (∀ a, a ∈ foldl (addAnchor p) [] ds → ∃ w, w ∈ ds ∧ is_wildcard w = true ∧ a = anchorOf p w) ∧
  (∀ w, w ∈ ds → is_wildcard w = true →
     ∃ a, a ∈ foldl (addAnchor p) [] ds ∧ anZone a = normalizeDomainName (str_drop 2 w)).
Proof.
  induction ds as [|d ds [IH1 IH2]] using rev_ind.
  { split; [by intros a ?%not_elem_of_nil|by intros w ?%not_elem_of_nil]. }
  rewrite foldl_app. cbn. set (anchors := foldl _ [] ds) in *. unfold addAnchor.
  assert (Hlift : ∀ a, a ∈ anchors → ∃ w, w ∈ ds ++ [d] ∧ is_wildcard w = true ∧ a = anchorOf p w).
  { intros a Ha. destruct (IH1 a Ha) as (w & Hwin & ?). exists w. rewrite elem_of_app. by auto. }
  destruct (is_wildcard d) eqn:Hd; cbn.
  2:{ split; [exact Hlift|]. intros w [Hw| ->%list_elem_of_singleton]%elem_of_app; [by apply IH2|congruence]. }
  destruct (existsb _ anchors) eqn:Hex.
  - split; [exact Hlift|]. intros w [Hw| ->%list_elem_of_singleton]%elem_of_app Hww; [by apply IH2|].
    apply existsb_exists in Hex as (a & Ha%list_elem_of_In & Hz%String.eqb_eq). by exists a.
  - split.
    + intros a [Ha| ->%list_elem_of_singleton]%elem_of_app; [by apply Hlift|]. exists d.
      rewrite elem_of_app, list_elem_of_singleton. by auto.
    + intros w [Hw| ->%list_elem_of_singleton]%elem_of_app Hww.
      * destruct (IH2 w Hw Hww) as (a & Ha & Hz). exists a. rewrite elem_of_app. by auto.
      * exists (anchorOf p d). split; [by rewrite elem_of_app, list_elem_of_singleton; right|]. unfold anchorOf. by destruct (hasDNSProviderFor p d).
Qed.

Lemma anchorOf_zone p w : anZone (anchorOf p w) = normalizeDomainName (str_drop 2 w).
Proof. unfold anchorOf. by destruct (hasDNSProviderFor p w). Qed.

Lemma anchorOf_solvable p w : anSolvable (anchorOf p w) = hasDNSProviderFor p w.
Proof. unfold anchorOf. by destruct (hasDNSProviderFor p w). Qed.

Lemma anchorOf_provider p w : anProvider (anchorOf p w) = providerPartitionKey p w.
Proof. unfold anchorOf. by destruct (hasDNSProviderFor p w). Qed.

Lemma provider_same_zone p w w' :
  is_wildcard w = true → is_wildcard w' = true → cert_name w → cert_name w' →
  normalizeDomainName (str_drop 2 w) = normalizeDomainName (str_drop 2 w') →
  providerPartitionKey p w = providerPartitionKey p w'.
Proof.
  intros Hw Hw' Hn Hn' Hz. unfold providerPartitionKey.
  rewrite (ProviderFor_normal _ w w'); [done|]. by rewrite !normalizeZone_wildcard.
Qed.

Lemma anchorOf_same p w w' :
  is_wildcard w = true → is_wildcard w' = true → cert_name w → cert_name w' →
  normalizeDomainName (str_drop 2 w) = normalizeDomainName (str_drop 2 w') →
  anchorOf p w = anchorOf p w'.
Proof.
  intros Hw Hw' Hn Hn' Hz. pose proof (provider_same_zone p w w' Hw Hw' Hn Hn' Hz) as Hp.
  unfold anchorOf. by rewrite Hz, Hp, (hasDNSProviderFor_same p w w' Hp).
Qed.

(** What the key of a member of a split says about it. *)
Inductive keyed (p : Planner) (ds : list string) (d k : string) : Prop :=
| keyed_wildcard : is_wildcard d = true → k = anKey (anchorOf p d) → keyed p ds d k
| keyed_inside w :
    is_wildcard d = false → w ∈ ds → is_wildcard w = true → hasDNSProviderFor p w = true →
    providerPartitionKey p w = providerPartitionKey p d →
    zoneContains (normalizeDomainName (str_drop 2 w)) d = true →
    k = anKey (anchorOf p w) → keyed p ds d k
| keyed_provider : is_wildcard d = false → k = providerPartitionKey p d → keyed p ds d k.

Lemma key_spec p ds d :
  Forall cert_name ds → d ∈ ds → keyed p ds d (solvabilityPartitionKey p (wildcardAnchors p ds) d).
Proof.
  intros Hn Hd. destruct (addAnchors p ds) as [Ha1 Ha2]. rewrite Forall_forall in Hn.
  assert (Hanchor : ∀ a, a ∈ wildcardAnchors p ds → ∃ w, w ∈ ds ∧ is_wildcard w = true ∧ a = anchorOf p w).
  { intros a. unfold wildcardAnchors. rewrite insertion_sort_perm. apply Ha1. }
  unfold solvabilityPartitionKey. destruct (is_wildcard d) eqn:Hw.
  - destruct (List.find (λ a, String.eqb (anZone a) (normalizeDomainName (str_drop 2 d)))
      (wildcardAnchors p ds)) as [a|] eqn:Hf.
    + apply find_some in Hf as [Ha%list_elem_of_In Hz%String.eqb_eq].
      destruct (Hanchor a Ha) as (w & Hwin & Hww & ->). rewrite anchorOf_zone in Hz.
      apply keyed_wildcard; [done|]. f_equal. apply anchorOf_same; auto.
    + destruct (Ha2 d Hd Hw) as (a & Ha & Hz). exfalso.
      pose proof (find_none _ _ Hf a) as Hnone. cbn in Hnone. rewrite Hz, String.eqb_refl in Hnone.
      enough (true = false) by done. apply Hnone. apply list_elem_of_In. unfold wildcardAnchors.
      by rewrite insertion_sort_perm.
  - destruct (List.find _ _) as [a|] eqn:Hf; [|by apply keyed_provider].
    apply find_some in Hf as [Ha%list_elem_of_In Hz]. rewrite !andb_true_iff in Hz.
    destruct Hz as [[Hs Hp%String.eqb_eq] Hz]. destruct (Hanchor a Ha) as (w & Hwin & Hww & ->).
    rewrite anchorOf_solvable in Hs. rewrite anchorOf_provider in Hp. rewrite anchorOf_zone in Hz.
    by eapply (keyed_inside _ _ _ _ w).
Qed.

(** The key of a solvable anchor determines its zone and its provider. *)
Lemma solvable_key_inj p w w' :
  cert_name w → cert_name w' → is_wildcard w = true → is_wildcard w' = true →
  hasDNSProviderFor p w = true → anKey (anchorOf p w) = anKey (anchorOf p w') →
  hasDNSProviderFor p w' = true ∧
  normalizeDomainName (str_drop 2 w) = normalizeDomainName (str_drop 2 w') ∧
  providerPartitionKey p w = providerPartitionKey p w'.
Proof.
  intros Hn Hn' Hw Hw' Hs. unfold anchorOf. rewrite Hs. destruct (hasDNSProviderFor p w') eqn:Hs'; cbn [anKey]; [|done].
  assert (Hbar : ∀ x, cert_name x → is_wildcard x = true → index_byte (normalizeDomainName (str_drop 2 x)) "|" = None).
  { intros x Hx Hxw. apply cert_name_no_bar, cert_name_normal.
    rewrite (is_wildcard_spec x Hxw) in Hx. unfold cert_name in *. by rewrite all_bytes_app in Hx. }
  intros Heq%str_app_inv_l.
  assert (Hcut : ∀ x, cert_name x → is_wildcard x = true →
    Cut (normalizeDomainName (str_drop 2 x) +:+ String "|" (providerPartitionKey p x)) "|" =
      Some (normalizeDomainName (str_drop 2 x), providerPartitionKey p x)).
  { intros x Hx Hxw. apply Cut_Some. split; [done|]. by apply Hbar. }
  pose proof (Hcut w Hn Hw) as H1. change (String "|" (providerPartitionKey p w)) with ("|" +:+ providerPartitionKey p w) in H1.
  rewrite Heq in H1. change ("|" +:+ providerPartitionKey p w') with (String "|" (providerPartitionKey p w')) in H1.
  rewrite (Hcut w' Hn' Hw') in H1. by simplify_eq.
Qed.

Lemma provider_key_shape p d : providerPartitionKey p d = "" ∨ ∃ x, providerPartitionKey p d = "zone:" +:+ x.
Proof.
  unfold providerPartitionKey. destruct (ProviderFor _ d) as [provider zone].
  destruct (String.eqb zone ""); [by left|]. right. by exists provider.
Qed.

Lemma anchor_key_not_provider p w d : anKey (anchorOf p w) ≠ providerPartitionKey p d.
Proof.
  unfold anchorOf. destruct (provider_key_shape p d) as [->|[x ->]]; destruct (hasDNSProviderFor p w); done.
Qed.

(** The members of one part of a split share their provider; a wildcard among
    them makes them all lie in its zone. *)
Lemma part_coherent p ds k xs :
  Forall cert_name ds → xs ⊆ ds → Forall (λ d, keyed p ds d k) xs →
  (∀ d d', d ∈ xs → d' ∈ xs → providerPartitionKey p d = providerPartitionKey p d') ∧
  (∀ w, w ∈ xs → is_wildcard w = true →
     ∀ d, d ∈ xs →
       if is_wildcard d then hasDNSProviderFor p d = hasDNSProviderFor p w
       else hasDNSProviderFor p w = true ∧ zoneContains (normalizeDomainName (str_drop 2 w)) d = true).
Proof.
  rewrite !Forall_forall. intros Hn Hsub Hk.
  assert (Hw : ∀ w, w ∈ xs → is_wildcard w = true → k = anKey (anchorOf p w)).
  { intros w Hin Hww. by destruct (Hk w Hin); congruence. }
  assert (Hpair : ∀ w, w ∈ ds → is_wildcard w = true → k = anKey (anchorOf p w) →
    ∀ d, d ∈ xs → providerPartitionKey p w = providerPartitionKey p d ∧
      if is_wildcard d then hasDNSProviderFor p d = hasDNSProviderFor p w
      else hasDNSProviderFor p w = true ∧ zoneContains (normalizeDomainName (str_drop 2 w)) d = true).
  { intros w Hin Hww Hkw d Hd. destruct (Hk d Hd) as [Hdw Hkd|w' Hdw Hin' Hww' Hs Hp Hz Hkd|Hdw Hkd]; rewrite Hdw.
    - rewrite Hkw in Hkd. destruct (hasDNSProviderFor p w) eqn:Hs.
      + destruct (solvable_key_inj p w d) as (Hsd & Hzz & Hpp); auto.
      + destruct (hasDNSProviderFor p d) eqn:Hsd.
        * destruct (solvable_key_inj p d w) as (? & _ & _); auto; congruence.
        * unfold anchorOf in Hkd. rewrite Hs, Hsd in Hkd. cbn [anKey] in Hkd. apply str_app_inv_l in Hkd.
          split; [|done]. apply provider_same_zone; auto.
    - rewrite Hkw in Hkd. destruct (solvable_key_inj p w' w) as (Hsw & Hzz & Hpp); auto.
      rewrite <-Hpp, <-Hzz. auto.
    - exfalso. apply (anchor_key_not_provider p w d). congruence. }
  split; [|intros w Hin Hww d Hd; by apply Hpair; auto].
  intros d d' Hd Hd'. destruct (Hk d Hd) as [Hdw Hkd|w Hdw Hin Hww Hs Hp Hz Hkd|Hdw Hkd].
  - by apply (Hpair d (Hsub _ Hd) Hdw Hkd d' Hd').
  - rewrite <-Hp. by apply (Hpair w Hin Hww Hkd d' Hd').
  - destruct (Hk d' Hd') as [Hdw' Hkd'|w Hdw' Hin Hww Hs Hp Hz Hkd'|Hdw' Hkd'].
    + exfalso. apply (anchor_key_not_provider p d' d). congruence.
    + exfalso. apply (anchor_key_not_provider p w d). congruence.
    + congruence.
Qed.

Lemma outsideWildcardZones_none ds w :
  w ∈ ds → is_wildcard w = true →
  (∀ d, d ∈ ds → is_wildcard d = false → zoneContains (normalizeDomainName (str_drop 2 w)) d = true) →
  outsideWildcardZones ds = "".
Proof.
  intros Hw Hww Hall. unfold outsideWildcardZones. destruct (List.find _ ds) as [d|] eqn:Hf; [|done].
  apply find_some in Hf as [Hd%list_elem_of_In Hout]. apply andb_true_iff in Hout as [Hdw Hout].
  apply negb_true_iff in Hdw, Hout. exfalso. rewrite <-not_true_iff_false in Hout. apply Hout.
  apply existsb_exists. eexists. split; [|exact (Hall d Hd Hdw)]. apply list_elem_of_In, list_elem_of_fmap.
  exists w. split; [done|]. apply list_elem_of_In, filter_In. by rewrite <-list_elem_of_In.
Qed.

(** ** Theorems *)

(** Every part of a split batch is an order some solver can answer.  The
    parts are the batch; none spans DNS providers; and a wildcard is only
    ordered with names inside its zone that its own provider answers for, or,
    where no provider answers for it, with nothing but wildcards that cannot
    be answered either, so that its refusal drags no other name down. *)
Theorem split_orders_answerable p domains :
  Forall cert_name domains →
  concat (splitByProviderZone p domains) ≡ₚ domains ∧
  ∀ part, part ∈ splitByProviderZone p domains →
    is_Some (orderObtainer p part) ∧
    (containsWildcard part = true →
       (∃ s, orderObtainer p part = Some (Some s)) ∧ outsideWildcardZones part = "" ∨
       Forall (λ d, is_wildcard d = true ∧ hasDNSProviderFor p d = false) part).
Proof.
  intros Hn. unfold splitByProviderZone. case_goal.
  - apply andb_true_iff in Heqb as [Hz%negb_true_iff Ha%Nat.eqb_eq]. cbn. rewrite app_nil_r. split; [done|].
    intros part ->%list_elem_of_singleton.
    assert (Hzones : Zones (selection p) = ∅).
    { apply map_size_empty_iff. unfold HasZones in Hz. apply negb_false_iff in Hz. by apply Nat.eqb_eq. }
    assert (Hkey : ∀ d, providerPartitionKey p d = "").
    { intros d. unfold providerPartitionKey, ProviderFor. by rewrite Hzones, map_to_list_empty. }
    split.
    + destruct domains as [|d ds]; [by eexists|]. eexists. apply (orderObtainer_same p d); [left|].
      apply Forall_forall. intros x _. by rewrite !Hkey.
    + intros (w & Hw%list_elem_of_In & Hww)%existsb_exists. exfalso.
      destruct (addAnchors p domains) as [_ Hex]. destruct (Hex w Hw Hww) as (a & Hin & _).
      unfold wildcardAnchors in Ha. rewrite (Permutation_length (insertion_sort_perm _ _)) in Ha.
      apply nil_length_inv in Ha. rewrite Ha in Hin. set_solver.
  - rewrite group_by_perm. split; [done|]. intros part ([k xs] & -> & Hin)%list_elem_of_fmap. cbn.
    pose proof (group_by_key _ _ _ _ Hin) as [Hne Hkeys].
    assert (Hsub : xs ⊆ domains).
    { intros d Hd. rewrite <-(group_by_perm (solvabilityPartitionKey p (wildcardAnchors p domains))).
      apply list_elem_of_In, in_concat. exists xs. split; [|by apply list_elem_of_In].
      apply list_elem_of_In, list_elem_of_fmap. by exists (k, xs). }
    destruct (part_coherent p domains k xs) as [Hprov Hwild]; [done..| |].
    { rewrite Forall_forall in Hkeys |- *. intros d Hd. rewrite <-(Hkeys d Hd). apply key_spec; auto. }
    assert (Horder : ∀ d, d ∈ xs → orderObtainer p xs =
      Some (resolveObtainerFrom (selection p) d (dnsObtainer p) (dnsObtainers p)).1).
    { intros d Hd. apply orderObtainer_same; [done|]. apply Forall_forall. auto. }
    split; [destruct xs as [|d xs]; [done|]; rewrite (Horder d); [eauto|left]|].
    intros (w & Hw%list_elem_of_In & Hww)%existsb_exists. destruct (hasDNSProviderFor p w) eqn:Hs.
    + left. split.
      * rewrite (Horder w Hw). apply hasDNSProviderFor_resolve in Hs as [s ->]. by exists s.
      * apply (outsideWildcardZones_none xs w Hw Hww). intros d Hd Hdw.
        specialize (Hwild w Hw Hww d Hd). rewrite Hdw in Hwild. tauto.
    + right. apply Forall_forall. intros d Hd. specialize (Hwild w Hw Hww d Hd).
      destruct (is_wildcard d); [by rewrite Hwild|destruct Hwild; congruence].
Qed.

(** ** What the planned identifiers cover *)

Lemma wildcardParent_app label parent :
  label ≠ "" → parent ≠ "" → index_byte label "." = None →
  wildcardParent (label +:+ "." +:+ parent) = Some ("*." +:+ parent).
Proof.
  intros Hl Hp Hdot. unfold wildcardParent. change ("." +:+ parent) with (String "." parent).
  rewrite (proj2 (Cut_Some _ "." label parent)) by done.
  apply String.eqb_neq in Hl, Hp. by rewrite Hl, Hp.
Qed.

Lemma matches_wildcard_app label parent :
  label ≠ "" → parent ≠ "" → index_byte label "." = None →
  matchesWildcard ("*." +:+ parent) (label +:+ "." +:+ parent) = true.
Proof.
  intros. unfold matchesWildcard. rewrite wildcardParent_app by done.
  unfold is_wildcard. rewrite HasPrefix_app. apply String.eqb_refl.
Qed.

Lemma no_dot_label s : Contains s "." = false → index_byte s "." = None.
Proof. rewrite Contains_byte. unfold has_byte. by destruct (index_byte s "."). Qed.

Lemma identifiersCover_spec ids d :
  identifiersCover ids d = true ↔ ∃ i, i ∈ ids ∧ (i = d ∨ matchesWildcard i d = true).
Proof.
  unfold identifiersCover. rewrite existsb_exists. split.
  - intros (i & Hi%list_elem_of_In & [->%String.eqb_eq|Hm]%orb_true_iff); eauto.
  - intros (i & Hi & [<-|Hm]); exists i; (split; [by apply list_elem_of_In|]).
    + by rewrite String.eqb_refl.
    + rewrite Hm. apply orb_true_r.
Qed.

Lemma planIdentifier_spec p held d :
  normalizeDomainName d = d →
  let i := planIdentifier p held d in
  i = d ∨
  matchesWildcard i d = true ∧ held i = false ∧ hasDNSProviderFor p i = true ∧
  ∃ zone provider, i = "*." +:+ zone ∧ Zones (selection p) !! zone = Some provider.
Proof.
  intros Hnorm. unfold planIdentifier. destruct (negb _); [by left|].
  destruct (mappedZoneWildcard p d) as [w|] eqn:Hw; [|by left]. destruct (held w) eqn:Hheld; [by left|right].
  unfold mappedZoneWildcard in Hw. destruct (is_wildcard d); [done|].
  destruct (ProviderFor (selection p) d) as [provider zone] eqn:Hp. destruct (String.eqb_spec zone "") as [|Hz]; [done|].
  destruct (CutSuffix _ _) as [label|] eqn:Hcut; [|done]. rewrite Hnorm in Hcut. apply CutSuffix_Some in Hcut.
  destruct (String.eqb_spec label "") as [|Hl]; [done|]. cbn [orb] in Hw. destruct (Contains label ".") eqn:Hdot; [done|].
  destruct (hasDNSProviderFor p _) eqn:Hdns; [|done]. injection Hw as <-.
  apply ProviderFor_spec in Hp as [[-> _]|(_ & Hzone & _)]; [done|].
  split; [|eauto 6]. rewrite Hcut. apply matches_wildcard_app; [done..|]. by apply no_dot_label.
Qed.

Lemma fold_add_new {A} (f : A → string) ds x :
  x ∈ foldl (λ l d, add_new l (f d)) [] ds ↔ ∃ d, d ∈ ds ∧ x = f d.
Proof.
  induction ds as [|d ds IH] using rev_ind; [set_solver|]. rewrite foldl_app. cbn. unfold add_new at 1.
  destruct (str_contains _ (f d)) eqn:Hc.
  - apply str_contains_spec in Hc. set_solver.
  - set_solver.
Qed.

Lemma fold_add_new_NoDup {A} (f : A → string) ds : NoDup (foldl (λ l d, add_new l (f d)) [] ds).
Proof.
  induction ds as [|d ds IH] using rev_ind; [constructor|]. rewrite foldl_app. cbn. unfold add_new at 1.
  destruct (str_contains _ (f d)) eqn:Hc; [done|]. apply NoDup_app. split; [done|split; [|apply NoDup_singleton]].
  intros x Hx ->%list_elem_of_singleton. apply not_true_iff_false in Hc. by apply Hc, str_contains_spec.
Qed.

(** A planned identifier is the name, or a wildcard that is not held back. *)
Lemma planIdentifier_shape p held d :
  planIdentifier p held d = d ∨ is_wildcard (planIdentifier p held d) = true ∧ held (planIdentifier p held d) = false.
Proof.
  unfold planIdentifier. destruct (negb _); [by left|].
  destruct (mappedZoneWildcard p d) as [w|] eqn:Hw; [|by left]. destruct (held w) eqn:Hheld; [by left|right].
  split; [|done]. unfold mappedZoneWildcard in Hw. revert Hw. repeat case_match; intros; simplify_eq.
  unfold is_wildcard. apply HasPrefix_app.
Qed.

Lemma planned_identifier p held ds d :
  d ∈ ds → planDynamicIdentifiers p held ds !! d = Some (planIdentifier p held d).
Proof.
  intros Hd. unfold planDynamicIdentifiers. apply elem_of_list_to_map_1'; [|set_solver].
  intros y Hy. apply list_elem_of_fmap in Hy as (d' & [= <- ->] & _). done.
Qed.

(** Collapsing dynamic names into wildcards never loses a name and never
    reaches for a zone the operator did not map.  Every name of a batch is
    covered by a planned identifier; every planned identifier is one of the
    names, or the wildcard of an explicitly mapped zone whose solver is there,
    that is not held back, and that covers one of the names. *)
Theorem dynamic_plan_covers p held ds :
  Forall (λ d, normalizeDomainName d = d) ds →
  (∀ d, d ∈ ds → identifiersCover (planDynamicIssuance p held ds) d = true) ∧
  (∀ i, i ∈ planDynamicIssuance p held ds →
     i ∈ ds ∨
     held i = false ∧ hasDNSProviderFor p i = true ∧
     (∃ d, d ∈ ds ∧ matchesWildcard i d = true) ∧
     ∃ zone provider, i = "*." +:+ zone ∧ Zones (selection p) !! zone = Some provider).
Proof.
  intros Hn. rewrite Forall_forall in Hn.
  assert (Hplan : ∀ i, i ∈ planDynamicIssuance p held ds ↔ ∃ d, d ∈ ds ∧ i = planIdentifier p held d).
  { intros i. unfold planDynamicIssuance. cbv zeta. rewrite fold_add_new. split; intros (d & Hd & ->); exists d.
    - by rewrite (planned_identifier p held ds d Hd).
    - by rewrite (planned_identifier p held ds d Hd). }
  split.
  - intros d Hd. apply identifiersCover_spec. exists (planIdentifier p held d).
    split; [by apply Hplan; exists d|]. destruct (planIdentifier_spec p held d (Hn d Hd)) as [?|(?&_)]; auto.
  - intros i (d & Hd & ->)%Hplan. destruct (planIdentifier_spec p held d (Hn d Hd)) as [->|(? & ? & ? & ?)]; [by left|].
    right. eauto 10.
Qed.

Section plans.
Context `{!PublicSuffix, !PublicSuffixSpec, !SortFunc, !SortFuncSpec}.

Definition root_of (d : string) : string := default d (EffectiveTLDPlusOne d).

Lemma root_of_spec d : root_of d = d ∨ root_of d ≠ "" ∧ ∃ sub, sub ≠ "" ∧ d = sub +:+ "." +:+ root_of d.
Proof.
  unfold root_of. destruct (EffectiveTLDPlusOne d) as [r|] eqn:Hr; [|by left].
  destruct (etld_suffix d r Hr) as [Hne [->|Hsub]]; [by left|by right].
Qed.

(** What the first loop of [AnalyzeDomains] knows of a group. *)
Record group_ok (ds : list string) (root : string) (g : DomainGroup) : Prop := {
  gk_root : RootDomain g = root;
  gk_wildcard : WildcardDomain g = "";
  gk_full d : d ∈ FullDomains g ↔ d ∈ ds ∧ root_of d = root;
  gk_apex : IncludesApex g = true ↔ root ∈ FullDomains g;
  gk_subs s : s ∈ Subdomains g ↔ ∃ d, d ∈ FullDomains g ∧ d ≠ root ∧ s = TrimSuffix d ("." +:+ root) }.

Lemma rootGroups_ok ds :
  Forall (λ d, is_wildcard d = false) ds →
  (∀ root g, rootGroups ds !! root = Some g → group_ok ds root g) ∧
  (∀ d, d ∈ ds → is_Some (rootGroups ds !! root_of d)).
Proof.
  unfold rootGroups. induction ds as [|d ds IH] using rev_ind; intros Hw.
  { split; [intros root g; cbn; by rewrite lookup_empty|by intros d Hd%not_elem_of_nil]. }
  apply Forall_app in Hw as [Hw Hd]. rewrite Forall_singleton in Hd.
  destruct (IH Hw) as [IH1 IH2]. clear IH. rewrite foldl_app. cbn [foldl]. revert IH1 IH2. generalize (foldl addDomain ∅ ds). intros groups IH1 IH2.
  unfold addDomain. rewrite Hd. fold (root_of d).
  assert (Hg : group_ok ds (root_of d) (default (newGroup (root_of d)) (groups !! root_of d))).
  { destruct (groups !! root_of d) as [g|] eqn:Hg; cbn; [by apply IH1|].
    assert (Hnone : ∀ x, x ∈ ds → root_of x = root_of d → False).
    { intros x Hx Hr. destruct (IH2 x Hx) as [g' Hg']. congruence. }
    split; cbn; try done; intros; set_solver. }
  revert Hg. generalize (default (newGroup (root_of d)) (groups !! root_of d)). intros g [Hr Hwd Hfull Hapex Hsubs].
  split.
  2:{ intros x [Hx| ->%list_elem_of_singleton]%elem_of_app; [|rewrite lookup_insert_eq; by eexists].
      destruct (decide (root_of x = root_of d)) as [->|Hne]; [rewrite lookup_insert_eq; by eexists|].
      rewrite lookup_insert_ne by done. by apply IH2. }
  intros root g'. destruct (decide (root = root_of d)) as [->|Hne].
  - rewrite lookup_insert_eq. intros [= <-]. destruct (String.eqb_spec d (root_of d)) as [Heq|Hneq].
    + split; cbn; [done..| | |].
      * intros x. rewrite elem_of_app, list_elem_of_singleton, Hfull, elem_of_app, list_elem_of_singleton. naive_solver.
      * split; [|done]. intros _. apply elem_of_app. right. apply list_elem_of_singleton. congruence.
      * intros s. rewrite Hsubs. setoid_rewrite elem_of_app. setoid_rewrite list_elem_of_singleton.
        split; [naive_solver|]. intros (x & [Hx| ->] & Hxr & ->); [by exists x|congruence].
    + split; cbn; [done..| | |].
      * intros x. rewrite elem_of_app, list_elem_of_singleton, Hfull, elem_of_app, list_elem_of_singleton. naive_solver.
      * rewrite elem_of_app, list_elem_of_singleton, Hapex. naive_solver.
      * intros s. rewrite elem_of_app, list_elem_of_singleton, Hsubs.
        setoid_rewrite elem_of_app. setoid_rewrite list_elem_of_singleton. naive_solver.
  - rewrite lookup_insert_ne by done. intros Hg'. destruct (IH1 root g' Hg') as [Hr' Hwd' Hfull' Hapex' Hsubs'].
    split; [done..| |done|done]. intros x. rewrite Hfull', elem_of_app, list_elem_of_singleton. naive_solver.
Qed.

Lemma planGroup_spec p ds root g :
  1 ≤ MinSubdomainsForWildcard (grouper p) → Forall (λ d, is_wildcard d = false) ds → group_ok ds root g →
  let planned := planGroup p ds (determineStrategy (grouper p) g) in
  (∀ d, d ∈ FullDomains g → identifiersCover planned d = true) ∧
  (∀ i, i ∈ planned → i ∈ ds ∨ is_wildcard i = true ∧ hasDNSProviderFor p i = true ∧ PreferWildcard (grouper p) = true ∧
                   ∃ d, d ∈ ds ∧ matchesWildcard i d = true).
Proof.
  intros Hmin Hw [Hroot Hwd Hfull Hapex Hsubs]. rewrite Forall_forall in Hw. cbv zeta.
  assert (Hself : (∀ d, d ∈ FullDomains g → identifiersCover (FullDomains g) d = true) ∧
    (∀ i, i ∈ FullDomains g → i ∈ ds)).
  { split; [intros d Hd; apply identifiersCover_spec; eauto|]. intros i Hi. by apply Hfull in Hi as [??]. }
  assert (Hplain : ∀ s, s ≠ StrategyWildcard → planGroup p ds (with_strategy s (WildcardDomain g) g) = FullDomains g).
  { intros s Hs. unfold planGroup, GetDomainsForCert. cbn. rewrite (bool_decide_false (s = _)) by done. by destruct s. }
  unfold determineStrategy. rewrite Hwd. cbn [String.eqb negb].
  destruct (_ && _) eqn:Hauto.
  2:{ rewrite <-Hwd. case_goal; rewrite Hplain by done; destruct Hself; (split; [done|]); intros i Hi; left; auto. }
  rewrite !andb_true_iff in Hauto. destruct Hauto as [[[_ Hprefer] Hsingle] Hmany%Z.leb_le].
  unfold planGroup. cbn [Strategy WildcardDomain FullDomains with_strategy].
  rewrite bool_decide_true by done. cbn [andb].
  destruct (str_contains ds _) eqn:Hc.
  { apply str_contains_spec, Hw in Hc. unfold is_wildcard in Hc. by rewrite HasPrefix_app in Hc. }
  cbn [negb andb]. destruct (hasDNSProviderFor p _) eqn:Hdns; cbn [negb].
  2:{ destruct Hself; (split; [done|]); intros i Hi; left; auto. }
  unfold GetDomainsForCert. cbn [Strategy WildcardDomain IncludesApex RootDomain with_strategy]. rewrite Hroot in *.
  assert (Hcover : ∀ d, d ∈ FullDomains g → d ≠ root → matchesWildcard ("*." +:+ root) d = true).
  { intros d Hd Hne. destruct (proj1 (Hfull d) Hd) as [Hdin Hr].
    destruct (root_of_spec d) as [Heq|(Hrne & sub & Hsub & Heq)]; rewrite Hr in *; [congruence|].
    rewrite Heq. apply matches_wildcard_app; [done..|]. apply no_dot_label.
    assert (Hin : sub ∈ Subdomains g).
    { apply Hsubs. exists d. split; [done|split; [done|]]. unfold TrimSuffix.
      rewrite (proj2 (CutSuffix_Some d ("." +:+ root) sub)); done. }
    rewrite forallb_forall in Hsingle. apply negb_true_iff, Hsingle, list_elem_of_In, Hin. }
  split.
  - intros d Hd. apply identifiersCover_spec. destruct (decide (d = root)) as [->|Hne].
    + rewrite (proj2 Hapex Hd). exists root. split; [right; left|by left].
    + exists ("*." +:+ root). split; [left|right; auto].
  - intros i [->|Hi]%elem_of_cons.
    + right. split; [unfold is_wildcard; apply HasPrefix_app|]. split; [done|]. split; [done|].
      destruct (Subdomains g) as [|s subs] eqn:Hs; [cbn in *; lia|].
      destruct (proj1 (Hsubs s)) as (d & Hd & Hne & _); [left|]. exists d. split; [by apply Hself|auto].
    + left. destruct (IncludesApex g); [|by apply not_elem_of_nil in Hi].
      apply list_elem_of_singleton in Hi as ->. by apply Hself, Hapex.
Qed.

(** Planning the hosts registered by deploys never loses one.  Where no
    host is itself a wildcard, every host of a batch is covered by a planned
    identifier, in whatever order the groups come up; and every planned
    identifier is one of the hosts, or a wildcard that some DNS provider
    answers for and that covers one of them. *)
Theorem issuance_plan_covers order p ds :
  1 ≤ MinSubdomainsForWildcard (grouper p) → Forall (λ d, is_wildcard d = false) ds →
  order ≡ₚ elements (dom (rootGroups ds)) →
  (∀ d, d ∈ ds → identifiersCover (planIssuanceDomains order p ds) d = true) ∧
  (∀ i, i ∈ planIssuanceDomains order p ds →
     i ∈ ds ∨ is_wildcard i = true ∧ hasDNSProviderFor p i = true ∧ PreferWildcard (grouper p) = true ∧
              ∃ d, d ∈ ds ∧ matchesWildcard i d = true).
Proof.
  intros Hmin Hw Horder.
  assert (Hself : (∀ d, d ∈ ds → identifiersCover ds d = true) ∧ (∀ i, i ∈ ds → i ∈ ds)).
  { split; [|done]. intros d Hd. apply identifiersCover_spec. eauto. }
  unfold planIssuanceDomains. case_goal; [split; [apply Hself|auto]|].
  case_goal; [split; [apply Hself|auto]|]. clear Heqb Heqb0.
  destruct (rootGroups_ok ds Hw) as [Hok Hall].
  assert (Hgroups : ∀ g', g' ∈ Groups (AnalyzeDomains order (grouper p) ds) ↔
    ∃ root g, rootGroups ds !! root = Some g ∧ g' = determineStrategy (grouper p) g).
  { intros g'. unfold AnalyzeDomains. destruct ds as [|d0 ds0]; [split; [by intros ?%not_elem_of_nil|]|].
    { intros (root & g & Hg & _). cbn in Hg. by rewrite lookup_empty in Hg. }
    cbn [length Nat.eqb Groups]. rewrite sort_func_perm. rewrite list_elem_of_fmap. split.
    - intros (g & -> & (root & _ & Hg)%list_elem_of_omap). eauto.
    - intros (root & g & Hg & ->). exists g. split; [done|]. apply list_elem_of_omap. exists root.
      split; [|done]. rewrite Horder. apply elem_of_elements, elem_of_dom. eauto. }
  assert (Hplan : ∀ i, i ∈ concat (planGroup p ds <$> Groups (AnalyzeDomains order (grouper p) ds)) ↔
    ∃ root g, rootGroups ds !! root = Some g ∧ i ∈ planGroup p ds (determineStrategy (grouper p) g)).
  { intros i. rewrite list_elem_of_In, in_concat. split.
    - intros (l & Hl%list_elem_of_In & Hi%list_elem_of_In). apply list_elem_of_fmap in Hl as (g' & -> & Hg').
      apply Hgroups in Hg' as (root & g & Hg & ->). eauto.
    - intros (root & g & Hg & Hi). eexists. split; [|by apply list_elem_of_In].
      apply list_elem_of_In, list_elem_of_fmap. eexists. split; [done|]. apply Hgroups. eauto. }
  split.
  - intros d Hd. destruct (Hall d Hd) as [g Hg].
    destruct (planGroup_spec p ds _ g Hmin Hw (Hok _ _ Hg)) as [Hcov _].
    specialize (Hcov d). rewrite (gk_full _ _ _ (Hok _ _ Hg)) in Hcov. apply identifiersCover_spec in Hcov as (i & Hi & Hm); [|auto].
    apply identifiersCover_spec. exists i. split; [|done]. apply Hplan. eauto.
  - intros i (root & g & Hg & Hi)%Hplan.
    destruct (planGroup_spec p ds _ g Hmin Hw (Hok _ _ Hg)) as [_ Hids]. by apply Hids.
Qed.
End plans.

(** ** Witnesses *)

Module CertPlanExamples.

(** The last two labels of a name are what is registered. *)
Definition two_labels (d : string) : option string :=
  match rev (Split d ".") with
  | tld :: name :: _ =>
      let r := name +:+ "." +:+ tld in
      if negb (String.eqb r "") && (String.eqb d r || (HasSuffix d ("." +:+ r) && negb (HasPrefix d ("." +:+ r))))
      then Some r else None
  | _ => None
  end.

Lemma two_labels_spec : @PublicSuffixSpec two_labels.
Proof.
  intros d r. unfold EffectiveTLDPlusOne, two_labels. destruct (rev (Split d ".")) as [|tld [|name ls]]; [done..|].
  destruct (_ && _) eqn:Hc; [|done]. intros [= <-]. apply andb_true_iff in Hc as [Hne Hc].
  split; [by apply String.eqb_neq, negb_true_iff|]. apply orb_true_iff in Hc as [->%String.eqb_eq|Hc]; [by left|right].
  apply andb_true_iff in Hc as [[sub ->]%HasSuffix_spec Hp]. exists sub. split; [|done]. intros ->.
  by rewrite HasPrefix_refl in Hp.
Qed.

(** [example.com] is mapped to a provider, everything else to HTTP-01. *)
Definition mapped : Planner :=
  mkPlanner (mkSelection "" {["example.com" := "cloudflare"]}) None {["cloudflare" := "dns:cloudflare"]}
    (mkGrouper 2 true true).

Definition batch : list string := ["*.example.com"; "*.other.net"; "api.other.net"; "deep.app.example.com"; "example.com"].

Lemma split_orders_answerable_witness :
  splitByProviderZone mapped batch =
    [["*.example.com"; "deep.app.example.com"; "example.com"]; ["*.other.net"]; ["api.other.net"]] ∧
  concat (splitByProviderZone mapped batch) ≡ₚ batch.
Proof.
  split; [vm_compute; reflexivity|]. apply (split_orders_answerable mapped batch).
  repeat constructor; vm_compute; reflexivity.
Defined.

Lemma dynamic_plan_covers_witness :
  planDynamicIssuance mapped (λ _, false) ["a.example.com"; "b.example.com"; "x.y.example.com"; "t.other.net"] =
    ["*.example.com"; "x.y.example.com"; "t.other.net"] ∧
  identifiersCover (planDynamicIssuance mapped (λ _, false)
    ["a.example.com"; "b.example.com"; "x.y.example.com"; "t.other.net"]) "b.example.com" = true.
Proof.
  split; [vm_compute; reflexivity|].
  apply (dynamic_plan_covers mapped (λ _, false) ["a.example.com"; "b.example.com"; "x.y.example.com"; "t.other.net"]).
  - repeat constructor; vm_compute; reflexivity.
  - right. left.
Defined.

Definition hosts : list string := ["a.example.com"; "b.example.com"; "example.com"; "www.other.net"].
Definition roots : list string := ["other.net"; "example.com"].

Lemma issuance_plan_covers_witness :
  @planIssuanceDomains two_labels insertion_SortFunc roots mapped hosts =
    ["*.example.com"; "example.com"; "www.other.net"] ∧
  identifiersCover (@planIssuanceDomains two_labels insertion_SortFunc roots mapped hosts) "b.example.com" = true.
Proof.
  split; [vm_compute; reflexivity|].
  apply (@issuance_plan_covers two_labels two_labels_spec insertion_SortFunc insertion_SortFuncSpec roots mapped hosts).
  - vm_compute. discriminate.
  - repeat constructor.
  - apply (bool_decide_unpack _). vm_compute. exact I.
  - right. left.
Defined.

(** A host that is a wildcard itself swallows the deeper names of its batch:
    they are in no identifier that is ordered. *)
Lemma wildcard_host_swallows :
  let planned := @planIssuanceDomains two_labels insertion_SortFunc ["example.com"] mapped
                   ["*.example.com"; "a.b.example.com"] in
  planned = ["*.example.com"] ∧ identifiersCover planned "a.b.example.com" = false.
Proof. vm_compute. split; reflexivity. Qed.

End CertPlanExamples.
