(* ===== verification/DomainFailure.v ===== *)
(** * Who is to blame for a failed order: [internal/server/domain_failure.go]

    An order names several domains; when it fails, the ones responsible are
    read off the error where it names them, found by probing otherwise, and are
    all of them where neither can tell.  Errors are trees, as [errors.Unwrap]
    sees them; the retry time a rate limit advertises in its text (two regular
    expressions and the layouts of [time.Parse]) is an argument. *)
From S2P Require Import Prelude GoStrings CertPlan.

(** ** Errors *)

(** [acme.ProblemDetails]: what the code reads of it. *)
Record ProblemDetails := mkProblem {
  pdType : string;
  pdDetail : string;
  pdSubProblems : list string;          (** the identifiers of the subproblems *)
  pdText : string }.

#[warnings="-register-all"]
Inductive OrderError :=
| ErrProblem (d : ProblemDetails)
| ErrMulti (text : string) (branches : list OrderError)
| ErrWrap (text : string) (next : OrderError)
| ErrPlain (text : string).

(** [err.Error()]. *)
Definition errorText (e : OrderError) : string :=
  match e with
  | ErrProblem d => pdText d
  | ErrMulti text _ | ErrWrap text _ | ErrPlain text => text
  end.

Definition acmeRateLimitedProblem : string := "urn:ietf:params:acme:error:rateLimited".

(** [rateLimitedProblems]: [None] unless every branch is a rate limit. *)
Fixpoint rateLimitedProblems (e : OrderError) : option (list ProblemDetails) :=
  match e with
  | ErrProblem d => if String.eqb (pdType d) acmeRateLimitedProblem then Some [d] else None
  | ErrMulti _ [] => None
  | ErrMulti _ branches =>
      (fix all (branches : list OrderError) : option (list ProblemDetails) :=
         match branches with
         | [] => Some []
         | b :: branches =>
             found ← rateLimitedProblems b;
             rest ← all branches;
             Some (found ++ rest)
         end) branches
  | ErrWrap _ next => rateLimitedProblems next
  | ErrPlain _ => None
  end.

(** [acmeRateLimit]; [None] is the zero time. *)
Record acmeRateLimit := mkLimit {
  identifiers : list string;
  retryAfter : option Z }.

Definition plausibleHostname (name : string) : bool :=
  if String.eqb name "" || any_byte (λ c, Ascii.eqb c " " || Ascii.eqb c "/" || Ascii.eqb c ":") name
  then false else Contains name ".".

Definition quote : ascii := "034"%char.

(** What [quotedNamePattern] finds: every non-empty quoted text, each match
    starting after the one before.  One byte a round: the length is enough. *)
Fixpoint quoted_names (fuel : nat) (s : string) : list string :=
  match fuel, s with
  | S fuel, String c s =>
      if Ascii.eqb c quote
      then match Cut s quote with
           | Some ("", _) => quoted_names fuel s
           | Some (name, rest) => name :: quoted_names fuel rest
           | None => []
           end
      else quoted_names fuel s
  | _, _ => []
  end.

Section failure.
Context `{!SortFunc}.
Variable retry_after_in : string → option Z.

Definition add_identifier (ids : list string) (name : string) : list string :=
  if plausibleHostname name then add_new ids name else ids.

(** One problem of the loop of [parseRateLimited]. *)
Definition add_problem (l : acmeRateLimit) (d : ProblemDetails) : acmeRateLimit :=
  let ids := foldl add_identifier (identifiers l) (pdSubProblems d) in
  let ids := foldl add_identifier ids (quoted_names (String.length (pdDetail d)) (pdDetail d)) in
  mkLimit ids
    match retry_after_in (pdDetail d), retryAfter l with
    | Some parsed, Some t => Some (if t <? parsed then parsed else t)
    | Some parsed, None => Some parsed
    | None, t => t
    end.

Definition parseRateLimited (e : OrderError) : option acmeRateLimit :=
  problems ← rateLimitedProblems e;
  Some (foldl add_problem (mkLimit [] None)
          (sort_func (λ a b, Compare (pdDetail a) (pdDetail b)) problems)).

(** [rateLimitedDomains]: exact members, and only when there are none the
    members below an identifier. *)
Definition rateLimitedDomains (l : acmeRateLimit) (domains : list string) : list string :=
  let failed := List.filter (λ d, existsb (λ i, String.eqb d i || String.eqb d ("*." +:+ i)) (identifiers l)) domains in
  if negb (Nat.eqb (length failed) 0) then failed
  else List.filter (λ d, existsb (λ i, HasSuffix d ("." +:+ i)) (identifiers l)) domains.

Definition newline : ascii := "010"%char.

Definition failedDomainsFromError (e : OrderError) (domains : list string) : list string :=
  let lines := Split (errorText e) newline in
  List.filter (λ d, existsb (λ line, HasPrefix (TrimSpace line) (d +:+ ": ")) lines) domains.

(** [probeDomains]: [preflight] is what the probe of each domain answers
    ([true]: it routes here), [None] when there is no probe.  The probes run
    concurrently; what they find does not depend on their order. *)
Definition probeDomains (domains : list string) (preflight : option (string → bool)) (unprobeable : string → bool)
  : list string :=
  match preflight with
  | None => []
  | Some ok => List.filter (λ d, negb (is_wildcard d) && negb (unprobeable d) && negb (ok d)) domains
  end.

Definition identifyFailedDomains (e : OrderError) (domains : list string) (preflight : option (string → bool))
    (unprobeable : string → bool) : list string :=
  let failed := failedDomainsFromError e domains in
  if negb (Nat.eqb (length failed) 0) then failed
  else
    let failed := probeDomains domains preflight unprobeable in
    if negb (Nat.eqb (length failed) 0) then failed else domains.

(** ** Lemmas *)

Lemma length_zero {A} (l : list A) : negb (Nat.eqb (length l) 0) = false → l = [].
Proof. destruct l; [done|]. cbn. done. Qed.

Lemma filter_sub {A} (f : A → bool) l x : x ∈ List.filter f l → x ∈ l.
Proof. rewrite !list_elem_of_In, filter_In. tauto. Qed.

Lemma rateLimitedDomains_sub l ds d : d ∈ rateLimitedDomains l ds → d ∈ ds.
Proof. unfold rateLimitedDomains. case_goal; apply filter_sub. Qed.

Lemma failedDomainsFromError_sub e ds d : d ∈ failedDomainsFromError e ds → d ∈ ds.
Proof. apply filter_sub. Qed.

Lemma probeDomains_sub ds pre un d : d ∈ probeDomains ds pre un → d ∈ ds.
Proof. unfold probeDomains. destruct pre; [apply filter_sub|set_solver]. Qed.

(** Somebody among the members is always blamed. *)
Lemma identifyFailedDomains_sub e ds pre un :
  (∀ d, d ∈ identifyFailedDomains e ds pre un → d ∈ ds) ∧
  (ds ≠ [] → identifyFailedDomains e ds pre un ≠ []).
Proof.
  unfold identifyFailedDomains. case_goal.
  - split; [intros d; apply failedDomainsFromError_sub|]. intros _ Hnil. by rewrite Hnil in Heqb.
  - case_goal; [|done]. split; [intros d; apply probeDomains_sub|]. intros _ Hnil. by rewrite Hnil in Heqb0.
Qed.

(** Only the identifiers' membership matters to who is blamed. *)
Lemma rateLimitedDomains_ext l l' ds :
  (∀ i, i ∈ identifiers l ↔ i ∈ identifiers l') → rateLimitedDomains l ds = rateLimitedDomains l' ds.
Proof.
  intros Hids. unfold rateLimitedDomains.
  assert (Hex : ∀ f, existsb f (identifiers l) = existsb f (identifiers l')).
  { intros f. apply eq_true_iff_eq. rewrite !existsb_exists. setoid_rewrite <-list_elem_of_In.
    split; intros (i & Hi & Hf); exists i; by rewrite Hids in *. }
  assert (Hfil : ∀ g : string → string → bool,
    List.filter (λ d, existsb (g d) (identifiers l)) ds = List.filter (λ d, existsb (g d) (identifiers l')) ds).
  { intros g. apply filter_ext. intros d. apply Hex. }
  pose proof (Hfil (λ d i, String.eqb d i || String.eqb d ("*." +:+ i))) as H1.
  pose proof (Hfil (λ d i, HasSuffix d ("." +:+ i))) as H2. cbv beta in H1, H2. by rewrite H1, H2.
Qed.

(** ** The order of the branches *)

(** The same error with the members of a set, somewhere under wraps, in
    another order: what ranging over lego's map can change. *)
Inductive reordered : OrderError → OrderError → Prop :=
| reordered_multi text text' bs bs' : bs ≡ₚ bs' → reordered (ErrMulti text bs) (ErrMulti text' bs')
| reordered_wrap text text' e e' : reordered e e' → reordered (ErrWrap text e) (ErrWrap text' e').

Definition all_problems (bs : list OrderError) : option (list ProblemDetails) :=
  foldr (λ b acc, found ← rateLimitedProblems b; rest ← acc; Some (found ++ rest)) (Some []) bs.

Lemma rateLimitedProblems_multi text bs :
  rateLimitedProblems (ErrMulti text bs) = if Nat.eqb (length bs) 0 then None else all_problems bs.
Proof.
  by destruct bs.
Qed.

Definition opt_perm {A} (x y : option (list A)) : Prop :=
  match x, y with
  | Some l, Some k => l ≡ₚ k
  | None, None => True
  | _, _ => False
  end.

Lemma all_problems_perm bs bs' : bs ≡ₚ bs' → opt_perm (all_problems bs) (all_problems bs').
Proof.
  unfold all_problems. induction 1 as [|b bs bs' _ IH|b c bs|bs1 bs2 bs3 _ IH1 _ IH2]; cbn; [done| | |].
  - destruct (rateLimitedProblems b) as [l|]; [cbn|done]. revert IH.
    destruct (foldr _ _ bs), (foldr _ _ bs'); cbn; try done. by intros ->.
  - destruct (rateLimitedProblems b) as [l|], (rateLimitedProblems c) as [k|]; cbn; try done;
      destruct (foldr _ _ bs) as [r|]; cbn; try done.
    rewrite !(assoc_L (++)). by rewrite (Permutation_app_comm l k).
  - revert IH1 IH2. unfold opt_perm.
    destruct (foldr _ _ bs1), (foldr _ _ bs2), (foldr _ _ bs3); try done. by intros -> ->.
Qed.

Lemma reordered_problems e e' : reordered e e' → opt_perm (rateLimitedProblems e) (rateLimitedProblems e').
Proof.
  induction 1 as [text text' bs bs' Hbs|text text' e e' _ IH]; [|done]. rewrite !rateLimitedProblems_multi.
  rewrite (Permutation_length Hbs). destruct (Nat.eqb _ 0); [done|]. by apply all_problems_perm.
Qed.

Definition problem_names (d : ProblemDetails) (i : string) : Prop :=
  plausibleHostname i = true ∧ (i ∈ pdSubProblems d ∨ i ∈ quoted_names (String.length (pdDetail d)) (pdDetail d)).

Lemma fold_add_identifier names ids i :
  i ∈ foldl add_identifier ids names ↔ i ∈ ids ∨ plausibleHostname i = true ∧ i ∈ names.
Proof.
  revert ids. induction names as [|n names IH]; intros ids; cbn; [set_solver|]. rewrite IH.
  unfold add_identifier, add_new. destruct (plausibleHostname n) eqn:Hn.
  - destruct (str_contains ids n) eqn:Hc; [apply str_contains_spec in Hc|].
    + rewrite elem_of_cons. split; [tauto|]. intros [?|[? [->|?]]]; auto.
    + rewrite elem_of_app, list_elem_of_singleton, elem_of_cons. split; [|tauto]. intros [[?| ->]|[??]]; auto.
  - rewrite elem_of_cons. split; [tauto|]. intros [?|[? [->|?]]]; auto. congruence.
Qed.

Lemma add_problem_identifiers l d i :
  i ∈ identifiers (add_problem l d) ↔ i ∈ identifiers l ∨ problem_names d i.
Proof. unfold add_problem, problem_names. cbn. rewrite !fold_add_identifier. tauto. Qed.

Lemma add_problems_identifiers ds l i :
  i ∈ identifiers (foldl add_problem l ds) ↔ i ∈ identifiers l ∨ ∃ d, d ∈ ds ∧ problem_names d i.
Proof.
  revert l. induction ds as [|d ds IH]; intros l; cbn; [set_solver|].
  rewrite IH, add_problem_identifiers. setoid_rewrite elem_of_cons. naive_solver.
Qed.

Definition later (t u : option Z) : option Z :=
  match t, u with
  | Some a, Some b => Some (if b <? a then a else b)
  | Some a, None => Some a
  | None, u => u
  end.

Lemma later_comm3 a b u : later a (later b u) = later b (later a u).
Proof.
  assert (Hmax : ∀ x y : Z, (if y <? x then x else y) = Z.max x y) by (intros x y; case_goal; breflect; lia).
  destruct a as [a|], b as [b|], u as [u|]; cbn; rewrite ?Hmax; try done; f_equal; lia.
Qed.

Lemma add_problems_retry ds l :
  retryAfter (foldl add_problem l ds) = foldl (λ t d, later (retry_after_in (pdDetail d)) t) (retryAfter l) ds.
Proof.
  revert l. induction ds as [|d ds IH]; intros l; [done|]. cbn. by rewrite IH.
Qed.

Lemma fold_later_perm ds ds' t :
  ds ≡ₚ ds' →
  foldl (λ t d, later (retry_after_in (pdDetail d)) t) t ds =
  foldl (λ t d, later (retry_after_in (pdDetail d)) t) t ds'.
Proof.
  intros H1. revert t. induction H1 as [|d ds ds' _ IH|d d' ds|ds1 ds2 ds3 _ IH1 _ IH2]; intros t; cbn; [done|auto| |].
  - by rewrite later_comm3.
  - by rewrite IH1.
Qed.
End failure.

(** ** Theorems *)

(** Who is blamed for a rate limit does not depend on the order lego's map
    happens to be ranged in.  Reordering the branches of a failure set keeps
    whether it is a rate limit at all, the advertised retry time, the names it
    blames, and so the members of the order that are held; those are members. *)
Theorem rate_limit_order_independent `{!SortFunc, !SortFuncSpec} retry_after_in e e' domains :
  reordered e e' →
  match parseRateLimited retry_after_in e, parseRateLimited retry_after_in e' with
  | Some l, Some l' =>
      retryAfter l = retryAfter l' ∧ (∀ i, i ∈ identifiers l ↔ i ∈ identifiers l') ∧
      rateLimitedDomains l domains = rateLimitedDomains l' domains ∧
      ∀ d, d ∈ rateLimitedDomains l domains → d ∈ domains
  | None, None => True
  | _, _ => False
  end.
Proof.
  intros Hre%reordered_problems. unfold parseRateLimited, opt_perm in *.
  destruct (rateLimitedProblems e) as [ds|], (rateLimitedProblems e') as [ds'|]; cbn; try done.
  assert (Hids : ∀ i, i ∈ identifiers (foldl (add_problem retry_after_in) (mkLimit [] None)
      (sort_func (λ a b, Compare (pdDetail a) (pdDetail b)) ds)) ↔
    i ∈ identifiers (foldl (add_problem retry_after_in) (mkLimit [] None)
      (sort_func (λ a b, Compare (pdDetail a) (pdDetail b)) ds'))).
  { intros i. rewrite !add_problems_identifiers. setoid_rewrite sort_func_perm. by setoid_rewrite Hre. }
  split; [|split; [exact Hids|split; [by apply rateLimitedDomains_ext|intros d; apply rateLimitedDomains_sub]]].
  rewrite !add_problems_retry. apply fold_later_perm. by rewrite !sort_func_perm.
Qed.

(** ** Witnesses *)

Module FailureExamples.

Definition limited (detail : string) : OrderError :=
  ErrProblem (mkProblem acmeRateLimitedProblem detail ["shop.example"] ("acme: " +:+ detail)).

Definition per_domain : list OrderError := [limited "retry later"; limited "wait a while"].

Definition advertised (detail : string) : option Z :=
  if String.eqb detail "retry later" then Some (5 * hour) else None.

Lemma rate_limit_order_independent_witness :
  let one := ErrWrap "obtain" (ErrMulti "" per_domain) in
  let other := ErrWrap "obtain" (ErrMulti "" (rev per_domain)) in
  @parseRateLimited insertion_SortFunc advertised one = Some (mkLimit ["shop.example"] (Some (5 * hour))) ∧
  match @parseRateLimited insertion_SortFunc advertised one, @parseRateLimited insertion_SortFunc advertised other with
  | Some l, Some l' =>
      retryAfter l = retryAfter l' ∧ (∀ i, i ∈ identifiers l ↔ i ∈ identifiers l') ∧
      rateLimitedDomains l ["shop.example"; "blog.example"] = rateLimitedDomains l' ["shop.example"; "blog.example"] ∧
      ∀ d, d ∈ rateLimitedDomains l ["shop.example"; "blog.example"] → d ∈ ["shop.example"; "blog.example"]
  | None, None => True
  | _, _ => False
  end.
Proof.
  intros one other. split; [vm_compute; reflexivity|].
  apply (@rate_limit_order_independent insertion_SortFunc insertion_SortFuncSpec advertised one other).
  apply reordered_wrap, reordered_multi. apply Permutation_swap.
Defined.

(** One member that is no rate limit makes the set none. *)
Example mixed_set_is_no_limit :
  @parseRateLimited insertion_SortFunc advertised (ErrMulti "" [limited "retry later"; ErrPlain "x"]) = None.
Proof. vm_compute. reflexivity. Qed.

End FailureExamples.
