(* ===== verification/Holds.v ===== *)
(** * Who holds what

    Several components hand out things (domains, identifiers, slots) to tasks
    that run side by side and keep one shared set of what is handed out.  This
    file relates the set to what each holder has. *)
From S2P Require Import Prelude.

Section holds.
Context {H K : Type} `{!EqDecision H} `{Countable K}.
Implicit Types (f g : H → list K) (held : gset K).

(** [f] says what each holder has: nothing twice, nothing shared, and the set
    is exactly what somebody has. *)
Record hold_ok (held : gset K) (f : H → list K) : Prop := {
  ho_nodup h : NoDup (f h);
  ho_unique h h' k : k ∈ f h → k ∈ f h' → h = h';
  ho_held k : k ∈ held ↔ ∃ h, k ∈ f h }.

Lemma hold_ok_ext held f g : (∀ h, f h ≡ₚ g h) → hold_ok held f → hold_ok held g.
Proof.
  intros Heq [Hnd Hu Hh]. split.
  - intros h. by rewrite <-Heq.
  - intros h h' k. rewrite <-!Heq. apply Hu.
  - intros k. rewrite Hh. by setoid_rewrite Heq.
Qed.

Lemma hold_ok_empty f : (∀ h, f h = []) → hold_ok ∅ f.
Proof.
  intros Heq. split.
  - intros h. rewrite Heq. constructor.
  - intros h h' k. rewrite Heq. by intros ?%elem_of_nil.
  - intros k. split; [set_solver|]. intros [h Hk]. rewrite Heq in Hk. by apply elem_of_nil in Hk.
Qed.

Lemma hold_ok_take held held' f g h0 ks :
  hold_ok held f → NoDup ks → (∀ k, k ∈ ks → k ∉ held) →
  g h0 ≡ₚ ks ++ f h0 → (∀ h, h ≠ h0 → g h = f h) →
  (∀ k, k ∈ held' ↔ k ∈ ks ∨ k ∈ held) → hold_ok held' g.
Proof.
  intros [Hnd Hu Hh] Hks Hfresh Hat Hother Hheld'.
  assert (Hin : ∀ h k, k ∈ g h ↔ k ∈ f h ∨ h = h0 ∧ k ∈ ks).
  { intros h k. destruct (decide (h = h0)) as [->|].
    - rewrite Hat, elem_of_app. naive_solver.
    - rewrite Hother by done. naive_solver. }
  assert (Hnew : ∀ h k, k ∈ f h → k ∈ ks → False) by (intros h k ??; apply (Hfresh k); [done|apply Hh; eauto]).
  split.
  - intros h. destruct (decide (h = h0)) as [->|]; [|by rewrite Hother].
    rewrite Hat. apply NoDup_app. split; [done|]. split; [|done]. eauto.
  - intros h h' k. rewrite !Hin. intros [?|[-> ?]] [?|[-> ?]]; eauto; exfalso; eauto.
  - intros k. rewrite Hheld', Hh. setoid_rewrite Hin. naive_solver.
Qed.

Lemma hold_ok_release held held' f g h0 ks :
  hold_ok held f → f h0 ≡ₚ ks ++ g h0 → (∀ h, h ≠ h0 → g h = f h) →
  (∀ k, k ∈ held' ↔ k ∈ held ∧ k ∉ ks) → hold_ok held' g.
Proof.
  intros [Hnd Hu Hh] Hat Hother Hheld'.
  assert (Hin : ∀ h k, k ∈ g h → k ∈ f h).
  { intros h k. destruct (decide (h = h0)) as [->|]; [rewrite Hat; set_solver|by rewrite Hother]. }
  pose proof (Hnd h0) as Hnd0. rewrite Hat in Hnd0. apply NoDup_app in Hnd0 as (_ & Hdisj & Hg0).
  split.
  - intros h. destruct (decide (h = h0)) as [->|]; [done|by rewrite Hother].
  - eauto.
  - intros k. rewrite Hheld', Hh. split.
    + intros [[h Hk] Hks]. exists h. destruct (decide (h = h0)) as [->|]; [|by rewrite Hother].
      rewrite Hat in Hk. set_solver.
    + intros [h Hk]. split; [eauto|]. intros Hks. destruct (decide (h = h0)) as [->|Hne]; [by apply (Hdisj k)|].
      apply Hne, (Hu _ _ k); [by apply Hin|]. rewrite Hat. set_solver.
Qed.

Lemma hold_ok_move held f g h0 h1 :
  hold_ok held f → h0 ≠ h1 → f h1 = [] → g h0 = [] → g h1 ≡ₚ f h0 → (∀ h, h ≠ h0 → h ≠ h1 → g h = f h) →
  hold_ok held g.
Proof.
  intros Hok Hne Hf1 Hg0 Hg1 Hother.
  assert (Hmid : hold_ok (held ∖ list_to_set (f h0)) (λ h, if decide (h = h0) then [] else f h)).
  { apply (hold_ok_release held _ f _ h0 (f h0)); [done| | |].
    - rewrite decide_True by done. by rewrite app_nil_r.
    - intros h ?. by rewrite decide_False.
    - intros k. rewrite elem_of_difference, elem_of_list_to_set. done. }
  apply (hold_ok_take _ held _ g h1 (f h0)) in Hmid; [done|apply (ho_nodup _ _ Hok)| | | |].
  - intros k. set_solver.
  - rewrite decide_False by done. by rewrite Hf1, app_nil_r.
  - intros h ?. destruct (decide (h = h0)) as [->|]; [done|by apply Hother].
  - intros k. rewrite elem_of_difference, elem_of_list_to_set. destruct (decide (k ∈ f h0)) as [Hk|]; [|naive_solver].
    split; [by left|]. intros _. apply (ho_held _ _ Hok). eauto.
Qed.
End holds.
