(* ===== verification/SanCerts.v ===== *)
(** * The certificate manager: [internal/server/san_cert_manager.go],
    [san_cert_dynamic.go], [san_cert_directories.go] and the issuance half of
    [san_cert_issuance.go]

    What the manager knows is one record; every operation under its lock is a
    function on it.  The clock, the digest of a certificate's identifier and
    what a solver answers are arguments; a certificate is its names, its
    validity and the directory that issued it. *)
From S2P Require Import Prelude GoStrings CertPlan DomainFailure Quarantine.

(** ** Data *)

(** [Certificate] is the loaded pair, of which only the leaf's [NotBefore] is
    read; [None] when its files could not be read. *)
Record ManagedCert := mkCert {
  Identifier : string;
  Domains : list string;
  NotAfter : Z;
  Certificate : option Z;
  Directory : string }.

(** One ACME identity: the names of its solvers. *)
Record directoryClients := mkClients {
  httpObtainer : option string;
  dcDNS : option string;
  dcZoned : gmap string string }.

(** [smQuarantine] is the quarantine of the issuance guard, [None] while no
    guard is installed; [provisioning] holds the keys of the batches under
    way.  [smPlanner] has the solvers of the run-level identity. *)
Record SANCertManager := mkManager {
  smDirectory : string;
  HTTPFallback : bool;
  smHTTP : option string;
  smPlanner : Planner;
  ready : bool;
  certificates : gmap string ManagedCert;
  domainToCert : gmap string string;
  pendingDomains : gmap string string;
  registeredDomains : gmap string string;
  dynamicDomains : gmap string string;
  serviceDirectories : gmap string string;
  provisioning : gset string;
  challengeTokens : gmap string (string * string);
  smQuarantine : option (gmap string quarantineEntry) }.

Definition with_certs (certs : gmap string ManagedCert) (d2c : gmap string string) (m : SANCertManager)
  : SANCertManager :=
  mkManager (smDirectory m) (HTTPFallback m) (smHTTP m) (smPlanner m) (ready m) certs d2c (pendingDomains m)
    (registeredDomains m) (dynamicDomains m) (serviceDirectories m) (provisioning m) (challengeTokens m) (smQuarantine m).

Definition with_pending (p : gmap string string) (m : SANCertManager) : SANCertManager :=
  mkManager (smDirectory m) (HTTPFallback m) (smHTTP m) (smPlanner m) (ready m) (certificates m) (domainToCert m) p
    (registeredDomains m) (dynamicDomains m) (serviceDirectories m) (provisioning m) (challengeTokens m) (smQuarantine m).

Definition with_registered (r : gmap string string) (m : SANCertManager) : SANCertManager :=
  mkManager (smDirectory m) (HTTPFallback m) (smHTTP m) (smPlanner m) (ready m) (certificates m) (domainToCert m)
    (pendingDomains m) r (dynamicDomains m) (serviceDirectories m) (provisioning m) (challengeTokens m) (smQuarantine m).

Definition with_dynamic (d : gmap string string) (m : SANCertManager) : SANCertManager :=
  mkManager (smDirectory m) (HTTPFallback m) (smHTTP m) (smPlanner m) (ready m) (certificates m) (domainToCert m)
    (pendingDomains m) (registeredDomains m) d (serviceDirectories m) (provisioning m) (challengeTokens m) (smQuarantine m).

Definition with_directories (s : gmap string string) (m : SANCertManager) : SANCertManager :=
  mkManager (smDirectory m) (HTTPFallback m) (smHTTP m) (smPlanner m) (ready m) (certificates m) (domainToCert m)
    (pendingDomains m) (registeredDomains m) (dynamicDomains m) s (provisioning m) (challengeTokens m) (smQuarantine m).

Definition with_provisioning (p : gset string) (m : SANCertManager) : SANCertManager :=
  mkManager (smDirectory m) (HTTPFallback m) (smHTTP m) (smPlanner m) (ready m) (certificates m) (domainToCert m)
    (pendingDomains m) (registeredDomains m) (dynamicDomains m) (serviceDirectories m) p (challengeTokens m) (smQuarantine m).

Definition with_tokens (t : gmap string (string * string)) (m : SANCertManager) : SANCertManager :=
  mkManager (smDirectory m) (HTTPFallback m) (smHTTP m) (smPlanner m) (ready m) (certificates m) (domainToCert m)
    (pendingDomains m) (registeredDomains m) (dynamicDomains m) (serviceDirectories m) (provisioning m) t (smQuarantine m).

Definition with_quarantine (q : option (gmap string quarantineEntry)) (m : SANCertManager) : SANCertManager :=
  mkManager (smDirectory m) (HTTPFallback m) (smHTTP m) (smPlanner m) (ready m) (certificates m) (domainToCert m)
    (pendingDomains m) (registeredDomains m) (dynamicDomains m) (serviceDirectories m) (provisioning m)
    (challengeTokens m) q.

Definition day : Z := 24 * hour.
Definition MaxSANsPerCertificate : nat := 100.

(** ** What a name is covered by *)

(** [certIDCovering]: [""] when nothing covers it. *)
Definition certIDCovering (m : SANCertManager) (domain : string) : string :=
  match domainToCert m !! domain with
  | Some id => id
  | None =>
      match wildcardParent domain with
      | Some parent => default "" (domainToCert m !! parent)
      | None => ""
      end
  end.

Definition certCovering (m : SANCertManager) (domain : string) : option ManagedCert :=
  if String.eqb (certIDCovering m domain) "" then None else certificates m !! certIDCovering m domain.

Definition coversAllowedDomain (m : SANCertManager) (wildcard : string) : bool :=
  existsb (matchesWildcard wildcard) (map_to_list (registeredDomains m)).*1 ||
  existsb (matchesWildcard wildcard) (map_to_list (dynamicDomains m)).*1.

Definition DomainAllowed (m : SANCertManager) (domain : string) : bool :=
  if is_wildcard domain then coversAllowedDomain m domain
  else bool_decide (is_Some (registeredDomains m !! domain)) || bool_decide (is_Some (dynamicDomains m !! domain)).

Definition coversRegisteredDomain (m : SANCertManager) (identifier : string) : bool :=
  if is_wildcard identifier then existsb (matchesWildcard identifier) (map_to_list (registeredDomains m)).*1
  else bool_decide (is_Some (registeredDomains m !! identifier)).

Definition HasCertificate (m : SANCertManager) (domain : string) : bool :=
  negb (String.eqb (certIDCovering m domain) "").

Definition dynamicOwner (m : SANCertManager) (domain : string) : option string := dynamicDomains m !! domain.

Definition certIDForDomain (m : SANCertManager) (domain : string) : string := default "" (domainToCert m !! domain).

(** ** Directories *)

Definition SetServiceDirectory (service directory : string) (m : SANCertManager) : SANCertManager :=
  with_directories
    (if String.eqb directory "" || String.eqb directory (smDirectory m)
     then delete service (serviceDirectories m) else <[service := directory]> (serviceDirectories m)) m.

Definition directoryForService (m : SANCertManager) (service : string) : string :=
  default (smDirectory m) (serviceDirectories m !! service).

Definition normalizeDirectory (m : SANCertManager) (directory : string) : string :=
  if String.eqb directory "" then smDirectory m else directory.

Definition certMatchesServiceDirectory (m : SANCertManager) (c : ManagedCert) (service : string) : bool :=
  String.eqb (normalizeDirectory m (Directory c)) (directoryForService m service).

(** One name of the scan of [wildcardOwnerLocked]: the smallest one wins. *)
Definition better_owner (m : SANCertManager) (wildcard : string) (c : option ManagedCert) (best : string * string)
    (ds : string * string) : string * string :=
  let '(covered, service) := ds in
  if String.eqb service "" || negb (matchesWildcard wildcard covered) then best
  else if bool_decide (is_Some (pendingDomains m !! covered)) then best
  else if match c with Some c => negb (String.eqb (certIDCovering m covered) (Identifier c)) | None => false end then best
  else if String.eqb best.1 "" || (Compare covered best.1 <? 0) then (covered, service)
  else best.

Definition wildcardOwner (m : SANCertManager) (wildcard : string) (c : option ManagedCert) : option string :=
  let best := foldl (better_owner m wildcard c) ("", "") (map_to_list (registeredDomains m)) in
  let best := foldl (better_owner m wildcard c) best (map_to_list (dynamicDomains m)) in
  if String.eqb best.2 "" then None else Some best.2.

(** An owner named by one of the maps, unless it is the empty name. *)
Definition named (o : option string) : option string :=
  match o with Some s => if String.eqb s "" then None else Some s | None => None end.

Definition ownerOf (m : SANCertManager) (domain : string) : option string :=
  if is_wildcard domain then wildcardOwner m domain None
  else match named (registeredDomains m !! domain) with
       | Some s => Some s
       | None => match named (dynamicDomains m !! domain) with
                 | Some s => Some s
                 | None => named (pendingDomains m !! domain)
                 end
       end.

Definition certOwnedDirectory (m : SANCertManager) (c : ManagedCert) (domain : string) : option string :=
  directoryForService m <$> (if is_wildcard domain then wildcardOwner m domain (Some c) else ownerOf m domain).

Fixpoint first_owner (m : SANCertManager) (domains : list string) : option string :=
  match domains with
  | [] => None
  | d :: ds => match ownerOf m d with Some s => Some s | None => first_owner m ds end
  end.

(** [directoryForDomains]: concrete names first, then wildcards. *)
Definition directoryForDomains (m : SANCertManager) (domains : list string) : string :=
  match first_owner m (List.filter (λ d, negb (is_wildcard d)) domains) with
  | Some s => directoryForService m s
  | None => match first_owner m domains with Some s => directoryForService m s | None => smDirectory m end
  end.

Definition directoryForDomain (m : SANCertManager) (domain : string) : string :=
  match ownerOf m domain with Some s => directoryForService m s | None => smDirectory m end.

Definition certDirectoryMismatched (m : SANCertManager) (c : ManagedCert) : bool :=
  existsb (λ d, match certOwnedDirectory m c d with
                | Some desired => negb (String.eqb desired (normalizeDirectory m (Directory c)))
                | None => false
                end) (Domains c).

Definition splitByDesiredDirectory (m : SANCertManager) (c : ManagedCert) (domains : list string)
  : list (string * list string) :=
  group_by (λ d, default (normalizeDirectory m (Directory c)) (certOwnedDirectory m c d)) domains.

Definition HasValidCertificate (m : SANCertManager) (now : Z) (domain : string) : bool :=
  match certCovering m domain with
  | Some c =>
      bool_decide (is_Some (Certificate c)) && (day <? time_sub (NotAfter c) now) &&
      match ownerOf m domain with Some s => certMatchesServiceDirectory m c s | None => true end
  | None => false
  end.

(** ** Registration *)

(** [RegisterDomain]; [order] is the order in which the certificates are ranged
    over.  [None]: the manager is not ready. *)
Definition RegisterDomain (order : list string) (now : Z) (domain service : string) (m : SANCertManager)
  : option SANCertManager :=
  if String.eqb domain "" then Some m
  else if negb (ready m) then None
  else
    let m := with_registered (<[domain := service]> (registeredDomains m)) m in
    let serves c := (day <? time_sub (NotAfter c) now) && certMatchesServiceDirectory m c service in
    match certCovering m domain with
    | Some c =>
        if serves c then Some m
        else match List.find (λ c, serves c && str_contains (Domains c) domain) (omap (λ id, certificates m !! id) order) with
             | Some c => Some (with_certs (certificates m) (<[domain := Identifier c]> (domainToCert m)) m)
             | None => Some (with_pending (<[domain := service]> (pendingDomains m)) m)
             end
    | None =>
        match List.find (λ c, serves c && str_contains (Domains c) domain) (omap (λ id, certificates m !! id) order) with
        | Some c => Some (with_certs (certificates m) (<[domain := Identifier c]> (domainToCert m)) m)
        | None => Some (with_pending (<[domain := service]> (pendingDomains m)) m)
        end
    end.

Definition UnregisterDomain (domain : string) (m : SANCertManager) : SANCertManager :=
  with_registered (delete domain (registeredDomains m)) (with_pending (delete domain (pendingDomains m)) m).

Definition SetDynamicDomains (service : string) (domains : list string) (m : SANCertManager) : SANCertManager :=
  with_dynamic (foldl (λ dyn d, <[d := service]> dyn) (filter (λ ds, ds.2 ≠ service) (dynamicDomains m)) domains) m.

Definition DynamicDomains (m : SANCertManager) (service : string) : list string :=
  (map_to_list (filter (λ ds, ds.2 = service) (dynamicDomains m))).*1.

Definition restorePending (domains : list string) (m : SANCertManager) : SANCertManager :=
  with_pending (foldl (λ p d, if bool_decide (is_Some (p !! d)) then p else <[d := ""]> p) (pendingDomains m) domains) m.

(** ** Challenges *)

Definition PresentChallenge (domain token keyAuth : string) (m : SANCertManager) : SANCertManager :=
  with_tokens (<[token := (domain, keyAuth)]> (challengeTokens m)) m.

Definition CleanUpChallenge (token : string) (m : SANCertManager) : SANCertManager :=
  with_tokens (delete token (challengeTokens m)) m.

Definition requestHostname (host : string) : string :=
  TrimSuffix match SplitHostPort host with Some (h, _) => h | None => host end ".".

(** [HTTPHandler]: the key authorization served, [None] for the fallback. *)
Definition answerChallenge (m : SANCertManager) (path host : string) : option string :=
  match CutPrefix path "/.well-known/acme-challenge/" with
  | Some token =>
      if String.eqb token "" then None
      else match challengeTokens m !! token with
           | Some (domain, keyAuth) => if EqualFold (requestHostname host) domain then Some keyAuth else None
           | None => None
           end
  | None => None
  end.

(** ** Adopting and dropping certificates *)

Section digest.
Variable sha256_hex : string → string.

Definition sanCertID (domains : list string) : string :=
  "san:" +:+ str_take 16 (sha256_hex (foldr (λ d s, d +:+ String "000"%char s) "" domains)).

(** [adoptWildcardCoverageLocked]: the concrete names a wildcard of the new
    certificate covers move over to it where their owner accepts it. *)
Definition taken_over (m : SANCertManager) (managed : ManagedCert) (domain : string) (id : string) : bool :=
  negb (String.eqb id (Identifier managed)) && negb (is_wildcard domain) &&
  existsb (λ w, is_wildcard w && matchesWildcard w domain) (Domains managed) &&
  match (match registeredDomains m !! domain with Some o => Some o | None => dynamicDomains m !! domain end) with
  | Some owner => negb (String.eqb owner "") && certMatchesServiceDirectory m managed owner
  | None => false
  end.

Definition adoptWildcardCoverage (managed : ManagedCert) (m : SANCertManager) : SANCertManager :=
  with_certs (certificates m)
    (map_imap (λ domain id, Some (if taken_over m managed domain id then Identifier managed else id)) (domainToCert m)) m.

(** What a solver hands out: the leaf's validity, [None] for a pair that does
    not parse. *)
Definition Resource := option (Z * Z).

Definition adoptCertificateAt (resource : option (Z * Z)) (domains : list string) (directory : string)
    (m : SANCertManager) : SANCertManager * option ManagedCert :=
  match resource with
  | None => (m, None)
  | Some (notBefore, notAfter) =>
      let id := sanCertID domains in
      let managed := mkCert id domains notAfter (Some notBefore) directory in
      let m := with_certs (<[id := managed]> (certificates m))
                 (foldl (λ d2c d, <[d := id]> d2c) (domainToCert m) domains) m in
      (adoptWildcardCoverage managed m, Some managed)
  end.

Definition adoptCertificate (resource : option (Z * Z)) (domains : list string) (m : SANCertManager)
  : SANCertManager * option ManagedCert :=
  adoptCertificateAt resource domains (directoryForDomains m domains) m.

Definition removeCertificate (id : string) (m : SANCertManager) : SANCertManager :=
  with_certs (delete id (certificates m)) (filter (λ di, di.2 ≠ id) (domainToCert m)) m.

(** ** Ordering: [obtainCertificateAt] *)

Definition show_domains (domains : list string) : string := "[" +:+ Join domains " " +:+ "]".

(** The solvers that answer an order at a directory; [bundle] is what
    [clientsForDirectory] has or builds, [None] when it cannot. *)
Definition obtainersForDirectory (m : SANCertManager) (bundle : string → option directoryClients)
    (directory : string) (domains : list string) : option (option string * option string) :=
  if String.eqb directory (smDirectory m) then
    dns ← orderObtainer (smPlanner m) domains; Some (smHTTP m, dns)
  else
    clients ← bundle directory;
    dns ← orderObtainerFrom (selection (smPlanner m)) domains (dcDNS clients) (dcZoned clients);
    Some (httpObtainer clients, dns).

(** [obtain] is what a solver answers; the list is who was asked, in order. *)
Definition obtainCertificateAt (m : SANCertManager) (bundle : string → option directoryClients)
    (obtain : string → list string → result OrderError (option (Z * Z))) (directory : string) (domains : list string)
  : list string * result OrderError (option (Z * Z)) :=
  match obtainersForDirectory m bundle directory domains with
  | None => ([], Err (ErrPlain "certificate provisioning failed"))
  | Some (http, dns) =>
      let wildcard := containsWildcard domains in
      if wildcard && negb (String.eqb (outsideWildcardZones domains) "")
      then ([], Err (ErrPlain "certificate provisioning failed"))
      else match dns with
           | Some dns =>
               match obtain dns domains with
               | Ok r => ([dns], Ok r)
               | Err e =>
                   match http with
                   | Some http =>
                       if wildcard || negb (HTTPFallback m)
                       then ([dns], Err (ErrWrap ("DNS-01 issuance failed for " +:+ show_domains domains +:+ ": " +:+ errorText e) e))
                       else ([dns; http], obtain http domains)
                   | None => ([dns], Err (ErrWrap ("DNS-01 issuance failed for " +:+ show_domains domains +:+ ": " +:+ errorText e) e))
                   end
               end
           | None =>
               if wildcard then ([], Err (ErrPlain "certificate provisioning failed"))
               else match http with
                    | Some http => ([http], obtain http domains)
                    | None => ([], Err (ErrPlain "certificate manager not initialized"))
                    end
           end
  end.

(** ** The handshake: [GetCertificate] *)

Inductive Handshake :=
| HsServe (c : ManagedCert) (queue : option (string * string))   (** a name to queue for its service *)
| HsProvision
| HsQueue (domain service : string)
| HsRefused
| HsNotReady
| HsNoName.

Definition GetCertificate (now : Z) (m : SANCertManager) (domain : string) : Handshake :=
  if String.eqb domain "" then HsNoName
  else
    let registered := registeredDomains m !! domain in
    let dynamic := dynamicDomains m !! domain in
    let owner := default (default "" dynamic) registered in
    let known := bool_decide (is_Some registered) || bool_decide (is_Some dynamic) in
    if negb (ready m) then HsNotReady
    else
      let otherwise :=
        if bool_decide (is_Some registered) then HsProvision
        else match dynamic with Some service => HsQueue domain service | None => HsRefused end in
      match certCovering m domain with
      | Some c =>
          let mismatch := known && negb (certMatchesServiceDirectory m c owner) in
          if negb (bool_decide (is_Some (Certificate c))) then otherwise
          else if (day <? time_sub (NotAfter c) now) && negb mismatch then HsServe c None
          else if (0 <? time_sub (NotAfter c) now) && negb (mismatch && bool_decide (is_Some registered))
          then HsServe c (if known then Some (domain, owner) else None)
          else otherwise
      | None => otherwise
      end.

(** [getServableCertForDomain]: what a handshake that waited is served. *)
Definition getServableCertForDomain (now : Z) (m : SANCertManager) (domain : string) : option ManagedCert :=
  match certCovering m domain with
  | Some c =>
      if negb (bool_decide (is_Some (Certificate c))) then None
      else if time_sub (NotAfter c) now <=? 0 then None
      else match named (registeredDomains m !! domain) with
           | Some service => if certMatchesServiceDirectory m c service then Some c else None
           | None => Some c
           end
  | None => None
  end.
End digest.

(** ** Lemmas *)

Lemma certCovering_Some m d c :
  certCovering m d = Some c →
  (domainToCert m !! d = Some (certIDCovering m d) ∨
   ∃ parent, wildcardParent d = Some parent ∧ domainToCert m !! parent = Some (certIDCovering m d)) ∧
  certificates m !! certIDCovering m d = Some c.
Proof.
  unfold certCovering. destruct (String.eqb_spec (certIDCovering m d) "") as [|Hne]; [done|]. intros Hc.
  split; [|done]. revert Hne. unfold certIDCovering. destruct (domainToCert m !! d) as [id|]; [by left|].
  destruct (wildcardParent d) as [parent|]; [|done]. destruct (domainToCert m !! parent) as [id|] eqn:Hp; cbn; [|done].
  intros _. right. exists parent. by rewrite Hp.
Qed.

(** A parent pattern that a set covers covers the name as well. *)
Lemma parent_covered ds d parent :
  wildcardParent d = Some parent → identifiersCover ds parent = true → identifiersCover ds d = true.
Proof.
  intros Hp. rewrite !identifiersCover_spec. intros (i & Hi & Hm). exists i. split; [done|]. right.
  assert (Hw : is_wildcard parent = true).
  { unfold wildcardParent in Hp. destruct (Cut d ".") as [[l r]|]; [|done].
    destruct (_ || _); [done|]. injection Hp as <-. by destruct r. }
  assert (Hself : matchesWildcard parent d = true).
  { unfold matchesWildcard. rewrite Hw, Hp. apply String.eqb_refl. }
  destruct Hm as [->|Hm]; [done|]. unfold matchesWildcard in Hm |- *.
  destruct (is_wildcard i); [cbn in *|done]. rewrite Hp. destruct (wildcardParent parent) as [pp|] eqn:Hpp; [|done].
  apply String.eqb_eq in Hm as <-. apply String.eqb_eq.
  unfold wildcardParent in Hp, Hpp. destruct (Cut d ".") as [[l r]|]; [|done]. destruct (_ || _) eqn:Hlr; [done|].
  injection Hp as <-. cbn in Hpp. apply orb_false_iff in Hlr as [_ Hr]. rewrite Hr in Hpp. by injection Hpp as <-.
Qed.

(** The names of the certificates in [m] are those of [lists], and what a name
    maps to covers it. *)
Record store_ok (sha256_hex : string → string) (adopted : list (list string)) (m : SANCertManager) : Prop := {
  st_cert id c : certificates m !! id = Some c →
    Identifier c = id ∧ id = sanCertID sha256_hex (Domains c) ∧ Domains c ∈ adopted;
  st_map d id : domainToCert m !! d = Some id →
    ∃ ds, ds ∈ adopted ∧ id = sanCertID sha256_hex ds ∧ identifiersCover ds d = true }.

Lemma store_ok_more sha l l' m : l ⊆ l' → store_ok sha l m → store_ok sha l' m.
Proof.
  intros Hl [Hc Hm]. split.
  - intros id c H. destruct (Hc id c H) as (? & ? & ?). auto.
  - intros d id H. destruct (Hm d id H) as (ds & ? & ?). eauto.
Qed.

Lemma store_ok_same sha l m m' :
  certificates m' = certificates m → domainToCert m' = domainToCert m → store_ok sha l m → store_ok sha l m'.
Proof. intros Hc Hd [? ?]. split; [by rewrite Hc|by rewrite Hd]. Qed.

(** What is served covers what was asked for, unless identifiers collide. *)
Lemma certCovering_covers sha l m d c :
  (∀ ds ds', ds ∈ l → ds' ∈ l → sanCertID sha ds = sanCertID sha ds' → ds = ds') →
  store_ok sha l m → certCovering m d = Some c → identifiersCover (Domains c) d = true.
Proof.
  intros Hinj [Hc Hm] Hcov. destruct (certCovering_Some m d c Hcov) as [Hmap Hcert].
  destruct (Hc _ _ Hcert) as (_ & Hid & Hin).
  destruct Hmap as [Hd|(parent & Hp & Hd)]; destruct (Hm _ _ Hd) as (ds & Hds & Hidd & Hcover);
    rewrite Hid in Hidd; apply Hinj in Hidd as <-; try done.
  by eapply parent_covered.
Qed.

Lemma foldl_insert_lookup (id : string) ds (m : gmap string string) d :
  foldl (λ d2c d, <[d := id]> d2c) m ds !! d = if bool_decide (d ∈ ds) then Some id else m !! d.
Proof.
  revert m. induction ds as [|x ds IH]; intros m; [done|]. cbn [foldl]. rewrite IH.
  destruct (decide (d ∈ ds)) as [Hin|Hni].
  - rewrite !bool_decide_true; [done|by right|done].
  - rewrite (bool_decide_false (d ∈ ds)) by done. destruct (decide (d = x)) as [->|Hne].
    + rewrite lookup_insert_eq, bool_decide_true; [done|left].
    + rewrite lookup_insert_ne by done. rewrite bool_decide_false; [done|]. by intros [?|?]%elem_of_cons.
Qed.

Lemma adopt_store_ok sha l m resource ds directory m' managed :
  store_ok sha l m → adoptCertificateAt sha resource ds directory m = (m', Some managed) →
  store_ok sha (ds :: l) m' ∧ Domains managed = ds.
Proof.
  intros Hok. unfold adoptCertificateAt. destruct resource as [[notBefore notAfter]|]; [|done].
  intros Heq. injection Heq as <- <-. split; [|done].
  apply (store_ok_more sha l (ds :: l)) in Hok as [Hc Hm]; [|by intros ?; right].
  assert (Hnew : ∀ d id, foldl (λ d2c d, <[d := sanCertID sha ds]> d2c) (domainToCert m) ds !! d = Some id →
    ∃ ds', ds' ∈ ds :: l ∧ id = sanCertID sha ds' ∧ identifiersCover ds' d = true).
  { intros d id. rewrite foldl_insert_lookup. destruct (decide (d ∈ ds)) as [Hin|Hni].
    - rewrite bool_decide_true by done. intros [= <-]. exists ds. split; [left|split; [done|]].
      apply identifiersCover_spec. eauto.
    - rewrite bool_decide_false by done. apply Hm. }
  split; cbn.
  - intros id c. destruct (decide (id = sanCertID sha ds)) as [->|Hne].
    + rewrite lookup_insert_eq. intros [= <-]. cbn. split; [done|split; [done|left]].
    + rewrite lookup_insert_ne by done. apply Hc.
  - intros d id. rewrite map_lookup_imap. cbn.
    destruct (foldl _ _ ds !! d) as [id0|] eqn:H0; cbn; [|done]. intros [= <-].
    unfold taken_over. cbn [Identifier Domains]. destruct (_ && _) eqn:Ht; [|by apply Hnew].
    rewrite !andb_true_iff in Ht. destruct Ht as [[_ Hw] _]. apply existsb_exists in Hw as (w & Hw%list_elem_of_In & Hmw).
    apply andb_true_iff in Hmw as [_ Hmw]. exists ds. split; [left|split; [done|]].
    apply identifiersCover_spec. eauto.
Qed.

Lemma remove_store_ok sha l id m : store_ok sha l m → store_ok sha l (removeCertificate id m).
Proof.
  intros [Hc Hm]. split; cbn.
  - intros id' c Hl. apply lookup_delete_Some in Hl as [_ Hl]. by apply Hc.
  - intros d id' Hl. apply map_lookup_filter_Some in Hl as [Hl _]. by apply Hm.
Qed.

Lemma register_store_ok sha l order now domain service m m' :
  store_ok sha l m → RegisterDomain order now domain service m = Some m' → store_ok sha l m'.
Proof.
  intros Hok. unfold RegisterDomain. destruct (String.eqb domain ""); [by intros [= <-]|].
  destruct (ready m); [cbn [negb]|done]. set (m1 := with_registered _ m). cbv zeta.
  assert (H1 : store_ok sha l m1) by (by apply (store_ok_same sha l m)).
  assert (Hfind : ∀ f m', match List.find f (omap (λ id, certificates m1 !! id) order) with
      | Some c => Some (with_certs (certificates m1) (<[domain := Identifier c]> (domainToCert m1)) m1)
      | None => Some (with_pending (<[domain := service]> (pendingDomains m1)) m1)
      end = Some m' →
    (∀ c, f c = true → domain ∈ Domains c) → store_ok sha l m').
  { intros f m2. destruct (List.find f _) as [c|] eqn:Hf; intros [= <-] Hmem; [|by apply (store_ok_same sha l m1)].
    apply find_some in Hf as [Hin Hfc]. apply list_elem_of_In, list_elem_of_omap in Hin as (id & _ & Hid).
    destruct H1 as [Hc Hm]. destruct (Hc id c Hid) as (Hcid & Hsha & Hadopted). split; cbn.
    - intros id' c' Hl. by apply Hc.
    - intros d id'. destruct (decide (d = domain)) as [->|Hne].
      + rewrite lookup_insert_eq. intros [= <-]. exists (Domains c). rewrite Hcid. split; [done|split; [done|]].
        apply identifiersCover_spec. exists domain. split; [by apply Hmem|by left].
      + rewrite lookup_insert_ne by done. apply Hm. }
  destruct (certCovering m1 domain) as [c|]; [case_goal; [by intros [= <-]|]|];
    (intros H2; eapply Hfind; [exact H2|]); intros c0 [_ Hd]%andb_true_iff; by apply str_contains_spec.
Qed.
