(* ===== verification/Handshake.v ===== *)
(** * Ordering a certificate on a handshake: [provisionCertificate] of
    [internal/server/san_cert_manager.go] and [san_cert_batch_guard.go]

    A handshake for a registered host without a usable certificate orders one,
    together with the other pending hosts of its service.  The order releases
    the manager's lock while it probes, waits for its token and talks to the
    ACME server, so a batch under way is a value that moves from step to step
    ([batch_step]), interleaved with the other batches and with everything else
    that changes the manager.  What the probes, the token bucket and the ACME
    server answer is the environment's. *)
From S2P Require Import Prelude GoStrings CertPlan DomainFailure Quarantine SanCerts.

Section handshake.
Context `{!PublicSuffix, !PublicSuffixSpec, !SortFunc, !SortFuncSpec}.
Variable sha256_hex : string → string.
Variable retry_after_in : string → option Z.

(** ** The guard *)

(** [preflightTrigger]: [false] refuses the handshake. *)
Definition preflightTrigger (now : Z) (preflight : option (string → bool)) (domain : string) (m : SANCertManager)
  : SANCertManager * bool :=
  match preflight, smQuarantine m with
  | Some ok, Some q =>
      if is_wildcard domain || hasDNSProviderFor (smPlanner m) domain then (m, true)
      else if negb (ok domain)
      then (with_quarantine (Some (RecordFailure now domain quarantinePreflight q).1) m, false)
      else (with_quarantine (Some (Release now domain q).1) m, true)
  | _, _ => (m, true)
  end.

Definition record_unreachable (now : Z) (k : quarantineKind) (domains : list string) (q : gmap string quarantineEntry)
  : gmap string quarantineEntry :=
  foldl (λ q d, (RecordFailure now d k q).1) q domains.

(** [filterBatchMates]: the trigger is never dropped. *)
Definition filterBatchMates (now : Z) (preflight : option (string → bool)) (trigger : string) (domains : list string)
    (m : SANCertManager) : SANCertManager * list string :=
  match smQuarantine m with
  | None => (m, domains)
  | Some q =>
      let mates := List.filter (λ d, negb (String.eqb d trigger) && negb (IsQuarantined now d q)) domains in
      let unreachable := probeDomains mates preflight (hasDNSProviderFor (smPlanner m)) in
      (with_quarantine (Some (record_unreachable now quarantinePreflight unreachable q)) m,
       trigger :: List.filter (λ d, negb (str_contains unreachable d)) mates)
  end.

Definition clearBatchQuarantine (domains : list string) (m : SANCertManager) : SANCertManager :=
  match smQuarantine m with
  | None => m
  | Some q => with_quarantine (Some (foldl (λ q d, Clear d q) q domains)) m
  end.

(** What the two attributions share: the culprits' hosts are held by [hold],
    the others survive. *)
Definition blame (hold : string → gmap string quarantineEntry → gmap string quarantineEntry)
    (culprits requested : list string) (q : gmap string quarantineEntry)
  : gmap string quarantineEntry * list string :=
  (foldl (λ q d, hold d q) q (List.filter (identifiersCover culprits) requested),
   List.filter (λ d, negb (identifiersCover culprits d)) requested).

Definition attributeRateLimit (now : Z) (l : acmeRateLimit) (ordered requested : list string)
    (q : gmap string quarantineEntry) : gmap string quarantineEntry * list string :=
  let culprits := rateLimitedDomains l ordered in
  let hold d q := (RecordRateLimited now d (retryAfter l) q).1 in
  if negb (Nat.eqb (length culprits) 0) then blame hold culprits requested q
  else match retryAfter l with
       | None => (q, requested)
       | Some _ => blame hold requested requested q
       end.

(** [attributeBatchFailure]: who goes back to pending. *)
Definition attributeBatchFailure (now : Z) (preflight : option (string → bool)) (e : OrderError)
    (ordered requested : list string) (m : SANCertManager) : SANCertManager * list string :=
  match smQuarantine m with
  | None => (m, requested)
  | Some q =>
      let '(q, survivors) :=
        match parseRateLimited retry_after_in e with
        | Some l => attributeRateLimit now l ordered requested q
        | None =>
            let culprits := failedDomainsFromError e ordered in
            let culprits := if negb (Nat.eqb (length culprits) 0) then culprits
                            else probeDomains ordered preflight (hasDNSProviderFor (smPlanner m)) in
            if Nat.eqb (length culprits) 0 then (q, requested)
            else blame (λ d q, (RecordFailure now d quarantineACME q).1) culprits requested q
        end in
      (with_quarantine (Some q) m, survivors)
  end.

(** ** The pieces of [provisionCertificate] between its locks *)

Definition registeredTo (m : SANCertManager) (d : string) : string := default "" (registeredDomains m !! d).

(** May this pending name join the batch of [domain]? *)
Definition batchMate (now : Z) (m : SANCertManager) (domain d : string) : bool :=
  negb (String.eqb d domain) &&
  negb (match smQuarantine m with Some q => IsQuarantined now d q | None => false end) &&
  String.eqb (registeredTo m d) (registeredTo m domain) &&
  String.eqb (directoryForDomain m d) (directoryForDomain m domain).

(** Claiming the slot of the service: [None] when its batch is under way.
    [order] is the order in which the pending names are ranged over. *)
Definition claimBatch (order : list string) (now : Z) (domain : string) (m : SANCertManager)
  : option (SANCertManager * string * list string) :=
  let key := "service:" +:+ registeredTo m domain in
  if bool_decide (key ∈ provisioning m) then None
  else Some (with_provisioning ({[key]} ∪ provisioning m) m, key,
             domain :: take (MaxSANsPerCertificate - 1) (List.filter (batchMate now m domain) order)).

Definition takeFromPending (domains : list string) (m : SANCertManager) : SANCertManager :=
  with_pending (foldl (λ p d, delete d p) (pendingDomains m) domains) m.

(** The identifiers of the order, and who has to wait for an order of their
    own; [order] ranges over the roots of the batch. *)
Definition planBatch (order : list string) (domain : string) (requested : list string) (m : SANCertManager)
  : SANCertManager * list string :=
  let sorted := sort_strings (planIssuanceDomains order (smPlanner m) requested) in
  let partitions := splitByProviderZone (smPlanner m) sorted in
  if (1 <? length partitions)%nat then
    let chosen := default (default [] (head partitions)) (List.find (λ p, identifiersCover p domain) partitions) in
    (restorePending (List.filter (λ d, negb (identifiersCover chosen d)) requested) m, chosen)
  else (m, sorted).

Definition releaseSlot (key : string) (m : SANCertManager) : SANCertManager :=
  with_provisioning (provisioning m ∖ {[key]}) m.

(** ** A batch under way *)

(** [BTrigger] and [BClaim] are handshakes on their way to a batch; they hold no
    slot yet. *)
Inductive Batch :=
| BTrigger (trigger : string)
| BClaim (trigger : string)
| BFilter (trigger key : string) (candidates : list string)
| BTake (trigger key : string) (requested : list string)
| BPlan (trigger key : string) (requested : list string)
| BToken (trigger key : string) (requested identifiers : list string)
| BOrder (trigger key : string) (requested identifiers : list string)
| BStamp (trigger key : string) (requested identifiers : list string) (r : option (Z * Z))
| BAdopt (trigger key : string) (requested identifiers : list string) (r : option (Z * Z)) (directory : string)
| BClear (trigger key : string) (requested : list string) (c : ManagedCert)
| BRelease (trigger key : string) (c : option ManagedCert).

Definition batch_key (b : Batch) : option string :=
  match b with
  | BTrigger _ | BClaim _ => None
  | BFilter _ k _ | BTake _ k _ | BPlan _ k _ | BToken _ k _ _ | BOrder _ k _ _ | BStamp _ k _ _ _
  | BAdopt _ k _ _ _ _ | BClear _ k _ _ | BRelease _ k _ => Some k
  end.

(** The manager, the batches under way, and the identifier sets certificates
    were adopted for so far (only read by the statements below). *)
Record San := mkSan {
  sanM : SANCertManager;
  sanBatches : gmap nat Batch;
  sanAdopted : list (list string) }.

(** One step of a batch: the manager, the batch, and what was adopted. *)
Inductive batch_step : SANCertManager → Batch → SANCertManager → Batch → option (list string) → Prop :=
| bs_probe now preflight d m m' :
    preflightTrigger now preflight d m = (m', true) →
    batch_step m (BTrigger d) m' (BClaim d) None
| bs_claim order now d m m' k cs :
    order ≡ₚ elements (dom (pendingDomains m)) → claimBatch order now d m = Some (m', k, cs) →
    batch_step m (BClaim d) m' (BFilter d k cs) None
| bs_filter now preflight d k cs m m' kept :
    filterBatchMates now preflight d cs m = (m', kept) →
    batch_step m (BFilter d k cs) m' (BTake d k kept) None
| bs_take d k req m :
    batch_step m (BTake d k req) (takeFromPending req m) (BPlan d k req) None
| bs_plan order d k req m m' ids :
    order ≡ₚ elements (dom (rootGroups req)) →
    planBatch order d req m = (m', ids) →
    batch_step m (BPlan d k req) m' (BToken d k req ids) None
| bs_token d k req ids m :
    batch_step m (BToken d k req ids) m (BOrder d k req ids) None
| bs_no_token d k req ids m :
    batch_step m (BToken d k req ids) (restorePending req m) (BRelease d k None) None
| bs_ordered bundle obtain d k req ids asked r m :
    obtainCertificateAt m bundle obtain (directoryForDomains m ids) ids = (asked, Ok r) →
    batch_step m (BOrder d k req ids) m (BStamp d k req ids r) None
| bs_failed bundle obtain now preflight d k req ids asked e m m' survivors :
    obtainCertificateAt m bundle obtain (directoryForDomains m ids) ids = (asked, Err e) →
    attributeBatchFailure now preflight e ids req m = (m', survivors) →
    batch_step m (BOrder d k req ids) (restorePending survivors m') (BRelease d k None) None
| bs_stamp d k req ids r m :
    batch_step m (BStamp d k req ids r) m (BAdopt d k req ids r (directoryForDomains m ids)) None
| bs_adopted d k req ids r directory m m' c :
    adoptCertificateAt sha256_hex r ids directory m = (m', Some c) →
    batch_step m (BAdopt d k req ids r directory) m' (BClear d k req c) (Some ids)
| bs_unreadable d k req ids directory m :
    batch_step m (BAdopt d k req ids None directory) m (BRelease d k None) None
| bs_clear d k req c m :
    batch_step m (BClear d k req c) (clearBatchQuarantine req m) (BRelease d k (Some c)) None.

(** What a step shows: a certificate served to a handshake for a name. *)
Inductive Served := Quiet | Answered (domain : string) (c : ManagedCert).

(** Everything that changes the manager.  The issuer and the renewer adopt
    whatever they ordered ([ss_adopt]); hosts are registered under their names,
    never as wildcards. *)
Inductive san_step (s : San) : Served → San → Prop :=
| ss_register order now d service m' :
    is_wildcard d = false → RegisterDomain order now d service (sanM s) = Some m' →
    san_step s Quiet (mkSan m' (sanBatches s) (sanAdopted s))
| ss_unregister d :
    san_step s Quiet (mkSan (UnregisterDomain d (sanM s)) (sanBatches s) (sanAdopted s))
| ss_dynamic service ds :
    san_step s Quiet (mkSan (SetDynamicDomains service ds (sanM s)) (sanBatches s) (sanAdopted s))
| ss_directory service directory :
    san_step s Quiet (mkSan (SetServiceDirectory service directory (sanM s)) (sanBatches s) (sanAdopted s))
| ss_quarantine q :
    san_step s Quiet (mkSan (with_quarantine q (sanM s)) (sanBatches s) (sanAdopted s))
| ss_remove id :
    san_step s Quiet (mkSan (removeCertificate id (sanM s)) (sanBatches s) (sanAdopted s))
| ss_adopt r ds directory m' c :
    adoptCertificateAt sha256_hex r ds directory (sanM s) = (m', Some c) →
    san_step s Quiet (mkSan m' (sanBatches s) (ds :: sanAdopted s))
| ss_serve now d c queue :
    GetCertificate now (sanM s) d = HsServe c queue → san_step s (Answered d c) s
| ss_waited now d c :
    getServableCertForDomain now (sanM s) d = Some c → san_step s (Answered d c) s
| ss_provision i now d :
    GetCertificate now (sanM s) d = HsProvision → sanBatches s !! i = None →
    san_step s Quiet (mkSan (sanM s) (<[i := BTrigger d]> (sanBatches s)) (sanAdopted s))
| ss_refused i d now preflight m' :
    sanBatches s !! i = Some (BTrigger d) → preflightTrigger now preflight d (sanM s) = (m', false) →
    san_step s Quiet (mkSan m' (delete i (sanBatches s)) (sanAdopted s))
| ss_wait i d order now :
    sanBatches s !! i = Some (BClaim d) → claimBatch order now d (sanM s) = None →
    san_step s Quiet (mkSan (sanM s) (delete i (sanBatches s)) (sanAdopted s))
| ss_batch i b m' b' adopted :
    sanBatches s !! i = Some b → batch_step (sanM s) b m' b' adopted →
    san_step s Quiet (mkSan m' (<[i := b']> (sanBatches s)) ((option_list adopted) ++ sanAdopted s))
| ss_release i d k c :
    sanBatches s !! i = Some (BRelease d k c) →
    san_step s (match c with Some c => Answered d c | None => Quiet end)
      (mkSan (releaseSlot k (sanM s)) (delete i (sanBatches s)) (sanAdopted s)).

Definition newManager (m : SANCertManager) : Prop :=
  certificates m = ∅ ∧ domainToCert m = ∅ ∧ pendingDomains m = ∅ ∧ registeredDomains m = ∅ ∧ provisioning m = ∅ ∧
  1 ≤ MinSubdomainsForWildcard (grouper (smPlanner m)).

Inductive san_reachable : San → Prop :=
| sr_new m : newManager m → san_reachable (mkSan m ∅ [])
| sr_step s l s' : san_reachable s → san_step s l s' → san_reachable s'.

(** ** The pieces of an order *)

Definition concrete (d : string) : Prop := is_wildcard d = false.

Lemma filterBatchMates_spec now preflight d cs m m' kept :
  filterBatchMates now preflight d cs m = (m', kept) → d ∈ cs →
  d ∈ kept ∧ (∀ x, x ∈ kept → x ∈ cs) ∧
  smPlanner m' = smPlanner m ∧ certificates m' = certificates m ∧ domainToCert m' = domainToCert m ∧
  pendingDomains m' = pendingDomains m ∧ registeredDomains m' = registeredDomains m ∧ provisioning m' = provisioning m.
Proof.
  unfold filterBatchMates. intros Heq Hd. destruct (smQuarantine m) as [q|]; injection Heq as <- <-; [|done].
  split; [left|]. split; [|done]. intros x [->|Hx]%elem_of_cons; [done|].
  apply filter_sub in Hx. by apply filter_sub in Hx.
Qed.

Lemma claimBatch_spec order now d m m' k cs :
  claimBatch order now d m = Some (m', k, cs) →
  k = "service:" +:+ registeredTo m d ∧ (k ∉ provisioning m) ∧ m' = with_provisioning ({[k]} ∪ provisioning m) m ∧
  d ∈ cs ∧ (length cs ≤ MaxSANsPerCertificate)%nat ∧
  (∀ x, x ∈ cs → x = d ∨ x ∈ order ∧ batchMate now m d x = true).
Proof.
  unfold claimBatch. case_goal; [done|]. breflect. intros Heq. injection Heq as <- <- <-.
  split; [done|split; [done|split; [done|split; [left|split]]]].
  - cbn [length]. rewrite length_take. unfold MaxSANsPerCertificate. lia.
  - intros x [->|Hx]%elem_of_cons; [by left|right]. apply elem_of_take in Hx as (j & Hj & _).
    apply list_elem_of_lookup_2 in Hj. rewrite list_elem_of_In, filter_In in Hj. by rewrite list_elem_of_In.
Qed.

Lemma identifiersCover_perm ids ids' d : ids ≡ₚ ids' → identifiersCover ids d = identifiersCover ids' d.
Proof. intros Hp. apply eq_true_iff_eq. rewrite !identifiersCover_spec. by setoid_rewrite Hp. Qed.

(** The pattern that covers a name of host-name bytes has such bytes too. *)
Lemma cover_cert_name i d : matchesWildcard i d = true → cert_name d → cert_name i.
Proof.
  unfold matchesWildcard, wildcardParent. destruct (is_wildcard i); [cbn [negb]|done].
  destruct (Cut d ".") as [[l r]|] eqn:Hc; [|done]. destruct (_ || _); [done|]. intros <-%String.eqb_eq.
  apply Cut_Some in Hc as [-> _]. unfold cert_name. rewrite all_bytes_app. intros [_ Hr]%andb_true_iff. cbn in Hr |- *.
  exact Hr.
Qed.

Lemma restorePending_fields ds m :
  smPlanner (restorePending ds m) = smPlanner m ∧ certificates (restorePending ds m) = certificates m ∧
  domainToCert (restorePending ds m) = domainToCert m ∧ registeredDomains (restorePending ds m) = registeredDomains m ∧
  provisioning (restorePending ds m) = provisioning m.
Proof. done. Qed.

Lemma restorePending_pending ds m x :
  is_Some (pendingDomains (restorePending ds m) !! x) ↔ is_Some (pendingDomains m !! x) ∨ x ∈ ds.
Proof.
  unfold restorePending. cbn. generalize (pendingDomains m). induction ds as [|d ds IH]; intros p; cbn; [set_solver|].
  rewrite IH, elem_of_cons. case_bool_decide as Hd.
  - split; [tauto|]. intros [?|[->|?]]; auto.
  - destruct (decide (x = d)) as [->|Hne]; [rewrite lookup_insert_eq|rewrite lookup_insert_ne by done]; [|tauto].
    split; [|left; by eexists]. auto.
Qed.

Lemma orderObtainer_is_Some p ds :
  is_Some (orderObtainer p ds) ↔
  (∀ x y, x ∈ ds → y ∈ ds → providerPartitionKey p x = providerPartitionKey p y).
Proof.
  split.
  - unfold orderObtainer, orderObtainerFrom. destruct ds as [|d ds]; [set_solver|].
    destruct (resolveObtainerFrom (selection p) d (dnsObtainer p) (dnsObtainers p)) as [o key] eqn:Hr.
    destruct (forallb _ ds) eqn:Hall; [|by intros []]. intros _. rewrite forallb_forall in Hall.
    assert (Hkey : ∀ x, x ∈ d :: ds → providerPartitionKey p x = key).
    { intros x [->|Hx]%elem_of_cons; [by rewrite <-resolve_key, Hr|].
      apply list_elem_of_In, Hall in Hx. by rewrite <-resolve_key; apply String.eqb_eq. }
    intros x y Hx Hy. by rewrite !Hkey.
  - intros Hsame. destruct ds as [|d ds]; [by eexists|]. eexists. apply (orderObtainer_same p d); [left|].
    apply Forall_forall. intros x Hx. apply Hsame; [done|left].
Qed.

Lemma planBatch_spec order d req m m' ids :
  order ≡ₚ elements (dom (rootGroups req)) → 1 ≤ MinSubdomainsForWildcard (grouper (smPlanner m)) →
  Forall concrete req → d ∈ req → planBatch order d req m = (m', ids) →
  identifiersCover ids d = true ∧
  (∀ i, i ∈ ids → i ∈ req ∨ is_wildcard i = true ∧ hasDNSProviderFor (smPlanner m) i = true ∧
                            ∃ x, x ∈ req ∧ matchesWildcard i x = true) ∧
  (Forall cert_name req → is_Some (orderObtainer (smPlanner m) ids)) ∧
  (∀ x, x ∈ req → identifiersCover ids x = true ∨ is_Some (pendingDomains m' !! x)) ∧
  (m' = m ∨ ∃ deferred, deferred ⊆ req ∧ m' = restorePending deferred m).
Proof.
  intros Horder Hmin Hreq Hd. unfold planBatch. set (p := smPlanner m) in *.
  destruct (issuance_plan_covers order p req Hmin Hreq Horder) as [Hcov Hids].
  set (sorted := sort_strings (planIssuanceDomains order p req)) in *.
  assert (Hcov' : ∀ x, x ∈ req → identifiersCover sorted x = true).
  { intros x Hx. rewrite <-(Hcov x Hx). apply identifiersCover_perm, sort_strings_perm. }
  assert (Hids' : ∀ i, i ∈ sorted → i ∈ req ∨ is_wildcard i = true ∧ hasDNSProviderFor p i = true ∧
    ∃ x, x ∈ req ∧ matchesWildcard i x = true).
  { intros i. unfold sorted. rewrite sort_strings_perm. intros Hi. destruct (Hids i Hi) as [?|(? & ? & _ & ?)]; auto. }
  assert (Hnames : Forall cert_name req → Forall cert_name sorted).
  { rewrite !Forall_forall. intros Hn i Hi. destruct (Hids' i Hi) as [?|(_ & _ & x & Hx & Hm)]; [auto|].
    eapply cover_cert_name; eauto. }
  assert (Hperm : concat (splitByProviderZone p sorted) ≡ₚ sorted).
  { unfold splitByProviderZone. case_goal; [by cbn; rewrite app_nil_r|apply group_by_perm]. }
  assert (Hpart : ∀ part x, part ∈ splitByProviderZone p sorted → x ∈ part → x ∈ sorted).
  { intros part x Hin Hx. rewrite <-Hperm. apply list_elem_of_In, in_concat. exists part.
    split; [by apply list_elem_of_In|by apply list_elem_of_In]. }
  destruct (Nat.ltb_spec 1 (length (splitByProviderZone p sorted))) as [Hlt|Hle]; intros Heq; injection Heq as <- <-.
  - assert (Hex : ∃ part, List.find (λ p, identifiersCover p d) (splitByProviderZone p sorted) = Some part).
    { destruct (List.find _ _) as [part|] eqn:Hf; [by exists part|]. exfalso.
      apply (Hcov' d), identifiersCover_spec in Hd as (i & Hi & Hm). rewrite <-Hperm in Hi.
      apply list_elem_of_In, in_concat in Hi as (part & Hpin & Hi). pose proof (find_none _ _ Hf part Hpin) as Hnone.
      cbv beta in Hnone. rewrite (proj2 (identifiersCover_spec part d)) in Hnone; [done|].
      exists i. split; [by apply list_elem_of_In|done]. }
    destruct Hex as [part Hf]. rewrite Hf. cbn [from_option id]. apply find_some in Hf as [Hpin%list_elem_of_In Hcd].
    split; [done|]. split; [intros i Hi; by apply Hids', (Hpart part)|]. split.
    { intros Hn. by apply (split_orders_answerable p sorted (Hnames Hn)). }
    split.
    + intros x Hx. destruct (identifiersCover part x) eqn:Hcx; [by left|right]. apply restorePending_pending. right.
      apply list_elem_of_In, filter_In. cbv beta. by rewrite <-list_elem_of_In, Hcx.
    + right. eexists. split; [|done]. intros x Hx. by apply filter_sub in Hx.
  - split; [by apply Hcov'|]. split; [done|]. split; [|split; [by auto|by left]].
    intros Hn. destruct (split_orders_answerable p sorted (Hnames Hn)) as [_ Hparts].
    destruct (splitByProviderZone p sorted) as [|part [|? ?]]; [| |cbn in Hle; lia].
    + cbn in Hperm. apply Permutation_nil in Hperm. rewrite Hperm. by eexists.
    + cbn in Hperm. rewrite app_nil_r in Hperm. destruct (Hparts part) as [Hsome _]; [left|].
      rewrite orderObtainer_is_Some in Hsome |- *. setoid_rewrite <-Hperm. done.
Qed.

Lemma attributeRateLimit_sub now l ordered requested q x :
  x ∈ (attributeRateLimit now l ordered requested q).2 → x ∈ requested.
Proof.
  unfold attributeRateLimit. case_goal; [cbn; apply filter_sub|]. destruct (retryAfter l); [cbn; apply filter_sub|done].
Qed.

Lemma attributeBatchFailure_spec now preflight e ordered requested m m' survivors :
  attributeBatchFailure now preflight e ordered requested m = (m', survivors) →
  (∀ x, x ∈ survivors → x ∈ requested) ∧ ∃ q, m' = with_quarantine q m.
Proof.
  unfold attributeBatchFailure. destruct (smQuarantine m) as [q|] eqn:Hq.
  2:{ intros Heq. injection Heq as <- <-. split; [done|]. exists None. rewrite <-Hq. by destruct m. }
  destruct (parseRateLimited retry_after_in e) as [l|].
  - pose proof (attributeRateLimit_sub now l ordered requested q) as Hsub.
    destruct (attributeRateLimit now l ordered requested q) as [q' sv]. intros Heq. injection Heq as <- <-. eauto.
  - cbv zeta. set (culprits := if negb _ then _ else _). destruct (Nat.eqb (length culprits) 0).
    + intros Heq. injection Heq as <- <-. eauto.
    + unfold blame. intros Heq. injection Heq as <- <-. split; [intros x; apply filter_sub|eauto].
Qed.

Lemma preflightTrigger_spec now preflight d m m' ok :
  preflightTrigger now preflight d m = (m', ok) → ∃ q, m' = with_quarantine q m.
Proof.
  unfold preflightTrigger. assert (Hm : ∃ q, m = with_quarantine q m) by (exists (smQuarantine m); by destruct m).
  destruct preflight as [probe|], (smQuarantine m) as [q|]; try (intros Heq; injection Heq as <- <-; done).
  destruct (_ || _); [intros Heq; injection Heq as <- <-; done|].
  destruct (negb _); intros Heq; injection Heq as <- <-; eauto.
Qed.

(** ** The invariant *)

Definition batch_ok (b : Batch) : Prop :=
  match b with
  | BTrigger d | BClaim d => concrete d
  | BFilter d _ ds | BTake d _ ds | BPlan d _ ds => d ∈ ds ∧ Forall concrete ds
  | BToken d _ req ids | BOrder d _ req ids | BStamp d _ req ids _ | BAdopt d _ req ids _ _ =>
      Forall concrete req ∧ identifiersCover ids d = true
  | BClear d _ _ c | BRelease d _ (Some c) => identifiersCover (Domains c) d = true
  | BRelease _ _ None => True
  end.

Record manager_ok (adopted : list (list string)) (m : SANCertManager) : Prop := {
  mk_store : store_ok sha256_hex adopted m;
  mk_min : 1 ≤ MinSubdomainsForWildcard (grouper (smPlanner m));
  mk_pending d : is_Some (pendingDomains m !! d) → concrete d;
  mk_registered d : is_Some (registeredDomains m !! d) → concrete d }.

Lemma manager_ok_same l m m' :
  certificates m' = certificates m → domainToCert m' = domainToCert m → smPlanner m' = smPlanner m →
  pendingDomains m' = pendingDomains m → registeredDomains m' = registeredDomains m →
  manager_ok l m → manager_ok l m'.
Proof.
  intros Hc Hd Hp Hpd Hr [Hs Hm Hpend Hreg]. split; [by eapply store_ok_same|by rewrite Hp|by rewrite Hpd|by rewrite Hr].
Qed.

Lemma manager_ok_restore l ds m : Forall concrete ds → manager_ok l m → manager_ok l (restorePending ds m).
Proof.
  rewrite Forall_forall. intros Hds [Hs Hm Hpend Hreg]. split; [by eapply store_ok_same; [..|exact Hs]|done| |done].
  intros d [?|?]%restorePending_pending; auto.
Qed.

Lemma takeFromPending_sub ds m d :
  is_Some (pendingDomains (takeFromPending ds m) !! d) → is_Some (pendingDomains m !! d).
Proof.
  unfold takeFromPending. cbn. generalize (pendingDomains m). induction ds as [|x ds IH]; intros p; [done|]. cbn.
  intros [v Hv]%IH. apply lookup_delete_Some in Hv as [_ Hv]. by exists v.
Qed.

(** One step of a batch keeps the manager and the batch well formed, and only
    the claim takes a slot. *)
Lemma batch_step_ok l m b m' b' adopted :
  manager_ok l m → batch_ok b → batch_step m b m' b' adopted →
  manager_ok (option_list adopted ++ l) m' ∧ batch_ok b' ∧
  ((batch_key b' = batch_key b ∧ provisioning m' = provisioning m) ∨
   (batch_key b = None ∧ ∃ k, batch_key b' = Some k ∧ (k ∉ provisioning m) ∧ provisioning m' = {[k]} ∪ provisioning m)).
Proof.
  intros Hm Hb Hstep.
  destruct Hstep as [now preflight d m m' Hpre|order now d m m' k cs Horder Hclaim|now preflight d k cs m m' kept Hf|
    d k req m|order d k req m m' ids Horder Hplan|d k req ids m|d k req ids m|bundle obtain d k req ids asked r m _|
    bundle obtain now preflight d k req ids asked e m m' survivors _ Hattr|d k req ids r m|
    d k req ids r directory m m' c Hadopt|d k req ids directory m|d k req c m]; cbn [option_list app batch_key] in *.
  - apply preflightTrigger_spec in Hpre as [q ->]. split; [by eapply manager_ok_same; [..|exact Hm]|]. split; [done|by left].
  - apply claimBatch_spec in Hclaim as (_ & Hk & -> & Hd & _ & Hcs).
    split; [by eapply manager_ok_same; [..|exact Hm]|]. split; [|right; split; [done|by exists k]].
    split; [done|]. apply Forall_forall. intros x Hx. destruct (Hcs x Hx) as [->|[Hin _]]; [done|].
    apply (mk_pending _ _ Hm). rewrite Horder in Hin. by apply elem_of_elements, elem_of_dom in Hin.
  - destruct Hb as [Hd Hcs]. rewrite Forall_forall in Hcs.
    destruct (filterBatchMates_spec _ _ _ _ _ _ _ Hf Hd) as (Hdk & Hsub & ? & ? & ? & ? & ? & ?).
    split; [by eapply manager_ok_same; [..|exact Hm]|]. split; [|by left]. split; [done|]. apply Forall_forall. auto.
  - split; [|split; [done|by left]]. destruct Hm as [Hs Hmin Hpend Hreg].
    split; [by eapply store_ok_same; [..|exact Hs]|done| |done]. intros x Hx. apply Hpend. by eapply takeFromPending_sub.
  - destruct Hb as [Hd Hreq].
    destruct (planBatch_spec order d req m m' ids Horder (mk_min _ _ Hm) Hreq Hd Hplan) as (Hcov & _ & _ & _ & Hm').
    destruct Hm' as [->|(deferred & Hsub & ->)]; [by split; [|split; [|left]]|].
    split; [|by split; [|left]]. apply manager_ok_restore; [|done]. rewrite Forall_forall in Hreq |- *. auto.
  - by split; [|split; [|left]].
  - split; [|by split; [|left]]. apply manager_ok_restore; [apply Hb|done].
  - by split; [|split; [|left]].
  - apply attributeBatchFailure_spec in Hattr as [Hsub [q ->]]. destruct Hb as [Hreq _]. rewrite Forall_forall in Hreq.
    split; [|by split; [|left]]. apply manager_ok_restore; [apply Forall_forall; auto|].
    by eapply manager_ok_same; [..|exact Hm].
  - by split; [|split; [|left]].
  - destruct Hm as [Hs Hmin Hpend Hreg]. destruct (adopt_store_ok _ _ _ _ _ _ _ _ Hs Hadopt) as [Hs' Hdom].
    destruct Hb as [_ Hcov]. unfold adoptCertificateAt in Hadopt. destruct r as [[nb na]|]; [|done].
    injection Hadopt as <- <-. split; [by split|]. split; [done|by left].
  - split; [exact Hm|]. split; [exact I|]. by left.
  - unfold clearBatchQuarantine. destruct (smQuarantine m); (split; [|split; [exact Hb|by left]]); [|done].
    by eapply manager_ok_same; [..|exact Hm].
Qed.

Record san_ok (s : San) : Prop := {
  so_manager : manager_ok (sanAdopted s) (sanM s);
  so_batch i b : sanBatches s !! i = Some b → batch_ok b;
  so_key i b k : sanBatches s !! i = Some b → batch_key b = Some k → k ∈ provisioning (sanM s);
  so_unique i j b c k : sanBatches s !! i = Some b → sanBatches s !! j = Some c →
    batch_key b = Some k → batch_key c = Some k → i = j;
  so_owned k : k ∈ provisioning (sanM s) → ∃ i b, sanBatches s !! i = Some b ∧ batch_key b = Some k }.

(** A step that leaves the batches and the slots alone. *)
Lemma san_ok_manager s m' l' :
  san_ok s → manager_ok l' m' → provisioning m' = provisioning (sanM s) →
  san_ok (mkSan m' (sanBatches s) l').
Proof.
  intros [Hm Hb Hk Hu Ho] Hm' Hp. split; cbn; [done|done| |done|].
  - rewrite Hp. apply Hk.
  - rewrite Hp. apply Ho.
Qed.

(** A handshake that holds no slot comes or goes. *)
Lemma san_ok_visitor s m' i o :
  san_ok s → manager_ok (sanAdopted s) m' → provisioning m' = provisioning (sanM s) →
  (∀ b, sanBatches s !! i = Some b → batch_key b = None) →
  (∀ b, o = Some b → batch_ok b ∧ batch_key b = None) →
  san_ok (mkSan m' (partial_alter (λ _, o) i (sanBatches s)) (sanAdopted s)).
Proof.
  intros [Hm Hb Hk Hu Ho] Hm' Hp Hold Hnew.
  assert (Hlook : ∀ j b, partial_alter (λ _, o) i (sanBatches s) !! j = Some b →
    (j = i ∧ o = Some b) ∨ (j ≠ i ∧ sanBatches s !! j = Some b)).
  { intros j b. destruct (decide (j = i)) as [->|Hne]; [rewrite lookup_partial_alter_eq; auto|].
    rewrite lookup_partial_alter_ne by done. auto. }
  split; cbn; [done|..].
  - intros j b [[-> Hj]|[_ Hj]]%Hlook; [by apply Hnew|by eapply Hb].
  - intros j b k [[-> Hj]|[_ Hj]]%Hlook Hkey; [destruct (Hnew b Hj); congruence|]. rewrite Hp. by eapply Hk.
  - intros j1 j2 b c k [[-> Hj1]|[_ Hj1]]%Hlook Hj2 Hk1 Hk2; [destruct (Hnew b Hj1); congruence|].
    apply Hlook in Hj2 as [[-> Hj2]|[_ Hj2]]; [destruct (Hnew c Hj2); congruence|]. by eapply Hu.
  - intros k. rewrite Hp. intros (j & b & Hj & Hkey)%Ho. exists j, b. split; [|done].
    destruct (decide (j = i)) as [->|Hne]; [|by rewrite lookup_partial_alter_ne].
    rewrite (Hold b Hj) in Hkey. done.
Qed.

Lemma GetCertificate_provision now m d : GetCertificate now m d = HsProvision → is_Some (registeredDomains m !! d).
Proof.
  unfold GetCertificate. destruct (String.eqb d ""); [done|]. destruct (ready m); [cbn [negb]|done].
  destruct (registeredDomains m !! d) as [o|]; [by eexists|]. cbv zeta. rewrite bool_decide_false by (by intros []).
  destruct (certCovering m d) as [c|]; [|by destruct (dynamicDomains m !! d)].
  repeat case_goal; try done; by destruct (dynamicDomains m !! d).
Qed.

Lemma GetCertificate_serve now m d c queue : GetCertificate now m d = HsServe c queue → certCovering m d = Some c.
Proof.
  unfold GetCertificate. destruct (String.eqb d ""); [done|]. destruct (ready m); [cbn [negb]|done]. cbv zeta.
  assert (Hother : (if bool_decide (is_Some (registeredDomains m !! d)) then HsProvision
    else match dynamicDomains m !! d with Some service => HsQueue d service | None => HsRefused end) ≠ HsServe c queue).
  { case_goal; [done|]. by case_goal. }
  destruct (certCovering m d) as [c'|]; [|done].
  destruct (negb (bool_decide (is_Some (Certificate c')))); [done|].
  destruct (_ && _); [by intros [= ->]|]. destruct (_ && _); [by intros [= ->]|done].
Qed.

Lemma getServable_covering now m d c : getServableCertForDomain now m d = Some c → certCovering m d = Some c.
Proof.
  unfold getServableCertForDomain. destruct (certCovering m d) as [c'|]; [|done].
  repeat case_goal; try done; by intros [= ->].
Qed.

Lemma batch_step_san_ok s i b m' b' adopted :
  san_ok s → sanBatches s !! i = Some b → batch_step (sanM s) b m' b' adopted →
  san_ok (mkSan m' (<[i := b']> (sanBatches s)) (option_list adopted ++ sanAdopted s)).
Proof.
  intros [Hm Hb Hk Hu Ho] Hi Hstep.
  destruct (batch_step_ok _ _ _ _ _ _ Hm (Hb i b Hi) Hstep) as (Hm' & Hb' & Hkey).
  split; cbn; [done|..].
  - intros j c [[<- <-]|[_ Hj]]%lookup_insert_Some; [done|by eapply Hb].
  - intros j c k [[<- <-]|[_ Hj]]%lookup_insert_Some Hck.
    + destruct Hkey as [[Hsame ->]|(_ & k' & Hk' & _ & ->)]; [rewrite Hsame in Hck; by eapply Hk|set_solver].
    + destruct Hkey as [[_ ->]|(_ & k' & _ & _ & ->)]; [by eapply Hk|]. apply elem_of_union. right. by eapply Hk.
  - assert (Hnew : ∀ j c k, j ≠ i → sanBatches s !! j = Some c → batch_key c = Some k → batch_key b' = Some k → False).
    { intros j c k Hne Hj Hck Hbk. destruct Hkey as [[Hsame _]|(_ & k' & Hk' & Hfresh & _)].
      - rewrite Hsame in Hbk. apply Hne. by eapply Hu.
      - rewrite Hk' in Hbk. injection Hbk as ->. apply Hfresh. by eapply Hk. }
    intros j1 j2 c1 c2 k Hj1 Hj2 Hk1 Hk2.
    apply lookup_insert_Some in Hj1 as [[<- <-]|[Hne1 Hj1]]; apply lookup_insert_Some in Hj2 as [[<- <-]|[Hne2 Hj2]];
      [done|exfalso; eauto|exfalso; eauto|by eapply Hu].
  - intros k Hin.
    assert (Hold : k ∈ provisioning (sanM s) → ∃ j c, <[i := b']> (sanBatches s) !! j = Some c ∧ batch_key c = Some k).
    { intros (j & c & Hj & Hck)%Ho. destruct (decide (j = i)) as [->|Hne].
      - exists i, b'. rewrite lookup_insert_eq. split; [done|].
        destruct Hkey as [[Hsame _]|(Hnone & _)]; congruence.
      - exists j, c. by rewrite lookup_insert_ne. }
    destruct Hkey as [[_ Hp]|(_ & k' & Hk' & _ & Hp)]; rewrite Hp in Hin; [by apply Hold|].
    apply elem_of_union in Hin as [->%elem_of_singleton|Hin]; [|by apply Hold].
    exists i, b'. by rewrite lookup_insert_eq.
Qed.

Lemma release_san_ok s i d k c :
  san_ok s → sanBatches s !! i = Some (BRelease d k c) →
  san_ok (mkSan (releaseSlot k (sanM s)) (delete i (sanBatches s)) (sanAdopted s)).
Proof.
  intros [Hm Hb Hk Hu Ho] Hi. split; cbn.
  - by eapply manager_ok_same; [..|exact Hm].
  - intros j b [_ Hj]%lookup_delete_Some. by eapply Hb.
  - intros j b k' [Hne Hj]%lookup_delete_Some Hbk. apply elem_of_difference. split; [by eapply Hk|].
    intros ->%elem_of_singleton. apply Hne. by eapply Hu.
  - intros j1 j2 b1 b2 k' [_ Hj1]%lookup_delete_Some [_ Hj2]%lookup_delete_Some. by eapply Hu.
  - intros k' [Hin Hne]%elem_of_difference. destruct (Ho k' Hin) as (j & b & Hj & Hbk). exists j, b. split; [|done].
    rewrite lookup_delete_ne; [done|]. intros <-. rewrite Hi in Hj. injection Hj as <-. injection Hbk as <-.
    apply Hne. set_solver.
Qed.

Lemma register_ok l order now d service m m' :
  manager_ok l m → concrete d → RegisterDomain order now d service m = Some m' →
  manager_ok l m' ∧ provisioning m' = provisioning m.
Proof.
  intros [Hs Hmin Hpend Hregd] Hd Hreg. pose proof (register_store_ok _ _ _ _ _ _ _ _ Hs Hreg) as Hs'.
  revert Hreg. unfold RegisterDomain. destruct (String.eqb d ""); [by intros [= <-]|].
  destruct (ready m); [cbn [negb]|done]. cbv zeta.
  assert (Hr : ∀ x, is_Some (<[d:=service]> (registeredDomains m) !! x) → concrete x).
  { intros x. destruct (decide (x = d)) as [->|]; [done|]. rewrite lookup_insert_ne by done. apply Hregd. }
  assert (Hp : ∀ x, is_Some (<[d:=service]> (pendingDomains m) !! x) → concrete x).
  { intros x. destruct (decide (x = d)) as [->|]; [done|]. rewrite lookup_insert_ne by done. apply Hpend. }
  repeat case_goal; intros [= <-]; by split.
Qed.

Lemma san_step_ok s l s' : san_ok s → san_step s l s' → san_ok s'.
Proof.
  intros Hok Hstep. pose proof (so_manager s Hok) as Hm. destruct Hstep as [order now d service m' Hd Hreg|
    d|service ds|service directory|q|id|r ds directory m' c Hadopt|now d c queue Hget|now d c Hget|i now d Hget Hi|
    i d now preflight m' Hi Hpre|i d order now Hi Hclaim|i b m' b' adopted Hi Hstep|i d k c Hi].
  - destruct (register_ok _ _ _ _ _ _ _ Hm Hd Hreg). by apply (san_ok_manager s).
  - apply (san_ok_manager s); [done| |done]. destruct Hm as [Hs Hmin Hpend Hregd]. split; [by eapply store_ok_same; [..|exact Hs]|done|..].
    + intros x [v Hv]. cbn in Hv. apply lookup_delete_Some in Hv as [_ Hv]. apply Hpend. by exists v.
    + intros x [v Hv]. cbn in Hv. apply lookup_delete_Some in Hv as [_ Hv]. apply Hregd. by exists v.
  - apply (san_ok_manager s); [done|by eapply manager_ok_same; [..|exact Hm]|done].
  - apply (san_ok_manager s); [done|by eapply manager_ok_same; [..|exact Hm]|done].
  - apply (san_ok_manager s); [done|by eapply manager_ok_same; [..|exact Hm]|done].
  - apply (san_ok_manager s); [done| |done]. destruct Hm as [Hs Hmin Hpend Hregd]. by split; [apply remove_store_ok|..].
  - destruct Hm as [Hs Hmin Hpend Hregd]. destruct (adopt_store_ok _ _ _ _ _ _ _ _ Hs Hadopt) as [Hs' _].
    unfold adoptCertificateAt in Hadopt. destruct r as [[nb na]|]; [|done]. injection Hadopt as <- <-.
    apply (san_ok_manager s); [done|by split|done].
  - done.
  - done.
  - apply (san_ok_visitor s _ i (Some (BTrigger d))); [done..| |].
    + intros b Hib. congruence.
    + intros b [= <-]. split; [|done]. by apply (mk_registered _ _ Hm), (GetCertificate_provision now).
  - apply preflightTrigger_spec in Hpre as [q ->].
    apply (san_ok_visitor s _ i None); [done|by eapply manager_ok_same; [..|exact Hm]|done| |done].
    intros b Hib. by simplify_eq.
  - apply (san_ok_visitor s _ i None); [done..| |done]. intros b Hib. by simplify_eq.
  - by apply (batch_step_san_ok s i b).
  - by eapply release_san_ok.
Qed.

Lemma san_reachable_ok s : san_reachable s → san_ok s.
Proof.
  induction 1 as [m (Hc & Hd & Hp & Hr & Hprov & Hmin)|s l s' _ IH Hstep]; [|by eapply san_step_ok].
  split; cbn; try (intros; by rewrite lookup_empty in *).
  - split; [split; [intros id c; by rewrite Hc|intros d id; by rewrite Hd]|done|intros d; rewrite Hp|intros d; rewrite Hr];
      by intros [].
  - rewrite Hprov. set_solver.
Qed.

(** ** Theorems *)

(** C5: whatever registrations, orders, renewals, evictions and directory
    changes went before and run beside it, a certificate that a handshake is
    answered with covers the name it asked for, whether it was in the store,
    was waited for, or was just ordered; provided no two identifier sets that
    were ever certified share the digest their certificates are filed under. *)
Theorem handshake_served_covers s d c s' :
  san_reachable s → san_step s (Answered d c) s' →
  (∀ ds ds', ds ∈ sanAdopted s → ds' ∈ sanAdopted s → sanCertID sha256_hex ds = sanCertID sha256_hex ds' → ds = ds') →
  identifiersCover (Domains c) d = true.
Proof.
  intros Hok%san_reachable_ok Hstep Hinj. pose proof (mk_store _ _ (so_manager s Hok)) as Hs.
  remember (Answered d c) as l eqn:Hl. destruct Hstep; try discriminate Hl.
  - injection Hl as -> ->. eapply certCovering_covers; [done..|]. by eapply GetCertificate_serve.
  - injection Hl as -> ->. eapply certCovering_covers; [done..|]. by eapply getServable_covering.
  - destruct c0 as [c'|]; [|done]. injection Hl as -> ->. by apply (so_batch s Hok) in H3.
Qed.

(** No two orders of a service are ever under way at once, and a slot is
    taken exactly while a batch holds it, so that a failed batch blocks
    nobody. *)
Theorem handshake_single_flight s :
  san_reachable s →
  (∀ i j b c k, sanBatches s !! i = Some b → sanBatches s !! j = Some c →
     batch_key b = Some k → batch_key c = Some k → i = j) ∧
  (∀ k, k ∈ provisioning (sanM s) ↔ ∃ i b, sanBatches s !! i = Some b ∧ batch_key b = Some k).
Proof.
  intros Hok%san_reachable_ok. split; [apply (so_unique s Hok)|].
  intros k. split; [apply (so_owned s Hok)|]. intros (i & b & Hi & Hk). by eapply (so_key s Hok).
Qed.

(** C10: what a handshake orders.  However the manager changed between the
    steps, a batch has at most a hundred names, all of the service and the ACME
    directory of the host that triggered it and none of them held back; the
    identifiers ordered are names of the batch or wildcards some DNS provider
    answers for that cover one; they cover the host that triggered it; one
    solver answers for all of them; and whoever of the batch is not covered
    went back to pending. *)
Theorem handshake_order m m1 m2 m3 m4 m5 range roots now now' preflight d k cs req ids :
  claimBatch range now d m = Some (m1, k, cs) →
  filterBatchMates now' preflight d cs m2 = (m3, req) →
  planBatch roots d req m4 = (m5, ids) →
  1 ≤ MinSubdomainsForWildcard (grouper (smPlanner m4)) → roots ≡ₚ elements (dom (rootGroups req)) →
  Forall concrete cs → Forall cert_name cs →
  (length cs ≤ 100)%nat ∧
  (∀ x, x ∈ cs → registeredTo m x = registeredTo m d ∧ directoryForDomain m x = directoryForDomain m d ∧
     (x = d ∨ match smQuarantine m with Some q => IsQuarantined now x q = false | None => True end)) ∧
  (∀ i, i ∈ ids → i ∈ cs ∨ is_wildcard i = true ∧ hasDNSProviderFor (smPlanner m4) i = true ∧
                           ∃ x, x ∈ cs ∧ matchesWildcard i x = true) ∧
  identifiersCover ids d = true ∧ is_Some (orderObtainer (smPlanner m4) ids) ∧
  (∀ x, x ∈ req → identifiersCover ids x = true ∨ is_Some (pendingDomains m5 !! x)).
Proof.
  intros Hclaim Hfilter Hplan Hmin Hroots Hcs Hnames.
  destruct (claimBatch_spec _ _ _ _ _ _ _ Hclaim) as (_ & _ & _ & Hd & Hlen & Hmates).
  destruct (filterBatchMates_spec _ _ _ _ _ _ _ Hfilter Hd) as (Hdreq & Hsub & _).
  assert (Hsubset : ∀ P : string → Prop, Forall P cs → Forall P req).
  { intros P. rewrite !Forall_forall. auto. }
  destruct (planBatch_spec roots d req m4 m5 ids) as (Hcov & Hids & Hone & Hrest & _); auto.
  split; [done|]. split.
  { intros x Hx. destruct (Hmates x Hx) as [->|[_ Hmate]]; [auto|]. unfold batchMate in Hmate.
    rewrite !andb_true_iff, !String.eqb_eq in Hmate. destruct Hmate as [[[_ Hq] Hr] Hdir].
    split; [done|split; [done|right]]. destruct (smQuarantine m); [by apply negb_true_iff|done]. }
  split; [|auto]. intros i Hi. destruct (Hids i Hi) as [?|(? & ? & x & ? & ?)]; [left; auto|right; eauto 6].
Qed.
End handshake.

(** ** Witnesses *)

Module HandshakeExamples.

Definition digest (s : string) : string := s.
Definition no_retry (_ : string) : option Z := None.

Definition http_only : Planner := mkPlanner (mkSelection "" ∅) None ∅ (mkGrouper 2 true false).

Definition fresh : SANCertManager :=
  mkManager "prod" false (Some "http") http_only true ∅ ∅ ∅ ∅ ∅ ∅ ∅ ∅ None.

Definition registered : SANCertManager := default fresh (RegisterDomain [] 0 "a.example" "web" fresh).
Definition claimed : SANCertManager := with_provisioning {["service:web"]} registered.
Definition under_way : SANCertManager := takeFromPending ["a.example"] claimed.
Definition leaf : option (Z * Z) := Some (0, 90 * day).
Definition issued : SANCertManager := (adoptCertificateAt digest leaf ["a.example"] "prod" under_way).1.
Definition certificate : ManagedCert := mkCert (sanCertID digest ["a.example"]) ["a.example"] (90 * day) (Some 0) "prod".

Abbreviation step := (@san_step CertPlanExamples.two_labels insertion_SortFunc digest no_retry).
Abbreviation reachable := (@san_reachable CertPlanExamples.two_labels insertion_SortFunc digest no_retry).

Lemma by_batch m i bs l b m' b' ad :
  reachable (mkSan m bs l) → bs !! i = Some b →
  @batch_step CertPlanExamples.two_labels insertion_SortFunc digest no_retry m b m' b' ad →
  reachable (mkSan m' (<[i := b']> bs) (option_list ad ++ l)).
Proof. intros Hr Hi Hb. eapply sr_step; [exact Hr|]. by apply (ss_batch _ _ (mkSan m bs l) i b). Qed.

Definition held : San :=
  mkSan issued {[0%nat := BRelease "a.example" "service:web" (Some certificate)]} [["a.example"]].
Definition freed : San :=
  mkSan (releaseSlot "service:web" (sanM held)) (delete 0%nat (sanBatches held)) (sanAdopted held).

Lemma ready_to_release : reachable held.
Proof.
  assert (Hreg : reachable (mkSan registered ∅ [])).
  { eapply sr_step; [apply (sr_new _ _ fresh)|].
    - repeat split; vm_compute; try reflexivity; discriminate.
    - apply (ss_register _ _ (mkSan fresh ∅ []) [] 0 "a.example" "web"); vm_compute; reflexivity. }
  assert (H0 : reachable (mkSan registered {[0%nat := BTrigger "a.example"]} [])).
  { eapply sr_step; [exact Hreg|]. apply (ss_provision _ _ (mkSan registered ∅ []) 0 0); vm_compute; reflexivity. }
  assert (Hput : ∀ b b', <[0%nat := b]> {[0%nat := b']} =@{gmap nat Batch} {[0%nat := b]}) by (intros; apply insert_singleton_eq).
  eapply (by_batch _ 0 _ _ _ registered (BClaim "a.example") None) in H0; [|reflexivity|by apply (bs_probe _ _ 0 None)].
  rewrite Hput in H0.
  eapply (by_batch _ 0 _ _ _ claimed (BFilter "a.example" "service:web" ["a.example"]) None) in H0; [|reflexivity|].
  2:{ apply (bs_claim _ _ ["a.example"] 0); [apply (bool_decide_unpack _); vm_compute; exact I|vm_compute; reflexivity]. }
  rewrite Hput in H0.
  eapply (by_batch _ 0 _ _ _ claimed (BTake "a.example" "service:web" ["a.example"]) None) in H0;
    [|reflexivity|by apply (bs_filter _ _ 0 None)].
  rewrite Hput in H0.
  eapply (by_batch _ 0 _ _ _ under_way _ None) in H0; [|reflexivity|by apply bs_take].
  rewrite Hput in H0.
  eapply (by_batch _ 0 _ _ _ under_way (BToken "a.example" "service:web" ["a.example"] ["a.example"]) None) in H0; [|reflexivity|].
  2:{ apply (bs_plan _ _ ["a.example"]); [apply (bool_decide_unpack _); vm_compute; exact I|vm_compute; reflexivity]. }
  rewrite Hput in H0.
  eapply (by_batch _ 0 _ _ _ under_way _ None) in H0; [|reflexivity|by apply bs_token]. rewrite Hput in H0.
  eapply (by_batch _ 0 _ _ _ under_way _ None) in H0; [|reflexivity|].
  2:{ apply (bs_ordered _ _ (λ _, None) (λ _ _, Ok leaf)) with (asked := ["http"]). vm_compute. reflexivity. }
  rewrite Hput in H0.
  eapply (by_batch _ 0 _ _ _ under_way _ None) in H0; [|reflexivity|by apply bs_stamp]. rewrite Hput in H0.
  eapply (by_batch _ 0 _ _ _ issued (BClear "a.example" "service:web" ["a.example"] certificate) (Some ["a.example"])) in H0;
    [|reflexivity|apply bs_adopted; vm_compute; reflexivity].
  rewrite Hput in H0.
  eapply (by_batch _ 0 _ _ _ issued (BRelease "a.example" "service:web" (Some certificate)) None) in H0;
    [|reflexivity|by apply (bs_clear _ _ _ _ _ _ issued)].
  rewrite Hput in H0. exact H0.
Qed.

Lemma handshake_served_covers_witness :
  ∃ s s', reachable s ∧ step s (Answered "a.example" certificate) s' ∧
    identifiersCover (Domains certificate) "a.example" = true.
Proof.
  exists held, freed. split; [apply ready_to_release|].
  assert (Hstep : step held (Answered "a.example" certificate) freed).
  { apply (ss_release _ _ held 0 "a.example" "service:web" (Some certificate)). reflexivity. }
  split; [exact Hstep|].
  apply (@handshake_served_covers CertPlanExamples.two_labels CertPlanExamples.two_labels_spec insertion_SortFunc
    insertion_SortFuncSpec digest no_retry _ "a.example" certificate _ ready_to_release Hstep).
  intros ds ds' ->%list_elem_of_singleton ->%list_elem_of_singleton _. reflexivity.
Defined.

Lemma handshake_single_flight_witness :
  "service:web" ∈ provisioning issued ↔
  ∃ i b, sanBatches held !! i = Some b ∧ batch_key b = Some "service:web".
Proof.
  apply (@handshake_single_flight CertPlanExamples.two_labels CertPlanExamples.two_labels_spec insertion_SortFunc
    insertion_SortFuncSpec digest no_retry _ ready_to_release).
Defined.

Lemma handshake_order_witness :
  let m2 := default fresh (RegisterDomain [] 0 "b.example" "web" registered) in
  claimBatch ["a.example"; "b.example"] 0 "a.example" m2 =
    Some (with_provisioning {["service:web"]} m2, "service:web", ["a.example"; "b.example"]) ∧
  identifiersCover ["a.example"; "b.example"] "a.example" = true.
Proof.
  intros m2. assert (Hclaim : claimBatch ["a.example"; "b.example"] 0 "a.example" m2 =
    Some (with_provisioning {["service:web"]} m2, "service:web", ["a.example"; "b.example"])) by (vm_compute; reflexivity).
  split; [exact Hclaim|].
  refine (proj1 (proj2 (proj2 (proj2 (@handshake_order CertPlanExamples.two_labels CertPlanExamples.two_labels_spec
    insertion_SortFunc insertion_SortFuncSpec digest no_retry m2 _ m2 m2 m2 m2 ["a.example"; "b.example"] ["a.example"; "b.example"] 0 0 None "a.example"
    "service:web" ["a.example"; "b.example"] ["a.example"; "b.example"] ["a.example"; "b.example"]
    Hclaim _ _ _ _ _ _))))); first [vm_compute; reflexivity | vm_compute; discriminate
    | apply (bool_decide_unpack _); vm_compute; exact I | repeat constructor].
Defined.

(** The directory of a certificate is read again when the order has come back:
    a switch meanwhile files the production certificate as a staging one. *)
Lemma stamp_follows_switch :
  let m2 := SetServiceDirectory "web" "staging" under_way in
  directoryForDomains under_way ["a.example"] = "prod" ∧
  match (adoptCertificate digest leaf ["a.example"] m2).2 with
  | Some c => Directory c = "staging" ∧ certMatchesServiceDirectory m2 c "web" = true
  | None => False
  end.
Proof. vm_compute. repeat split. Qed.

End HandshakeExamples.
