(* ===== verification/CertStore.v ===== *)
(** * The certificate store: the state file and the certificate directories of
    [internal/server/san_cert_manager.go], [validateManagerState] and
    [writeCertificateFiles]

    On disk a certificate is a directory with the pair, under the identifier
    made safe as a file name, and one file says which identifiers there are and
    which name is served by which.  X.509, PEM and JSON are parameters.  Here
    are the data, what makes a state trustworthy, the writes as single disk
    operations that can be interrupted between any two, and what a manager that
    boots on the store finds. *)
From S2P Require Import Prelude GoStrings CertPlan SanCerts.

(** ** Data *)

(** [managerState].  A [nil] map is [None], and so is a [null] record. *)
Record managerState := mkState {
  stCertificates : option (gmap string (option ManagedCert));
  stDomainMap : option (gmap string string);
  SavedAt : Z }.

Definition zeroState : managerState := mkState None None 0.

(** What is read of a leaf certificate. *)
Record Leaf := mkLeaf { DNSNames : list string; lfNotBefore : Z; lfNotAfter : Z }.

Inductive KeyKind := KeyECDSA | KeyOther.

(** [tls.X509KeyPair] (the leaf's encoding), [x509.ParseCertificate],
    [certcrypto.ParsePEMPrivateKey]. *)
Class Crypto := {
  X509KeyPair : string → string → option string;
  ParseCertificate : string → option Leaf;
  ParsePEMPrivateKey : string → option KeyKind }.

(** [encoding/json]: a state is decoded over the one in the variable, as Go
    does; of an account only the key is read. *)
Class StoreJSON := {
  unmarshalState : string → managerState → option managerState;
  marshalState : managerState → string;
  unmarshalUser : string → option string;
  validJSON : string → bool }.

(** A state that is read back as it was written. *)
Definition stable `{!StoreJSON} (s : managerState) : Prop := unmarshalState (marshalState s) zeroState = Some s.

(** Whatever was decoded is encoded so that it is decoded again: its strings
    are valid and its times are in range. *)
Class StoreJSONSpec `{!StoreJSON} : Prop := {
  zero_stable : stable zeroState;
  state_stable data s s' : stable s → unmarshalState data s = Some s' → stable s' }.

(** Go ranges over a map in any order. *)
Class MapRange := range_map : ∀ {A : Type}, gmap string A → list (string * A).
Class MapRangeSpec `{!MapRange} : Prop := {
  range_map_perm {A : Type} (m : gmap string A) : range_map m ≡ₚ map_to_list m }.

(** [slices.Sorted(maps.Keys(m))]. *)
Definition keysInOrder {A} (m : gmap string A) : list string := sort_strings (map_to_list m).*1.

(** [sortedCopy]. *)
Definition sortedCopy (domains : list string) : list string := sort_strings domains.

(** ** Names of directories *)

Definition safe_name_byte (c : ascii) : bool :=
  let n := byte_of c in
  ((97 <=? n) && (n <=? 122)) || ((65 <=? n) && (n <=? 90)) || ((48 <=? n) && (n <=? 57)) ||
  Ascii.eqb c "-" || Ascii.eqb c "_" || Ascii.eqb c ".".

(** A digit of [hex.EncodeToString]. *)
Definition is_lower_hex (c : ascii) : bool :=
  let n := byte_of c in ((48 <=? n) && (n <=? 57)) || ((97 <=? n) && (n <=? 102)).

Fixpoint sanitizeFilename (s : string) : string :=
  match s with
  | "" => ""
  | String c s => String (if safe_name_byte c then c else "_"%char) (sanitizeFilename s)
  end.

(** Where an old version kept its cache. *)
Definition legacyHTTP01CacheDir : string := "http01".

(** A name that leads out of the directory it is joined to, or nowhere. *)
Definition unsafe_dir (dir : string) : bool := String.eqb dir "" || String.eqb dir "." || String.eqb dir "..".

(** ** A trustworthy state: [validateManagerState] *)

Inductive StateFault :=
  NotAState | NullCertificate (id : string) | OtherIdentifier (id other : string) | UnsafeDirectory (id : string)
| SharedDirectory (earlier id dir : string) | MissingReference (domain id : string) | NotCovering (domain id : string).

Fixpoint validateCertificates (dirs : gmap string string) (l : list (string * option ManagedCert)) : option StateFault :=
  match l with
  | [] => None
  | (id, None) :: _ => Some (NullCertificate id)
  | (id, Some c) :: l =>
      if negb (String.eqb (Identifier c) id) then Some (OtherIdentifier id (Identifier c))
      else
        let dir := sanitizeFilename id in
        if unsafe_dir dir then Some (UnsafeDirectory id)
        else match dirs !! dir with
             | Some earlier => Some (SharedDirectory earlier id dir)
             | None => validateCertificates (<[dir := id]> dirs) l
             end
  end.

Fixpoint validateDomainMap (certs : gmap string (option ManagedCert)) (l : list (string * string)) : option StateFault :=
  match l with
  | [] => None
  | (domain, id) :: l =>
      match certs !! id with
      | None => Some (MissingReference domain id)
      | Some None => Some (NullCertificate id)
      | Some (Some c) =>
          if identifiersCover (Domains c) domain then validateDomainMap certs l else Some (NotCovering domain id)
      end
  end.

Definition validateManagerState `{!MapRange} (s : managerState) : option StateFault :=
  match stCertificates s, stDomainMap s with
  | Some certs, Some dm =>
      match validateCertificates ∅ (range_map certs) with
      | Some e => Some e
      | None => validateDomainMap certs (range_map dm)
      end
  | _, _ => Some NotAState
  end.

(** What it checks. *)
Record trusted (s : managerState) (certs : gmap string (option ManagedCert)) (dm : gmap string string) : Prop := {
  tr_certs : stCertificates s = Some certs;
  tr_map : stDomainMap s = Some dm;
  tr_record id o : certs !! id = Some o → ∃ c, o = Some c ∧ Identifier c = id ∧ unsafe_dir (sanitizeFilename id) = false;
  tr_apart id id' : is_Some (certs !! id) → is_Some (certs !! id') → sanitizeFilename id = sanitizeFilename id' → id = id';
  tr_covered d id : dm !! d = Some id → ∃ c, certs !! id = Some (Some c) ∧ identifiersCover (Domains c) d = true }.

(** ** The disk *)

(** The certificate directory, with a directory per certificate and files
    beside them, the state file and the file of the dynamic domains.  Files that
    are still being written are among the others under their temporary name. *)
Record CertDisk := mkDisk {
  dkDirs : gmap string (gmap string string);
  dkFiles : gmap string string;
  dkState : option string;
  dkDynamic : option string }.

Definition emptyDisk : CertDisk := mkDisk ∅ ∅ None None.

Inductive DiskOp :=
| OpMkdir (dir : string)
| OpStage (dir base data : string)
| OpCommit (dir base : string)
| OpFile (name data : string)
| OpDynamic (data : string)
| OpState (data : string)
| OpRemove (dir : string).

Definition with_dirs (dirs : gmap string (gmap string string)) (d : CertDisk) : CertDisk :=
  mkDisk dirs (dkFiles d) (dkState d) (dkDynamic d).

Definition tmpName (base : string) : string := base +:+ ".tmp".

Definition apply_op (op : DiskOp) (d : CertDisk) : CertDisk :=
  match op with
  | OpMkdir dir => with_dirs (<[dir := default ∅ (dkDirs d !! dir)]> (dkDirs d)) d
  | OpStage dir base data => with_dirs (<[dir := <[tmpName base := data]> (default ∅ (dkDirs d !! dir))]> (dkDirs d)) d
  | OpCommit dir base =>
      let files := default ∅ (dkDirs d !! dir) in
      match files !! tmpName base with
      | Some data => with_dirs (<[dir := <[base := data]> (delete (tmpName base) files)]> (dkDirs d)) d
      | None => d
      end
  | OpFile name data => mkDisk (dkDirs d) (<[name := data]> (dkFiles d)) (dkState d) (dkDynamic d)
  | OpDynamic data => mkDisk (dkDirs d) (dkFiles d) (dkState d) (Some data)
  | OpState data => mkDisk (dkDirs d) (dkFiles d) (Some data) (dkDynamic d)
  | OpRemove dir => with_dirs (delete dir (dkDirs d)) d
  end.

Definition run_ops (ops : list DiskOp) (d : CertDisk) : CertDisk := foldl (λ d op, apply_op op d) d ops.

(** Where a sequence of writes can stop, be it by an error or by a crash:
    between two of them, or with a temporary file half written. *)
Inductive cut_short (ops : list DiskOp) (d : CertDisk) : CertDisk → Prop :=
| cut_between l r : ops = l ++ r → cut_short ops d (run_ops l d)
| cut_torn l dir base data torn r :
    ops = l ++ OpStage dir base data :: r → cut_short ops d (apply_op (OpStage dir base torn) (run_ops l d)).

(** [writeCertificateFiles]: both files are staged before either is renamed. *)
Definition writeCertificateFiles (certID certPEM keyPEM : string) : list DiskOp :=
  let dir := sanitizeFilename certID in
  [OpMkdir dir; OpStage dir "cert.pem" certPEM; OpStage dir "key.pem" keyPEM;
   OpCommit dir "cert.pem"; OpCommit dir "key.pem"].

(** The files of a certificate, where both are there. *)
Definition diskPair (d : CertDisk) (dir : string) : option (string * string) :=
  files ← dkDirs d !! dir; cert ← files !! "cert.pem"; key ← files !! "key.pem"; Some (cert, key).

Section load.
Context `{!Crypto, !StoreJSON}.

(** [tls.LoadX509KeyPair], of which the leaf is kept. *)
Definition loadPair (d : CertDisk) (dir : string) : option Leaf :=
  pair ← diskPair d dir; der ← X509KeyPair pair.1 pair.2; ParseCertificate der.

(** One record of [loadState]; the outer [None] is the panic on a [null]
    record whose files are there. *)
Definition loadRecord (d : CertDisk) (id : string) (o : option ManagedCert) : option (option ManagedCert) :=
  match loadPair d (sanitizeFilename id), o with
  | Some _, None => None
  | Some leaf, Some c => Some (Some (mkCert (Identifier c) (Domains c) (NotAfter c) (Some (lfNotBefore leaf)) (Directory c)))
  | None, o => Some o
  end.

Inductive LoadError := LoadUnreadable.

(** [loadState] on a manager without certificates: what it knows afterwards. *)
Definition loadState (d : CertDisk)
  : option (result LoadError (option (gmap string (option ManagedCert) * option (gmap string string)))) :=
  match dkState d with
  | None => Some (Ok None)
  | Some data =>
      match unmarshalState data zeroState with
      | None => Some (Err LoadUnreadable)
      | Some s =>
          let certs := default ∅ (stCertificates s) in
          if forallb (λ p, bool_decide (is_Some (loadRecord d p.1 p.2))) (map_to_list certs)
          then Some (Ok (Some (map_imap (λ id o, loadRecord d id o) certs, stDomainMap s)))
          else None
      end
  end.
End load.

(** [persistStateLocked]: what a manager writes. *)
Definition persistState `{!StoreJSON} (now : Z) (m : SANCertManager) : list DiskOp :=
  [OpState (marshalState (mkState (Some (Some <$> certificates m)) (Some (domainToCert m)) now))].

(** ** Lemmas *)

Lemma elem_of_sortedKeys {A} (m : gmap string A) k : k ∈ keysInOrder m ↔ is_Some (m !! k).
Proof.
  unfold keysInOrder. rewrite sort_strings_perm, list_elem_of_fmap. split.
  - intros ([k' a] & -> & Hin). apply elem_of_map_to_list in Hin. by eexists.
  - intros [a Ha]. exists (k, a). split; [done|]. by apply elem_of_map_to_list.
Qed.

Lemma sanitizeFilename_idemp s : sanitizeFilename (sanitizeFilename s) = sanitizeFilename s.
Proof.
  induction s as [|c s IH]; [done|]. cbn. rewrite IH. f_equal.
  destruct (safe_name_byte c) eqn:Hc; [by rewrite Hc|done].
Qed.

(** A sanitized name has no separator, so joined to a directory it stays a
    single element of the path. *)
Lemma sanitized_no_slash s : sanitizeFilename s = s → index_byte s slash = None.
Proof.
  induction s as [|c s IH]; [done|]. cbn. intros [= Hc Hs].
  destruct (Ascii.eqb_spec c slash) as [->|Hne]; [done|]. by rewrite IH.
Qed.

Lemma sanitizeFilename_app s t : sanitizeFilename (s +:+ t) = sanitizeFilename s +:+ sanitizeFilename t.
Proof. induction s as [|c s IH]; [done|]. cbn. by rewrite IH. Qed.

Lemma sanitizeFilename_id s : all_bytes safe_name_byte s = true → sanitizeFilename s = s.
Proof. induction s as [|c s IH]; [done|]. cbn. intros [-> Hs]%andb_true_iff. by rewrite IH. Qed.

(** *** Validation *)

Lemma validateCertificates_spec dirs l :
  NoDup l.*1 →
  validateCertificates dirs l = None ↔
  (∀ id o, (id, o) ∈ l →
    ∃ c, o = Some c ∧ Identifier c = id ∧ unsafe_dir (sanitizeFilename id) = false ∧ dirs !! sanitizeFilename id = None) ∧
  (∀ id id', id ∈ l.*1 → id' ∈ l.*1 → sanitizeFilename id = sanitizeFilename id' → id = id').
Proof.
  revert dirs. induction l as [|[id o] l IH]; intros dirs Hnd; [by split; [intros _; split; set_solver|]|].
  apply NoDup_cons in Hnd as [Hni Hnd]. cbn. destruct o as [c|].
  2:{ split; [done|]. intros [H _]. destruct (H id None) as (? & ? & _); [left|done]. }
  destruct (String.eqb_spec (Identifier c) id) as [Hid|Hid]; cbn.
  2:{ split; [done|]. intros [H _]. destruct (H id (Some c)) as (? & [= <-] & ? & _); [left|done]. }
  destruct (unsafe_dir _) eqn:Hu.
  { split; [done|]. intros [H _]. destruct (H id (Some c)) as (? & _ & _ & Hf & _); [left|]. by rewrite Hu in Hf. }
  destruct (dirs !! sanitizeFilename id) as [e|] eqn:Hd.
  { split; [done|]. intros [H _]. destruct (H id (Some c)) as (? & _ & _ & _ & Hf); [left|]. by rewrite Hd in Hf. }
  rewrite IH by done. split.
  - intros [Hrec Hap]. split.
    + intros id' o' [[= -> ->]|Hin]%elem_of_cons; [by exists c|].
      destruct (Hrec id' o' Hin) as (c' & ? & ? & ? & Hn). exists c'. apply lookup_insert_None in Hn as [? _]. done.
    + intros i j [->|Hi]%elem_of_cons [->|Hj]%elem_of_cons Heq; [done|..|by apply Hap].
      * apply list_elem_of_fmap in Hj as ([j' oj] & -> & Hj). destruct (Hrec _ _ Hj) as (? & _ & _ & _ & Hn).
        apply lookup_insert_None in Hn as [_ Hn]. by destruct Hn.
      * apply list_elem_of_fmap in Hi as ([i' oi] & -> & Hi). destruct (Hrec _ _ Hi) as (? & _ & _ & _ & Hn).
        apply lookup_insert_None in Hn as [_ Hn]. by destruct Hn.
  - intros [Hrec Hap]. split; [|intros i j Hi Hj; apply Hap; by right].
    intros id' o' Hin. destruct (Hrec id' o') as (c' & ? & ? & ? & Hn); [by right|]. exists c'.
    split; [done|]. split; [done|]. split; [done|]. apply lookup_insert_None. split; [done|]. intros Heq.
    apply Hni. rewrite (Hap id id'); [by apply (list_elem_of_fmap_2 fst _ (id', o'))|left|right|done].
    by apply (list_elem_of_fmap_2 fst _ (id', o')).
Qed.

Lemma validateDomainMap_spec certs l :
  validateDomainMap certs l = None ↔
  ∀ d id, (d, id) ∈ l → ∃ c, certs !! id = Some (Some c) ∧ identifiersCover (Domains c) d = true.
Proof.
  induction l as [|[d id] l IH]; [set_solver|]. cbn.
  destruct (certs !! id) as [[c|]|] eqn:Hc.
  2,3: split; [done|]; intros H; destruct (H d id) as (? & ? & _); [left|congruence].
  destruct (identifiersCover (Domains c) d) eqn:Hcov.
  2:{ split; [done|]. intros H. destruct (H d id) as (? & ? & ?); [left|congruence]. }
  rewrite IH. split; [|set_solver]. intros H d' id' [[= -> ->]|Hin]%elem_of_cons; eauto.
Qed.

Lemma elem_of_range_map `{!MapRange, !MapRangeSpec} {A} (m : gmap string A) k a : (k, a) ∈ range_map m ↔ m !! k = Some a.
Proof. by rewrite range_map_perm, elem_of_map_to_list. Qed.

Lemma elem_of_range_keys `{!MapRange, !MapRangeSpec} {A} (m : gmap string A) k : k ∈ (range_map m).*1 ↔ is_Some (m !! k).
Proof.
  rewrite list_elem_of_fmap. split.
  - intros ([k' a] & -> & Hin%elem_of_range_map). by eexists.
  - intros [a Ha]. exists (k, a). by rewrite elem_of_range_map.
Qed.

(** The validation accepts exactly the trustworthy states, in whatever order
    the maps are ranged over. *)
Lemma validateManagerState_spec `{!MapRange, !MapRangeSpec} s :
  validateManagerState s = None ↔ ∃ certs dm, trusted s certs dm.
Proof.
  unfold validateManagerState.
  destruct (stCertificates s) as [certs|] eqn:Hcs.
  2:{ split; [done|]. intros (? & ? & []). congruence. }
  destruct (stDomainMap s) as [dm|] eqn:Hdm.
  2:{ split; [done|]. intros (? & ? & []). congruence. }
  assert (Hnd : NoDup (range_map certs).*1) by (rewrite range_map_perm; apply NoDup_fst_map_to_list).
  split.
  - destruct (validateCertificates _ _) eqn:Hvc; [done|]. intros Hvm. exists certs, dm.
    apply validateCertificates_spec in Hvc as [Hrec Hap]; [|done]. rewrite validateDomainMap_spec in Hvm.
    split; [done|done|..].
    + intros id o Ho. destruct (Hrec id o) as (c & ? & ? & ? & _); [by apply elem_of_range_map|eauto].
    + intros id id' Hi Hi'. apply Hap; by apply elem_of_range_keys.
    + intros d id Hd. apply Hvm. by apply elem_of_range_map.
  - intros (certs' & dm' & [Hc Hm Hrec Hap Hcov]). assert (certs' = certs ∧ dm' = dm) as [-> ->] by (split; congruence).
    rewrite (proj2 (validateCertificates_spec ∅ _ Hnd)).
    + apply validateDomainMap_spec. intros d id Hd%elem_of_range_map. by apply Hcov.
    + split.
      * intros id o Ho%elem_of_range_map. destruct (Hrec id o Ho) as (c & ? & ? & ?). by exists c.
      * intros id id' Hi%elem_of_range_keys Hi'%elem_of_range_keys. by apply Hap.
Qed.

(** *** The disk *)

Lemma run_ops_app l k d : run_ops (l ++ k) d = run_ops k (run_ops l d).
Proof. apply foldl_app. Qed.

(** The directories and the files a write is about. *)
Definition op_dir (op : DiskOp) : option string :=
  match op with
  | OpMkdir dir | OpStage dir _ _ | OpCommit dir _ | OpRemove dir => Some dir
  | OpFile _ _ | OpDynamic _ | OpState _ => None
  end.

Definition is_state_op (op : DiskOp) : bool := match op with OpState _ => true | _ => false end.

Lemma apply_op_other_dir op dir d : op_dir op ≠ Some dir → dkDirs (apply_op op d) !! dir = dkDirs d !! dir.
Proof.
  destruct op; cbn; intros Hne; try done; try (destruct (_ !! tmpName base)); cbn;
    rewrite ?lookup_insert_ne, ?lookup_delete_ne by congruence; done.
Qed.

Lemma run_ops_other_dir ops dir d :
  Forall (λ op, op_dir op ≠ Some dir) ops → dkDirs (run_ops ops d) !! dir = dkDirs d !! dir.
Proof.
  intros Hops. revert d. induction Hops as [|op ops Hop _ IH]; intros d; [done|].
  change (run_ops (op :: ops) d) with (run_ops ops (apply_op op d)). by rewrite IH, apply_op_other_dir.
Qed.

Lemma apply_op_state op d : is_state_op op = false → dkState (apply_op op d) = dkState d.
Proof. destruct op; cbn; try done. by destruct (_ !! tmpName base). Qed.

Lemma run_ops_state ops d : Forall (λ op, is_state_op op = false) ops → dkState (run_ops ops d) = dkState d.
Proof.
  intros Hops. revert d. induction Hops as [|op ops Hop _ IH]; intros d; [done|].
  change (run_ops (op :: ops) d) with (run_ops ops (apply_op op d)). by rewrite IH, apply_op_state.
Qed.

Lemma diskPair_dirs d d' dir : dkDirs d !! dir = dkDirs d' !! dir → diskPair d dir = diskPair d' dir.
Proof. unfold diskPair. by intros ->. Qed.

Lemma apply_stage dir base data d f m :
  dkDirs d = <[dir := f]> m → dkDirs (apply_op (OpStage dir base data) d) = <[dir := <[tmpName base := data]> f]> m.
Proof. intros Hd. cbn. rewrite Hd, lookup_insert_eq. cbn. by rewrite insert_insert_eq. Qed.

Lemma apply_commit dir base data d f m :
  dkDirs d = <[dir := f]> m → f !! tmpName base = Some data →
  dkDirs (apply_op (OpCommit dir base) d) = <[dir := <[base := data]> (delete (tmpName base) f)]> m.
Proof. intros Hd Hf. cbn. rewrite Hd, lookup_insert_eq. cbn. rewrite Hf. cbn. by rewrite insert_insert_eq. Qed.

Lemma writeCertificateFiles_dirs id cert key d :
  dkDirs (run_ops (writeCertificateFiles id cert key) d) =
  <[sanitizeFilename id :=
      <["key.pem" := key]> (delete "key.pem.tmp" (<["cert.pem" := cert]> (delete "cert.pem.tmp"
        (<["key.pem.tmp" := key]> (<["cert.pem.tmp" := cert]> (default ∅ (dkDirs d !! sanitizeFilename id)))))))]>
    (dkDirs d).
Proof.
  unfold writeCertificateFiles, run_ops. set (dir := sanitizeFilename id). cbn [foldl].
  apply (apply_commit dir "key.pem"); [apply (apply_commit dir "cert.pem"); [do 2 apply (apply_stage dir); done|]|].
  - rewrite lookup_insert_ne by done. apply lookup_insert_eq.
  - rewrite lookup_insert_ne, lookup_delete_ne by done. apply lookup_insert_eq.
Qed.

Lemma writeCertificateFiles_pair id cert key d :
  diskPair (run_ops (writeCertificateFiles id cert key) d) (sanitizeFilename id) = Some (cert, key).
Proof.
  unfold diskPair. rewrite writeCertificateFiles_dirs, lookup_insert_eq. cbn.
  rewrite lookup_insert_eq, (lookup_insert_ne _ "key.pem" "cert.pem") by done.
  by rewrite lookup_delete_ne, lookup_insert_eq.
Qed.

Lemma writeCertificateFiles_op_dir id cert key :
  Forall (λ op, op_dir op = Some (sanitizeFilename id) ∧ is_state_op op = false) (writeCertificateFiles id cert key).
Proof. repeat constructor. Qed.

Lemma writeCertificateFiles_other id cert key d dir :
  dir ≠ sanitizeFilename id → diskPair (run_ops (writeCertificateFiles id cert key) d) dir = diskPair d dir.
Proof.
  intros Hne. apply diskPair_dirs, run_ops_other_dir. eapply Forall_impl; [apply writeCertificateFiles_op_dir|].
  intros op [-> _]. congruence.
Qed.

(** What is true of every point between two writes, and does not depend on
    temporary files, is true wherever a sequence of writes stops. *)
Lemma cut_at (P : CertDisk → Prop) ops d d' :
  (∀ l r, ops = l ++ r → P (run_ops l d)) →
  (∀ l r dir base data torn, ops = l ++ OpStage dir base data :: r → P (run_ops l d) →
    P (apply_op (OpStage dir base torn) (run_ops l d))) →
  cut_short ops d d' → P d'.
Proof. intros Hb Ht [l r Heq|l dir base data torn r Heq]; [eauto|]. eapply Ht; [done|]. eapply Hb, Heq. Qed.
