(* ===== verification/CertArchive.v ===== *)
(** * Archives of the certificate store:
    [internal/server/cert_store_archive.go]

    An archive is a tarball in gzip: what reading it yields, entry by entry,
    with the bytes each step takes from the stream.  The reader refuses what
    the exporter would not write; what it accepts keeps within the store, and
    its state, its pairs and its keys fit together ([read_trusted]). *)
From S2P Require Import Prelude GoStrings CertPlan SanCerts CertStore.

(** ** Names *)

Definition archiveStateEntry : string := "acme.state".
Definition archiveDynamicDomainsEntry : string := "dynamic-domains.state".
Definition archiveCertsPrefix : string := "certs/".
Definition acmeUserFile : string := "acme_user.json".
Definition archiveAccountKeyEntry : string := archiveCertsPrefix +:+ acmeUserFile.

(** The entry of a file of a certificate. *)
Definition pairEntry (dir base : string) : string := archiveCertsPrefix +:+ dir +:+ "/" +:+ base.

Definition isExtraAccountKeyFile (name : string) : bool :=
  if String.eqb name "acme_user_staging.json" then true
  else match CutPrefix name "acme_user_" with
       | None => false
       | Some hash =>
           match CutSuffix hash ".json" with
           | None => false
           | Some hash => (str_len hash =? 8) && all_bytes is_lower_hex hash
           end
       end.

(** [path.Clean]: the elements kept so far are in reverse. *)
Fixpoint clean_parts (rooted : bool) (parts kept : list string) : list string :=
  match parts with
  | [] => rev kept
  | part :: parts =>
      if String.eqb part "" || String.eqb part "." then clean_parts rooted parts kept
      else if String.eqb part ".." then
        match kept with
        | [] => clean_parts rooted parts (if rooted then [] else [".."])
        | k :: kept' => clean_parts rooted parts (if String.eqb k ".." then ".." :: kept else kept')
        end
      else clean_parts rooted parts (part :: kept)
  end.

Definition path_Clean (p : string) : string :=
  let rooted := HasPrefix p "/" in
  match Join (clean_parts rooted (Split p "/") []) "/", rooted with
  | "", false => "."
  | s, false => s
  | s, true => "/" +:+ s
  end.

(** ** The cap on what is read *)

Definition maxCertArchiveBytes : Z := 2 ^ 29.
Definition maxCertArchiveEntries : Z := 100000.
Definition maxCertArchiveHeaderBytes : Z := 2 ^ 26.

Inductive ReadError := ReadEOF | ReadTooLarge | ReadFailed.

(** [cappedReader.Read] over a reader with states [R]: [read r n] hands out at
    most [n] bytes. *)
Definition cappedRead {R} (read : R → nat → R * string * option ReadError) (len : nat) (x : R * Z)
  : (R * Z) * string * option ReadError :=
  let '(r, remaining) := x in
  if (len =? 0)%nat then (x, "", None)
  else if remaining <=? 0 then
    let '(r, data, err) := read r 1%nat in
    if 0 <? str_len data then ((r, remaining), "", Some ReadTooLarge) else ((r, remaining), "", err)
  else
    let '(r, data, err) := read r (if remaining <? Z.of_nat len then Z.to_nat remaining else len) in
    ((r, remaining - str_len data), data, err).

(** ** Archives *)

Inductive TarType := TarDir | TarReg | TarOther.

(** One round of the loop over the tar reader: [Next] takes [tiNext] bytes,
    the rest of the entry before it included, and [ReadAll] the data. *)
Record TarItem := mkItem {
  tiNext : Z;
  tiName : string;
  tiType : TarType;
  tiData : string;
  tiDamaged : bool }.

(** How the stream ends: with the end marker, and then what follows it up to
    the checksum of gzip, or in the middle of something. *)
Inductive TarEnd := EndMarker (next trailing : Z) (intact : bool) | EndBroken (next : Z).

Record Tarball := mkTarball { tbItems : list TarItem; tbEnd : TarEnd }.

Record archiveCertPair := mkPair { apCert : string; apKey : string; apLeaf : Leaf }.

Inductive certArchiveWarning :=
| warnMissingCertificate (id : string)
| warnAccountKey (name : option string) (parses : bool).

Record certStoreArchive := mkArchive {
  arState : managerState;
  arHasState : bool;
  arAccountKey : option string;
  arDynamic : option string;
  arExtra : gmap string string;
  arCerts : gmap string archiveCertPair;
  arWarnings : list certArchiveWarning }.

Definition emptyArchive : certStoreArchive := mkArchive zeroState false None None ∅ ∅ [].

Definition with_state (s : managerState) (a : certStoreArchive) : certStoreArchive :=
  mkArchive s true (arAccountKey a) (arDynamic a) (arExtra a) (arCerts a) (arWarnings a).
Definition with_account (k : option string) (a : certStoreArchive) : certStoreArchive :=
  mkArchive (arState a) (arHasState a) k (arDynamic a) (arExtra a) (arCerts a) (arWarnings a).
Definition with_dynamic_file (data : string) (a : certStoreArchive) : certStoreArchive :=
  mkArchive (arState a) (arHasState a) (arAccountKey a) (Some data) (arExtra a) (arCerts a) (arWarnings a).
Definition with_extra (m : gmap string string) (a : certStoreArchive) : certStoreArchive :=
  mkArchive (arState a) (arHasState a) (arAccountKey a) (arDynamic a) m (arCerts a) (arWarnings a).
Definition with_pairs (m : gmap string archiveCertPair) (a : certStoreArchive) : certStoreArchive :=
  mkArchive (arState a) (arHasState a) (arAccountKey a) (arDynamic a) (arExtra a) m (arWarnings a).
Definition warn (w : certArchiveWarning) (a : certStoreArchive) : certStoreArchive :=
  mkArchive (arState a) (arHasState a) (arAccountKey a) (arDynamic a) (arExtra a) (arCerts a) (arWarnings a ++ [w]).

Inductive ArchiveError :=
| ArNotGzip | ArTooLarge | ArUnreadable | ArTooManyHeaders | ArTooManyEntries | ArNotRegular (name : string)
| ArNotAPath (name : string) | ArBadState | ArUnexpected (name : string) | ArEmpty
| ArMissing (dir base : string) | ArBadPair (dir : string) | ArBadLeaf (dir : string)
| ArNoState | ArUntrusted (f : StateFault) | ArOtherNames (id : string) | ArOtherExpiry (id : string).

Abbreviation RawCerts := (gmap string (gmap string string)).

Section archive.
Context `{!Crypto, !StoreJSON, !MapRange}.

(** *** Reading *)

Definition placeEntry (name data : string) (a : certStoreArchive) (rawCerts : RawCerts)
  : result ArchiveError (certStoreArchive * RawCerts) :=
  if negb (String.eqb name (path_Clean name)) || HasPrefix name "/" || HasPrefix name ".." then Err (ArNotAPath name)
  else if String.eqb name archiveStateEntry then
    match unmarshalState data (arState a) with
    | Some s => Ok (with_state s a, rawCerts)
    | None => Err ArBadState
    end
  else if String.eqb name archiveAccountKeyEntry then Ok (with_account (Some data) a, rawCerts)
  else if String.eqb name archiveDynamicDomainsEntry then Ok (with_dynamic_file data a, rawCerts)
  else match CutPrefix name archiveCertsPrefix with
       | None => Err (ArUnexpected name)
       | Some rest =>
           if isExtraAccountKeyFile rest then Ok (with_extra (<[rest := data]> (arExtra a)) a, rawCerts)
           else match Cut rest "/" with
                | None => Err (ArUnexpected name)
                | Some (dir, base) =>
                    if negb (String.eqb dir "") && String.eqb dir (sanitizeFilename dir) &&
                       (String.eqb base "cert.pem" || String.eqb base "key.pem") && negb (has_byte base slash)
                    then Ok (a, <[dir := <[base := data]> (default ∅ (rawCerts !! dir))]> rawCerts)
                    else Err (ArUnexpected name)
                end
       end.

(** [assembleCertPairs] over the directories in order. *)
Fixpoint assembleCertPairs (rawCerts : RawCerts) (dirs : list string) (a : certStoreArchive)
  : result ArchiveError certStoreArchive :=
  match dirs with
  | [] => Ok a
  | dir :: dirs =>
      let files := default ∅ (rawCerts !! dir) in
      match files !! "cert.pem", files !! "key.pem" with
      | None, _ => Err (ArMissing dir "cert.pem")
      | Some _, None => Err (ArMissing dir "key.pem")
      | Some cert, Some key =>
          match X509KeyPair cert key with
          | None => Err (ArBadPair dir)
          | Some der =>
              match ParseCertificate der with
              | None => Err (ArBadLeaf dir)
              | Some leaf =>
                  assembleCertPairs rawCerts dirs (with_pairs (<[dir := mkPair cert key leaf]> (arCerts a)) a)
              end
          end
      end
  end.

Definition usableAccountKey (data : string) (label : option string) (a : certStoreArchive) : certStoreArchive * bool :=
  match unmarshalUser data with
  | None => (warn (warnAccountKey label false) a, false)
  | Some pem =>
      match ParsePEMPrivateKey pem with
      | Some KeyECDSA => (a, true)
      | _ => (warn (warnAccountKey label true) a, false)
      end
  end.

Fixpoint checkExtraKeys (names : list string) (a : certStoreArchive) : certStoreArchive :=
  match names with
  | [] => a
  | name :: names =>
      let '(a, usable) := usableAccountKey (default "" (arExtra a !! name)) (Some name) a in
      checkExtraKeys names (if usable then a else with_extra (delete name (arExtra a)) a)
  end.

Definition checkAccountKeys (a : certStoreArchive) : certStoreArchive :=
  let a :=
    match arAccountKey a with
    | None => a
    | Some data => let '(a, usable) := usableAccountKey data None a in if usable then a else with_account None a
    end in
  checkExtraKeys (keysInOrder (arExtra a)) a.

Definition Truncate (t unit : Z) : Z := t - t mod unit.

(** The records of the state against the pairs, in order. *)
Fixpoint validateRecords (certs : gmap string (option ManagedCert)) (ids : list string) (a : certStoreArchive)
  : result ArchiveError certStoreArchive :=
  match ids with
  | [] => Ok a
  | id :: ids =>
      match arCerts a !! sanitizeFilename id, certs !! id with
      | Some p, Some (Some record) =>
          if negb (bool_decide (sortedCopy (Domains record) = sortedCopy (DNSNames (apLeaf p)))) then Err (ArOtherNames id)
          else if negb (Truncate (NotAfter record) second =? Truncate (lfNotAfter (apLeaf p)) second)
          then Err (ArOtherExpiry id)
          else validateRecords certs ids a
      | Some _, _ => validateRecords certs ids a
      | None, _ => validateRecords certs ids (warn (warnMissingCertificate id) a)
      end
  end.

(** [certStoreArchive.validate]. *)
Definition validateArchive (a : certStoreArchive) : result ArchiveError certStoreArchive :=
  let a := checkAccountKeys a in
  if negb (arHasState a) then
    if bool_decide (arCerts a = ∅) then Ok a else Err ArNoState
  else
    match validateManagerState (arState a) with
    | Some f => Err (ArUntrusted f)
    | None =>
        let certs := default ∅ (stCertificates (arState a)) in
        validateRecords certs (keysInOrder certs) a
    end.

(** The loop over the entries, and what comes after the last: [remaining] is
    what the capped reader still hands out. *)
Fixpoint readEntries (items : list TarItem) (fin : TarEnd) (remaining headerBytes entryCount fileCount : Z)
    (a : certStoreArchive) (rawCerts : RawCerts) : result ArchiveError (certStoreArchive * RawCerts * Z) :=
  match items with
  | [] =>
      match fin with
      | EndBroken next => Err (if remaining <=? next then ArTooLarge else ArUnreadable)
      | EndMarker next trailing intact =>
          if remaining <? next + trailing then Err ArTooLarge
          else if intact then Ok (a, rawCerts, fileCount) else Err ArUnreadable
      end
  | item :: items =>
      if remaining <? tiNext item then Err ArTooLarge
      else
        let remaining := remaining - tiNext item in
        let headerBytes := headerBytes + tiNext item in
        if maxCertArchiveHeaderBytes <? headerBytes then Err ArTooManyHeaders
        else if maxCertArchiveEntries <? entryCount + 1 then Err ArTooManyEntries
        else
          match tiType item with
          | TarDir => readEntries items fin remaining headerBytes (entryCount + 1) fileCount a rawCerts
          | TarOther => Err (ArNotRegular (tiName item))
          | TarReg =>
              if remaining <? str_len (tiData item) then Err ArTooLarge
              else if tiDamaged item then Err ArUnreadable
              else
                '(a, rawCerts) ← placeEntry (tiName item) (tiData item) a rawCerts;
                readEntries items fin (remaining - str_len (tiData item)) headerBytes (entryCount + 1) (fileCount + 1)
                  a rawCerts
          end
  end.

(** [readCertStoreArchiveFrom]; [None] is a source that is no gzip. *)
Definition readCertStoreArchiveFrom (source : option Tarball) : result ArchiveError certStoreArchive :=
  match source with
  | None => Err ArNotGzip
  | Some tb =>
      '(a, rawCerts, fileCount) ← readEntries (tbItems tb) (tbEnd tb) maxCertArchiveBytes 0 0 0 emptyArchive ∅;
      if fileCount =? 0 then Err ArEmpty
      else a ← assembleCertPairs rawCerts (keysInOrder rawCerts) a; validateArchive a
  end.

Record ArchiveCertInfo := mkInfo { infoIdentifier : string; infoDomains : list string; infoNotAfter : Z }.

Record CertArchiveReport := mkReport {
  repCertificates : list ArchiveCertInfo;
  repDomainMappings : Z;
  repHasAccountKey : bool;
  repHasDynamicDomains : bool;
  repWarnings : list certArchiveWarning }.

Definition reportCert (idByDir : gmap string string) (certs : gmap string archiveCertPair) (dir : string)
  : option ArchiveCertInfo :=
  p ← certs !! dir;
  let identifier := default "" (idByDir !! dir) in
  Some (mkInfo (if String.eqb identifier "" then dir else identifier) (sortedCopy (DNSNames (apLeaf p)))
    (lfNotAfter (apLeaf p))).

Definition VerifyCertificateArchive (source : option Tarball) : result ArchiveError CertArchiveReport :=
  a ← readCertStoreArchiveFrom source;
  let idByDir := foldl (λ m p, <[sanitizeFilename p.1 := p.1]> m) ∅ (range_map (default ∅ (stCertificates (arState a)))) in
  Ok (mkReport (omap (reportCert idByDir (arCerts a)) (keysInOrder (arCerts a)))
        (Z.of_nat (size (default ∅ (stDomainMap (arState a)))))
        (bool_decide (is_Some (arAccountKey a))) (bool_decide (is_Some (arDynamic a))) (arWarnings a)).

End archive.

(** ** Lemmas *)

(** *** Entries and what they hold *)

(** Where an entry goes, and back. *)
Inductive Slot := SlState | SlAccount | SlDynamic | SlExtra (name : string) | SlPair (dir base : string).

#[export] Instance Slot_eq_dec : EqDecision Slot.
Proof. solve_decision. Defined.

Definition entryName (sl : Slot) : string :=
  match sl with
  | SlState => archiveStateEntry
  | SlAccount => archiveAccountKeyEntry
  | SlDynamic => archiveDynamicDomainsEntry
  | SlExtra name => archiveCertsPrefix +:+ name
  | SlPair dir base => pairEntry dir base
  end.

(** The slots the reader accepts an entry for. *)
Record good_slot (sl : Slot) : Prop := {
  gs_clean : path_Clean (entryName sl) = entryName sl;
  gs_extra name : sl = SlExtra name → isExtraAccountKeyFile name = true;
  gs_pair dir base : sl = SlPair dir base → dir ≠ "" ∧ sanitizeFilename dir = dir ∧ (base = "cert.pem" ∨ base = "key.pem") }.

(** Joined to the certificate directory, an accepted directory stays a single
    element below it. *)
Lemma good_slot_dir dir base : good_slot (SlPair dir base) → unsafe_dir dir = false.
Proof.
  intros [Hc _ Hp]. destruct (Hp dir base eq_refl) as (Hne & _ & Hb). unfold unsafe_dir.
  destruct (String.eqb_spec dir "") as [->|_]; [done|].
  destruct (String.eqb_spec dir ".") as [->|_]; [by destruct Hb as [-> | ->]|].
  destruct (String.eqb_spec dir "..") as [->|_]; [by destruct Hb as [-> | ->]|done].
Qed.

Lemma isExtra_suffix name : isExtraAccountKeyFile name = true → HasSuffix name ".json" = true.
Proof.
  unfold isExtraAccountKeyFile. destruct (String.eqb_spec name "acme_user_staging.json") as [->|_]; [done|].
  destruct (CutPrefix name _) as [h|] eqn:Hp; [|done]. destruct (CutSuffix h _) as [h'|] eqn:Hs; [|done].
  intros _. apply CutPrefix_Some in Hp as ->. apply CutSuffix_Some in Hs as ->.
  rewrite str_app_assoc. apply HasSuffix_app.
Qed.

Lemma suffix_pem s : HasSuffix s ".pem" = true → HasSuffix s ".json" = false.
Proof.
  intros (t & ->)%HasSuffix_spec. destruct (HasSuffix _ ".json") eqn:H; [|done].
  apply HasSuffix_spec in H as (u & Heq). exfalso.
  change ".pem" with (".pe" +:+ "m") in Heq. change ".json" with (".jso" +:+ "n") in Heq.
  rewrite !str_app_assoc in Heq. assert (Hl := f_equal String.length Heq). rewrite !str_length_app in Hl. cbn in Hl.
  apply str_app_inj_len in Heq as [_ ?]; [done|]. rewrite !str_length_app. cbn. lia.
Qed.

Lemma pair_suffix dir base : base = "cert.pem" ∨ base = "key.pem" → isExtraAccountKeyFile (dir +:+ "/" +:+ base) = false.
Proof.
  intros Hb. destruct (isExtraAccountKeyFile _) eqn:H; [|done]. apply isExtra_suffix in H.
  rewrite suffix_pem in H; [done|].
  destruct Hb as [-> | ->]; [change ("/" +:+ "cert.pem") with ("/cert" +:+ ".pem")|change ("/" +:+ "key.pem") with ("/key" +:+ ".pem")];
    rewrite str_app_assoc; apply HasSuffix_app.
Qed.

Lemma Cut_pair dir base : index_byte dir slash = None → Cut (dir +:+ "/" +:+ base) slash = Some (dir, base).
Proof. intros H. by apply Cut_Some. Qed.

(** Slots whose names cannot be mistaken for each other. *)
Definition sane (sl : Slot) : Prop :=
  match sl with
  | SlExtra name => isExtraAccountKeyFile name = true
  | SlPair dir base => index_byte dir slash = None ∧ (base = "cert.pem" ∨ base = "key.pem")
  | _ => True
  end.

Lemma good_sane sl : good_slot sl → sane sl.
Proof.
  intros [_ He Hp]. destruct sl as [| | |name|dir base]; cbn; [done|done|done|by apply He|].
  destruct (Hp dir base eq_refl) as (_ & Hs & ?). split; [by apply sanitized_no_slash|done].
Qed.

(** Different entries have different names. *)
Lemma entryName_sane_inj sl sl' : sane sl → sane sl' → entryName sl = entryName sl' → sl = sl'.
Proof.
  assert (Hapart : ∀ sl sl', sane sl → sane sl' → entryName sl = entryName sl' →
    match sl, sl' with
    | SlAccount, SlExtra _ | SlAccount, SlPair _ _ | SlExtra _, SlPair _ _ => False
    | _, _ => True
    end).
  { intros [| | |n|dir base] [| | |n'|dir' base'] Hg Hg' Heq; try done; cbn [entryName] in Heq;
      unfold archiveAccountKeyEntry, pairEntry in Heq; apply str_app_inv_l in Heq; cbn [sane] in Hg, Hg'.
    - by rewrite <-Heq in Hg'.
    - assert (Hcut := Cut_pair dir' base' (proj1 Hg')). by rewrite <-Heq in Hcut.
    - rewrite Heq, pair_suffix in Hg; [done|apply Hg']. }
  intros Hg Hg' Heq. assert (Hap1 := Hapart sl sl' Hg Hg' Heq). assert (Hap2 := Hapart sl' sl Hg' Hg (eq_sym Heq)).
  destruct sl as [| | |n|dir base], sl' as [| | |n'|dir' base']; try done; cbn [entryName] in Heq;
    unfold archiveAccountKeyEntry, pairEntry in Heq; apply str_app_inv_l in Heq; cbn [sane] in Hg, Hg'.
  - by subst.
  - assert (Hcut := Cut_pair dir base (proj1 Hg)). rewrite Heq, (Cut_pair dir' base' (proj1 Hg')) in Hcut.
    by injection Hcut as -> ->.
Qed.

Lemma entryName_inj sl sl' : good_slot sl → good_slot sl' → entryName sl = entryName sl' → sl = sl'.
Proof. intros Hg Hg'. by apply entryName_sane_inj; apply good_sane. Qed.

Definition holds (a : certStoreArchive) (rawCerts : RawCerts) (sl : Slot) : option string :=
  match sl with
  | SlState => None
  | SlAccount => arAccountKey a
  | SlDynamic => arDynamic a
  | SlExtra name => arExtra a !! name
  | SlPair dir base => rawCerts !! dir ≫= (.!! base)
  end.

Section reading.
Context `{!Crypto, !StoreJSON, !MapRange}.

(** What placing one entry changes: its slot, and nothing else. *)
Record placed (data : string) (sl : Slot) (a : certStoreArchive) (raw : RawCerts) (a' : certStoreArchive) (raw' : RawCerts)
  : Prop := {
  pl_good : good_slot sl;
  pl_holds sl' : sl' ≠ SlState → holds a' raw' sl' = if decide (sl' = sl) then Some data else holds a raw sl';
  pl_has : arHasState a' = bool_decide (sl = SlState) || arHasState a;
  pl_state : if decide (sl = SlState) then unmarshalState data (arState a) = Some (arState a') else arState a' = arState a;
  pl_rest : arCerts a' = arCerts a ∧ arWarnings a' = arWarnings a }.

Lemma lookup_nested (raw : RawCerts) dir base data dir' base' :
  <[dir := <[base := data]> (default ∅ (raw !! dir))]> raw !! dir' ≫= (.!! base') =
  if decide (SlPair dir' base' = SlPair dir base) then Some data else raw !! dir' ≫= (.!! base').
Proof.
  destruct (decide (dir' = dir)) as [->|Hne].
  - rewrite lookup_insert_eq. cbn. destruct (decide (base' = base)) as [->|Hb].
    + by rewrite lookup_insert_eq, decide_True.
    + rewrite lookup_insert_ne, decide_False by congruence. by destruct (raw !! dir).
  - by rewrite lookup_insert_ne, decide_False by congruence.
Qed.

Lemma placeEntry_placed name data a raw a' raw' :
  placeEntry name data a raw = Ok (a', raw') → ∃ sl, name = entryName sl ∧ placed data sl a raw a' raw'.
Proof.
  unfold placeEntry. destruct (_ || _ || _) eqn:Hpath; [done|]. breflect.
  destruct (String.eqb_spec name (path_Clean name)) as [Hclean|]; [|done]. symmetry in Hclean.
  destruct (String.eqb_spec name archiveStateEntry) as [->|_].
  { destruct (unmarshalState data _) as [s|] eqn:Hs; [|done]. intros [= <- <-]. exists SlState. split; [done|].
    split; [by split| |done|done|done]. intros sl' Hne. rewrite decide_False by done. by destruct sl'. }
  destruct (String.eqb_spec name archiveAccountKeyEntry) as [->|_].
  { intros [= <- <-]. exists SlAccount. split; [done|].
    split; [by split| |done|done|done]. intros [] Hne; cbn; by case_decide. }
  destruct (String.eqb_spec name archiveDynamicDomainsEntry) as [->|_].
  { intros [= <- <-]. exists SlDynamic. split; [done|].
    split; [by split| |done|done|done]. intros [] Hne; cbn; by case_decide. }
  destruct (CutPrefix name _) as [rest|] eqn:Hcut; [|done]. apply CutPrefix_Some in Hcut as ->.
  destruct (isExtraAccountKeyFile rest) eqn:Hex.
  { intros [= <- <-]. exists (SlExtra rest). split; [done|]. split; [|..|done|done|done].
    - split; [done|congruence|done].
    - intros [| | |n|] Hne; cbn; try (by case_decide). case_decide as Hdec.
      + injection Hdec as ->. apply lookup_insert_eq.
      + apply lookup_insert_ne. congruence. }
  destruct (Cut rest "/") as [[dir base]|] eqn:Hc; [|done]. destruct (_ && _) eqn:Hok; [|done].
  intros [= <- <-]. apply Cut_Some in Hc as [-> _]. breflect.
  repeat match goal with H : String.eqb _ _ = false |- _ => apply String.eqb_neq in H
    | H : String.eqb _ _ = true |- _ => apply String.eqb_eq in H
    | H : (_ || _)%bool = true |- _ => apply orb_true_iff in H end.
  exists (SlPair dir base). split; [done|]. split; [|..|done|done|done].
  - split; [done|done|]. intros ?? [= <- <-]. split; [done|]. split; [done|].
    match goal with H : _ ∨ _ |- _ => destruct H as [H|H]; apply String.eqb_eq in H; auto end.
  - intros [| | | |dir' base'] Hne; cbn [holds]; try (by rewrite decide_False). apply lookup_nested.
Qed.

(** *** Reading the entries *)

(** The slots hold what the entries of [m], by name, say. *)
Record read_as (m : gmap string string) (a : certStoreArchive) (raw : RawCerts) : Prop := {
  ra_holds sl : sl ≠ SlState → good_slot sl → holds a raw sl = m !! entryName sl;
  ra_good sl : is_Some (holds a raw sl) → good_slot sl;
  ra_has : arHasState a = bool_decide (is_Some (m !! archiveStateEntry));
  ra_none : arHasState a = false → arState a = zeroState;
  ra_certs : arCerts a = ∅;
  ra_quiet : arWarnings a = [] }.

Lemma read_as_empty : read_as ∅ emptyArchive ∅.
Proof. split; try done. - by intros [] ? ?. - by intros [] [? ?]. Qed.

Lemma read_as_placed m data sl a raw a' raw' :
  placed data sl a raw a' raw' → read_as m a raw → read_as (<[entryName sl := data]> m) a' raw'.
Proof.
  intros [Hg Hh Hhas Hst [Hc Hw]] [Rh Rg Rhas Rn Rc Rw]. split.
  - intros sl' Hne Hg'. rewrite Hh by done.
    destruct (decide (sl' = sl)) as [->|Heq]; [by rewrite lookup_insert_eq|].
    rewrite lookup_insert_ne; [by apply Rh|]. intros He. by apply Heq, entryName_inj.
  - intros sl' Hs. destruct (decide (sl' = SlState)) as [->|Hne]; [by destruct Hs|]. rewrite Hh in Hs by done.
    destruct (decide (sl' = sl)) as [->|Heq]; [done|by apply Rg].
  - rewrite Hhas, Rhas. destruct (decide (sl = SlState)) as [->|Hne].
    + cbn [entryName]. rewrite lookup_insert_eq, bool_decide_true by done. symmetry. apply bool_decide_true. by eexists.
    + rewrite (bool_decide_false (sl = SlState)) by done. cbn [orb]. rewrite lookup_insert_ne; [done|].
      intros He. apply Hne. apply (entryName_inj sl SlState); [done| |done]. by split.
  - rewrite Hhas. destruct (decide (sl = SlState)) as [->|Heq]; [by rewrite bool_decide_true|].
    rewrite bool_decide_false by done. cbn [orb]. rewrite Hst. apply Rn.
  - by rewrite Hc.
  - by rewrite Hw.
Qed.

Definition regular (items : list TarItem) : list (string * string) :=
  omap (λ it, match tiType it with TarReg => Some (tiName it, tiData it) | _ => None end) items.

(** The last entry of a name counts. *)
Definition by_name (l : list (string * string)) (m : gmap string string) : gmap string string :=
  foldl (λ m p, <[p.1 := p.2]> m) m l.

(** The states of an archive are decoded one over the other. *)
Inductive decoded : managerState → list (string * string) → managerState → Prop :=
| dec_nil s : decoded s [] s
| dec_state data l s s1 s' : unmarshalState data s = Some s1 → decoded s1 l s' → decoded s ((archiveStateEntry, data) :: l) s'
| dec_other name data l s s' : name ≠ archiveStateEntry → decoded s l s' → decoded s ((name, data) :: l) s'.

(** The byte counts of a tarball are counts. *)
Definition tar_counts (items : list TarItem) (fin : TarEnd) : Prop :=
  Forall (λ it, 0 ≤ tiNext it) items ∧
  match fin with EndMarker next trailing _ => 0 ≤ next ∧ 0 ≤ trailing | EndBroken next => 0 ≤ next end.

Lemma readEntries_spec items fin rem hb ec fc a raw a' raw' fc' m :
  readEntries items fin rem hb ec fc a raw = Ok (a', raw', fc') → tar_counts items fin → read_as m a raw →
  read_as (by_name (regular items) m) a' raw' ∧ decoded (arState a) (regular items) (arState a') ∧
  fc' = fc + Z.of_nat (length (regular items)) ∧
  (∀ name data, (name, data) ∈ regular items → ∃ sl, good_slot sl ∧ name = entryName sl) ∧
  sumf (λ p, str_len p.2) (regular items) ≤ rem.
Proof.
  revert rem hb ec fc a raw m. induction items as [|it items IH]; intros rem hb ec fc a raw m; cbn [readEntries].
  - destruct fin as [next trailing intact|]; [|done]. destruct (_ <? _) eqn:Hl; [done|]. destruct intact; [|done].
    breflect. intros [= <- <- <-] [_ Hf] Hm. cbn. split; [done|]. split; [constructor|]. split; [lia|].
    split; [set_solver|]. unfold sumf. cbn. lia.
  - destruct (_ <? _) eqn:Hl; [done|]. destruct (maxCertArchiveHeaderBytes <? _); [done|].
    destruct (maxCertArchiveEntries <? _); [done|]. breflect.
    destruct it as [next name [] data damaged]; cbn [tiNext tiName tiType tiData tiDamaged] in *; [| |done].
    + intros Hr [Hits Hf] Hm. apply Forall_cons in Hits as [Hn Hits].
      destruct (IH _ _ _ _ _ _ m Hr) as (? & ? & ? & ? & Hsum); [by split|done|]. cbn in Hn.
      split_and!; [done|done|done|done|]. etrans; [exact Hsum|lia].
    + destruct (_ <? _) eqn:Hl'; [done|]. destruct damaged; [done|]. breflect.
      intros Hr [Hits Hf] Hm. apply Forall_cons in Hits as [Hnn Hits]. cbn in Hnn.
      apply result_bind_ok in Hr as ([a1 raw1] & Hp & Hr).
      apply placeEntry_placed in Hp as (sl & -> & Hp).
      destruct (IH _ _ _ _ _ _ (<[entryName sl := data]> m) Hr) as (Has & Hdec & Hfc & Hn & Hsum);
        [by split|by eapply read_as_placed|].
      change (regular (_ :: items)) with ((entryName sl, data) :: regular items).
      split; [done|]. split; [|split; [cbn [length]; lia|split; [|rewrite sumf_cons; cbn [snd]; lia]]].
      * assert (Hst := pl_state _ _ _ _ _ _ Hp). destruct (decide (sl = SlState)) as [->|Hne].
        -- by eapply dec_state.
        -- apply dec_other; [|by rewrite <-Hst]. intros He. apply Hne. eapply (entryName_inj sl SlState); [apply Hp| |done].
           by split.
      * intros n x [[= -> ->]|Hin]%elem_of_cons; [|eauto]. exists sl. split; [apply Hp|done].
Qed.

(** *** Pairs, account keys and records *)

Record parsed (raw : RawCerts) (dir : string) (p : archiveCertPair) : Prop := {
  pa_cert : raw !! dir ≫= (.!! "cert.pem") = Some (apCert p);
  pa_key : raw !! dir ≫= (.!! "key.pem") = Some (apKey p);
  pa_leaf : X509KeyPair (apCert p) (apKey p) ≫= ParseCertificate = Some (apLeaf p) }.

(** Only the pairs differ. *)
Definition same_but_pairs (a a' : certStoreArchive) : Prop := a' = with_pairs (arCerts a') a.

Lemma lookup_default_nested (raw : RawCerts) dir base : default ∅ (raw !! dir) !! base = raw !! dir ≫= (.!! base).
Proof. destruct (raw !! dir); [done|]. cbn. apply lookup_empty. Qed.

Lemma assembleCertPairs_spec raw dirs a a' :
  assembleCertPairs raw dirs a = Ok a' → NoDup dirs →
  same_but_pairs a a' ∧
  ∀ dir, if decide (dir ∈ dirs) then ∃ p, arCerts a' !! dir = Some p ∧ parsed raw dir p
         else arCerts a' !! dir = arCerts a !! dir.
Proof.
  revert a. induction dirs as [|dir dirs IH]; intros a; cbn.
  - intros [= <-] _. split; [by destruct a|]. intros dir. rewrite decide_False; [done|set_solver].
  - rewrite !lookup_default_nested.
    destruct (raw !! dir ≫= (.!! "cert.pem")) as [cert|] eqn:Hc; [|done].
    destruct (raw !! dir ≫= (.!! "key.pem")) as [key|] eqn:Hk; [|done].
    destruct (X509KeyPair cert key) as [der|] eqn:Hx; [|done]. destruct (ParseCertificate der) as [leaf|] eqn:Hp; [|done].
    intros Ha [Hni Hnd]%NoDup_cons. destruct (IH _ Ha Hnd) as [Hsame Hdirs]. split; [done|].
    intros dir'. specialize (Hdirs dir'). destruct (decide (dir' = dir)) as [->|Hne].
    + rewrite decide_True by left. rewrite decide_False in Hdirs by done. cbn in Hdirs. rewrite lookup_insert_eq in Hdirs.
      eexists. split; [done|]. split; [done|done|]. cbn. by rewrite Hx.
    + destruct (decide (dir' ∈ dirs)) as [Hin|Hin].
      * by rewrite decide_True by by right.
      * rewrite decide_False by (intros [?|?]%elem_of_cons; done). cbn in Hdirs.
        by rewrite lookup_insert_ne in Hdirs by done.
Qed.

Definition usableKey (data : string) : bool :=
  match unmarshalUser data ≫= ParsePEMPrivateKey with Some KeyECDSA => true | _ => false end.

(** Only the keys and the warnings differ. *)
Definition keeps (f : string → bool) (o : option string) : option string :=
  match o with Some data => if f data then Some data else None | None => None end.

Lemma usableAccountKey_spec data label a :
  ∃ ws, usableAccountKey data label a =
    (mkArchive (arState a) (arHasState a) (arAccountKey a) (arDynamic a) (arExtra a) (arCerts a) ws, usableKey data).
Proof.
  unfold usableAccountKey, usableKey. destruct (unmarshalUser data) as [pem|]; cbn; [|by eexists].
  destruct (ParsePEMPrivateKey pem) as [[]|]; try (by eexists). exists (arWarnings a). by destruct a.
Qed.

Lemma checkExtraKeys_spec names a :
  NoDup names → (∀ n, n ∈ names → is_Some (arExtra a !! n)) →
  ∃ m ws, checkExtraKeys names a = mkArchive (arState a) (arHasState a) (arAccountKey a) (arDynamic a) m (arCerts a) ws ∧
    ∀ n, m !! n = if decide (n ∈ names) then keeps usableKey (arExtra a !! n) else arExtra a !! n.
Proof.
  revert a. induction names as [|n names IH]; intros a Hnd Hin; cbn.
  - exists (arExtra a), (arWarnings a). split; [by destruct a|]. intros n. rewrite decide_False; [done|set_solver].
  - destruct (usableAccountKey_spec (default "" (arExtra a !! n)) (Some n) a) as (ws & ->).
    apply NoDup_cons in Hnd as [Hni Hnd]. destruct (Hin n) as [x Hx]; [left|]. rewrite Hx. cbn.
    destruct (usableKey x) eqn:Hu; unfold with_extra; cbn.
    + destruct (IH (mkArchive (arState a) (arHasState a) (arAccountKey a) (arDynamic a) (arExtra a) (arCerts a) ws))
        as (m & ws' & -> & Hm); [done|intros k Hk; apply Hin; by right|]. exists m, ws'. split; [done|]. cbn in Hm.
      intros k. rewrite Hm. destruct (decide (k = n)) as [->|Hne].
      * rewrite decide_False, decide_True by (done || left). by rewrite Hx; cbn; rewrite Hu.
      * destruct (decide (k ∈ names)); [by rewrite decide_True by by right|].
        rewrite decide_False; [done|]. by intros [?|?]%elem_of_cons.
    + destruct (IH (mkArchive (arState a) (arHasState a) (arAccountKey a) (arDynamic a) (delete n (arExtra a)) (arCerts a) ws))
        as (m & ws' & -> & Hm); [done|..].
      { cbn. intros k Hk. rewrite lookup_delete_ne; [apply Hin; by right|]. by intros ->. }
      exists m, ws'. split; [done|]. cbn in Hm. intros k. rewrite Hm. destruct (decide (k = n)) as [->|Hne].
      * rewrite decide_False, decide_True by (done || left). rewrite lookup_delete_eq, Hx. cbn. by rewrite Hu.
      * rewrite lookup_delete_ne by done. destruct (decide (k ∈ names)); [by rewrite decide_True by by right|].
        rewrite decide_False; [done|]. by intros [?|?]%elem_of_cons.
Qed.

Lemma NoDup_sortedKeys {A} (m : gmap string A) : NoDup (keysInOrder m).
Proof. unfold keysInOrder. rewrite sort_strings_perm. apply NoDup_fst_map_to_list. Qed.

(** What [checkAccountKeys] leaves of the keys; the warnings are [ws]. *)
Lemma checkAccountKeys_spec a :
  ∃ m ws, checkAccountKeys a =
    mkArchive (arState a) (arHasState a) (keeps usableKey (arAccountKey a)) (arDynamic a) m (arCerts a) ws ∧
    ∀ n, m !! n = keeps usableKey (arExtra a !! n).
Proof.
  unfold checkAccountKeys.
  assert (Hkey : ∃ ws, match arAccountKey a with
    | Some data => let '(a0, usable) := usableAccountKey data None a in if usable then a0 else with_account None a0
    | None => a end =
    mkArchive (arState a) (arHasState a) (keeps usableKey (arAccountKey a)) (arDynamic a) (arExtra a) (arCerts a) ws).
  { destruct (arAccountKey a) as [data|] eqn:Hk; cbn.
    - destruct (usableAccountKey_spec data None a) as (ws & ->). exists ws. rewrite Hk. by destruct (usableKey data).
    - exists (arWarnings a). rewrite <-Hk. by destruct a. }
  destruct Hkey as (ws & ->). cbn [arExtra].
  destruct (checkExtraKeys_spec (keysInOrder (arExtra a))
    (mkArchive (arState a) (arHasState a) (keeps usableKey (arAccountKey a)) (arDynamic a) (arExtra a) (arCerts a) ws))
    as (m & ws' & -> & Hm).
  - apply NoDup_sortedKeys.
  - intros n. apply elem_of_sortedKeys.
  - exists m, ws'. split; [done|]. intros n. rewrite Hm. cbn [arExtra]. case_decide as Hin; [done|].
    rewrite elem_of_sortedKeys in Hin. destruct (arExtra a !! n) eqn:Hn; [|done]. destruct Hin. by eexists.
Qed.

Record agrees (c : ManagedCert) (p : archiveCertPair) : Prop := {
  ag_names : sortedCopy (Domains c) = sortedCopy (DNSNames (apLeaf p));
  ag_expiry : Truncate (NotAfter c) second = Truncate (lfNotAfter (apLeaf p)) second }.

(** A record and the archive: the pair is the one, or it is missed. *)
Definition accounted (a : certStoreArchive) (id : string) (c : ManagedCert) : Prop :=
  match arCerts a !! sanitizeFilename id with
  | Some p => agrees c p
  | None => warnMissingCertificate id ∈ arWarnings a
  end.

Definition same_but_warnings (a a' : certStoreArchive) : Prop :=
  a' = mkArchive (arState a) (arHasState a) (arAccountKey a) (arDynamic a) (arExtra a) (arCerts a) (arWarnings a').

Lemma validateRecords_spec certs ids a a' :
  validateRecords certs ids a = Ok a' →
  same_but_warnings a a' ∧ arWarnings a ⊆ arWarnings a' ∧
  ∀ id c, id ∈ ids → certs !! id = Some (Some c) → accounted a' id c.
Proof.
  revert a. induction ids as [|id ids IH]; intros a; cbn.
  - intros [= <-]. split; [by destruct a|]. split; [done|set_solver].
  - destruct (arCerts a !! sanitizeFilename id) as [p|] eqn:Hp.
    + assert (Hgo : validateRecords certs ids a = Ok a' →
        (∀ c, certs !! id = Some (Some c) → agrees c p) →
        same_but_warnings a a' ∧ arWarnings a ⊆ arWarnings a' ∧
        ∀ id' c, id' ∈ id :: ids → certs !! id' = Some (Some c) → accounted a' id' c).
      { intros Hr Hag. destruct (IH a Hr) as (Hs & Hw & Hids). split; [done|]. split; [done|].
        intros id' c [->|Hin]%elem_of_cons Hc; [|by apply Hids]. unfold accounted. rewrite Hs. cbn. rewrite Hp.
        by apply Hag. }
      destruct (certs !! id) as [[c|]|] eqn:Hc; [|intros Hr; by apply Hgo|intros Hr; by apply Hgo].
      destruct (bool_decide _) eqn:Hn; [|done]. destruct (_ =? _) eqn:He; [|done]. cbn. breflect. intros Hr.
      apply Hgo; [done|]. intros c' [= <-]. by split.
    + intros Hr. assert (Hr' : validateRecords certs ids (warn (warnMissingCertificate id) a) = Ok a') by (by destruct (certs !! id)).
      destruct (IH _ Hr') as (Hs & Hw & Hids). split; [done|]. cbn in Hw. split; [set_solver|].
      intros id' c [->|Hin]%elem_of_cons Hc; [|by apply Hids]. unfold accounted. rewrite Hs. cbn. rewrite Hp. set_solver.
Qed.

(** *** What an archive that was read is like *)

Record trusted_archive (m : gmap string string) (a : certStoreArchive) : Prop := {
  ta_pairs dir :
    match arCerts a !! dir with
    | Some p =>
        good_slot (SlPair dir "cert.pem") ∧ m !! pairEntry dir "cert.pem" = Some (apCert p) ∧
        m !! pairEntry dir "key.pem" = Some (apKey p) ∧
        X509KeyPair (apCert p) (apKey p) ≫= ParseCertificate = Some (apLeaf p)
    | None => ∀ base, good_slot (SlPair dir base) → m !! pairEntry dir base = None
    end;
  ta_account : arAccountKey a = keeps usableKey (m !! archiveAccountKeyEntry);
  ta_extra n : good_slot (SlExtra n) → arExtra a !! n = keeps usableKey (m !! (archiveCertsPrefix +:+ n));
  ta_extra_good n : is_Some (arExtra a !! n) → good_slot (SlExtra n);
  ta_dynamic : arDynamic a = m !! archiveDynamicDomainsEntry;
  ta_has : arHasState a = bool_decide (is_Some (m !! archiveStateEntry));
  ta_state : arHasState a = true →
    ∃ certs dm, trusted (arState a) certs dm ∧ ∀ id c, certs !! id = Some (Some c) → accounted a id c;
  ta_stateless : arHasState a = false → arState a = zeroState ∧ arCerts a = ∅ }.

Lemma good_state : good_slot SlState.
Proof. by split. Qed.
Lemma good_account : good_slot SlAccount.
Proof. by split. Qed.
Lemma good_dynamic : good_slot SlDynamic.
Proof. by split. Qed.

Lemma pairs_of m a raw a' :
  read_as m a raw → assembleCertPairs raw (keysInOrder raw) a = Ok a' →
  ∀ dir, match arCerts a' !! dir with
    | Some p => good_slot (SlPair dir "cert.pem") ∧ m !! pairEntry dir "cert.pem" = Some (apCert p) ∧
        m !! pairEntry dir "key.pem" = Some (apKey p) ∧ X509KeyPair (apCert p) (apKey p) ≫= ParseCertificate = Some (apLeaf p)
    | None => ∀ base, good_slot (SlPair dir base) → m !! pairEntry dir base = None
    end.
Proof.
  intros Hm Ha dir. apply assembleCertPairs_spec in Ha as [_ Hdirs]; [|apply NoDup_sortedKeys].
  specialize (Hdirs dir). rewrite (ra_certs _ _ _ Hm), lookup_empty in Hdirs. case_decide as Hin.
  - destruct Hdirs as (p & -> & [Hc Hk Hl]).
    assert (Hgc : good_slot (SlPair dir "cert.pem")) by (apply (ra_good _ _ _ Hm); cbn; by rewrite Hc).
    assert (Hgk : good_slot (SlPair dir "key.pem")) by (apply (ra_good _ _ _ Hm); cbn; by rewrite Hk).
    split; [done|]. assert (Hr1 := ra_holds _ _ _ Hm (SlPair dir "cert.pem")).
    assert (Hr2 := ra_holds _ _ _ Hm (SlPair dir "key.pem")).
    cbn [holds entryName] in Hr1, Hr2. rewrite <-Hr1, <-Hr2; [done|done|done|done|done].
  - rewrite Hdirs. intros base Hg. assert (Hr1 := ra_holds _ _ _ Hm (SlPair dir base)). cbn [holds entryName] in Hr1.
    rewrite <-Hr1 by done.
    rewrite elem_of_sortedKeys in Hin. destruct (raw !! dir) eqn:Hr; [|done]. destruct Hin. by eexists.
Qed.

Context `{!MapRangeSpec}.

Lemma validateArchive_spec a a' :
  validateArchive a = Ok a' → (arHasState a = false → arState a = zeroState) →
  (∃ m ws, a' = mkArchive (arState a) (arHasState a) (keeps usableKey (arAccountKey a)) (arDynamic a) m (arCerts a) ws ∧
    ∀ n, m !! n = keeps usableKey (arExtra a !! n)) ∧
  (if arHasState a then ∃ certs dm, trusted (arState a') certs dm ∧ ∀ id c, certs !! id = Some (Some c) → accounted a' id c
   else arState a' = zeroState ∧ arCerts a' = ∅).
Proof.
  unfold validateArchive. destruct (checkAccountKeys_spec a) as (m & ws & -> & Hm). cbn. intros Hv Hz.
  destruct (arHasState a) eqn:Hhas; cbn in Hv.
  - destruct (validateManagerState (arState a)) eqn:Hs; [done|]. apply validateManagerState_spec in Hs as (certs & dm & Htr).
    rewrite (tr_certs _ _ _ Htr) in Hv. cbn in Hv. apply validateRecords_spec in Hv as (Hsame & _ & Hids). cbn in Hsame.
    split; [eexists m, _; split; [exact Hsame|done]|]. exists certs, dm. split; [by rewrite Hsame|].
    intros id c Hc. apply Hids; [|done]. apply elem_of_sortedKeys. by eexists.
  - destruct (bool_decide _) eqn:Hb; [|done]. breflect. injection Hv as <-. split; [eexists m, _; split; done|]. cbn. auto.
Qed.

Lemma read_trusted tb a :
  readCertStoreArchiveFrom (Some tb) = Ok a → tar_counts (tbItems tb) (tbEnd tb) →
  trusted_archive (by_name (regular (tbItems tb)) ∅) a ∧
  decoded zeroState (regular (tbItems tb)) (arState a) ∧ regular (tbItems tb) ≠ [] ∧
  (∀ name data, (name, data) ∈ regular (tbItems tb) → ∃ sl, good_slot sl ∧ name = entryName sl) ∧
  sumf (λ p, str_len p.2) (regular (tbItems tb)) ≤ maxCertArchiveBytes.
Proof.
  unfold readCertStoreArchiveFrom. intros Hr Hc. apply result_bind_ok in Hr as ([[a1 raw] fc] & Hr & Hv).
  destruct (_ =? _) eqn:Hfc; [done|]. apply result_bind_ok in Hv as (a2 & Has & Hv).
  apply (readEntries_spec _ _ _ _ _ _ _ _ _ _ _ ∅) in Hr as (Hm & Hdec & Hn & Hnames & Hsum); [|done|apply read_as_empty].
  assert (Hpairs := pairs_of _ _ _ _ Hm Has).
  apply assembleCertPairs_spec in Has as [Hsame _]; [|apply NoDup_sortedKeys].
  unfold same_but_pairs in Hsame.
  apply validateArchive_spec in Hv as [(m & ws & -> & Hx) Hst]; [|rewrite Hsame; apply (ra_none _ _ _ Hm)].
  set (names := by_name (regular (tbItems tb)) ∅) in *.
  split; [|split; [cbn [arState]; by rewrite Hsame|]].
  - split; cbn [arCerts arAccountKey arExtra arDynamic arHasState arState].
    + done.
    + rewrite Hsame. f_equal. by apply (ra_holds _ _ _ Hm SlAccount ltac:(done) good_account).
    + intros n Hg. rewrite Hx, Hsame. f_equal. by apply (ra_holds _ _ _ Hm (SlExtra n) ltac:(done) Hg).
    + intros n [x Hn']. apply (ra_good _ _ _ Hm). rewrite Hx, Hsame in Hn'. cbn in *.
      destruct (arExtra a1 !! n); [by eexists|done].
    + rewrite Hsame. by apply (ra_holds _ _ _ Hm SlDynamic ltac:(done) good_dynamic).
    + rewrite Hsame. apply (ra_has _ _ _ Hm).
    + intros Hh. by rewrite Hh in Hst.
    + intros Hh. by rewrite Hh in Hst.
  - split; [|done]. intros Hnil. rewrite Hnil in Hn. cbn in Hn. by rewrite Hn in Hfc.
Qed.
End reading.

(** ** The cap *)

Section cap.
Context {R : Type} (read : R → nat → R * string * option ReadError).
Hypothesis read_bounded : ∀ r n, str_len (read r n).1.2 ≤ Z.of_nat n.
Hypothesis read_within : ∀ r n, (read r n).2 ≠ Some ReadTooLarge.

Fixpoint cappedReads (lens : list nat) (x : R * Z) : list (string * option ReadError) :=
  match lens with
  | [] => []
  | len :: lens => let '(x, data, err) := cappedRead read len x in (data, err) :: cappedReads lens x
  end.

Lemma sumf_nonneg {A} (f : A → Z) l : (∀ x, x ∈ l → 0 ≤ f x) → 0 ≤ sumf f l.
Proof. intros Hf. transitivity (sumf (λ _ : A, 0) l); [rewrite sumf_const; lia|by apply sumf_le]. Qed.

(** Never more than the cap comes through, and the cap is reported only once
    all of it has come through and the reader below has more. *)
Lemma capped_reader_bounded lens r remaining :
  0 ≤ remaining →
  sumf (λ p, str_len p.1) (cappedReads lens (r, remaining)) ≤ remaining ∧
  (∀ data, (data, Some ReadTooLarge) ∈ cappedReads lens (r, remaining) →
    sumf (λ p, str_len p.1) (cappedReads lens (r, remaining)) = remaining ∧ data = "").
Proof.
  revert r remaining. induction lens as [|len lens IH]; intros r remaining Hr; cbn [cappedReads].
  - split; [done|]. intros ? Hin. by apply elem_of_nil in Hin.
  - unfold cappedRead. destruct (len =? 0)%nat eqn:Hl.
    + rewrite sumf_cons. change (str_len ("", @None ReadError).1) with 0. destruct (IH r remaining Hr) as [Hs Ht].
      split; [lia|].
      intros data [[=]|Hin]%elem_of_cons. destruct (Ht data Hin) as [He ->]. split; [lia|done].
    + destruct (remaining <=? 0) eqn:Hz.
      * assert (remaining = 0) as -> by (breflect; lia). destruct (read r 1) as [[r' data] err] eqn:Hread.
        assert (Hzero : ∀ e, sumf (λ p, str_len p.1) (("", e) :: cappedReads lens (r', 0)) = 0).
        { intros e. rewrite sumf_cons. destruct (IH r' 0 ltac:(lia)) as [Hs _]. change (str_len ("", e).1) with 0.
          assert (0 ≤ sumf (λ p : string * option ReadError, str_len p.1) (cappedReads lens (r', 0))).
          { apply sumf_nonneg. intros. apply str_len_nonneg. } lia. }
        assert (Hw := read_within r 1). rewrite Hread in Hw. cbn in Hw.
        destruct (0 <? str_len data); rewrite Hzero; (split; [lia|]).
        -- intros ? [[= ->]|Hin]%elem_of_cons; [done|]. split; [done|]. by apply (IH r' 0 ltac:(lia)).
        -- intros ? [[= -> He]|Hin]%elem_of_cons; [done|]. split; [done|]. by apply (IH r' 0 ltac:(lia)).
      * breflect. set (n := if remaining <? Z.of_nat len then Z.to_nat remaining else len).
        assert (Hn : Z.of_nat n ≤ remaining) by (unfold n; destruct (Z.ltb_spec remaining (Z.of_nat len)); lia).
        assert (Hb := read_bounded r n). assert (Hw := read_within r n).
        destruct (read r n) as [[r' data] err]. cbn in Hb, Hw.
        destruct (IH r' (remaining - str_len data) ltac:(lia)) as [Hs Ht]. rewrite sumf_cons. cbn [fst].
        split; [lia|]. intros ? [[= _ He]|Hin]%elem_of_cons; [congruence|]. destruct (Ht _ Hin) as [He ->].
        split; [lia|done].
Qed.
End cap.
