(* ===== verification/CertBackup.v ===== *)
(** * Backup and restore of the certificate store:
    [internal/server/cert_store_export.go] and [cert_store_restore.go]

    Export collects the store and reads its own archive back; restore turns an
    archive into writes on a disk, the state file last.  The checks of the
    output path against the file system are left out, and so are the
    modification times. *)
From S2P Require Import Prelude GoStrings CertPlan SanCerts CertStore CertArchive.

Section backup.
Context `{!Crypto, !StoreJSON, !MapRange}.

(** ** Exporting *)

Record archiveFile := mkArchiveFile { afName : string; afData : string }.

Inductive ExportWarning :=
| ExNotJSON (entry : string) | ExLegacyCache | ExMissing (dir base : string) | ExBadPair (dir : string)
| ExUnexpectedFile (name : string) | ExMissingOnDisk (id : string) | ExReader (w : certArchiveWarning).

Inductive ExportError := ExBadState | ExUntrusted (f : StateFault) | ExNoState | ExEmpty | ExVerification (e : ArchiveError).

Record CertsExportSummary := mkExport { exCertificates : Z; exDomains : Z; exWarnings : list ExportWarning }.

Definition collectStateEntry (d : CertDisk) : result ExportError (managerState * list archiveFile) :=
  match dkState d with
  | None => Ok (zeroState, [])
  | Some data =>
      match unmarshalState data zeroState with
      | None => Err ExBadState
      | Some s => match validateManagerState s with
                  | Some f => Err (ExUntrusted f)
                  | None => Ok (s, [mkArchiveFile archiveStateEntry data])
                  end
      end
  end.

Definition collectOptionalJSON (file : option string) (entryName : string) : list archiveFile * list ExportWarning :=
  match file with
  | None => ([], [])
  | Some data => if validJSON data then ([mkArchiveFile entryName data], []) else ([], [ExNotJSON entryName])
  end.

Definition collectCertPair (files : gmap string string) (dir : string) : list archiveFile * list ExportWarning :=
  match files !! "cert.pem", files !! "key.pem" with
  | None, _ => ([], [ExMissing dir "cert.pem"])
  | Some _, None => ([], [ExMissing dir "key.pem"])
  | Some cert, Some key =>
      match X509KeyPair cert key with
      | None => ([], [ExBadPair dir])
      | Some _ => ([mkArchiveFile (pairEntry dir "cert.pem") cert; mkArchiveFile (pairEntry dir "key.pem") key], [])
      end
  end.

(** One entry of the certificate directory. *)
Definition collectEntry (d : CertDisk) (name : string) : list archiveFile * list ExportWarning :=
  match dkDirs d !! name with
  | Some files => if String.eqb name legacyHTTP01CacheDir then ([], [ExLegacyCache]) else collectCertPair files name
  | None =>
      if String.eqb name acmeUserFile then collectOptionalJSON (dkFiles d !! name) archiveAccountKeyEntry
      else if isExtraAccountKeyFile name then collectOptionalJSON (dkFiles d !! name) (archiveCertsPrefix +:+ name)
      else ([], [ExUnexpectedFile name])
  end.

(** [os.ReadDir]: the names in order. *)
Definition readDir (d : CertDisk) : list string :=
  sort_strings ((map_to_list (dkDirs d)).*1 ++ (map_to_list (dkFiles d)).*1).

Definition missingOnDisk (d : CertDisk) (s : managerState) : list ExportWarning :=
  ExMissingOnDisk <$> List.filter (λ id, negb (bool_decide (is_Some (dkDirs d !! sanitizeFilename id ≫= (.!! "cert.pem")))))
                        (keysInOrder (default ∅ (stCertificates s))).

Definition collectCertsEntries (d : CertDisk) (s : managerState) : list archiveFile * list ExportWarning :=
  let collected := collectEntry d <$> readDir d in
  (concat collected.*1, concat collected.*2 ++ missingOnDisk d s).

Definition is_account_entry (name : string) : bool :=
  String.eqb name archiveAccountKeyEntry || isExtraAccountKeyFile (TrimPrefix name archiveCertsPrefix).

(** [archive/tar]: what the header of a name takes, the records that go with a
    long name included; data is padded to blocks of 512 bytes and two empty
    blocks end the archive. *)
Class TarFormat := tarHeader : string → Z.

Definition tarPadding (data : string) : Z := (- str_len data) mod 512.

Fixpoint tarItems `{!TarFormat} (padding : Z) (files : list archiveFile) : Tarball :=
  match files with
  | [] => mkTarball [] (EndMarker (padding + 1024) 0 true)
  | f :: files =>
      let tb := tarItems (tarPadding (afData f)) files in
      mkTarball (mkItem (padding + tarHeader (afName f)) (afName f) TarReg (afData f) false :: tbItems tb) (tbEnd tb)
  end.

Context `{!TarFormat, !SortFunc}.

(** [writeCertArchive]: the archive, once it has been read back, with what the
    reader warned about. *)
Definition writeCertArchive (files : list archiveFile) : result ExportError (Tarball * list certArchiveWarning) :=
  let tb := tarItems 0 files in
  match readCertStoreArchiveFrom (Some tb) with
  | Ok a => Ok (tb, arWarnings a)
  | Err e => Err (ExVerification e)
  end.

Definition exportFiles (d : CertDisk) (stateFiles certFiles : list archiveFile) : list archiveFile :=
  sort_func (λ f g, Compare (afName f) (afName g))
    (stateFiles ++ certFiles ++ (collectOptionalJSON (dkDynamic d) archiveDynamicDomainsEntry).1).

Definition is_missing_warning (w : certArchiveWarning) : bool :=
  match w with warnMissingCertificate _ => true | _ => false end.

Definition ExportCertificateStore (d : CertDisk) : result ExportError (Tarball * CertsExportSummary) :=
  '(s, stateFiles) ← collectStateEntry d;
  let '(certFiles, warnings) := collectCertsEntries d s in
  if bool_decide (stateFiles = []) && existsb (λ f, negb (is_account_entry (afName f))) certFiles then Err ExNoState
  else
    let files := exportFiles d stateFiles certFiles in
    if bool_decide (files = []) then Err ExEmpty
    else
      '(tb, readerWarnings) ← writeCertArchive files;
      Ok (tb, mkExport (Z.of_nat (size (default ∅ (stCertificates s)))) (Z.of_nat (size (default ∅ (stDomainMap s))))
                (warnings ++ (collectOptionalJSON (dkDynamic d) archiveDynamicDomainsEntry).2 ++
                 (ExReader <$> List.filter (λ w, negb (is_missing_warning w)) readerWarnings))).

(** ** Restoring *)

Inductive Occupant := OccState | OccDynamic | OccEntry (name : string).

Inductive RestoreError := RsArchive (e : ArchiveError) | RsNotEmpty (o : Occupant) | RsUnsafe (id : string).

Record CertsRestoreSummary := mkRestored {
  rsCertificates : Z;
  rsDomains : Z;
  rsAccountKey : bool;
  rsDynamic : bool;
  rsWarnings : list certArchiveWarning }.

Definition certStoreOccupant (d : CertDisk) : option Occupant :=
  match dkState d, dkDynamic d, readDir d with
  | Some _, _, _ => Some OccState
  | None, Some _, _ => Some OccDynamic
  | None, None, name :: _ => Some (OccEntry name)
  | None, None, [] => None
  end.

Definition restorePairs (a : certStoreArchive) : list DiskOp :=
  concat ((λ dir, match arCerts a !! dir with
                  | Some p => writeCertificateFiles dir (apCert p) (apKey p)
                  | None => []
                  end) <$> keysInOrder (arCerts a)).

Definition restoreAccounts (a : certStoreArchive) : list DiskOp :=
  (match arAccountKey a with Some k => [OpFile acmeUserFile k] | None => [] end) ++
  ((λ name, OpFile name (default "" (arExtra a !! name))) <$> keysInOrder (arExtra a)).

(** The writes up to the state file, which comes last. *)
Definition restoreWrites (a : certStoreArchive) : list DiskOp :=
  restorePairs a ++ restoreAccounts a ++
  (match arDynamic a with Some data => [OpDynamic data] | None => [] end) ++
  (if arHasState a then [OpState (marshalState (arState a))] else []).

(** [removeStaleCertDirs], on the disk [d]: what it removes before it returns. *)
Fixpoint removeStale (a : certStoreArchive) (d : CertDisk) (ids : list string) : list DiskOp * option RestoreError :=
  match ids with
  | [] => ([], None)
  | id :: ids =>
      let dir := sanitizeFilename id in
      if bool_decide (is_Some (arCerts a !! dir)) then removeStale a d ids
      else if unsafe_dir dir then ([], Some (RsUnsafe id))
      else
        let '(ops, e) := removeStale a d ids in
        (if bool_decide (is_Some (dkDirs d !! dir)) then OpRemove dir :: ops else ops, e)
  end.

Definition removeStaleCertDirs (a : certStoreArchive) (d : CertDisk) : list DiskOp * option RestoreError :=
  removeStale a d (keysInOrder (default ∅ (stCertificates (arState a)))).

(** [RestoreCertificateStore]: the writes and what is returned after them. *)
Definition RestoreCertificateStore (force : bool) (source : option Tarball) (d : CertDisk)
  : list DiskOp * result RestoreError CertsRestoreSummary :=
  match readCertStoreArchiveFrom source with
  | Err e => ([], Err (RsArchive e))
  | Ok a =>
      match (if force then None else certStoreOccupant d) with
      | Some o => ([], Err (RsNotEmpty o))
      | None =>
          let writes := restoreWrites a in
          let '(removals, e) := removeStaleCertDirs a (run_ops writes d) in
          (writes ++ removals,
           match e with
           | Some e => Err e
           | None =>
               Ok (mkRestored
                     (if arHasState a then Z.of_nat (size (default ∅ (stCertificates (arState a)))) else 0)
                     (if arHasState a then Z.of_nat (size (default ∅ (stDomainMap (arState a)))) else 0)
                     (bool_decide (is_Some (arAccountKey a))) (bool_decide (is_Some (arDynamic a))) (arWarnings a))
           end)
      end
  end.
End backup.

(** ** Lemmas *)

(** *** Restoring *)

Section restoring.
Context `{!Crypto, !StoreJSON, !MapRange, !MapRangeSpec}.

Lemma restore_pairs_spec (certs : gmap string archiveCertPair) dirs d :
  NoDup dirs → (∀ dir, dir ∈ dirs → sanitizeFilename dir = dir ∧ is_Some (certs !! dir)) →
  ∀ dir, diskPair (run_ops (concat ((λ dir, match certs !! dir with
                    | Some p => writeCertificateFiles dir (apCert p) (apKey p)
                    | None => []
                    end) <$> dirs)) d) dir =
    if decide (dir ∈ dirs) then (λ p, (apCert p, apKey p)) <$> certs !! dir else diskPair d dir.
Proof.
  revert d. induction dirs as [|x dirs IH]; intros d Hnd Hin dir; cbn [fmap list_fmap concat].
  - rewrite decide_False; [done|set_solver].
  - apply NoDup_cons in Hnd as [Hni Hnd]. destruct (Hin x) as [Hx [p Hp]]; [left|].
    rewrite Hp, run_ops_app, IH by set_solver.
    destruct (decide (dir ∈ dirs)) as [Hd|Hd]; [by rewrite decide_True by by right|].
    destruct (decide (dir = x)) as [->|Hne].
    + rewrite decide_True by left. rewrite Hp. cbn [fmap option_fmap option_map].
      assert (W := writeCertificateFiles_pair x (apCert p) (apKey p) d). by rewrite Hx in W.
    + rewrite decide_False by (by intros [?|?]%elem_of_cons). apply writeCertificateFiles_other. by rewrite Hx.
Qed.

Lemma pairs_good m a : trusted_archive m a → ∀ dir, is_Some (arCerts a !! dir) → sanitizeFilename dir = dir ∧ unsafe_dir dir = false.
Proof.
  intros Ht dir [p Hp]. assert (Hd := ta_pairs _ _ Ht dir). rewrite Hp in Hd. destruct Hd as (Hg & _).
  split; [by apply (gs_pair _ Hg dir "cert.pem")|by eapply good_slot_dir].
Qed.

Lemma restorePairs_ops m a :
  trusted_archive m a →
  Forall (λ op, is_state_op op = false ∧ ∃ dir, op_dir op = Some dir ∧ is_Some (arCerts a !! dir)) (restorePairs a).
Proof.
  intros Ht. unfold restorePairs. apply Forall_concat, Forall_fmap, Forall_forall. intros dir Hdir%elem_of_sortedKeys.
  assert (Hg := pairs_good _ _ Ht dir Hdir). destruct Hdir as [p Hp]. cbn. rewrite Hp.
  eapply Forall_impl; [apply writeCertificateFiles_op_dir|]. intros op [Ho ?]. split; [done|]. exists dir.
  rewrite Ho. split; [by f_equal; apply Hg|by eexists].
Qed.

(** The writes before the state file. *)
Definition earlyWrites (a : certStoreArchive) : list DiskOp :=
  restorePairs a ++ restoreAccounts a ++ (match arDynamic a with Some data => [OpDynamic data] | None => [] end).

Lemma restoreWrites_early a :
  restoreWrites a = earlyWrites a ++ (if arHasState a then [OpState (marshalState (arState a))] else []).
Proof. unfold restoreWrites, earlyWrites. by rewrite !app_assoc. Qed.

Lemma restoreAccounts_ops a : Forall (λ op, is_state_op op = false ∧ op_dir op = None) (restoreAccounts a).
Proof.
  unfold restoreAccounts. apply Forall_app. split; [by destruct (arAccountKey a); repeat constructor|].
  apply Forall_fmap, Forall_forall. by intros.
Qed.

Lemma earlyWrites_ops m a :
  trusted_archive m a →
  Forall (λ op, is_state_op op = false ∧ ∀ dir, op_dir op = Some dir → is_Some (arCerts a !! dir)) (earlyWrites a).
Proof.
  intros Ht. unfold earlyWrites. rewrite !Forall_app. split; [|split].
  - eapply Forall_impl; [by eapply restorePairs_ops|]. intros op (? & dir & -> & ?). split; [done|]. by intros ? [= <-].
  - eapply Forall_impl; [apply restoreAccounts_ops|]. intros op (? & ->). by split.
  - destruct (arDynamic a); repeat constructor; done.
Qed.

Lemma diskPair_other ops dir d :
  Forall (λ op, op_dir op ≠ Some dir) ops → diskPair (run_ops ops d) dir = diskPair d dir.
Proof. intros Hops. by apply diskPair_dirs, run_ops_other_dir. Qed.

Lemma earlyWrites_pairs m a d dir :
  trusted_archive m a →
  diskPair (run_ops (earlyWrites a) d) dir =
  match arCerts a !! dir with Some p => Some (apCert p, apKey p) | None => diskPair d dir end.
Proof.
  intros Ht. unfold earlyWrites. rewrite run_ops_app, diskPair_other.
  - unfold restorePairs. rewrite restore_pairs_spec; [|apply NoDup_sortedKeys|].
    + destruct (arCerts a !! dir) as [p|] eqn:Hp; case_decide as Hin; rewrite elem_of_sortedKeys in Hin; try done.
      * destruct Hin. by eexists.
      * by destruct Hin; simplify_eq.
    + intros x Hx%elem_of_sortedKeys. split; [by eapply pairs_good|done].
  - apply Forall_app. split; [|by destruct (arDynamic a); repeat constructor].
    eapply Forall_impl; [apply restoreAccounts_ops|]. by intros op [_ ->].
Qed.

(** What is removed: the directories of records without a pair, and there is
    nothing unsafe among them. *)
Lemma removeStale_spec a d ids :
  (∀ id, id ∈ ids → unsafe_dir (sanitizeFilename id) = false) →
  ∃ ops, removeStale a d ids = (ops, None) ∧
    (∀ op, op ∈ ops → ∃ id, id ∈ ids ∧ op = OpRemove (sanitizeFilename id) ∧ arCerts a !! sanitizeFilename id = None) ∧
    (∀ id, id ∈ ids → arCerts a !! sanitizeFilename id = None → is_Some (dkDirs d !! sanitizeFilename id) →
      OpRemove (sanitizeFilename id) ∈ ops).
Proof.
  induction ids as [|id ids IH]; intros Hsafe; cbn.
  - exists []. split; [done|]. split; [|]; intros ? Hnil; by apply elem_of_nil in Hnil.
  - destruct IH as (ops & Hops & Hmem & Hall); [intros; apply Hsafe; by right|].
    destruct (bool_decide (is_Some (arCerts a !! _))) eqn:Hb; breflect.
    + exists ops. split; [done|]. split; [intros op Ho; destruct (Hmem op Ho) as (i & ? & ?); exists i; by split; [right|]|].
      intros i [->|Hi]%elem_of_cons Hn ?; [rewrite Hn in Hb; by destruct Hb|by apply Hall].
    + rewrite Hsafe by left. rewrite Hops. eexists. split; [done|].
      assert (Hnone : arCerts a !! sanitizeFilename id = None) by (by apply eq_None_not_Some).
      destruct (bool_decide _) eqn:Hd; breflect.
      * split.
        -- intros op [->|Ho]%elem_of_cons; [exists id; split; [left|done]|].
           destruct (Hmem op Ho) as (i & ? & ?). exists i. by split; [right|].
        -- intros i [->|Hi]%elem_of_cons Hn ?; [left|right; by apply Hall].
      * split; [intros op Ho; destruct (Hmem op Ho) as (i & ? & ?); exists i; by split; [right|]|].
        intros i [->|Hi]%elem_of_cons Hn ?; [done|by apply Hall].
Qed.

Definition is_remove (op : DiskOp) : Prop := ∃ dir, op = OpRemove dir.

Lemma run_removes_gone ops dir d :
  Forall is_remove ops → OpRemove dir ∈ ops ∨ dkDirs d !! dir = None → dkDirs (run_ops ops d) !! dir = None.
Proof.
  intros Hops. revert d. induction Hops as [|op ops [x ->] Hops IH]; intros d; [by intros [?%elem_of_nil|?]|].
  change (run_ops (OpRemove x :: ops) d) with (run_ops ops (apply_op (OpRemove x) d)). intros Hor. apply IH. cbn.
  destruct (decide (x = dir)) as [->|Hne]; [right; apply lookup_delete_eq|].
  rewrite lookup_delete_ne by done. destruct Hor as [[?|?]%elem_of_cons|?]; [congruence|by left|by right].
Qed.

Lemma run_removes_kept ops dir d :
  Forall is_remove ops → OpRemove dir ∉ ops → dkDirs (run_ops ops d) !! dir = dkDirs d !! dir.
Proof.
  intros Hops Hni. apply run_ops_other_dir, Forall_forall. intros op Hop. rewrite Forall_forall in Hops.
  destruct (Hops op Hop) as [x ->]. cbn. intros [= ->]. done.
Qed.

Lemma run_removes_state ops d : Forall is_remove ops → dkState (run_ops ops d) = dkState d.
Proof. intros Hops. apply run_ops_state. eapply Forall_impl; [done|]. by intros ? [? ->]. Qed.

Lemma run_removes_files ops d : Forall is_remove ops → dkFiles (run_ops ops d) = dkFiles d ∧ dkDynamic (run_ops ops d) = dkDynamic d.
Proof. intros Hops. revert d. induction Hops as [|op ops [x ->] _ IH]; intros d; [done|]. apply (IH (apply_op (OpRemove x) d)). Qed.

Definition counted (source : option Tarball) : Prop :=
  match source with Some tb => tar_counts (tbItems tb) (tbEnd tb) | None => True end.

Definition stateWrites (a : certStoreArchive) : list DiskOp :=
  if arHasState a then [OpState (marshalState (arState a))] else [].

(** What a restore does: nothing and an error, or the writes, the state and
    the removals in this order. *)
Record restored (source : option Tarball) (a : certStoreArchive) (m : gmap string string) (removals : list DiskOp) (d : CertDisk)
  : Prop := {
  re_read : readCertStoreArchiveFrom source = Ok a;
  re_trusted : trusted_archive m a;
  re_removes : Forall is_remove removals;
  re_unheld dir : OpRemove dir ∈ removals → unsafe_dir dir = false ∧ sanitizeFilename dir = dir ∧ arCerts a !! dir = None;
  re_all id : is_Some (default ∅ (stCertificates (arState a)) !! id) → arCerts a !! sanitizeFilename id = None →
    OpRemove (sanitizeFilename id) ∈ removals ∨ dkDirs (run_ops (earlyWrites a ++ stateWrites a) d) !! sanitizeFilename id = None }.

Lemma RestoreCertificateStore_spec force source d ops r :
  RestoreCertificateStore force source d = (ops, r) → counted source →
  (ops = [] ∧ ((∃ e, readCertStoreArchiveFrom source = Err e ∧ r = Err (RsArchive e)) ∨
               (∃ o, force = false ∧ certStoreOccupant d = Some o ∧ r = Err (RsNotEmpty o)))) ∨
  ∃ a m removals s, restored source a m removals d ∧ ops = earlyWrites a ++ stateWrites a ++ removals ∧ r = Ok s.
Proof.
  unfold RestoreCertificateStore. intros Hr Hc.
  destruct (readCertStoreArchiveFrom source) as [a|e] eqn:Hread; [|injection Hr as <- <-; left; eauto].
  destruct (if force then None else _) as [o|] eqn:Hocc; [injection Hr as <- <-; left; destruct force; naive_solver|]. right.
  destruct source as [tb|]; [|done]. destruct (read_trusted tb a Hread Hc) as (Ht & _).
  unfold removeStaleCertDirs in Hr.
  assert (Hsafe : ∀ id, id ∈ keysInOrder (default ∅ (stCertificates (arState a))) → unsafe_dir (sanitizeFilename id) = false).
  { intros id [o Ho]%elem_of_sortedKeys. destruct (arHasState a) eqn:Hh.
    - destruct (ta_state _ _ Ht Hh) as (certs & dm & Htr & _). rewrite (tr_certs _ _ _ Htr) in Ho. cbn in Ho.
      by destruct (tr_record _ _ _ Htr id o Ho) as (? & _ & _ & ?).
    - destruct (ta_stateless _ _ Ht Hh) as [Hz _]. rewrite Hz in Ho. done. }
  destruct (removeStale_spec a (run_ops (restoreWrites a) d) _ Hsafe) as (rem & Heq & Hmem & Hall). rewrite Heq in Hr.
  injection Hr as <- <-. eexists a, _, rem, _. split; [|split; [|reflexivity]].
  - split; [done|exact Ht|..].
    + apply Forall_forall. intros op Hop. destruct (Hmem op Hop) as (id & _ & -> & _). by eexists.
    + intros dir Hdir. destruct (Hmem _ Hdir) as (id & Hid & [= ->] & Hn). split; [by apply Hsafe|].
      split; [apply sanitizeFilename_idemp|done].
    + intros id Hid Hn. destruct (dkDirs (run_ops (earlyWrites a ++ stateWrites a) d) !! sanitizeFilename id) eqn:Hd; [|by right].
      left. apply Hall; [by apply elem_of_sortedKeys|done|]. rewrite restoreWrites_early. unfold stateWrites in Hd.
      rewrite Hd. by eexists.
  - rewrite restoreWrites_early. unfold stateWrites. by rewrite <-!app_assoc.
Qed.

(** How far a list of writes in three parts got. *)
Lemma prefix_three {A} (l r l1 l3 : list A) (x : A) :
  l ++ r = l1 ++ x :: l3 → (∃ r', l1 = l ++ r') ∨ (∃ l', l = l1 ++ x :: l' ∧ l' `prefix_of` l3).
Proof.
  intros Heq. apply app_eq_inv in Heq as [(k & -> & Heq)|(k & -> & Heq)]; [|left; eauto].
  destruct k as [|y k]; [left; exists []; by rewrite !app_nil_r|]. right. injection Heq as <- ->. exists k.
  split; [done|]. by eexists.
Qed.

Lemma cut_dirs ops d d' dir : cut_short ops d d' → Forall (λ op, op_dir op ≠ Some dir) ops → dkDirs d' !! dir = dkDirs d !! dir.
Proof.
  intros Hs Hops. destruct Hs as [l r ->|l dir' base data torn r ->].
  - apply Forall_app in Hops as [Hl _]. by apply run_ops_other_dir.
  - apply Forall_app in Hops as [Hl [Hx _]%Forall_cons]. rewrite apply_op_other_dir by done. by apply run_ops_other_dir.
Qed.

(** The state is written once the archived pairs are there, and what is
    removed afterwards is not one of them. *)
Lemma restored_cut source a m removals d d' :
  restored source a m removals d → cut_short (earlyWrites a ++ stateWrites a ++ removals) d d' →
  dkState d' = dkState d ∨
  (dkState d' = Some (marshalState (arState a)) ∧
   ∀ dir p, arCerts a !! dir = Some p → diskPair d' dir = Some (apCert p, apKey p)).
Proof.
  intros Hre Hs. assert (Hearly := earlyWrites_ops _ _ (re_trusted _ _ _ _ _ Hre)).
  assert (Hquiet : Forall (λ op, is_state_op op = false) (earlyWrites a)) by (eapply Forall_impl; [exact Hearly|]; by intros op [? _]).
  assert (Hrem : Forall (λ op, is_state_op op = false) removals).
  { eapply Forall_impl; [apply (re_removes _ _ _ _ _ Hre)|]. by intros ? [? ->]. }
  unfold stateWrites in Hs. destruct (arHasState a).
  2:{ left. destruct Hs as [l r Heq|l dir base data torn r Heq]; cbn in Heq.
      - apply run_ops_state. assert (Hall := proj2 (Forall_app _ _ _) (conj Hquiet Hrem)). rewrite Heq in Hall.
        by apply Forall_app in Hall as [? _].
      - rewrite apply_op_state by done. apply run_ops_state.
        assert (Hall := proj2 (Forall_app _ _ _) (conj Hquiet Hrem)). rewrite Heq in Hall.
        by apply Forall_app in Hall as [? _]. }
  assert (Hpre : ∀ l, (∃ r', earlyWrites a = l ++ r') → dkState (run_ops l d) = dkState d).
  { intros l [r' Heq]. apply run_ops_state. rewrite Heq in Hquiet. by apply Forall_app in Hquiet as [? _]. }
  assert (Hpost : ∀ l', l' `prefix_of` removals →
    dkState (run_ops (earlyWrites a ++ OpState (marshalState (arState a)) :: l') d) = Some (marshalState (arState a)) ∧
    ∀ dir p, arCerts a !! dir = Some p →
      diskPair (run_ops (earlyWrites a ++ OpState (marshalState (arState a)) :: l') d) dir = Some (apCert p, apKey p)).
  { intros l' [k Hk]. rewrite run_ops_app.
    change (run_ops (OpState _ :: l') ?x) with (run_ops l' (apply_op (OpState (marshalState (arState a))) x)).
    assert (Hl : Forall is_remove l') by (assert (Hr := re_removes _ _ _ _ _ Hre); rewrite Hk in Hr; by apply Forall_app in Hr as [? _]).
    split; [by rewrite run_removes_state|]. intros dir p Hp.
    assert (Hni : OpRemove dir ∉ l').
    { intros Hin. destruct (re_unheld _ _ _ _ _ Hre dir) as (_ & _ & Hn); [rewrite Hk; apply elem_of_app; by left|congruence]. }
    rewrite (diskPair_dirs _ _ _ (run_removes_kept _ _ _ Hl Hni)).
    assert (He := earlyWrites_pairs m a d dir (re_trusted _ _ _ _ _ Hre)). by rewrite Hp in He. }
  destruct Hs as [l r Heq|l dir base data torn r Heq]; assert (Hthree := Heq); symmetry in Hthree;
    apply prefix_three in Hthree as [Hl|(l' & -> & Hl')].
  - left. by apply Hpre.
  - right. by apply Hpost.
  - left. rewrite apply_op_state by done. by apply Hpre.
  - exfalso. rewrite <-app_assoc in Heq. apply app_inv_head in Heq. cbn in Heq. injection Heq as Heq.
    assert (Hr := re_removes _ _ _ _ _ Hre). rewrite Heq in Hr. apply Forall_app in Hr as [_ [[? ?] _]%Forall_cons]. done.
Qed.

Lemma restored_dirs source a m removals d :
  restored source a m removals d →
  Forall (λ op, ∀ dir, op_dir op = Some dir → sanitizeFilename dir = dir ∧ unsafe_dir dir = false)
    (earlyWrites a ++ stateWrites a ++ removals).
Proof.
  intros Hre. rewrite !Forall_app. split; [|split].
  - eapply Forall_impl; [eapply earlyWrites_ops, Hre|]. intros op [_ Hop] dir Hdir.
    eapply pairs_good; [apply Hre|by apply Hop].
  - unfold stateWrites. by destruct (arHasState a); repeat constructor.
  - apply Forall_forall. intros op Hop dir. assert (Hr := re_removes _ _ _ _ _ Hre). rewrite Forall_forall in Hr.
    destruct (Hr op Hop) as [x ->]. cbn. intros [= ->]. by destruct (re_unheld _ _ _ _ _ Hre dir Hop) as (? & ? & _).
Qed.

(** C17: wherever a restore stops, over whatever store, the state file is the
    one it found or one whose certificates are all on disk as the archive has
    them; no directory is touched but under a name that cannot lead out of the
    store; and a restore that is refused touches nothing. *)
Theorem restore_never_dangles force source d ops r d' :
  counted source → RestoreCertificateStore force source d = (ops, r) → cut_short ops d d' →
  ((∃ e, r = Err e) → d' = d) ∧
  (dkState d' = dkState d ∨
   ∃ a, readCertStoreArchiveFrom source = Ok a ∧ dkState d' = Some (marshalState (arState a)) ∧
     ∀ dir p, arCerts a !! dir = Some p → diskPair d' dir = Some (apCert p, apKey p)) ∧
  (∀ dir, unsafe_dir dir = true ∨ sanitizeFilename dir ≠ dir → dkDirs d' !! dir = dkDirs d !! dir).
Proof.
  intros Hc Hr Hs. apply RestoreCertificateStore_spec in Hr as [[-> He]|(a & m & rem & s & Hre & -> & ->)]; [| |done].
  { assert (d' = d) as -> by (destruct Hs as [[|] ? Heq|[|] ? ? ? ? ? Heq]; done). auto. }
  split; [by intros [? ?]|]. split.
  - destruct (restored_cut _ _ _ _ _ _ Hre Hs) as [?|[? ?]]; [by left|right]. exists a. split; [apply Hre|done].
  - intros dir Hdir. eapply cut_dirs; [done|]. eapply Forall_impl; [by eapply restored_dirs|].
    intros op Hop Heq. destruct (Hop dir Heq) as [? Hu]. destruct Hdir; congruence.
Qed.

(** *** Booting on a restored store *)

(** The record a manager has for one of an archive. *)
Definition archivedRecord (a : certStoreArchive) (id : string) (o : option ManagedCert) : option (option ManagedCert) :=
  match o, arCerts a !! sanitizeFilename id with
  | Some c, Some p => Some (Some (mkCert (Identifier c) (Domains c) (NotAfter c) (Some (lfNotBefore (apLeaf p))) (Directory c)))
  | _, _ => Some o
  end.

Lemma restored_pair source a m removals d id :
  restored source a m removals d → is_Some (default ∅ (stCertificates (arState a)) !! id) →
  loadPair (run_ops (earlyWrites a ++ stateWrites a ++ removals) d) (sanitizeFilename id) =
  apLeaf <$> arCerts a !! sanitizeFilename id.
Proof.
  intros Hre Hid. set (dir := sanitizeFilename id). rewrite app_assoc, run_ops_app.
  assert (Ht := re_trusted _ _ _ _ _ Hre). assert (Hd := ta_pairs _ _ Ht dir).
  unfold loadPair. destruct (arCerts a !! dir) as [p|] eqn:Hp; cbn.
  - assert (Hni : OpRemove dir ∉ removals) by (intros Hin; destruct (re_unheld _ _ _ _ _ Hre dir Hin) as (_ & _ & ?); congruence).
    rewrite (diskPair_dirs _ _ _ (run_removes_kept _ _ _ (re_removes _ _ _ _ _ Hre) Hni)), run_ops_app, diskPair_other.
    + rewrite (earlyWrites_pairs m) by done. rewrite Hp. cbn. apply Hd.
    + unfold stateWrites. destruct (arHasState a); by repeat constructor.
  - unfold diskPair. rewrite (run_removes_gone _ _ _ (re_removes _ _ _ _ _ Hre)); [done|].
    by apply (re_all _ _ _ _ _ Hre).
Qed.

Lemma decoded_stable `{!StoreJSONSpec} l s s' : decoded s l s' → stable s → stable s'.
Proof. induction 1; [done| |done]. intros Hs. eapply IHdecoded, state_stable; done. Qed.

Lemma loadState_records d data s certs dm f :
  dkState d = Some data → unmarshalState data zeroState = Some s → trusted s certs dm →
  (∀ id c, certs !! id = Some (Some c) → loadRecord d id (Some c) = Some (f id (Some c))) →
  loadState d = Some (Ok (Some (map_imap (λ id o, Some (f id o)) certs, Some dm))).
Proof.
  intros Hst Hs Htr Hrec. unfold loadState. rewrite Hst, Hs, (tr_certs _ _ _ Htr), (tr_map _ _ _ Htr). cbn.
  assert (Hall : ∀ id o, certs !! id = Some o → loadRecord d id o = Some (f id o)).
  { intros id o Ho. destruct (tr_record _ _ _ Htr id o Ho) as (c & -> & _). by apply Hrec. }
  rewrite (proj2 (forallb_forall _ _)).
  - do 4 f_equal. apply map_eq. intros id. rewrite !map_lookup_imap. destruct (certs !! id) as [o|] eqn:Ho; cbn; [|done].
    by apply Hall.
  - intros [id o] Hin%list_elem_of_In%elem_of_map_to_list. cbn. rewrite (Hall id o Hin). apply bool_decide_true. by eexists.
Qed.

Definition boots (a : certStoreArchive) (certs : gmap string (option ManagedCert)) : gmap string (option ManagedCert) :=
  map_imap (archivedRecord a) certs.

Lemma restore_boots `{!StoreJSONSpec} tb a m removals d :
  restored (Some tb) a m removals d → counted (Some tb) → arHasState a = true →
  ∃ certs dm, trusted (arState a) certs dm ∧
    loadState (run_ops (earlyWrites a ++ stateWrites a ++ removals) d) = Some (Ok (Some (boots a certs, Some dm))).
Proof.
  intros Hre Hc Hh. destruct (ta_state _ _ (re_trusted _ _ _ _ _ Hre) Hh) as (certs & dm & Htr & _). exists certs, dm.
  split; [done|].
  destruct (read_trusted tb a (re_read _ _ _ _ _ Hre) Hc) as (_ & Hdec & _).
  assert (Hst := decoded_stable _ _ _ Hdec zero_stable).
  assert (Hdata : dkState (run_ops (earlyWrites a ++ stateWrites a ++ removals) d) = Some (marshalState (arState a))).
  { rewrite app_assoc, run_ops_app, run_removes_state, run_ops_app by apply Hre. unfold stateWrites. by rewrite Hh. }
  rewrite (loadState_records _ _ _ _ _ (λ id o, default o (archivedRecord a id o)) Hdata Hst Htr).
  - do 4 f_equal. apply map_eq. intros id. unfold boots. rewrite !map_lookup_imap.
    destruct (certs !! id) as [[c|]|]; cbn; try done.
    by destruct (arCerts a !! sanitizeFilename id).
  - intros id c Hc'. unfold loadRecord, archivedRecord.
    rewrite (restored_pair _ _ _ _ _ id Hre); [by destruct (arCerts a !! sanitizeFilename id)|].
    rewrite (tr_certs _ _ _ Htr). cbn. by eexists.
Qed.
End restoring.

(** *** From export to restore *)

(** What every file system keeps: an entry is a directory or a file, and its
    name has no separator. *)
Record disk_ok (d : CertDisk) : Prop := {
  do_apart name : is_Some (dkDirs d !! name) → dkFiles d !! name = None;
  do_name name : is_Some (dkDirs d !! name) → index_byte name slash = None }.

Section exporting.
Context `{!Crypto, !StoreJSON, !MapRange, !MapRangeSpec, !TarFormat, !SortFunc, !SortFuncSpec}.

(** What an export puts in a slot. *)
Definition exported (d : CertDisk) (sl : Slot) (x : string) : Prop :=
  match sl with
  | SlState => dkState d = Some x
  | SlDynamic => dkDynamic d = Some x ∧ validJSON x = true
  | SlAccount => dkFiles d !! acmeUserFile = Some x ∧ validJSON x = true
  | SlExtra name => dkFiles d !! name = Some x ∧ validJSON x = true
  | SlPair dir base =>
      dir ≠ legacyHTTP01CacheDir ∧
      ∃ cert key, diskPair d dir = Some (cert, key) ∧ is_Some (X509KeyPair cert key) ∧
        (base = "cert.pem" ∧ x = cert ∨ base = "key.pem" ∧ x = key)
  end.

Lemma exported_functional d sl x y : exported d sl x → exported d sl y → x = y.
Proof.
  destruct sl as [| | |name|dir base]; cbn; [congruence|intros [? _] [? _]; congruence..|].
  intros (_ & c & k & Hp & _ & Hx) (_ & c' & k' & Hp' & _ & Hy). rewrite Hp in Hp'. injection Hp' as <- <-.
  destruct Hx as [[-> ->]|[-> ->]], Hy as [[? ->]|[? ->]]; done.
Qed.

Lemma collectOptionalJSON_spec file entry n x :
  mkArchiveFile n x ∈ (collectOptionalJSON file entry).1 ↔ n = entry ∧ file = Some x ∧ validJSON x = true.
Proof.
  unfold collectOptionalJSON. destruct file as [data|]; cbn; [|split; [by intros ?%elem_of_nil|by intros (_ & ? & _)]].
  destruct (validJSON data) eqn:Hv; cbn; [rewrite list_elem_of_singleton|].
  - split; [by intros [= -> ->]|by intros (-> & [= ->] & _)].
  - split; [by intros ?%elem_of_nil|]. intros (_ & [= ->] & ?). congruence.
Qed.

(** The files collected for an entry of the directory are those of its slots. *)
Lemma collectEntry_spec d name f :
  disk_ok d → f ∈ (collectEntry d name).1 →
  ∃ sl, afName f = entryName sl ∧ sane sl ∧ sl ≠ SlState ∧ exported d sl (afData f).
Proof.
  intros [Hap Hname]. unfold collectEntry. destruct (dkDirs d !! name) as [files|] eqn:Hd.
  - destruct (String.eqb_spec name legacyHTTP01CacheDir) as [|Hl]; [by intros ?%elem_of_nil|]. unfold collectCertPair.
    destruct (files !! "cert.pem") as [cert|] eqn:Hc; [|by intros ?%elem_of_nil].
    destruct (files !! "key.pem") as [key|] eqn:Hk; [|by intros ?%elem_of_nil].
    destruct (X509KeyPair cert key) as [der|] eqn:Hx; [|by intros ?%elem_of_nil]. cbn.
    assert (Hex : ∀ base x, (base = "cert.pem" ∧ x = cert ∨ base = "key.pem" ∧ x = key) →
      ∃ sl, pairEntry name base = entryName sl ∧ sane sl ∧ sl ≠ SlState ∧ exported d sl x).
    { intros base x Hb. exists (SlPair name base). split; [done|]. split.
      - cbn. split; [apply Hname; by rewrite Hd|]. destruct Hb as [[-> _]|[-> _]]; auto.
      - split; [done|]. cbn. split; [done|]. exists cert, key. unfold diskPair. rewrite Hd. cbn. rewrite Hc. cbn.
        rewrite Hk, Hx. by split. }
    intros [->|[->|[]%elem_of_nil]%elem_of_cons]%elem_of_cons; cbn [afName afData]; apply Hex; auto.
  - destruct (String.eqb_spec name acmeUserFile) as [->|Ha].
    + destruct f as [n x]. intros (-> & ? & ?)%collectOptionalJSON_spec. by exists SlAccount.
    + destruct (isExtraAccountKeyFile name) eqn:Hex; [|by intros ?%elem_of_nil].
      destruct f as [n x]. intros (-> & ? & ?)%collectOptionalJSON_spec. by exists (SlExtra name).
Qed.

Lemma elem_of_readDir d name : name ∈ readDir d ↔ is_Some (dkDirs d !! name) ∨ is_Some (dkFiles d !! name).
Proof.
  unfold readDir. rewrite sort_strings_perm, elem_of_app.
  by rewrite <-!elem_of_sortedKeys; unfold keysInOrder; rewrite !sort_strings_perm.
Qed.

(** Conversely, what a slot holds is collected. *)
Lemma collected_slot d sl x :
  disk_ok d → sane sl → exported d sl x → sl ≠ SlState → sl ≠ SlDynamic →
  ∃ name, name ∈ readDir d ∧ mkArchiveFile (entryName sl) x ∈ (collectEntry d name).1.
Proof.
  intros [Hap Hname] Hs Hex Hn1 Hn2. destruct sl as [| | |name|dir base]; [done| |done|..].
  - destruct Hex as [Hf Hv]. exists acmeUserFile. split; [apply elem_of_readDir; right; by rewrite Hf|].
    unfold collectEntry. destruct (dkDirs d !! acmeUserFile) eqn:Hd; [by rewrite Hap in Hf|].
    rewrite String.eqb_refl. by apply collectOptionalJSON_spec.
  - destruct Hex as [Hf Hv]. exists name. split; [apply elem_of_readDir; right; by rewrite Hf|].
    unfold collectEntry. destruct (dkDirs d !! name) eqn:Hd; [by rewrite Hap in Hf|]. cbn [sane] in Hs.
    destruct (String.eqb_spec name acmeUserFile) as [->|_]; [done|]. rewrite Hs. by apply collectOptionalJSON_spec.
  - destruct Hex as (Hl & cert & key & Hp & [der Hx] & Hb). exists dir. unfold diskPair in Hp.
    destruct (dkDirs d !! dir) as [files|] eqn:Hd; [|done]. cbn in Hp.
    destruct (files !! "cert.pem") as [c|] eqn:Hc; [|done]. cbn in Hp. destruct (files !! "key.pem") as [k|] eqn:Hk; [|done].
    injection Hp as -> ->. split; [apply elem_of_readDir; left; by rewrite Hd|]. unfold collectEntry. rewrite Hd.
    destruct (String.eqb_spec dir legacyHTTP01CacheDir) as [|_]; [done|]. unfold collectCertPair. rewrite Hc, Hk, Hx.
    cbn [fst entryName].
    destruct Hb as [[-> ->]|[-> ->]]; [left|right; left].
Qed.

Lemma collectStateEntry_spec d s files :
  collectStateEntry d = Ok (s, files) →
  match dkState d with
  | Some data => unmarshalState data zeroState = Some s ∧ (∃ certs dm, trusted s certs dm) ∧ files = [mkArchiveFile archiveStateEntry data]
  | None => s = zeroState ∧ files = []
  end.
Proof.
  unfold collectStateEntry. destruct (dkState d) as [data|]; [|by intros [= <- <-]].
  destruct (unmarshalState data zeroState) as [s'|]; [|done]. destruct (validateManagerState s') eqn:Hv; [done|].
  intros [= <- <-]. by apply validateManagerState_spec in Hv.
Qed.

Lemma exportFiles_spec d s files sl x :
  disk_ok d → collectStateEntry d = Ok (s, files) → sane sl →
  mkArchiveFile (entryName sl) x ∈ exportFiles d files (collectCertsEntries d s).1 ↔ exported d sl x.
Proof.
  intros Hd Hst Hsl. unfold exportFiles, collectCertsEntries. cbn [fst]. rewrite sort_func_perm, !elem_of_app.
  apply collectStateEntry_spec in Hst. split.
  - assert (Hsame : ∀ sl', entryName sl = entryName sl' → sane sl' → exported d sl' x → exported d sl x).
    { intros sl' Heq Hsl' Hx. by rewrite (entryName_sane_inj sl sl'). }
    intros [Hin|[Hin|Hin]].
    + destruct (dkState d) as [data|] eqn:Hdata; destruct Hst as [_ Hf]; [destruct Hf as [_ Hf]|]; rewrite Hf in Hin; [|by apply elem_of_nil in Hin].
      apply list_elem_of_singleton in Hin. injection Hin as Hn ->. by apply (Hsame SlState).
    + apply list_elem_of_In, in_concat in Hin as (l & Hl & Hin). apply list_elem_of_In in Hl, Hin.
      apply list_elem_of_fmap in Hl as (p & -> & Hp). apply list_elem_of_fmap in Hp as (name & -> & _).
      apply collectEntry_spec in Hin as (sl' & Hn & Hsl' & _ & Hx); [|done]. by apply (Hsame sl').
    + apply collectOptionalJSON_spec in Hin as (Hn & Hx). by apply (Hsame SlDynamic).
  - intros Hx. destruct (decide (sl = SlState)) as [->|Hn1]; [left|right].
    { cbn in Hx. rewrite Hx in Hst. destruct Hst as (_ & _ & ->). left. }
    destruct (decide (sl = SlDynamic)) as [->|Hn2]; [right; by apply collectOptionalJSON_spec|left].
    destruct (collected_slot d sl x) as (name & Hr & Hin); [done..|].
    apply list_elem_of_In, in_concat. exists (collectEntry d name).1. split; [|by apply list_elem_of_In].
    apply list_elem_of_In, list_elem_of_fmap. exists (collectEntry d name). split; [done|]. by apply list_elem_of_fmap_2.
Qed.

(** *** The tarball *)

Class TarFormatSpec : Prop := tarHeader_pos name : 0 ≤ tarHeader name.
Context `{!TarFormatSpec}.

Definition entry_pair (f : archiveFile) : string * string := (afName f, afData f).

Lemma tarItems_spec pad files :
  0 ≤ pad → regular (tbItems (tarItems pad files)) = entry_pair <$> files ∧
  tar_counts (tbItems (tarItems pad files)) (tbEnd (tarItems pad files)).
Proof.
  revert pad. induction files as [|f files IH]; intros pad Hp; cbn.
  - split; [done|]. split; [constructor|lia].
  - assert (Hpad : 0 ≤ tarPadding (afData f)) by (apply Z.mod_pos_bound; lia).
    destruct (IH _ Hpad) as [Hreg [Hits Hend]]. destruct (tarItems (tarPadding (afData f)) files) as [items fin].
    cbn [tbItems tbEnd] in *. split; [cbn; unfold regular in Hreg; by rewrite Hreg|].
    split; [constructor; [|done]|done]. cbn. specialize (tarHeader_pos (afName f)). lia.
Qed.

Lemma by_name_lookup l m n :
  match by_name l m !! n with
  | Some x => (n, x) ∈ l ∨ m !! n = Some x
  | None => ∀ x, (n, x) ∉ l
  end.
Proof.
  revert m. induction l as [|[k y] l IH]; intros m; cbn.
  - destruct (m !! n); [by right|]. intros x. apply not_elem_of_nil.
  - specialize (IH (<[k := y]> m)). destruct (decide (k = n)) as [->|Hne].
    + rewrite lookup_insert_eq in IH.
      destruct (by_name l _ !! n) as [x|] eqn:Hb; unfold by_name in Hb; cbn in Hb; rewrite Hb.
      * destruct IH as [?|[= ->]]; [left; by right|left; left].
      * exfalso. assert (Hs : ∀ l m, is_Some (m !! n) → is_Some (by_name l m !! n)).
        { clear. induction l as [|[k z] l IH]; intros m Hm; [done|]. cbn. apply IH. destruct (decide (k = n)) as [->|Hk].
          - rewrite lookup_insert_eq. by eexists.
          - by rewrite lookup_insert_ne. }
        destruct (Hs l (<[n := y]> m)) as [? Hx]; [rewrite lookup_insert_eq; by eexists|]. unfold by_name in Hx.
        cbn in Hx. congruence.
    + rewrite lookup_insert_ne in IH by done. fold (by_name l (<[k := y]> m)).
      destruct (by_name l (<[k:=y]> m) !! n) as [x|]; [destruct IH; [left; by right|by right]|].
      intros x [[= -> _]|Hin]%elem_of_cons; [done|]. by eapply IH.
Qed.

(** Where the entries of a name agree, the map has what they say. *)
Lemma by_name_spec l n x :
  (∀ y, (n, y) ∈ l → (n, x) ∈ l → y = x) → by_name l ∅ !! n = Some x ↔ (n, x) ∈ l.
Proof.
  intros Hf. assert (Hl := by_name_lookup l ∅ n). destruct (by_name l ∅ !! n) as [y|]; split.
  - intros [= ->]. destruct Hl as [?|Hl]; [done|by rewrite lookup_empty in Hl].
  - intros Hin. destruct Hl as [Hy|Hl]; [|by rewrite lookup_empty in Hl]. f_equal. by apply Hf.
  - done.
  - intros Hin. by destruct (Hl x).
Qed.

Definition is_state_entry (p : string * string) : bool := String.eqb p.1 archiveStateEntry.

Lemma decoded_filter s l s' : decoded s l s' → decoded s (List.filter is_state_entry l) s'.
Proof.
  induction 1 as [s|data l s s1 s' Hu Hd IH|name data l s s' Hn Hd IH]; cbn.
  - constructor.
  - by eapply dec_state.
  - unfold is_state_entry at 1. cbn. by rewrite (proj2 (String.eqb_neq name archiveStateEntry)).
Qed.

Lemma filter_bool_perm {A} (f : A → bool) (l k : list A) : l ≡ₚ k → List.filter f l ≡ₚ List.filter f k.
Proof.
  induction 1 as [|x l k _ IH|x y l|l k j _ IH1 _ IH2]; cbn; [done| | |by etrans].
  - destruct (f x); by rewrite IH.
  - destruct (f x), (f y); try done. apply Permutation_swap.
Qed.

(** The one state of an export is the one on disk. *)
Lemma exported_state d s files s' :
  disk_ok d → collectStateEntry d = Ok (s, files) →
  decoded zeroState (entry_pair <$> exportFiles d files (collectCertsEntries d s).1) s' → s' = s.
Proof.
  intros Hd Hst Hdec. apply decoded_filter in Hdec. apply collectStateEntry_spec in Hst.
  assert (Hf : List.filter is_state_entry (entry_pair <$> exportFiles d files (collectCertsEntries d s).1) ≡ₚ entry_pair <$> files).
  { rewrite (filter_bool_perm _ _ (entry_pair <$> (files ++ (collectCertsEntries d s).1 ++
      (collectOptionalJSON (dkDynamic d) archiveDynamicDomainsEntry).1))) by (unfold exportFiles; by rewrite sort_func_perm).
    rewrite !fmap_app, !List.filter_app. rewrite (filter_all _ (entry_pair <$> files)).
    - rewrite !filter_none, !app_nil_r; [done|..].
      + intros p (f & -> & Hin)%list_elem_of_fmap. destruct f as [n x]. by apply collectOptionalJSON_spec in Hin as (-> & _).
      + intros p (f & -> & Hin)%list_elem_of_fmap. apply String.eqb_neq. cbn. intros Heq.
        apply list_elem_of_In, in_concat in Hin as (l & Hl & Hin). apply list_elem_of_In in Hl, Hin.
        apply list_elem_of_fmap in Hl as (p & -> & Hp). apply list_elem_of_fmap in Hp as (name & -> & _).
        apply collectEntry_spec in Hin as (sl & Hn & Hsl & Hns & _); [|done]. apply Hns.
        apply entryName_sane_inj; [done|done|by rewrite <-Hn].
    - intros p (f & -> & Hin)%list_elem_of_fmap. destruct (dkState d) as [data|]; destruct Hst as [_ Hf].
      + destruct Hf as [_ ->]. by apply list_elem_of_singleton in Hin as ->.
      + rewrite Hf in Hin. by apply elem_of_nil in Hin. }
  destruct (dkState d) as [data|]; destruct Hst as [Hs Hfs].
  - destruct Hfs as [_ ->]. cbn in Hf. unfold entry_pair at 2 in Hf. cbn in Hf.
    apply Permutation_sym, Permutation_length_1_inv in Hf. unfold collectCertsEntries in Hdec. cbn [fst] in Hdec.
    rewrite Hf in Hdec.
    inversion Hdec as [| ? ? ? ? ? Hu Hnil |? ? ? ? ? Hne]; [|by destruct Hne].
    inversion Hnil; subst. congruence.
  - rewrite Hfs in *. apply Permutation_nil_r in Hf. rewrite Hf in Hdec. inversion Hdec. congruence.
Qed.

(** What an export that succeeds has in its slots. *)
Lemma export_read d tb sum :
  disk_ok d → ExportCertificateStore d = Ok (tb, sum) →
  ∃ s files a, collectStateEntry d = Ok (s, files) ∧ readCertStoreArchiveFrom (Some tb) = Ok a ∧
    tar_counts (tbItems tb) (tbEnd tb) ∧ arState a = s ∧
    ∀ sl, sane sl → ∀ x, by_name (regular (tbItems tb)) ∅ !! entryName sl = Some x ↔ exported d sl x.
Proof.
  intros Hd Hex. unfold ExportCertificateStore in Hex. apply result_bind_ok in Hex as ([s files] & Hst & Hex).
  destruct (collectCertsEntries d s) as [certFiles ws] eqn:Hcol. destruct (_ && _); [done|].
  destruct (bool_decide _); [done|]. apply result_bind_ok in Hex as ([tb' ws'] & Hw & Hex). injection Hex as -> _.
  unfold writeCertArchive in Hw. destruct (readCertStoreArchiveFrom _) as [a|] eqn:Hread; [|done]. injection Hw as <- _.
  destruct (tarItems_spec 0 (exportFiles d files certFiles)) as [Hreg Hc]; [done|].
  assert (Hcf : certFiles = (collectCertsEntries d s).1) by (by rewrite Hcol). rewrite Hcf in *.
  exists s, files, a. split; [done|]. split; [done|]. split; [done|].
  destruct (read_trusted _ _ Hread Hc) as (_ & Hdec & _). rewrite Hreg in Hdec |- *.
  split; [by eapply exported_state|]. intros sl Hsl x.
  assert (Hin : ∀ y, (entryName sl, y) ∈ entry_pair <$> exportFiles d files (collectCertsEntries d s).1 ↔ exported d sl y).
  { intros y. rewrite <-(exportFiles_spec d s files sl y) by done. rewrite list_elem_of_fmap. split.
    - intros ([n z] & [= -> ->] & ?). done.
    - intros ?. by exists (mkArchiveFile (entryName sl) y). }
  rewrite <-Hin. apply by_name_spec. intros y Hy Hx. rewrite Hin in Hx, Hy. by eapply exported_functional.
Qed.

(** *** The other files of a restored store *)

Lemma dir_ops_files ops d :
  Forall (λ op, ∃ dir, op_dir op = Some dir) ops → dkFiles (run_ops ops d) = dkFiles d ∧ dkDynamic (run_ops ops d) = dkDynamic d.
Proof.
  intros Hops. revert d. induction Hops as [|op ops [dir Hop] _ IH]; intros d; [done|].
  change (run_ops (op :: ops) d) with (run_ops ops (apply_op op d)). destruct (IH (apply_op op d)) as [-> ->].
  destruct op as [| |x base| | | |]; try done. cbn. by destruct (_ !! tmpName base).
Qed.

Lemma run_files (g : string → string) names d n :
  dkFiles (run_ops ((λ name, OpFile name (g name)) <$> names) d) !! n = (if decide (n ∈ names) then Some (g n) else dkFiles d !! n) ∧
  dkDynamic (run_ops ((λ name, OpFile name (g name)) <$> names) d) = dkDynamic d.
Proof.
  revert d. induction names as [|x names IH]; intros d; [by rewrite decide_False by apply not_elem_of_nil|].
  change (run_ops ((λ name, OpFile name (g name)) <$> x :: names) d)
    with (run_ops ((λ name, OpFile name (g name)) <$> names) (apply_op (OpFile x (g x)) d)).
  destruct (IH (apply_op (OpFile x (g x)) d)) as [-> ->]. split; [|done]. cbn. destruct (decide (n = x)) as [->|Hne].
  - rewrite (decide_True (P := x ∈ x :: names)) by left. case_decide; [done|apply lookup_insert_eq].
  - rewrite lookup_insert_ne by done. destruct (decide (n ∈ names)) as [Hin|Hin]; [by rewrite decide_True by by right|].
    rewrite decide_False; [done|]. by intros [?|?]%elem_of_cons.
Qed.

Lemma restored_files source a m removals d :
  restored source a m removals d →
  let d' := run_ops (earlyWrites a ++ stateWrites a ++ removals) d in
  (∀ name, dkFiles d' !! name =
    match arExtra a !! name with
    | Some x => Some x
    | None => match arAccountKey a with
              | Some k => if String.eqb name acmeUserFile then Some k else dkFiles d !! name
              | None => dkFiles d !! name
              end
    end) ∧
  dkDynamic d' = match arDynamic a with Some x => Some x | None => dkDynamic d end.
Proof.
  intros Hre d'. subst d'. rewrite app_assoc, run_ops_app.
  destruct (run_removes_files removals (run_ops (earlyWrites a ++ stateWrites a) d)) as [-> ->]; [apply Hre|].
  rewrite run_ops_app. set (d1 := run_ops (earlyWrites a) d).
  assert (Hsame : dkFiles (run_ops (stateWrites a) d1) = dkFiles d1 ∧ dkDynamic (run_ops (stateWrites a) d1) = dkDynamic d1).
  { unfold stateWrites. by destruct (arHasState a). }
  destruct Hsame as [-> ->]. subst d1. unfold earlyWrites, restoreAccounts. rewrite !run_ops_app.
  destruct (dir_ops_files (restorePairs a) d) as [Hf1 Hd1].
  { eapply Forall_impl; [eapply restorePairs_ops, Hre|]. intros op (_ & dir & ? & _). eauto. }
  set (d1 := run_ops (restorePairs a) d) in *.
  set (d2 := run_ops (match arAccountKey a with Some k => [OpFile acmeUserFile k] | None => [] end) d1).
  assert (Hd2 : dkDynamic d2 = dkDynamic d) by (subst d2; rewrite <-Hd1; by destruct (arAccountKey a)).
  assert (Hrun := λ n, run_files (λ name, default "" (arExtra a !! name)) (keysInOrder (arExtra a)) d2 n). cbv beta in Hrun.
  set (d3 := run_ops (_ <$> keysInOrder (arExtra a)) d2) in *. split.
  - intros name. assert (dkFiles (run_ops (match arDynamic a with Some data => [OpDynamic data] | None => [] end) d3) = dkFiles d3) as ->
      by (by destruct (arDynamic a)).
    destruct (Hrun name) as [-> _]. case_decide as Hin; rewrite elem_of_sortedKeys in Hin.
    + destruct Hin as [x Hx]. by rewrite Hx.
    + apply eq_None_not_Some in Hin. rewrite Hin.
      subst d2. rewrite <-Hf1. destruct (arAccountKey a) as [k|]; [|done]. cbn.
      destruct (String.eqb_spec name acmeUserFile) as [->|Hne]; [apply lookup_insert_eq|by rewrite lookup_insert_ne].
  - destruct (Hrun "") as [_ Hrd]. destruct (arDynamic a); [done|]. cbn. by rewrite Hrd, Hd2.
Qed.

(** An archive cannot carry the cache of the old version. *)
Definition no_legacy_id (s : managerState) : Prop :=
  ∀ certs id, stCertificates s = Some certs → is_Some (certs !! id) → sanitizeFilename id ≠ legacyHTTP01CacheDir.

Context `{!StoreJSONSpec}.

Lemma tr_unique s certs dm certs' dm' : trusted s certs dm → trusted s certs' dm' → certs = certs' ∧ dm = dm'.
Proof. intros [Hc Hm _ _ _] [Hc' Hm' _ _ _]. split; congruence. Qed.

(** What an archive has of a certificate is what the disk has. *)
Lemma exported_pair d a m dir :
  trusted_archive m a → (∀ sl, sane sl → ∀ x, m !! entryName sl = Some x ↔ exported d sl x) →
  unsafe_dir dir = false → sanitizeFilename dir = dir → dir ≠ legacyHTTP01CacheDir →
  (∀ base, base = "cert.pem" ∨ base = "key.pem" → is_Some (m !! pairEntry dir base) → good_slot (SlPair dir base)) →
  apLeaf <$> arCerts a !! dir = loadPair d dir.
Proof.
  intros Ht Hm Hu Hs Hl Hgood. assert (Hp := ta_pairs _ _ Ht dir).
  assert (Hsane : ∀ base, base = "cert.pem" ∨ base = "key.pem" → sane (SlPair dir base)).
  { intros base Hb. split; [by apply sanitized_no_slash|done]. }
  assert (Hcert := Hm (SlPair dir "cert.pem") (Hsane _ (or_introl eq_refl))). cbn [entryName exported] in Hcert.
  assert (Hkey := Hm (SlPair dir "key.pem") (Hsane _ (or_intror eq_refl))). cbn [entryName exported] in Hkey.
  unfold loadPair. destruct (arCerts a !! dir) as [p|]; cbn.
  - destruct Hp as (_ & Hc & Hk & Hx). apply Hcert in Hc as (_ & c & k & Hd & _ & [[_ Hce]|[? _]]); [|done].
    apply Hkey in Hk as (_ & c' & k' & Hd' & _ & [[? _]|[_ Hke]]); [done|]. rewrite Hd in Hd'. injection Hd' as <- <-.
    rewrite Hd, <-Hce, <-Hke. by rewrite <-Hx.
  - destruct (diskPair d dir) as [[cert key]|] eqn:Hd; [|done]. cbn.
    destruct (X509KeyPair cert key) as [der|] eqn:Hx; [|done]. exfalso.
    assert (Hin : m !! pairEntry dir "cert.pem" = Some cert).
    { apply Hcert. split; [done|]. exists cert, key. rewrite Hx. auto. }
    rewrite (Hp "cert.pem") in Hin; [done|]. apply Hgood; [by left|by rewrite Hin].
Qed.

Lemma keeps_lookup (f : string → bool) (o o' : option string) :
  (∀ x, o = Some x ↔ o' = Some x ∧ f x = true) → o = keeps f o'.
Proof.
  intros H'. destruct o as [x|].
  - destruct (proj1 (H' x) eq_refl) as [-> Hf]. cbn. by rewrite Hf.
  - destruct o' as [y|]; [|done]. cbn. destruct (f y) eqn:Hf; [|done]. by apply H'.
Qed.

Lemma keeps_keeps f g o : keeps g (keeps f o) = keeps (λ x, f x && g x) o.
Proof. destruct o as [x|]; cbn; [|done]. destruct (f x); cbn; done. Qed.

(** The entries of an export that was read back are accepted ones. *)
Lemma exported_good tb a sl :
  readCertStoreArchiveFrom (Some tb) = Ok a → counted (Some tb) → sane sl →
  is_Some (by_name (regular (tbItems tb)) ∅ !! entryName sl) → good_slot sl.
Proof.
  intros Hread Hc Hsane [x Hx]. destruct (read_trusted tb a Hread Hc) as (_ & _ & _ & Hnames & _).
  assert (Hl := by_name_lookup (regular (tbItems tb)) ∅ (entryName sl)). rewrite Hx in Hl.
  destruct Hl as [Hin|Hin]; [|by rewrite lookup_empty in Hin]. destruct (Hnames _ _ Hin) as (sl' & Hg & Hn).
  rewrite (entryName_sane_inj sl sl'); [done|done|by apply good_sane|done].
Qed.

(** A manager boots on the exported disk as on the archive. *)
Lemma export_boots d tb a s files :
  collectStateEntry d = Ok (s, files) → readCertStoreArchiveFrom (Some tb) = Ok a → counted (Some tb) → arState a = s →
  (∀ sl, sane sl → ∀ x, by_name (regular (tbItems tb)) ∅ !! entryName sl = Some x ↔ exported d sl x) → no_legacy_id s →
  ∀ certs dm, is_Some (dkState d) → trusted (arState a) certs dm → loadState d = Some (Ok (Some (boots a certs, Some dm))).
Proof.
  intros Hst Hread Hc Has Hm Hleg certs dm [data Hdata] Htr. apply collectStateEntry_spec in Hst. rewrite Hdata in Hst.
  destruct Hst as (Hs & _ & _). destruct (read_trusted tb a Hread Hc) as (Ht & _). rewrite Has in Htr.
  assert (Hpair : ∀ id, is_Some (certs !! id) → apLeaf <$> arCerts a !! sanitizeFilename id = loadPair d (sanitizeFilename id)).
  { intros id Hid. apply (exported_pair d a _ _ Ht Hm).
    - destruct Hid as [o Ho]. by destruct (tr_record _ _ _ Htr id o Ho) as (? & _ & _ & ?).
    - apply sanitizeFilename_idemp.
    - eapply Hleg; [apply Htr|done].
    - intros base Hb. apply (exported_good tb a (SlPair (sanitizeFilename id) base)); [done|done|].
      split; [apply sanitized_no_slash, sanitizeFilename_idemp|done]. }
  rewrite (loadState_records d data s certs dm (λ id o, default o (archivedRecord a id o)) Hdata Hs Htr).
  - do 4 f_equal. apply map_eq. intros id. unfold boots. rewrite !map_lookup_imap.
    destruct (certs !! id) as [[c|]|]; cbn; try done.
    by destruct (arCerts a !! sanitizeFilename id).
  - intros id c Hid. unfold loadRecord, archivedRecord. rewrite <-Hpair by by eexists.
    by destruct (arCerts a !! sanitizeFilename id).
Qed.

(** What a restore finds of the account keys. *)
Lemma archived_key d tb a name :
  readCertStoreArchiveFrom (Some tb) = Ok a → counted (Some tb) →
  (∀ sl, sane sl → ∀ x, by_name (regular (tbItems tb)) ∅ !! entryName sl = Some x ↔ exported d sl x) →
  name = acmeUserFile ∨ isExtraAccountKeyFile name = true →
  match arExtra a !! name with
  | Some x => Some x
  | None => match arAccountKey a with
            | Some k => if String.eqb name acmeUserFile then Some k else dkFiles emptyDisk !! name
            | None => dkFiles emptyDisk !! name
            end
  end = keeps usableKey (keeps validJSON (dkFiles d !! name)).
Proof.
  intros Hread Hc Hm Hname. destruct (read_trusted tb a Hread Hc) as (Ht & _). cbn [emptyDisk dkFiles].
  rewrite lookup_empty. destruct (String.eqb_spec name acmeUserFile) as [->|Hne].
  - destruct (arExtra a !! acmeUserFile) as [x|] eqn:Hx.
    { assert (Hg := ta_extra_good _ _ Ht acmeUserFile). rewrite Hx in Hg. specialize (Hg ltac:(by eexists)).
      by assert (Hf := gs_extra _ Hg acmeUserFile eq_refl). }
    rewrite (ta_account _ _ Ht). assert (Hk := keeps_lookup validJSON _ _ (Hm SlAccount I)). cbn [entryName] in Hk.
    rewrite Hk.
    by destruct (keeps usableKey _).
  - destruct Hname as [|Hex]; [done|]. assert (Hk := keeps_lookup validJSON _ _ (Hm (SlExtra name) Hex)).
    cbn [entryName] in Hk.
    destruct (arExtra a !! name) as [x|] eqn:Hx.
    + rewrite <-Hx, (ta_extra _ _ Ht) by (apply (ta_extra_good _ _ Ht); by rewrite Hx). by rewrite Hk.
    + rewrite <-Hk. destruct (by_name _ _ !! (archiveCertsPrefix +:+ name)) as [x|] eqn:Hb; [|by destruct (arAccountKey a)].
      assert (Hg : good_slot (SlExtra name)) by (apply (exported_good tb a (SlExtra name)); [done..|cbn [entryName]; by rewrite Hb]).
      rewrite <-Hb, <-(ta_extra _ _ Ht name Hg), Hx. by destruct (arAccountKey a).
Qed.

(** C16: a backup brings the store back: whatever an export has written is
    restored on an empty store, where a manager then boots with the same
    certificates, loaded or missing, for the same names, and finds the dynamic
    domains and every account key it could have used. *)
Theorem backup_restores d tb sum :
  disk_ok d → ExportCertificateStore d = Ok (tb, sum) →
  (∀ s files, collectStateEntry d = Ok (s, files) → no_legacy_id s) →
  ∃ ops s, RestoreCertificateStore false (Some tb) emptyDisk = (ops, Ok s) ∧
    let d' := run_ops ops emptyDisk in
    loadState d' = loadState d ∧
    dkDynamic d' = keeps validJSON (dkDynamic d) ∧
    ∀ name, name = acmeUserFile ∨ isExtraAccountKeyFile name = true →
      dkFiles d' !! name = keeps (λ x, validJSON x && usableKey x) (dkFiles d !! name).
Proof.
  intros Hd Hex Hleg. destruct (export_read d tb sum Hd Hex) as (s & files & a & Hst & Hread & Hc & Has & Hm).
  destruct (RestoreCertificateStore false (Some tb) emptyDisk) as [ops r] eqn:Hr.
  destruct (RestoreCertificateStore_spec _ _ _ _ _ Hr Hc) as [[_ [(e & He & _)|(o & _ & Ho & _)]]|(a' & m' & rem & sm & Hre & -> & ->)];
    [congruence|done|]. assert (a' = a) as -> by (assert (Hra := re_read _ _ _ _ _ Hre); congruence).
  destruct (read_trusted tb a Hread Hc) as (Ht & _). eexists _, sm. split; [reflexivity|].
  destruct (restored_files _ _ _ _ _ Hre) as [Hfiles Hdyn]. cbv zeta. split; [|split].
  - destruct (dkState d) as [data|] eqn:Hdata.
    + assert (Hh : arHasState a = true).
      { rewrite (ta_has _ _ Ht). apply bool_decide_true. exists data. by apply (Hm SlState). }
      destruct (restore_boots tb a m' rem emptyDisk Hre Hc Hh) as (certs & dm & Htr & ->). symmetry.
      apply (export_boots d tb a s files); [done..|by eapply Hleg|by rewrite Hdata|done].
    + assert (Hh : arHasState a = false).
      { rewrite (ta_has _ _ Ht). apply bool_decide_false. intros [x Hx]. apply (Hm SlState I) in Hx. cbn in Hx. congruence. }
      unfold loadState. rewrite app_assoc, run_ops_app, run_removes_state, run_ops_app by apply Hre. unfold stateWrites.
      rewrite Hh.
      cbn [run_ops foldl]. rewrite run_ops_state; [by rewrite Hdata|].
      eapply Forall_impl; [eapply earlyWrites_ops, Hre|]. by intros op [? _].
  - rewrite Hdyn, (ta_dynamic _ _ Ht). assert (Hk := keeps_lookup validJSON _ _ (Hm SlDynamic I)). cbn [entryName] in Hk.
    rewrite Hk.
    by destruct (keeps _ _).
  - intros name Hname. rewrite Hfiles, <-keeps_keeps. by apply (archived_key d tb a).
Qed.
End exporting.

(** ** A store, its backup, and what goes wrong *)

Module ArchiveExamples.

#[local] Instance example_crypto : Crypto := {
  X509KeyPair cert key :=
    if String.eqb cert "first" && String.eqb key "key" then Some "first"
    else if String.eqb cert "renewed" && String.eqb key "key" then Some "renewed" else None;
  ParseCertificate der :=
    if String.eqb der "first" then Some (mkLeaf ["www.example.com"; "example.com"] 0 (90 * day))
    else if String.eqb der "renewed" then Some (mkLeaf ["example.com"; "www.example.com"] (60 * day) (150 * day)) else None;
  ParsePEMPrivateKey pem := if String.eqb pem "ec" then Some KeyECDSA else if String.eqb pem "rsa" then Some KeyOther else None }.

Definition held (notAfter : Z) : ManagedCert := mkCert "san:0123" ["example.com"; "www.example.com"] notAfter None "".
Definition lost : ManagedCert := mkCert "san:4567" ["lost.example.com"] (80 * day) None "".

Definition state (notAfter : Z) : managerState :=
  mkState (Some {["san:0123" := Some (held notAfter); "san:4567" := Some lost]})
    (Some {["example.com" := "san:0123"; "www.example.com" := "san:0123"; "lost.example.com" := "san:4567"]}) 0.

#[local] Instance ManagedCert_eq_dec : EqDecision ManagedCert.
Proof. solve_decision. Defined.
#[local] Instance managerState_eq_dec : EqDecision managerState.
Proof. solve_decision. Defined.

#[local] Instance example_json : StoreJSON := {
  unmarshalState data _ := if String.eqb data "state" then Some (state (90 * day)) else if String.eqb data "null" then Some zeroState else None;
  marshalState s := if decide (s = state (90 * day)) then "state" else if decide (s = zeroState) then "null" else "other";
  unmarshalUser data := if String.eqb data "{" then None else Some data;
  validJSON data := negb (String.eqb data "{") }.

#[local] Instance example_json_spec : StoreJSONSpec.
Proof.
  assert (Hs : stable (state (90 * day))) by (unfold stable; cbn; by rewrite decide_True).
  assert (Hz : stable zeroState) by (unfold stable; cbn; by rewrite decide_False, decide_True).
  split; [done|]. intros data s s' _. cbn. destruct (String.eqb data "state"); [by intros [= <-]|].
  destruct (String.eqb data "null"); [by intros [= <-]|done].
Qed.

#[local] Instance listed_range : MapRange := λ A m, map_to_list m.
#[local] Instance listed_range_spec : MapRangeSpec.
Proof. by split. Qed.
#[local] Instance example_sort : SortFunc := insertion_SortFunc.
#[local] Instance example_sort_spec : SortFuncSpec := insertion_SortFuncSpec.
#[local] Instance plain_headers : TarFormat := λ _, 512.
#[local] Instance plain_headers_spec : TarFormatSpec.
Proof. by intros name. Qed.

Definition pair_of (cert : string) : gmap string string := {["cert.pem" := cert; "key.pem" := "key"]}.

Definition disk (cert : string) : CertDisk :=
  mkDisk {["san_0123" := pair_of cert]} {["acme_user.json" := "ec"; "acme_user_staging.json" := "rsa"; "notes" := "x"]}
    (Some "state") (Some "[]").

Definition backup : Tarball * CertsExportSummary :=
  Eval vm_compute in match ExportCertificateStore (disk "first") with Ok x => x | Err _ => (mkTarball [] (EndBroken 0), mkExport 0 0 []) end.

(** The backup holds the state, the pair, the keys and the domains; it warns
    about the certificate it does not have, the file it does not know and the
    key nothing can use. *)
Example backup_made :
  ExportCertificateStore (disk "first") = Ok backup ∧
  (tiName <$> tbItems backup.1) =
    ["acme.state"; "certs/acme_user.json"; "certs/acme_user_staging.json"; "certs/san_0123/cert.pem";
     "certs/san_0123/key.pem"; "dynamic-domains.state"] ∧
  backup.2 = mkExport 2 3 [ExUnexpectedFile "notes"; ExMissingOnDisk "san:4567";
                           ExReader (warnAccountKey (Some "acme_user_staging.json") true)].
Proof. by vm_compute. Qed.

(** Renewing replaces the files and then the state; stopped in between, the
    record has another expiry than its certificate, and from then on every
    export fails as a whole. *)
Example interrupted_renewal_stops_backups :
  cut_short (writeCertificateFiles "san:0123" "renewed" "key" ++ [OpState "renewed state"]) (disk "first") (disk "renewed") ∧
  ExportCertificateStore (disk "renewed") = Err (ExVerification (ArOtherExpiry "san:0123")).
Proof.
  split; [|by vm_compute].
  replace (disk "renewed") with (run_ops (writeCertificateFiles "san:0123" "renewed" "key") (disk "first")) by by vm_compute.
  by eapply cut_between.
Qed.

(** So does a complete pair in a directory under a name the store would not
    have given it. *)
Example stray_directory_stops_backups :
  ExportCertificateStore (with_dirs {["san_0123" := pair_of "first"; "old certs" := pair_of "first"]} (disk "first")) =
  Err (ExVerification (ArUnexpected "certs/old certs/cert.pem")).
Proof. by vm_compute. Qed.

(** An entry that leads out of the store is refused. *)
Example traversal_refused :
  let item name := mkItem 512 name TarReg "x" false in
  readCertStoreArchiveFrom (Some (mkTarball [item "certs/../../etc/cert.pem"] (EndMarker 1024 0 true)))
    = Err (ArNotAPath "certs/../../etc/cert.pem") ∧
  readCertStoreArchiveFrom (Some (mkTarball [item "certs/a b/cert.pem"] (EndMarker 1024 0 true)))
    = Err (ArUnexpected "certs/a b/cert.pem").
Proof. by vm_compute. Qed.

Lemma backup_restores_witness :
  disk_ok (disk "first") ∧
  ∃ ops s, RestoreCertificateStore false (Some backup.1) emptyDisk = (ops, Ok s) ∧
    loadState (run_ops ops emptyDisk) = loadState (disk "first").
Proof.
  assert (Hok : disk_ok (disk "first")).
  { split; intros name [x Hx]; unfold disk in Hx; cbn [dkDirs] in Hx; apply lookup_singleton_Some in Hx as [<- _]; reflexivity. }
  split; [exact Hok|].
  assert (Hex : ExportCertificateStore (disk "first") = Ok (backup.1, backup.2)) by (vm_compute; reflexivity).
  destruct (backup_restores (disk "first") backup.1 backup.2 Hok Hex) as (ops & s & Hr & Hload & _ & _).
  - intros s files Hst certs id Hcs [o Ho].
    assert (Hs : s = state (90 * day)) by (vm_compute in Hst; injection Hst as <- _; vm_compute; reflexivity).
    rewrite Hs in Hcs. injection Hcs as <-. apply lookup_insert_Some in Ho as [[<- _]|[_ Ho]]; [done|].
    by apply lookup_singleton_Some in Ho as [<- _].
  - exists ops, s. split; [exact Hr|exact Hload].
Defined.

Definition newest : Tarball := backup.1.

Lemma restore_never_dangles_witness :
  let '(ops, r) := RestoreCertificateStore true (Some newest) (disk "renewed") in
  let d' := run_ops (take 4 ops) (disk "renewed") in
  dkState d' = Some "state" ∧ ∀ dir, unsafe_dir dir = true ∨ sanitizeFilename dir ≠ dir → dkDirs d' !! dir = dkDirs (disk "renewed") !! dir.
Proof.
  destruct (RestoreCertificateStore true (Some newest) (disk "renewed")) as [ops r] eqn:Hr.
  assert (Hc : counted (Some newest)).
  { split; [repeat constructor; vm_compute; congruence|vm_compute; split; congruence]. }
  destruct (restore_never_dangles true (Some newest) (disk "renewed") ops r (run_ops (take 4 ops) (disk "renewed")) Hc Hr) as (_ & _ & H).
  { apply (cut_between ops _ (take 4 ops) (drop 4 ops)). by rewrite take_drop. }
  split; [|exact H]. vm_compute in Hr. injection Hr as <- _. vm_compute. reflexivity.
Defined.
End ArchiveExamples.
