(* ===== verification/CertImport.v ===== *)
(** * Certificates of other stores: [internal/server/traefik_import.go] and
    [internal/server/san_cert_import.go]

    The import of a Traefik file merges its certificates, resolver by resolver,
    into the state file of a proxy that is not running; the import of the cache
    of an old version has a manager adopt what is still of use.  The decoding of
    the Traefik file and of PEM blocks are parameters, and so is the digest that
    names a certificate. *)
From S2P Require Import Prelude GoStrings CertPlan SanCerts BasicAuth CertStore.

(** ** Traefik *)

(** [traefikCertificate], of whose domain only [Main] is read. *)
Record traefikCertificate := mkTraefik { tcMain : string; tcCertificate : string; tcKey : string }.

Inductive ImportWarning :=
| IwUnparsed (resolver main : string)
| IwTwoResolvers (domain resolver earlier : string)
| IwWildcard (domain : string).

Record TraefikImportSummary := mkImported {
  Imported : Z;
  SkippedExpired : Z;
  SkippedDuplicate : Z;
  FailedToParse : Z;
  ImportWarnings : list ImportWarning }.

(** [traefikImport], with its state as two maps, and with what was written. *)
Record traefikImport := mkTraefikImport {
  imCerts : gmap string (option ManagedCert);
  imMap : gmap string string;
  importedBy : gmap string string;
  imOps : list DiskOp;
  imSummary : TraefikImportSummary }.

Inductive ImportError := ImNoFile | ImBadFile | ImNoResolver | ImBadState | ImUntrusted (f : StateFault).

Section traefik.
Context `{!Crypto, !StoreJSON, !MapRange} (sha256_hex : string → string).

(** [json.Unmarshal] of the Traefik file. *)
Context (unmarshalResolvers : string → option (gmap string (list traefikCertificate))).

Definition parseTraefikEntry (entry : traefikCertificate) : option (Leaf * string * string) :=
  certPEM ← DecodeBase64 (tcCertificate entry);
  keyPEM ← DecodeBase64 (tcKey entry);
  der ← X509KeyPair certPEM keyPEM;
  leaf ← ParseCertificate der;
  match DNSNames leaf with [] => None | _ => Some (leaf, certPEM, keyPEM) end.

(** Whether a domain goes to the entry, and the warning about it. *)
Definition claimDomain (resolver : string) (notAfter : Z) (imp : traefikImport) (domain : string)
  : bool * list ImportWarning :=
  match importedBy imp !! domain with
  | Some earlier => (true, [IwTwoResolvers domain resolver earlier])
  | None =>
      (match imMap imp !! domain with
       | None => true
       | Some id => match imCerts imp !! id with
                    | Some (Some existing) => NotAfter existing <? notAfter
                    | _ => true
                    end
       end, [])
  end.

Definition claimDomains (resolver : string) (domains : list string) (notAfter : Z) (imp : traefikImport) : list string :=
  List.filter (λ d, (claimDomain resolver notAfter imp d).1) domains.

Definition claimWarnings (resolver : string) (domains : list string) (notAfter : Z) (imp : traefikImport) : list ImportWarning :=
  concat ((λ d, (claimDomain resolver notAfter imp d).2) <$> domains).

Definition count (s : TraefikImportSummary) (imported expired duplicate failed : Z) (ws : list ImportWarning)
  : TraefikImportSummary :=
  mkImported (Imported s + imported) (SkippedExpired s + expired) (SkippedDuplicate s + duplicate) (FailedToParse s + failed)
    (ImportWarnings s ++ ws).

Definition with_summary (s : TraefikImportSummary) (imp : traefikImport) : traefikImport :=
  mkTraefikImport (imCerts imp) (imMap imp) (importedBy imp) (imOps imp) s.

Definition importEntry (now : Z) (imp : traefikImport) (p : string * traefikCertificate) : traefikImport :=
  let '(resolver, entry) := p in
  let s := imSummary imp in
  match parseTraefikEntry entry with
  | None => with_summary (count s 0 0 0 1 [IwUnparsed resolver (tcMain entry)]) imp
  | Some (leaf, certPEM, keyPEM) =>
      if (lfNotAfter leaf <? now) || (now <? lfNotBefore leaf) then with_summary (count s 0 1 0 0 []) imp
      else
        let domains := sortedCopy (DNSNames leaf) in
        let winners := claimDomains resolver domains (lfNotAfter leaf) imp in
        let s := count s 0 0 0 0 (claimWarnings resolver domains (lfNotAfter leaf) imp) in
        match winners with
        | [] => with_summary (count s 0 0 1 0 []) imp
        | _ =>
            let certID := sanCertID sha256_hex domains in
            mkTraefikImport
              (<[certID := Some (mkCert certID domains (lfNotAfter leaf) None "")]> (imCerts imp))
              (foldl (λ m d, <[d := certID]> m) (imMap imp) winners)
              (foldl (λ m d, <[d := resolver]> m) (importedBy imp) winners)
              (imOps imp ++ writeCertificateFiles certID certPEM keyPEM)
              (count s 1 0 0 0 (IwWildcard <$> List.filter is_wildcard winners))
        end
  end.

Definition loadStateForImport (d : CertDisk)
  : result ImportError (gmap string (option ManagedCert) * gmap string string) :=
  match dkState d with
  | None => Ok (∅, ∅)
  | Some data =>
      match unmarshalState data zeroState with
      | None => Err ImBadState
      | Some s => match validateManagerState s with
                  | Some f => Err (ImUntrusted f)
                  | None => Ok (default ∅ (stCertificates s), default ∅ (stDomainMap s))
                  end
      end
  end.

(** The entries in the order they are visited. *)
Definition resolverEntries (resolver : string) (resolvers : gmap string (list traefikCertificate))
  : result ImportError (list (string * traefikCertificate)) :=
  let entries name := (name,.) <$> default [] (resolvers !! name) in
  if String.eqb resolver "" then Ok (concat (entries <$> keysInOrder resolvers))
  else match resolvers !! resolver with
       | None => Err ImNoResolver
       | Some _ => Ok (entries resolver)
       end.

Definition startImport (certs : gmap string (option ManagedCert)) (dm : gmap string string) : traefikImport :=
  mkTraefikImport certs dm ∅ [] (mkImported 0 0 0 0 []).

(** [ImportTraefikCertificates]: the writes, the state file last, and the
    summary. *)
Definition ImportTraefikCertificates (now : Z) (file : option string) (resolver : string) (d : CertDisk)
  : result ImportError (list DiskOp * managerState * TraefikImportSummary) :=
  match file with
  | None => Err ImNoFile
  | Some data =>
      match unmarshalResolvers data with
      | None => Err ImBadFile
      | Some resolvers =>
          entries ← resolverEntries resolver resolvers;
          '(certs, dm) ← loadStateForImport d;
          let imp := foldl (importEntry now) (startImport certs dm) entries in
          let s := mkState (Some (imCerts imp)) (Some (imMap imp)) now in
          Ok (imOps imp ++ [OpState (marshalState s)], s, imSummary imp)
      end
  end.
End traefik.

(** ** The cache of an old version *)

Definition isLegacyCertificateEntry (name : string) : bool := negb (HasPrefix name ".") && negb (Contains name "+").

Section legacy.
Context `{!Crypto, !StoreJSON} (sha256_hex : string → string).

(** [pem.Decode] until nothing is left: the type of each block and its
    encoding. *)
Context (pemBlocks : string → list (string * string)).

Definition splitLegacyCacheEntry (blob : string) : option (string * string) :=
  let '(keyPEM, certPEM) :=
    foldl (λ acc b, if HasSuffix b.1 "PRIVATE KEY" then (acc.1 +:+ b.2, acc.2)
                    else if String.eqb b.1 "CERTIFICATE" then (acc.1, acc.2 +:+ b.2) else acc)
      ("", "") (pemBlocks blob) in
  if String.eqb keyPEM "" || String.eqb certPEM "" then None else Some (keyPEM, certPEM).

(** What came of an entry of the cache. *)
Inductive LegacyOutcome := LegacyAdopted | LegacySkipped | LegacyFailed.

Record LegacyImport := mkLegacy { lgManager : SANCertManager; lgOps : list DiskOp; lgOutcomes : list (string * LegacyOutcome) }.

Definition legacyOutcome (name : string) (o : LegacyOutcome) (l : LegacyImport) : LegacyImport :=
  mkLegacy (lgManager l) (lgOps l) (lgOutcomes l ++ [(name, o)]).

Definition legacyLeaf (blob : string) : option (Leaf * string * string) :=
  '(keyPEM, certPEM) ← splitLegacyCacheEntry blob;
  der ← X509KeyPair certPEM keyPEM;
  leaf ← ParseCertificate der;
  Some (leaf, certPEM, keyPEM).

(** [importLegacyCertificate], and the round of the loop around it. *)
Definition importLegacyCertificate (now : Z) (l : LegacyImport) (p : string * string) : LegacyImport :=
  let '(name, blob) := p in
  if negb (isLegacyCertificateEntry name) then legacyOutcome name LegacySkipped l
  else
    match legacyLeaf blob with
    | None => legacyOutcome name LegacyFailed l
    | Some (leaf, certPEM, keyPEM) =>
        if time_sub (lfNotAfter leaf) now <=? 24 * hour then legacyOutcome name LegacySkipped l
        else
          match DNSNames leaf with
          | [] => legacyOutcome name LegacySkipped l
          | _ =>
              let domains := sortedCopy (DNSNames leaf) in
              let m := (adoptCertificate sha256_hex (Some (lfNotBefore leaf, lfNotAfter leaf)) domains (lgManager l)).1 in
              legacyOutcome name LegacyAdopted
                (mkLegacy m (lgOps l ++ writeCertificateFiles (sanCertID sha256_hex domains) certPEM keyPEM ++ persistState now m)
                   (lgOutcomes l))
          end
    end.

Definition legacy_count (o : LegacyOutcome) (l : LegacyImport) : nat :=
  length (List.filter (λ p, match p.2, o with
                            | LegacyAdopted, LegacyAdopted | LegacySkipped, LegacySkipped | LegacyFailed, LegacyFailed => true
                            | _, _ => false
                            end) (lgOutcomes l)).

(** [importLegacyHTTP01Cache]: the cache goes once everything usable was
    adopted; a file that cannot be read is not in [files]. *)
Definition importLegacyHTTP01Cache (now : Z) (d : CertDisk) (m : SANCertManager) : LegacyImport :=
  match dkDirs d !! legacyHTTP01CacheDir with
  | None => mkLegacy m [] []
  | Some files =>
      let l := foldl (importLegacyCertificate now) (mkLegacy m [] [])
                 ((λ name, (name, default "" (files !! name))) <$> keysInOrder files) in
      if (legacy_count LegacyAdopted l =? 0)%nat && (legacy_count LegacyFailed l =? 0)%nat then l
      else if (0 <? legacy_count LegacyFailed l)%nat then l
      else mkLegacy (lgManager l) (lgOps l ++ [OpRemove legacyHTTP01CacheDir]) (lgOutcomes l)
  end.
End legacy.

(** ** Lemmas *)

(** *** Names of certificates *)

(** [hex.EncodeToString] of a SHA-256. *)
Definition hex_digest (sha256_hex : string → string) : Prop :=
  ∀ x, all_bytes is_lower_hex (sha256_hex x) = true.

Lemma all_bytes_take f n s : all_bytes f s = true → all_bytes f (str_take n s) = true.
Proof.
  revert s. induction n as [|n IH]; intros [|c s]; cbn; try done. rewrite !andb_true_iff. intros [? ?]. auto.
Qed.

Lemma all_bytes_impl (f g : ascii → bool) s : (∀ c, f c = true → g c = true) → all_bytes f s = true → all_bytes g s = true.
Proof. intros Hfg. induction s as [|c s IH]; [done|]. cbn. rewrite !andb_true_iff. intros [? ?]. auto. Qed.

Lemma hex_safe c : is_lower_hex c = true → safe_name_byte c = true.
Proof.
  unfold is_lower_hex, safe_name_byte. cbv zeta. intros Hc. apply orb_true_iff in Hc.
  assert (Hor : ((97 <=? byte_of c) && (byte_of c <=? 122)) || ((65 <=? byte_of c) && (byte_of c <=? 90)) ||
    ((48 <=? byte_of c) && (byte_of c <=? 57)) = true).
  { destruct Hc; breflect; rewrite !orb_true_iff, !andb_true_iff, !Z.leb_le; lia. }
  by rewrite Hor.
Qed.

Lemma sanitize_sanCertID sha ds :
  hex_digest sha → ∃ h, sanCertID sha ds = "san:" +:+ h ∧ sanitizeFilename (sanCertID sha ds) = "san_" +:+ h.
Proof.
  intros Hhex. unfold sanCertID. eexists. split; [done|].
  rewrite sanitizeFilename_app, (sanitizeFilename_id (str_take _ _)); [done|].
  apply all_bytes_take. eapply all_bytes_impl; [apply hex_safe|apply Hhex].
Qed.

Lemma sanCertID_dir sha ds : hex_digest sha → unsafe_dir (sanitizeFilename (sanCertID sha ds)) = false.
Proof. intros Hhex. by destruct (sanitize_sanCertID sha ds Hhex) as (h & _ & ->). Qed.

Lemma sanCertID_apart sha ds ds' :
  hex_digest sha → sanitizeFilename (sanCertID sha ds) = sanitizeFilename (sanCertID sha ds') → sanCertID sha ds = sanCertID sha ds'.
Proof.
  intros Hhex. destruct (sanitize_sanCertID sha ds Hhex) as (h & -> & ->).
  destruct (sanitize_sanCertID sha ds' Hhex) as (h' & -> & ->).
  by intros ->%str_app_inv_l.
Qed.

(** *** An import, entry by entry *)

Section importing.
Context `{!Crypto, !StoreJSON, !MapRange, !MapRangeSpec} (sha256_hex : string → string).
Context (unmarshalResolvers : string → option (gmap string (list traefikCertificate))).

(** What an entry is, when it parses and is within its validity. *)
Definition entryLeaf (now : Z) (p : string * traefikCertificate) : option Leaf :=
  x ← parseTraefikEntry p.2;
  if (lfNotAfter x.1.1 <? now) || (now <? lfNotBefore x.1.1) then None else Some x.1.1.

Lemma elem_of_claimDomains resolver ds na imp d :
  d ∈ claimDomains resolver ds na imp ↔
  d ∈ ds ∧ (is_Some (importedBy imp !! d) ∨
            ∀ id c, imMap imp !! d = Some id → imCerts imp !! id = Some (Some c) → NotAfter c < na).
Proof.
  unfold claimDomains. rewrite elem_of_filter_bool. unfold claimDomain. apply and_iff_compat_l.
  destruct (importedBy imp !! d) as [e|]; [split; [intros _; left; by eexists|done]|]. cbn.
  destruct (imMap imp !! d) as [id|] eqn:Hm; [|split; [intros _; right; congruence|done]].
  destruct (imCerts imp !! id) as [[c|]|] eqn:Hc.
  - rewrite Z.ltb_lt. split; [intros ?; right; intros id' c' [= <-] Hc'; congruence|].
    intros [[? ?]|Hlt]; [done|]. by apply (Hlt id c).
  - split; [intros _; right; intros id' c' [= <-] Hc'; congruence|done].
  - split; [intros _; right; intros id' c' [= <-] Hc'; congruence|done].
Qed.

(** What importing an entry does to the maps. *)
Definition entryWinners (now : Z) (imp : traefikImport) (p : string * traefikCertificate) : list string :=
  match entryLeaf now p with
  | None => []
  | Some leaf => claimDomains p.1 (sortedCopy (DNSNames leaf)) (lfNotAfter leaf) imp
  end.

Definition leafID (leaf : Leaf) : string := sanCertID sha256_hex (sortedCopy (DNSNames leaf)).

Record entry_imported (now : Z) (imp : traefikImport) (p : string * traefikCertificate) (imp' : traefikImport) : Prop := {
  ei_certs id : imCerts imp' !! id =
    match entryLeaf now p with
    | Some leaf => if bool_decide (entryWinners now imp p ≠ [] ∧ id = leafID leaf)
                   then Some (Some (mkCert id (sortedCopy (DNSNames leaf)) (lfNotAfter leaf) None "")) else imCerts imp !! id
    | None => imCerts imp !! id
    end;
  ei_map d : imMap imp' !! d =
    match entryLeaf now p with
    | Some leaf => if bool_decide (d ∈ entryWinners now imp p) then Some (leafID leaf) else imMap imp !! d
    | None => imMap imp !! d
    end;
  ei_by d : importedBy imp' !! d =
    if bool_decide (d ∈ entryWinners now imp p) then Some p.1 else importedBy imp !! d }.

Lemma importEntry_spec now imp p : entry_imported now imp p (importEntry sha256_hex now imp p).
Proof.
  destruct p as [resolver entry]. unfold importEntry, entryWinners, entryLeaf.
  split; unfold entryWinners, entryLeaf; cbn [fst snd];
    (destruct (parseTraefikEntry entry) as [[[leaf cert] key]|]; cbn [mbind option_bind fst snd]; [|done]); destruct (_ || _); try done;
    destruct (claimDomains _ _ _ _) as [|x w]; try done;
    cbn [with_summary imCerts imMap importedBy].
  - intros id. destruct (decide (id = leafID leaf)) as [->|Hne].
    + rewrite bool_decide_true by done. apply lookup_insert_eq.
    + rewrite bool_decide_false by by intros []. apply lookup_insert_ne. intros Heq. by apply Hne.
  - intros d. apply foldl_insert_lookup.
  - intros d. apply foldl_insert_lookup.
Qed.

(** The store during an import: [known] are the sets of names whose
    identifiers do not collide, [leaves] what was visited. *)
Record import_inv (known : list string → Prop) (dm0 : gmap string string) (leaves : list Leaf) (imp : traefikImport) : Prop := {
  ii_record id o : imCerts imp !! id = Some o →
    ∃ c, o = Some c ∧ Identifier c = id ∧ id = sanCertID sha256_hex (Domains c) ∧ known (Domains c);
  ii_covered d id : imMap imp !! d = Some id →
    ∃ c, imCerts imp !! id = Some (Some c) ∧ identifiersCover (Domains c) d = true;
  ii_kept d id : dm0 !! d = Some id →
    ∃ id', imMap imp !! d = Some id' ∧ (id' = id ∨ ∃ leaf, leaf ∈ leaves ∧ d ∈ DNSNames leaf ∧ id' = leafID leaf);
  ii_named leaf d : leaf ∈ leaves → d ∈ DNSNames leaf → is_Some (imMap imp !! d) }.

Lemma sortedCopy_elem d ds : d ∈ sortedCopy ds ↔ d ∈ ds.
Proof. unfold sortedCopy. by rewrite sort_strings_perm. Qed.

Lemma elem_of_entryWinners now imp p leaf d :
  entryLeaf now p = Some leaf →
  d ∈ entryWinners now imp p ↔
  d ∈ DNSNames leaf ∧ (is_Some (importedBy imp !! d) ∨
    ∀ id c, imMap imp !! d = Some id → imCerts imp !! id = Some (Some c) → NotAfter c < lfNotAfter leaf).
Proof. intros Hl. unfold entryWinners. rewrite Hl, elem_of_claimDomains. by rewrite sortedCopy_elem. Qed.

(** The identifier of what an entry imports. *)
Lemma imported_record now imp p imp' leaf d :
  entry_imported now imp p imp' → entryLeaf now p = Some leaf → d ∈ entryWinners now imp p →
  imCerts imp' !! leafID leaf = Some (Some (mkCert (leafID leaf) (sortedCopy (DNSNames leaf)) (lfNotAfter leaf) None "")).
Proof.
  intros He Hl Hd. rewrite (ei_certs _ _ _ _ He), Hl, bool_decide_true; [done|]. split; [|done].
  intros Hn. rewrite Hn in Hd. by apply elem_of_nil in Hd.
Qed.

Lemma import_inv_step (known : list string → Prop) dm0 leaves now imp p imp' :
  (∀ ds ds', known ds → known ds' → sanCertID sha256_hex ds = sanCertID sha256_hex ds' → ds = ds') →
  (∀ leaf, entryLeaf now p = Some leaf → known (sortedCopy (DNSNames leaf))) →
  entry_imported now imp p imp' → import_inv known dm0 leaves imp →
  import_inv known dm0 (leaves ++ option_list (entryLeaf now p)) imp'.
Proof.
  intros Hinj Hkn He [Hr Hc Hk Hn]. destruct (entryLeaf now p) as [leaf|] eqn:Hl; cbn [option_list].
  2:{ assert (Hsame : (∀ id, imCerts imp' !! id = imCerts imp !! id) ∧ ∀ d, imMap imp' !! d = imMap imp !! d).
      { split; intros x; [rewrite (ei_certs _ _ _ _ He)|rewrite (ei_map _ _ _ _ He)]; by rewrite Hl. }
      destruct Hsame as [Hsc Hsm]. rewrite app_nil_r. split.
    - intros id o. rewrite Hsc. apply Hr.
    - intros d id. rewrite Hsm. intros Hd. destruct (Hc d id Hd) as (c & ? & ?). exists c. by rewrite Hsc.
    - intros d id. rewrite Hsm. apply Hk.
    - intros lf d. rewrite Hsm. apply Hn. }
  assert (Hmap := ei_map _ _ _ _ He). assert (Hcert := ei_certs _ _ _ _ He). rewrite Hl in Hmap, Hcert.
  split.
  - intros id o. rewrite Hcert. case_bool_decide as Hw; [|apply Hr]. intros [= <-]. destruct Hw as [_ ->].
    eexists. split; [done|]. split; [done|]. split; [done|]. by apply Hkn.
  - intros d id. rewrite Hmap. case_bool_decide as Hd.
    + intros [= <-]. eexists. split; [by eapply imported_record|]. cbn. apply identifiersCover_spec. exists d.
      split; [|by left].
      apply sortedCopy_elem. by apply (elem_of_entryWinners _ _ _ _ _ Hl) in Hd as [? _].
    + intros Hid. destruct (Hc d id Hid) as (c & Hci & Hcov). rewrite Hcert. case_bool_decide as Hw; [|by exists c].
      destruct Hw as [_ ->]. eexists. split; [done|]. cbn. destruct (Hr _ _ Hci) as (c' & [= <-] & _ & Hsha & Hknown).
      by rewrite (Hinj (sortedCopy (DNSNames leaf)) (Domains c)) by auto.
  - intros d id Hd. destruct (Hk d id Hd) as (id' & Hid' & Hor). rewrite Hmap. case_bool_decide as Hw.
    + exists (leafID leaf). split; [done|]. right. exists leaf. split; [apply elem_of_app; right; left|].
      split; [by apply (elem_of_entryWinners _ _ _ _ _ Hl) in Hw as [? _]|done].
    + exists id'. split; [done|]. destruct Hor as [?|(lf & ? & ? & ?)]; [by left|right]. exists lf.
      split; [apply elem_of_app; by left|done].
  - intros lf d Hlf Hd. rewrite Hmap. case_bool_decide as Hw; [by eexists|].
    apply elem_of_app in Hlf as [?|Hlf]; [by apply (Hn lf)|]. apply list_elem_of_singleton in Hlf as ->.
    destruct (imMap imp !! d) as [id|] eqn:Hid; [by eexists|]. exfalso. apply Hw, (elem_of_entryWinners _ _ _ _ _ Hl).
    split; [done|]. right. congruence.
Qed.

(** What an import makes of a name, as long as no entry has the identifier of a
    record the store came with: the name is taken as soon as an entry lists it
    that outlives the certificate it had, and goes to the last that lists it. *)
Definition lists (d : string) (leaf : Leaf) : bool := str_contains (DNSNames leaf) d.

Definition lastListing (d : string) (leaves : list Leaf) : option Leaf := last (List.filter (lists d) leaves).

Definition outlives (before : option ManagedCert) (leaf : Leaf) : bool :=
  match before with Some c => NotAfter c <? lfNotAfter leaf | None => true end.

Definition certBefore (certs0 : gmap string (option ManagedCert)) (dm0 : gmap string string) (d : string) : option ManagedCert :=
  id ← dm0 !! d; o ← certs0 !! id; o.

Definition wonOver (certs0 : gmap string (option ManagedCert)) (dm0 : gmap string string) (leaves : list Leaf) (d : string) : bool :=
  existsb (λ leaf, lists d leaf && outlives (certBefore certs0 dm0 d) leaf) leaves.

Definition leafRecord (leaf : Leaf) : ManagedCert :=
  mkCert (leafID leaf) (sortedCopy (DNSNames leaf)) (lfNotAfter leaf) None "".

Record import_last (certs0 : gmap string (option ManagedCert)) (dm0 : gmap string string) (leaves : list Leaf) (imp : traefikImport)
  : Prop := {
  il_same id : is_Some (certs0 !! id) → imCerts imp !! id = certs0 !! id;
  il_kept d : wonOver certs0 dm0 leaves d = false → importedBy imp !! d = None ∧ imMap imp !! d = dm0 !! d;
  il_taken d : wonOver certs0 dm0 leaves d = true → is_Some (importedBy imp !! d) ∧
    ∃ leaf, lastListing d leaves = Some leaf ∧ imMap imp !! d = Some (leafID leaf) ∧ imCerts imp !! leafID leaf = Some (Some (leafRecord leaf)) }.

Lemma lastListing_snoc d leaves leaf :
  lastListing d (leaves ++ [leaf]) = if lists d leaf then Some leaf else lastListing d leaves.
Proof. unfold lastListing. rewrite List.filter_app. cbn. destruct (lists d leaf); [by rewrite last_snoc|by rewrite app_nil_r]. Qed.

Lemma taken_snoc certs0 dm0 leaves leaf d :
  wonOver certs0 dm0 (leaves ++ [leaf]) d = wonOver certs0 dm0 leaves d || lists d leaf && outlives (certBefore certs0 dm0 d) leaf.
Proof. unfold wonOver. rewrite existsb_app. cbn. by rewrite orb_false_r. Qed.

Lemma winners_taken certs0 dm0 leaves now imp p leaf d :
  (∀ d id, dm0 !! d = Some id → ∃ c, certs0 !! id = Some (Some c)) →
  import_last certs0 dm0 leaves imp → entryLeaf now p = Some leaf →
  d ∈ entryWinners now imp p ↔ lists d leaf = true ∧ wonOver certs0 dm0 (leaves ++ [leaf]) d = true.
Proof.
  intros Htr [Hs Hk Ht] Hl. rewrite (elem_of_entryWinners _ _ _ _ _ Hl), taken_snoc. unfold lists at 1. rewrite str_contains_spec.
  assert (Hlists : d ∈ DNSNames leaf → lists d leaf = true) by (unfold lists; by rewrite str_contains_spec).
  destruct (wonOver certs0 dm0 leaves d) eqn:Htk; [destruct (Ht d Htk) as [? _]; naive_solver|]. destruct (Hk d Htk) as [-> ->].
  unfold certBefore. destruct (dm0 !! d) as [id|] eqn:Hd; cbn.
  - destruct (Htr d id Hd) as [c Hc]. rewrite Hc. cbn. split.
    + intros [Hin [[? ?]|Hlt]]; [done|]. split; [done|]. rewrite Hlists by done. apply Z.ltb_lt, (Hlt id c eq_refl). rewrite Hs by (by eexists). done.
    + intros [Hin Hlt]. split; [done|]. right. intros id' c' [= <-]. rewrite Hs by (by eexists). rewrite Hc. intros [= <-].
      apply andb_true_iff in Hlt as [_ Hlt]. by apply Z.ltb_lt.
  - split; [intros [Hin _]; split; [done|by rewrite Hlists]|]. intros [Hin _]. split; [done|]. by right.
Qed.

Lemma import_last_step certs0 dm0 leaves now imp p imp' :
  (∀ d id, dm0 !! d = Some id → ∃ c, certs0 !! id = Some (Some c)) →
  (∀ leaf, entryLeaf now p = Some leaf → certs0 !! leafID leaf = None) →
  (∀ leaf leaf', entryLeaf now p = Some leaf → leaf' ∈ leaves → leafID leaf = leafID leaf' →
     sortedCopy (DNSNames leaf) = sortedCopy (DNSNames leaf')) →
  entry_imported now imp p imp' → import_last certs0 dm0 leaves imp →
  import_last certs0 dm0 (leaves ++ option_list (entryLeaf now p)) imp'.
Proof.
  intros Htr Hfresh Hinj He Hil. assert (Hby := ei_by _ _ _ _ He). assert (Hmap := ei_map _ _ _ _ He).
  assert (Hcert := ei_certs _ _ _ _ He). assert (Hrec := imported_record now imp p imp').
  destruct (entryLeaf now p) as [leaf|] eqn:Hl; cbn [option_list].
  2:{ rewrite app_nil_r. assert (Hno : entryWinners now imp p = []) by (unfold entryWinners; by rewrite Hl). rewrite Hno in Hby.
      destruct Hil as [Hs Hk Ht]. split.
      - intros id. rewrite Hcert. apply Hs.
      - intros d. rewrite Hby, Hmap. apply Hk.
      - intros d Hd. rewrite Hby, Hmap. destruct (Ht d Hd) as (? & lf & ? & ? & ?). split; [done|]. exists lf. by rewrite Hcert. }
  change (option_list (Some leaf)) with [leaf].
  assert (Hwin := λ d, winners_taken certs0 dm0 leaves now imp p leaf d Htr Hil Hl). destruct Hil as [Hs Hk Ht]. split.
  - intros id Hid. rewrite Hcert. case_bool_decide as Hw; [|by apply Hs]. destruct Hw as [_ ->].
    rewrite Hfresh in Hid by done. by destruct Hid.
  - intros d Hd. rewrite Hby, Hmap. rewrite !bool_decide_false by (rewrite Hwin, Hd; by intros []).
    apply Hk. rewrite taken_snoc in Hd. by apply orb_false_iff in Hd as [? _].
  - intros d Hd. rewrite Hby, Hmap, lastListing_snoc. destruct (lists d leaf) eqn:Hlist.
    + rewrite !bool_decide_true by by apply Hwin. split; [by eexists|]. exists leaf. split; [done|]. split; [done|].
      apply (Hrec leaf d He eq_refl). by apply Hwin.
    + rewrite !bool_decide_false by (rewrite Hwin, Hlist; by intros []). rewrite taken_snoc, Hlist, orb_false_r in Hd.
      destruct (Ht d Hd) as (? & lf & Hlast & Hm & Hc). split; [done|]. exists lf. split; [done|]. split; [done|].
      rewrite Hcert. case_bool_decide as Hw; [|done]. destruct Hw as [_ Hid]. exfalso.
      assert (Hlf : lf ∈ leaves ∧ lists d lf = true) by (apply elem_of_filter_bool, last_Some_elem_of; exact Hlast).
      destruct Hlf as [Hlf Hd']. pose proof (Hinj leaf lf eq_refl Hlf (eq_sym Hid)) as Heq.
      unfold lists in Hlist, Hd'. rewrite str_contains_spec in Hd'. apply str_contains_false in Hlist. apply Hlist.
      by rewrite <-sortedCopy_elem, Heq, sortedCopy_elem.
Qed.

Definition importedLeaves (now : Z) (entries : list (string * traefikCertificate)) : list Leaf := omap (entryLeaf now) entries.

Lemma import_fold (I : list Leaf → traefikImport → Prop) now entries leaves imp :
  (∀ leaves imp p imp', p ∈ entries → entry_imported now imp p imp' → I leaves imp → I (leaves ++ option_list (entryLeaf now p)) imp') →
  I leaves imp → I (leaves ++ importedLeaves now entries) (foldl (importEntry sha256_hex now) imp entries).
Proof.
  revert leaves imp. induction entries as [|p entries IH]; intros leaves imp Hstep Hi; [by rewrite app_nil_r|].
  assert (Happ : leaves ++ importedLeaves now (p :: entries) = (leaves ++ option_list (entryLeaf now p)) ++ importedLeaves now entries).
  { rewrite <-app_assoc. f_equal. unfold importedLeaves. cbn. by destruct (entryLeaf now p). }
  rewrite Happ. cbn [foldl]. apply IH; [intros; eapply Hstep; [by right|done|done]|].
  eapply Hstep; [left|apply importEntry_spec|done].
Qed.

(** The same, with what was visited being part of what there is. *)
Lemma import_fold_seen (I : list Leaf → traefikImport → Prop) now entries leaves imp :
  (∀ l imp p imp', p ∈ entries → (∀ leaf, leaf ∈ l → leaf ∈ leaves ++ importedLeaves now entries) →
     entry_imported now imp p imp' → I l imp → I (l ++ option_list (entryLeaf now p)) imp') →
  I leaves imp → I (leaves ++ importedLeaves now entries) (foldl (importEntry sha256_hex now) imp entries).
Proof.
  intros Hstep Hi.
  enough (Hall : ∀ rest l i, (∀ p, p ∈ rest → p ∈ entries) → leaves ++ importedLeaves now entries = l ++ importedLeaves now rest →
    I l i → I (l ++ importedLeaves now rest) (foldl (importEntry sha256_hex now) i rest)) by (by apply Hall).
  induction rest as [|p rest IH]; intros l i Hsub Heq Hl; [by rewrite app_nil_r|].
  assert (Happ : l ++ importedLeaves now (p :: rest) = (l ++ option_list (entryLeaf now p)) ++ importedLeaves now rest).
  { rewrite <-app_assoc. f_equal. unfold importedLeaves. cbn. by destruct (entryLeaf now p). }
  rewrite Happ. cbn [foldl]. apply IH; [intros; apply Hsub; by right|by rewrite Heq, Happ|].
  apply (Hstep l i p); [apply Hsub; left| |apply importEntry_spec|done].
  intros leaf Hin. rewrite Heq. apply elem_of_app. by left.
Qed.

Lemma loadStateForImport_trusted d certs dm :
  loadStateForImport d = Ok (certs, dm) → ∃ s, trusted s certs dm.
Proof.
  unfold loadStateForImport. destruct (dkState d) as [data|].
  - destruct (unmarshalState data zeroState) as [s|]; [|done]. destruct (validateManagerState s) eqn:Hv; [done|].
    intros [= <- <-]. apply validateManagerState_spec in Hv as (certs & dm & Htr). exists s.
    by rewrite (tr_certs _ _ _ Htr), (tr_map _ _ _ Htr).
  - intros [= <- <-]. exists (mkState (Some ∅) (Some ∅) 0). split; [done|done|..].
    + intros id o. by rewrite lookup_empty.
    + intros id id' [? Hi]. by rewrite lookup_empty in Hi.
    + intros d' id. by rewrite lookup_empty.
Qed.

(** The sets of names of the certificates of a store and of the entries. *)
Definition known_names (certs0 : gmap string (option ManagedCert)) (leaves : list Leaf) (ds : list string) : Prop :=
  (∃ id c, certs0 !! id = Some (Some c) ∧ ds = Domains c) ∨ (∃ leaf, leaf ∈ leaves ∧ ds = sortedCopy (DNSNames leaf)).

Lemma import_inv_trusted known dm0 leaves imp now :
  hex_digest sha256_hex → import_inv known dm0 leaves imp →
  trusted (mkState (Some (imCerts imp)) (Some (imMap imp)) now) (imCerts imp) (imMap imp).
Proof.
  intros Hhex [Hr Hc _ _]. split; [done|done|..|done].
  - intros id o Ho. destruct (Hr id o Ho) as (c & -> & ? & -> & _). exists c. split; [done|]. split; [done|].
    by apply sanCertID_dir.
  - intros id id' [o Ho] [o' Ho']. destruct (Hr id o Ho) as (c & _ & _ & -> & _).
    destruct (Hr id' o' Ho') as (c' & _ & _ & -> & _).
    by apply sanCertID_apart.
Qed.

(** C18: importing a Traefik file keeps the store trustworthy, whatever the file
    holds: the state it writes is one every reader accepts, no name loses its
    certificate, and every name of a certificate that is within its validity has
    one.  As long as no entry has the names of a certificate of the store, what
    becomes of each name is known: a name no imported certificate of which
    outlives the one it had keeps that, unchanged; any other has the one of the
    last entry that lists it, in the order of the resolvers, which may be a
    shorter one. *)
Theorem import_keeps_store now data resolvers resolver entries d certs0 dm0 ops s sum :
  unmarshalResolvers data = Some resolvers → resolverEntries resolver resolvers = Ok entries →
  loadStateForImport d = Ok (certs0, dm0) →
  ImportTraefikCertificates sha256_hex unmarshalResolvers now (Some data) resolver d = Ok (ops, s, sum) →
  hex_digest sha256_hex →
  (∀ id c, certs0 !! id = Some (Some c) → id = sanCertID sha256_hex (Domains c)) →
  (let known := known_names certs0 (importedLeaves now entries) in
   ∀ ds ds', known ds → known ds' → sanCertID sha256_hex ds = sanCertID sha256_hex ds' → ds = ds') →
  ∃ certs dm, trusted s certs dm ∧
    (∀ d, is_Some (dm0 !! d) → is_Some (dm !! d)) ∧
    (∀ leaf d, leaf ∈ importedLeaves now entries → d ∈ DNSNames leaf → is_Some (dm !! d)) ∧
    ((∀ leaf, leaf ∈ importedLeaves now entries → certs0 !! leafID leaf = None) →
     ∀ d,
       let leaves := List.filter (lists d) (importedLeaves now entries) in
       if existsb (outlives (certBefore certs0 dm0 d)) leaves
       then ∃ leaf, last leaves = Some leaf ∧ dm !! d = Some (leafID leaf) ∧ certs !! leafID leaf = Some (Some (leafRecord leaf))
       else dm !! d = dm0 !! d ∧ ∀ id, dm0 !! d = Some id → certs !! id = certs0 !! id).
Proof.
  intros Hrs Hen Hload Himp Hhex Hids Hinj. unfold ImportTraefikCertificates in Himp. rewrite Hrs, Hen in Himp.
  cbn [mbind result_bind] in Himp.
  rewrite Hload in Himp. injection Himp as _ <- _. destruct (loadStateForImport_trusted _ _ _ Hload) as (s0 & Htr).
  set (imp := foldl _ _ entries).
  assert (Hleaf : ∀ p leaf, p ∈ entries → entryLeaf now p = Some leaf → leaf ∈ importedLeaves now entries).
  { intros p leaf Hp Hl. apply list_elem_of_omap. eauto. }
  assert (Hinv : import_inv (known_names certs0 (importedLeaves now entries)) dm0 (importedLeaves now entries) imp).
  { apply (import_fold (λ l i, import_inv (known_names certs0 (importedLeaves now entries)) dm0 l i) now entries []).
    - intros leaves i p i' Hp He Hi. eapply import_inv_step; [exact Hinj| |done|done].
      intros leaf Hl. right. eauto.
    - split; cbn.
      + intros id o Ho. destruct (tr_record _ _ _ Htr id o Ho) as (c & -> & ? & _). exists c. split; [done|]. split; [done|].
        split; [by apply Hids|]. left. eauto.
      + apply (tr_covered _ _ _ Htr).
      + intros d' id Hd. exists id. auto.
      + intros leaf d' Hin. by apply elem_of_nil in Hin. }
  exists (imCerts imp), (imMap imp). split; [by eapply import_inv_trusted|]. split; [|split; [apply Hinv|]].
  - intros d' [id Hd]. destruct (ii_kept _ _ _ _ Hinv d' id Hd) as (id' & -> & _). by eexists.
  - intros Hfresh d'.
    assert (Hcov : ∀ d id, dm0 !! d = Some id → ∃ c, certs0 !! id = Some (Some c)).
    { intros x id Hx. destruct (tr_covered _ _ _ Htr x id Hx) as (c & ? & _). by exists c. }
    assert (Hil : import_last certs0 dm0 (importedLeaves now entries) imp).
    { apply (import_fold_seen (import_last certs0 dm0) now entries []).
      - intros leaves i p i' Hp Hsub He Hi. apply (import_last_step _ _ _ _ i); [done| | |done|done].
        + intros leaf Hl. by apply Hfresh, (Hleaf p).
        + intros leaf leaf' Hl Hl' Hid. apply Hinj; [right|right|done]; [exists leaf|exists leaf']; (split; [|done]); [by apply (Hleaf p)|by apply Hsub].
      - split; [done|done|]. intros x Hx. by apply existsb_exists in Hx as (? & [] & _). }
    assert (Hex : existsb (outlives (certBefore certs0 dm0 d')) (List.filter (lists d') (importedLeaves now entries)) = wonOver certs0 dm0 (importedLeaves now entries) d').
    { unfold wonOver. generalize (importedLeaves now entries). intros l. induction l as [|x l IH]; [done|]. cbn.
      destruct (lists d' x); cbn; [by rewrite IH|done]. }
    cbv zeta. rewrite Hex. destruct (wonOver _ _ _ d') eqn:Htk.
    + by destruct (il_taken _ _ _ _ Hil d' Htk) as (_ & leaf & ? & ? & ?); exists leaf.
    + destruct (il_kept _ _ _ _ Hil d' Htk) as [_ Hm]. split; [done|]. intros id Hd. apply (il_same _ _ _ _ Hil).
      destruct (Hcov d' id Hd) as [c Hc]. by eexists.
Qed.
End importing.

(** *** The cache of an old version *)

Section legacy_lemmas.
Context `{!Crypto, !StoreJSON} (sha256_hex : string → string) (pemBlocks : string → list (string * string)).

Lemma legacy_fold now l entries :
  lgOutcomes (foldl (importLegacyCertificate sha256_hex pemBlocks now) l entries) =
  lgOutcomes l ++ ((λ p, (p.1, if negb (isLegacyCertificateEntry p.1) then LegacySkipped
    else match legacyLeaf pemBlocks p.2 with
         | None => LegacyFailed
         | Some x => if (time_sub (lfNotAfter x.1.1) now <=? 24 * hour) || bool_decide (DNSNames x.1.1 = []) then LegacySkipped else LegacyAdopted
         end)) <$> entries).
Proof.
  revert l. induction entries as [|[name blob] entries IH]; intros l; [by rewrite app_nil_r|]. cbn [foldl]. rewrite IH.
  rewrite fmap_cons, (cons_middle _ (lgOutcomes l)), app_assoc. f_equal. cbn [importLegacyCertificate fst snd].
  destruct (isLegacyCertificateEntry name); cbn [negb]; [|done].
  destruct (legacyLeaf pemBlocks blob) as [[[leaf cert] key]|]; [|done].
  cbn [fst snd]. destruct (time_sub _ _ <=? _); [done|]. by destruct (DNSNames leaf).
Qed.

Lemma legacy_fold_ops now l entries :
  Forall (λ op, op ≠ OpRemove legacyHTTP01CacheDir) (lgOps l) →
  Forall (λ op, op ≠ OpRemove legacyHTTP01CacheDir) (lgOps (foldl (importLegacyCertificate sha256_hex pemBlocks now) l entries)).
Proof.
  revert l. induction entries as [|[name blob] entries IH]; intros l Hl; [done|]. apply IH. cbn [importLegacyCertificate].
  destruct (negb _); [done|]. destruct (legacyLeaf pemBlocks blob) as [[[leaf cert] key]|]; [|done].
  destruct (_ <=? _); [done|]. destruct (DNSNames leaf); [done|]. cbn [legacyOutcome lgOps].
  rewrite !Forall_app. split; [done|]. split; repeat constructor; done.
Qed.

(** The cache is removed only when every certificate in it could be read, so
    each was adopted, or has a day left at most, or no name. *)
Lemma legacy_cache_removed now d m files name blob :
  dkDirs d !! legacyHTTP01CacheDir = Some files → files !! name = Some blob → isLegacyCertificateEntry name = true →
  OpRemove legacyHTTP01CacheDir ∈ lgOps (importLegacyHTTP01Cache sha256_hex pemBlocks now d m) →
  is_Some (legacyLeaf pemBlocks blob).
Proof.
  intros Hd Hn Hentry. unfold importLegacyHTTP01Cache. rewrite Hd. set (l := foldl _ _ _).
  assert (Hops : Forall (λ op, op ≠ OpRemove legacyHTTP01CacheDir) (lgOps l)) by (apply legacy_fold_ops; constructor).
  rewrite Forall_forall in Hops. destruct (_ && _); [intros Hin; by destruct (Hops _ Hin)|].
  destruct (0 <? legacy_count LegacyFailed l)%nat eqn:Hf; [intros Hin; by destruct (Hops _ Hin)|]. intros _.
  apply Nat.ltb_ge in Hf. destruct (legacyLeaf pemBlocks blob) as [x|] eqn:Hx; [by eexists|]. exfalso.
  assert (Hin : (name, LegacyFailed) ∈ lgOutcomes l).
  { unfold l. rewrite legacy_fold. cbn [lgOutcomes app]. apply list_elem_of_fmap. exists (name, blob).
    cbn [fst snd]. rewrite Hentry, Hx. split; [done|]. apply list_elem_of_fmap. exists name. rewrite Hn.
    split; [done|]. apply elem_of_sortedKeys. by rewrite Hn. }
  unfold legacy_count in Hf. destruct (List.filter _ (lgOutcomes l)) as [|y k] eqn:Hfil; [|cbn in Hf; lia].
  assert (Hin' : (name, LegacyFailed) ∈ @nil (string * LegacyOutcome)) by (rewrite <-Hfil; by apply elem_of_filter_bool).
  by apply elem_of_nil in Hin'.
Qed.
End legacy_lemmas.

(** ** A Traefik file with two resolvers *)

Module ImportExamples.

#[local] Instance example_crypto : Crypto := {
  X509KeyPair cert key := if String.eqb key "k" then Some cert else None;
  ParseCertificate der :=
    if String.eqb der "a" then Some (mkLeaf ["a.example"] 0 (90 * day))
    else if String.eqb der "b" then Some (mkLeaf ["b.example"; "a.example"] 0 (60 * day)) else None;
  ParsePEMPrivateKey _ := None }.

Definition digest (s : string) : string :=
  if String.eqb s ("a.example" +:+ String "000" "") then "0000000000000000"
  else if String.eqb s ("a.example" +:+ String "000" ("b.example" +:+ String "000" "")) then "1111111111111111"
  else "ffffffffffffffff".

Definition both : ManagedCert := mkCert "san:1111111111111111" ["a.example"; "b.example"] (80 * day) None "".
Definition known_certs : gmap string (option ManagedCert) := {["san:1111111111111111" := Some both]}.
Definition known_map : gmap string string := {["a.example" := "san:1111111111111111"; "b.example" := "san:1111111111111111"]}.

#[local] Instance example_json : StoreJSON := {
  unmarshalState data _ := if String.eqb data "state" then Some (mkState (Some known_certs) (Some known_map) 0) else None;
  marshalState _ := "new state";
  unmarshalUser _ := None;
  validJSON _ := true }.

#[local] Instance listed_range : MapRange := λ A m, map_to_list m.
#[local] Instance listed_range_spec : MapRangeSpec.
Proof. by split. Qed.

(** "YQ==" is "a", "Yg==" is "b" and "aw==" is "k". *)
Definition traefik_file (data : string) : option (gmap string (list traefikCertificate)) :=
  Some {["first" := [mkTraefik "a.example" "YQ==" "aw=="; mkTraefik "x.example" "?" "aw=="];
         "second" := [mkTraefik "b.example" "Yg==" "aw=="]]}.

Definition disk : CertDisk := mkDisk ∅ ∅ (Some "state") None.

Definition outcome (resolver : string) : option (list (string * string) * list (option (option ManagedCert)) * TraefikImportSummary) :=
  match ImportTraefikCertificates digest traefik_file day (Some "acme.json") resolver disk with
  | Ok (_, s, sum) =>
      Some (map_to_list (default ∅ (stDomainMap s)),
            (λ id, default ∅ (stCertificates s) !! id) <$> ["san:0000000000000000"; "san:1111111111111111"], sum)
  | Err _ => None
  end.

Definition only_a (expiry : Z) : ManagedCert := mkCert "san:0000000000000000" ["a.example"] expiry None "".
Definition renewed_both (expiry : Z) : ManagedCert := mkCert "san:1111111111111111" ["a.example"; "b.example"] expiry None "".

(** The first resolver alone: its certificate outlives the one of the store and
    takes its name; the other name stays. *)
Example first_resolver :
  outcome "first" =
  Some ([("a.example", "san:0000000000000000"); ("b.example", "san:1111111111111111")],
        [Some (Some (only_a (90 * day))); Some (Some both)],
        mkImported 1 0 0 1 [IwUnparsed "first" "x.example"]).
Proof. by vm_compute. Qed.

(** Both resolvers: the second claims the name the first has taken, and with it
    rewrites the record the other name is mapped to, although the certificate of
    that name would have outlived it by twenty days. *)
Example import_shortens_kept :
  outcome "" =
  Some ([("a.example", "san:1111111111111111"); ("b.example", "san:1111111111111111")],
        [Some (Some (only_a (90 * day))); Some (Some (renewed_both (60 * day)))],
        mkImported 2 0 0 1 [IwUnparsed "first" "x.example"; IwTwoResolvers "a.example" "second" "first"]) ∧
  NotAfter both = 80 * day.
Proof. by vm_compute. Qed.

Lemma digest_hex : hex_digest digest.
Proof. intros x. unfold digest. destruct (String.eqb x _); [done|]. by destruct (String.eqb x _). Qed.

Lemma import_keeps_store_witness :
  ∃ s ops sum, ImportTraefikCertificates digest traefik_file day (Some "acme.json") "first" disk = Ok (ops, s, sum) ∧
    ∃ certs dm, trusted s certs dm ∧ dm !! "a.example" = Some "san:0000000000000000" ∧
      certs !! "san:0000000000000000" = Some (Some (only_a (90 * day))) ∧ dm !! "b.example" = Some "san:1111111111111111".
Proof.
  destruct (ImportTraefikCertificates digest traefik_file day (Some "acme.json") "first" disk) as [[[ops s] sum]|e] eqn:Himp;
    [|exfalso; vm_compute in Himp; discriminate Himp].
  exists s, ops, sum. split; [reflexivity|].
  assert (Hcerts : ∀ id c, known_certs !! id = Some (Some c) → id = "san:1111111111111111" ∧ c = both).
  { intros id c Hl. unfold known_certs in Hl. apply lookup_singleton_Some in Hl as [<- Hc]. injection Hc as <-.
    split; reflexivity. }
  destruct (import_keeps_store digest traefik_file day "acme.json" (default ∅ (traefik_file "")) "first"
    [("first", mkTraefik "a.example" "YQ==" "aw=="); ("first", mkTraefik "x.example" "?" "aw==")] disk known_certs known_map ops s sum)
    as (certs & dm & Htr & _ & _ & Hnames).
  - reflexivity.
  - vm_compute. reflexivity.
  - vm_compute. reflexivity.
  - exact Himp.
  - exact digest_hex.
  - intros id c Hl. apply Hcerts in Hl as [-> ->]. vm_compute. reflexivity.
  - cbv zeta. assert (Hknown : ∀ ds, known_names known_certs (importedLeaves day
      [("first", mkTraefik "a.example" "YQ==" "aw=="); ("first", mkTraefik "x.example" "?" "aw==")]) ds →
      ds = ["a.example"; "b.example"] ∨ ds = ["a.example"]).
    { intros ds [(id & c & Hl & ->)|(leaf & Hin & ->)].
      - apply Hcerts in Hl as [_ ->]. left. reflexivity.
      - change (importedLeaves day _) with [mkLeaf ["a.example"] 0 (90 * day)] in Hin.
        apply list_elem_of_singleton in Hin as ->. right. reflexivity. }
    intros ds ds' H1 H2 Heq.
    apply Hknown in H1 as [-> | ->], H2 as [-> | ->]; try reflexivity; vm_compute in Heq; discriminate Heq.
  - change (importedLeaves day _) with [mkLeaf ["a.example"] 0 (90 * day)] in Hnames.
    exists certs, dm. split; [exact Htr|].
    assert (Hfresh : ∀ leaf, leaf ∈ [mkLeaf ["a.example"] 0 (90 * day)] → known_certs !! leafID digest leaf = None).
    { intros leaf Hin. apply list_elem_of_singleton in Hin as ->. vm_compute. reflexivity. }
    pose proof (Hnames Hfresh "a.example") as (leaf & [= <-] & Ha & Hc). pose proof (Hnames Hfresh "b.example") as [Hb _].
    split; [exact Ha|]. split; [exact Hc|exact Hb].
Defined.
End ImportExamples.
