(* ===== verification/HealthCheck.v ===== *)
(** * Health checks: [internal/server/health_check.go]

    The pace of the probes and the verdict on each.  [run] probes at once,
    then on a backoff that doubles until the target first answers, and then at
    the configured interval.  What the loop observes after each timed probe
    (whether the target ever answered, and the time since it started) is an
    input. *)
From S2P Require Import Prelude Target LoadBalancer.

Definition initialHealthCheckDelay : Z := 50 * millisecond.
Definition maxPreHealthyDelay : Z := 2 * second.
Definition preHealthyFastWindow : Z := 60 * second.

(** ** The verdict on a probe *)

Inductive ProbeResult :=
| ProbeBadRequest              (** the request could not be built *)
| ProbeCanceled                (** the health check was closed meanwhile *)
| ProbeTimedOut
| ProbeError                   (** any other failure *)
| ProbeStatus (code : Z).

(** [check]: what is reported to the consumer, if anything. *)
Definition check (p : ProbeResult) : option bool :=
  match p with
  | ProbeCanceled => None
  | ProbeStatus code => Some (negb ((code <? 200) || (299 <? code)))
  | _ => Some false
  end.

(** [reportResult]: the latch, and the target's state machine behind
    [HealthCheckCompleted]. *)
Definition report (i : nat) (p : ProbeResult) (latch : bool) (lb : LoadBalancer)
  : bool * LoadBalancer :=
  match check p with
  | Some ok => (latch || ok, probeCompleted i ok lb)
  | None => (latch, lb)
  end.

(** ** Pacing *)

Definition nextDelay (interval delay : Z) : Z := Z.min delay interval.

(** The new [delay] after a timed probe. *)
Definition nextBackoff (interval maxPre window : Z) (healthy : bool) (since delay : Z) : Z :=
  if healthy then interval
  else if since <? window then Z.min (delay * 2) (Z.min maxPre interval)
  else Z.min (delay * 2) interval.

(** The timers [run] sets, in order: one after the immediate probe, one after
    each observation. *)
Fixpoint timers (interval maxPre window : Z) (obs : list (bool * Z)) (delay : Z) : list Z :=
  match obs with
  | [] => []
  | (healthy, since) :: obs =>
      let delay := nextBackoff interval maxPre window healthy since delay in
      nextDelay interval delay :: timers interval maxPre window obs delay
  end.

Definition run_timers (interval : Z) (obs : list (bool * Z)) : list Z :=
  nextDelay interval initialHealthCheckDelay ::
  timers interval maxPreHealthyDelay preHealthyFastWindow obs initialHealthCheckDelay.

(** ** Lemmas *)

Lemma initialHealthCheckDelay_pos : 0 < initialHealthCheckDelay.
Proof. done. Qed.

Lemma nextBackoff_pos interval healthy since delay :
  0 < interval → 0 < delay →
  0 < nextBackoff interval maxPreHealthyDelay preHealthyFastWindow healthy since delay.
Proof.
  intros. unfold nextBackoff, maxPreHealthyDelay, second.
  destruct healthy; [done|]. destruct (since <? _); lia.
Qed.

Lemma timers_bounds interval obs delay :
  0 < interval → 0 < delay →
  Forall2 (λ o t, 0 < t ≤ interval ∧
             (o.1 = true → t = interval) ∧
             (o.1 = false → o.2 < preHealthyFastWindow → t ≤ maxPreHealthyDelay))
    obs (timers interval maxPreHealthyDelay preHealthyFastWindow obs delay).
Proof.
  intros Hi. revert delay. induction obs as [|[h since] obs IH]; intros delay Hd; cbn; [constructor|].
  pose proof (nextBackoff_pos interval h since delay Hi Hd).
  constructor; [|by apply IH]. unfold nextDelay. split; [lia|]. unfold nextBackoff.
  cbn. split; [intros ->; lia|]. intros -> Hs%Z.ltb_lt. rewrite Hs. lia.
Qed.

(** While the target has not answered, the backoff doubles from its start. *)
Lemma timers_double interval obs delay k :
  0 < interval → 0 < delay → Forall (λ o, o.1 = false ∧ o.2 < preHealthyFastWindow) obs →
  (k < length obs)%nat →
  timers interval maxPreHealthyDelay preHealthyFastWindow obs delay !! k =
  Some (Z.min (delay * 2 ^ Z.of_nat (S k)) (Z.min maxPreHealthyDelay interval)).
Proof.
  intros Hi. revert delay k. induction obs as [|[h since] obs IH]; intros delay k Hd Hobs Hk;
    cbn in Hk; [lia|].
  apply Forall_cons in Hobs as [[Hh Hs] Hobs]. cbn in Hh, Hs. subst h. apply Z.ltb_lt in Hs.
  cbn [timers]. unfold nextBackoff, nextDelay. rewrite Hs.
  set (cap := Z.min maxPreHealthyDelay interval) in *.
  assert (0 < cap) by (unfold cap, maxPreHealthyDelay, second; lia).
  destruct k as [|k]; cbn [lookup list_lookup].
  - f_equal. change (2 ^ Z.of_nat 1) with 2. unfold cap. lia.
  - rewrite IH by (done || lia). f_equal.
    rewrite (Nat2Z.inj_succ (S k)), Z.pow_succ_r by lia.
    assert (2 ≤ 2 ^ Z.of_nat (S k)).
    { rewrite Nat2Z.inj_succ, Z.pow_succ_r by lia.
      pose proof (Z.pow_pos_nonneg 2 (Z.of_nat k)). lia. }
    destruct (Z.min_spec (delay * 2) cap) as [[? ->]|[? ->]]; nia.
Qed.

(** ** Theorems *)

(** The pace of the probes.  No two probes are further apart than the
    configured interval; until the target first answers, and within the fast
    window, the gap doubles from 50 ms and never exceeds two seconds; from the
    first answer on it is exactly the interval. *)
Theorem probe_pace interval obs :
  0 < interval →
  Forall (λ t, 0 < t ≤ interval) (run_timers interval obs) ∧
  Forall2 (λ o t, (o.1 = true → t = interval) ∧
                  (o.1 = false → o.2 < preHealthyFastWindow → t ≤ maxPreHealthyDelay))
    obs (tail (run_timers interval obs)) ∧
  (∀ k, Forall (λ o, o.1 = false ∧ o.2 < preHealthyFastWindow) obs → (k ≤ length obs)%nat →
     run_timers interval obs !! k =
     Some (Z.min (initialHealthCheckDelay * 2 ^ Z.of_nat k)
             (Z.min maxPreHealthyDelay interval))).
Proof.
  intros Hi. pose proof initialHealthCheckDelay_pos as Hd.
  pose proof (timers_bounds interval obs initialHealthCheckDelay Hi Hd) as Hb.
  split; [|split].
  - unfold run_timers. constructor; [unfold nextDelay; lia|].
    induction Hb as [|? ? ? ? (? & _ & _)]; constructor; auto.
  - cbn. eapply Forall2_impl; [exact Hb|]. by intros o t (_ & ? & ?).
  - intros [|k] Hobs Hk.
    + cbn. f_equal. unfold nextDelay, initialHealthCheckDelay, maxPreHealthyDelay, millisecond,
        second. lia.
    + cbn [run_timers lookup list_lookup]. by apply timers_double.
Qed.

Module HealthCheckExamples.
Example boot_sequence :
  run_timers (5 * second) [(false, 1); (false, 2); (true, 3)] =
  [50 * millisecond; 100 * millisecond; 200 * millisecond; 5 * second].
Proof. vm_compute. reflexivity. Qed.

Lemma probe_pace_witness :
  Forall (λ t, 0 < t ≤ 5 * second)
    (run_timers (5 * second) [(false, 1); (false, 2); (true, 3)]).
Proof.
  apply (probe_pace (5 * second) [(false, 1); (false, 2); (true, 3)]). vm_compute. reflexivity.
Defined.
End HealthCheckExamples.
