(* ===== verification/Compression.v ===== *)
(** * Response compression, the choice: [internal/server/compression.go]

    The options of a service, the encoding negotiated with a client, and which
    media types are worth it.  The writer that encodes is in [CompressWriter.v].

    Quality values are [float64]s.  The code only parses and compares them, so
    they are an interface here: a type with [0], [1], [>] and [ParseFloat],
    of which the strict order is all that is assumed (NaN compares false both
    ways, as this allows). *)
From S2P Require Import Prelude GoStrings.

Class Float64 := {
  float64 : Type;
  f_zero : float64;
  f_one : float64;
  f_gt : float64 → float64 → bool;
  ParseFloat : string → option float64 }.

Class Float64Spec `{!Float64} : Prop := {
  f_gt_irrefl x : f_gt x x = false;
  f_gt_trans x y z : f_gt x y = true → f_gt y z = true → f_gt x z = true;
  (** a positive value is not NaN, so it is comparable with what another exceeds *)
  f_gt_above p q0 q : f_gt p f_zero = true → f_gt p q0 = false → f_gt q q0 = true →
    f_gt q p = true;
  f_one_gt_zero : f_gt f_one f_zero = true }.

(** ** Constants *)

Definition EncodingGzip : string := "gzip".
Definition EncodingBrotli : string := "br".
Definition EncodingZstd : string := "zstd".
Definition DefaultCompressionMinLength : Z := 1024.
Definition eventStreamContentType : string := "text/event-stream".
Definition supportedEncodings : list string := [EncodingGzip; EncodingBrotli; EncodingZstd].
Definition semicolon : ascii := ";"%char.

Definition defaultCompressibleContentTypes : list string :=
  ["text/*"; "application/json"; "application/javascript"; "application/x-javascript";
   "application/xml"; "application/wasm"; "image/svg+xml"; "image/x-icon"].

Definition compressibleContentTypeSuffixes : list string := ["+json"; "+xml"; "+text"].

(** ** Options *)

Record CompressionOptions := mkCompression {
  Encodings : list string;
  MinLength : Z;
  ContentTypes : list string }.

Definition CompressionEnabled (co : CompressionOptions) : bool :=
  negb (Nat.eqb (length (Encodings co)) 0).

Definition minLength (co : CompressionOptions) : Z :=
  if MinLength co <=? 0 then DefaultCompressionMinLength else MinLength co.

(** The name before the first [c], all of it when there is none, and the rest. *)
Definition cut_at (s : string) (c : ascii) : string * string :=
  match Cut s c with Some p => p | None => (s, "") end.

Definition normalizeContentType (contentType : string) : string :=
  ToLower (TrimSpace (cut_at contentType semicolon).1).

(** A loop that keeps the first of equal names and drops empty ones. *)
Definition add_name (names : list string) (n : string) : list string :=
  if String.eqb n "" || str_contains names n then names else names ++ [n].

Definition encodingAlias (e : string) : string :=
  if String.eqb e "brotli" then EncodingBrotli else e.

Definition normalizeEncodings (encodings : list string) : list string :=
  foldl (λ acc e, add_name acc (encodingAlias (ToLower (TrimSpace e)))) [] encodings.

Definition normalizeContentTypes (cts : list string) : list string :=
  foldl (λ acc c, add_name acc (normalizeContentType c)) [] cts.

Definition NormalizeCompression (co : CompressionOptions) : CompressionOptions :=
  mkCompression (normalizeEncodings (Encodings co)) (MinLength co)
    (normalizeContentTypes (ContentTypes co)).

Definition validContentTypePattern (p : string) : bool :=
  match Cut p slash with
  | Some (mainType, subType) =>
      negb (String.eqb mainType "") && negb (String.eqb subType "") && negb (Contains mainType "*")
  | None => false
  end.

Inductive CompressionError :=
| MinLengthWithoutCompress | ContentTypeWithoutCompress | UnsupportedEncoding (e : string)
| NegativeMinLength | BadContentType (c : string).

Definition ValidateCompression (co0 : CompressionOptions) : result CompressionError unit :=
  let co := NormalizeCompression co0 in
  if negb (CompressionEnabled co) then
    if negb (MinLength co =? 0) then Err MinLengthWithoutCompress
    else if negb (Nat.eqb (length (ContentTypes co)) 0) then Err ContentTypeWithoutCompress
    else Ok tt
  else
    match List.find (λ e, negb (str_contains supportedEncodings e)) (Encodings co) with
    | Some e => Err (UnsupportedEncoding e)
    | None =>
        if MinLength co <? 0 then Err NegativeMinLength
        else match List.find (λ c, negb (validContentTypePattern c)) (ContentTypes co) with
             | Some c => Err (BadContentType c)
             | None => Ok tt
             end
    end.

(** ** Negotiation *)

Section negotiation.
Context `{F64 : Float64}.

Definition param_quality (q : float64) (param : string) : float64 :=
  match Cut param "=" with
  | Some (key, value) =>
      if EqualFold (TrimSpace key) "q"
      then default q (ParseFloat (TrimSpace value)) else q
  | None => q
  end.

Definition entry_quality (params : string) : float64 :=
  foldl param_quality f_one (Split params semicolon).

Record AcceptEncoding := mkAccept {
  accepted : gmap string float64;
  wildcard : option float64 }.

Definition parse_entry (a : AcceptEncoding) (entry : string) : AcceptEncoding :=
  let '(name, params) := cut_at entry semicolon in
  let name := ToLower (TrimSpace name) in
  if String.eqb name "" then a
  else let q := entry_quality params in
       if String.eqb name "*" then mkAccept (accepted a) (Some q)
       else mkAccept (<[name := q]> (accepted a)) (wildcard a).

Definition parseAcceptEncoding (header : string) : AcceptEncoding :=
  foldl parse_entry (mkAccept ∅ None) (Split header comma).

(** The quality a client gives an encoding: its own, else the wildcard's. *)
Definition quality_of (a : AcceptEncoding) (e : string) : option float64 :=
  match accepted a !! e with Some q => Some q | None => wildcard a end.

Definition negotiate_step (a : AcceptEncoding) (best : string * float64) (e : string)
  : string * float64 :=
  match quality_of a e with
  | Some q => if f_gt q best.2 then (e, q) else best
  | None => best
  end.

Definition negotiate (co : CompressionOptions) (acceptEncoding : string) : string :=
  if negb (CompressionEnabled co) || String.eqb acceptEncoding "" then ""
  else (foldl (negotiate_step (parseAcceptEncoding acceptEncoding)) ("", f_zero) (Encodings co)).1.

End negotiation.

(** ** Media types *)

Definition matchesContentType (pattern mediaType : string) : bool :=
  match CutSuffix pattern "/*" with
  | Some prefix => HasPrefix mediaType (prefix +:+ "/")
  | None => String.eqb pattern mediaType
  end.

Definition compressibleContentType (co : CompressionOptions) (contentType : string) : bool :=
  let mediaType := normalizeContentType contentType in
  if String.eqb mediaType "" then false
  else
    let usingDefaults := Nat.eqb (length (ContentTypes co)) 0 in
    let patterns := if usingDefaults then defaultCompressibleContentTypes else ContentTypes co in
    if String.eqb mediaType eventStreamContentType && negb (str_contains patterns mediaType)
    then false
    else if existsb (λ p, matchesContentType p mediaType) patterns then true
    else if negb usingDefaults then false
    else existsb (HasSuffix mediaType) compressibleContentTypeSuffixes.

(** ** Statuses

    [statusAllowsBody] of [compression_middleware.go], which the cache shares. *)
Definition statusAllowsBody (statusCode : Z) : bool :=
  (200 <=? statusCode) && negb (statusCode =? 204) && negb (statusCode =? 304).

(** ** Lemmas *)

Section negotiation_lemmas.
Context `{F64 : Float64, F64s : !Float64Spec}.

(** The quality of [e] for the client is not above [q]. *)
Definition at_most (a : AcceptEncoding) (q : float64) (e : string) : Prop :=
  ∀ p, quality_of a e = Some p → f_gt p q = false.

(** [e] is unacceptable to the client or strictly worse than [q]. *)
Definition worse (a : AcceptEncoding) (q : float64) (e : string) : Prop :=
  ∀ p, quality_of a e = Some p → f_gt p f_zero = true → f_gt q p = true.

(** [e] is the choice among [encs]: acceptable, nothing better, and everything
    listed before it strictly worse. *)
Definition best_of (a : AcceptEncoding) (encs : list string) (e : string) (q : float64) : Prop :=
  quality_of a e = Some q ∧ f_gt q f_zero = true ∧ Forall (at_most a q) encs ∧
  ∃ l1 l2, encs = l1 ++ e :: l2 ∧ Forall (worse a q) l1.

Lemma at_most_raise a q p e : f_gt p q = true → at_most a q e → at_most a p e.
Proof.
  intros Hgt H p' Hp'. specialize (H p' Hp'). destruct (f_gt p' p) eqn:E; [|done].
  by rewrite (f_gt_trans p' p q) in H.
Qed.

Lemma at_most_worse a q p e : f_gt p q = true → at_most a q e → worse a p e.
Proof. intros Hgt H p' Hp' Hpos. eapply f_gt_above; eauto. Qed.

Lemma best_of_extend a encs x e q :
  at_most a q x → best_of a encs e q → best_of a (encs ++ [x]) e q.
Proof.
  intros Hx (H1 & H2 & H3 & l1 & l2 & -> & H4). split; [done|]. split; [done|].
  split; [apply Forall_app; by repeat constructor|].
  exists l1, (l2 ++ [x]). by rewrite <-app_assoc.
Qed.

Lemma best_of_new a encs x p q :
  quality_of a x = Some p → f_gt p q = true → f_gt p f_zero = true →
  Forall (at_most a q) encs → best_of a (encs ++ [x]) x p.
Proof.
  intros Hx Hgt Hpos Hall. split; [done|]. split; [done|]. split.
  - apply Forall_app. split; [|constructor; [|done]].
    + eapply Forall_impl; [exact Hall|]. intros y. by apply at_most_raise.
    + intros p' Hp'. assert (p' = p) as -> by congruence. apply f_gt_irrefl.
  - exists encs, []. split; [done|]. eapply Forall_impl; [exact Hall|]. intros y.
    by apply at_most_worse.
Qed.

(** What the loop has found: nothing acceptable, or the best. *)
Lemma negotiate_fold a encs e q :
  foldl (negotiate_step a) ("", f_zero) encs = (e, q) →
  (e = "" ∧ q = f_zero ∧ Forall (at_most a f_zero) encs) ∨ best_of a encs e q.
Proof.
  revert e q. induction encs as [|x encs IH] using rev_ind; intros e q; cbn.
  { intros [= <- <-]. left. by repeat constructor. }
  rewrite foldl_app. destruct (foldl (negotiate_step a) ("", f_zero) encs) as [e0 q0] eqn:E.
  specialize (IH e0 q0 eq_refl). cbn. unfold negotiate_step. cbn.
  destruct (quality_of a x) as [p|] eqn:Hx; [destruct (f_gt p q0) eqn:Hgt|]; intros [= <- <-].
  - right. destruct IH as [(-> & -> & Hall)|(_ & Hpos & Hall & _)];
      eapply best_of_new; eauto using f_gt_trans.
  - assert (at_most a q0 x) by (intros p' Hp'; congruence).
    destruct IH as [(-> & -> & Hall)|Hbest]; [left|right; by apply best_of_extend].
    split; [done|]. split; [done|]. apply Forall_app. by repeat constructor.
  - assert (∀ q', at_most a q' x) by (intros q' p' Hp'; congruence).
    destruct IH as [(-> & -> & Hall)|Hbest]; [left|right; by apply best_of_extend].
    split; [done|]. split; [done|]. apply Forall_app. by repeat constructor.
Qed.
End negotiation_lemmas.

(** A normalized list holds each name once and none that is empty. *)
Lemma add_name_ok names n :
  NoDup names ∧ Forall (λ x, x ≠ "") names → NoDup (add_name names n) ∧
  Forall (λ x, x ≠ "") (add_name names n).
Proof.
  intros [Hnd Hne]. unfold add_name. destruct (String.eqb_spec n ""); [done|]. cbn.
  destruct (str_contains names n) eqn:E; [done|]. apply str_contains_false in E. split.
  - apply NoDup_app. split; [done|]. split; [set_solver|]. apply NoDup_singleton.
  - apply Forall_app. by repeat constructor.
Qed.

Lemma normalizeEncodings_ok encodings :
  NoDup (normalizeEncodings encodings) ∧ Forall (λ x, x ≠ "") (normalizeEncodings encodings).
Proof.
  unfold normalizeEncodings. induction encodings as [|e es IH] using rev_ind.
  - cbn. repeat constructor.
  - rewrite foldl_app. by apply add_name_ok.
Qed.

(** ** Theorems *)

(** Negotiation honours both sides.  The encoding chosen is one the
    service offers and the client accepts with a positive quality, none the
    service offers is better for the client, and everything the service lists
    before it is unacceptable or strictly worse; nothing is chosen exactly
    when no offer is acceptable. *)
Theorem negotiate_best `{F64 : Float64, F64s : !Float64Spec} co header :
  CompressionEnabled co = true → header ≠ "" → "" ∉ Encodings co →
  let a := parseAcceptEncoding header in
  let e := negotiate co header in
  (e = "" ∧ Forall (at_most a f_zero) (Encodings co)) ∨
  (e ≠ "" ∧ ∃ q, best_of a (Encodings co) e q).
Proof.
  intros Hen Hh Hne a e. unfold e, negotiate. rewrite Hen. cbn.
  apply String.eqb_neq in Hh. rewrite Hh. cbn. fold a.
  destruct (foldl (negotiate_step a) ("", f_zero) (Encodings co)) as [x q] eqn:E.
  apply negotiate_fold in E as [(-> & -> & Hall)|Hbest]; [by left|right].
  cbn. split; [|eauto]. intros ->. destruct Hbest as (_ & _ & _ & l1 & l2 & Heq & _).
  apply Hne. rewrite Heq. set_solver.
Qed.

(** ** Witnesses *)

Module CompressionExamples.
(** Qualities of up to three decimals, as thousandths. *)
Definition digit (c : ascii) : option Z :=
  let n := Z.of_N (N_of_ascii c) in
  if (48 <=? n) && (n <=? 57) then Some (n - 48) else None.

Fixpoint decimals (k : nat) (s : string) : option Z :=
  match k, s with
  | O, "" => Some 0
  | O, _ => None
  | S k, "" => Some 0
  | S k, String c s =>
      match digit c, decimals k s with
      | Some d, Some r => Some (d * 10 ^ Z.of_nat k + r)
      | _, _ => None
      end
  end.

Definition milli (s : string) : option Z :=
  match s with
  | String c "" => (λ d, d * 1000) <$> digit c
  | String c (String "." s) =>
      match digit c, decimals 3 s with
      | Some d, Some r => Some (d * 1000 + r)
      | _, _ => None
      end
  | _ => None
  end.

#[local] Instance milli_float : Float64 :=
  {| float64 := Z; f_zero := 0; f_one := 1000; f_gt x y := y <? x; ParseFloat := milli |}.

#[local] Instance milli_spec : Float64Spec.
Proof.
  split; cbn.
  - intros x. apply Z.ltb_irrefl.
  - intros x y z ?%Z.ltb_lt ?%Z.ltb_lt. apply Z.ltb_lt. lia.
  - intros p q0 q ?%Z.ltb_lt ?%Z.ltb_ge ?%Z.ltb_lt. apply Z.ltb_lt. lia.
  - done.
Qed.

Definition co : CompressionOptions := mkCompression ["br"; "gzip"] 0 [].

Example prefers_the_client : negotiate co "gzip;q=1.0, br;q=0.8" = "gzip".
Proof. vm_compute. reflexivity. Qed.

Example ties_go_to_the_server : negotiate co "gzip, br" = "br".
Proof. vm_compute. reflexivity. Qed.

Lemma negotiate_best_witness :
  negotiate co "gzip;q=1.0, br;q=0.8" ≠ "" ∧
  ∃ q, best_of (parseAcceptEncoding "gzip;q=1.0, br;q=0.8") ["br"; "gzip"]
    (negotiate co "gzip;q=1.0, br;q=0.8") q.
Proof.
  destruct (negotiate_best co "gzip;q=1.0, br;q=0.8") as [[H _]|H].
  - reflexivity.
  - discriminate.
  - cbn. intros H. apply list_elem_of_In in H. cbn in H.
    destruct H as [H|[H|H]]; [discriminate|discriminate|exact H].
  - vm_compute in H. discriminate.
  - exact H.
Defined.
End CompressionExamples.
