(* ===== verification/CompressWriter.v ===== *)
(** * The compressing response writer: [internal/server/compression_middleware.go]

    A writer put around the client's that encodes the body on its way out.  It
    holds the header block back until it knows whether it will compress, since
    [Content-Encoding], [Content-Length] and [ETag] change together with the
    body: it decides from the headers when they settle it, else when enough of
    the body has accumulated, when the handler flushes what it wrote, or when
    the handler returns.

    The encoders (gzip, brotli and zstd are third-party packages), what a client
    decodes, and the standard library's content sniffing are an interface.  A
    write to the client never fails here, so the field [err], which only keeps
    such failures, is left out.  The options are validated ones, whose encodings
    all have a pool. *)
From S2P Require Import Prelude GoStrings Http Redirects ErrorPages Compression.

(** ** The encoders *)

(** What one encoder is asked to do between a [Reset] and its [Close]. *)
Inductive EncOp := EncWrite (data : string) | EncFlush.

(** The pieces an operation hands to the writer below are listed, and may be
    none: an encoder keeps what it likes until it is flushed or closed. *)
Class ResponseEncoders := {
  responseEncoder : Type;
  encReset : string → responseEncoder → responseEncoder;
  encWrite : string → responseEncoder → responseEncoder * list string;
  encFlush : responseEncoder → responseEncoder * list string;
  encClose : responseEncoder → list string;
  encDecode : string → string → option string;
  DetectContentType : string → string }.

Definition pieces (l : list string) : string := String.concat "" l.

Definition encApply `{ResponseEncoders} (s : responseEncoder * string) (o : EncOp) : responseEncoder * string :=
  let '(e, out) := match o with EncWrite data => encWrite data s.1 | EncFlush => encFlush s.1 end in
  (e, s.2 +:+ pieces out).

Definition encInput (ops : list EncOp) : string :=
  pieces ((λ o, match o with EncWrite data => data | EncFlush => "" end) <$> ops).

(** The formats: whatever an encoder did before its [Reset], what it then puts
    out up to its [Close] decodes to what it was given. *)
Class ResponseEncodersSpec `{ResponseEncoders} : Prop :=
  enc_decodes : ∀ encoding e ops, encoding ∈ supportedEncodings →
    let s := foldl encApply (encReset encoding e, "") ops in
    encDecode encoding (s.2 +:+ pieces (encClose s.1)) = Some (encInput ops).

(** ** The writer *)

Section writer.
Context `{RE : ResponseEncoders}.

(** What a pool hands out when an encoder is asked for: one that was parked
    there, in whatever state, or a new one. *)
Context (encoderPools : string → responseEncoder).

Record compressingResponseWriter := mkCpw {
  cpUnder : ResponseWriter;
  cpOptions : CompressionOptions;
  cpEncoding : string;
  cpBodyExpected : bool;
  cpStatusCode : Z;
  cpHeaderSeen : bool;
  cpSentHeader : bool;
  cpDecided : bool;
  cpCompressing : bool;
  cpHijacked : bool;
  cpEncoder : option responseEncoder;
  cpBuffer : string }.

(** [w.Header()]: the map of the writer below. *)
Definition cpHeader (w : compressingResponseWriter) : gmap string (list string) := rwHeader (cpUnder w).

Definition cp_under (u : ResponseWriter) (w : compressingResponseWriter) : compressingResponseWriter :=
  mkCpw u (cpOptions w) (cpEncoding w) (cpBodyExpected w) (cpStatusCode w) (cpHeaderSeen w) (cpSentHeader w) (cpDecided w)
    (cpCompressing w) (cpHijacked w) (cpEncoder w) (cpBuffer w).

Definition cp_edit (f : gmap string (list string) → gmap string (list string)) (w : compressingResponseWriter) : compressingResponseWriter :=
  cp_under (rw_set_header (f (cpHeader w)) (cpUnder w)) w.

Definition cp_flags (seen sent decided : bool) (w : compressingResponseWriter) : compressingResponseWriter :=
  mkCpw (cpUnder w) (cpOptions w) (cpEncoding w) (cpBodyExpected w) (cpStatusCode w) seen sent decided
    (cpCompressing w) (cpHijacked w) (cpEncoder w) (cpBuffer w).

Definition cp_encoder (compressing : bool) (e : option responseEncoder) (w : compressingResponseWriter) : compressingResponseWriter :=
  mkCpw (cpUnder w) (cpOptions w) (cpEncoding w) (cpBodyExpected w) (cpStatusCode w) (cpHeaderSeen w) (cpSentHeader w)
    (cpDecided w) compressing (cpHijacked w) e (cpBuffer w).

Definition cp_buffer (b : string) (w : compressingResponseWriter) : compressingResponseWriter :=
  mkCpw (cpUnder w) (cpOptions w) (cpEncoding w) (cpBodyExpected w) (cpStatusCode w) (cpHeaderSeen w) (cpSentHeader w)
    (cpDecided w) (cpCompressing w) (cpHijacked w) (cpEncoder w) b.

(** An encoder's output, piece by piece. *)
Definition writePieces (l : list string) (u : ResponseWriter) : ResponseWriter := foldl (λ u p, WriteBody p u) u l.

(** Does some [Vary] field already name the header, or all? *)
Definition variesOnAcceptEncoding (header : gmap string (list string)) : bool :=
  existsb (λ value, existsb (λ field, let field := TrimSpace field in String.eqb field "*" || EqualFold field "Accept-Encoding")
                      (Split value comma))
    (hdr_values header "Vary").

Definition addVaryOnAcceptEncoding (header : gmap string (list string)) : gmap string (list string) :=
  if variesOnAcceptEncoding header then header else hdr_add header "Vary" "Accept-Encoding".

Definition weakenETag (header : gmap string (list string)) : gmap string (list string) :=
  let etag := hdr_get header "ETag" in
  if String.eqb etag "" || HasPrefix etag "W/" then header else hdr_set header "ETag" ("W/" +:+ etag).

Definition acquireEncoder (encoding : string) : responseEncoder := encReset encoding (encoderPools encoding).

Definition mayCompress (w : compressingResponseWriter) : bool :=
  if negb (cpBodyExpected w) || negb (statusAllowsBody (cpStatusCode w)) then false
  else if negb (String.eqb (hdr_get (cpHeader w) "Content-Encoding") "") then false
  else String.eqb (hdr_get (cpHeader w) "Content-Range") "".

Definition declaredContentLength (header : gmap string (list string)) : Z :=
  let value := hdr_get header "Content-Length" in
  if String.eqb value "" then -1
  else match ParseInt value with Some length => if length <? 0 then -1 else length | None => -1 end.

Definition bodyAtLeast (minimum : Z) (w : compressingResponseWriter) : bool :=
  let declared := declaredContentLength (cpHeader w) in
  if 0 <=? declared then minimum <=? declared else minimum <=? str_len (cpBuffer w).

Definition startCompressing (w : compressingResponseWriter) : compressingResponseWriter :=
  let w := cp_encoder true (Some (acquireEncoder (cpEncoding w))) w in
  cp_edit (λ header,
    weakenETag (hdr_del (hdr_del (hdr_set header "Content-Encoding" (cpEncoding w)) "Content-Length") "Accept-Ranges")) w.

Definition sendHeader (w : compressingResponseWriter) : compressingResponseWriter :=
  if cpSentHeader w || cpHijacked w then w
  else cp_under (WriteHeader (cpStatusCode w) (cpUnder w)) (cp_flags (cpHeaderSeen w) true (cpDecided w) w).

Definition writeDecided (data : string) (w : compressingResponseWriter) : compressingResponseWriter :=
  match cpCompressing w, cpEncoder w with
  | true, Some e =>
      let '(e, out) := encWrite data e in
      cp_under (writePieces out (cpUnder w)) (cp_encoder true (Some e) w)
  | _, _ => cp_under (WriteBody data (cpUnder w)) w
  end.

Definition flushBuffer (w : compressingResponseWriter) : compressingResponseWriter :=
  if String.eqb (cpBuffer w) "" then w else writeDecided (cpBuffer w) (cp_buffer "" w).

Definition cpDecide (w : compressingResponseWriter) : compressingResponseWriter :=
  if cpDecided w then w
  else
    let w := cp_flags (cpHeaderSeen w) (cpSentHeader w) true w in
    let w :=
      if mayCompress w then
        let declared := hdr_get (cpHeader w) "Content-Type" in
        let sniff := String.eqb declared "" && negb (String.eqb (cpBuffer w) "") in
        let sniffed := if sniff then DetectContentType (cpBuffer w) else "" in
        let contentType := if sniff then sniffed else declared in
        if compressibleContentType (cpOptions w) contentType then
          let w := cp_edit addVaryOnAcceptEncoding w in
          if negb (String.eqb (cpEncoding w) "") && bodyAtLeast (minLength (cpOptions w)) w then
            startCompressing
              (if String.eqb sniffed "" then w else cp_edit (λ header, hdr_set header "Content-Type" sniffed) w)
          else w
        else w
      else w in
    flushBuffer (sendHeader w).

Definition decideFromHeaders (w : compressingResponseWriter) : compressingResponseWriter :=
  if negb (mayCompress w) then cpDecide w
  else
    let contentType := hdr_get (cpHeader w) "Content-Type" in
    if String.eqb contentType "" then w
    else if negb (compressibleContentType (cpOptions w) contentType) || String.eqb (cpEncoding w) ""
            || (0 <=? declaredContentLength (cpHeader w))
    then cpDecide w else w.

Definition cpWriteHeader (statusCode : Z) (w : compressingResponseWriter) : compressingResponseWriter :=
  if cpHeaderSeen w then w
  else decideFromHeaders
         (mkCpw (cpUnder w) (cpOptions w) (cpEncoding w) (cpBodyExpected w) statusCode true (cpSentHeader w) (cpDecided w)
            (cpCompressing w) (cpHijacked w) (cpEncoder w) (cpBuffer w)).

Definition cpWrite (data : string) (w : compressingResponseWriter) : compressingResponseWriter :=
  let w := if cpHeaderSeen w then w else cpWriteHeader 200 w in
  if cpDecided w then writeDecided data w
  else
    let w := cp_buffer (cpBuffer w +:+ data) w in
    if minLength (cpOptions w) <=? str_len (cpBuffer w) then cpDecide w else w.

(** The rest of [Flush], once the decision is made. *)
Definition flushDecided (w : compressingResponseWriter) : compressingResponseWriter :=
  let w := match cpCompressing w, cpEncoder w with
           | true, Some e =>
               let '(e, out) := encFlush e in
               cp_under (writePieces out (cpUnder w)) (cp_encoder true (Some e) w)
           | _, _ => w
           end in
  cp_under (FlushRW (cpUnder w)) w.

Definition cpFlush (w : compressingResponseWriter) : compressingResponseWriter :=
  if cpHijacked w then w
  else if cpDecided w then flushDecided w
  else if negb (cpHeaderSeen w) || String.eqb (cpBuffer w) "" then w
  else flushDecided (cpDecide w).

(** [Hijack], when the writer below can be. *)
Definition cpHijack (w : compressingResponseWriter) : compressingResponseWriter :=
  mkCpw (cpUnder w) (cpOptions w) (cpEncoding w) (cpBodyExpected w) (cpStatusCode w) (cpHeaderSeen w) (cpSentHeader w) true
    (cpCompressing w) true (cpEncoder w) (cpBuffer w).

Definition cpFinish (w : compressingResponseWriter) : compressingResponseWriter :=
  if cpHijacked w then w
  else
    let w := cpDecide w in
    let w := match cpCompressing w, cpEncoder w with
             | true, Some e => cp_under (writePieces (encClose e) (cpUnder w)) (cp_encoder false None w)
             | _, _ => w
             end in
    sendHeader w.

(** What a handler does with the writer; header edits reach the shared map. *)
Definition cpOp (w : compressingResponseWriter) (o : write_op) : compressingResponseWriter :=
  match o with
  | OHeader h => cp_under (rw_set_header h (cpUnder w)) w
  | OStatus c => cpWriteHeader c w
  | OBody data => cpWrite data w
  | OFlush => cpFlush w
  end.

Definition newCompressing (co : CompressionOptions) (encoding : string) (bodyExpected : bool) (u : ResponseWriter)
  : compressingResponseWriter :=
  mkCpw u co encoding bodyExpected 200 false false false false false None "".

(** [CompressionMiddleware.ServeHTTP] around a handler that performs [ops]. *)
Definition ServeCompressed `{F64 : Float64} (co : CompressionOptions) (r : Request) (ops : list write_op) (u : ResponseWriter) : ResponseWriter :=
  cpUnder (cpFinish (foldl cpOp
    (newCompressing co (negotiate co (hdr_get (ReqHeader r) "Accept-Encoding")) (negb (String.eqb (Method r) MethodHead)) u) ops)).

End writer.

(** ** The decision in one step *)

Section decision.
Context `{RE : ResponseEncoders} (encoderPools : string → responseEncoder).

(** The type the decision goes by, [evidence] being what has accumulated of the
    body, and whether it is sniffed. *)
Definition sniffs (h : gmap string (list string)) (evidence : string) : bool :=
  String.eqb (hdr_get h "Content-Type") "" && negb (String.eqb evidence "").

Definition knownType (h : gmap string (list string)) (evidence : string) : string :=
  if sniffs h evidence then DetectContentType evidence else hdr_get h "Content-Type".

(** May a response of this status with these headers be compressed at all? *)
Definition plain_body (bodyExpected : bool) (code : Z) (h : gmap string (list string)) : bool :=
  bodyExpected && statusAllowsBody code && String.eqb (hdr_get h "Content-Encoding") "" && String.eqb (hdr_get h "Content-Range") "".

Definition eligible (co : CompressionOptions) (bodyExpected : bool) (code : Z) (h : gmap string (list string)) (evidence : string) : bool :=
  plain_body bodyExpected code h && compressibleContentType co (knownType h evidence).

Definition large (co : CompressionOptions) (h : gmap string (list string)) (evidence : string) : bool :=
  if 0 <=? declaredContentLength h then minLength co <=? declaredContentLength h else minLength co <=? str_len evidence.

Definition withSniffedType (h : gmap string (list string)) (evidence : string) : gmap string (list string) :=
  if sniffs h evidence && negb (String.eqb (DetectContentType evidence) "") then hdr_set h "Content-Type" (DetectContentType evidence) else h.

Definition encoded (encoding : string) (h : gmap string (list string)) : gmap string (list string) :=
  weakenETag (hdr_del (hdr_del (hdr_set h "Content-Encoding" encoding) "Content-Length") "Accept-Ranges").

(** The header block that is sent, and whether the body is encoded. *)
Definition chosen (co : CompressionOptions) (encoding : string) (bodyExpected : bool) (code : Z) (h : gmap string (list string)) (evidence : string)
  : gmap string (list string) * bool :=
  if eligible co bodyExpected code h evidence then
    if negb (String.eqb encoding "") && large co h evidence
    then (encoded encoding (withSniffedType (addVaryOnAcceptEncoding h) evidence), true)
    else (addVaryOnAcceptEncoding h, false)
  else (h, false).

(** How much of the body is seen before the decision is made. *)
Fixpoint seen (minimum : Z) (buffer : string) (bs : list write_op) : string :=
  match bs with
  | [] => buffer
  | OBody p :: bs => if minimum <=? str_len (buffer +:+ p) then buffer +:+ p else seen minimum (buffer +:+ p) bs
  | OFlush :: bs => if String.eqb buffer "" then seen minimum buffer bs else buffer
  | _ :: bs => seen minimum buffer bs
  end.

Definition early (co : CompressionOptions) (encoding : string) (bodyExpected : bool) (code : Z) (h : gmap string (list string)) : bool :=
  negb (plain_body bodyExpected code h) ||
  (negb (String.eqb (hdr_get h "Content-Type") "") &&
   (negb (compressibleContentType co (hdr_get h "Content-Type")) || String.eqb encoding "" || (0 <=? declaredContentLength h))).

Definition evidence (co : CompressionOptions) (encoding : string) (bodyExpected : bool) (code : Z) (h : gmap string (list string)) (bs : list write_op)
  : string :=
  if early co encoding bodyExpected code h then "" else seen (minLength co) "" bs.

(** ** Writers in the middle of a response *)

Ltac cp_simpl :=
  cbv beta iota zeta delta [cp_under cp_edit cp_flags cp_encoder cp_buffer cpHeader cpUnder cpOptions cpEncoding cpBodyExpected cpStatusCode
    cpHeaderSeen cpSentHeader cpDecided cpCompressing cpHijacked cpEncoder cpBuffer].

Definition rw_append (b : string) (u : ResponseWriter) : ResponseWriter :=
  mkRW (rwHeader u) (rwCookies u) (rwSent u) (rwClosed u) (rwBody u +:+ b).

Lemma rw_append_twice a b u : rw_append b (rw_append a u) = rw_append (a +:+ b) u.
Proof. unfold rw_append. cbn. by rewrite str_app_assoc. Qed.

Lemma rw_append_nil u : rw_append "" u = u.
Proof. unfold rw_append. destruct u. cbn. by rewrite str_app_nil_r. Qed.

Lemma WriteBody_open b u : rwClosed u = true → WriteBody b u = rw_append b u.
Proof. intros Hc. unfold WriteBody. rewrite WriteHeader_closed by done. done. Qed.

Lemma pieces_cons p l : pieces (p :: l) = p +:+ pieces l.
Proof. unfold pieces. destruct l; cbn; [by rewrite str_app_nil_r|done]. Qed.

Lemma writePieces_open l u : rwClosed u = true → writePieces l u = rw_append (pieces l) u.
Proof.
  revert u. induction l as [|p l IH]; intros u Hc; [by rewrite rw_append_nil|].
  change (writePieces (p :: l) u) with (writePieces l (WriteBody p u)).
  rewrite WriteBody_open, IH by done. by rewrite rw_append_twice, pieces_cons.
Qed.

Abbreviation held u co enc be c buf := (mkCpw u co enc be c true false false false false None buf).
Abbreviation plainly u co enc be c hs := (mkCpw u co enc be c hs true true false false None "").
Abbreviation encoding u co enc be c hs e := (mkCpw u co enc be c hs true true true false (Some e) "").

(** Where a decision leads. *)
Definition decided (u : ResponseWriter) co enc be c hs buf : compressingResponseWriter :=
  let r := chosen co enc be c (rwHeader u) buf in
  let u := WriteHeader c (rw_set_header r.1 u) in
  if r.2 then
    let s := foldl encApply (acquireEncoder encoderPools enc, "") (if String.eqb buf "" then [] else [EncWrite buf]) in
    encoding (rw_append s.2 u) co enc be c hs s.1
  else plainly (if String.eqb buf "" then u else WriteBody buf u) co enc be c hs.

Lemma mayCompress_plain u co enc be c hs sent dec z hj e buf :
  mayCompress (mkCpw u co enc be c hs sent dec z hj e buf) = plain_body be c (rwHeader u).
Proof. unfold mayCompress, plain_body, cpHeader. cbn. by destruct be, (statusAllowsBody c), (String.eqb (hdr_get (rwHeader u) "Content-Encoding") ""). Qed.

Lemma hdr_get_values h n m : hdr_values h n = hdr_values m n → hdr_get h n = hdr_get m n.
Proof. unfold hdr_get. by intros ->. Qed.

Lemma vary_values h n : CanonicalHeaderKey n ≠ "Vary" → hdr_values (addVaryOnAcceptEncoding h) n = hdr_values h n.
Proof. intros Hn. unfold addVaryOnAcceptEncoding. destruct (variesOnAcceptEncoding h); [done|]. apply hdr_values_add_ne. by intros Heq; apply Hn. Qed.

Lemma declared_vary h : declaredContentLength (addVaryOnAcceptEncoding h) = declaredContentLength h.
Proof. unfold declaredContentLength. by rewrite (hdr_get_values (addVaryOnAcceptEncoding h) _ h) by (by apply vary_values). Qed.

Lemma sniffs_vary h buf : sniffs (addVaryOnAcceptEncoding h) buf = sniffs h buf.
Proof. unfold sniffs. by rewrite (hdr_get_values (addVaryOnAcceptEncoding h) _ h) by (by apply vary_values). Qed.

Lemma WriteHeader_final c u : rwClosed u = false → informational c = false → rwClosed (WriteHeader c u) = true.
Proof. intros Hc Hi. unfold WriteHeader. rewrite Hc. cbn. by rewrite Hi. Qed.

Lemma eligible_final co be c h buf : eligible co be c h buf = true → informational c = false.
Proof.
  unfold eligible, plain_body, statusAllowsBody, informational. rewrite !andb_true_iff. intros [[[[_ [[Hc _] _]] _] _] _].
  apply Z.leb_le in Hc. destruct (Z.leb_spec 100 c), (Z.leb_spec c 199); try done; lia.
Qed.

Lemma bodyAtLeast_large u h co enc be c hs sent dec z hj e buf :
  rwHeader u = addVaryOnAcceptEncoding h → bodyAtLeast (minLength co) (mkCpw u co enc be c hs sent dec z hj e buf) = large co h buf.
Proof. intros Hu. unfold bodyAtLeast, cpHeader. cbn. by rewrite Hu, declared_vary. Qed.

(** [decide] takes the step. *)
Lemma decide_step u co enc be c hs buf :
  rwClosed u = false → cpDecide encoderPools (mkCpw u co enc be c hs false false false false None buf) = decided u co enc be c hs buf.
Proof.
  intros Hopen. unfold cpDecide, decided, chosen. cbn [cpDecided]. unfold cp_flags. cbn [cpHeaderSeen cpSentHeader cpUnder cpOptions cpEncoding cpBodyExpected cpStatusCode cpCompressing cpHijacked cpEncoder cpBuffer].
  rewrite mayCompress_plain. cbn [cpHeader cpUnder cpBuffer cpOptions cpEncoding]. fold (sniffs (rwHeader u) buf).
  assert (Hset : rw_set_header (rwHeader u) u = u) by (by destruct u).
  assert (Hsent : ∀ h, flushBuffer (sendHeader (mkCpw (rw_set_header h u) co enc be c hs false true false false None buf)) =
    plainly (if String.eqb buf "" then WriteHeader c (rw_set_header h u) else WriteBody buf (WriteHeader c (rw_set_header h u))) co enc be c hs).
  { intros h. unfold sendHeader, flushBuffer, cp_under, cp_flags. cbn. destruct (String.eqb_spec buf "") as [->|]; reflexivity. }
  unfold eligible. destruct (plain_body be c (rwHeader u)) eqn:Hplain; cbn [andb].
  2: { cbn [fst snd]. rewrite <-Hsent, Hset. reflexivity. }
  unfold knownType, cp_edit. cbn [cpHeader cpUnder cpBuffer cpOptions cpEncoding cp_under].
  replace (if sniffs (rwHeader u) buf then if sniffs (rwHeader u) buf then DetectContentType buf else "" else hdr_get (rwHeader u) "Content-Type")
    with (if sniffs (rwHeader u) buf then DetectContentType buf else hdr_get (rwHeader u) "Content-Type") by (by destruct (sniffs (rwHeader u) buf)).
  destruct (compressibleContentType co _) eqn:Hct.
  2: { cbn [fst snd]. rewrite <-Hsent, Hset. reflexivity. }
  cp_simpl. rewrite (bodyAtLeast_large _ (rwHeader u)) by reflexivity. destruct (negb (String.eqb enc "") && large co (rwHeader u) buf) eqn:Hl.
  2: { exact (Hsent _). }
  assert (Hfinal : informational c = false) by (eapply (eligible_final co be c (rwHeader u) buf); unfold eligible; by rewrite Hplain).
  assert (Hstart : ∀ h, flushBuffer (sendHeader (startCompressing encoderPools (mkCpw (rw_set_header h u) co enc be c hs false true false false None buf))) =
    let s := foldl encApply (acquireEncoder encoderPools enc, "") (if String.eqb buf "" then [] else [EncWrite buf]) in
    encoding (rw_append s.2 (WriteHeader c (rw_set_header (encoded enc h) u))) co enc be c hs s.1).
  { intros h. unfold startCompressing, sendHeader, flushBuffer. cp_simpl. cbn [orb]. cp_simpl. change (rw_set_header _ (rw_set_header h u)) with (rw_set_header (encoded enc h) u).
    destruct (String.eqb_spec buf "") as [->|]; [cbn; by rewrite rw_append_nil|]. unfold writeDecided. cp_simpl. cbn [foldl].
    unfold encApply. cbn [fst snd]. destruct (encWrite buf _) as [e out]. cp_simpl. cbn [fst snd]. rewrite writePieces_open by (by apply WriteHeader_final). done. }
  cbn [fst snd]. unfold withSniffedType. rewrite sniffs_vary. unfold sniffs. destruct (_ && negb (String.eqb buf "")); cbn [andb]; [|exact (Hstart _)].
  destruct (String.eqb (DetectContentType buf) ""); exact (Hstart _).
Qed.

(** ** After the decision *)

Definition goes_on (o : write_op) : Prop := match o with OBody _ | OFlush => True | _ => False end.

Definition body_op (o : write_op) : string := match o with OBody p => p | _ => "" end.

Definition bodyOf (bs : list write_op) : string := pieces (body_op <$> bs).

Definition enc_op (o : write_op) : EncOp := match o with OBody p => EncWrite p | _ => EncFlush end.

Lemma bodyOf_cons o bs : bodyOf (o :: bs) = body_op o +:+ bodyOf bs.
Proof. apply pieces_cons. Qed.

Lemma plain_run bs u co enc be c :
  rwClosed u = true → Forall goes_on bs →
  foldl (cpOp encoderPools) (plainly u co enc be c true) bs = plainly (rw_append (bodyOf bs) u) co enc be c true.
Proof.
  intros Hc Hbs. revert u Hc. induction Hbs as [|o bs Ho _ IH]; intros u Hc; [by rewrite rw_append_nil|].
  rewrite bodyOf_cons. cbn [foldl]. destruct o as [h|s|p|]; try done; cbn [cpOp body_op].
  - unfold cpWrite, writeDecided. cp_simpl. rewrite WriteBody_open, IH by done. by rewrite rw_append_twice.
  - unfold cpFlush, flushDecided, FlushRW. cp_simpl. rewrite WriteHeader_closed, IH by done. done.
Qed.

Lemma enc_run bs u co enc be c e acc :
  rwClosed u = true → Forall goes_on bs →
  foldl (cpOp encoderPools) (encoding (rw_append acc u) co enc be c true e) bs =
  let s := foldl encApply (e, acc) (enc_op <$> bs) in encoding (rw_append s.2 u) co enc be c true s.1.
Proof.
  intros Hc Hbs. revert e acc. induction Hbs as [|o bs Ho _ IH]; intros e acc; [done|].
  rewrite fmap_cons. cbn [foldl]. destruct o as [h|s|p|]; try done; cbn [cpOp enc_op].
  - unfold cpWrite, writeDecided. cp_simpl. assert (Ha : encApply (e, acc) (EncWrite p) = ((encWrite p e).1, acc +:+ pieces (encWrite p e).2)) by (unfold encApply; cbn; by destruct (encWrite p e)).
    rewrite Ha. destruct (encWrite p e) as [e' out]. cp_simpl. cbn [fst snd].
    rewrite writePieces_open, rw_append_twice by done. apply IH.
  - unfold cpFlush, flushDecided, FlushRW. cp_simpl. assert (Ha : encApply (e, acc) (EncFlush) = ((encFlush e).1, acc +:+ pieces (encFlush e).2)) by (unfold encApply; cbn; by destruct (encFlush e)).
    rewrite Ha. destruct (encFlush e) as [e' out]. cp_simpl. cbn [fst snd].
    rewrite writePieces_open, WriteHeader_closed, rw_append_twice by done. apply IH.
Qed.

(** What the client is given: one header block with the chosen headers, and a
    body that is the handler's or decodes to it. *)
Definition delivered (u : ResponseWriter) (enc : string) (c : Z) (r : gmap string (list string) * bool) (body : string) (out : ResponseWriter) : Prop :=
  rwSent out = rwSent u ++ [(c, r.1, rwCookies u)] ∧ rwClosed out = true ∧
  ∃ sent, rwBody out = rwBody u +:+ sent ∧ if r.2 then encDecode enc sent = Some body else sent = body.

Context `{RS : !ResponseEncodersSpec}.

(** The rest of a response, once decided. *)
Lemma decided_run bs u co enc be c buf :
  rwClosed u = false → informational c = false → (enc = "" ∨ enc ∈ supportedEncodings) → Forall goes_on bs →
  delivered u enc c (chosen co enc be c (rwHeader u) buf) (buf +:+ bodyOf bs)
    (cpUnder (cpFinish encoderPools (foldl (cpOp encoderPools) (decided u co enc be c true buf) bs))).
Proof.
  intros Hopen Hc Henc Hbs. unfold decided. destruct (chosen co enc be c (rwHeader u) buf) as [h z] eqn:Hch. cbn [fst snd].
  assert (Hsent : rwSent (WriteHeader c (rw_set_header h u)) = rwSent u ++ [(c, h, rwCookies u)]) by (unfold WriteHeader; cbn; by rewrite Hopen).
  assert (Hcl : rwClosed (WriteHeader c (rw_set_header h u)) = true) by by apply WriteHeader_final.
  assert (Hbody : rwBody (WriteHeader c (rw_set_header h u)) = rwBody u) by (unfold WriteHeader; cbn; by rewrite Hopen).
  revert Hsent Hcl Hbody. generalize (WriteHeader c (rw_set_header h u)). intros v Hsent Hcl Hbody. destruct z.
  - set (s0 := foldl encApply (acquireEncoder encoderPools enc, "") (if String.eqb buf "" then [] else [EncWrite buf])).
    rewrite enc_run by done. cbn zeta. set (s := foldl encApply (s0.1, s0.2) (enc_op <$> bs)).
    assert (Hs : s = foldl encApply (acquireEncoder encoderPools enc, "") ((if String.eqb buf "" then [] else [EncWrite buf]) ++ (enc_op <$> bs))).
    { rewrite foldl_app. fold s0. by destruct s0. }
    unfold cpFinish, cpDecide, sendHeader. cp_simpl. cbn [orb]. rewrite writePieces_open, rw_append_twice by done.
    unfold delivered. cbn [fst snd rwSent rwClosed rwBody rw_append]. split; [done|]. split; [done|]. rewrite Hbody. eexists. split; [reflexivity|].
    assert (Hne : enc ∈ supportedEncodings).
    { destruct Henc as [->|]; [|done]. unfold chosen in Hch. destruct (eligible _ _ _ _ _); cbn in Hch; discriminate Hch. }
    rewrite Hs. unfold acquireEncoder. rewrite (enc_decodes enc _ _ Hne). f_equal. unfold encInput. rewrite fmap_app.
    assert (Happ : ∀ a b, pieces (a ++ b) = pieces a +:+ pieces b).
    { intros a b. induction a as [|x a IH]; [done|]. cbn [app]. by rewrite !pieces_cons, IH, str_app_assoc. }
    rewrite Happ. f_equal; [destruct (String.eqb_spec buf "") as [->|]; [done|reflexivity]|].
    unfold bodyOf. f_equal. rewrite <-list_fmap_compose. apply list_fmap_ext. intros i o Ho. apply list_elem_of_lookup_2 in Ho.
    apply (proj1 (Forall_forall _ _) Hbs) in Ho. by destruct o.
  - assert (Hlast : ∀ v, rwClosed v = true → cpUnder (cpFinish encoderPools (plainly v co enc be c true)) = v) by done.
    assert (Hv : rwClosed (if String.eqb buf "" then v else WriteBody buf v) = true) by (destruct (String.eqb buf ""); [done|by rewrite WriteBody_open]).
    rewrite plain_run, Hlast by done. destruct (String.eqb_spec buf "") as [->|]; [|rewrite WriteBody_open, rw_append_twice by done];
      unfold delivered; cbn; rewrite Hsent, Hcl, Hbody; repeat split; eexists; split; reflexivity.
Qed.

(** After early hints, nothing is encoded and no status gets through. *)
Lemma hinted_run rest u co enc be c :
  ∃ u', foldl (cpOp encoderPools) (plainly u co enc be c true) rest = plainly u' co enc be c true ∧ ends_200 u u' (bodyOf rest).
Proof.
  revert u. induction rest as [|o rest IH]; intros u; [exists u; split; [done|apply ends_200_end]|]. cbn [foldl]. rewrite bodyOf_cons.
  destruct o as [h|s|p|]; cbn [cpOp body_op].
  - destruct (IH (rw_set_header h u)) as (u' & Hrun & Hend). exists u'. split; [exact Hrun|exact Hend].
  - apply IH.
  - destruct (IH (WriteBody p u)) as (u' & Hrun & Hend). exists u'. split; [exact Hrun|by apply ends_200_body].
  - destruct (IH (FlushRW u)) as (u' & Hrun & Hend). exists u'. split; [exact Hrun|by apply ends_200_flush].
Qed.

(** ** Up to the decision *)

Lemma early_false co enc be c h :
  early co enc be c h = false →
  plain_body be c h = true ∧
  (String.eqb (hdr_get h "Content-Type") "" ||
   negb (negb (compressibleContentType co (hdr_get h "Content-Type")) || String.eqb enc "" || (0 <=? declaredContentLength h))) = true.
Proof. unfold early. intros [H1%negb_false_iff H2]%orb_false_iff. split; [done|]. by destruct (String.eqb (hdr_get h "Content-Type") ""), (negb _ || _ || _). Qed.

(** [WriteHeader] decides early, or holds the headers. *)
Lemma announce_step u co enc be c c0 :
  rwClosed u = false →
  cpWriteHeader encoderPools c (mkCpw u co enc be c0 false false false false false None "") =
  if early co enc be c (rwHeader u) then decided u co enc be c true "" else held u co enc be c "".
Proof.
  intros Hopen. unfold cpWriteHeader, decideFromHeaders. cp_simpl. rewrite mayCompress_plain, decide_step by done. unfold early.
  destruct (plain_body be c (rwHeader u)); [|done]. cbn [negb orb]. by destruct (String.eqb (hdr_get (rwHeader u) "Content-Type") "").
Qed.

(** An informational status is taken for the final one, which has no body. *)
Lemma hinted_step u co enc be c c0 :
  rwClosed u = false → informational c = true →
  cpWriteHeader encoderPools c (mkCpw u co enc be c0 false false false false false None "") = plainly (WriteHeader c u) co enc be c true.
Proof.
  intros Hopen Hc. assert (Hplain : plain_body be c (rwHeader u) = false).
  { unfold plain_body. assert (statusAllowsBody c = false) as ->; [|by rewrite andb_false_r].
    unfold informational in Hc. rewrite !andb_true_iff, Z.leb_le in Hc. destruct Hc as [[_ Hc%Z.leb_le] _].
    unfold statusAllowsBody. by rewrite (proj2 (Z.leb_gt 200 c)) by lia. }
  rewrite announce_step by done. unfold early, decided, chosen, eligible. rewrite Hplain. cbn. by destruct u.
Qed.

Lemma minLength_pos co : 0 < minLength co.
Proof. unfold minLength, DefaultCompressionMinLength. destruct (Z.leb_spec (MinLength co) 0); lia. Qed.

(** Held back, until enough has accumulated, a flush, or the end. *)
Lemma held_run bs u co enc be c buf :
  rwClosed u = false → informational c = false → (enc = "" ∨ enc ∈ supportedEncodings) → Forall goes_on bs →
  delivered u enc c (chosen co enc be c (rwHeader u) (seen (minLength co) buf bs)) (buf +:+ bodyOf bs)
    (cpUnder (cpFinish encoderPools (foldl (cpOp encoderPools) (held u co enc be c buf) bs))).
Proof.
  intros Hopen Hc Henc Hbs. revert buf. induction Hbs as [|o bs Ho Hbs IH]; intros buf.
  { change (foldl _ _ []) with (held u co enc be c buf). cbn [seen].
    assert (Hfin : cpFinish encoderPools (held u co enc be c buf) = cpFinish encoderPools (decided u co enc be c true buf)).
    { unfold cpFinish. cp_simpl. rewrite decide_step by done. unfold decided. by destruct (chosen _ _ _ _ _ _).2. }
    rewrite Hfin. by apply (decided_run []). }
  rewrite bodyOf_cons. cbn [foldl]. destruct o as [h|s|p|]; try done; cbn [cpOp body_op seen].
  - unfold cpWrite. cp_simpl. rewrite decide_step, str_app_assoc by done. destruct (minLength co <=? str_len (buf +:+ p)); [by apply decided_run|apply IH].
  - unfold cpFlush. cp_simpl. destruct (String.eqb_spec buf "") as [->|]; [apply IH|].
    rewrite decide_step by done. pose proof (decided_run (OFlush :: bs) u co enc be c buf Hopen Hc Henc) as Hrun.
    rewrite bodyOf_cons in Hrun. cbn [foldl cpOp] in Hrun. assert (Hfl : cpFlush encoderPools (decided u co enc be c true buf) = flushDecided (decided u co enc be c true buf)).
    { unfold decided. by destruct (chosen _ _ _ _ _ _).2. }
    rewrite <-Hfl. apply Hrun. by constructor.
Qed.

(** A status is announced. *)
Lemma announced_run bs u co enc be c c0 :
  rwClosed u = false → informational c = false → (enc = "" ∨ enc ∈ supportedEncodings) → Forall goes_on bs →
  delivered u enc c (chosen co enc be c (rwHeader u) (evidence co enc be c (rwHeader u) bs)) (bodyOf bs)
    (cpUnder (cpFinish encoderPools (foldl (cpOp encoderPools)
       (cpWriteHeader encoderPools c (mkCpw u co enc be c0 false false false false false None "")) bs))).
Proof.
  intros Hopen Hc Henc Hbs. rewrite announce_step by done. unfold evidence. destruct (early co enc be c (rwHeader u)).
  - by apply (decided_run bs u co enc be c "").
  - by apply (held_run bs u co enc be c "").
Qed.

(** None is: the first write announces 200, and an empty response is decided
    at its end. *)
Lemma unannounced_run bs u co enc be :
  rwClosed u = false → (enc = "" ∨ enc ∈ supportedEncodings) → Forall goes_on bs →
  delivered u enc 200 (chosen co enc be 200 (rwHeader u) (evidence co enc be 200 (rwHeader u) bs)) (bodyOf bs)
    (cpUnder (cpFinish encoderPools (foldl (cpOp encoderPools) (newCompressing co enc be u) bs))).
Proof.
  intros Hopen Henc Hbs. induction Hbs as [|o bs Ho Hbs IH].
  - replace (cpUnder _) with (cpUnder (cpFinish encoderPools (foldl (cpOp encoderPools) (decided u co enc be 200 true "") []))).
    + replace (evidence co enc be 200 (rwHeader u) []) with "" by (unfold evidence; by destruct (early _ _ _ _ _)). by apply decided_run.
    + cbn [foldl]. unfold cpFinish, newCompressing. cp_simpl. rewrite decide_step by done. unfold decided. by destruct (chosen _ _ _ _ _ _).2.
  - destruct o as [h|s|p|]; try done.
    + pose proof (announced_run (OBody p :: bs) u co enc be 200 200 Hopen eq_refl Henc (Forall_cons_2 _ _ _ Ho Hbs)) as Hrun.
      cbn [foldl cpOp] in Hrun |- *. unfold newCompressing. unfold cpWrite. cbn [cpHeaderSeen].
      unfold cpWrite in Hrun. rewrite announce_step in Hrun |- * by done.
      destruct (early _ _ _ _ _); [|exact Hrun]. unfold decided in Hrun |- *. destruct (chosen _ _ _ _ _ "").2; exact Hrun.
    + rewrite bodyOf_cons. replace (evidence co enc be 200 (rwHeader u) (OFlush :: bs)) with (evidence co enc be 200 (rwHeader u) bs) by done. exact IH.
Qed.

End decision.

(** ** The header block *)

Section headers.
Context `{RE : ResponseEncoders}.

(** The headers that describe how the body is framed and encoded. *)
Definition framing : list string := ["Vary"; "Content-Encoding"; "Content-Length"; "Accept-Ranges"; "Etag"; "Content-Type"].

(** No validator that promises identical bytes. *)
Definition weakly_tagged (h : gmap string (list string)) : Prop := hdr_get h "ETag" = "" ∨ HasPrefix (hdr_get h "ETag") "W/" = true.

Lemma weakenETag_values h n : CanonicalHeaderKey n ≠ "Etag" → hdr_values (weakenETag h) n = hdr_values h n.
Proof. intros Hn. unfold weakenETag. case_match; [done|]. apply hdr_values_set_ne. by intros Heq; apply Hn. Qed.

Lemma weakenETag_weak h : weakly_tagged (weakenETag h).
Proof.
  unfold weakly_tagged, weakenETag. destruct (_ || _) eqn:E.
  - apply orb_true_iff in E as [E|E]; [left; by apply String.eqb_eq|by right].
  - right. unfold hdr_get at 1. rewrite hdr_values_set_eq. by destruct (hdr_get h "ETag").
Qed.

Lemma varies_values h m : hdr_values h "Vary" = hdr_values m "Vary" → variesOnAcceptEncoding h = variesOnAcceptEncoding m.
Proof. unfold variesOnAcceptEncoding. by intros ->. Qed.

Lemma addVary_varies h : variesOnAcceptEncoding (addVaryOnAcceptEncoding h) = true.
Proof.
  unfold addVaryOnAcceptEncoding. destruct (variesOnAcceptEncoding h) eqn:Hv; [done|].
  unfold variesOnAcceptEncoding. rewrite hdr_values_add_eq, existsb_app. apply orb_true_iff. right. vm_compute. reflexivity.
Qed.

Lemma sniffed_values h buf n : CanonicalHeaderKey n ≠ "Content-Type" ∨ hdr_get h "Content-Type" ≠ "" → hdr_values (withSniffedType h buf) n = hdr_values h n.
Proof.
  intros Hn. unfold withSniffedType, sniffs. destruct (String.eqb_spec (hdr_get h "Content-Type") "") as [E|]; [|done]. destruct Hn as [Hn|]; [|done].
  case_match; [|done]. apply hdr_values_set_ne. by intros Heq; apply Hn.
Qed.

Lemma encoded_values enc h n : CanonicalHeaderKey n ∉ ["Content-Encoding"; "Content-Length"; "Accept-Ranges"; "Etag"] → hdr_values (encoded enc h) n = hdr_values h n.
Proof.
  rewrite !not_elem_of_cons. intros (H1 & H2 & H3 & H4 & _). unfold encoded.
  rewrite weakenETag_values by done. rewrite hdr_values_del_ne by (intros Heq; by apply H3). rewrite hdr_values_del_ne by (intros Heq; by apply H2).
  apply hdr_values_set_ne. intros Heq. by apply H1.
Qed.

Lemma chosen_encoded co enc be c h buf h' :
  chosen co enc be c h buf = (h', true) →
  enc ≠ "" ∧ plain_body be c h = true ∧ hdr_get h' "Content-Encoding" = enc ∧ hdr_values h' "Content-Length" = [] ∧ hdr_values h' "Accept-Ranges" = [] ∧
  variesOnAcceptEncoding h' = true ∧ weakly_tagged h' ∧ (∀ n, CanonicalHeaderKey n ∉ framing → hdr_values h' n = hdr_values h n) ∧
  (hdr_get h "Content-Type" ≠ "" → hdr_values h' "Content-Type" = hdr_values h "Content-Type").
Proof.
  unfold chosen. destruct (eligible co be c h buf) eqn:He; [|done]. destruct (String.eqb_spec enc "") as [|Hne]; [done|]. cbn [negb andb].
  destruct (large co h buf); [|done]. intros [= <-]. split; [done|]. unfold eligible in He. apply andb_true_iff in He as [He _]. split; [done|].
  assert (Het : ∀ n, CanonicalHeaderKey n ≠ "Etag" → ∀ m, hdr_values (weakenETag m) n = hdr_values m n) by (intros; by apply weakenETag_values).
  split; [unfold hdr_get, encoded; by rewrite Het, !hdr_values_del_ne, hdr_values_set_eq by done|].
  split; [unfold encoded; by rewrite Het, hdr_values_del_ne, hdr_values_del_eq by done|].
  split; [unfold encoded; by rewrite Het, hdr_values_del_eq by done|].
  split; [|split; [apply weakenETag_weak|split]].
  - rewrite <-(addVary_varies h). apply varies_values. rewrite encoded_values, sniffed_values; [done|by left|]. rewrite !not_elem_of_cons. repeat split; try done. set_solver.
  - intros n Hn. unfold framing in Hn. rewrite !not_elem_of_cons in Hn. destruct Hn as (H1 & H2 & H3 & H4 & H5 & H6 & _).
    rewrite encoded_values, sniffed_values, vary_values; [done|done|by left|]. rewrite !not_elem_of_cons. repeat split; try done. set_solver.
  - intros Hct. rewrite encoded_values, sniffed_values; [by apply vary_values| |].
    + right. by rewrite (hdr_get_values (addVaryOnAcceptEncoding h) _ h) by (by apply vary_values).
    + rewrite !not_elem_of_cons. repeat split; try done. set_solver.
Qed.

Lemma chosen_plain co enc be c h buf h' :
  chosen co enc be c h buf = (h', false) → ∀ n, CanonicalHeaderKey n ≠ "Vary" → hdr_values h' n = hdr_values h n.
Proof. unfold chosen. destruct (eligible _ _ _ _ _); [destruct (_ && _)|]; intros [= <-] n Hn; by rewrite ?vary_values. Qed.

(** Whether the header block says that the response depends on the client's
    encodings does not depend on them. *)
Lemma chosen_varies co enc be c h bs :
  let r := chosen co enc be c h (evidence co enc be c h bs) in
  if eligible co be c h (seen (minLength co) "" bs) then variesOnAcceptEncoding r.1 = true else r = (h, false).
Proof.
  set (b := seen (minLength co) "" bs). set (b' := evidence co enc be c h bs).
  assert (He : eligible co be c h b' = eligible co be c h b).
  { unfold b', evidence, early, eligible. destruct (plain_body be c h); [|done]. cbn [negb orb andb].
    destruct (negb (String.eqb (hdr_get h "Content-Type") "")) eqn:Hct; cbn [andb]; [|done].
    unfold knownType, sniffs. apply negb_true_iff in Hct. rewrite Hct. done. }
  cbn zeta. destruct (chosen co enc be c h b') as [h' []] eqn:Hch.
  - apply chosen_encoded in Hch as Hc. destruct Hc as (_ & _ & _ & _ & _ & Hv & _). unfold chosen in Hch. rewrite He in Hch. by destruct (eligible co be c h b).
  - unfold chosen in Hch. rewrite He in Hch. destruct (eligible co be c h b); [|by injection Hch as <-].
    destruct (_ && _); [done|]. injection Hch as <-. apply addVary_varies.
Qed.
End headers.

(** ** Whole responses *)

Section responses.
Context `{RE : ResponseEncoders} {RS : ResponseEncodersSpec} `{F64 : Float64}.

Definition announces (o : write_op) : Prop := match o with OHeader _ | OFlush => True | _ => False end.

(** A handler that edits the headers, announces a final status or does not, and
    then writes; it may flush at any time. *)
Definition well_ordered (ops : list write_op) : Prop :=
  ∃ hs st bs, ops = hs ++ st ++ bs ∧ Forall announces hs ∧ (st = [] ∨ ∃ c, st = [OStatus c] ∧ informational c = false) ∧ Forall goes_on bs.

(** A handler that begins with an informational status, such as early hints,
    and goes on in any way. *)
Definition hinted_first (c : Z) (ops : list write_op) : Prop :=
  ∃ hs rest, ops = hs ++ OStatus c :: rest ∧ Forall announces hs ∧ informational c = true.

(** The handler writing to the client itself, without its flushes. *)
Definition unflushed (ops : list write_op) : list write_op := List.filter (λ o, match o with OFlush => false | _ => true end) ops.

Definition directly_served (ops : list write_op) (u : ResponseWriter) : ResponseWriter := FlushRW (foldl plainOp u (unflushed ops)).

Lemma unflushed_app a b : unflushed (a ++ b) = unflushed a ++ unflushed b.
Proof. apply List.filter_app. Qed.

Lemma direct_bodies bs u : rwClosed u = true → Forall goes_on bs → foldl plainOp u (unflushed bs) = rw_append (bodyOf bs) u.
Proof.
  intros Hc Hbs. revert u Hc. induction Hbs as [|o bs Ho _ IH]; intros u Hc; [by rewrite rw_append_nil|]. rewrite bodyOf_cons.
  destruct o; try done; cbn [body_op]; [|exact (IH u Hc)].
  change (foldl plainOp u (unflushed (OBody b :: bs))) with (foldl plainOp (WriteBody b u) (unflushed bs)).
  rewrite WriteBody_open, IH by done. apply rw_append_twice.
Qed.

Lemma direct_unannounced bs u :
  rwClosed u = false → Forall goes_on bs → FlushRW (foldl plainOp u (unflushed bs)) = rw_append (bodyOf bs) (WriteHeader 200 u).
Proof.
  intros Hu Hbs. assert (Hcl : rwClosed (WriteHeader 200 u) = true) by by apply WriteHeader_final.
  induction Hbs as [|o bs Ho Hbs IH]; [by rewrite rw_append_nil|]. rewrite bodyOf_cons. destruct o; try done.
  change (foldl plainOp u (unflushed (OBody b :: bs))) with (foldl plainOp (rw_append b (WriteHeader 200 u)) (unflushed bs)).
  rewrite direct_bodies, rw_append_twice by done. unfold FlushRW. by rewrite WriteHeader_closed.
Qed.

Lemma heads_run hs u :
  Forall announces hs → ∃ h, foldl plainOp u (unflushed hs) = rw_set_header h u ∧
    ∀ pools co enc be, foldl (cpOp pools) (newCompressing co enc be u) hs = newCompressing co enc be (rw_set_header h u).
Proof.
  intros Hhs. revert u. induction Hhs as [|o hs Ho _ IH]; intros u; [exists (rwHeader u); by destruct u|].
  destruct o as [h|c|b|]; try done.
  destruct (IH (rw_set_header h u)) as (h' & H1 & H2). by exists h'.
Qed.

(** What the chosen encoding may be. *)
Lemma negotiated co header :
  Forall (λ e, e ∈ supportedEncodings) (Encodings co) →
  negotiate co header = "" ∨ negotiate co header ∈ Encodings co ∧ negotiate co header ∈ supportedEncodings.
Proof.
  intros Hs. unfold negotiate. destruct (_ || _); [by left|]. generalize (parseAcceptEncoding header). intros a.
  assert (Hfold : ∀ encs, (∀ e, e ∈ encs → e ∈ Encodings co) → ∀ b, b.1 = "" ∨ b.1 ∈ Encodings co →
    let e := (foldl (negotiate_step a) b encs).1 in e = "" ∨ e ∈ Encodings co).
  { induction encs as [|x encs IH]; intros Hin b Hb; [exact Hb|]. apply IH; [set_solver|]. unfold negotiate_step.
    destruct (quality_of a x) as [q|]; [|done]. destruct (f_gt q b.2); [right; apply Hin; set_solver|done]. }
  destruct (Hfold (Encodings co) ltac:(done) ("", f_zero) ltac:(by left)) as [?|Hin]; [by left|right]. split; [done|].
  by apply (proj1 (Forall_forall _ _) Hs).
Qed.

(** The options of a service are validated. *)
Lemma validated_supported co :
  ValidateCompression co = Ok tt → Forall (λ e, e ∈ supportedEncodings) (Encodings (NormalizeCompression co)).
Proof.
  unfold ValidateCompression. destruct (CompressionEnabled (NormalizeCompression co)) eqn:He; cbn [negb].
  - destruct (List.find _ _) as [x|] eqn:Hf; [done|]. intros _. apply Forall_forall. intros e He'. rewrite list_elem_of_In in He'.
    pose proof (List.find_none _ _ Hf e He') as Hn. apply negb_false_iff, str_contains_spec in Hn. exact Hn.
  - intros _. unfold CompressionEnabled in He. apply negb_false_iff, Nat.eqb_eq, length_zero_iff_nil in He. rewrite He. by apply Forall_nil.
Qed.

(** A response, and what becomes of it for any client. *)
Lemma served co ops u :
  well_ordered ops → rwClosed u = false → Forall (λ e, e ∈ supportedEncodings) (Encodings co) →
  ∃ c h0 bs, rwSent (directly_served ops u) = rwSent u ++ [(c, h0, rwCookies u)] ∧ rwBody (directly_served ops u) = rwBody u +:+ bodyOf bs ∧
    ∀ pools r, let enc := negotiate co (hdr_get (ReqHeader r) "Accept-Encoding") in let be := negb (String.eqb (Method r) MethodHead) in
      delivered u enc c (chosen co enc be c h0 (evidence co enc be c h0 bs)) (bodyOf bs) (ServeCompressed pools co r ops u).
Proof.
  intros (hs & st & bs & -> & Hhs & Hst & Hbs) Hu Hsup.
  destruct (heads_run hs u Hhs) as (h0 & Hdirect & Hrun). unfold directly_served. rewrite !unflushed_app, !foldl_app, Hdirect.
  set (u0 := rw_set_header h0 u) in *. assert (Hu0 : rwClosed u0 = false) by done.
  assert (Henc : ∀ header, negotiate co header = "" ∨ negotiate co header ∈ supportedEncodings) by (intros header; destruct (negotiated co header Hsup) as [?|[_ ?]]; auto).
  assert (Hopened : ∀ c, informational c = false → rwClosed (WriteHeader c u0) = true) by (intros c Hc; by apply WriteHeader_final).
  assert (Hsent : ∀ c, rwSent (WriteHeader c u0) = rwSent u ++ [(c, h0, rwCookies u)] ∧ rwBody (WriteHeader c u0) = rwBody u).
  { intros c. unfold WriteHeader. rewrite Hu0. done. }
  destruct Hst as [->|(c & -> & Hc)].
  - exists 200, h0, bs. destruct (Hsent 200) as [Hs Hb]. change (unflushed []) with (@nil write_op). cbn [foldl]. rewrite direct_unannounced by done.
    cbn [rwSent rwBody rw_append]. rewrite Hs, Hb. split; [done|]. split; [done|]. intros pools r. unfold ServeCompressed.
    rewrite !foldl_app, Hrun. by apply (unannounced_run pools bs u0).
  - exists c, h0, bs. destruct (Hsent c) as [Hs Hb]. change (unflushed [OStatus c]) with [OStatus c]. cbn [foldl plainOp].
    rewrite direct_bodies by auto. unfold FlushRW. rewrite WriteHeader_closed by (cbn; auto). cbn [rwSent rwBody rw_append]. rewrite Hs, Hb.
    split; [done|]. split; [done|]. intros pools r. unfold ServeCompressed. rewrite !foldl_app, Hrun. by apply (announced_run pools bs u0).
Qed.

(** A response that begins with early hints. *)
Lemma served_hinted co ops u c pools r :
  hinted_first c ops → rwClosed u = false →
  let out := FlushRW (ServeCompressed pools co r ops u) in
  sent_statuses out = sent_statuses u ++ [c; 200] ∧ rwBody out = rwBody u +:+ bodyOf ops.
Proof.
  intros (hs & rest & -> & Hhs & Hc) Hu out. unfold out, ServeCompressed. clear out.
  destruct (heads_run hs u Hhs) as (h0 & _ & Hrun). rewrite foldl_app, Hrun. cbn [foldl cpOp]. unfold newCompressing. rewrite hinted_step by done.
  destruct (hinted_run pools rest (WriteHeader c (rw_set_header h0 u)) co (negotiate co (hdr_get (ReqHeader r) "Accept-Encoding")) (negb (String.eqb (Method r) MethodHead)) c)
    as (u' & -> & Hst & Hb).
  change (cpUnder (cpFinish pools (mkCpw u' _ _ _ c true true true false false None ""))) with u'.
  assert (Hbody : bodyOf (hs ++ OStatus c :: rest) = bodyOf rest).
  { clear -Hhs. induction Hhs as [|o hs Ho _ IH]; cbn [app]; [by rewrite bodyOf_cons|]. rewrite bodyOf_cons, IH. by destruct o. }
  unfold WriteHeader in Hst, Hb. cbn in Hst, Hb. rewrite Hu in Hst, Hb. cbn in Hst, Hb. rewrite Hc in Hst. cbn in Hst.
  rewrite Hst, Hb, Hbody. split; [|done]. unfold sent_statuses. cbn. rewrite fmap_app, <-app_assoc. done.
Qed.

(** ** Theorems *)

(** C28: a client of a compressing service gets the response the handler wrote.
    There is one header block, with the handler's status and every header that
    does not describe the framing; either the body is the handler's byte for
    byte and nothing but [Vary] is touched, or the body decodes to it by the
    [Content-Encoding] announced, which is the one negotiated with the client
    among those offered, nothing had encoded it before, no length or range
    support of the plain body is left, the declared type stays, the validator
    is not a strong one, and caches are told that the response varies.  This is
    for a handler that sets its headers before its status and that before its
    body.  One that begins with an informational status is taken to have answered
    with it: the client is told 200 after it, whatever the handler's own status,
    and gets the bytes as they are. *)
Theorem compression_transparent co ops u pools r :
  rwClosed u = false → Forall (λ e, e ∈ supportedEncodings) (Encodings co) →
  let direct := directly_served ops u in
  let out := ServeCompressed pools co r ops u in
  (well_ordered ops → ∃ c h0 h body sent,
    rwSent direct = rwSent u ++ [(c, h0, rwCookies u)] ∧ rwBody direct = rwBody u +:+ body ∧
    rwSent out = rwSent u ++ [(c, h, rwCookies u)] ∧ rwBody out = rwBody u +:+ sent ∧
    (∀ n, CanonicalHeaderKey n ∉ framing → hdr_values h n = hdr_values h0 n) ∧
    (sent = body ∧ (∀ n, CanonicalHeaderKey n ≠ "Vary" → hdr_values h n = hdr_values h0 n) ∨
     let enc := hdr_get h "Content-Encoding" in
     enc = negotiate co (hdr_get (ReqHeader r) "Accept-Encoding") ∧ enc ∈ Encodings co ∧ encDecode enc sent = Some body ∧
     Method r ≠ MethodHead ∧ hdr_get h0 "Content-Encoding" = "" ∧ hdr_get h0 "Content-Range" = "" ∧
     hdr_values h "Content-Length" = [] ∧ hdr_values h "Accept-Ranges" = [] ∧
     (hdr_get h0 "Content-Type" ≠ "" → hdr_values h "Content-Type" = hdr_values h0 "Content-Type") ∧
     weakly_tagged h ∧ variesOnAcceptEncoding h = true)) ∧
  ∀ c, hinted_first c ops →
    sent_statuses (FlushRW out) = sent_statuses u ++ [c; 200] ∧ rwBody (FlushRW out) = rwBody u +:+ bodyOf ops.
Proof.
  intros Hu Hsup direct out. split; [intros Hops|intros c Hc; by apply served_hinted].
  destruct (served co ops u Hops Hu Hsup) as (c & h0 & bs & Hs & Hb & Hout).
  specialize (Hout pools r). cbn zeta in Hout. revert Hout. set (enc := negotiate co (hdr_get (ReqHeader r) "Accept-Encoding")).
  destruct (chosen co enc _ c h0 _) as [h z] eqn:Hch. intros (Hsent & _ & sent & Hbody & Hz). cbn [fst snd] in Hsent, Hz.
  exists c, h0, h, (bodyOf bs), sent. split; [exact Hs|]. split; [exact Hb|]. split; [exact Hsent|]. split; [exact Hbody|]. destruct z.
  - apply chosen_encoded in Hch as (Hne & Hplain & Hence & Hcl & Har & Hv & Hw & Hkeep & Hct). split; [exact Hkeep|]. right. cbn zeta. rewrite Hence.
    destruct (negotiated co (hdr_get (ReqHeader r) "Accept-Encoding") Hsup) as [Heq|[Hin _]]; [by destruct Hne|]. fold enc in Hin.
    unfold plain_body in Hplain. rewrite !andb_true_iff, !String.eqb_eq, negb_true_iff, String.eqb_neq in Hplain. destruct Hplain as [[[Hm _] Hce] Hcr].
    repeat split; done.
  - split; [|left; split; [exact Hz|by eapply chosen_plain]]. intros n Hn. eapply chosen_plain; [exact Hch|]. intros Heq. apply Hn. rewrite Heq. apply list_elem_of_In. cbn. auto.
Qed.

(** C29: a cache that keys on [Vary] never serves one client's encoding to
    another: if two clients get different header blocks or different bytes for
    the same response, both are told that it varies on [Accept-Encoding]. *)
Theorem representations_keyed co ops u pools1 pools2 r1 r2 :
  well_ordered ops → rwClosed u = false → Forall (λ e, e ∈ supportedEncodings) (Encodings co) →
  (Method r1 = MethodHead ↔ Method r2 = MethodHead) →
  let out1 := ServeCompressed pools1 co r1 ops u in
  let out2 := ServeCompressed pools2 co r2 ops u in
  (rwSent out1 = rwSent out2 ∧ rwBody out1 = rwBody out2) ∨
  ∃ c h1 h2, rwSent out1 = rwSent u ++ [(c, h1, rwCookies u)] ∧ rwSent out2 = rwSent u ++ [(c, h2, rwCookies u)] ∧
    variesOnAcceptEncoding h1 = true ∧ variesOnAcceptEncoding h2 = true.
Proof.
  intros Hops Hu Hsup Hm out1 out2. destruct (served co ops u Hops Hu Hsup) as (c & h0 & bs & _ & _ & Hout).
  pose proof (Hout pools1 r1) as (Hs1 & _ & sent1 & Hb1 & Hz1). pose proof (Hout pools2 r2) as (Hs2 & _ & sent2 & Hb2 & Hz2). fold out1 in Hs1, Hb1. fold out2 in Hs2, Hb2.
  assert (Hbe : negb (String.eqb (Method r2) MethodHead) = negb (String.eqb (Method r1) MethodHead)).
  { f_equal. destruct (String.eqb_spec (Method r1) MethodHead), (String.eqb_spec (Method r2) MethodHead); tauto. }
  rewrite Hbe in Hs2, Hz2. revert Hs1 Hz1 Hs2 Hz2. generalize (negb (String.eqb (Method r1) MethodHead)).
  generalize (negotiate co (hdr_get (ReqHeader r1) "Accept-Encoding")), (negotiate co (hdr_get (ReqHeader r2) "Accept-Encoding")). intros e1 e2 be Hs1 Hz1 Hs2 Hz2.
  pose proof (chosen_varies co e1 be c h0 bs) as Hv1. pose proof (chosen_varies co e2 be c h0 bs) as Hv2. cbn zeta in Hv1, Hv2.
  destruct (eligible co be c h0 (seen (minLength co) "" bs)).
  - right. eexists c, _, _. split; [exact Hs1|]. split; [exact Hs2|]. split; [exact Hv1|exact Hv2].
  - left. rewrite Hv1 in Hs1, Hz1. rewrite Hv2 in Hs2, Hz2. cbn in Hs1, Hz1, Hs2, Hz2. split; congruence.
Qed.
End responses.

(** ** Examples *)

Module CompressWriterExamples.

(** A format: the bytes between brackets.  Its encoder keeps what it is given
    until it is flushed or closed. *)
Definition bracket (s : bool * string) : list string := (if s.1 then [] else ["<"]) ++ [s.2].

Fixpoint unclose (s : string) : option string :=
  match s with
  | "" => None
  | String c "" => if Ascii.eqb c ">" then Some "" else None
  | String c s => String c <$> unclose s
  end.

#[local] Instance brackets : ResponseEncoders := {|
  responseEncoder := bool * string;
  encReset _ _ := (false, "");
  encWrite data s := ((s.1, s.2 +:+ data), []);
  encFlush s := ((true, ""), bracket s);
  encClose s := bracket s ++ [">"];
  encDecode _ s := match s with String "<" s => unclose s | _ => None end;
  DetectContentType _ := "text/plain; charset=utf-8" |}.

Lemma unclose_closed s : unclose (s +:+ ">") = Some s.
Proof. induction s as [|c s IH]; [done|]. cbn [String.append unclose]. rewrite IH. by destruct s. Qed.

#[local] Instance brackets_spec : ResponseEncodersSpec.
Proof.
  intros enc e ops _. set (s := foldl encApply _ ops). cbn zeta.
  assert (Hinv : ∃ flushed, s.2 = (if s.1.1 then "<" +:+ flushed else "") ∧ (s.1.1 = false → flushed = "") ∧ flushed +:+ s.1.2 = encInput ops).
  { subst s. induction ops as [|o ops IH] using rev_ind; [by exists ""|]. rewrite foldl_app. destruct IH as (fl & H2 & H1 & Hi).
    destruct (foldl encApply _ ops) as [[st pend] acc]. cbn in H1, H2, Hi. unfold encInput in *. rewrite fmap_app.
    assert (Happ : ∀ a b, pieces (a ++ [b]) = pieces a +:+ b).
    { induction a as [|x a IH]; intros b; [done|]. cbn [app]. by rewrite !pieces_cons, IH, str_app_assoc. }
    cbn [fmap list_fmap]. rewrite Happ, <-Hi. subst acc. destruct o as [p|]; cbn.
    - exists fl. split; [by destruct st; rewrite str_app_nil_r|]. split; [done|]. apply str_app_assoc.
    - exists (fl +:+ pend). rewrite !str_app_nil_r. split; [|done]. destruct st; [done|]. by rewrite H1. }
  destruct Hinv as (fl & -> & Hf & Hi). destruct s as [[st pend] acc]. cbn in *. rewrite <-Hi. destruct st; cbn.
  - by rewrite str_app_assoc, unclose_closed.
  - rewrite Hf by done. apply unclose_closed.
Qed.

#[local] Existing Instance CompressionExamples.milli_float.

Definition parked : string → responseEncoder := λ _, (true, "left over").
Definition service : CompressionOptions := mkCompression ["br"; "gzip"] 8 [].
Definition client (accepts : string) : Request :=
  mkRequest "GET" "app.example.com" "/" "" "" false true "203.0.113.9:4711" {["Accept-Encoding" := [accepts]]} [] 0 None false false.
Definition html : gmap string (list string) := {["Content-Type" := ["text/html"]; "Etag" := [String "034" "v1"]]}.
Definition page : list write_op := [OHeader html; OStatus 404; OBody "not "; OBody "found"; OFlush; OBody "."].

Example streamed :
  let out := ServeCompressed parked service (client "gzip, br;q=0.5") page newRW in
  (rwBody out, (λ b, (b.1.1, hdr_get b.1.2 "Content-Encoding", hdr_get b.1.2 "ETag")) <$> rwSent out) =
  ("<not found.>", [(404, "gzip", "W/" +:+ String "034" "v1")]).
Proof. vm_compute. reflexivity. Qed.

Lemma page_ordered : well_ordered page.
Proof.
  exists [OHeader html], [OStatus 404], [OBody "not "; OBody "found"; OFlush; OBody "."].
  split; [done|]. split; [repeat constructor|]. split; [right; by exists 404|repeat constructor].
Qed.

Lemma service_supported : Forall (λ e, e ∈ supportedEncodings) (Encodings service).
Proof. apply Forall_cons. split; [set_solver|]. apply Forall_cons. split; [set_solver|]. by apply Forall_nil. Qed.

Definition hints : list write_op := [OStatus 103; OStatus 404; OBody "no"].

Lemma compression_transparent_witness :
  (∃ h, rwSent (ServeCompressed parked service (client "gzip") page newRW) = [(404, h, [])] ∧ variesOnAcceptEncoding h = true ∧
    encDecode (hdr_get h "Content-Encoding") (rwBody (ServeCompressed parked service (client "gzip") page newRW)) = Some "not found.") ∧
  sent_statuses (FlushRW (ServeCompressed parked service (client "gzip") hints newRW)) = [103; 200].
Proof.
  split.
  - destruct (proj1 (compression_transparent service page newRW parked (client "gzip") eq_refl service_supported) page_ordered)
      as (c & h0 & h & body & sent & Hs0 & Hb0 & Hs & Hb & _ & Hcase).
    vm_compute in Hb0. vm_compute in Hs0. injection Hs0 as Hc Hh0. cbn in Hs. rewrite <-Hc in Hs. exists h. split; [exact Hs|].
    destruct Hcase as [[Hsent _]|(_ & _ & Hdec & _ & _ & _ & _ & _ & _ & _ & Hv)].
    + exfalso. rewrite Hsent, <-Hb0 in Hb. vm_compute in Hb. discriminate Hb.
    + split; [exact Hv|]. rewrite Hb. change (rwBody newRW +:+ sent) with sent. rewrite Hdec. by rewrite Hb0.
  - apply (proj2 (compression_transparent service hints newRW parked (client "gzip") eq_refl service_supported) 103).
    exists [], [OStatus 404; OBody "no"]. split; [reflexivity|]. split; [constructor|reflexivity].
Defined.

Lemma representations_keyed_witness :
  let out1 := ServeCompressed parked service (client "gzip") page newRW in
  let out2 := ServeCompressed parked service (client "") page newRW in
  rwBody out1 ≠ rwBody out2 ∧ ∃ c h1 h2, rwSent out1 = [(c, h1, [])] ∧ rwSent out2 = [(c, h2, [])] ∧
    variesOnAcceptEncoding h1 = true ∧ variesOnAcceptEncoding h2 = true.
Proof.
  intros out1 out2. assert (Hne : rwBody out1 ≠ rwBody out2) by (vm_compute; discriminate). split; [exact Hne|].
  destruct (representations_keyed service page newRW parked parked (client "gzip") (client "") page_ordered eq_refl service_supported) as [[_ Hb]|Hv].
  - reflexivity.
  - by destruct Hne.
  - exact Hv.
Defined.

(** ** What modelling showed *)

(** Early hints are taken for the status: the final one is dropped, and the
    client of a page that is not there is told that it is. *)
Example early_hints_decide :
  let ops := [OStatus 103; OStatus 404; OBody "no"] in
  sent_statuses (ServeCompressed parked service (client "gzip") ops newRW) = [103; 200] ∧ sent_statuses (directly_served ops newRW) = [103; 404].
Proof. vm_compute. split; reflexivity. Qed.

End CompressWriterExamples.
