(* ===== verification/AccessLog.v ===== *)
(** * What is measured of a request and what is logged:
    [internal/server/server_timing.go], [target_queue_trace.go] and
    [logging_middleware.go]

    How long an attempt waited for its target: as the application says in its
    [Server-Timing] header, else as the transport saw it.  The access log line
    is made by the outermost layer, from what passed its response writer and
    what the inner layers noted about the request on their way.

    [strconv.ParseFloat] is an argument. *)
From Stdlib Require Import SpecFloat.
From S2P Require Import Prelude GoStrings Http Redirects ErrorPages Buffers Compression CompressWriter Tracing GoFloat TargetQueue.

(** ** [Server-Timing] *)

Definition serverTimingQueueMetric : string := "queue".
Definition serverTimingDuration : string := "dur".
Definition maxServerTimingMs : float64 := f64_of_Z (9223372036854775807 / 1000000).

Definition backslash : ascii := "\"%char.
Definition dquote : ascii := "034"%char.

(** The loop of [splitUnquoted], with the part it is in; [escaped]: the byte is
    one the loop steps over. *)
Fixpoint splitFrom (separator : ascii) (quoted escaped : bool) (part value : string) : list string :=
  match value with
  | "" => [part]
  | String c value =>
      let part' := part +:+ String c "" in
      if escaped then splitFrom separator quoted false part' value
      else if quoted && Ascii.eqb c backslash then splitFrom separator quoted true part' value
      else if Ascii.eqb c dquote then splitFrom separator (negb quoted) false part' value
      else if Ascii.eqb c separator && negb quoted then part :: splitFrom separator quoted false "" value
      else splitFrom separator quoted false part' value
  end.

Definition splitUnquoted (value : string) (separator : ascii) : list string := splitFrom separator false false "" value.

(** Conversion to an integer drops the fraction. *)
Definition f64_trunc (x : float64) : Z :=
  match f64_finite x with
  | Some (n, e) => if 0 <=? e then n * 2 ^ e else Z.quot n (2 ^ (- e))
  | None => 0
  end.

Definition is_nan (x : float64) : bool := match x with S754_nan => true | _ => false end.

Section timing.
Variable ParseFloat : string → option float64.

Definition parseServerTimingDuration (param : string) : option Z :=
  match Cut param "=" with
  | None => None
  | Some (name, value) =>
      if negb (EqualFold (TrimSpace name) serverTimingDuration) then None
      else match ParseFloat (Trim (TrimSpace value) dquote) with
           | None => None
           | Some ms =>
               if is_nan ms || f64_ltb ms f64_zero || f64_ltb maxServerTimingMs ms then None
               else Some (f64_trunc (f64_mul ms (f64_of_Z 1000000)))
           end
  end.

(** The first that answers. *)
Fixpoint first_answer {A B} (f : A → option B) (l : list A) : option B :=
  match l with
  | [] => None
  | x :: l => match f x with Some y => Some y | None => first_answer f l end
  end.

Definition queueEntry (entry : string) : option Z :=
  match splitUnquoted entry ";" with
  | name :: params =>
      if negb (EqualFold (TrimSpace name) serverTimingQueueMetric) then None else first_answer parseServerTimingDuration params
  | [] => None
  end.

Definition parseServerTimingQueue (headers : list string) : option Z :=
  first_answer (λ header, first_answer queueEntry (splitUnquoted header ",")) headers.

(** ** What the transport saw of an attempt *)

Record queueTrace := mkQueueTrace { waitStarted : option Z; wait : Z; lastWrite : option Z; firstByteAt : option Z }.

Definition newQueueTrace : queueTrace := mkQueueTrace None 0 None None.

Inductive TraceHook := GetConn | GotConn | WroteRequest | GotFirstResponseByte.

(** A hook fires; the zero time is far enough back for the difference to
    saturate. *)
Definition fireHook (now : Z) (h : TraceHook) (q : queueTrace) : queueTrace :=
  match h with
  | GetConn => mkQueueTrace (Some now) (wait q) (lastWrite q) (firstByteAt q)
  | GotConn =>
      mkQueueTrace (waitStarted q) (wrap64 (wait q + match waitStarted q with Some t => time_sub now t | None => int64_max end))
        (lastWrite q) (firstByteAt q)
  | WroteRequest => mkQueueTrace (waitStarted q) (wait q) (Some now) (firstByteAt q)
  | GotFirstResponseByte => mkQueueTrace (waitStarted q) (wait q) (lastWrite q) (Some now)
  end.

Definition upstreamTTFB (q : queueTrace) : Z :=
  match lastWrite q, firstByteAt q with
  | Some w, Some f => Z.max (time_sub f w) 0
  | _, _ => 0
  end.

(** ** What the layers note about a request *)

Record loggingRequestContext := mkLogContext {
  lcService : string;
  lcTarget : string;
  lcRequestHeaders : list string;
  lcResponseHeaders : list string;
  lcExcludeMetrics : bool;
  lcTrace : option traceContext;
  lcQueueTime : Z;
  lcUpstreamTTFB : Z;
  lcMeasured : bool }.

Definition newLogContext : loggingRequestContext := mkLogContext "" "" [] [] false None 0 0 false.

(** [recordQueueTime]: what is noted, and what the target's window observes. *)
Definition recordQueueTime (now : Z) (trace : option queueTrace) (header : gmap string (list string)) (lc : loggingRequestContext)
  : loggingRequestContext * option Observation :=
  match trace with
  | None => (lc, None)
  | Some q =>
      let '(queue, source) :=
        match parseServerTimingQueue (hdr_values header "Server-Timing") with
        | Some reported => (reported, queueSourceApp)
        | None => (wait q, queueSourceProxy)
        end in
      (mkLogContext (lcService lc) (lcTarget lc) (lcRequestHeaders lc) (lcResponseHeaders lc) (lcExcludeMetrics lc) (lcTrace lc)
         queue (upstreamTTFB q) true,
       if lcExcludeMetrics lc then None else Some (mkObservation (now / second) queue source))
  end.

End timing.

(** ** The access log *)

Record loggerResponseWriter := mkLogWriter { lwUnder : ResponseWriter; lwStatusCode : Z; lwBytesWritten : Z }.

Definition newLoggerResponseWriter (u : ResponseWriter) : loggerResponseWriter := mkLogWriter u 200 0.

Definition lwWriteHeader (statusCode : Z) (w : loggerResponseWriter) : loggerResponseWriter :=
  mkLogWriter (WriteHeader statusCode (lwUnder w)) statusCode (lwBytesWritten w).

Definition lwWrite (b : string) (w : loggerResponseWriter) : loggerResponseWriter :=
  mkLogWriter (WriteBody b (lwUnder w)) (lwStatusCode w) (wrap64 (lwBytesWritten w + str_len b)).

Definition lwFlush (w : loggerResponseWriter) : loggerResponseWriter := mkLogWriter (FlushRW (lwUnder w)) (lwStatusCode w) (lwBytesWritten w).

(** [Hijack], when it succeeds. *)
Definition lwHijack (w : loggerResponseWriter) : loggerResponseWriter := mkLogWriter (lwUnder w) 101 (lwBytesWritten w).

Definition lwOp (w : loggerResponseWriter) (o : write_op) : loggerResponseWriter :=
  match o with
  | OHeader h => mkLogWriter (rw_set_header h (lwUnder w)) (lwStatusCode w) (lwBytesWritten w)
  | OStatus c => lwWriteHeader c w
  | OBody b => lwWrite b w
  | OFlush => lwFlush w
  end.

Inductive LogValue := LogString (s : string) | LogInt (z : Z).

Definition underscored (c : ascii) : ascii := if Ascii.eqb c "-" then "_"%char else c.

Fixpoint map_bytes (f : ascii → ascii) (s : string) : string :=
  match s with "" => "" | String c s => String (f c) (map_bytes f s) end.

(** The names are canonical ones; the map is read as it is. *)
Definition retrieveCustomHeaders (headerNames : list string) (header : gmap string (list string)) (prefix : string) : list (string * LogValue) :=
  (λ headerName, (prefix +:+ "_" +:+ map_bytes underscored (ToLower headerName),
                  LogString (String.concat "," (default [] (header !! headerName))))) <$> headerNames.

(** The line, from the request as it was when the handler returned. *)
Definition logAttrs (httpPort httpsPort : Z) (proto : string) (elapsed : Z) (r : Request) (lc : loggingRequestContext) (w : loggerResponseWriter)
  : list (string * LogValue) :=
  let '(port, scheme) := if IsTLS r then (httpsPort, "https") else (httpPort, "http") in
  let '(clientAddr, clientPort) := match SplitHostPort (RemoteAddr r) with Some hp => hp | None => (RemoteAddr r, "") end in
  let forwarded := hdr_get (ReqHeader r) "X-Forwarded-For" in
  let remoteAddr := if String.eqb forwarded "" then clientAddr else forwarded in
  [("host", LogString (Host r)); ("port", LogInt port); ("path", LogString (URLPath r));
   ("request_id", LogString (hdr_get (ReqHeader r) "X-Request-ID")); ("status", LogInt (lwStatusCode w));
   ("service", LogString (lcService lc)); ("target", LogString (lcTarget lc)); ("duration", LogInt elapsed);
   ("method", LogString (Method r)); ("req_content_length", LogInt (ContentLength r));
   ("req_content_type", LogString (hdr_get (ReqHeader r) "Content-Type")); ("resp_content_length", LogInt (lwBytesWritten w));
   ("resp_content_type", LogString (hdr_get (rwHeader (lwUnder w)) "Content-Type")); ("client_addr", LogString clientAddr);
   ("client_port", LogString clientPort); ("remote_addr", LogString remoteAddr);
   ("user_agent", LogString (hdr_get (ReqHeader r) "User-Agent")); ("proto", LogString proto); ("scheme", LogString scheme);
   ("query", LogString (RawQuery r))] ++
  (match lcTrace lc with
   | Some tc => [("trace_id", LogString (TraceID tc)); ("span_id", LogString (SpanID tc)); ("trace_flags", LogString (Flags tc))]
   | None => []
   end) ++
  (if lcMeasured lc then
     ("queue_time", LogInt (lcQueueTime lc)) :: (if 0 <? lcUpstreamTTFB lc then [("upstream_ttfb", LogInt (lcUpstreamTTFB lc))] else [])
   else []) ++
  retrieveCustomHeaders (lcRequestHeaders lc) (ReqHeader r) "req" ++
  retrieveCustomHeaders (lcResponseHeaders lc) (rwHeader (lwUnder w)) "resp".

(** [LoggingMiddleware.ServeHTTP] around a handler that performs [ops] and leaves
    the request and its notes as given: what the client gets, the line, and what
    the metrics are told (service, method, status, time). *)
Definition ServeLogged (httpPort httpsPort : Z) (proto : string) (started ended : Z) (r : Request) (lc : loggingRequestContext)
    (ops : list write_op) (u : ResponseWriter) : ResponseWriter * list (string * LogValue) * option (string * string * Z * Z) :=
  let elapsed := time_sub ended started in
  let w := foldl lwOp (newLoggerResponseWriter u) ops in
  (lwUnder w, logAttrs httpPort httpsPort proto elapsed r lc w,
   if lcExcludeMetrics lc then None else Some (lcService lc, Method r, lwStatusCode w, elapsed)).

(** ** The header is taken apart without losing anything *)

Fixpoint joinParts (separator : ascii) (parts : list string) : string :=
  match parts with
  | [] => ""
  | [p] => p
  | p :: parts => p +:+ String separator (joinParts separator parts)
  end.

Lemma splitFrom_cons separator quoted escaped part value :
  ∃ p ps, splitFrom separator quoted escaped part value = p :: ps.
Proof.
  revert quoted escaped part. induction value as [|c value IH]; intros quoted escaped part; cbn; [eauto|].
  repeat case_match; eauto.
Qed.

Lemma splitFrom_join separator quoted escaped part value :
  joinParts separator (splitFrom separator quoted escaped part value) = part +:+ value.
Proof.
  revert quoted escaped part. induction value as [|c value IH]; intros quoted escaped part; cbn [splitFrom joinParts]; [by rewrite str_app_nil_r|].
  assert (Hstep : ∀ q e, joinParts separator (splitFrom separator q e (part +:+ String c "") value) = part +:+ String c value).
  { intros q e. rewrite IH, <-str_app_assoc. done. }
  destruct escaped; [apply Hstep|]. destruct (quoted && _); [apply Hstep|]. destruct (Ascii.eqb c dquote); [apply Hstep|].
  destruct (Ascii.eqb_spec c separator) as [->|]; cbn [andb]; [|apply Hstep]. destruct (negb quoted); [|apply Hstep].
  destruct (splitFrom_cons separator quoted false "" value) as (p & ps & Hp). pose proof (IH quoted false "") as Hj. rewrite Hp in Hj |- *.
  cbn [joinParts]. change (part +:+ String separator (joinParts separator (p :: ps)) = part +:+ String separator value). by rewrite Hj.
Qed.

Lemma splitUnquoted_join value separator : joinParts separator (splitUnquoted value separator) = value.
Proof. apply splitFrom_join. Qed.

(** The time an attempt waited is the sum of its waits, in whatever order the
    other hooks fire. *)
Fixpoint total_wait (started : option Z) (fired : list (Z * TraceHook)) : Z :=
  match fired with
  | [] => 0
  | (now, GetConn) :: fired => total_wait (Some now) fired
  | (now, GotConn) :: fired => (match started with Some t => time_sub now t | None => int64_max end) + total_wait started fired
  | _ :: fired => total_wait started fired
  end.

Lemma wrap64_absorb a b : wrap64 (wrap64 a + b) = wrap64 (a + b).
Proof.
  unfold wrap64. f_equal. replace ((a + 2 ^ 63) mod 2 ^ 64 - 2 ^ 63 + b + 2 ^ 63) with ((a + 2 ^ 63) mod 2 ^ 64 + b) by lia.
  rewrite Zplus_mod_idemp_l. f_equal. lia.
Qed.

Lemma wait_total fired q :
  in_int64 (wait q) → wait (foldl (λ q x, fireHook x.1 x.2 q) q fired) = wrap64 (wait q + total_wait (waitStarted q) fired).
Proof.
  revert q. induction fired as [|[now h] fired IH]; intros q Hq; [cbn; by rewrite Z.add_0_r, wrap64_id|].
  cbn [foldl]. destruct h; cbn [fst snd fireHook]; rewrite IH; try done; cbn [wait waitStarted total_wait]; [|apply wrap64_range].
  rewrite wrap64_absorb. f_equal. lia.
Qed.

(** ** The line tells what the client got *)

(** Logging changes nothing. *)
Lemma logged_under ops w : lwUnder (foldl lwOp w ops) = foldl plainOp (lwUnder w) ops.
Proof. revert w. induction ops as [|o ops IH]; intros w; [done|]. cbn [foldl]. rewrite IH. by destruct o. Qed.

Lemma logged_bodies bs w :
  Forall goes_on bs → in_int64 (lwBytesWritten w) →
  lwStatusCode (foldl lwOp w bs) = lwStatusCode w ∧ lwBytesWritten (foldl lwOp w bs) = wrap64 (lwBytesWritten w + str_len (bodyOf bs)).
Proof.
  intros Hbs. revert w. induction Hbs as [|o bs Ho _ IH]; intros w Hw; [cbn; by rewrite Z.add_0_r, wrap64_id|].
  rewrite bodyOf_cons, str_len_app. cbn [foldl]. destruct o as [h|c|b|]; try done; cbn [body_op].
  - destruct (IH (lwOp w (OBody b)) (wrap64_range _)) as [H1 H2]. split; [done|]. rewrite H2. cbn [lwOp lwWrite lwBytesWritten]. rewrite wrap64_absorb. f_equal. lia.
  - destruct (IH (lwOp w OFlush) Hw) as [H1 H2]. split; [done|]. rewrite H2. done.
Qed.

Lemma plain_bodies bs u : rwClosed u = true → Forall goes_on bs → foldl plainOp u bs = rw_append (bodyOf bs) u.
Proof.
  intros Hc Hbs. revert u Hc. induction Hbs as [|o bs Ho _ IH]; intros u Hc; [by rewrite rw_append_nil|]. rewrite bodyOf_cons. cbn [foldl].
  destruct o as [h|c|b|]; try done; cbn [plainOp body_op].
  - rewrite WriteBody_open, IH by done. apply rw_append_twice.
  - unfold FlushRW. rewrite WriteHeader_closed, IH by done. done.
Qed.

(** Without a status, it is 200. *)
Lemma plain_unannounced bs v :
  rwClosed v = false → Forall goes_on bs →
  FlushRW (foldl plainOp v bs) = rw_append (bodyOf bs) (WriteHeader 200 v) ∧ rwBody (foldl plainOp v bs) = rwBody v +:+ bodyOf bs.
Proof.
  intros Hv Hbs. assert (Hcl : rwClosed (WriteHeader 200 v) = true) by by apply WriteHeader_final.
  assert (Hbv : rwBody (WriteHeader 200 v) = rwBody v) by (unfold WriteHeader; by rewrite Hv).
  destruct bs as [|o bs]; [split; [by rewrite rw_append_nil|by rewrite str_app_nil_r]|]. apply Forall_cons in Hbs as [Ho Hbs]. rewrite bodyOf_cons. cbn [foldl].
  destruct o as [h'|c|b|]; try done; cbn [plainOp body_op].
  - change (WriteBody b v) with (rw_append b (WriteHeader 200 v)). rewrite plain_bodies, rw_append_twice by done. unfold FlushRW. rewrite WriteHeader_closed by done.
    split; [done|]. cbn. by rewrite Hbv.
  - unfold FlushRW. rewrite plain_bodies by done. rewrite WriteHeader_closed by done. split; [done|]. cbn. by rewrite Hbv.
Qed.

Lemma line_status httpPort httpsPort proto elapsed r lc w :
  ("status", LogInt (lwStatusCode w)) ∈ logAttrs httpPort httpsPort proto elapsed r lc w ∧
  ("resp_content_length", LogInt (lwBytesWritten w)) ∈ logAttrs httpPort httpsPort proto elapsed r lc w.
Proof.
  unfold logAttrs. destruct (if IsTLS r then _ else _) as [port scheme]. destruct (match SplitHostPort _ with Some hp => hp | None => _ end) as [a p].
  split; apply elem_of_app; left; rewrite list_elem_of_In; cbn; tauto.
Qed.

(** A handler that sets headers, announces a final status or does not, and then
    writes: the client gets from the logging layer what it would have got without
    it, and the line has the status and the length of that. *)
Theorem log_truthful httpPort httpsPort proto started ended r lc hs st bs u :
  Forall (λ o, match o with OHeader _ => True | _ => False end) hs → (st = [] ∨ ∃ c, st = [OStatus c] ∧ informational c = false) → Forall goes_on bs →
  rwClosed u = false → str_len (bodyOf bs) < 2 ^ 63 →
  let '(out, line, _) := ServeLogged httpPort httpsPort proto started ended r lc (hs ++ st ++ bs) u in
  ∃ c h, out = foldl plainOp u (hs ++ st ++ bs) ∧ rwSent (FlushRW out) = rwSent u ++ [(c, h, rwCookies u)] ∧ rwBody out = rwBody u +:+ bodyOf bs ∧
    ("status", LogInt c) ∈ line ∧ ("resp_content_length", LogInt (str_len (bodyOf bs))) ∈ line.
Proof.
  intros Hhs Hst Hbs Hu Hlen. unfold ServeLogged. set (w := foldl lwOp (newLoggerResponseWriter u) (hs ++ st ++ bs)).
  assert (Hout : lwUnder w = foldl plainOp u (hs ++ st ++ bs)) by apply logged_under.
  assert (Hheads : ∃ h, foldl lwOp (newLoggerResponseWriter u) hs = newLoggerResponseWriter (rw_set_header h u) ∧ foldl plainOp u hs = rw_set_header h u).
  { clear -Hhs. revert u. induction Hhs as [|o hs Ho _ IH]; intros u; [exists (rwHeader u); by destruct u|].
    destruct o as [h|c|b|]; try done. destruct (IH (rw_set_header h u)) as (h' & H1 & H2). exists h'. split; [exact H1|exact H2]. }
  destruct Hheads as (h & Hlog & Hplain). pose proof (str_len_nonneg (bodyOf bs)) as Hpos.
  assert (H0 : in_int64 0) by (unfold in_int64, int64_min, int64_max; lia).
  destruct (line_status httpPort httpsPort proto (time_sub ended started) r lc w) as [Hin1 Hin2].
  assert (Hwrap : wrap64 (0 + str_len (bodyOf bs)) = str_len (bodyOf bs)).
  { apply wrap64_id. unfold in_int64, int64_min, int64_max. lia. }
  destruct Hst as [->|(c & -> & Hc)].
  - exists 200, h. cbn [app] in *. assert (Hw : w = foldl lwOp (newLoggerResponseWriter (rw_set_header h u)) bs) by (unfold w; by rewrite foldl_app, Hlog).
    destruct (logged_bodies bs (newLoggerResponseWriter (rw_set_header h u)) Hbs H0) as [Hs Hb]. rewrite <-Hw in Hs, Hb. cbn [lwStatusCode lwBytesWritten newLoggerResponseWriter] in Hs, Hb.
    rewrite Hs in Hin1. rewrite Hb, Hwrap in Hin2. split; [exact Hout|]. rewrite Hout, foldl_app, Hplain.
    destruct (plain_unannounced bs (rw_set_header h u) Hu Hbs) as [Hfl Hbd].
    rewrite Hfl, Hbd. cbn [rwSent rw_append]. split; [unfold WriteHeader; cbn; by rewrite Hu|]. done.
  - exists c, h. assert (Hw : w = foldl lwOp (lwWriteHeader c (newLoggerResponseWriter (rw_set_header h u))) bs) by (unfold w; by rewrite !foldl_app, Hlog).
    destruct (logged_bodies bs (lwWriteHeader c (newLoggerResponseWriter (rw_set_header h u))) Hbs H0) as [Hs Hb]. rewrite <-Hw in Hs, Hb. cbn [lwStatusCode lwBytesWritten newLoggerResponseWriter lwWriteHeader] in Hs, Hb.
    rewrite Hs in Hin1. rewrite Hb, Hwrap in Hin2. split; [exact Hout|]. rewrite Hout, !foldl_app, Hplain. cbn [foldl plainOp].
    assert (Hcl : rwClosed (WriteHeader c (rw_set_header h u)) = true) by by apply WriteHeader_final.
    rewrite plain_bodies by done. unfold FlushRW. rewrite WriteHeader_closed by done. cbn [rwSent rwBody rw_append].
    split; [unfold WriteHeader; cbn; by rewrite Hu|]. split; [unfold WriteHeader; cbn; by rewrite Hu|]. done.
Qed.

(** ** Examples *)

Module AccessLogExamples.

Definition whole (s : string) : option float64 := f64_of_Z <$> ParseInt s.

Example quoted_description_is_no_entry :
  parseServerTimingQueue whole ["db;desc=" +:+ String dquote "queue;dur=9, queue;dur=8" +:+ String dquote ";dur=3, queue;dur=7"] = Some 7000000.
Proof. vm_compute. reflexivity. Qed.

Example app_wins :
  let q := foldl (λ q x, fireHook x.1 x.2 q) newQueueTrace [(10, GetConn); (35, GotConn); (40, WroteRequest); (90, GotFirstResponseByte)] in
  wait q = 25 ∧ upstreamTTFB q = 50 ∧
  (recordQueueTime whole (3 * second) (Some q) {["Server-Timing" := ["queue;dur=2"]]} newLogContext).2 = Some (mkObservation 3 2000000 queueSourceApp) ∧
  (recordQueueTime whole (3 * second) (Some q) ∅ newLogContext).2 = Some (mkObservation 3 25 queueSourceProxy).
Proof. vm_compute. repeat split. Qed.

Definition visitor : Request := mkRequest "GET" "app.example.com" "/" "" "" false true "203.0.113.9:4711" ∅ [] 0 None false false.

Lemma log_truthful_witness :
  let '(out, line, _) := ServeLogged 80 443 "HTTP/1.1" 0 5 visitor newLogContext ([OHeader ∅] ++ [OStatus 404] ++ [OBody "no"; OFlush]) newRW in
  ∃ c h, out = foldl plainOp newRW ([OHeader ∅] ++ [OStatus 404] ++ [OBody "no"; OFlush]) ∧ rwSent (FlushRW out) = [(c, h, [])] ∧ rwBody out = "no" ∧
    ("status", LogInt c) ∈ line ∧ ("resp_content_length", LogInt 2) ∈ line.
Proof.
  apply (log_truthful 80 443 "HTTP/1.1" 0 5 visitor newLogContext [OHeader ∅] [OStatus 404] [OBody "no"; OFlush] newRW).
  - repeat constructor.
  - right. exists 404. split; reflexivity.
  - repeat constructor.
  - reflexivity.
  - vm_compute. reflexivity.
Defined.

(** ** What modelling showed *)

(** Every status passes into the line, also one the client is not sent: what
    follows early hints without a status of its own is logged as the hints, a
    status that comes too late as if it had been sent. *)
Example logged_status_was_not_sent :
  let logged ops := lwStatusCode (foldl lwOp (newLoggerResponseWriter newRW) ops) in
  let sent ops := last (sent_statuses (foldl plainOp newRW ops)) in
  (logged [OStatus 103; OBody "hello"], sent [OStatus 103; OBody "hello"]) = (103, Some 200) ∧
  (logged [OBody "hello"; OStatus 500], sent [OBody "hello"; OStatus 500]) = (500, Some 200).
Proof. vm_compute. split; reflexivity. Qed.

End AccessLogExamples.
