(* ===== verification/CachePolicy.v ===== *)
(** * What the response cache may store and serve:
    [internal/server/cache_options.go], [cache_policy.go], [cache_vary.go],
    [cache_encoding.go], [cache_entry.go], [cache_variant.go]

    The options, the reading of [Cache-Control], the decision to store a
    response and for how long, the fields a response varies on, the keys an
    entry is stored under, and the check that an entry may answer a request.

    The hash is a parameter: [sha256_hex] stands for the hexadecimal SHA-256 of
    its argument.  Theorems about keys assume that the inputs at hand do not
    collide. *)
From S2P Require Import Prelude GoStrings Http Compression.

(** ** Options *)

Definition DefaultCacheMaxBodySize : Z := 8 * 1024 * 1024.
Definition DefaultCacheMaxVariants : Z := 32.
Definition acceptEncodingHeader : string := "accept-encoding".

Record CacheOptions := mkCacheOptions {
  Enabled : bool;
  MaxBodySize : Z;
  MaxTTL : Z;
  VaryHeaders : list string;
  VaryCookies : list string;
  AllowSetCookie : bool;
  MaxVariants : Z }.

Definition maxBodySize (co : CacheOptions) : Z :=
  if MaxBodySize co <=? 0 then DefaultCacheMaxBodySize else MaxBodySize co.

Definition coversVaryField (co : CacheOptions) (field : string) : bool :=
  str_contains (VaryHeaders co) field.

#[global] Arguments coversVaryField : simpl never.

Definition automaticVary (co : CacheOptions) : bool := 0 <=? MaxVariants co.

Definition maxVariants (co : CacheOptions) : Z :=
  if MaxVariants co <=? 0 then DefaultCacheMaxVariants else MaxVariants co.

Definition normalizeLowercaseNames (names : list string) : list string :=
  foldl (λ acc n, add_name acc (ToLower (TrimSpace n))) [] names.

Definition normalizeCookieNames (names : list string) : list string :=
  foldl (λ acc n, add_name acc (TrimSpace n)) [] names.

Definition NormalizeCache (co : CacheOptions) : CacheOptions :=
  mkCacheOptions (Enabled co) (MaxBodySize co) (MaxTTL co) (normalizeLowercaseNames (VaryHeaders co))
    (normalizeCookieNames (VaryCookies co)) (AllowSetCookie co) (MaxVariants co).

Inductive CacheOptionError :=
| RequiresCache (flag : string) | NegativeCacheMaxBody | NegativeCacheMaxTTL
| BadVaryHeader (n : string) | BadVaryCookie (n : string).

Definition validCookieName (n : string) : bool :=
  negb (String.eqb n "") && ValidHeaderFieldName n.

Definition ValidateCache (co0 : CacheOptions) : result CacheOptionError unit :=
  let co := NormalizeCache co0 in
  if negb (Enabled co) then
    if negb (MaxBodySize co =? 0) then Err (RequiresCache "cache-max-body")
    else if negb (MaxTTL co =? 0) then Err (RequiresCache "cache-max-ttl")
    else if negb (Nat.eqb (length (VaryHeaders co)) 0) then Err (RequiresCache "cache-vary-header")
    else if negb (Nat.eqb (length (VaryCookies co)) 0) then Err (RequiresCache "cache-vary-cookie")
    else if AllowSetCookie co then Err (RequiresCache "cache-allow-set-cookie")
    else if negb (MaxVariants co =? 0) then Err (RequiresCache "cache-max-variants")
    else Ok tt
  else if MaxBodySize co <? 0 then Err NegativeCacheMaxBody
  else if MaxTTL co <? 0 then Err NegativeCacheMaxTTL
  else match List.find (λ n, negb (ValidHeaderFieldName n)) (VaryHeaders co) with
       | Some n => Err (BadVaryHeader n)
       | None =>
           match List.find (λ n, negb (validCookieName n)) (VaryCookies co) with
           | Some n => Err (BadVaryCookie n)
           | None => Ok tt
           end
       end.

Inductive cacheRefusal :=
| cacheRefusalDisabled | cacheRefusalStatus | cacheRefusalNotPublic | cacheRefusalNoStore
| cacheRefusalPrivate | cacheRefusalNoCache | cacheRefusalNoLifetime | cacheRefusalSetCookie
| cacheRefusalContentRange | cacheRefusalContentEncoding | cacheRefusalEventStream
| cacheRefusalVary | cacheRefusalVaryUnkeyable | cacheRefusalVaryTooMany
| cacheRefusalVariantLimit | cacheRefusalHeadRequest | cacheRefusalTooLarge
| cacheRefusalHijacked.

#[export] Instance cacheRefusal_eq_dec : EqDecision cacheRefusal.
Proof. solve_decision. Defined.

(** ** Cache-Control *)

Record cacheDirectives := mkDirectives {
  noStore : bool;
  noCache : bool;
  private : bool;
  public : bool;
  maxAge : option Z;
  sMaxAge : option Z;
  staleWhileRevalidate : Z;
  mustRevalidate : bool }.

Definition no_directives : cacheDirectives := mkDirectives false false false false None None 0 false.

Definition sharedLifetime (d : cacheDirectives) : option Z :=
  match sMaxAge d with Some s => Some s | None => maxAge d end.

Definition dquote : ascii := Ascii.ascii_of_nat 34.

(** [splitCacheControl]: at commas outside quoted strings. *)
Fixpoint split_from (quoted : bool) (s : string) : list string :=
  match s with
  | "" => [""]
  | String c s =>
      if Ascii.eqb c comma && negb quoted then "" :: split_from quoted s
      else let quoted := if Ascii.eqb c dquote then negb quoted else quoted in
           match split_from quoted s with
           | [] => [String c ""]
           | p :: ps => String c p :: ps
           end
  end.

Definition splitCacheControl (value : string) : list string := split_from false value.

(** The product is an [int64] product: it wraps. *)
Definition parseDeltaSeconds (argument : option string) : option Z :=
  match argument with
  | None => None
  | Some a =>
      match ParseInt a with
      | Some seconds => if seconds <? 0 then None else Some (wrap64 (seconds * second))
      | None => None
      end
  end.

Definition parse_directive (d : cacheDirectives) (token : string) : cacheDirectives :=
  let '(name, argument) :=
    match Cut token "=" with Some (n, a) => (n, Some a) | None => (token, None) end in
  let name := ToLower (TrimSpace name) in
  let argument := (λ a, Trim (TrimSpace a) dquote) <$> argument in
  let '(mkDirectives ns nc pr pu ma sm swr mr) := d in
  if String.eqb name "no-store" then mkDirectives true nc pr pu ma sm swr mr
  else if String.eqb name "no-cache" then mkDirectives ns true pr pu ma sm swr mr
  else if String.eqb name "private" then mkDirectives ns nc true pu ma sm swr mr
  else if String.eqb name "public" then mkDirectives ns nc pr true ma sm swr mr
  else if str_contains ["must-revalidate"; "proxy-revalidate"] name
  then mkDirectives ns nc pr pu ma sm swr true
  else match parseDeltaSeconds argument with
       | None => d
       | Some s =>
           if String.eqb name "max-age" then mkDirectives ns nc pr pu (Some s) sm swr mr
           else if String.eqb name "s-maxage" then mkDirectives ns nc pr pu ma (Some s) swr mr
           else if String.eqb name "stale-while-revalidate"
           then mkDirectives ns nc pr pu ma sm s mr
           else d
       end.

Definition parseCacheControl (values : list string) : cacheDirectives :=
  foldl (λ d v, foldl parse_directive d (splitCacheControl v)) no_directives values.

(** ** Requests *)

Definition requestMayUseCache (r : Request) : bool :=
  let h := ReqHeader r in
  if negb (is_get_or_head r) then false
  else if negb (String.eqb (hdr_get h "Authorization") "") then false
  else if negb (String.eqb (hdr_get h "Range") "") || negb (String.eqb (hdr_get h "Upgrade") "")
  then false
  else negb (noStore (parseCacheControl (hdr_values h "Cache-Control"))).

Definition requestAllowsStoredResponse (r : Request) : bool :=
  let h := ReqHeader r in
  if EqualFold (TrimSpace (hdr_get h "Pragma")) "no-cache" then false
  else let d := parseCacheControl (hdr_values h "Cache-Control") in
       if noCache d then false
       else match maxAge d with Some a => 0 <? a | None => true end.

(** ** Vary *)

Definition maxVaryFields : Z := 8.
Definition varyWildcard : string := "*".
Definition unkeyableVaryFields : list string := ["authorization"; "cookie"; "referer"; "user-agent"].
Definition encodingIdentity : string := "identity".
Definition keyableEncodings : list string :=
  [EncodingBrotli; "deflate"; EncodingGzip; encodingIdentity; EncodingZstd].

Definition encodingIsKeyable (contentEncoding : string) : bool :=
  str_contains keyableEncodings (ToLower (TrimSpace contentEncoding)).

#[global] Arguments encodingIsKeyable : simpl never.

Definition varyFieldNames (h : gmap string (list string)) : list string :=
  foldl (λ names v, foldl (λ names f, add_name names (ToLower (TrimSpace f))) names (Split v comma))
    [] (hdr_values h "Vary").

(** The loop without automatic variants: the first field not in the key. *)
Fixpoint vary_strict (co : CacheOptions) (encoded : bool) (declared : list string)
  : result (cacheRefusal * string) unit :=
  match declared with
  | [] => Ok tt
  | f :: fs =>
      if String.eqb f varyWildcard then Err (cacheRefusalVary, varyWildcard)
      else if String.eqb f acceptEncodingHeader && negb encoded then vary_strict co encoded fs
      else if negb (coversVaryField co f) then Err (cacheRefusalVary, f)
      else vary_strict co encoded fs
  end.

(** The loop with them: the fields to key a variant on. *)
Fixpoint vary_fields (co : CacheOptions) (encoded : bool) (declared : list string)
  : result (cacheRefusal * string) (list string) :=
  match declared with
  | [] => Ok []
  | f :: fs =>
      if String.eqb f varyWildcard then Err (cacheRefusalVary, varyWildcard)
      else if coversVaryField co f then vary_fields co encoded fs
      else if String.eqb f acceptEncodingHeader && negb encoded then vary_fields co encoded fs
      else if str_contains unkeyableVaryFields f then Err (cacheRefusalVaryUnkeyable, f)
      else rest ← vary_fields co encoded fs; Ok (f :: rest)
  end.

Definition varyFieldsFor (co : CacheOptions) (h : gmap string (list string))
  : result (cacheRefusal * string) (list string) :=
  let declared := varyFieldNames h in
  let ce := hdr_get h "Content-Encoding" in
  let encoded := negb (String.eqb ce "") in
  if negb (automaticVary co) then
    _ ← vary_strict co encoded declared;
    if encoded && negb (coversVaryField co acceptEncodingHeader)
    then Err (cacheRefusalContentEncoding, ce) else Ok []
  else
    fields ← vary_fields co encoded declared;
    fields' ← (if encoded && negb (str_contains fields acceptEncodingHeader) &&
                  negb (coversVaryField co acceptEncodingHeader)
               then if negb (encodingIsKeyable ce) then Err (cacheRefusalContentEncoding, ce)
                    else Ok (fields ++ [acceptEncodingHeader])
               else Ok fields);
    if maxVaryFields <? Z.of_nat (length fields') then Err (cacheRefusalVaryTooMany, Join fields' ",")
    else Ok (sort_strings fields').

(** ** Storing *)

Definition cacheableStatuses : list Z := [200; 203; 204; 300; 301; 308; 404; 405; 410; 414; 501].

Record cachePolicy := mkPolicy {
  freshFor : Z;
  polStale : Z;
  varyOn : list string }.

Definition responseIsStorable (co : CacheOptions) (status : Z) (h : gmap string (list string))
  : result (cacheRefusal * string) cachePolicy :=
  let d := parseCacheControl (hdr_values h "Cache-Control") in
  if negb (Enabled co) then Err (cacheRefusalDisabled, "")
  else if negb (existsb (Z.eqb status) cacheableStatuses) then Err (cacheRefusalStatus, "")
  else if noStore d then Err (cacheRefusalNoStore, "")
  else if private d then Err (cacheRefusalPrivate, "")
  else if negb (public d) then Err (cacheRefusalNotPublic, "")
  else if noCache d then Err (cacheRefusalNoCache, "")
  else match sharedLifetime d with
       | None => Err (cacheRefusalNoLifetime, "")
       | Some lifetime =>
           if lifetime <=? 0 then Err (cacheRefusalNoLifetime, "")
           else
             let fresh := if (0 <? MaxTTL co) && (MaxTTL co <? lifetime) then MaxTTL co
                          else lifetime in
             if negb (String.eqb (hdr_get h "Set-Cookie") "") && negb (AllowSetCookie co)
             then Err (cacheRefusalSetCookie, "")
             else if negb (String.eqb (hdr_get h "Content-Range") "")
             then Err (cacheRefusalContentRange, "")
             else if String.eqb (normalizeContentType (hdr_get h "Content-Type"))
                       eventStreamContentType
             then Err (cacheRefusalEventStream, "")
             else vary ← varyFieldsFor co h;
                  Ok (mkPolicy fresh (if mustRevalidate d then 0 else staleWhileRevalidate d) vary)
       end.

(** ** Entries *)

Definition cacheEntryOverhead : Z := 256.

Record CacheEntry := mkCacheEntry {
  ceService : string;
  cePath : string;
  VaryOn : list string;
  VariantKey : string;
  Variants : list string;
  StatusCode : Z;
  ceHeader : gmap string (list string);
  Body : string;
  StoredAt : Z;
  InitialAge : Z;
  FreshFor : Z;
  StaleWhileRevalidate : Z }.

Definition age (now : Z) (e : CacheEntry) : Z :=
  wrap64 (InitialAge e + Z.max 0 (time_sub now (StoredAt e))).

Definition fresh (now : Z) (e : CacheEntry) : bool := age now e <? FreshFor e.

Definition servable (now : Z) (e : CacheEntry) : bool :=
  age now e <? wrap64 (FreshFor e + StaleWhileRevalidate e).

Definition needsRevalidation (now : Z) (e : CacheEntry) : bool :=
  negb (fresh now e) && servable now e.

Definition ttl (e : CacheEntry) : Z :=
  Z.max 0 (wrap64 (FreshFor e + StaleWhileRevalidate e - InitialAge e)).

Definition header_size (h : gmap string (list string)) : Z :=
  map_fold (λ n vs acc, acc + str_len n + sumf str_len vs) 0 h.

Definition size (e : CacheEntry) : Z :=
  str_len (Body e) + str_len (ceService e) + str_len (cePath e) + str_len (VariantKey e) +
  cacheEntryOverhead + sumf str_len (VaryOn e) + sumf str_len (Variants e) +
  header_size (ceHeader e).

(** [refreshed]: the lifetime restarted after a 304. *)
Definition refreshed (co : CacheOptions) (now : Z) (e : CacheEntry) : CacheEntry :=
  let '(f, s) := match responseIsStorable co (StatusCode e) (ceHeader e) with
                 | Ok p => (freshFor p, polStale p)
                 | Err _ => (FreshFor e, StaleWhileRevalidate e)
                 end in
  mkCacheEntry (ceService e) (cePath e) (VaryOn e) (VariantKey e) (Variants e) (StatusCode e)
    (ceHeader e) (Body e) now 0 f s.

(** ** Encodings and keys *)

Definition cacheKeyPrefix : string := "kp:c:".
Definition cacheKeyVersion : string := "2".
Definition variantDigestLength : nat := 16.
Definition cacheVariantIndexMinTTL : Z := minute.

Definition joinHeaderValues (r : Request) (name : string) : string :=
  Join (hdr_values (ReqHeader r) name) ", ".

(** [writeKeyField]: eight bytes of length, most significant first, then the
    value. *)
Fixpoint be_bytes (k : nat) (z : Z) : string :=
  match k with
  | O => ""
  | S k => be_bytes k (z / 256) +:+ String (ascii_of_N (Z.to_N (z mod 256))) ""
  end.

Definition writeKeyField (value : string) : string := be_bytes 8 (str_len value) +:+ value.

Fixpoint frames (l : list string) : string :=
  match l with
  | [] => ""
  | v :: l => writeKeyField v +:+ frames l
  end.

Section keys.
Context `{F64 : Float64} (sha256_hex : string → string).

Definition usable (a : AcceptEncoding) (e : string) : bool :=
  match accepted a !! e with
  | Some q => f_gt q f_zero
  | None => if String.eqb e encodingIdentity then true
            else match wildcard a with Some w => f_gt w f_zero | None => false end
  end.

Definition normalizeAcceptEncoding (header : string) : string :=
  Join (List.filter (usable (parseAcceptEncoding header)) keyableEncodings) ",".

Definition clientAcceptsEncoding (r : Request) (contentEncoding : string) : bool :=
  let ce := ToLower (TrimSpace contentEncoding) in
  if String.eqb ce "" || String.eqb ce encodingIdentity then true
  else let a := parseAcceptEncoding (joinHeaderValues r "Accept-Encoding") in
       match accepted a !! ce with
       | Some q => f_gt q f_zero
       | None => match wildcard a with Some w => f_gt w f_zero | None => false end
       end.

Definition entryReadableBy (e : CacheEntry) (r : Request) : bool :=
  clientAcceptsEncoding r (hdr_get (ceHeader e) "Content-Encoding").

Definition keyValueFor (r : Request) (name : string) : string :=
  let value := joinHeaderValues r name in
  if String.eqb name acceptEncodingHeader then normalizeAcceptEncoding value else value.

(** What [cacheKey] hashes, field by field. *)
Definition key_fields (service variant : string) (r : Request) (co : CacheOptions) : list string :=
  [cacheKeyVersion; service; variant; if IsTLS r then "https" else "http"; Host r; URLPath r;
   RawQuery r] ++
  (n ← VaryHeaders co; [n; keyValueFor r n]) ++
  (n ← VaryCookies co; [n; default "" (req_cookie r n)]).

Definition cacheKey (service variant : string) (r : Request) (co : CacheOptions) : string :=
  cacheKeyPrefix +:+ service +:+ ":" +:+ sha256_hex (frames (key_fields service variant r co)).

Definition variant_fields (primaryKey : string) (vary : list string) (r : Request) : list string :=
  primaryKey :: (f ← vary; [f; keyValueFor r f]).

Definition variantKeyFor (primaryKey : string) (vary : list string) (r : Request) : string :=
  match vary with
  | [] => primaryKey
  | _ => primaryKey +:+ str_take variantDigestLength
           (sha256_hex (frames (variant_fields primaryKey vary r)))
  end.

Definition variantDigest (variantKey : string) : string :=
  str_take variantDigestLength (sha256_hex variantKey).

Definition entryIsResponse (e : CacheEntry) : bool := 100 <=? StatusCode e.

Definition entryIsIndex (e : CacheEntry) : bool :=
  (StatusCode e =? 0) && negb (Nat.eqb (length (VaryOn e)) 0).

Definition storageKeyFor (e : CacheEntry) (primaryKey : string) : string :=
  if String.eqb (VariantKey e) "" then primaryKey else VariantKey e.

Definition entryAnswers (e : CacheEntry) (primaryKey : string) (r : Request) : bool :=
  if negb (entryIsResponse e) then false
  else if negb (String.eqb (variantKeyFor primaryKey (VaryOn e) r) (storageKeyFor e primaryKey))
  then false
  else entryReadableBy e r.

Definition newVariantIndex (e : CacheEntry) (variants : list string) : CacheEntry :=
  mkCacheEntry (ceService e) (cePath e) (VaryOn e) "" variants 0 ∅ "" (StoredAt e) 0
    (Z.max (wrap64 (FreshFor e + StaleWhileRevalidate e)) cacheVariantIndexMinTTL) 0.

(** [admitVariant]: the index to publish, if any, or a refusal. *)
Definition admitVariant (co : CacheOptions) (index : option CacheEntry) (e : CacheEntry)
    (primaryKey : string) : result cacheRefusal (option CacheEntry) :=
  if Nat.eqb (length (VaryOn e)) 0 then Ok None
  else
    let digest := variantDigest (storageKeyFor e primaryKey) in
    match index with
    | None => Ok (Some (newVariantIndex e [digest]))
    | Some ix =>
        if negb (bool_decide (VaryOn ix = VaryOn e)) then Ok (Some (newVariantIndex e [digest]))
        else if str_contains (Variants ix) digest then Ok (Some (newVariantIndex e (Variants ix)))
        else if maxVariants co <=? Z.of_nat (length (Variants ix)) then Err cacheRefusalVariantLimit
        else Ok (Some (newVariantIndex e (Variants ix ++ [digest])))
    end.

End keys.

(** ** Lemmas: framing *)

Lemma be_bytes_length k z : String.length (be_bytes k z) = k.
Proof.
  revert z. induction k as [|k IH]; intros z; cbn [be_bytes]; [done|].
  rewrite str_length_app, IH. cbn. lia.
Qed.

Lemma str_snoc_inj a b (c d : ascii) :
  a +:+ String c "" = b +:+ String d "" → a = b ∧ c = d.
Proof.
  revert b. induction a as [|x a IH]; intros [|y b]; cbn.
  - by intros [= ->].
  - intros [= -> H]. by destruct b.
  - intros [= -> H]. by destruct a.
  - intros [= -> H]. destruct (IH b H) as [-> ->]. done.
Qed.

Lemma be_bytes_inj k x y :
  0 ≤ x < 256 ^ Z.of_nat k → 0 ≤ y < 256 ^ Z.of_nat k → be_bytes k x = be_bytes k y → x = y.
Proof.
  revert x y. induction k as [|k IH]; intros x y Hx Hy; cbn [be_bytes].
  { intros _. cbn in *. lia. }
  intros [H1 H2]%str_snoc_inj.
  rewrite Nat2Z.inj_succ, Z.pow_succ_r in Hx, Hy by lia.
  apply IH in H1; [|split; [apply Z.div_pos; lia|apply Z.div_lt_upper_bound; lia]..].
  assert (x mod 256 = y mod 256).
  { pose proof (Z.mod_pos_bound x 256). pose proof (Z.mod_pos_bound y 256).
    apply (f_equal N_of_ascii) in H2. rewrite !N_ascii_embedding in H2 by lia. lia. }
  rewrite (Z.div_mod x 256), (Z.div_mod y 256) by lia. congruence.
Qed.

(** Values whose length fits the eight-byte prefix. *)
Definition framable (v : string) : Prop := str_len v < 2 ^ 64.

Lemma framable_check l : forallb (λ v, str_len v <? 2 ^ 64) l = true → Forall framable l.
Proof.
  intros H. apply Forall_forall. intros v Hv. rewrite forallb_forall in H.
  apply Z.ltb_lt, H. by apply list_elem_of_In.
Qed.

Lemma writeKeyField_inj v w x y :
  framable v → framable w → writeKeyField v +:+ x = writeKeyField w +:+ y → v = w ∧ x = y.
Proof.
  unfold writeKeyField. intros Hv Hw. rewrite <-!str_app_assoc. intros H.
  apply str_app_inj_len in H as [Hlen H]; [|by rewrite !be_bytes_length].
  apply be_bytes_inj in Hlen;
    [|split; [unfold str_len; lia|exact Hv]|split; [unfold str_len; lia|exact Hw]].
  apply str_app_inj_len in H as [-> ->]; [done|]. unfold str_len in Hlen. lia.
Qed.

Lemma frames_inj l k :
  Forall framable l → Forall framable k → frames l = frames k → l = k.
Proof.
  intros Hl. revert k. induction Hl as [|v l Hv Hl IH]; intros [|w k] Hk H; cbn [frames] in H.
  - done.
  - apply (f_equal String.length) in H. unfold writeKeyField in H.
    rewrite !str_length_app, be_bytes_length in H. cbn in H. lia.
  - apply (f_equal String.length) in H. unfold writeKeyField in H.
    rewrite !str_length_app, be_bytes_length in H. cbn in H. lia.
  - apply Forall_cons in Hk as [Hw Hk]. apply writeKeyField_inj in H as [-> H]; [|done..].
    f_equal. by apply IH.
Qed.

(** Pairs of names and values over the same names. *)
Lemma pairs_inj {A} (names : list string) (f g : string → A) (h : A → string) :
  (n ← names; [n; h (f n)]) = (n ← names; [n; h (g n)]) →
  ∀ n, n ∈ names → h (f n) = h (g n).
Proof.
  induction names as [|m names IH]; cbn; intros H n Hn; [by apply elem_of_nil in Hn|].
  injection H as Hm H. apply elem_of_cons in Hn as [->|Hn]; auto.
Qed.

Lemma pairs_length (names : list string) (f : string → string) :
  length (n ← names; [n; f n]) = (2 * length names)%nat.
Proof. induction names as [|m names IH]; cbn in *; [done|]. lia. Qed.

(** ** Lemmas: Vary *)

Lemma vary_strict_covers co enc declared f :
  vary_strict co enc declared = Ok tt → f ∈ declared →
  f ≠ varyWildcard ∧ (coversVaryField co f = true ∨ f = acceptEncodingHeader ∧ enc = false).
Proof.
  induction declared as [|g gs IH]; cbn [vary_strict]; [by intros _ ?%elem_of_nil|].
  destruct (String.eqb_spec g varyWildcard) as [|Hw]; [done|].
  destruct (String.eqb_spec g acceptEncodingHeader) as [->|Ha]; [destruct enc|]; cbn.
  - destruct (coversVaryField co acceptEncodingHeader) eqn:Hc; [|done]. cbn.
    intros H [->|Hf]%elem_of_cons; auto.
  - intros H [->|Hf]%elem_of_cons; auto.
  - destruct (coversVaryField co g) eqn:Hc; [|done]. cbn.
    intros H [->|Hf]%elem_of_cons; auto.
Qed.

Lemma vary_fields_covers co enc declared fields :
  vary_fields co enc declared = Ok fields →
  (∀ f, f ∈ declared → f ≠ varyWildcard ∧
     (coversVaryField co f = true ∨ f ∈ fields ∨ f = acceptEncodingHeader ∧ enc = false)) ∧
  (∀ f, f ∈ fields → f ∈ declared ∧ (f ∉ unkeyableVaryFields) ∧ coversVaryField co f = false).
Proof.
  revert fields. induction declared as [|g gs IH]; intros fields; cbn [vary_fields].
  { intros [= <-]. split; by intros f ?%elem_of_nil. }
  destruct (String.eqb_spec g varyWildcard) as [|Hw]; [done|].
  destruct (coversVaryField co g) eqn:Hc.
  { intros [H1 H2]%IH. split; [intros f [->|Hf]%elem_of_cons; auto|].
    intros f Hf. destruct (H2 f Hf) as (? & ? & ?). set_solver. }
  destruct (String.eqb g acceptEncodingHeader && negb enc) eqn:Ha.
  { apply andb_true_iff in Ha as [->%String.eqb_eq ->%negb_true_iff]. intros [H1 H2]%IH.
    split; [intros f [->|Hf]%elem_of_cons; auto|].
    intros f Hf. destruct (H2 f Hf) as (? & ? & ?). set_solver. }
  destruct (str_contains unkeyableVaryFields g) eqn:Hu; [done|].
  intros (rest & [H1 H2]%IH & [= <-])%result_bind_ok. apply str_contains_false in Hu.
  split.
  - intros f [->|Hf]%elem_of_cons; [split; [done|right; left; set_solver]|].
    destruct (H1 f Hf) as [? [?|[?|?]]]; split; auto. right. left. set_solver.
  - intros f [->|Hf]%elem_of_cons; [split; [set_solver|done]|].
    destruct (H2 f Hf) as (? & ? & ?). set_solver.
Qed.

(** What [varyFieldsFor] promises of the fields it returns. *)
Definition vary_ok (co : CacheOptions) (h : gmap string (list string)) (fields : list string) : Prop :=
  let encoded := negb (String.eqb (hdr_get h "Content-Encoding") "") in
  (∀ f, f ∈ varyFieldNames h → f ≠ varyWildcard ∧
     (coversVaryField co f = true ∨ f ∈ fields ∨ f = acceptEncodingHeader ∧ encoded = false)) ∧
  (encoded = true → coversVaryField co acceptEncodingHeader = true ∨ acceptEncodingHeader ∈ fields) ∧
  (∀ f, f ∈ fields → f ∉ unkeyableVaryFields) ∧ (length fields ≤ 8)%nat.

Lemma varyFieldsFor_ok co h fields : varyFieldsFor co h = Ok fields → vary_ok co h fields.
Proof.
  unfold varyFieldsFor, vary_ok. set (encoded := negb (String.eqb _ "")).
  destruct (automaticVary co); cbn [negb].
  - intros (fs & [H1 H2]%vary_fields_covers & (fs' & Henc & H)%result_bind_ok)%result_bind_ok.
    destruct (maxVaryFields <? Z.of_nat (length fs')) eqn:Hlen; [done|]. injection H as <-.
    apply Z.ltb_ge in Hlen. unfold maxVaryFields in Hlen.
    assert (Hperm : sort_strings fs' ≡ₚ fs') by apply sort_strings_perm.
    setoid_rewrite Hperm.
    assert (Hsub : (∀ f, f ∈ fs → f ∈ fs') ∧ (∀ f, f ∈ fs' → f ∈ fs ∨ f = acceptEncodingHeader) ∧
      (encoded = true → coversVaryField co acceptEncodingHeader = true ∨ acceptEncodingHeader ∈ fs')).
    { destruct encoded; cbn in Henc; [|by injection Henc as <-; auto 6 with congruence].
      destruct (str_contains fs acceptEncodingHeader) eqn:Hin; cbn in Henc.
      { injection Henc as <-. apply str_contains_spec in Hin. auto. }
      destruct (coversVaryField co acceptEncodingHeader); cbn in Henc; [by injection Henc as <-; auto|].
      destruct (encodingIsKeyable _); [|done]. injection Henc as <-. set_solver. }
    destruct Hsub as (Hs1 & Hs2 & Hs3). split; [|split; [exact Hs3|split]].
    + intros f Hf. destruct (H1 f Hf) as [? [?|[?|?]]]; split; auto.
    + intros f [Hf| ->]%Hs2; [by apply H2|]. apply str_contains_false. reflexivity.
    + lia.
  - intros ([] & Hs & H)%result_bind_ok.
    destruct (encoded && negb (coversVaryField co acceptEncodingHeader)) eqn:He; [done|].
    injection H as <-. split; [|split; [|split; [by intros f ?%elem_of_nil|cbn; lia]]].
    + intros f Hf. destruct (vary_strict_covers _ _ _ _ Hs Hf) as [? [?|?]]; auto.
    + intros Henc. rewrite Henc in He. cbn in He. apply negb_false_iff in He. by left.
Qed.

(** ** Lemmas: sizes *)

Lemma sumf_str_len_nonneg l : 0 ≤ sumf str_len l.
Proof.
  transitivity (sumf (λ _ : string, 0) l); [rewrite sumf_const; lia|].
  apply sumf_le. intros x _. apply str_len_nonneg.
Qed.

Lemma header_size_nonneg h : 0 ≤ header_size h.
Proof.
  unfold header_size. apply (map_fold_weak_ind (λ z _, 0 ≤ z)); [done|].
  intros n vs m z _ Hz. pose proof (sumf_str_len_nonneg vs). pose proof (str_len_nonneg n). lia.
Qed.

Lemma size_nonneg e : cacheEntryOverhead ≤ size e.
Proof.
  unfold size. pose proof (sumf_str_len_nonneg (VaryOn e)).
  pose proof (sumf_str_len_nonneg (Variants e)). pose proof (header_size_nonneg (ceHeader e)).
  pose proof (str_len_nonneg (Body e)). pose proof (str_len_nonneg (ceService e)).
  pose proof (str_len_nonneg (cePath e)). pose proof (str_len_nonneg (VariantKey e)). lia.
Qed.

(** ** Lemmas: keys *)

Section key_lemmas.
Context `{F64 : Float64} (sha256_hex : string → string).

Lemma key_fields_inj s1 v1 r1 s2 v2 r2 co :
  key_fields s1 v1 r1 co = key_fields s2 v2 r2 co →
  s1 = s2 ∧ v1 = v2 ∧ IsTLS r1 = IsTLS r2 ∧ Host r1 = Host r2 ∧ URLPath r1 = URLPath r2 ∧
  RawQuery r1 = RawQuery r2 ∧
  (∀ n, n ∈ VaryHeaders co → keyValueFor r1 n = keyValueFor r2 n) ∧
  (∀ n, n ∈ VaryCookies co → default "" (req_cookie r1 n) = default "" (req_cookie r2 n)).
Proof.
  unfold key_fields. cbn [app]. intros H. injection H as -> -> Htls -> -> -> H.
  apply app_inj_1 in H as [Hh Hc]; [|by rewrite !pairs_length].
  repeat (split; [done|]). split; [by destruct (IsTLS r1), (IsTLS r2)|].
  repeat (split; [done|]). split.
  - by apply (pairs_inj _ (keyValueFor r1) (keyValueFor r2) id).
  - by apply (pairs_inj _ (req_cookie r1) (req_cookie r2) (default "")).
Qed.

Lemma variant_fields_inj k vary r1 r2 :
  variant_fields k vary r1 = variant_fields k vary r2 →
  ∀ f, f ∈ vary → keyValueFor r1 f = keyValueFor r2 f.
Proof.
  unfold variant_fields. intros [= H].
  by apply (pairs_inj _ (keyValueFor r1) (keyValueFor r2) id).
Qed.
(** What two requests with the same cache key agree on. *)
Definition same_resource (co : CacheOptions) (s1 v1 : string) (r1 : Request)
    (s2 v2 : string) (r2 : Request) : Prop :=
  s1 = s2 ∧ v1 = v2 ∧ IsTLS r1 = IsTLS r2 ∧ Host r1 = Host r2 ∧ URLPath r1 = URLPath r2 ∧
  RawQuery r1 = RawQuery r2 ∧
  (∀ n, n ∈ VaryHeaders co → keyValueFor r1 n = keyValueFor r2 n) ∧
  (∀ n, n ∈ VaryCookies co → default "" (req_cookie r1 n) = default "" (req_cookie r2 n)).

Lemma cacheKey_inj s1 v1 r1 s2 v2 r2 co :
  (∀ x, String.length (sha256_hex x) = 64%nat) →
  (sha256_hex (frames (key_fields s1 v1 r1 co)) = sha256_hex (frames (key_fields s2 v2 r2 co)) →
     frames (key_fields s1 v1 r1 co) = frames (key_fields s2 v2 r2 co)) →
  Forall framable (key_fields s1 v1 r1 co) → Forall framable (key_fields s2 v2 r2 co) →
  cacheKey sha256_hex s1 v1 r1 co = cacheKey sha256_hex s2 v2 r2 co →
  same_resource co s1 v1 r1 s2 v2 r2.
Proof.
  intros Hlen Hcol H1 H2 Hkey. unfold cacheKey in Hkey. apply str_app_inv_l in Hkey.
  rewrite !str_app_assoc in Hkey.
  assert (String.length (s1 +:+ ":") = String.length (s2 +:+ ":")) as Hpre.
  { pose proof (f_equal String.length Hkey) as Hl.
    rewrite !(str_length_app (_ +:+ ":")), !Hlen in Hl. lia. }
  apply str_app_inj_len in Hkey as [_ Hhash]; [|done].
  eapply key_fields_inj, frames_inj; eauto.
Qed.

(** An entry is told the variant key of the request it was stored for. *)
Definition keyed_for (primary : string) (e : CacheEntry) (r : Request) : Prop :=
  VariantKey e = match VaryOn e with
                 | [] => ""
                 | _ => variantKeyFor sha256_hex primary (VaryOn e) r
                 end.

(** The truncated hash does not collide on these two requests' fields. *)
Definition variant_collision_free (primary : string) (vary : list string) (r r' : Request) : Prop :=
  str_take variantDigestLength (sha256_hex (frames (variant_fields primary vary r'))) =
  str_take variantDigestLength (sha256_hex (frames (variant_fields primary vary r))) →
  frames (variant_fields primary vary r') = frames (variant_fields primary vary r).

Lemma entryAnswers_agree primary e r r' :
  keyed_for primary e r → primary ≠ "" → variant_collision_free primary (VaryOn e) r r' →
  Forall framable (variant_fields primary (VaryOn e) r) →
  Forall framable (variant_fields primary (VaryOn e) r') →
  entryAnswers sha256_hex e primary r' = true →
  100 ≤ StatusCode e ∧
  (∀ f, f ∈ VaryOn e → keyValueFor r' f = keyValueFor r f) ∧
  clientAcceptsEncoding r' (hdr_get (ceHeader e) "Content-Encoding") = true.
Proof.
  unfold keyed_for, variant_collision_free.
  intros Hvk Hne Hcol Hf Hf'. unfold entryAnswers, entryIsResponse, entryReadableBy.
  destruct (Z.leb_spec 100 (StatusCode e)); cbn [negb]; [|done].
  destruct (String.eqb_spec (variantKeyFor sha256_hex primary (VaryOn e) r')
              (storageKeyFor e primary)) as [Heq|]; cbn [negb]; [|done].
  intros Henc. split; [done|]. split; [|done].
  destruct (VaryOn e) as [|v vs] eqn:Hv; [by intros f ?%elem_of_nil|].
  apply variant_fields_inj with (k := primary). apply frames_inj; [done..|]. apply Hcol.
  unfold storageKeyFor in Heq. rewrite Hvk in Heq. cbn [variantKeyFor] in Heq.
  destruct (String.eqb_spec (primary +:+ str_take variantDigestLength
    (sha256_hex (frames (variant_fields primary (v :: vs) r)))) "") as [E|].
  - by destruct primary.
  - by apply str_app_inv_l in Heq.
Qed.
End key_lemmas.

(** ** Theorems *)

(** C33: nothing is stored without consent.  A response the policy lets through
    came with a storable status and a [Cache-Control] that says [public] and
    none of [private], [no-store] and [no-cache]; it carries a positive shared
    lifetime, capped by the operator's, no cookie unless the operator allows
    it, no byte range and no event stream; and every field it varies on is in
    the primary key or keys its variant, with at most eight of them, none of
    which differs for every client, and an encoded body keyed by encoding. *)
Theorem stored_with_consent co status h p :
  responseIsStorable co status h = Ok p →
  let d := parseCacheControl (hdr_values h "Cache-Control") in
  Enabled co = true ∧ status ∈ cacheableStatuses ∧
  public d = true ∧ private d = false ∧ noStore d = false ∧ noCache d = false ∧
  (∃ l, sharedLifetime d = Some l ∧ 0 < l ∧
     freshFor p = (if 0 <? MaxTTL co then Z.min l (MaxTTL co) else l)) ∧
  (mustRevalidate d = true → polStale p = 0) ∧
  (hdr_get h "Set-Cookie" ≠ "" → AllowSetCookie co = true) ∧
  hdr_get h "Content-Range" = "" ∧
  normalizeContentType (hdr_get h "Content-Type") ≠ eventStreamContentType ∧
  vary_ok co h (varyOn p).
Proof.
  unfold responseIsStorable. set (d := parseCacheControl _). cbn zeta.
  destruct (Enabled co); [|done]. cbn [negb].
  destruct (existsb (Z.eqb status) cacheableStatuses) eqn:Hst; [|done]. cbn [negb].
  destruct (noStore d), (private d), (public d), (noCache d); try done. cbn [negb].
  destruct (sharedLifetime d) as [l|]; [|done]. destruct (Z.leb_spec l 0); [done|].
  destruct (_ && negb (AllowSetCookie co)) eqn:Hck; [done|].
  destruct (String.eqb_spec (hdr_get h "Content-Range") ""); [|done]. cbn [negb].
  destruct (String.eqb_spec (normalizeContentType (hdr_get h "Content-Type"))
              eventStreamContentType); [done|].
  intros (vary & Hvary & [= <-])%result_bind_ok. cbn [freshFor polStale varyOn].
  split; [done|]. split.
  { apply existsb_exists in Hst as (x & Hx & ->%Z.eqb_eq). by apply list_elem_of_In. }
  repeat (split; [done|]). split.
  { exists l. split; [done|]. split; [done|]. destruct (Z.ltb_spec 0 (MaxTTL co)); cbn; [|done].
    destruct (Z.ltb_spec (MaxTTL co) l); lia. }
  split; [by intros ->|]. split.
  { intros Hc. apply String.eqb_neq in Hc. rewrite Hc in Hck. cbn in Hck.
    by apply negb_false_iff in Hck. }
  split; [done|]. split; [done|]. by apply varyFieldsFor_ok.
Qed.

(** Two requests share a cache key only when they ask for the same thing:
    the same service and variant group, scheme, host, path and query, and the
    same value of every header and cookie the operator keys on.  The hash is
    assumed to give 64 digits and not to collide on the two inputs. *)
Theorem cache_key_separates `{F64 : Float64} (sha256_hex : string → string)
    s1 v1 r1 s2 v2 r2 co :
  (∀ x, String.length (sha256_hex x) = 64%nat) →
  (sha256_hex (frames (key_fields s1 v1 r1 co)) = sha256_hex (frames (key_fields s2 v2 r2 co)) →
     frames (key_fields s1 v1 r1 co) = frames (key_fields s2 v2 r2 co)) →
  Forall framable (key_fields s1 v1 r1 co) → Forall framable (key_fields s2 v2 r2 co) →
  cacheKey sha256_hex s1 v1 r1 co = cacheKey sha256_hex s2 v2 r2 co →
  s1 = s2 ∧ v1 = v2 ∧ IsTLS r1 = IsTLS r2 ∧ Host r1 = Host r2 ∧ URLPath r1 = URLPath r2 ∧
  RawQuery r1 = RawQuery r2 ∧
  (∀ n, n ∈ VaryHeaders co → keyValueFor r1 n = keyValueFor r2 n) ∧
  (∀ n, n ∈ VaryCookies co → default "" (req_cookie r1 n) = default "" (req_cookie r2 n)).
Proof. apply cacheKey_inj. Qed.

(** A stored entry only ever answers requests that negotiate as the one
    it was stored for did.  Whatever index, coalesced fetch or key led to it,
    if an entry kept for request [r] answers request [r'] of the same
    resource, then the two agree on every field the response varies on, and
    the client of [r'] can decode the body. *)
Theorem entry_answers_its_variant `{F64 : Float64} (sha256_hex : string → string)
    primary e r r' :
  keyed_for sha256_hex primary e r → primary ≠ "" →
  variant_collision_free sha256_hex primary (VaryOn e) r r' →
  Forall framable (variant_fields primary (VaryOn e) r) →
  Forall framable (variant_fields primary (VaryOn e) r') →
  entryAnswers sha256_hex e primary r' = true →
  100 ≤ StatusCode e ∧
  (∀ f, f ∈ VaryOn e → keyValueFor r' f = keyValueFor r f) ∧
  clientAcceptsEncoding r' (hdr_get (ceHeader e) "Content-Encoding") = true.
Proof. apply entryAnswers_agree. Qed.

(** An entry is served exactly for its lifetime.  While nothing overflows
    a duration, it may answer a request until the time to live it was stored
    with has passed, is refreshed behind the answer exactly in the stale
    window after its fresh lifetime, and never again once it has expired. *)
Theorem entry_lifetime e now :
  0 ≤ InitialAge e → 0 ≤ FreshFor e → 0 ≤ StaleWhileRevalidate e →
  FreshFor e + StaleWhileRevalidate e ≤ int64_max →
  StoredAt e ≤ now → InitialAge e + (now - StoredAt e) ≤ int64_max →
  servable now e = (now <? StoredAt e + ttl e) ∧
  (fresh now e = true → servable now e = true) ∧
  (needsRevalidation now e = true ↔
     FreshFor e ≤ InitialAge e + (now - StoredAt e) <
       FreshFor e + StaleWhileRevalidate e) ∧
  (StaleWhileRevalidate e = 0 → servable now e = fresh now e).
Proof.
  intros Ha Hf Hs Hmax Hnow Hov.
  assert (Hage : age now e = InitialAge e + (now - StoredAt e)).
  { unfold age. rewrite time_sub_exact by (unfold in_int64, int64_min; lia).
    rewrite Z.max_r, wrap64_id by (unfold in_int64, int64_min in *; lia). done. }
  assert (Hsum : wrap64 (FreshFor e + StaleWhileRevalidate e) = FreshFor e + StaleWhileRevalidate e)
    by (apply wrap64_id; unfold in_int64, int64_min; lia).
  assert (Httl : wrap64 (FreshFor e + StaleWhileRevalidate e - InitialAge e) =
                 FreshFor e + StaleWhileRevalidate e - InitialAge e).
  { apply wrap64_id. unfold in_int64, int64_min, int64_max in *. lia. }
  unfold needsRevalidation, servable, fresh, ttl. rewrite Hage, Hsum, Httl.
  split; [|split; [|split]].
  - apply eq_true_iff_eq. rewrite !Z.ltb_lt. lia.
  - rewrite !Z.ltb_lt. lia.
  - rewrite andb_true_iff, negb_true_iff, Z.ltb_ge, Z.ltb_lt. done.
  - intros ->. f_equal. lia.
Qed.

(** The index never records more variants than the cap, nor loses one. *)
Lemma admitVariant_capped sha256_hex co index e primary ix :
  admitVariant sha256_hex co index e primary = Ok (Some ix) →
  (∀ i, index = Some i → Z.of_nat (length (Variants i)) ≤ maxVariants co) → 1 ≤ maxVariants co →
  Z.of_nat (length (Variants ix)) ≤ maxVariants co ∧
  variantDigest sha256_hex (storageKeyFor e primary) ∈ Variants ix ∧ VaryOn ix = VaryOn e.
Proof.
  intros H Hcap Hpos. unfold admitVariant in H. destruct (Nat.eqb _ 0); [done|].
  destruct index as [i|]; [|injection H as <-; cbn; split; [lia|]; split; [set_solver|done]].
  specialize (Hcap i eq_refl). destruct (bool_decide (VaryOn i = VaryOn e)) eqn:Hv; cbn [negb] in H.
  - destruct (str_contains _ _) eqn:Hc.
    + injection H as <-. cbn. split; [done|]. split; [by apply str_contains_spec|done].
    + destruct (Z.leb_spec (maxVariants co) (Z.of_nat (length (Variants i)))); [done|].
      injection H as <-. cbn. rewrite length_app. cbn.
      split; [lia|]. split; [set_solver|done].
  - injection H as <-. cbn. split; [lia|]. split; [set_solver|done].
Qed.

(** ** Witnesses *)

Module CacheExamples.
#[local] Existing Instance CompressionExamples.milli_float.

Definition co : CacheOptions := mkCacheOptions true 0 0 [] [] false 0.

Definition req (method path accept : string) : Request :=
  mkRequest method "example.com" path "" "" false true "10.0.0.1:1"
    {["Accept" := [accept]; "Accept-Encoding" := ["gzip, br"]]} [] 0 None false false.

(** A stand-in for the hash: 64 characters that depend on the input. *)
Definition zeros : string := "0000000000000000000000000000000000000000000000000000000000000000".
Definition fake_hex (x : string) : string :=
  let s := string_of_list_ascii (reverse (list_ascii_of_string x)) in
  str_take 64 (s +:+ zeros).

Lemma fake_hex_length x : String.length (fake_hex x) = 64%nat.
Proof.
  unfold fake_hex. set (s := string_of_list_ascii _).
  assert (H : ∀ n t, (n ≤ String.length t)%nat → String.length (str_take n t) = n).
  { induction n as [|n IH]; intros [|c t] Hn; cbn in *; [done|done|lia|]. rewrite IH; lia. }
  apply H. rewrite str_length_app. change (String.length zeros) with 64%nat. lia.
Qed.

Definition html : gmap string (list string) :=
  {["Cache-Control" := ["public, max-age=60, stale-while-revalidate=30"];
    "Vary" := ["Accept, Accept-Encoding"]; "Content-Type" := ["text/html; charset=utf-8"]]}.

Lemma stored_with_consent_witness :
  responseIsStorable co 200 html = Ok (mkPolicy (60 * second) (30 * second) ["accept"]) ∧
  vary_ok co html ["accept"].
Proof.
  split; [vm_compute; reflexivity|].
  apply (stored_with_consent co 200 html (mkPolicy (60 * second) (30 * second) ["accept"])).
  vm_compute. reflexivity.
Defined.

Lemma cache_key_separates_witness :
  cacheKey fake_hex "web" "" (req "GET" "/a" "text/html") co =
    cacheKey fake_hex "web" "" (req "HEAD" "/a" "*/*") co ∧
  URLPath (req "GET" "/a" "text/html") = URLPath (req "HEAD" "/a" "*/*").
Proof.
  split; [vm_compute; reflexivity|].
  refine (proj1 (proj2 (proj2 (proj2 (proj2 (cache_key_separates fake_hex "web" ""
    (req "GET" "/a" "text/html") "web" "" (req "HEAD" "/a" "*/*") co
    fake_hex_length _ _ _ _)))))).
  - intros _. vm_compute. reflexivity.
  - apply framable_check. vm_compute. reflexivity.
  - apply framable_check. vm_compute. reflexivity.
  - vm_compute. reflexivity.
Defined.

Definition stored : CacheEntry :=
  mkCacheEntry "web" "/a" ["accept"]
    (variantKeyFor fake_hex "kp:c:web:1" ["accept"] (req "GET" "/a" "text/html")) [] 200 html
    "<p>" 0 0 (60 * second) (30 * second).

Lemma entry_answers_its_variant_witness :
  keyValueFor (req "HEAD" "/a" "text/html") "accept" =
  keyValueFor (req "GET" "/a" "text/html") "accept".
Proof.
  destruct (entry_answers_its_variant fake_hex "kp:c:web:1" stored (req "GET" "/a" "text/html")
    (req "HEAD" "/a" "text/html")) as (_ & H & _).
  - vm_compute. reflexivity.
  - discriminate.
  - intros _. vm_compute. reflexivity.
  - apply framable_check. vm_compute. reflexivity.
  - apply framable_check. vm_compute. reflexivity.
  - vm_compute. reflexivity.
  - apply H. left.
Defined.

Example other_variant_is_refused :
  entryAnswers fake_hex stored "kp:c:web:1" (req "GET" "/a" "application/json") = false.
Proof. vm_compute. reflexivity. Qed.

Lemma entry_lifetime_witness :
  servable (80 * second) stored = true ∧ servable (100 * second) stored = false.
Proof.
  destruct (entry_lifetime stored (80 * second)) as [H _]; try (vm_compute; discriminate).
  destruct (entry_lifetime stored (100 * second)) as [H' _]; try (vm_compute; discriminate).
  rewrite H, H'. split; vm_compute; reflexivity.
Defined.

(** The arithmetic on lifetimes wraps: a stale window close to the largest
    duration makes a fresh entry unservable, and a lifetime past it is read as
    no lifetime at all. *)
Example huge_stale_window_is_never_served :
  match responseIsStorable co 200
    {["Cache-Control" := ["public, max-age=60, stale-while-revalidate=9223372036"]]} with
  | Ok p => let e := mkCacheEntry "web" "/" [] "" [] 200 ∅ "" 0 0 (freshFor p) (polStale p) in
            (fresh 0 e, servable 0 e, ttl e)
  | Err _ => (false, false, 1)
  end = (true, false, 0).
Proof. vm_compute. reflexivity. Qed.

Example huge_lifetime_is_refused :
  responseIsStorable co 200 {["Cache-Control" := ["public, max-age=9223372037"]]} =
  Err (cacheRefusalNoLifetime, "").
Proof. vm_compute. reflexivity. Qed.
End CacheExamples.
