(* ===== verification/CacheLease.v ===== *)
(** * Cache leases: [internal/server/cache_lease.go]

    The options and outcomes of the cross-node single flight, the key a lease
    lives under, and the breaker that keeps a silent store from costing a
    timeout per request.  The clock is an argument. *)
From S2P Require Import Prelude GoStrings CachePolicy.

Definition cacheLeaseKeyPrefix : string := "kp:l:".
Definition cacheLeaseBreakerThreshold : Z := 3.
Definition cacheLeaseBreakerCooldown : Z := 5 * second.
Definition DefaultCacheLeaseTTL : Z := 10 * second.
Definition DefaultCacheLeaseWait : Z := 500 * millisecond.

(** ** Options and outcomes *)

Record CacheLeaseOptions := mkLeaseOptions { leaseTTL : Z; leaseWait : Z }.

Definition lease_ttl (o : CacheLeaseOptions) : Z :=
  if leaseTTL o <? 0 then 0 else if leaseTTL o =? 0 then DefaultCacheLeaseTTL else leaseTTL o.

Definition lease_wait (o : CacheLeaseOptions) : Z :=
  if leaseWait o <? 0 then 0 else if leaseWait o =? 0 then DefaultCacheLeaseWait else leaseWait o.

Definition lease_Enabled (o : CacheLeaseOptions) : bool := 0 <? lease_ttl o.

Inductive CacheLeaseOutcome :=
  CacheLeaseAcquired | CacheLeaseTaken | CacheLeaseUnavailable | CacheLeaseDeferred.

(** [None]: the zero lease, which grants. *)
Record CacheLease := mkLease {
  leaseOutcome : option CacheLeaseOutcome;
  leaseKey : string;
  leaseToken : string }.

Definition taken (l : CacheLease) : bool :=
  match leaseOutcome l with Some CacheLeaseTaken => true | _ => false end.

Definition mine (l : CacheLease) : bool :=
  match leaseOutcome l with
  | Some CacheLeaseAcquired => negb (String.eqb (leaseKey l) "") && negb (String.eqb (leaseToken l) "")
  | _ => false
  end.

Definition cacheLeaseKey (entryKey : string) : string :=
  cacheLeaseKeyPrefix +:+ TrimPrefix entryKey cacheKeyPrefix.

(** ** The breaker *)

Record leaseBreaker := mkBreaker { brFailures : Z; openedAt : Z }.

Definition newBreaker : leaseBreaker := mkBreaker 0 0.

(** Whether the store should be skipped. *)
Definition breaker_open (now : Z) (b : leaseBreaker) : leaseBreaker * bool :=
  if brFailures b <? cacheLeaseBreakerThreshold then (b, false)
  else if time_sub now (openedAt b) <? cacheLeaseBreakerCooldown then (b, true)
  else (mkBreaker (cacheLeaseBreakerThreshold - 1) (openedAt b), false).

Definition breaker_failed (now : Z) (b : leaseBreaker) : leaseBreaker :=
  let n := brFailures b + 1 in
  mkBreaker n (if cacheLeaseBreakerThreshold <=? n then now else openedAt b).

Definition breaker_succeeded (b : leaseBreaker) : leaseBreaker := mkBreaker 0 (openedAt b).

(** [AcquireLease] around its one command: [token] is what randomness gave, if
    it did, and [setnx] the store's answer, if it came. *)
Definition AcquireLease (now : Z) (ttl : Z) (key : string) (token : option string)
    (setnx : option bool) (later : Z) (b : leaseBreaker) : leaseBreaker * CacheLease :=
  if ttl <=? 0 then (b, mkLease (Some CacheLeaseUnavailable) "" "")
  else
    let '(b1, skip) := breaker_open now b in
    if skip then (b1, mkLease (Some CacheLeaseDeferred) "" "")
    else match token with
         | None => (b1, mkLease (Some CacheLeaseUnavailable) "" "")
         | Some t =>
             match setnx with
             | None => (breaker_failed later b1, mkLease (Some CacheLeaseUnavailable) "" "")
             | Some false =>
                 (breaker_succeeded b1, mkLease (Some CacheLeaseTaken) (cacheLeaseKey key) "")
             | Some true =>
                 (breaker_succeeded b1, mkLease (Some CacheLeaseAcquired) (cacheLeaseKey key) t)
             end
         end.

(** ** Lemmas *)

(** Only a store that said so makes a proxy back off: every doubt grants. *)
Lemma lease_backs_off_only_when_taken now ttl key token setnx later b :
  taken (AcquireLease now ttl key token setnx later b).2 = true →
  0 < ttl ∧ setnx = Some false ∧ (breaker_open now b).2 = false.
Proof.
  unfold AcquireLease. destruct (Z.leb_spec ttl 0); [done|].
  destruct (breaker_open now b) as [b1 [|]]; [done|].
  destruct token; [|done]. by destruct setnx as [[|]|].
Qed.

(** A lease to be released has a key outside the entries' name space, so a
    purge of entries cannot sweep it. *)
Lemma lease_key_is_no_entry key : HasPrefix (cacheLeaseKey key) cacheKeyPrefix = false.
Proof. reflexivity. Qed.

Definition fails (times : list Z) (b : leaseBreaker) : leaseBreaker :=
  foldl (λ b t, breaker_failed t b) b times.

Lemma fails_count times b : brFailures (fails times b) = brFailures b + Z.of_nat (length times).
Proof.
  revert b. induction times as [|t times IH]; intros b; cbn; [lia|].
  unfold fails in *. rewrite IH. cbn. lia.
Qed.

(** After a run of failures the store is left alone for the cooldown. *)
Lemma breaker_shields b times t now :
  0 ≤ brFailures b → cacheLeaseBreakerThreshold ≤ Z.of_nat (length times) + 1 →
  0 ≤ now - t < cacheLeaseBreakerCooldown →
  breaker_open now (fails (times ++ [t]) b) = (fails (times ++ [t]) b, true).
Proof.
  intros Hb Hn Ht. unfold fails. rewrite foldl_app. cbn [foldl]. fold (fails times b).
  pose proof (fails_count times b) as Hc.
  unfold breaker_open, breaker_failed. cbn [brFailures openedAt].
  destruct (Z.ltb_spec (brFailures (fails times b) + 1) cacheLeaseBreakerThreshold); [lia|].
  destruct (Z.leb_spec cacheLeaseBreakerThreshold (brFailures (fails times b) + 1)); [|lia].
  rewrite time_sub_exact by
    (unfold in_int64, int64_min, int64_max, cacheLeaseBreakerCooldown, second in *; lia).
  destruct (Z.ltb_spec (now - t) cacheLeaseBreakerCooldown); [done|lia].
Qed.

(** ** Examples *)

Module LeaseExamples.
Definition tripped : leaseBreaker := fails [0; 0; 0] newBreaker.

(** Past the cooldown the breaker lets every caller through until one of them
    has failed, not just one. *)
Example half_open_lets_everyone_through :
  let '(b1, first) := breaker_open (6 * second) tripped in
  let '(b2, second_caller) := breaker_open (6 * second) b1 in
  (first, second_caller) = (false, false).
Proof. vm_compute. reflexivity. Qed.
End LeaseExamples.
