(* ===== verification/LruIndex.v ===== *)
(** * The index of a cache store

    The stores that keep entries in this process and in files share the way
    they keep books: records by key, the most recently used first, their bytes,
    and the usage of every service.  An element of the list is named by its
    key.  The usage table is that of [internal/server/cache_store_memory.go]. *)
From S2P Require Import Prelude GoStrings.

Record cacheServiceUsage := mkUsage { uentries : Z; ubytes : Z }.

Definition addUsage (svc : string) (size : Z) (u : gmap string cacheServiceUsage) :=
  let old := default (mkUsage 0 0) (u !! svc) in
  <[svc := mkUsage (uentries old + 1) (ubytes old + size)]> u.

Definition removeUsage (svc : string) (size : Z) (u : gmap string cacheServiceUsage) :=
  match u !! svc with
  | None => u
  | Some old =>
      let n := uentries old - 1 in
      if n <=? 0 then delete svc u else <[svc := mkUsage n (ubytes old - size)]> u
  end.

Section index.
Context {R : Type} (key service : R → string) (size : R → Z).
Implicit Types (l : list R) (r : R).

(** The list without the element of a key. *)
Definition unlink (k : string) (l : list R) : list R := filter (λ r, key r ≠ k) l.

Definition of_service (svc : string) (l : list R) : list R := filter (λ r, service r = svc) l.

(** What the usage table must say about a list. *)
Definition usage_of (svc : string) (l : list R) : option cacheServiceUsage :=
  match of_service svc l with
  | [] => None
  | l' => Some (mkUsage (Z.of_nat (length l')) (sumf size l'))
  end.

(** The books are right. *)
Record index_ok (records : gmap string R) (order : list R) (bytes : Z) (usage : gmap string cacheServiceUsage) : Prop := {
  ix_keys : NoDup (key <$> order);
  ix_records : ∀ k r, records !! k = Some r ↔ r ∈ order ∧ key r = k;
  ix_bytes : bytes = sumf size order;
  ix_usage : ∀ svc, usage !! svc = usage_of svc order }.

Lemma unlink_notin k l : k ∉ (key <$> l) → unlink k l = l.
Proof.
  induction l as [|r l IH]; [done|]. rewrite fmap_cons, not_elem_of_cons. intros [H1 H2].
  unfold unlink in *. rewrite filter_cons_True by (intros E; by apply H1). by rewrite IH.
Qed.

(** Unlinking the element at hand takes exactly it out. *)
Lemma unlink_split l r :
  NoDup (key <$> l) → r ∈ l → ∃ l1 l2, l = l1 ++ r :: l2 ∧ unlink (key r) l = l1 ++ l2.
Proof.
  intros Hnd (l1 & l2 & ->)%list_elem_of_split. exists l1, l2. split; [done|].
  rewrite fmap_app, fmap_cons in Hnd.
  apply NoDup_app in Hnd as (_ & Hd & Hr). apply NoDup_cons in Hr as [Hr _].
  unfold unlink. rewrite filter_app, filter_cons_False by (intros H; by apply H).
  fold (unlink (key r) l1) (unlink (key r) l2).
  rewrite !unlink_notin; [done|done|]. intros H. by apply (Hd _ H); left.
Qed.

Lemma unlink_perm l r : NoDup (key <$> l) → r ∈ l → l ≡ₚ r :: unlink (key r) l.
Proof. intros Hnd Hin. destruct (unlink_split l r Hnd Hin) as (l1 & l2 & -> & ->). symmetry. apply Permutation_middle. Qed.

Lemma unlink_last l r : NoDup (key <$> l ++ [r]) → unlink (key r) (l ++ [r]) = l.
Proof.
  rewrite fmap_app. intros (_ & Hd & _)%NoDup_app. unfold unlink. rewrite filter_app, filter_cons_False by (intros H; by apply H).
  rewrite app_nil_r. apply unlink_notin. intros H. apply (Hd _ H). left.
Qed.

Lemma usage_of_perm svc l k : l ≡ₚ k → usage_of svc l = usage_of svc k.
Proof.
  intros H. unfold usage_of. assert (Hf : of_service svc l ≡ₚ of_service svc k) by (unfold of_service; by rewrite H).
  destruct (of_service svc l) as [|r l'] eqn:El.
  - apply Permutation_nil_l in Hf. by rewrite <-Hf.
  - destruct (of_service svc k) as [|r' k'] eqn:Ek; [by apply Permutation_nil_r in Hf|].
    rewrite (Permutation_length Hf). unfold sumf.
    rewrite (sumZ_permutation _ (size <$> r' :: k')); [done|]. by apply fmap_Permutation.
Qed.

Lemma usage_eq a b a' b' : a = a' → b = b' → Some (mkUsage a b) = Some (mkUsage a' b').
Proof. by intros -> ->. Qed.

Lemma usage_of_cons svc r l :
  usage_of svc (r :: l) =
  if decide (service r = svc)
  then let old := default (mkUsage 0 0) (usage_of svc l) in Some (mkUsage (uentries old + 1) (ubytes old + size r))
  else usage_of svc l.
Proof.
  unfold usage_of, of_service. destruct (decide _) as [Hs|Hs].
  - rewrite filter_cons_True by done.
    destruct (filter _ l) as [|r' l'] eqn:E; cbn [from_option id uentries ubytes length];
      rewrite sumf_cons; apply usage_eq; try lia. change (sumf size []) with 0. lia.
  - by rewrite filter_cons_False.
Qed.

Lemma usage_of_pos svc l u : usage_of svc l = Some u → 0 < uentries u.
Proof. unfold usage_of. destruct (of_service svc l) as [|r l']; [done|]. intros [= <-]. cbn. lia. Qed.

Lemma sumf_perm_record l k : l ≡ₚ k → sumf size l = sumf size k.
Proof. intros H. unfold sumf. apply sumZ_permutation. by apply fmap_Permutation. Qed.

Lemma addUsage_ok r u l :
  (∀ svc, u !! svc = usage_of svc l) → ∀ svc, addUsage (service r) (size r) u !! svc = usage_of svc (r :: l).
Proof.
  intros Hu svc. unfold addUsage. rewrite usage_of_cons. destruct (decide (service r = svc)) as [<-|Hne].
  - by rewrite lookup_insert_eq, Hu.
  - by rewrite lookup_insert_ne.
Qed.

Lemma removeUsage_ok r u l :
  (∀ svc, u !! svc = usage_of svc (r :: l)) → ∀ svc, removeUsage (service r) (size r) u !! svc = usage_of svc l.
Proof.
  intros Hu svc. unfold removeUsage. pose proof (Hu (service r)) as Hr.
  rewrite usage_of_cons, decide_True in Hr by done. cbn zeta in Hr. rewrite Hr. cbn [uentries ubytes].
  destruct (decide (service r = svc)) as [<-|Hne].
  - destruct (usage_of (service r) l) as [[n b]|] eqn:Eo; cbn [from_option id uentries ubytes].
    + apply usage_of_pos in Eo as Hpos. cbn in Hpos. destruct (Z.leb_spec (n + 1 - 1) 0); [lia|].
      rewrite lookup_insert_eq. apply usage_eq; lia.
    + destruct (Z.leb_spec (0 + 1 - 1) 0); [by rewrite lookup_delete_eq|lia].
  - specialize (Hu svc). rewrite usage_of_cons, decide_False in Hu by done.
    destruct (_ <=? 0); [by rewrite lookup_delete_ne|by rewrite lookup_insert_ne].
Qed.

Lemma index_ok_empty : index_ok ∅ [] 0 ∅.
Proof.
  split; [constructor| |done|done]. intros k r. rewrite lookup_empty. split; [done|]. by intros [Hr%elem_of_nil _].
Qed.

Lemma index_ok_drop records order bytes usage r :
  index_ok records order bytes usage → r ∈ order →
  index_ok (delete (key r) records) (unlink (key r) order) (bytes - size r) (removeUsage (service r) (size r) usage).
Proof.
  intros [Hk Hr Hb Hu] Hin. pose proof (unlink_perm _ _ Hk Hin) as Hp. set (l := unlink (key r) order) in *.
  pose proof Hk as Hnd. rewrite Hp, fmap_cons in Hnd. apply NoDup_cons in Hnd as [Hnotin Hnd]. split.
  - done.
  - intros k r'. rewrite lookup_delete_Some, Hr, Hp, elem_of_cons. split.
    + intros (Hne & [->|Hin'] & Hk'); [done|auto].
    + intros [Hin' Hk']. split; [|auto]. intros Heq. apply Hnotin. rewrite Heq, <-Hk'. by apply list_elem_of_fmap_2.
  - rewrite Hb, (sumf_perm_record _ _ Hp), sumf_cons. lia.
  - apply removeUsage_ok. intros svc. rewrite Hu. by apply usage_of_perm.
Qed.

Lemma index_ok_push records order bytes usage r :
  index_ok records order bytes usage → key r ∉ (key <$> order) →
  index_ok (<[key r := r]> records) (r :: order) (bytes + size r) (addUsage (service r) (size r) usage).
Proof.
  intros [Hk Hr Hb Hu] Hnotin. split.
  - by constructor.
  - intros k r'. rewrite lookup_insert_Some, Hr, elem_of_cons. split.
    + intros [[<- <-]|[Hne [Hin Hk']]]; auto.
    + intros [[->|Hin] Hk']; [by left|right]. split; [|done]. intros <-. apply Hnotin. rewrite <-Hk'. by apply list_elem_of_fmap_2.
  - rewrite sumf_cons, Hb. lia.
  - by apply addUsage_ok.
Qed.

(** Using an element changes only the order. *)
Lemma index_ok_perm records order order' bytes usage :
  order ≡ₚ order' → index_ok records order bytes usage → index_ok records order' bytes usage.
Proof.
  intros Hp [Hk Hr Hb Hu]. split.
  - by rewrite <-Hp.
  - intros k r. by rewrite Hr, Hp.
  - by rewrite Hb, (sumf_perm_record _ _ Hp).
  - intros svc. rewrite Hu. by apply usage_of_perm.
Qed.
End index.
