(* ===== verification/CacheStoreMemory.v ===== *)
(** * The in-process cache store: [internal/server/cache_store_memory.go],
    [cache_store_memory_stats.go]

    An LRU list under a byte budget, indexed by key, with the usage of every
    service kept alongside.  An element of the list is named by its key, which
    the invariant shows to be unique; the clones the code makes are values
    here.  Every operation is one critical section. *)
From S2P Require Import Prelude GoStrings Http Compression CachePolicy LruIndex.

(** ** State *)

Record memoryCacheRecord := mkRecord { rkey : string; rentry : CacheEntry; rsize : Z }.

Record memoryCacheStore := mkStore {
  maxBytes : Z;
  sbytes : Z;
  records : gmap string memoryCacheRecord;
  order : list memoryCacheRecord;            (** most recently used first *)
  evictedFresh : Z;
  evictedStale : Z;
  oversized : Z;
  usage : gmap string cacheServiceUsage }.

Definition newMemoryCacheStore (max : Z) : memoryCacheStore := mkStore max 0 ∅ [] 0 0 0 ∅.

Definition rservice (r : memoryCacheRecord) : string := ceService (rentry r).

Abbreviation unlink := (LruIndex.unlink rkey).
Abbreviation usage_of := (LruIndex.usage_of rservice rsize).

Definition removeElement (r : memoryCacheRecord) (s : memoryCacheStore) : memoryCacheStore :=
  mkStore (maxBytes s) (sbytes s - rsize r) (delete (rkey r) (records s)) (unlink (rkey r) (order s))
    (evictedFresh s) (evictedStale s) (oversized s)
    (removeUsage (ceService (rentry r)) (rsize r) (usage s)).

(** ** Operations *)

Definition store_Get (now : Z) (key : string) (s : memoryCacheStore)
  : memoryCacheStore * option CacheEntry :=
  match records s !! key with
  | None => (s, None)
  | Some r =>
      if negb (servable now (rentry r)) then (removeElement r s, None)
      else (mkStore (maxBytes s) (sbytes s) (records s) (r :: unlink key (order s))
              (evictedFresh s) (evictedStale s) (oversized s) (usage s), Some (rentry r))
  end.

Record cacheEviction := mkEviction { evService : string; evFresh : bool }.

Definition count_eviction (now : Z) (r : memoryCacheRecord) (s : memoryCacheStore)
  : memoryCacheStore :=
  let f := fresh now (rentry r) in
  mkStore (maxBytes s) (sbytes s) (records s) (order s)
    (if f then evictedFresh s + 1 else evictedFresh s)
    (if f then evictedStale s else evictedStale s + 1) (oversized s) (usage s).

(** The eviction loop of [store].  One iteration removes one element, so the
    length of the list is enough fuel. *)
Fixpoint evict (fuel : nat) (now : Z) (s : memoryCacheStore)
  : memoryCacheStore * list cacheEviction :=
  match fuel with
  | O => (s, [])
  | S fuel =>
      if sbytes s <=? maxBytes s then (s, [])
      else match last (order s) with
           | None => (s, [])
           | Some r =>
               let ev := mkEviction (ceService (rentry r)) (fresh now (rentry r)) in
               let '(s', evs) := evict fuel now (removeElement r (count_eviction now r s)) in
               (s', ev :: evs)
           end
  end.

Definition push (r : memoryCacheRecord) (s : memoryCacheStore) : memoryCacheStore :=
  mkStore (maxBytes s) (sbytes s + rsize r) (<[rkey r := r]> (records s)) (r :: order s)
    (evictedFresh s) (evictedStale s) (oversized s)
    (addUsage (ceService (rentry r)) (rsize r) (usage s)).

Definition store_store (now : Z) (key : string) (e : CacheEntry) (s : memoryCacheStore)
  : memoryCacheStore * list cacheEviction :=
  let sz := size e in
  let s1 := match records s !! key with Some r => removeElement r s | None => s end in
  if maxBytes s1 <? sz then
    (mkStore (maxBytes s1) (sbytes s1) (records s1) (order s1) (evictedFresh s1)
       (evictedStale s1) (oversized s1 + 1) (usage s1), [])
  else
    let s2 := push (mkRecord key e sz) s1 in
    evict (length (order s2)) now s2.

Definition store_Set (now : Z) (key : string) (e : CacheEntry) (s : memoryCacheStore)
  : memoryCacheStore * list cacheEviction :=
  if ttl e <=? 0 then (s, []) else store_store now key e s.

Definition purges (service pathPrefix : string) (r : memoryCacheRecord) : bool :=
  String.eqb (ceService (rentry r)) service && HasPrefix (cePath (rentry r)) pathPrefix.

(** The walk over the elements as they were when it started. *)
Definition Purge (service pathPrefix : string) (s : memoryCacheStore) : memoryCacheStore * Z :=
  foldl (λ '(s, n) r, if purges service pathPrefix r then (removeElement r s, n + 1) else (s, n))
    (s, 0) (order s).

Definition CloseStore (s : memoryCacheStore) : memoryCacheStore :=
  mkStore (maxBytes s) 0 ∅ [] (evictedFresh s) (evictedStale s) (oversized s) ∅.

(** ** Histories *)

Inductive store_op :=
| SGet (now : Z) (key : string)
| SSet (now : Z) (key : string) (e : CacheEntry)
| SPurge (service pathPrefix : string)
| SClose.

Definition store_step (s : memoryCacheStore) (o : store_op) : memoryCacheStore :=
  match o with
  | SGet now key => (store_Get now key s).1
  | SSet now key e => (store_Set now key e s).1
  | SPurge svc p => (Purge svc p s).1
  | SClose => CloseStore s
  end.

Definition store_run (max : Z) (ops : list store_op) : memoryCacheStore :=
  foldl store_step (newMemoryCacheStore max) ops.

(** ** Invariant *)

Record store_ok (s : memoryCacheStore) : Prop := {
  so_keys : NoDup (rkey <$> order s);
  so_records : ∀ k r, records s !! k = Some r ↔ r ∈ order s ∧ rkey r = k;
  so_sizes : Forall (λ r, rsize r = size (rentry r)) (order s);
  so_bytes : sbytes s = sumf rsize (order s);
  so_usage : ∀ svc, usage s !! svc = usage_of svc (order s) }.

(** ** Lemmas *)

Lemma store_index s : store_ok s → index_ok rkey rservice rsize (records s) (order s) (sbytes s) (usage s).
Proof. by intros [? ? _ ? ?]. Qed.

Lemma index_store s :
  index_ok rkey rservice rsize (records s) (order s) (sbytes s) (usage s) →
  Forall (λ r, rsize r = size (rentry r)) (order s) → store_ok s.
Proof. by intros [? ? ? ?]. Qed.

Lemma removeElement_ok s r :
  store_ok s → r ∈ order s → store_ok (removeElement r s).
Proof.
  intros Hok Hin. apply index_store; [apply (index_ok_drop rkey rservice); [by apply store_index|done]|].
  pose proof (so_sizes s Hok) as Hs. rewrite (unlink_perm rkey _ _ (so_keys s Hok) Hin) in Hs. by apply Forall_cons in Hs as [_ ?].
Qed.

Lemma push_ok s r :
  store_ok s → rkey r ∉ (rkey <$> order s) → rsize r = size (rentry r) → store_ok (push r s).
Proof.
  intros Hok Hnotin Hsz. apply index_store; [apply (index_ok_push rkey rservice); [by apply store_index|done]|].
  constructor; [done|]. by apply so_sizes.
Qed.

Lemma count_eviction_ok now r s : store_ok s → store_ok (count_eviction now r s).
Proof. by intros [????]. Qed.

Lemma removeElement_last s l r :
  store_ok s → order s = l ++ [r] → order (removeElement r s) = l.
Proof.
  intros [Hk _ _ _ _] Ho. cbn. rewrite Ho in *. by apply unlink_last.
Qed.

(** The eviction loop drops as few of the least recently used as it must. *)
Lemma evict_spec fuel now s :
  store_ok s → 0 ≤ maxBytes s → (length (order s) ≤ fuel)%nat →
  let '(s', evs) := evict fuel now s in
  store_ok s' ∧ maxBytes s' = maxBytes s ∧ sbytes s' ≤ maxBytes s ∧
  ∃ dropped, order s = order s' ++ dropped ∧
    evs = map (λ r, mkEviction (ceService (rentry r)) (fresh now (rentry r))) (reverse dropped) ∧
    (∀ r rest, dropped = r :: rest → maxBytes s < sumf rsize (order s' ++ [r])).
Proof.
  revert s. induction fuel as [|fuel IH]; intros s Hok Hmax Hlen; cbn [evict].
  { destruct (order s) eqn:Ho; [|cbn in Hlen; lia]. pose proof (so_bytes s Hok) as Hb.
    rewrite Ho in *. change (sumf rsize []) with 0 in Hb.
    split; [done|]. split; [done|]. split; [lia|]. by exists []. }
  destruct (Z.leb_spec (sbytes s) (maxBytes s)) as [Hle|Hgt].
  { split; [done|]. split; [done|]. split; [done|]. exists [].
    split; [by rewrite app_nil_r|]. done. }
  destruct (last (order s)) as [r|] eqn:Hlast.
  2: { apply last_None in Hlast. pose proof (so_bytes s Hok) as Hb. rewrite Hlast in Hb.
       change (sumf rsize []) with 0 in Hb. lia. }
  apply last_Some in Hlast as [l Ho].
  pose proof (count_eviction_ok now r s Hok) as Hok1.
  assert (Hrem : order (removeElement r (count_eviction now r s)) = l)
    by by apply removeElement_last.
  assert (Hok2 : store_ok (removeElement r (count_eviction now r s))).
  { apply removeElement_ok; [done|]. cbn. rewrite Ho. set_solver. }
  specialize (IH _ Hok2 Hmax). rewrite Hrem in IH.
  rewrite Ho, length_app in Hlen. cbn in Hlen. specialize (IH ltac:(lia)).
  destruct (evict fuel now _) as [s' evs].
  destruct IH as (H1 & H2 & H3 & dropped & H4 & H5 & H6).
  split; [done|]. split; [done|]. split; [done|]. exists (dropped ++ [r]).
  split; [by rewrite Ho, H4, app_assoc|]. split.
  - rewrite reverse_app. cbn. by rewrite H5.
  - intros r' rest Heq. destruct dropped as [|d ds]; cbn in Heq.
    + injection Heq as <- _. rewrite app_nil_r in H4. rewrite <-H4.
      rewrite (so_bytes s Hok), Ho in Hgt. exact Hgt.
    + injection Heq as <- _. by apply (H6 d ds).
Qed.

Lemma store_Get_ok now key s :
  store_ok s → store_ok (store_Get now key s).1 ∧
  maxBytes (store_Get now key s).1 = maxBytes s ∧ sbytes (store_Get now key s).1 ≤ sbytes s.
Proof.
  intros Hok. unfold store_Get. destruct (records s !! key) as [r|] eqn:E; [|done].
  pose proof E as [Hin Hk]%(so_records s Hok).
  destruct (negb (servable now (rentry r))); cbn [fst].
  - split; [by apply removeElement_ok|]. split; [done|]. cbn.
    pose proof (so_sizes s Hok) as Hs. rewrite Forall_forall in Hs. rewrite (Hs r Hin).
    pose proof (size_nonneg (rentry r)). unfold cacheEntryOverhead in *. lia.
  - split; [|done]. pose proof (unlink_perm rkey _ _ (so_keys s Hok) Hin) as Hp. rewrite Hk in Hp.
    apply index_store; cbn [order records sbytes usage]; [|by rewrite <-Hp; apply so_sizes].
    eapply index_ok_perm; [exact Hp|]. by apply store_index.
Qed.

Lemma removeElement_mid s l1 r l2 :
  store_ok s → order s = l1 ++ r :: l2 → order (removeElement r s) = l1 ++ l2.
Proof.
  intros Hok Ho. cbn. rewrite Ho. pose proof (so_keys s Hok) as Hk. rewrite Ho in Hk.
  rewrite fmap_app, fmap_cons in Hk. apply NoDup_app in Hk as (_ & Hd & Hr).
  apply NoDup_cons in Hr as [Hr _].
  unfold LruIndex.unlink. rewrite filter_app, filter_cons_False by (intros H; by apply H).
  fold (unlink (rkey r) l1) (unlink (rkey r) l2).
  rewrite !unlink_notin; [done|done|]. intros H. by apply (Hd _ H); left.
Qed.

(** Replacing: whatever was under the key is gone first. *)
Lemma replace_ok key s :
  store_ok s →
  let s1 := match records s !! key with Some r => removeElement r s | None => s end in
  store_ok s1 ∧ (key ∉ (rkey <$> order s1)) ∧ order s1 = unlink key (order s) ∧
  maxBytes s1 = maxBytes s ∧ sbytes s1 ≤ sbytes s.
Proof.
  intros Hok. destruct (records s !! key) as [r|] eqn:E; cbn zeta.
  - apply (so_records s Hok) in E as [Hin Hk].
    pose proof (removeElement_ok s r Hok Hin) as Hok1.
    split; [done|]. split; [|split; [cbn; by rewrite Hk|split; [done|]]].
    + cbn. rewrite Hk. unfold LruIndex.unlink. intros (r' & Hr' & Hf)%list_elem_of_fmap.
      apply list_elem_of_filter in Hf as [Hne _]. by apply Hne.
    + cbn. pose proof (so_sizes s Hok) as Hs. rewrite Forall_forall in Hs. rewrite (Hs r Hin).
      pose proof (size_nonneg (rentry r)). unfold cacheEntryOverhead in *. lia.
  - assert (key ∉ (rkey <$> order s)) as Hnotin.
    { intros (r & Hr & Hin)%list_elem_of_fmap.
      assert (records s !! key = Some r) by (by apply (so_records s Hok)). congruence. }
    split; [done|]. split; [done|]. split; [by rewrite unlink_notin|done].
Qed.

Lemma store_store_spec now key e s :
  store_ok s → 0 ≤ maxBytes s →
  let '(s', evs) := store_store now key e s in
  store_ok s' ∧ maxBytes s' = maxBytes s ∧ sbytes s' ≤ Z.max (sbytes s) (maxBytes s) ∧
  (maxBytes s < size e → order s' = unlink key (order s) ∧ evs = []) ∧
  (size e ≤ maxBytes s → sbytes s' ≤ maxBytes s ∧
     ∃ kept dropped, order s' = mkRecord key e (size e) :: kept ∧
       unlink key (order s) = kept ++ dropped ∧
       evs = map (λ r, mkEviction (ceService (rentry r)) (fresh now (rentry r))) (reverse dropped) ∧
       (∀ r rest, dropped = r :: rest → maxBytes s < sumf rsize (order s' ++ [r]))).
Proof.
  intros Hok Hmax. unfold store_store.
  destruct (replace_ok key s Hok) as (Hok1 & Hnotin & Ho1 & Hm1 & Hb1).
  set (s1 := match records s !! key with Some r => removeElement r s | None => s end) in *.
  rewrite Hm1. destruct (Z.ltb_spec (maxBytes s) (size e)) as [Hbig|Hfit].
  { split; [by destruct Hok1|]. split; [done|]. cbn. split; [lia|]. split; [done|lia]. }
  set (r := mkRecord key e (size e)).
  assert (Hok2 : store_ok (push r s1)) by by apply push_ok.
  pose proof (evict_spec (length (order (push r s1))) now (push r s1) Hok2) as H.
  destruct (evict _ now (push r s1)) as [s' evs].
  assert (Hmp : maxBytes (push r s1) = maxBytes s) by (cbn; lia).
  rewrite Hmp in H. destruct H as (H1 & H2 & H3 & dropped & H4 & H5 & H6); [done|done|].
  split; [done|]. split; [done|]. split; [lia|]. split; [lia|]. intros _. split; [done|].
  change (order (push r s1)) with (r :: order s1) in H4. destruct (order s') as [|r' kept] eqn:Eo.
  - cbn in H4. specialize (H6 r (order s1) (eq_sym H4)).
    cbn [app] in H6. rewrite sumf_cons in H6. change (sumf rsize []) with 0 in H6. cbn in H6. lia.
  - injection H4 as <- H4. exists kept, dropped. rewrite <-Ho1. done.
Qed.

Lemma Purge_fold svc p l1 l2 s n :
  store_ok s → order s = l1 ++ l2 →
  let '(s', n') := foldl (λ '(s, n) r, if purges svc p r then (removeElement r s, n + 1) else (s, n))
                     (s, n) l2 in
  store_ok s' ∧ order s' = l1 ++ filter (λ r, purges svc p r = false) l2 ∧
  n' = n + Z.of_nat (length (filter (λ r, purges svc p r = true) l2)) ∧
  maxBytes s' = maxBytes s ∧ sbytes s' ≤ sbytes s.
Proof.
  revert l1 s n. induction l2 as [|r l2 IH]; intros l1 s n Hok Ho; cbn [foldl].
  { rewrite Ho. change (filter _ []) with (@nil memoryCacheRecord). cbn.
    split; [done|]. split; [done|]. split; [lia|]. done. }
  destruct (purges svc p r) eqn:Hp.
  - assert (Hok1 : store_ok (removeElement r s)) by (apply removeElement_ok; [done|rewrite Ho; set_solver]).
    assert (Ho1 : order (removeElement r s) = l1 ++ l2) by by apply removeElement_mid.
    specialize (IH l1 (removeElement r s) (n + 1) Hok1 Ho1).
    destruct (foldl _ _ l2) as [s' n']. destruct IH as (H1 & H2 & H3 & H4 & H5).
    rewrite filter_cons_False by congruence. rewrite filter_cons_True by done.
    split; [done|]. split; [done|]. split; [cbn [length]; lia|]. split; [done|].
    etransitivity; [exact H5|]. cbn. pose proof (so_sizes s Hok) as Hs.
    rewrite Forall_forall in Hs. rewrite Hs by (rewrite Ho; set_solver).
    pose proof (size_nonneg (rentry r)). unfold cacheEntryOverhead in *. lia.
  - specialize (IH (l1 ++ [r]) s n Hok). rewrite <-app_assoc in IH. specialize (IH Ho).
    destruct (foldl _ _ l2) as [s' n']. destruct IH as (H1 & H2 & H3 & H4 & H5).
    rewrite filter_cons_True by done. rewrite filter_cons_False by congruence.
    rewrite <-app_assoc in H2. done.
Qed.

Lemma store_step_ok o s :
  store_ok s → 0 ≤ maxBytes s → sbytes s ≤ maxBytes s →
  store_ok (store_step s o) ∧ maxBytes (store_step s o) = maxBytes s ∧
  sbytes (store_step s o) ≤ maxBytes s.
Proof.
  intros Hok Hmax Hb. destruct o as [now key|now key e|svc p|]; cbn [store_step].
  - destruct (store_Get_ok now key s Hok) as (? & ? & ?). split; [done|]. split; [done|lia].
  - unfold store_Set. destruct (ttl e <=? 0); [done|].
    pose proof (store_store_spec now key e s Hok Hmax) as H.
    destruct (store_store now key e s) as [s' evs]. destruct H as (? & ? & ? & _).
    cbn. split; [done|]. split; [done|lia].
  - unfold Purge. pose proof (Purge_fold svc p [] (order s) s 0 Hok eq_refl) as H.
    destruct (foldl _ _ _) as [s' n]. destruct H as (? & _ & _ & ? & ?). cbn. split; [done|]. lia.
  - split; [|done]. split; cbn; [constructor| |constructor|done|done].
    intros k r. rewrite lookup_empty, elem_of_nil. naive_solver.
Qed.

Lemma store_run_ok max ops :
  0 ≤ max → store_ok (store_run max ops) ∧ maxBytes (store_run max ops) = max ∧
  sbytes (store_run max ops) ≤ max.
Proof.
  intros Hmax. unfold store_run. induction ops as [|o ops IH] using rev_ind.
  - split; [|done]. split; cbn; [constructor| |constructor|done|done].
    intros k r. rewrite lookup_empty, elem_of_nil. naive_solver.
  - rewrite foldl_app. destruct IH as (H1 & H2 & H3). cbn [foldl].
    destruct (store_step_ok o _ H1) as (? & ? & ?); [lia..|]. split; [done|]. lia.
Qed.

(** ** What the store may answer

    The unbounded map a history describes: a write that counts replaces the
    entry of its key (or only removes it, when the new one can never fit),
    a purge and a close remove, a read changes nothing. *)
Definition spec_step (max : Z) (m : gmap string CacheEntry) (o : store_op) : gmap string CacheEntry :=
  match o with
  | SGet _ _ => m
  | SSet _ key e =>
      if ttl e <=? 0 then m else if max <? size e then delete key m else <[key := e]> m
  | SPurge svc p =>
      filter (λ ke, String.eqb (ceService ke.2) svc && HasPrefix (cePath ke.2) p = false) m
  | SClose => ∅
  end.

Definition spec_run (max : Z) (ops : list store_op) : gmap string CacheEntry :=
  foldl (spec_step max) ∅ ops.

(** Every record of the list is what the unbounded map has under its key. *)
Definition store_sub (s : memoryCacheStore) (m : gmap string CacheEntry) : Prop :=
  ∀ r, r ∈ order s → m !! rkey r = Some (rentry r).

Lemma unlink_elem key l r : r ∈ unlink key l ↔ rkey r ≠ key ∧ r ∈ l.
Proof. unfold LruIndex.unlink. by rewrite list_elem_of_filter. Qed.

Lemma store_Get_sub now key s m :
  store_ok s → store_sub s m → store_sub (store_Get now key s).1 m.
Proof.
  intros Hok Hs r. unfold store_Get. destruct (records s !! key) as [r0|] eqn:E; [|apply Hs].
  apply (so_records s Hok) in E as [Hin Hk].
  destruct (negb _); cbn; rewrite ?elem_of_cons, unlink_elem; [|intros [->|?]]; naive_solver.
Qed.

Lemma store_Set_sub now key e s m max :
  store_ok s → 0 ≤ max → maxBytes s = max → store_sub s m →
  store_sub (store_Set now key e s).1 (spec_step max m (SSet now key e)).
Proof.
  intros Hok Hmax Heq Hs r. unfold store_Set, spec_step.
  destruct (ttl e <=? 0); [apply Hs|].
  pose proof (store_store_spec now key e s Hok ltac:(lia)) as H.
  destruct (store_store now key e s) as [s' evs]. destruct H as (_ & _ & _ & Hbig & Hfit). cbn.
  rewrite Heq in *. destruct (Z.ltb_spec max (size e)) as [Hlt|Hle].
  - destruct (Hbig Hlt) as [-> _]. rewrite unlink_elem. intros [Hne Hin].
    rewrite lookup_delete_ne by done. by apply Hs.
  - destruct (Hfit Hle) as (_ & kept & dropped & -> & Hun & _). rewrite elem_of_cons.
    intros [->|Hin]; [by rewrite lookup_insert_eq|].
    assert (r ∈ unlink key (order s)) as [Hne Hin']%unlink_elem
      by (rewrite Hun, elem_of_app; by left).
    rewrite lookup_insert_ne by done. by apply Hs.
Qed.

Lemma store_Purge_sub svc p s m max :
  store_ok s → store_sub s m → store_sub (Purge svc p s).1 (spec_step max m (SPurge svc p)).
Proof.
  intros Hok Hs r. unfold Purge. pose proof (Purge_fold svc p [] (order s) s 0 Hok eq_refl) as H.
  destruct (foldl _ _ _) as [s' n]. destruct H as (_ & Ho & _). cbn [fst]. rewrite Ho. cbn [app].
  rewrite list_elem_of_filter. intros [Hp Hin]. cbn [spec_step].
  apply map_lookup_filter_Some. split; [by apply Hs|exact Hp].
Qed.

Lemma store_run_sub max ops : 0 ≤ max → store_sub (store_run max ops) (spec_run max ops).
Proof.
  intros Hmax. unfold spec_run. induction ops as [|o ops IH] using rev_ind.
  { intros r Hr. by apply elem_of_nil in Hr. }
  destruct (store_run_ok max ops Hmax) as (Hok & Heq & _).
  unfold store_run in *. rewrite !foldl_app. cbn [foldl]. destruct o as [now key|now key e|svc p|].
  - by apply store_Get_sub.
  - by apply store_Set_sub.
  - by apply store_Purge_sub.
  - intros r Hr. by apply elem_of_nil in Hr.
Qed.

Lemma store_Get_hit now key s e :
  store_ok s → (store_Get now key s).2 = Some e →
  ∃ r, r ∈ order s ∧ rkey r = key ∧ rentry r = e ∧ servable now e = true.
Proof.
  intros Hok. unfold store_Get. destruct (records s !! key) as [r|] eqn:E; [|done].
  apply (so_records s Hok) in E as [Hin Hk].
  destruct (servable now (rentry r)) eqn:Hsv; [|done]. cbn. intros [= <-]. by exists r.
Qed.

(** ** Theorems *)

(** C34: whatever happens to a store, it stays within its byte budget and its
    books stay exact: the index holds precisely the elements of the list, one
    per key; the running total is the sum of the sizes of the entries held,
    each at least the fixed overhead; and the per-service usage has a row for
    a service exactly while one of its entries is held, with their number and
    bytes. *)
Theorem store_invariant max ops :
  0 ≤ max →
  let s := store_run max ops in
  sbytes s ≤ max ∧ sbytes s = sumf (λ r, size (rentry r)) (order s) ∧
  cacheEntryOverhead * Z.of_nat (length (order s)) ≤ max ∧
  NoDup (rkey <$> order s) ∧
  (∀ k r, records s !! k = Some r ↔ r ∈ order s ∧ rkey r = k) ∧
  (∀ svc, usage s !! svc = usage_of svc (order s)).
Proof.
  intros Hmax s. destruct (store_run_ok max ops Hmax) as ([H1 H2 H3 H4 H5] & _ & Hb).
  fold s in H1, H2, H3, H4, H5, Hb.
  assert (Hsum : sumf rsize (order s) = sumf (λ r, size (rentry r)) (order s) ∧
                 cacheEntryOverhead * Z.of_nat (length (order s)) ≤ sumf rsize (order s)).
  { clear -H3. induction H3 as [|r l Hr _ [IH1 IH2]]; [done|].
    rewrite !sumf_cons, IH1, Hr. cbn [length]. pose proof (size_nonneg (rentry r)).
    split; [done|]. lia. }
  destruct Hsum as [Hs1 Hs2]. split; [done|]. split; [congruence|]. split; [lia|]. done.
Qed.

(** After any history, a write of an entry that fits puts it at the front
    of the list and finds room by dropping the least recently used entries,
    as few as it must: what stays is a prefix of the list in its order, and
    with the last one dropped the budget would be exceeded.  The drops are
    reported from the oldest on.  A read of the key then finds the entry for
    as long as it is servable. *)
Theorem store_set_lru max ops now key e :
  0 ≤ max → 0 < ttl e → size e ≤ max →
  let s := store_run max ops in
  let '(s', evs) := store_Set now key e s in
  (∃ kept dropped, order s' = mkRecord key e (size e) :: kept ∧
     unlink key (order s) = kept ++ dropped ∧
     evs = map (λ r, mkEviction (ceService (rentry r)) (fresh now (rentry r))) (reverse dropped) ∧
     (∀ r rest, dropped = r :: rest →
        max < size e + sumf rsize kept + rsize r)) ∧
  (∀ now', (store_Get now' key s').2 = if servable now' e then Some e else None).
Proof.
  intros Hmax Httl Hfit s. destruct (store_run_ok max ops Hmax) as (Hok & Hm & Hb).
  fold s in Hok, Hm, Hb. unfold store_Set. destruct (Z.leb_spec (ttl e) 0); [lia|].
  pose proof (store_store_spec now key e s Hok ltac:(lia)) as H'.
  destruct (store_store now key e s) as [s' evs]. destruct H' as (Hok' & _ & _ & _ & Hf).
  rewrite Hm in Hf. destruct (Hf Hfit) as (_ & kept & dropped & Ho & Hun & Hev & Hmin). split.
  - exists kept, dropped. repeat (split; [done|]). intros r rest Hd. specialize (Hmin r rest Hd).
    rewrite Ho in Hmin. cbn [app] in Hmin. rewrite sumf_cons, sumf_app, sumf_cons in Hmin.
    change (sumf rsize []) with 0 in Hmin. cbn [rsize] in Hmin. lia.
  - intros now'. unfold store_Get.
    assert (records s' !! key = Some (mkRecord key e (size e))) as ->.
    { apply (so_records s' Hok'). rewrite Ho. split; [left|done]. }
    cbn [rentry]. by destruct (servable now' e).
Qed.

(** A read never invents: what it finds after any history is servable at
    that moment and is the entry the last write of that key left, not purged
    since and not from before a close or a replacement that did not fit. *)
Theorem store_get_last_write max ops now key e :
  0 ≤ max → (store_Get now key (store_run max ops)).2 = Some e →
  spec_run max ops !! key = Some e ∧ servable now e = true.
Proof.
  intros Hmax Hg. destruct (store_run_ok max ops Hmax) as (Hok & _ & _).
  destruct (store_Get_hit _ _ _ _ Hok Hg) as (r & Hin & <- & <- & Hsv). split; [|done].
  by apply store_run_sub.
Qed.

(** ** Witnesses *)

Module StoreExamples.

Definition page (path body : string) : CacheEntry :=
  mkCacheEntry "web" path [] "" [] 200 ∅ body 0 0 (60 * second) (30 * second).

(** Room for two pages: the third write drops the one not read since. *)
Definition history : list store_op :=
  [SSet 0 "a" (page "/a" "one"); SSet 0 "b" (page "/b" "two"); SGet second "a"].

Example third_page_drops_the_coldest :
  let '(s, evs) := store_Set second "c" (page "/c" "three") (store_run 600 history) in
  (rkey <$> order s) = ["c"; "a"] ∧ evs = [mkEviction "web" true] ∧ evictedFresh s = 1.
Proof. vm_compute. done. Qed.

Lemma store_invariant_witness : sbytes (store_run 600 history) ≤ 600.
Proof. apply (store_invariant 600 history). lia. Defined.

Lemma store_set_lru_witness :
  (store_Get (2 * second) "c" (store_Set second "c" (page "/c" "three") (store_run 600 history)).1).2 =
  if servable (2 * second) (page "/c" "three") then Some (page "/c" "three") else None.
Proof.
  pose proof (store_set_lru 600 history second "c" (page "/c" "three") ltac:(lia) eq_refl
    ltac:(vm_compute; discriminate)) as H.
  cbv zeta in H. destruct (store_Set _ _ _ _) as [s' evs]. exact (proj2 H (2 * second)).
Defined.

Lemma store_get_last_write_witness :
  spec_run 600 history !! "a" = Some (page "/a" "one") ∧ servable second (page "/a" "one") = true.
Proof. apply (store_get_last_write 600 history second "a"); [lia|vm_compute; reflexivity]. Defined.

End StoreExamples.
