(* ===== verification/CacheStoreFile.v ===== *)
(** * The file cache store: [internal/server/cache_store_file.go]

    Entries as files under a directory, so that they outlive the process, and
    an index of them in memory.  The files are a map from their names in the
    directory to what is in them.  Reading and writing happen outside the lock:
    a read and a write are tasks of several steps, interleaved with each other,
    with purges, with whatever else happens to the files, and with restarts at
    any moment. *)
From S2P Require Import Prelude GoStrings Http Compression CachePolicy LruIndex CacheStoreMemory.

Definition fileCacheEntrySuffix : string := ".entry".

(** ** State *)

Record fileCacheRecord := mkFileRecord {
  fkey : string;
  fservice : string;
  fpath : string;
  fsize : Z;
  fexpires : Z;
  ffresh : Z;
  ffilename : string }.

Record fileCacheStore := mkFileStore {
  fmaxBytes : Z;
  fbytes : Z;
  frecords : gmap string fileCacheRecord;
  forder : list fileCacheRecord;             (** most recently used first *)
  fservices : gmap string cacheServiceUsage;
  fevictedFresh : Z;
  fevictedStale : Z;
  foversized : Z }.

(** A store with its directory. *)
Record FileStore := mkFS { fsStore : fileCacheStore; fsFiles : gmap string string }.

Abbreviation books s := (index_ok fkey fservice fsize (frecords s) (forder s) (fbytes s) (fservices s)).

(** ** The index *)

(** [dropIndex]: forget the record, leave the file. *)
Definition dropIndex (r : fileCacheRecord) (s : fileCacheStore) : fileCacheStore :=
  mkFileStore (fmaxBytes s) (fbytes s - fsize r) (delete (fkey r) (frecords s)) (LruIndex.unlink fkey (fkey r) (forder s))
    (removeUsage (fservice r) (fsize r) (fservices s)) (fevictedFresh s) (fevictedStale s) (foversized s).

(** [removeElement]; [rm] says which removals the file system carries out. *)
Definition removeFile (rm : string → bool) (r : fileCacheRecord) (w : FileStore) : FileStore :=
  mkFS (dropIndex r (fsStore w)) (if rm (ffilename r) then delete (ffilename r) (fsFiles w) else fsFiles w).

Definition newFileRecord (now : Z) (key : string) (e : CacheEntry) (filename : string) (size : Z) : fileCacheRecord :=
  mkFileRecord key (ceService e) (cePath e) size (now + ttl e) (now + wrap64 (FreshFor e - age now e)) filename.

(** [index] *)
Definition indexFile (now : Z) (key : string) (e : CacheEntry) (filename : string) (size : Z) (s : fileCacheStore) : fileCacheStore :=
  let r := newFileRecord now key e filename size in
  mkFileStore (fmaxBytes s) (fbytes s + size) (<[key := r]> (frecords s)) (r :: forder s)
    (addUsage (fservice r) size (fservices s)) (fevictedFresh s) (fevictedStale s) (foversized s).

Definition countFileEviction (now : Z) (r : fileCacheRecord) (s : fileCacheStore) : fileCacheStore :=
  let f := now <? ffresh r in
  mkFileStore (fmaxBytes s) (fbytes s) (frecords s) (forder s) (fservices s)
    (if f then fevictedFresh s + 1 else fevictedFresh s) (if f then fevictedStale s else fevictedStale s + 1) (foversized s).

(** The eviction loop of [store]; the length of the list is enough fuel. *)
Fixpoint evictFiles (fuel : nat) (now : Z) (rm : string → bool) (w : FileStore) : FileStore * list cacheEviction :=
  match fuel with
  | O => (w, [])
  | S fuel =>
      if fbytes (fsStore w) <=? fmaxBytes (fsStore w) then (w, [])
      else match last (forder (fsStore w)) with
           | None => (w, [])
           | Some r =>
               let ev := mkEviction (fservice r) (now <? ffresh r) in
               let '(w', evs) := evictFiles fuel now rm (removeFile rm r (mkFS (countFileEviction now r (fsStore w)) (fsFiles w))) in
               (w', ev :: evs)
           end
  end.

Definition storeFile (now : Z) (rm : string → bool) (key : string) (e : CacheEntry) (filename : string) (size : Z) (w : FileStore)
  : FileStore * list cacheEviction :=
  let s := match frecords (fsStore w) !! key with Some r => dropIndex r (fsStore w) | None => fsStore w end in
  let s := indexFile now key e filename size s in
  evictFiles (length (forder s)) now rm (mkFS s (fsFiles w)).

(** [Get], under the lock: the file to read, if the key is known. *)
Definition lookupFile (now : Z) (rm : string → bool) (key : string) (w : FileStore) : FileStore * option string :=
  let s := fsStore w in
  match frecords s !! key with
  | None => (w, None)
  | Some r =>
      if fexpires r <? now then (removeFile rm r w, None)
      else (mkFS (mkFileStore (fmaxBytes s) (fbytes s) (frecords s) (r :: LruIndex.unlink fkey key (forder s)) (fservices s)
                    (fevictedFresh s) (fevictedStale s) (foversized s)) (fsFiles w), Some (ffilename r))
  end.

Definition forgetFile (rm : string → bool) (key : string) (w : FileStore) : FileStore :=
  match frecords (fsStore w) !! key with Some r => removeFile rm r w | None => w end.

Definition purgesFile (service pathPrefix : string) (r : fileCacheRecord) : bool :=
  String.eqb (fservice r) service && HasPrefix (fpath r) pathPrefix.

(** The walk over the elements as they were when it started. *)
Definition PurgeFiles (rm : string → bool) (service pathPrefix : string) (w : FileStore) : FileStore * Z :=
  foldl (λ '(w, n) r, if purgesFile service pathPrefix r then (removeFile rm r w, n + 1) else (w, n))
    (w, 0) (forder (fsStore w)).

Definition CloseFiles (s : fileCacheStore) : fileCacheStore :=
  mkFileStore (fmaxBytes s) 0 ∅ [] ∅ (fevictedFresh s) (fevictedStale s) (foversized s).

(** [pathForKey] *)
Definition pathForKey (s : fileCacheStore) (key : string) : option string := ffilename <$> frecords s !! key.

Section files.
Variable sha256_hex : string → string.
(** The envelope of a file, its key and its entry, in [encoding/gob]. *)
Variable encodeCacheEnvelope : string → CacheEntry → option string.
Variable decodeCacheEnvelope : string → option (string * option CacheEntry).
Hypothesis decode_encode : ∀ k e data, encodeCacheEnvelope k e = Some data → decodeCacheEnvelope data = Some (k, Some e).

(** The removals the file system carries out. *)
Variable rm : string → bool.

(** The name in the directory. *)
Definition filenameForKey (key : string) : string := sha256_hex key +:+ fileCacheEntrySuffix.

Definition readEnvelope (files : gmap string string) (filename : string) : option (string * CacheEntry) :=
  data ← files !! filename; '(key, entry) ← decodeCacheEnvelope data; e ← entry; Some (key, e).

(** ** Opening: [rebuildIndex] *)

(** One file of the directory; its size is that of the file. *)
Definition rebuildFile (now : Z) (w : FileStore) (name : string) : FileStore :=
  if negb (HasSuffix name fileCacheEntrySuffix) then w
  else
    let drop := mkFS (fsStore w) (if rm name then delete name (fsFiles w) else fsFiles w) in
    match readEnvelope (fsFiles w) name with
    | None => drop
    | Some (key, e) =>
        if negb (servable now e) then drop
        else mkFS (indexFile now key e name (match fsFiles w !! name with Some data => str_len data | None => 0 end) (fsStore w)) (fsFiles w)
    end.

Definition emptyFileStore (max : Z) : fileCacheStore :=
  mkFileStore (if max <=? 0 then 256 * 1024 * 1024 else max) 0 ∅ [] ∅ 0 0 0.

(** [names]: what reading the directory lists, in its order. *)
Definition newFileCacheStore (now : Z) (max : Z) (names : list string) (files : gmap string string) : FileStore :=
  foldl (rebuildFile now) (mkFS (emptyFileStore max) files) names.

(** ** Reading and writing, step by step *)

(** A [Get] between its lookup and its answer, or a [Set] on its way. *)
Inductive FileTask :=
| FRead (key filename : string)
| FForget (key : string)
| FCreate (key : string) (e : CacheEntry)
| FWrite (key : string) (e : CacheEntry) (temp data : string)
| FRename (key : string) (e : CacheEntry) (temp data : string)
| FIndex (key : string) (e : CacheEntry).

(** What a step was: an entry was asked to be kept, one was answered, or
    neither. *)
Inductive FileEvent := FeSet (key : string) (e : CacheEntry) | FeAnswer (key : string) (e : option CacheEntry) | FeOther.

Record FileWorld := mkFW { fwFS : FileStore; fwTasks : gmap nat FileTask }.

Definition with_files (files : gmap string string) (w : FileStore) : FileStore := mkFS (fsStore w) files.

(** What a task does next; [None]: it ends. *)
Inductive file_task_step (w : FileStore) : FileTask → FileStore → option FileTask → FileEvent → Prop :=
| ft_read key filename k e :
    readEnvelope (fsFiles w) filename = Some (k, e) → file_task_step w (FRead key filename) w None (FeAnswer key (Some e))
| ft_unreadable key filename :
    readEnvelope (fsFiles w) filename = None → file_task_step w (FRead key filename) w (Some (FForget key)) FeOther
| ft_forget key : file_task_step w (FForget key) (forgetFile rm key w) None (FeAnswer key None)
| ft_refused key e : file_task_step w (FCreate key e) w None FeOther
| ft_create key e temp data :
    encodeCacheEnvelope key e = Some data → fsFiles w !! temp = None → HasPrefix temp ".writing-" = true →
    HasSuffix temp fileCacheEntrySuffix = false →
    file_task_step w (FCreate key e) (with_files (<[temp := ""]> (fsFiles w)) w) (Some (FWrite key e temp data)) FeOther
| ft_torn key e temp data part :
    file_task_step w (FWrite key e temp data) (with_files (<[temp := part]> (fsFiles w)) w) None FeOther
| ft_unwritten key e temp data :
    file_task_step w (FWrite key e temp data) (with_files (delete temp (fsFiles w)) w) None FeOther
| ft_write key e temp data :
    file_task_step w (FWrite key e temp data) (with_files (<[temp := data]> (fsFiles w)) w) (Some (FRename key e temp data)) FeOther
| ft_unrenamed key e temp data :
    file_task_step w (FRename key e temp data) (with_files (delete temp (fsFiles w)) w) None FeOther
| ft_rename key e temp data written :
    fsFiles w !! temp = Some written →
    file_task_step w (FRename key e temp data)
      (with_files (<[filenameForKey key := written]> (delete temp (fsFiles w))) w) (Some (FIndex key e)) FeOther
| ft_index now key e :
    file_task_step w (FIndex key e) (storeFile now rm key e (filenameForKey key) (size e) w).1 None FeOther.

(** Others may damage the entries, so that they are gone or do not decode any
    more; the temporary files are nobody else's. *)
Inductive file_step (w : FileWorld) : FileEvent → FileWorld → Prop :=
| fs_get now key fs filename i :
    lookupFile now rm key (fwFS w) = (fs, Some filename) → fwTasks w !! i = None →
    file_step w FeOther (mkFW fs (<[i := FRead key filename]> (fwTasks w)))
| fs_miss now key fs :
    lookupFile now rm key (fwFS w) = (fs, None) → file_step w (FeAnswer key None) (mkFW fs (fwTasks w))
| fs_useless (key : string) e : ttl e ≤ 0 → file_step w FeOther w
| fs_oversized (key : string) e :
    let s := fsStore (fwFS w) in
    0 < ttl e → fmaxBytes s < size e →
    file_step w FeOther
      (mkFW (mkFS (mkFileStore (fmaxBytes s) (fbytes s) (frecords s) (forder s) (fservices s) (fevictedFresh s) (fevictedStale s)
                     (foversized s + 1)) (fsFiles (fwFS w))) (fwTasks w))
| fs_set key e i :
    0 < ttl e → size e ≤ fmaxBytes (fsStore (fwFS w)) → fwTasks w !! i = None →
    file_step w (FeSet key e) (mkFW (fwFS w) (<[i := FCreate key e]> (fwTasks w)))
| fs_purge service pathPrefix :
    file_step w FeOther (mkFW (PurgeFiles rm service pathPrefix (fwFS w)).1 (fwTasks w))
| fs_task i t fs t' ev :
    fwTasks w !! i = Some t → file_task_step (fwFS w) t fs t' ev →
    file_step w ev (mkFW fs (partial_alter (λ _, t') i (fwTasks w)))
| fs_lost name :
    HasSuffix name fileCacheEntrySuffix = true →
    file_step w FeOther (mkFW (with_files (delete name (fsFiles (fwFS w))) (fwFS w)) (fwTasks w))
| fs_damaged name data :
    HasSuffix name fileCacheEntrySuffix = true → decodeCacheEnvelope data = None → is_Some (fsFiles (fwFS w) !! name) →
    file_step w FeOther (mkFW (with_files (<[name := data]> (fsFiles (fwFS w))) (fwFS w)) (fwTasks w))
| fs_restart now max names :
    NoDup names → (∀ name, name ∈ names ↔ is_Some (fsFiles (fwFS w) !! name)) →
    file_step w FeOther (mkFW (newFileCacheStore now max names (fsFiles (fwFS w))) ∅).

(** The runs of a store that began with an empty directory, the latest event
    first. *)
Inductive file_run : FileWorld → list FileEvent → Prop :=
| fr_new max : file_run (mkFW (mkFS (emptyFileStore max) ∅) ∅) []
| fr_step w es e w' : file_run w es → file_step w e w' → file_run w' (e :: es).

(** The runs of a store whose directory others write to: they put anything into
    the files of entries, contents of other entries included, and remove them.
    [foreign] is what they put there; the temporary files are nobody else's. *)
Inductive shared_run : FileWorld → list FileEvent → list string → Prop :=
| sr_new max : shared_run (mkFW (mkFS (emptyFileStore max) ∅) ∅) [] []
| sr_step w es foreign e w' : shared_run w es foreign → file_step w e w' → shared_run w' (e :: es) foreign
| sr_put w es foreign name data :
    shared_run w es foreign → HasSuffix name fileCacheEntrySuffix = true →
    shared_run (mkFW (with_files (<[name := data]> (fsFiles (fwFS w))) (fwFS w)) (fwTasks w)) es (data :: foreign).

(** ** What the operations leave alone *)

Lemma filenameForKey_suffix k : HasSuffix (filenameForKey k) fileCacheEntrySuffix = true.
Proof. apply HasSuffix_app. Qed.

(** The index is in order, and every record names the file of its key. *)
Definition store_fine (s : fileCacheStore) : Prop :=
  books s ∧ ∀ r, r ∈ forder s → ffilename r = filenameForKey (fkey r).

(** Nothing but entries was removed, and nothing added. *)
Definition shrinks (w w' : FileStore) : Prop :=
  fsFiles w' ⊆ fsFiles w ∧ ∀ name, HasSuffix name fileCacheEntrySuffix = false → fsFiles w' !! name = fsFiles w !! name.

Instance shrinks_pre : PreOrder shrinks.
Proof.
  split; [by intros w|]. intros w1 w2 w3 [H1 H1'] [H2 H2']. split; [by etrans|]. intros name Hn. by rewrite H2', H1'.
Qed.

(** An operation on a store in order that drops records and their files. *)
Record Drops (w w' : FileStore) : Prop := {
  do_fine : store_fine (fsStore w');
  do_order r : r ∈ forder (fsStore w') → r ∈ forder (fsStore w);
  do_files : shrinks w w';
  do_gone k r : frecords (fsStore w) !! k = Some r → frecords (fsStore w') !! k = None →
    rm (filenameForKey k) = true → fsFiles w' !! filenameForKey k = None;
  do_max : fmaxBytes (fsStore w') = fmaxBytes (fsStore w) }.

Definition drops_only (w w' : FileStore) : Prop := store_fine (fsStore w) → Drops w w'.

Instance drops_only_pre : PreOrder drops_only.
Proof.
  split.
  - intros w Hf. split; try done. intros k r Hr Hn. congruence.
  - intros w1 w2 w3 H1 H2 Hf. destruct (H1 Hf) as [F1 O1 S1 G1 M1]. destruct (H2 F1) as [F2 O2 S2 G2 M2].
    split; [done|auto|by etrans| |congruence].
    intros k r Hr Hn Hrm. destruct (frecords (fsStore w2) !! k) as [r2|] eqn:Hk; [by eapply G2|].
    specialize (G1 k r Hr Hk Hrm). destruct S2 as [Hsub _].
    destruct (fsFiles w3 !! filenameForKey k) as [data|] eqn:Hd; [|done]. by rewrite (lookup_weaken _ _ _ _ Hd Hsub) in G1.
Qed.

Lemma dropIndex_fine r s : store_fine s → r ∈ forder s → store_fine (dropIndex r s).
Proof.
  intros [Hb Hn] Hin. split; [by apply (index_ok_drop fkey fservice fsize)|]. cbn. intros x [_ Hx]%list_elem_of_filter. by apply Hn.
Qed.

Lemma removeFile_drops r w : (store_fine (fsStore w) → r ∈ forder (fsStore w)) → drops_only w (removeFile rm r w).
Proof.
  intros Hin Hf. specialize (Hin Hf). pose proof (proj2 Hf r Hin) as Hname. split; [by apply dropIndex_fine| | | |done].
  - cbn. by intros x [_ Hx]%list_elem_of_filter.
  - split; cbn; case_goal; try done; [apply delete_subseteq|].
    intros name Hsuf. rewrite lookup_delete_ne; [done|]. rewrite Hname. intros <-. by rewrite filenameForKey_suffix in Hsuf.
  - intros k x Hx Hnone Hrm. cbn in Hnone |- *. destruct (decide (fkey r = k)) as [<-|Hne].
    + rewrite Hname, Hrm. by rewrite lookup_delete_eq.
    + rewrite lookup_delete_ne in Hnone by done. congruence.
Qed.

Lemma record_in s k r : store_fine s → frecords s !! k = Some r → r ∈ forder s ∧ fkey r = k.
Proof. intros [Hb _] Hr. by apply (ix_records _ _ _ _ _ _ _ Hb). Qed.

Lemma lookupFile_spec now k w fs out :
  lookupFile now rm k w = (fs, out) → store_fine (fsStore w) →
  Drops w fs ∧ (∀ filename, out = Some filename → filename = filenameForKey k).
Proof.
  unfold lookupFile. intros Heq Hf. destruct (frecords (fsStore w) !! k) as [r|] eqn:Hr; [|injection Heq as <- <-; split; [|done]; by apply drops_only_pre].
  destruct (record_in _ _ _ Hf Hr) as [Hin Hk]. revert Heq. case_goal; intros [= <- <-].
  - split; [|done]. by apply removeFile_drops.
  - assert (Hp : r :: LruIndex.unlink fkey k (forder (fsStore w)) ≡ₚ forder (fsStore w)).
    { rewrite <-Hk. symmetry. apply unlink_perm; [|done]. apply Hf. }
    split; [|intros filename [= <-]; rewrite <-Hk; by apply Hf].
    destruct Hf as [Hb Hn]. split; cbn; try done; [|by intros x; rewrite Hp|intros; congruence].
    split; [by eapply index_ok_perm|]. cbn. intros x. rewrite Hp. apply Hn.
Qed.

Lemma forgetFile_drops k w : drops_only w (forgetFile rm k w).
Proof.
  unfold forgetFile. destruct (frecords (fsStore w) !! k) as [r|] eqn:Hr; [|reflexivity].
  apply removeFile_drops. intros Hf. by apply (record_in _ _ _ Hf) in Hr as [? _].
Qed.

Lemma evictFiles_spec fuel now w :
  drops_only w (evictFiles fuel now rm w).1 ∧
  ((length (forder (fsStore w)) ≤ fuel)%nat → store_fine (fsStore w) → 0 ≤ fmaxBytes (fsStore w) →
     fbytes (fsStore (evictFiles fuel now rm w).1) ≤ fmaxBytes (fsStore w)).
Proof.
  revert w. induction fuel as [|fuel IH]; intros w; cbn [evictFiles].
  { split; [reflexivity|]. intros Hlen [Hb _] Hmax. cbn. rewrite (ix_bytes _ _ _ _ _ _ _ Hb). destruct (forder (fsStore w)); cbn in *; [done|lia]. }
  destruct (Z.leb_spec (fbytes (fsStore w)) (fmaxBytes (fsStore w))) as [Hle|Hgt]; [by split|].
  destruct (last (forder (fsStore w))) as [r|] eqn:Hlast.
  2:{ split; [reflexivity|]. intros _ [Hb _] Hmax. cbn. apply last_None in Hlast. rewrite (ix_bytes _ _ _ _ _ _ _ Hb), Hlast. done. }
  apply last_Some in Hlast as [l Ho]. set (w1 := mkFS (countFileEviction now r (fsStore w)) (fsFiles w)).
  destruct (IH (removeFile rm r w1)) as [IH1 IH2]. destruct (evictFiles fuel now rm (removeFile rm r w1)) as [w2 evs]. cbn [fst] in *.
  assert (H1 : drops_only w w1) by (intros [Hb Hn]; split; try done; cbn; intros; congruence).
  assert (H2 : drops_only w1 (removeFile rm r w1)) by (apply removeFile_drops; intros _; cbn; rewrite Ho; set_solver).
  split; [by do 2 (etrans; [eassumption|])|]. intros Hlen Hf Hmax. apply IH2; [|by apply H2, H1|done].
  destruct Hf as [Hb _]. change (forder (fsStore (removeFile rm r w1))) with (LruIndex.unlink fkey (fkey r) (forder (fsStore w))).
  pose proof (ix_keys _ _ _ _ _ _ _ Hb) as Hk. rewrite Ho in *. rewrite (unlink_last _ _ _ Hk).
  rewrite length_app in Hlen. cbn in Hlen. lia.
Qed.

Lemma indexFile_fine now k e size s :
  store_fine s → frecords s !! k = None → store_fine (indexFile now k e (filenameForKey k) size s).
Proof.
  intros [Hb Hn] Hk. split.
  - apply (index_ok_push fkey fservice fsize _ _ _ _ (newFileRecord now k e (filenameForKey k) size)); [done|]. cbn.
    intros (r & Hr & Hin)%list_elem_of_fmap. assert (frecords s !! k = Some r) by (by apply (ix_records _ _ _ _ _ _ _ Hb)). congruence.
  - cbn. intros r [->|Hr]%elem_of_cons; [done|by apply Hn].
Qed.

(** What storing does, and that the budget holds after it. *)
Lemma storeFile_spec now k e w w' evs :
  storeFile now rm k e (filenameForKey k) (size e) w = (w', evs) → store_fine (fsStore w) → 0 ≤ fmaxBytes (fsStore w) →
  store_fine (fsStore w') ∧ shrinks w w' ∧ fmaxBytes (fsStore w') = fmaxBytes (fsStore w) ∧ fbytes (fsStore w') ≤ fmaxBytes (fsStore w) ∧
  (∀ r, r ∈ forder (fsStore w') → r = newFileRecord now k e (filenameForKey k) (size e) ∨ r ∈ forder (fsStore w)) ∧
  (∀ k', k' = k ∨ is_Some (frecords (fsStore w) !! k') → frecords (fsStore w') !! k' = None → rm (filenameForKey k') = true →
     fsFiles w' !! filenameForKey k' = None).
Proof.
  unfold storeFile. intros Heq Hf Hmax. set (s1 := match frecords (fsStore w) !! k with Some r => dropIndex r (fsStore w) | None => fsStore w end) in Heq.
  assert (Hs1 : store_fine s1 ∧ frecords s1 !! k = None ∧ (∀ r, r ∈ forder s1 → r ∈ forder (fsStore w)) ∧
    (∀ k', k' ≠ k → frecords s1 !! k' = frecords (fsStore w) !! k') ∧ fmaxBytes s1 = fmaxBytes (fsStore w)).
  { unfold s1. destruct (frecords (fsStore w) !! k) as [r|] eqn:Hr; [|done]. destruct (record_in _ _ _ Hf Hr) as [Hin <-].
    split; [by apply dropIndex_fine|]. cbn. split; [by rewrite lookup_delete_eq|]. split; [by intros x [_ ?]%list_elem_of_filter|].
    split; [|done]. intros k' Hne. by rewrite lookup_delete_ne. }
  destruct Hs1 as (Hf1 & Hnone & Ho1 & Hother & Hm1). set (s2 := indexFile now k e (filenameForKey k) (size e) s1) in Heq.
  assert (Hf2 : store_fine s2) by (by apply indexFile_fine).
  destruct (evictFiles_spec (length (forder s2)) now (mkFS s2 (fsFiles w))) as [Hd Hb].
  destruct (evictFiles _ _ _ _) as [w2 evs2]. injection Heq as <- <-. cbn [fst fsStore] in *. destruct (Hd Hf2) as [F O S G M]. cbn in M, S, G, O.
  assert (Hmax2 : fmaxBytes s2 = fmaxBytes (fsStore w)) by (cbn; done).
  split; [done|]. split; [exact S|]. split; [by rewrite M|]. split; [rewrite <-Hmax2; apply Hb; [done|done|by rewrite Hmax2]|]. split.
  - intros r Hr. specialize (O r Hr). apply elem_of_cons in O as [->|?]; [by left|right; auto].
  - intros k' Hk' Hgone Hrm. assert (Hsome : is_Some (frecords s2 !! k')).
    { cbn. destruct (decide (k = k')) as [->|Hne]; [rewrite lookup_insert_eq; by eexists|]. rewrite lookup_insert_ne, Hother by done.
      by destruct Hk'. }
    destruct Hsome as [r Hr]. by eapply G.
Qed.

Lemma purge_fold service pathPrefix l w n :
  store_fine (fsStore w) → NoDup (fkey <$> l) → (∀ r, r ∈ l → r ∈ forder (fsStore w)) →
  let w' := (foldl (λ '(w, n) r, if purgesFile service pathPrefix r then (removeFile rm r w, n + 1) else (w, n)) (w, n) l).1 in
  drops_only w w' ∧ ∀ x, x ∈ forder (fsStore w') → x ∈ l → purgesFile service pathPrefix x = false.
Proof.
  revert w n. induction l as [|r l IH]; intros w n Hf Hnd Hl; cbn [foldl]; [split; [reflexivity|by intros x _ ?%elem_of_nil]|].
  cbn in Hnd. apply NoDup_cons in Hnd as [Hr Hnd]. destruct (purgesFile service pathPrefix r) eqn:Hp.
  - assert (Hd : drops_only w (removeFile rm r w)) by (apply removeFile_drops; intros _; apply Hl; left).
    destruct (IH (removeFile rm r w) (n + 1)) as [H1 H2]; [by apply Hd|done| |].
    { intros x Hx. cbn. apply list_elem_of_filter. split; [|apply Hl; by right]. intros Heq. apply Hr. rewrite <-Heq. by apply list_elem_of_fmap_2. }
    split; [by etrans|]. intros x Hx [->|Hx']%elem_of_cons; [|by apply H2].
    assert (Hin : r ∈ forder (fsStore (removeFile rm r w))) by (apply H1; [by apply Hd|done]).
    cbn in Hin. apply list_elem_of_filter in Hin as [Hne _]. done.
  - destruct (IH w n) as [H1 H2]; [done|done|intros x Hx; apply Hl; by right|]. split; [done|].
    intros x Hx [->|Hx']%elem_of_cons; [done|by apply H2].
Qed.

Lemma PurgeFiles_spec service pathPrefix w :
  store_fine (fsStore w) →
  Drops w (PurgeFiles rm service pathPrefix w).1 ∧
  ∀ r, r ∈ forder (fsStore (PurgeFiles rm service pathPrefix w).1) → purgesFile service pathPrefix r = false.
Proof.
  intros Hf. destruct (purge_fold service pathPrefix (forder (fsStore w)) w 0 Hf) as [H1 H2]; [apply Hf|done|].
  split; [by apply H1|]. intros r Hr. apply H2; [done|]. by apply H1.
Qed.

(** ** Opening a directory *)

(** A record a store opened at [now] has for a key. *)
Definition restored (now : Z) (files : gmap string string) (k : string) (r : fileCacheRecord) : Prop :=
  ∃ data e, files !! filenameForKey k = Some data ∧ decodeCacheEnvelope data = Some (k, Some e) ∧ servable now e = true ∧
    r = newFileRecord now k e (filenameForKey k) (str_len data).

(** Every readable entry is in the file of its key. *)
Definition well_named (files : gmap string string) : Prop :=
  ∀ name k e, HasSuffix name fileCacheEntrySuffix = true → readEnvelope files name = Some (k, e) → name = filenameForKey k.

Lemma readEnvelope_Some files name k e :
  readEnvelope files name = Some (k, e) ↔ ∃ data, files !! name = Some data ∧ decodeCacheEnvelope data = Some (k, Some e).
Proof.
  unfold readEnvelope. destruct (files !! name) as [data|]; cbn; [|split; [done|by intros (? & ? & _)]].
  destruct (decodeCacheEnvelope data) as [[key [e'|]]|] eqn:Hd; cbn; split; try done; try (by intros (? & [= <-] & ?); congruence).
  - intros [= -> ->]. eauto.
Qed.

Lemma rebuild_fold now max files names :
  well_named files → NoDup names →
  let w := newFileCacheStore now max names files in
  store_fine (fsStore w) ∧ fsFiles w ⊆ files ∧
  (∀ name, name ∉ names ∨ HasSuffix name fileCacheEntrySuffix = false ∨ (∃ k e, readEnvelope files name = Some (k, e) ∧ servable now e = true) →
     fsFiles w !! name = files !! name) ∧
  (∀ k r, frecords (fsStore w) !! k = Some r ↔ filenameForKey k ∈ names ∧ restored now files k r).
Proof.
  intros Hnamed. unfold newFileCacheStore. induction names as [|name names IH] using rev_ind; intros Hnd.
  { split; [split; [apply index_ok_empty|by intros r ?%elem_of_nil]|]. split; [done|split; [done|]].
    intros k r. cbn. rewrite lookup_empty. split; [done|]. by intros [?%elem_of_nil _]. }
  apply NoDup_app in Hnd as (Hnd & Hfresh & _). specialize (IH Hnd). rewrite foldl_app. cbn [foldl].
  set (w := foldl (rebuildFile now) _ names) in *. cbv zeta in IH. destruct IH as (Hf & Hsub & Hkeep & Hrec).
  assert (Hn : name ∉ names) by (intros Hin; apply (Hfresh name Hin); left).
  assert (Hat : fsFiles w !! name = files !! name) by (apply Hkeep; by left).
  assert (Hread : readEnvelope (fsFiles w) name = readEnvelope files name) by (unfold readEnvelope; by rewrite Hat).
  assert (Hnone : (∀ k r, filenameForKey k = name → ¬ restored now files k r) →
    ∀ k r, frecords (fsStore w) !! k = Some r ↔ filenameForKey k ∈ names ++ [name] ∧ restored now files k r).
  { intros Hnot k r. rewrite Hrec, elem_of_app, list_elem_of_singleton. split; [tauto|]. intros [[?|Heq] ?]; [done|]. by destruct (Hnot k r Heq). }
  unfold rebuildFile. destruct (HasSuffix name fileCacheEntrySuffix) eqn:Hsuf; cbn [negb].
  2:{ split; [done|split; [done|split]].
      - intros x [Hx|Hx]; apply Hkeep; [left|by right]. rewrite elem_of_app in Hx. tauto.
      - apply Hnone. intros k r Heq. rewrite <-Heq, filenameForKey_suffix in Hsuf. done. }
  rewrite Hread.
  assert (Hdrop : (∀ k e, readEnvelope files name = Some (k, e) → servable now e = false) →
    let w' := mkFS (fsStore w) (if rm name then delete name (fsFiles w) else fsFiles w) in
    store_fine (fsStore w') ∧ fsFiles w' ⊆ files ∧
    (∀ x, x ∉ names ++ [name] ∨ HasSuffix x fileCacheEntrySuffix = false ∨ (∃ k e, readEnvelope files x = Some (k, e) ∧ servable now e = true) →
       fsFiles w' !! x = files !! x) ∧
    (∀ k r, frecords (fsStore w') !! k = Some r ↔ filenameForKey k ∈ names ++ [name] ∧ restored now files k r)).
  { intros Hdead. split; [done|]. split; [|split]; cbn.
    - case_goal; [|done]. etrans; [apply delete_subseteq|done].
    - intros x Hx. assert (Hxn : x ≠ name).
      { intros ->. destruct Hx as [Hx|[Hx|(k & e & Hx & Hs)]]; [|congruence|by rewrite (Hdead k e Hx) in Hs].
        apply Hx, elem_of_app. right. left. }
      assert (Hw : fsFiles w !! x = files !! x) by (apply Hkeep; rewrite elem_of_app in Hx; tauto).
      case_goal; [by rewrite lookup_delete_ne|done].
    - apply Hnone. intros k r Heq (data & e & Hd & Hdec & Hs & _). rewrite Heq in Hd.
      rewrite (Hdead k e) in Hs; [done|]. apply readEnvelope_Some. eauto. }
  destruct (readEnvelope files name) as [[k e]|] eqn:Hr; [|by apply Hdrop].
  destruct (servable now e) eqn:Hs; cbn [negb]; [|apply Hdrop; by intros k' e' [= <- <-]]. clear Hdrop Hnone.
  assert (Hname : name = filenameForKey k) by by eapply Hnamed. apply readEnvelope_Some in Hr as (data & Hdata & Hdec).
  rewrite Hat, Hdata. cbn [fsStore fsFiles].
  assert (Hknone : frecords (fsStore w) !! k = None).
  { destruct (frecords (fsStore w) !! k) as [r|] eqn:Hk; [|done]. apply Hrec in Hk as [Hk _]. by rewrite <-Hname in Hk. }
  split; [rewrite Hname; by apply indexFile_fine|]. split; [done|]. split.
  - intros x Hx. apply Hkeep. rewrite elem_of_app in Hx. tauto.
  - intros k' r. cbn. rewrite lookup_insert_Some, Hrec, elem_of_app, list_elem_of_singleton. split.
    + intros [[<- <-]|[Hne [? ?]]]; [|tauto]. split; [by right|]. exists data, e. rewrite Hname in *. done.
    + intros [[Hin|Heq] Hres].
      * right. split; [|done]. intros <-. by rewrite <-Hname in Hin.
      * left. destruct Hres as (data' & e' & Hd' & Hdec' & _ & ->). rewrite Heq, Hdata in Hd'. injection Hd' as <-. rewrite Hdec in Hdec'.
        injection Hdec' as -> ->. by rewrite Hname.
Qed.

(** ** What holds of every run *)

(** What was asked to be kept. *)
Fixpoint kept_entries (es : list FileEvent) : list (string * CacheEntry) :=
  match es with
  | [] => []
  | FeSet k e :: es => (k, e) :: kept_entries es
  | _ :: es => kept_entries es
  end.

(** An entry's file is damaged, or holds what was set under its key. *)
Definition entries_ok (wr : list (string * CacheEntry)) (files : gmap string string) : Prop :=
  ∀ name data, files !! name = Some data → HasSuffix name fileCacheEntrySuffix = true →
  decodeCacheEnvelope data = None ∨
  ∃ k e, decodeCacheEnvelope data = Some (k, Some e) ∧ name = filenameForKey k ∧ (k, e) ∈ wr.

Definition temp_of (t : FileTask) : option string :=
  match t with FWrite _ _ temp _ | FRename _ _ temp _ => Some temp | _ => None end.

Definition task_fine (wr : list (string * CacheEntry)) (files : gmap string string) (t : FileTask) : Prop :=
  match t with
  | FRead key filename => filename = filenameForKey key
  | FForget _ => True
  | FCreate k e | FIndex k e => (k, e) ∈ wr
  | FWrite k e temp data =>
      (k, e) ∈ wr ∧ encodeCacheEnvelope k e = Some data ∧ HasSuffix temp fileCacheEntrySuffix = false ∧ is_Some (files !! temp)
  | FRename k e temp data =>
      (k, e) ∈ wr ∧ encodeCacheEnvelope k e = Some data ∧ HasSuffix temp fileCacheEntrySuffix = false ∧ files !! temp = Some data
  end.

Record file_ok (wr : list (string * CacheEntry)) (fs : FileStore) (ts : gmap nat FileTask) : Prop := {
  fo_store : store_fine (fsStore fs);
  fo_max : 0 ≤ fmaxBytes (fsStore fs);
  fo_entries : entries_ok wr (fsFiles fs);
  fo_tasks i t : ts !! i = Some t → task_fine wr (fsFiles fs) t;
  fo_temps i j ti tj temp : ts !! i = Some ti → ts !! j = Some tj → temp_of ti = Some temp → temp_of tj = Some temp → i = j;
  fo_meta r : r ∈ forder (fsStore fs) → ∃ e, (fkey r, e) ∈ wr ∧ fservice r = ceService e ∧ fpath r = cePath e;
  fo_covered k data e : (∀ name, rm name = true) → fsFiles fs !! filenameForKey k = Some data →
    decodeCacheEnvelope data = Some (k, Some e) → is_Some (frecords (fsStore fs) !! k) ∨ ∃ i e', ts !! i = Some (FIndex k e') }.

Lemma entries_sub wr files files' : files' ⊆ files → entries_ok wr files → entries_ok wr files'.
Proof. intros Hsub Hok name data Hd. apply (Hok name data). by eapply lookup_weaken. Qed.

Lemma entries_named wr files : entries_ok wr files → well_named files.
Proof.
  intros Hok name k e Hsuf (data & Hd & Hdec)%readEnvelope_Some. destruct (Hok name data Hd Hsuf) as [?|(k' & e' & Hdec' & -> & _)]; congruence.
Qed.

Lemma task_temp wr files t temp :
  task_fine wr files t → temp_of t = Some temp → HasSuffix temp fileCacheEntrySuffix = false ∧ is_Some (files !! temp).
Proof. destruct t; cbn; try done; intros (_ & _ & ? & ?) [= <-]; (split; [done|]); [done|by eexists]. Qed.

Lemma task_fine_files wr files files' t :
  (∀ temp, temp_of t = Some temp → files' !! temp = files !! temp) → task_fine wr files t → task_fine wr files' t.
Proof. destruct t; cbn; try done; intros Hf; by rewrite Hf. Qed.

Lemma file_ok_drops wr fs fs' ts : file_ok wr fs ts → Drops fs fs' → file_ok wr fs' ts.
Proof.
  intros [Hs Hm He Ht Htemps Hmeta Hcov] [F O [Sub Oth] G M]. split; [done|by rewrite M|by eapply entries_sub| |done|auto|].
  - intros i t Hi. specialize (Ht i t Hi). apply (task_fine_files _ (fsFiles fs)); [|done]. intros temp Htemp.
    destruct (task_temp _ _ _ _ Ht Htemp) as [Hsuf _]. by apply Oth.
  - intros k data e Hrm Hd Hdec. destruct (Hcov k data e Hrm) as [[r Hr]|?]; [by eapply lookup_weaken|done| |by right].
    destruct (frecords (fsStore fs') !! k) as [r'|] eqn:Hk; [left; by eexists|]. rewrite (G k r Hr Hk (Hrm _)) in Hd. done.
Qed.

(** A task moves on, and changes files. *)
Lemma file_ok_move wr fs ts i t' files' :
  file_ok wr fs ts → entries_ok wr files' →
  (∀ name, HasSuffix name fileCacheEntrySuffix = false → (∀ t, ts !! i = Some t → temp_of t ≠ Some name) →
     is_Some (fsFiles fs !! name) → files' !! name = fsFiles fs !! name) →
  (∀ x, t' = Some x → task_fine wr files' x ∧
     ∀ temp, temp_of x = Some temp → (∃ t, ts !! i = Some t ∧ temp_of t = Some temp) ∨ fsFiles fs !! temp = None) →
  ((∀ name, rm name = true) → ∀ k data e, files' !! filenameForKey k = Some data → decodeCacheEnvelope data = Some (k, Some e) →
     is_Some (frecords (fsStore fs) !! k) ∨ (∃ e', t' = Some (FIndex k e')) ∨ ∃ j e', j ≠ i ∧ ts !! j = Some (FIndex k e')) →
  file_ok wr (with_files files' fs) (partial_alter (λ _, t') i ts).
Proof.
  intros [Hs Hm He Ht Htemps Hmeta Hcov] He' Hkeep Hnew Hcov'.
  assert (Hlook : ∀ j t, partial_alter (λ _, t') i ts !! j = Some t → (j = i ∧ t' = Some t) ∨ (j ≠ i ∧ ts !! j = Some t)).
  { intros j t. destruct (decide (j = i)) as [->|Hne]; [rewrite lookup_partial_alter_eq; auto|rewrite lookup_partial_alter_ne by done; auto]. }
  assert (Hother : ∀ j t temp, j ≠ i → ts !! j = Some t → temp_of t = Some temp → ∀ ti, ts !! i = Some ti → temp_of ti ≠ Some temp).
  { intros j t temp Hne Hj Htj ti Hi Hti. by apply Hne, (Htemps j i t ti temp). }
  split; cbn [fsStore fsFiles with_files]; try done.
  - intros j t [[-> Heq]|[Hne Hj]]%Hlook; [by apply Hnew|]. specialize (Ht j t Hj). apply (task_fine_files _ (fsFiles fs)); [|done].
    intros temp Htemp. destruct (task_temp _ _ _ _ Ht Htemp) as [Hsuf Hsome]. apply Hkeep; [done|by eapply Hother|done].
  - assert (Hmine : ∀ j t x temp, j ≠ i → ts !! j = Some t → t' = Some x → temp_of t = Some temp → temp_of x = Some temp → False).
    { intros j t x temp Hne Hj Hx Htj Htx. destruct (Hnew x Hx) as [_ Hx']. destruct (Hx' temp Htx) as [(ti & Hi & Hti)|Hnone].
      - by eapply Hother.
      - destruct (task_temp _ _ _ _ (Ht j t Hj) Htj) as [_ [? Hsome]]. congruence. }
    intros j1 j2 t1 t2 temp [[-> H1]|[Hne1 H1]]%Hlook [[-> H2]|[Hne2 H2]]%Hlook Htemp1 Htemp2; [done| | |by eapply Htemps]; exfalso; eauto.
  - intros k data e Hrm Hd Hdec. destruct (Hcov' Hrm k data e Hd Hdec) as [?|[[e' ->]|(j & e' & Hne & Hj)]]; [by left|right..].
    + exists i, e'. by rewrite lookup_partial_alter_eq.
    + exists j, e'. by rewrite lookup_partial_alter_ne.
Qed.

(** The same, for a step that touches no file. *)
Lemma file_ok_task wr fs ts i t' :
  file_ok wr fs ts →
  (∀ x, t' = Some x → task_fine wr (fsFiles fs) x ∧ temp_of x = None) →
  ((∀ name, rm name = true) → ∀ k e, ts !! i = Some (FIndex k e) →
     is_Some (frecords (fsStore fs) !! k) ∨ fsFiles fs !! filenameForKey k = None) →
  file_ok wr fs (partial_alter (λ _, t') i ts).
Proof.
  intros Hok Hnew Hend. destruct fs as [s files]. apply (file_ok_move wr (mkFS s files) ts i t' files); [done|apply Hok|done| |].
  - intros x Hx. destruct (Hnew x Hx) as [? Hnone]. split; [done|]. by rewrite Hnone.
  - intros Hrm k data e Hd Hdec. destruct (fo_covered _ _ _ Hok k data e Hrm Hd Hdec) as [?|(j & e' & Hj)]; [by left|].
    destruct (decide (j = i)) as [->|Hne]; [|right; right; eauto]. destruct (Hend Hrm k e' Hj) as [?|Hgone]; [by left|].
    cbn in *. congruence.
Qed.

Lemma file_ok_more wr wr' fs ts : wr ⊆ wr' → file_ok wr fs ts → file_ok wr' fs ts.
Proof.
  intros Hsub [Hs Hm He Ht Htemps Hmeta Hcov]. split; try done.
  - intros name data Hd Hsuf. destruct (He name data Hd Hsuf) as [?|(k & e & ? & ? & ?)]; [by left|right]. eauto 6.
  - intros i t Hi. specialize (Ht i t Hi). destruct t; cbn in *; naive_solver.
  - intros r Hr. destruct (Hmeta r Hr) as (e & ? & ?). eauto.
Qed.

Lemma file_ok_restart wr fs ts now max names :
  file_ok wr fs ts → NoDup names → (∀ name, name ∈ names ↔ is_Some (fsFiles fs !! name)) →
  file_ok wr (newFileCacheStore now max names (fsFiles fs)) ∅.
Proof.
  intros Hok Hnd Hnames. pose proof (fo_entries _ _ _ Hok) as He.
  destruct (rebuild_fold now max (fsFiles fs) names (entries_named _ _ He) Hnd) as (Hf & Hsub & Hkeep & Hrec).
  set (w := newFileCacheStore now max names (fsFiles fs)) in *.
  assert (Hm : 0 ≤ fmaxBytes (fsStore w)).
  { unfold w, newFileCacheStore. assert (H0 : 0 ≤ fmaxBytes (emptyFileStore max)) by (unfold emptyFileStore; cbn; case_goal; breflect; lia).
    revert H0. generalize (emptyFileStore max). clear. intros s. revert s. generalize (fsFiles fs). induction names as [|name names IH]; intros files s Hs; [done|].
    cbn [foldl]. destruct (rebuildFile now (mkFS s files) name) as [s1 files1] eqn:Heq. apply IH.
    unfold rebuildFile in Heq. revert Heq. repeat case_match; intros; simplify_eq; done. }
  split; try done.
  - by eapply entries_sub.
  - intros r Hr. assert (Hk : frecords (fsStore w) !! fkey r = Some r) by (by apply (ix_records _ _ _ _ _ _ _ (proj1 Hf))).
    apply Hrec in Hk as [_ (data & e & Hd & Hdec & _ & Heq)]. exists e. rewrite Heq at 2 3. split; [|done].
    destruct (He _ _ Hd (filenameForKey_suffix _)) as [?|(k' & e' & Hdec' & _ & Hin)]; [congruence|]. rewrite Hdec in Hdec'. by injection Hdec' as -> ->.
  - intros k data e Hrm Hd Hdec. left. pose proof (lookup_weaken _ _ _ _ Hd Hsub) as Hd0.
    destruct (servable now e) eqn:Hs.
    + eexists. apply Hrec. split; [apply Hnames; by eexists|]. exists data, e. done.
    + exfalso. revert Hd. unfold w, newFileCacheStore. assert (Hin : filenameForKey k ∈ names) by (apply Hnames; by eexists).
      clear -Hin Hd0 Hdec Hs Hrm Hnd.
      assert (Hgone : ∀ names w, fsFiles w !! filenameForKey k = None → fsFiles (foldl (rebuildFile now) w names) !! filenameForKey k = None).
      { intros ns. induction ns as [|n ns IH]; intros w Hw; [done|]. cbn [foldl]. apply IH. unfold rebuildFile.
        repeat case_match; cbn; try done; by rewrite ?lookup_delete_None; auto. }
      assert (Hstay : ∀ names w, fsFiles w !! filenameForKey k = Some data → filenameForKey k ∈ names →
        fsFiles (foldl (rebuildFile now) w names) !! filenameForKey k = None).
      { intros ns. induction ns as [|n ns IH]; intros w Hw Hin'; [by apply elem_of_nil in Hin'|]. cbn [foldl].
        destruct (decide (n = filenameForKey k)) as [->|Hne].
        - apply Hgone. unfold rebuildFile. rewrite filenameForKey_suffix. cbn [negb].
          rewrite (proj2 (readEnvelope_Some _ _ k e)) by eauto. rewrite Hs. cbn [negb fsFiles]. rewrite Hrm. by rewrite lookup_delete_eq.
        - apply IH; [|by apply elem_of_cons in Hin' as [?|?]]. unfold rebuildFile. repeat case_match; cbn; try done; by rewrite lookup_delete_ne. }
      rewrite (Hstay names (mkFS (emptyFileStore max) (fsFiles fs)) Hd0 Hin). done.
Qed.

(** A task works on its temporary file. *)
Lemma file_ok_temp wr fs ts i t t' temp files' :
  file_ok wr fs ts → ts !! i = Some t → (∀ k e, t ≠ FIndex k e) → HasSuffix temp fileCacheEntrySuffix = false →
  temp_of t = Some temp ∨ fsFiles fs !! temp = None →
  (∀ name, name ≠ temp → files' !! name = fsFiles fs !! name) →
  (∀ x, t' = Some x → task_fine wr files' x ∧ ∀ temp', temp_of x = Some temp' → temp' = temp) →
  file_ok wr (with_files files' fs) (partial_alter (λ _, t') i ts).
Proof.
  intros Hok Hi Hnot Hsuf Hmine Hother Hnew. apply file_ok_move; [done| | | |].
  - intros name d Hd Hs. apply (fo_entries _ _ _ Hok name d); [|done]. rewrite <-Hother; [done|]. intros ->. congruence.
  - intros name _ Hn Hsome. apply Hother. intros ->. destruct Hmine as [Ht|Hnone]; [by apply (Hn _ Hi)|]. rewrite Hnone in Hsome. by destruct Hsome.
  - intros x Hx. destruct (Hnew x Hx) as [Hf Ht']. split; [done|]. intros temp' ->%Ht'. destruct Hmine as [?|?]; [left; eauto|by right].
  - intros Hrm k d e Hd Hdec. rewrite Hother in Hd by (intros <-; by rewrite filenameForKey_suffix in Hsuf).
    destruct (fo_covered _ _ _ Hok k d e Hrm Hd Hdec) as [?|(j & e' & Hj)]; [by left|]. right; right. exists j, e'. split; [|done].
    intros ->. rewrite Hi in Hj. injection Hj as ->. by eapply Hnot.
Qed.

Lemma file_step_ok wr w e w' :
  file_ok wr (fwFS w) (fwTasks w) → file_step w e w' → file_ok (kept_entries [e] ++ wr) (fwFS w') (fwTasks w').
Proof.
  intros Hok Hstep. destruct Hstep as [now key fs filename i Hlook Hi|now key fs Hlook|key e _|key e s _ _|key e i _ _ Hi|service p|
    i t fs t' ev Hi Htask|name Hsuf|name data Hsuf Hdec _|now max names Hnd Hnames]; cbn [fwFS fwTasks kept_entries app].
  - destruct (lookupFile_spec _ _ _ _ _ Hlook (fo_store _ _ _ Hok)) as [Hd Hname]. apply file_ok_task.
    + by eapply file_ok_drops.
    + intros x [= <-]. split; [|done]. by apply Hname.
    + intros _ k e Hk. congruence.
  - destruct (lookupFile_spec _ _ _ _ _ Hlook (fo_store _ _ _ Hok)) as [Hd _]. by eapply file_ok_drops.
  - done.
  - by destruct Hok.
  - apply (file_ok_more _ ((key, e) :: wr)) in Hok; [|by intros ?; right]. apply file_ok_task; [done| |].
    + intros x [= <-]. split; [left|done].
    + intros _ k e' Hk. congruence.
  - destruct (PurgeFiles_spec service p (fwFS w) (fo_store _ _ _ Hok)) as [Hd _]. by eapply file_ok_drops.
  - assert (Hev : kept_entries [ev] ++ wr = wr) by (destruct Htask; done).
    change (file_ok (kept_entries [ev] ++ wr) fs (partial_alter (λ _, t') i (fwTasks w))). rewrite Hev. clear Hev.
    pose proof (fo_tasks _ _ _ Hok i t Hi) as Ht. pose proof (fo_entries _ _ _ Hok) as He.
    destruct Htask as [key filename k e Hread|key filename Hread|key|key e|key e temp data Henc Hfresh Hpre Hsuf|key e temp data part|key e temp data|
      key e temp data|key e temp data|key e temp data written Hw|now key e].
    + apply file_ok_task; [done|done|]. intros _ k' e' Hk. congruence.
    + apply file_ok_task; [done| |]; [by intros x [= <-]|]. intros _ k' e' Hk. congruence.
    + apply file_ok_task; [|done|].
      * eapply file_ok_drops; [done|]. apply forgetFile_drops, Hok.
      * intros _ k' e' Hk. congruence.
    + apply file_ok_task; [done|done|]. intros _ k' e' Hk. congruence.
    + apply (file_ok_temp _ _ _ _ _ _ temp _ Hok Hi); [done|done|by right|intros name ?; by rewrite lookup_insert_ne|].
      intros x [= <-]. cbn. rewrite lookup_insert_eq. split; [eauto|]. by intros temp' [= <-].
    + destruct (task_temp _ _ _ _ Ht eq_refl) as [Hsuf _].
      apply (file_ok_temp _ _ _ _ _ _ temp _ Hok Hi); [done|done|by left|intros name ?; by rewrite lookup_insert_ne|done].
    + destruct (task_temp _ _ _ _ Ht eq_refl) as [Hsuf _].
      apply (file_ok_temp _ _ _ _ _ _ temp _ Hok Hi); [done|done|by left|intros name ?; by rewrite lookup_delete_ne|done].
    + destruct (task_temp _ _ _ _ Ht eq_refl) as [Hsuf _].
      apply (file_ok_temp _ _ _ _ _ _ temp _ Hok Hi); [done|done|by left|intros name ?; by rewrite lookup_insert_ne|].
      destruct Ht as (Hin & Henc & _). intros x [= <-]. cbn. rewrite lookup_insert_eq. split; [done|]. by intros temp' [= <-].
    + destruct (task_temp _ _ _ _ Ht eq_refl) as [Hsuf _].
      apply (file_ok_temp _ _ _ _ _ _ temp _ Hok Hi); [done|done|by left|intros name ?; by rewrite lookup_delete_ne|done].
    + destruct Ht as (Hin & Henc & Hsuf & Htemp). rewrite Htemp in Hw. injection Hw as <-. pose proof (decode_encode _ _ _ Henc) as Hdec0.
      apply file_ok_move; [done| | | |].
      * intros name d [[<- <-]|[_ [_ Hd]%lookup_delete_Some]]%lookup_insert_Some Hs; [right; eauto 6|by apply (He name d)].
      * intros name Hname Hnot _. rewrite lookup_insert_ne by (intros <-; by rewrite filenameForKey_suffix in Hname).
        apply lookup_delete_ne. intros <-. by apply (Hnot _ Hi).
      * intros x [= <-]. done.
      * intros Hrm k d e' [[Heq <-]|[_ [_ Hd]%lookup_delete_Some]]%lookup_insert_Some Hdec.
        -- rewrite Hdec0 in Hdec. injection Hdec as -> ->. right; left. eauto.
        -- destruct (fo_covered _ _ _ Hok k d e' Hrm Hd Hdec) as [?|(j & e2 & Hj)]; [by left|]. right; right. exists j, e2. split; [congruence|done].
    + destruct (storeFile now rm key e (filenameForKey key) (size e) (fwFS w)) as [fs' evs] eqn:Hstore. cbn [fst].
      destruct (storeFile_spec _ _ _ _ _ _ Hstore (fo_store _ _ _ Hok) (fo_max _ _ _ Hok)) as (Hf & Hsh & Hm & _ & Hord & Hgone).
      apply file_ok_task; [|done|].
      * destruct Hok as [Hs Hmax He' Hts Htemps Hmeta Hcov]. split; [done|by rewrite Hm| | |done| |].
        -- eapply entries_sub; [apply Hsh|done].
        -- intros j t Hj. specialize (Hts j t Hj). apply (task_fine_files _ (fsFiles (fwFS w))); [|done]. intros temp Htemp.
           destruct (task_temp _ _ _ _ Hts Htemp) as [Hsuf _]. by apply Hsh.
        -- intros r Hr. destruct (Hord r Hr) as [->|?]; [|by apply Hmeta]. exists e. done.
        -- intros k d e' Hrm Hd Hdec. destruct (Hcov k d e' Hrm) as [Hsome|?]; [eapply lookup_weaken; [done|apply Hsh]|done| |by right].
           destruct (frecords (fsStore fs') !! k) as [r'|] eqn:Hk; [left; by eexists|].
           rewrite (Hgone k (or_intror Hsome) Hk (Hrm _)) in Hd. done.
      * intros Hrm k e' Hk. rewrite Hi in Hk. injection Hk as -> ->.
        destruct (frecords (fsStore fs') !! k) as [r'|] eqn:Hk; [left; by eexists|right]. apply Hgone; auto.
  - destruct Hok as [Hs Hm He Ht Htemps Hmeta Hcov]. split; try done.
    + eapply entries_sub; [apply delete_subseteq|done].
    + intros i t Hi. specialize (Ht i t Hi). apply (task_fine_files _ (fsFiles (fwFS w))); [|done]. intros temp Htemp.
      destruct (task_temp _ _ _ _ Ht Htemp) as [Hsuf' _]. cbn. apply lookup_delete_ne. intros ->. congruence.
    + cbn. intros k data e Hrm [_ Hd]%lookup_delete_Some. by apply Hcov.
  - destruct Hok as [Hs Hm He Ht Htemps Hmeta Hcov]. split; try done.
    + cbn. intros x d [[<- <-]|[_ Hd]]%lookup_insert_Some Hx; [by left|by apply (He x d)].
    + intros i t Hi. specialize (Ht i t Hi). apply (task_fine_files _ (fsFiles (fwFS w))); [|done]. intros temp Htemp.
      destruct (task_temp _ _ _ _ Ht Htemp) as [Hsuf' _]. cbn. apply lookup_insert_ne. intros ->. congruence.
    + cbn. intros k d e Hrm [[_ <-]|[_ Hd]]%lookup_insert_Some He'; [congruence|by eapply Hcov].
  - by eapply file_ok_restart.
Qed.

Lemma file_run_ok w es : file_run w es → file_ok (kept_entries es) (fwFS w) (fwTasks w).
Proof.
  induction 1 as [max|w es e w' _ IH Hstep].
  - split; cbn; try done.
    + split; [apply index_ok_empty|by intros r ?%elem_of_nil].
    + unfold emptyFileStore. cbn. case_goal; breflect; lia.
    + by intros r ?%elem_of_nil.
  - pose proof (file_step_ok _ _ _ _ IH Hstep) as Hok. destruct e; exact Hok.
Qed.

(** ** A directory others write to *)

Section shared.
(** Which file a record of a key may name. *)
Variable named : string → string → Prop.
Hypothesis named_suffix : ∀ k name, named k name → HasSuffix name fileCacheEntrySuffix = true.

Definition store_named (s : fileCacheStore) : Prop :=
  (∀ k r, frecords s !! k = Some r → fkey r = k ∧ named k (ffilename r)) ∧ ∀ r, r ∈ forder s → named (fkey r) (ffilename r).

(** An operation that names no other files, and removes only files of entries. *)
Definition narrows (w w' : FileStore) : Prop := store_named (fsStore w) → store_named (fsStore w') ∧ shrinks w w'.

Instance narrows_pre : PreOrder narrows.
Proof.
  split; [by intros w H|]. intros w1 w2 w3 H1 H2 H. destruct (H1 H) as [N1 S1]. destruct (H2 N1) as [N2 S2]. split; [done|by etrans].
Qed.

Lemma dropIndex_named r s : store_named s → store_named (dropIndex r s).
Proof.
  intros [Hr Ho]. split; cbn; [intros k x [_ Hx]%lookup_delete_Some; by apply Hr|]. intros x [_ Hx]%list_elem_of_filter. by apply Ho.
Qed.

Lemma removeFile_narrows r w : (store_named (fsStore w) → ∃ k, named k (ffilename r)) → narrows w (removeFile rm r w).
Proof.
  intros Hin Hn. destruct (Hin Hn) as [k Hk%named_suffix]. split; [by apply dropIndex_named|].
  split; cbn; case_goal; try done; [apply delete_subseteq|]. intros name Hsuf. apply lookup_delete_ne. intros <-. congruence.
Qed.

Lemma lookupFile_narrows now k w fs out :
  lookupFile now rm k w = (fs, out) → store_named (fsStore w) →
  (store_named (fsStore fs) ∧ shrinks w fs) ∧ ∀ filename, out = Some filename → named k filename.
Proof.
  unfold lookupFile. intros Heq Hn. destruct (frecords (fsStore w) !! k) as [r|] eqn:Hr; [|by injection Heq as <- <-].
  pose proof (proj1 Hn k r Hr) as [Hk Hname]. revert Heq. case_goal; intros [= <- <-].
  - split; [|done]. apply removeFile_narrows; eauto.
  - split; [|by intros ? [= <-]]. split; [|done]. split; cbn; [apply Hn|]. intros x [->|[_ Hx]%list_elem_of_filter]%elem_of_cons; [|by apply Hn].
    by rewrite Hk.
Qed.

Lemma forgetFile_narrows k w : narrows w (forgetFile rm k w).
Proof.
  unfold forgetFile. destruct (frecords (fsStore w) !! k) as [r|] eqn:Hr; [|reflexivity].
  apply removeFile_narrows. intros Hn. exists k. by apply Hn.
Qed.

Lemma evictFiles_narrows fuel now w : narrows w (evictFiles fuel now rm w).1.
Proof.
  revert w. induction fuel as [|fuel IH]; intros w; cbn [evictFiles]; [reflexivity|]. destruct (_ <=? _); [reflexivity|].
  destruct (last (forder (fsStore w))) as [r|] eqn:Hlast; [|reflexivity]. apply last_Some in Hlast as [l Ho].
  set (w1 := mkFS (countFileEviction now r (fsStore w)) (fsFiles w)). pose proof (IH (removeFile rm r w1)) as IH1.
  destruct (evictFiles fuel now rm (removeFile rm r w1)) as [w2 evs]. cbn [fst] in *.
  etrans; [|exact IH1]. assert (H1 : narrows w w1) by done. etrans; [exact H1|].
  apply removeFile_narrows. intros [_ Hn]. exists (fkey r). apply Hn. cbn. rewrite Ho. apply elem_of_app. right. left.
Qed.

Lemma indexFile_named now k e filename size s : named k filename → store_named s → store_named (indexFile now k e filename size s).
Proof.
  intros Hk [Hr Ho]. split; cbn.
  - intros k' r [[<- <-]|[_ Hx]]%lookup_insert_Some; [done|by apply Hr].
  - intros r [->|Hx]%elem_of_cons; [done|by apply Ho].
Qed.

Lemma storeFile_narrows now k e filename size w : named k filename → narrows w (storeFile now rm k e filename size w).1.
Proof.
  intros Hk Hn. unfold storeFile. set (s1 := match frecords (fsStore w) !! k with Some r => _ | None => _ end).
  assert (H1 : store_named s1) by (unfold s1; case_match; [by apply dropIndex_named|done]).
  by apply (evictFiles_narrows _ now (mkFS (indexFile now k e filename size s1) (fsFiles w))), indexFile_named.
Qed.

Lemma PurgeFiles_narrows service pathPrefix w : narrows w (PurgeFiles rm service pathPrefix w).1.
Proof.
  unfold PurgeFiles. intros Hn.
  assert (Hl : ∀ r, r ∈ forder (fsStore w) → ∃ k, named k (ffilename r)) by (intros r Hr; exists (fkey r); by apply Hn).
  revert Hl Hn. generalize (forder (fsStore w)) as l. intros l Hl. generalize 0 as n. change (∀ n, narrows w (foldl (λ '(w, n) r,
    if purgesFile service pathPrefix r then (removeFile rm r w, n + 1) else (w, n)) (w, n) l).1).
  revert w. induction l as [|r l IH]; intros w n; [reflexivity|]. cbn [foldl].
  assert (IH' : ∀ w n, narrows w (foldl (λ '(w, n) r, if purgesFile service pathPrefix r then (removeFile rm r w, n + 1) else (w, n)) (w, n) l).1)
    by (apply IH; intros x Hx; apply Hl; by right).
  destruct (purgesFile service pathPrefix r); [|apply IH'].
  etrans; [apply removeFile_narrows; intros _; apply Hl; left|apply IH'].
Qed.

Lemma newFileCacheStore_named now max names files :
  (∀ name k e, HasSuffix name fileCacheEntrySuffix = true → readEnvelope files name = Some (k, e) → named k name) →
  store_named (fsStore (newFileCacheStore now max names files)) ∧ fsFiles (newFileCacheStore now max names files) ⊆ files.
Proof.
  intros Hfiles. unfold newFileCacheStore. induction names as [|name names IH] using rev_ind.
  { cbn. split; [|done]. split; [by intros k r|by intros r ?%elem_of_nil]. }
  rewrite foldl_app. cbn [foldl]. destruct (foldl _ _ names) as [st fl]. cbn in IH. destruct IH as [Hn Hsub].
  unfold rebuildFile. destruct (HasSuffix name fileCacheEntrySuffix) eqn:Hsuf; cbn [negb]; [|done]. cbn [fsStore fsFiles].
  assert (Hdrop : store_named st ∧ (if rm name then delete name fl else fl) ⊆ files).
  { split; [done|]. case_goal; [|done]. etrans; [apply delete_subseteq|done]. }
  destruct (readEnvelope fl name) as [[k e]|] eqn:Hr; [|done]. destruct (servable now e); cbn [negb]; [|done]. split; [|done].
  apply indexFile_named; [|done]. apply (Hfiles name k e); [done|]. apply readEnvelope_Some in Hr as (data & Hd & Hdec).
  apply readEnvelope_Some. exists data. split; [by eapply lookup_weaken|done].
Qed.

End shared.

(** A file for a key: its own, or one that others filled for it. *)
Definition foreign_named (foreign : list string) (k name : string) : Prop :=
  HasSuffix name fileCacheEntrySuffix = true ∧
  (name = filenameForKey k ∨ ∃ data e, data ∈ foreign ∧ decodeCacheEnvelope data = Some (k, Some e)).

Definition shared_task (wr : list (string * CacheEntry)) (foreign : list string) (files : gmap string string) (t : FileTask) : Prop :=
  match t with FRead key filename => foreign_named foreign key filename | _ => task_fine wr files t end.

(** What reads as an entry was put there by others, or set under its key. *)
Definition files_ok (wr : list (string * CacheEntry)) (foreign : list string) (files : gmap string string) : Prop :=
  ∀ name data k e, files !! name = Some data → HasSuffix name fileCacheEntrySuffix = true → decodeCacheEnvelope data = Some (k, Some e) →
  data ∈ foreign ∨ name = filenameForKey k ∧ (k, e) ∈ wr.

Record shared_ok (wr : list (string * CacheEntry)) (foreign : list string) (fs : FileStore) (ts : gmap nat FileTask) : Prop := {
  so_files : files_ok wr foreign (fsFiles fs);
  so_named : store_named (foreign_named foreign) (fsStore fs);
  so_tasks i t : ts !! i = Some t → shared_task wr foreign (fsFiles fs) t;
  so_temps i j ti tj temp : ts !! i = Some ti → ts !! j = Some tj → temp_of ti = Some temp → temp_of tj = Some temp → i = j }.

Lemma foreign_named_suffix foreign k name : foreign_named foreign k name → HasSuffix name fileCacheEntrySuffix = true.
Proof. by intros [? _]. Qed.

Lemma files_ok_sub wr foreign files files' : files' ⊆ files → files_ok wr foreign files → files_ok wr foreign files'.
Proof. intros Hsub Hok name data k e Hd. apply (Hok name data k e). by eapply lookup_weaken. Qed.

Lemma shared_temp wr foreign files t temp :
  shared_task wr foreign files t → temp_of t = Some temp → HasSuffix temp fileCacheEntrySuffix = false ∧ is_Some (files !! temp).
Proof. destruct t; try done; apply task_temp. Qed.

Lemma shared_task_files wr foreign files files' t :
  (∀ name, HasSuffix name fileCacheEntrySuffix = false → files' !! name = files !! name) →
  shared_task wr foreign files t → shared_task wr foreign files' t.
Proof.
  intros Hf Ht. destruct t; [done|apply (task_fine_files _ files); [|done]; intros tmp Htemp; destruct (shared_temp _ _ _ _ _ Ht Htemp); by apply Hf..].
Qed.

(** An operation of the store. *)
Lemma shared_ok_narrows wr foreign fs fs' ts :
  shared_ok wr foreign fs ts → narrows (foreign_named foreign) fs fs' → shared_ok wr foreign fs' ts.
Proof.
  intros [Hf Hn Ht Htemps] Hnar. destruct (Hnar Hn) as [Hn' [Hsub Hsame]]. split; [by eapply files_ok_sub|done| |done].
  intros i t Hi. eapply shared_task_files; [done|by eapply Ht].
Qed.

(** Others at work on the files of entries. *)
Lemma shared_ok_entries wr foreign foreign' fs ts files' :
  shared_ok wr foreign fs ts → foreign ⊆ foreign' → files_ok wr foreign' files' →
  (∀ name, HasSuffix name fileCacheEntrySuffix = false → files' !! name = fsFiles fs !! name) →
  shared_ok wr foreign' (with_files files' fs) ts.
Proof.
  intros [Hf Hn Ht Htemps] Hsub Hf' Hsame.
  assert (Hmore : ∀ k name, foreign_named foreign k name → foreign_named foreign' k name).
  { intros k name [? [?|(data & e & ? & ?)]]; (split; [done|]); [by left|right; eauto]. }
  split; [done| | |done].
  - destruct Hn as [Hr Ho]. split; [|by intros r Hr'%Ho; apply Hmore]. intros k r Hk. destruct (Hr k r Hk). auto.
  - intros i t Hi. specialize (Ht i t Hi). destruct t; [by apply Hmore|by eapply (shared_task_files _ foreign')..].
Qed.

(** A task moves on, and works on its temporary file, or renames it into place. *)
Lemma shared_ok_move wr foreign fs ts i t' files' :
  shared_ok wr foreign fs ts → files_ok wr foreign files' →
  (∀ name, HasSuffix name fileCacheEntrySuffix = false → (∀ t, ts !! i = Some t → temp_of t ≠ Some name) →
     is_Some (fsFiles fs !! name) → files' !! name = fsFiles fs !! name) →
  (∀ x, t' = Some x → shared_task wr foreign files' x ∧
     ∀ temp, temp_of x = Some temp → (∃ t, ts !! i = Some t ∧ temp_of t = Some temp) ∨ fsFiles fs !! temp = None) →
  shared_ok wr foreign (with_files files' fs) (partial_alter (λ _, t') i ts).
Proof.
  intros [Hf Hn Ht Htemps] Hf' Hkeep Hnew.
  assert (Hlook : ∀ j t, partial_alter (λ _, t') i ts !! j = Some t → (j = i ∧ t' = Some t) ∨ (j ≠ i ∧ ts !! j = Some t)).
  { intros j t. destruct (decide (j = i)) as [->|Hne]; [rewrite lookup_partial_alter_eq; auto|rewrite lookup_partial_alter_ne by done; auto]. }
  assert (Hother : ∀ j t temp, j ≠ i → ts !! j = Some t → temp_of t = Some temp → ∀ ti, ts !! i = Some ti → temp_of ti ≠ Some temp).
  { intros j t temp Hne Hj Htj ti Hi Hti. by apply Hne, (Htemps j i t ti temp). }
  split; cbn [fsStore fsFiles with_files]; try done.
  - intros j t [[-> Heq]|[Hne Hj]]%Hlook; [by apply Hnew|]. pose proof (Ht j t Hj) as Hj'. destruct t; [done|apply (task_fine_files _ (fsFiles fs)); [|done];
      intros tmp Htemp; destruct (shared_temp _ _ _ _ _ Hj' Htemp) as [Hsuf Hsome]; apply Hkeep; [done|by eapply Hother|done]..].
  - assert (Hmine : ∀ j t x temp, j ≠ i → ts !! j = Some t → t' = Some x → temp_of t = Some temp → temp_of x = Some temp → False).
    { intros j t x temp Hne Hj Hx Htj Htx. destruct (Hnew x Hx) as [_ Hx']. destruct (Hx' temp Htx) as [(ti & Hi & Hti)|Hnone].
      - by eapply Hother.
      - destruct (shared_temp _ _ _ _ _ (Ht j t Hj) Htj) as [_ [? Hsome]]. congruence. }
    intros j1 j2 t1 t2 temp [[-> H1]|[Hne1 H1]]%Hlook [[-> H2]|[Hne2 H2]]%Hlook Htemp1 Htemp2; [done| | |by eapply Htemps]; exfalso; eauto.
Qed.

(** The same, for a step that touches no file. *)
Lemma shared_ok_task wr foreign fs ts i t' :
  shared_ok wr foreign fs ts → (∀ x, t' = Some x → shared_task wr foreign (fsFiles fs) x ∧ temp_of x = None) →
  shared_ok wr foreign fs (partial_alter (λ _, t') i ts).
Proof.
  intros Hok Hnew. destruct fs as [s files]. apply (shared_ok_move _ _ (mkFS s files) ts i t' files); [done|apply Hok|done|].
  intros x Hx. destruct (Hnew x Hx) as [? Hnone]. split; [done|]. by rewrite Hnone.
Qed.

(** The same, for work on the task's temporary file. *)
Lemma shared_ok_temp wr foreign fs ts i t t' temp files' :
  shared_ok wr foreign fs ts → ts !! i = Some t → HasSuffix temp fileCacheEntrySuffix = false →
  temp_of t = Some temp ∨ fsFiles fs !! temp = None →
  (∀ name, name ≠ temp → files' !! name = fsFiles fs !! name) →
  (∀ x, t' = Some x → shared_task wr foreign files' x ∧ ∀ temp', temp_of x = Some temp' → temp' = temp) →
  shared_ok wr foreign (with_files files' fs) (partial_alter (λ _, t') i ts).
Proof.
  intros Hok Hi Hsuf Hmine Hother Hnew. apply shared_ok_move; [done| | |].
  - intros name d k e Hd Hs. apply (so_files _ _ _ _ Hok name d); [|done]. rewrite <-Hother; [done|]. intros ->. congruence.
  - intros name _ Hn Hsome. apply Hother. intros ->. destruct Hmine as [Ht|Hnone]; [by apply (Hn _ Hi)|]. rewrite Hnone in Hsome. by destruct Hsome.
  - intros x Hx. destruct (Hnew x Hx) as [Hf Ht']. split; [done|]. intros temp' ->%Ht'. destruct Hmine as [?|?]; [left; eauto|by right].
Qed.

Lemma shared_ok_more wr wr' foreign fs ts : wr ⊆ wr' → shared_ok wr foreign fs ts → shared_ok wr' foreign fs ts.
Proof.
  intros Hsub [Hf Hn Ht Htemps]. split; try done.
  - intros name data k e Hd Hsuf Hdec. destruct (Hf name data k e Hd Hsuf Hdec) as [?|[? ?]]; [by left|right; auto].
  - intros i t Hi. specialize (Ht i t Hi). destruct t; cbn in *; naive_solver.
Qed.

Lemma shared_task_step_ok wr foreign fs ts i t fs' t' ev :
  shared_ok wr foreign fs ts → ts !! i = Some t → file_task_step fs t fs' t' ev → shared_ok wr foreign fs' (partial_alter (λ _, t') i ts).
Proof.
  intros Hok Hi Htask. pose proof (so_tasks _ _ _ _ Hok i t Hi) as Ht. pose proof (foreign_named_suffix foreign) as Hnamed.
  destruct Htask as [key filename k e Hread|key filename Hread|key|key e|key e temp data Henc Hfresh Hpre Hsuf|key e temp data part|key e temp data|
    key e temp data|key e temp data|key e temp data written Hw|now key e].
  - by apply shared_ok_task.
  - apply shared_ok_task; [done|]. by intros x [= <-].
  - apply shared_ok_task; [|done]. eapply shared_ok_narrows; [done|]. by apply forgetFile_narrows.
  - by apply shared_ok_task.
  - apply (shared_ok_temp _ _ _ _ _ _ _ temp _ Hok Hi); [done|by right|intros name ?; by rewrite lookup_insert_ne|].
    intros x [= <-]. cbn. rewrite lookup_insert_eq. split; [eauto|]. by intros temp' [= <-].
  - destruct (shared_temp _ _ _ _ _ Ht eq_refl) as [Hsuf _].
    apply (shared_ok_temp _ _ _ _ _ _ _ temp _ Hok Hi); [done|by left|intros name ?; by rewrite lookup_insert_ne|done].
  - destruct (shared_temp _ _ _ _ _ Ht eq_refl) as [Hsuf _].
    apply (shared_ok_temp _ _ _ _ _ _ _ temp _ Hok Hi); [done|by left|intros name ?; by rewrite lookup_delete_ne|done].
  - destruct (shared_temp _ _ _ _ _ Ht eq_refl) as [Hsuf _].
    apply (shared_ok_temp _ _ _ _ _ _ _ temp _ Hok Hi); [done|by left|intros name ?; by rewrite lookup_insert_ne|].
    destruct Ht as (Hin & Henc & _). intros x [= <-]. cbn. rewrite lookup_insert_eq. split; [done|]. by intros temp' [= <-].
  - destruct (shared_temp _ _ _ _ _ Ht eq_refl) as [Hsuf _].
    apply (shared_ok_temp _ _ _ _ _ _ _ temp _ Hok Hi); [done|by left|intros name ?; by rewrite lookup_delete_ne|done].
  - destruct Ht as (Hin & Henc & Hsuf & Htemp). rewrite Htemp in Hw. injection Hw as <-. pose proof (decode_encode _ _ _ Henc) as Hdec0.
    apply shared_ok_move; [done| | |by intros x [= <-]].
    + intros name d k' e' [[<- <-]|[_ [_ Hd]%lookup_delete_Some]]%lookup_insert_Some Hs Hdec; [|by apply (so_files _ _ _ _ Hok name d)].
      rewrite Hdec0 in Hdec. injection Hdec as <- <-. by right.
    + intros name Hname Hnot _. rewrite lookup_insert_ne by (intros <-; by rewrite filenameForKey_suffix in Hname).
      apply lookup_delete_ne. intros <-. by apply (Hnot _ Hi).
  - apply shared_ok_task; [|done]. eapply shared_ok_narrows; [done|]. apply storeFile_narrows; [done|].
    split; [apply filenameForKey_suffix|by left].
Qed.

Lemma shared_step_ok wr foreign w e w' :
  shared_ok wr foreign (fwFS w) (fwTasks w) → file_step w e w' → shared_ok (kept_entries [e] ++ wr) foreign (fwFS w') (fwTasks w').
Proof.
  intros Hok Hstep. pose proof (foreign_named_suffix foreign) as Hnamed.
  destruct Hstep as [now key fs filename i Hlook Hi|now key fs Hlook|key e _|key e s _ _|key e i _ _ Hi|service p|
    i t fs t' ev Hi Htask|name Hsuf|name data Hsuf Hdec _|now max names Hnd Hnames]; cbn [fwFS fwTasks kept_entries app].
  - destruct (lookupFile_narrows _ Hnamed _ _ _ _ _ Hlook (so_named _ _ _ _ Hok)) as [Hn Hname]. apply shared_ok_task.
    + eapply shared_ok_narrows; [done|]. by intros _.
    + intros x [= <-]. split; [|done]. by apply Hname.
  - destruct (lookupFile_narrows _ Hnamed _ _ _ _ _ Hlook (so_named _ _ _ _ Hok)) as [Hn _]. eapply shared_ok_narrows; [done|]. by intros _.
  - done.
  - by destruct Hok.
  - apply (shared_ok_more _ ((key, e) :: wr)) in Hok; [|by intros ?; right]. apply shared_ok_task; [done|].
    intros x [= <-]. split; [left|done].
  - eapply shared_ok_narrows; [done|]. by apply PurgeFiles_narrows.
  - assert (Hev : kept_entries [ev] ++ wr = wr) by (destruct Htask; done).
    change (shared_ok (kept_entries [ev] ++ wr) foreign fs (partial_alter (λ _, t') i (fwTasks w))). rewrite Hev.
    by eapply shared_task_step_ok.
  - eapply shared_ok_entries; [done..| |].
    + eapply files_ok_sub; [apply delete_subseteq|apply Hok].
    + intros x Hx. apply lookup_delete_ne. intros ->. congruence.
  - eapply shared_ok_entries; [done..| |].
    + intros x d k e [[<- <-]|[_ Hd]]%lookup_insert_Some Hs He; [congruence|by apply (so_files _ _ _ _ Hok x d)].
    + intros x Hx. apply lookup_insert_ne. intros ->. congruence.
  - destruct (newFileCacheStore_named (foreign_named foreign) now max names (fsFiles (fwFS w))) as [Hn Hsub].
    { intros name k e Hsuf (data & Hd & Hdec)%readEnvelope_Some. split; [done|].
      destruct (so_files _ _ _ _ Hok _ _ _ _ Hd Hsuf Hdec) as [?|[? _]]; [right; eauto|by left]. }
    split; [by eapply files_ok_sub, Hok|done|done|done].
Qed.

Lemma shared_run_ok w es foreign : shared_run w es foreign → shared_ok (kept_entries es) foreign (fwFS w) (fwTasks w).
Proof.
  induction 1 as [max|w es foreign e w' _ IH Hstep|w es foreign name data _ IH Hsuf].
  - split; cbn; try done. split; [by intros k r|by intros r ?%elem_of_nil].
  - pose proof (shared_step_ok _ _ _ _ _ IH Hstep) as Hok. destruct e; exact Hok.
  - cbn [fwFS fwTasks]. eapply shared_ok_entries; [done|by intros ?; right| |].
    + intros x d k e [[<- <-]|[_ Hd]]%lookup_insert_Some Hs He; [left; left|].
      destruct (so_files _ _ _ _ IH x d k e Hd Hs He) as [?|?]; [left; by right|by right].
    + intros x Hx. apply lookup_insert_ne. intros ->. congruence.
Qed.

(** A run in which nobody else writes is one in which others may. *)
Lemma file_run_shared w es : file_run w es → shared_run w es [].
Proof. induction 1; [apply sr_new|by eapply sr_step]. Qed.

(** ** What the store guarantees *)

(** C24: what the file store answers was kept under that key, whole, or somebody
    else put it into the directory.  However reads, writes, purges, evictions and
    restarts of the process interleave, wherever a write was torn, and whatever
    others remove or put into the files of entries, an answer under a key is an
    entry somebody asked to be kept under it, as long as the digests of the keys
    do not collide; or the entry of a file that others wrote; or one kept under
    another key, in a file that others had filled for this one.  So it is what
    was kept when nothing that others wrote decodes. *)
Theorem file_store_answers w es foreign w' k e :
  shared_run w es foreign → file_step w (FeAnswer k (Some e)) w' →
  (∀ k', k' ∈ (kept_entries es).*1 → sha256_hex k' = sha256_hex k → k' = k) →
  (k, e) ∈ kept_entries es ∨
  (∃ data key, data ∈ foreign ∧ decodeCacheEnvelope data = Some (key, Some e)) ∨
  ∃ data e0 key, data ∈ foreign ∧ decodeCacheEnvelope data = Some (k, Some e0) ∧ (key, e) ∈ kept_entries es.
Proof.
  intros Hrun%shared_run_ok Hstep Hinj. inversion Hstep as [| | | | | |i t fs t' ev Hi Htask| | |]; subst.
  inversion Htask as [key filename k' e' Hread| | | | | | | | | |]; subst.
  destruct (so_tasks _ _ _ _ Hrun i _ Hi) as [Hsuf Hname]. apply readEnvelope_Some in Hread as (data & Hd & Hdec).
  destruct (so_files _ _ _ _ Hrun _ _ _ _ Hd Hsuf Hdec) as [?|[Hf Hin]]; [right; left; by eexists _, _|].
  destruct Hname as [Heq|(d0 & e0 & Hd0 & Hdec0)]; [left|right; right; by eexists _, _, _]. rewrite Heq in Hf. unfold filenameForKey in Hf.
  assert (Hsha : sha256_hex k' = sha256_hex k).
  { pose proof (f_equal String.length Hf) as Hlen. rewrite !str_length_app in Hlen. symmetry.
    apply str_app_inj_len in Hf as [? _]; [done|lia]. }
  rewrite <-(Hinj k'); [done| |done]. apply list_elem_of_fmap. by exists (k', e).
Qed.

(** The books of the file store stay exact: the index has precisely the
    elements of the list, one per key, in the file of its key; the running total
    is the sum of their sizes, and the usage of a service that of its elements;
    and whenever an entry has been stored, the budget is kept. *)
Theorem file_store_books w es :
  file_run w es →
  let s := fsStore (fwFS w) in
  NoDup (fkey <$> forder s) ∧ (∀ k r, frecords s !! k = Some r ↔ r ∈ forder s ∧ fkey r = k) ∧
  (∀ k, pathForKey s k = (λ _, filenameForKey k) <$> frecords s !! k) ∧
  fbytes s = sumf fsize (forder s) ∧ (∀ svc, fservices s !! svc = LruIndex.usage_of fservice fsize svc (forder s)) ∧
  ∀ now k e, fbytes (fsStore (storeFile now rm k e (filenameForKey k) (size e) (fwFS w)).1) ≤ fmaxBytes s.
Proof.
  intros Hok%file_run_ok s. destruct (fo_store _ _ _ Hok) as [[Hk Hr Hb Hu] Hn].
  split; [done|split; [done|split; [|split; [done|split; [done|]]]]].
  - intros k. unfold pathForKey. fold s. destruct (frecords s !! k) as [r|] eqn:Hrec; [|done]. cbn. apply Hr in Hrec as [Hin <-]. by rewrite Hn.
  - intros now k e. destruct (storeFile now rm k e (filenameForKey k) (size e) (fwFS w)) as [w' evs] eqn:Hst.
    by destruct (storeFile_spec _ _ _ _ _ _ Hst (fo_store _ _ _ Hok) (fo_max _ _ _ Hok)) as (_ & _ & _ & ? & _).
Qed.

(** C35: a restart forgets nothing that is of use and brings nothing back.  The
    store opened on the directory another one left, at any moment of its work,
    has exactly the keys whose file reads as an entry of that key that may still
    be served, and reads it for them. *)
Theorem file_store_restart w es now max names :
  file_run w es → NoDup names → (∀ name, name ∈ names ↔ is_Some (fsFiles (fwFS w) !! name)) →
  let fs := newFileCacheStore now max names (fsFiles (fwFS w)) in
  ∀ k,
  (is_Some (frecords (fsStore fs) !! k) ↔
     ∃ e, readEnvelope (fsFiles (fwFS w)) (filenameForKey k) = Some (k, e) ∧ servable now e = true) ∧
  (∀ e, readEnvelope (fsFiles (fwFS w)) (filenameForKey k) = Some (k, e) → servable now e = true →
     readEnvelope (fsFiles fs) (filenameForKey k) = Some (k, e)).
Proof.
  intros Hok%file_run_ok Hnd Hnames fs k.
  destruct (rebuild_fold now max _ names (entries_named _ _ (fo_entries _ _ _ Hok)) Hnd) as (_ & _ & Hkeep & Hrec). fold fs in Hkeep, Hrec.
  split.
  - split.
    + intros [r Hr]. apply Hrec in Hr as [_ (data & e & Hd & Hdec & Hs & _)]. exists e. split; [|done]. apply readEnvelope_Some. eauto.
    + intros (e & (data & Hd & Hdec)%readEnvelope_Some & Hs). eexists. apply Hrec. split; [apply Hnames; by eexists|].
      exists data, e. done.
  - intros e Hread Hs. rewrite <-Hread. unfold readEnvelope. rewrite Hkeep; [done|]. right; right. eauto.
Qed.

(** What was purged stays purged.  Where the file system carries out its
    removals, a purge with no write under way leaves nothing of the service
    below the prefix for a later process to find, whatever happened before and
    whoever opens the directory when. *)
Theorem purge_outlives_process w es service pathPrefix now max names :
  (∀ name, rm name = true) → file_run w es → fwTasks w = ∅ →
  (∀ k e e', (k, e) ∈ kept_entries es → (k, e') ∈ kept_entries es → ceService e = ceService e' ∧ cePath e = cePath e') →
  let fs := (PurgeFiles rm service pathPrefix (fwFS w)).1 in
  NoDup names → (∀ name, name ∈ names ↔ is_Some (fsFiles fs !! name)) →
  ∀ r, r ∈ forder (fsStore (newFileCacheStore now max names (fsFiles fs))) → purgesFile service pathPrefix r = false.
Proof.
  intros Hrm Hok%file_run_ok Hidle Hsame fs Hnd Hnames r Hr. rewrite Hidle in Hok.
  destruct (PurgeFiles_spec service pathPrefix (fwFS w) (fo_store _ _ _ Hok)) as [Hdrops Hleft]. fold fs in Hdrops, Hleft.
  pose proof (file_ok_drops _ _ _ _ Hok Hdrops) as Hok2.
  destruct (rebuild_fold now max _ names (entries_named _ _ (fo_entries _ _ _ Hok2)) Hnd) as (Hf & _ & _ & Hrec).
  assert (Hk : frecords (fsStore (newFileCacheStore now max names (fsFiles fs))) !! fkey r = Some r)
    by (by apply (ix_records _ _ _ _ _ _ _ (proj1 Hf))).
  apply Hrec in Hk as [_ (data & e & Hd & Hdec & _ & Heq)].
  destruct (fo_covered _ _ _ Hok2 _ _ _ Hrm Hd Hdec) as [[r0 Hr0]|(i & e' & Hi)]; [|by rewrite lookup_empty in Hi].
  destruct (record_in _ _ _ (fo_store _ _ _ Hok2) Hr0) as [Hin0 Hk0].
  destruct (fo_meta _ _ _ Hok2 r0 Hin0) as (e0 & He0 & Hs0 & Hp0). rewrite Hk0 in He0.
  destruct (fo_entries _ _ _ Hok2 _ _ Hd (filenameForKey_suffix _)) as [?|(k' & e' & Hdec' & _ & He')]; [congruence|].
  rewrite Hdec in Hdec'. injection Hdec' as <- <-. destruct (Hsame _ _ _ He0 He') as [Hsv Hpt].
  rewrite <-(Hleft r0 Hin0). unfold purgesFile. rewrite Heq. cbn. by rewrite Hs0, Hp0, Hsv, Hpt.
Qed.
End files.

(** ** Examples *)

Module FileStoreExamples.

#[local] Instance CacheEntry_eq_dec : EqDecision CacheEntry.
Proof. solve_decision. Defined.

Definition page : CacheEntry := mkCacheEntry "web" "/a" [] "" [] 200 ∅ "<p>hi" 0 0 minute 0.

(** A codec for that one entry. *)
Definition encode (k : string) (e : CacheEntry) : option string := if bool_decide (e = page) then Some ("!" +:+ k) else None.
Definition decode (s : string) : option (string * option CacheEntry) :=
  match CutPrefix s "!" with Some k => Some (k, Some page) | None => None end.

Lemma decode_encode k e data : encode k e = Some data → decode data = Some (k, Some e).
Proof.
  unfold encode, decode. case_bool_decide as He; [|done]. intros [= <-]. rewrite He.
  by assert (CutPrefix (String "!" k) "!" = Some k) as -> by (by apply CutPrefix_Some).
Qed.

Definition sha (s : string) : string := s.
Definition rm (_ : string) : bool := true.

Abbreviation run := (file_run sha encode decode rm).
Abbreviation step := (file_step sha encode decode rm).

Definition empty : FileWorld := mkFW (mkFS (emptyFileStore 4096) ∅) ∅.
Definition stored : FileWorld :=
  mkFW (storeFile 0 rm "k" page "k.entry" (size page) (mkFS (emptyFileStore 4096) {["k.entry" := "!k"]})).1 ∅.

Ltac keep c :=
  match goal with
  | R : run ?w ?es |- _ =>
      let S := fresh in
      eassert (S : step w _ _) by c; apply (fr_step _ _ _ _ _ _ _ _ R) in S; clear R;
      match type of S with
      | run ?w' ?es' =>
          let w2 := eval vm_compute in w' in let es2 := eval vm_compute in es' in
          change (run w2 es2) in S
      end
  end.
Ltac ev := first [reflexivity | vm_compute; reflexivity | vm_compute; discriminate].
Ltac task c := keep ltac:(eapply (fs_task _ _ _ _ _ 0); [vm_compute; reflexivity|c]).

Lemma stored_run : ∃ es, run stored es ∧ kept_entries es = [("k", page)].
Proof.
  assert (R : run empty []) by apply fr_new.
  keep ltac:(eapply (fs_set _ _ _ _ _ "k" page 0); ev).
  task ltac:(eapply (ft_create _ _ _ _ _ _ _ ".writing-1" "!k"); ev).
  task ltac:(eapply ft_write).
  task ltac:(eapply ft_rename; ev).
  task ltac:(eapply (ft_index _ _ _ _ _ 0)).
  match goal with R : run ?w ?es |- _ => exists es; split; [|reflexivity]; let w' := eval vm_compute in stored in change (run w' es) end.
  eassumption.
Qed.

Lemma reading_run : ∃ es, run (mkFW (fwFS stored) {[0%nat := FRead "k" "k.entry"]}) es ∧ kept_entries es = [("k", page)].
Proof.
  destruct stored_run as (es & Hrun & Hes). exists (FeOther :: es). split; [|exact Hes].
  apply (fr_step _ _ _ _ _ _ _ _ Hrun). refine (fs_get _ _ _ _ stored 0 "k" _ _ 0 _ _); [vm_compute; reflexivity|reflexivity].
Qed.

(** Somebody else spoils another file meanwhile. *)
Lemma file_store_answers_witness :
  ∃ w es w', shared_run sha encode decode rm w es ["junk"] ∧ step w (FeAnswer "k" (Some page)) w' ∧ ("k", page) ∈ kept_entries es.
Proof.
  destruct reading_run as (es & Hrun & Hes).
  pose proof (sr_put _ _ _ _ _ _ [] "x.entry" "junk" (file_run_shared _ _ _ _ _ _ Hrun) eq_refl) as Hshared.
  eexists _, es, _. split; [exact Hshared|].
  assert (Hstep : step (mkFW (with_files (<["x.entry" := "junk"]> (fsFiles (fwFS stored))) (fwFS stored)) {[0%nat := FRead "k" "k.entry"]}) (FeAnswer "k" (Some page))
    (mkFW (with_files (<["x.entry" := "junk"]> (fsFiles (fwFS stored))) (fwFS stored)) (partial_alter (λ _, None) 0%nat {[0%nat := FRead "k" "k.entry"]}))).
  { eapply fs_task; [reflexivity|]. eapply ft_read. vm_compute. reflexivity. }
  split; [exact Hstep|].
  assert (Hinj : ∀ k', k' ∈ (kept_entries es).*1 → sha k' = sha "k" → k' = "k") by (intros k' _ Hk'; exact Hk').
  destruct (file_store_answers sha encode decode decode_encode rm _ es _ _ "k" page Hshared Hstep Hinj) as [H|[(data & key & Hd & Hdec)|(data & e0 & key & Hd & Hdec & _)]].
  - exact H.
  - apply list_elem_of_singleton in Hd. subst data. vm_compute in Hdec. discriminate Hdec.
  - apply list_elem_of_singleton in Hd. subst data. vm_compute in Hdec. discriminate Hdec.
Defined.

Lemma file_store_books_witness :
  ∃ es, run stored es ∧ fbytes (fsStore (fwFS stored)) = sumf fsize (forder (fsStore (fwFS stored))) ∧
    pathForKey (fsStore (fwFS stored)) "k" = Some "k.entry".
Proof.
  destruct stored_run as (es & Hrun & _). exists es. split; [exact Hrun|].
  destruct (file_store_books sha encode decode decode_encode rm stored es Hrun) as (_ & _ & Hpath & Hb & _).
  split; [exact Hb|]. rewrite Hpath. vm_compute. reflexivity.
Defined.

Lemma names_of_stored : ∀ name, name ∈ ["k.entry"] ↔ is_Some (fsFiles (fwFS stored) !! name).
Proof.
  intros name. change (fsFiles (fwFS stored)) with ({["k.entry" := "!k"]} : gmap string string).
  rewrite list_elem_of_singleton, lookup_singleton_is_Some. split; congruence.
Qed.

Lemma file_store_restart_witness :
  is_Some (frecords (fsStore (newFileCacheStore decode rm (30 * second) 4096 ["k.entry"] (fsFiles (fwFS stored)))) !! "k").
Proof.
  destruct stored_run as (es & Hrun & _).
  refine (proj2 (proj1 (file_store_restart sha encode decode decode_encode rm stored es (30 * second) 4096 ["k.entry"] Hrun _ names_of_stored "k")) _).
  - apply NoDup_singleton.
  - exists page. vm_compute. split; reflexivity.
Defined.

Lemma purge_outlives_process_witness :
  ∀ r, r ∈ forder (fsStore (newFileCacheStore decode rm 0 4096 [] (fsFiles (PurgeFiles rm "web" "/" (fwFS stored)).1))) →
  purgesFile "web" "/" r = false.
Proof.
  destruct stored_run as (es & Hrun & Hes).
  refine (purge_outlives_process sha encode decode decode_encode rm stored es "web" "/" 0 4096 [] _ Hrun _ _ _ _).
  - reflexivity.
  - reflexivity.
  - rewrite Hes. intros k e e' H1 H2. apply list_elem_of_singleton in H1, H2. injection H1 as -> ->. injection H2 as ->. split; reflexivity.
  - constructor.
  - intros name. assert (Hnone : fsFiles (PurgeFiles rm "web" "/" (fwFS stored)).1 = ∅) by (vm_compute; reflexivity).
    rewrite Hnone, lookup_empty. split; [intros Hn; inversion Hn|intros [? Hn]; discriminate].
Defined.

(** ** What modelling showed *)

(** The key in a file is not compared with the key that is read: a file swapped
    with that of another key is answered. *)
Example swapped_is_answered :
  let swapped := with_files {["k.entry" := "!other"]} (fwFS stored) in
  readEnvelope decode (fsFiles swapped) "k.entry" = Some ("other", page) ∧
  step (mkFW swapped {[0%nat := FRead "k" "k.entry"]}) (FeAnswer "k" (Some page)) (mkFW swapped (partial_alter (λ _, None) 0%nat {[0%nat := FRead "k" "k.entry"]})).
Proof. split; [vm_compute; reflexivity|]. eapply fs_task; [reflexivity|]. eapply (ft_read _ _ _ _ _ _ _ "other"). vm_compute. reflexivity. Qed.

(** A store opened fifty seconds after a page that lives for a minute was kept
    would answer with it for another minute. *)
Example restored_outlives :
  let fs := newFileCacheStore decode rm (50 * second) 4096 ["k.entry"] (fsFiles (fwFS stored)) in
  (lookupFile (61 * second) rm "k" (fwFS stored)).2 = None ∧
  (lookupFile (109 * second) rm "k" fs).2 = Some "k.entry" ∧ servable (109 * second) page = false.
Proof. vm_compute. repeat split. Qed.

(** A purge between the renaming of a new file and its indexing takes the file
    along: the index has an entry that is not there. *)
Example purged_under_writer :
  let renamed := mkFS (fsStore (fwFS stored)) (<["k.entry" := "!k"]> (fsFiles (fwFS stored))) in
  let w := (storeFile 1 rm "k" page "k.entry" (size page) (PurgeFiles rm "web" "/" renamed).1).1 in
  is_Some (frecords (fsStore w) !! "k") ∧ readEnvelope decode (fsFiles w) "k.entry" = None.
Proof. vm_compute. split; [by eexists|reflexivity]. Qed.

End FileStoreExamples.
