(* ===== verification/CacheMiddleware.v ===== *)
(** * The response cache at work: [internal/server/cache_middleware.go],
    [cache_middleware_lease.go], [cache_response_writer.go],
    [cache_inflight.go], and the lookups of [cache_variant.go]

    A request is answered from a stored response, from a fetch another request
    is already making, or by a fetch of its own whose response is kept on the
    way past.  The store is used through an interface ([CacheStore]); the
    in-process store is an instance of it.  Requests and background refreshes
    are tasks of a transition system: one step is one critical section, one
    store operation or one event of the target's response, so they interleave
    as goroutines do.  Logging and metrics are left out.

    A handler below that panics (the reverse proxy aborts a response it can no
    longer copy) unwinds through the deferred settle: [cs_aborted].  Nothing
    recovers the panic of a background refresh, which takes the process down:
    [crashed]. *)
From S2P Require Import Prelude GoStrings Http Compression CachePolicy CacheStoreMemory.

(** ** The store the middleware talks to *)

Class CacheStore (S : Type) := {
  cs_get : Z → string → S → S * option CacheEntry;
  cs_set : Z → string → CacheEntry → S → S }.

(** What the middleware relies on: a store answers with something it holds,
    and holds only what was set under that key. *)
Class CacheStoreLaws (S : Type) `{!CacheStore S} := {
  cs_holds : S → string → CacheEntry → Prop;
  cs_get_holds : ∀ now k s e, (cs_get now k s).2 = Some e → cs_holds s k e;
  cs_get_keeps : ∀ now k s k' e, cs_holds (cs_get now k s).1 k' e → cs_holds s k' e;
  cs_set_adds : ∀ now k e s k' e',
    cs_holds (cs_set now k e s) k' e' → (k' = k ∧ e' = e) ∨ cs_holds s k' e' }.

(** ** The response on its way past *)

Definition cacheStatusHit : string := "HIT".
Definition cacheStatusMiss : string := "MISS".
Definition cacheStatusStale : string := "STALE".

Definition hopByHopHeaders : list string :=
  ["Connection"; "Keep-Alive"; "Proxy-Authenticate"; "Proxy-Authorization"; "Proxy-Connection";
   "TE"; "Trailer"; "Transfer-Encoding"; "Upgrade"].

Definition storableHeader (h : gmap string (list string)) : gmap string (list string) :=
  foldl hdr_del h (hopByHopHeaders ++ ["Age"; "Content-Length"; "X-Cache"]).

Definition parseAgeHeader (value : string) : Z :=
  if String.eqb value "" then 0
  else match ParseInt value with
       | Some seconds => if seconds <? 0 then 0 else wrap64 (seconds * second)
       | None => 0
       end.

Record cachingResponseWriter := mkCRW {
  cwInner : ResponseWriter;
  cwOptions : CacheOptions;
  cwStatus : string;                  (** the [X-Cache] label *)
  bodyExpected : bool;
  statusCode : Z;
  wroteHeader : bool;
  cwReleased : bool;
  cwHijacked : bool;
  capturing : bool;
  refusal : option cacheRefusal;
  refusalDetail : string;
  cwBody : string;
  cwHeader : gmap string (list string);
  initialAge : Z;
  policy : cachePolicy }.

Definition newRecorder (inner : ResponseWriter) (co : CacheOptions) (r : Request)
  : cachingResponseWriter :=
  mkCRW inner co cacheStatusMiss (negb (String.eqb (Method r) MethodHead)) 0 false false false
    false None "" "" ∅ 0 (mkPolicy 0 0 []).

Definition with_inner (w : ResponseWriter) (c : cachingResponseWriter) : cachingResponseWriter :=
  mkCRW w (cwOptions c) (cwStatus c) (bodyExpected c) (statusCode c) (wroteHeader c)
    (cwReleased c) (cwHijacked c) (capturing c) (refusal c) (refusalDetail c) (cwBody c)
    (cwHeader c) (initialAge c) (policy c).

(** [refuse], and the [release] it ends with: [cwReleased] turning true is the
    moment [onUnstorable] fires. *)
Definition refuse (reason : cacheRefusal) (c : cachingResponseWriter) : cachingResponseWriter :=
  mkCRW (cwInner c) (cwOptions c) (cwStatus c) (bodyExpected c) (statusCode c) (wroteHeader c)
    true (cwHijacked c) false
    (match refusal c with None => Some reason | r => r end) (refusalDetail c) "" ∅
    (initialAge c) (policy c).

Definition decide_storable (c : cachingResponseWriter) : cachingResponseWriter :=
  let h := rwHeader (cwInner c) in
  match responseIsStorable (cwOptions c) (statusCode c) h with
  | Err (reason, detail) =>
      refuse reason
        (mkCRW (cwInner c) (cwOptions c) (cwStatus c) (bodyExpected c) (statusCode c)
           (wroteHeader c) (cwReleased c) (cwHijacked c) (capturing c) (refusal c) detail
           (cwBody c) (cwHeader c) (initialAge c) (policy c))
  | Ok p =>
      if negb (bodyExpected c) then
        refuse cacheRefusalHeadRequest
          (mkCRW (cwInner c) (cwOptions c) (cwStatus c) (bodyExpected c) (statusCode c)
             (wroteHeader c) (cwReleased c) (cwHijacked c) (capturing c) (refusal c) ""
             (cwBody c) (cwHeader c) (initialAge c) (policy c))
      else
        mkCRW (cwInner c) (cwOptions c) (cwStatus c) (bodyExpected c) (statusCode c)
          (wroteHeader c) (cwReleased c) (cwHijacked c) true (refusal c) (refusalDetail c)
          (cwBody c) (storableHeader h) (parseAgeHeader (hdr_get h "Age")) p
  end.

(** The state [WriteHeader] decides on: the status noted, the label set. *)
Definition crwOpened (code : Z) (c : cachingResponseWriter) : cachingResponseWriter :=
  mkCRW (rw_set_header (hdr_set (rwHeader (cwInner c)) "X-Cache" (cwStatus c)) (cwInner c))
    (cwOptions c) (cwStatus c) (bodyExpected c) code true (cwReleased c) (cwHijacked c)
    (capturing c) (refusal c) (refusalDetail c) (cwBody c) (cwHeader c) (initialAge c) (policy c).

Definition crwWriteHeader (code : Z) (c : cachingResponseWriter) : cachingResponseWriter :=
  if wroteHeader c then c
  else let c := decide_storable (crwOpened code c) in
       with_inner (WriteHeader code (cwInner c)) c.

Definition crwWrite (data : string) (c : cachingResponseWriter) : cachingResponseWriter :=
  let c := if wroteHeader c then c else crwWriteHeader 200 c in
  let c :=
    if capturing c then
      if maxBodySize (cwOptions c) <? str_len (cwBody c) + str_len data
      then refuse cacheRefusalTooLarge c
      else mkCRW (cwInner c) (cwOptions c) (cwStatus c) (bodyExpected c) (statusCode c)
             (wroteHeader c) (cwReleased c) (cwHijacked c) (capturing c) (refusal c)
             (refusalDetail c) (cwBody c +:+ data) (cwHeader c) (initialAge c) (policy c)
    else c in
  with_inner (WriteBody data (cwInner c)) c.

Definition crwFlush (c : cachingResponseWriter) : cachingResponseWriter :=
  if cwHijacked c then c else with_inner (FlushRW (cwInner c)) c.

(** [Hijack] on a connection that supports it. *)
Definition crwHijack (c : cachingResponseWriter) : cachingResponseWriter :=
  refuse cacheRefusalHijacked
    (mkCRW (cwInner c) (cwOptions c) (cwStatus c) (bodyExpected c) (statusCode c)
       (wroteHeader c) (cwReleased c) true (capturing c) (refusal c) (refusalDetail c)
       (cwBody c) (cwHeader c) (initialAge c) (policy c)).

Definition crwFinish (c : cachingResponseWriter) : cachingResponseWriter :=
  if cwHijacked c then c else if wroteHeader c then c else crwWriteHeader 200 c.

(** What the handler below does to the response: it edits the header map,
    writes, flushes, or takes the connection over. *)
Inductive upstream_event :=
| UHeader (h : gmap string (list string))
| UWriteHeader (code : Z)
| UWrite (data : string)
| UFlush
| UHijack.

Definition crw_event (c : cachingResponseWriter) (ev : upstream_event) : cachingResponseWriter :=
  match ev with
  | UHeader h => with_inner (rw_set_header h (cwInner c)) c
  | UWriteHeader code => crwWriteHeader code c
  | UWrite data => crwWrite data c
  | UFlush => crwFlush c
  | UHijack => crwHijack c
  end.

Section middleware.
Context `{F64 : Float64} (sha256_hex : string → string).

Definition crwEntry (service primary : string) (r : Request) (now : Z) (c : cachingResponseWriter)
  : option CacheEntry :=
  if negb (capturing c) then None
  else Some (mkCacheEntry service (URLPath r) (varyOn (policy c))
               (match varyOn (policy c) with
                | [] => ""
                | vary => variantKeyFor sha256_hex primary vary r
                end) [] (statusCode c) (cwHeader c) (cwBody c) now (initialAge c)
               (freshFor (policy c)) (polStale (policy c))).

(** ** Lookups *)

Record cacheLookup := mkLookup {
  primary : string;
  variant : string;
  lindex : option CacheEntry }.

Definition newCacheLookup (p : string) : cacheLookup := mkLookup p p None.

Definition following (index : CacheEntry) (r : Request) (l : cacheLookup) : cacheLookup :=
  mkLookup (primary l) (variantKeyFor sha256_hex (primary l) (VaryOn index) r) (Some index).

(** ** Collapsing concurrent work

    A call is a number; it is settled once, with the entry to answer from or
    with nothing.  [inflightCall.done] is closed exactly when it is settled. *)
Record inflightGroup := mkInflight {
  calls : gmap string nat;
  settled : gmap nat (option CacheEntry);
  nextCall : nat }.

Definition newInflightGroup : inflightGroup := mkInflight ∅ ∅ 0.

Definition join (key : string) (g : inflightGroup) : inflightGroup * nat * bool :=
  match calls g !! key with
  | Some c => (g, c, false)
  | None => let c := nextCall g in
            (mkInflight (<[key := c]> (calls g)) (settled g) (S c), c, true)
  end.

Definition settle (key : string) (c : nat) (e : option CacheEntry) (g : inflightGroup)
  : inflightGroup :=
  match settled g !! c with
  | Some _ => g
  | None => mkInflight
              (if bool_decide (calls g !! key = Some c) then delete key (calls g) else calls g)
              (<[c := e]> (settled g)) (nextCall g)
  end.

(** ** Answering from an entry *)

(** [replay]; [secs] is the age in whole seconds as the header prints it. *)
Definition replay (secs : Z → Z) (w : ResponseWriter) (r : Request) (e : CacheEntry)
    (status : string) (now : Z) : ResponseWriter :=
  let h := ceHeader e ∪ rwHeader w in
  let h := hdr_set h "X-Cache" status in
  let h := hdr_set h "Age" (Itoa (secs (age now e))) in
  let h := if statusAllowsBody (StatusCode e)
           then hdr_set h "Content-Length" (Itoa (str_len (Body e))) else h in
  let w := WriteHeader (StatusCode e) (rw_set_header h w) in
  if negb (String.eqb (Method r) MethodHead) && negb (String.eqb (Body e) "")
  then WriteBody (Body e) w else w.

(** What [serve] decides on an entry it was handed: refuse it, answer from it,
    or answer from it and refresh it. *)
Inductive Serving := Refuse | Hit | Stale.

Definition serveDecision (now : Z) (r : Request) (e : CacheEntry) (l : cacheLookup) : Serving :=
  if negb (entryAnswers sha256_hex e (primary l) r) then Refuse
  else if needsRevalidation now e then Stale
  else if servable now e then Hit else Refuse.

(** [acquireLease] asks another proxy only for a request that may be answered
    with its work; [leasing]: the store can arbitrate and leasing is on. *)
Definition asksLease (leasing allowsStored : bool) : bool := leasing && allowsStored.

(** What ends the wait of [awaitLease] with an answer. *)
Definition awaitServes (now : Z) (r : Request) (e : CacheEntry) (l : cacheLookup) : bool :=
  fresh now e && entryAnswers sha256_hex e (primary l) r.

(** The request of a background refresh. *)
Definition preconditionHeaders : list string :=
  ["If-None-Match"; "If-Modified-Since"; "If-Match"; "If-Unmodified-Since"; "If-Range"].

Definition stripPreconditions (h : gmap string (list string)) : gmap string (list string) :=
  foldl hdr_del h preconditionHeaders.

Definition addStoredValidators (h : gmap string (list string)) (stored : CacheEntry)
  : gmap string (list string) * bool :=
  let etag := hdr_get (ceHeader stored) "ETag" in
  let modified := hdr_get (ceHeader stored) "Last-Modified" in
  if negb (String.eqb etag "") then (hdr_set h "If-None-Match" etag, true)
  else if negb (String.eqb modified "") then (hdr_set h "If-Modified-Since" modified, true)
  else (h, false).

Definition background (r : Request) (stored : CacheEntry) : Request * bool :=
  let '(h, validated) := addStoredValidators (stripPreconditions (ReqHeader r)) stored in
  (mkRequest (Method r) (Host r) (URLPath r) (RawQuery r) (URLRawPath r) (URLForceQuery r) (IsTLS r) (RemoteAddr r) h (Cookies r)
     0 (MatchedPrefix r) (InternalRequest r) (IgnoreSessionPin r), validated).

(** ** The system *)

(** Why a request is being forwarded: for the call it leads, on its own, or to
    refresh an entry (with whether the refresh carries a validator). *)
Inductive Flight :=
| FLeader (call : nat)
| FAlone
| FRefresh (call : nat) (stored : CacheEntry) (validated : bool).

(** A goroutine, by what it does next.  [asked] is the client's request, from
    which the keys were derived; the request forwarded differs for a refresh. *)
Inductive Task :=
| TLookup (asked : Request)                                    (** the first read *)
| TVariant (asked : Request) (l : cacheLookup)                 (** the read an index led to *)
| TServe (asked : Request) (l : cacheLookup) (e : CacheEntry)
| TRefresh (asked : Request) (l : cacheLookup) (e : CacheEntry)
| TFetch (asked : Request) (l : cacheLookup) (allows : bool)
| TLead (asked : Request) (l : cacheLookup) (allows : bool) (call : nat)
| TAwait (asked : Request) (l : cacheLookup) (call : nat)
| TFollow (asked : Request) (l : cacheLookup) (call : nat)
| TRefreshLead (asked : Request) (l : cacheLookup) (e : CacheEntry) (call : nat)
| TForward (asked : Request) (l : cacheLookup) (fl : Flight) (sent : Request)
    (rec : cachingResponseWriter)
| TStore (l : cacheLookup) (fl : Flight) (writes : list (string * CacheEntry))
    (res : option CacheEntry).

Definition flight_call (fl : Flight) : option nat :=
  match fl with
  | FLeader c | FRefresh c _ _ => Some c
  | FAlone => None
  end.

(** The end of [forwardRecording] and [revalidate]: what is written to the
    store, in order, and what the call is settled with. *)
Definition forwardResult (svc : string) (co : CacheOptions) (now : Z) (sent : Request)
    (l : cacheLookup) (fl : Flight) (rec : cachingResponseWriter)
  : list (string * CacheEntry) * option CacheEntry :=
  let rec := crwFinish rec in
  match crwEntry svc (primary l) sent now rec, fl with
  | Some e, _ =>
      (match admitVariant sha256_hex co (lindex l) e (primary l) with
       | Err _ => []
       | Ok ix => (storageKeyFor e (primary l), e) ::
                  match ix with Some i => [(primary l, i)] | None => [] end
       end, Some e)
  | None, FRefresh _ stored true =>
      if statusCode rec =? 304
      then let e := refreshed co now stored in ([(storageKeyFor e (primary l), e)], Some e)
      else ([], None)
  | None, _ => ([], None)
  end.

Context {S : Type} `{!CacheStore S}.
Context (svc : string) (co : CacheOptions) (variantFor : Request → string) (leasing : bool).

Record CacheSystem := mkCache {
  store : S;
  inflight : inflightGroup;
  tasks : list Task;
  replayed : list (Request * CacheEntry);   (** what was answered from entries *)
  crashed : bool }.

Definition primaryKeyOf (r : Request) : string := cacheKey sha256_hex svc (variantFor r) r co.

(** What a read leads to: following an index, an entry to try, or a fetch. *)
Definition afterFirst (r : Request) (found : option CacheEntry) : Task :=
  let l := newCacheLookup (primaryKeyOf r) in
  match found with
  | Some e => if entryIsIndex e then TVariant r (following e r l) else TServe r l e
  | None => TFetch r l true
  end.

Definition afterSecond (r : Request) (l : cacheLookup) (found : option CacheEntry) : Task :=
  match found with
  | Some e => TServe r l e
  | None => TFetch r l true
  end.

(** [fetch] and [revalidate] join the flight of the resource. *)
Definition afterJoin (r : Request) (l : cacheLookup) (allows : bool) (call : nat) (leader : bool)
  : Task :=
  if leader then TLead r l allows call else TFollow r l call.

Definition forwardTask (asked : Request) (l : cacheLookup) (fl : Flight) (sent : Request) : Task :=
  TForward asked l fl sent (newRecorder newRW co sent).

(** An event of the response settles the leader's call when it is the one that
    shows nothing can be stored. *)
Definition settleEarly (l : cacheLookup) (fl : Flight) (old new : cachingResponseWriter)
    (g : inflightGroup) : inflightGroup :=
  match fl with
  | FLeader c => if negb (cwReleased old) && cwReleased new then settle (primary l) c None g else g
  | _ => g
  end.

Definition settleFlight (l : cacheLookup) (fl : Flight) (res : option CacheEntry)
    (g : inflightGroup) : inflightGroup :=
  match flight_call fl with
  | Some c => settle (primary l) c res g
  | None => g
  end.

Inductive cache_step (s : CacheSystem) : CacheSystem → Prop :=
| cs_request r :
    Enabled co = true → requestMayUseCache r = true →
    cache_step s (mkCache (store s) (inflight s)
      ((if requestAllowsStoredResponse r then TLookup r
        else TFetch r (newCacheLookup (primaryKeyOf r)) false) :: tasks s)
      (replayed s) (crashed s))
| cs_first r l1 l2 now s' found :
    tasks s = l1 ++ TLookup r :: l2 → cs_get now (primaryKeyOf r) (store s) = (s', found) →
    cache_step s (mkCache s' (inflight s) (l1 ++ afterFirst r found :: l2) (replayed s) (crashed s))
| cs_second r l l1 l2 now s' found :
    tasks s = l1 ++ TVariant r l :: l2 → cs_get now (variant l) (store s) = (s', found) →
    cache_step s (mkCache s' (inflight s) (l1 ++ afterSecond r l found :: l2) (replayed s)
      (crashed s))
| cs_serve r l e l1 l2 now :
    tasks s = l1 ++ TServe r l e :: l2 →
    cache_step s
      match serveDecision now r e l with
      | Refuse => mkCache (store s) (inflight s) (l1 ++ TFetch r l true :: l2) (replayed s) (crashed s)
      | Hit => mkCache (store s) (inflight s) (l1 ++ l2) ((r, e) :: replayed s) (crashed s)
      | Stale => mkCache (store s) (inflight s) (l1 ++ TRefresh r l e :: l2)
                   ((r, e) :: replayed s) (crashed s)
      end
| cs_refresh r l e l1 l2 g c leader :
    tasks s = l1 ++ TRefresh r l e :: l2 → join (primary l) (inflight s) = (g, c, leader) →
    cache_step s (mkCache (store s) g
      (l1 ++ (if leader then [TRefreshLead r l e c] else []) ++ l2) (replayed s) (crashed s))
| cs_refresh_go r l e c l1 l2 :
    tasks s = l1 ++ TRefreshLead r l e c :: l2 →
    cache_step s (mkCache (store s) (inflight s)
      (l1 ++ forwardTask r l (FRefresh c e (background r e).2) (background r e).1 :: l2)
      (replayed s) (crashed s))
| cs_refresh_taken r l e c l1 l2 :
    asksLease leasing true = true → tasks s = l1 ++ TRefreshLead r l e c :: l2 →
    cache_step s (mkCache (store s) (inflight s)
      (l1 ++ TStore l (FRefresh c e false) [] None :: l2) (replayed s) (crashed s))
| cs_join r l a l1 l2 g c leader :
    tasks s = l1 ++ TFetch r l a :: l2 → join (primary l) (inflight s) = (g, c, leader) →
    cache_step s (mkCache (store s) g (l1 ++ afterJoin r l a c leader :: l2) (replayed s) (crashed s))
| cs_lead r l a c l1 l2 :
    tasks s = l1 ++ TLead r l a c :: l2 →
    cache_step s (mkCache (store s) (inflight s) (l1 ++ forwardTask r l (FLeader c) r :: l2)
      (replayed s) (crashed s))
| cs_lease_taken r l a c l1 l2 :
    asksLease leasing a = true → tasks s = l1 ++ TLead r l a c :: l2 →
    cache_step s (mkCache (store s) (inflight s) (l1 ++ TAwait r l c :: l2) (replayed s) (crashed s))
| cs_probe r l c l1 l2 now s' found :
    tasks s = l1 ++ TAwait r l c :: l2 → cs_get now (primary l) (store s) = (s', found) →
    cache_step s
      match found with
      | Some e =>
          if awaitServes now r e l
          then mkCache s' (inflight s) (l1 ++ TStore l (FLeader c) [] (Some e) :: l2)
                 ((r, e) :: replayed s) (crashed s)
          else mkCache s' (inflight s) (tasks s) (replayed s) (crashed s)
      | None => mkCache s' (inflight s) (tasks s) (replayed s) (crashed s)
      end
| cs_await_over r l c l1 l2 :
    tasks s = l1 ++ TAwait r l c :: l2 →
    cache_step s (mkCache (store s) (inflight s) (l1 ++ forwardTask r l (FLeader c) r :: l2)
      (replayed s) (crashed s))
| cs_follow r l c oe l1 l2 :
    tasks s = l1 ++ TFollow r l c :: l2 → settled (inflight s) !! c = Some oe →
    cache_step s
      match oe with
      | Some e =>
          if entryAnswers sha256_hex e (primary l) r
          then mkCache (store s) (inflight s) (l1 ++ l2) ((r, e) :: replayed s) (crashed s)
          else mkCache (store s) (inflight s) (l1 ++ forwardTask r l FAlone r :: l2)
                 (replayed s) (crashed s)
      | None => mkCache (store s) (inflight s) (l1 ++ forwardTask r l FAlone r :: l2)
                  (replayed s) (crashed s)
      end
| cs_hang_up r l c l1 l2 :
    tasks s = l1 ++ TFollow r l c :: l2 →
    cache_step s (mkCache (store s) (inflight s) (l1 ++ l2) (replayed s) (crashed s))
| cs_event r l fl q rec ev l1 l2 :
    tasks s = l1 ++ TForward r l fl q rec :: l2 →
    cache_step s (mkCache (store s) (settleEarly l fl rec (crw_event rec ev) (inflight s))
      (l1 ++ TForward r l fl q (crw_event rec ev) :: l2) (replayed s) (crashed s))
| cs_returned r l fl q rec now l1 l2 :
    tasks s = l1 ++ TForward r l fl q rec :: l2 →
    cache_step s (mkCache (store s) (settleEarly l fl rec (crwFinish rec) (inflight s))
      (l1 ++ TStore l fl (forwardResult svc co now q l fl rec).1
               (forwardResult svc co now q l fl rec).2 :: l2)
      (replayed s) (crashed s))
| cs_aborted r l fl q rec l1 l2 :
    tasks s = l1 ++ TForward r l fl q rec :: l2 →
    cache_step s (mkCache (store s) (inflight s) (l1 ++ TStore l fl [] None :: l2) (replayed s)
      (match fl with FRefresh _ _ _ => true | _ => crashed s end))
| cs_write l fl k e w res now l1 l2 :
    tasks s = l1 ++ TStore l fl ((k, e) :: w) res :: l2 →
    cache_step s (mkCache (cs_set now k e (store s)) (inflight s) (l1 ++ TStore l fl w res :: l2)
      (replayed s) (crashed s))
| cs_settle l fl res l1 l2 :
    tasks s = l1 ++ TStore l fl [] res :: l2 →
    cache_step s (mkCache (store s) (settleFlight l fl res (inflight s)) (l1 ++ l2) (replayed s)
      (crashed s)).

Definition cache_init (s0 : S) : CacheSystem := mkCache s0 newInflightGroup [] [] false.

Definition cache_reachable (s0 : S) (s : CacheSystem) : Prop := rtc cache_step (cache_init s0) s.

End middleware.

(** ** Lemmas: the response on its way past *)

(** No flush commits the response before the handler chose a status. *)
Fixpoint early_flush (evs : list upstream_event) : bool :=
  match evs with
  | UFlush :: _ => true
  | UHeader _ :: evs => early_flush evs
  | _ => false
  end.

(** What a response being captured promises. *)
Definition captured (c : cachingResponseWriter) : Prop :=
  (wroteHeader c = false → capturing c = false ∧ cwBody c = "") ∧
  (capturing c = true →
     bodyExpected c = true ∧ str_len (cwBody c) ≤ maxBodySize (cwOptions c) ∧
     ∃ h, responseIsStorable (cwOptions c) (statusCode c) h = Ok (policy c) ∧
       cwHeader c = storableHeader h ∧ initialAge c = parseAgeHeader (hdr_get h "Age")).

(** And of the copy against what the client was sent. *)
Definition mirrored (c : cachingResponseWriter) : Prop :=
  (wroteHeader c = false → rwClosed (cwInner c) = false ∧ rwSent (cwInner c) = [] ∧
     rwBody (cwInner c) = "" ∧ cwBody c = "") ∧
  (capturing c = true → rwClosed (cwInner c) = true ∧ rwBody (cwInner c) = cwBody c ∧
     ∃ h, rwSent (cwInner c) = [(statusCode c, h, rwCookies (cwInner c))] ∧
       responseIsStorable (cwOptions c) (statusCode c) h = Ok (policy c) ∧
       cwHeader c = storableHeader h).

Lemma maxBodySize_nonneg o : 0 ≤ maxBodySize o.
Proof.
  unfold maxBodySize. destruct (Z.leb_spec (MaxBodySize o) 0); [by vm_compute|lia].
Qed.

Lemma storable_not_informational o status h p :
  responseIsStorable o status h = Ok p → informational status = false.
Proof.
  unfold responseIsStorable. destruct (negb (Enabled o)); [done|].
  destruct (existsb (Z.eqb status) cacheableStatuses) eqn:E; [|done]. intros _.
  apply existsb_exists in E as (x & Hx & ->%Z.eqb_eq). unfold informational.
  repeat (destruct Hx as [<-|Hx]; [done|]). done.
Qed.

Lemma decide_storable_spec c :
  let c' := decide_storable c in
  cwInner c' = cwInner c ∧ cwOptions c' = cwOptions c ∧ wroteHeader c' = wroteHeader c ∧
  bodyExpected c' = bodyExpected c ∧ statusCode c' = statusCode c ∧
  (capturing c' = true → bodyExpected c = true ∧ cwBody c' = cwBody c ∧
     responseIsStorable (cwOptions c) (statusCode c) (rwHeader (cwInner c)) = Ok (policy c') ∧
     cwHeader c' = storableHeader (rwHeader (cwInner c)) ∧
     initialAge c' = parseAgeHeader (hdr_get (rwHeader (cwInner c)) "Age")).
Proof.
  unfold decide_storable.
  destruct (responseIsStorable _ _ _) as [pol|[re d]]; [|cbn; split_and!; done].
  destruct (bodyExpected c) eqn:Hb; cbn; split_and!; done.
Qed.

Lemma crwWriteHeader_open code c :
  wroteHeader c = false →
  let c' := crwWriteHeader code c in
  let h := hdr_set (rwHeader (cwInner c)) "X-Cache" (cwStatus c) in
  cwInner c' = WriteHeader code (rw_set_header h (cwInner c)) ∧
  cwOptions c' = cwOptions c ∧ wroteHeader c' = true ∧ bodyExpected c' = bodyExpected c ∧
  statusCode c' = code ∧
  (capturing c' = true → bodyExpected c = true ∧ cwBody c' = cwBody c ∧
     responseIsStorable (cwOptions c) code h = Ok (policy c') ∧
     cwHeader c' = storableHeader h ∧ initialAge c' = parseAgeHeader (hdr_get h "Age")).
Proof.
  intros Hw. unfold crwWriteHeader. rewrite Hw. cbn zeta.
  pose proof (decide_storable_spec (crwOpened code c)) as (E1 & E2 & E3 & E4 & E5 & E6).
  set (d := decide_storable (crwOpened code c)) in *.
  cbn [with_inner cwInner cwOptions wroteHeader bodyExpected statusCode capturing cwBody policy
       cwHeader initialAge].
  rewrite E1, E2, E3, E4, E5. by split_and!.
Qed.

Lemma crwWriteHeader_captured code c : captured c → captured (crwWriteHeader code c).
Proof.
  intros [H1 H2]. destruct (wroteHeader c) eqn:Hw.
  { unfold crwWriteHeader. rewrite Hw. by split; rewrite ?Hw. }
  destruct (H1 eq_refl) as [Hc Hb].
  destruct (crwWriteHeader_open code c Hw) as (_ & E2 & E3 & E4 & E5 & E6).
  split; [by rewrite E3|]. intros E. destruct (E6 E) as (B & E7 & E8 & E9 & E10).
  rewrite E4, E7, E2, E5, Hb. split; [done|]. split; [apply maxBodySize_nonneg|eauto].
Qed.

Lemma crw_event_captured c ev : captured c → captured (crw_event c ev).
Proof.
  intros Hc. destruct ev as [h|code|data| |]; cbn [crw_event].
  - destruct Hc as [H1 H2]. by split.
  - by apply crwWriteHeader_captured.
  - unfold crwWrite. set (c1 := if wroteHeader c then c else crwWriteHeader 200 c).
    assert (captured c1) as [H1 H2]
      by (unfold c1; destruct (wroteHeader c); [done|by apply crwWriteHeader_captured]).
    destruct (capturing c1) eqn:Hcap;
      [|split; cbn; [intros E; by destruct (H1 E)|congruence]].
    assert (Hw : wroteHeader c1 = true).
    { destruct (wroteHeader c1) eqn:E; [done|]. destruct (H1 eq_refl). congruence. }
    destruct (Z.ltb_spec (maxBodySize (cwOptions c1)) (str_len (cwBody c1) + str_len data));
      [split; cbn; [by rewrite Hw|done]|].
    split; cbn; [by rewrite Hw|]. intros _. destruct (H2 eq_refl) as (B & _ & h & Hh).
    split; [done|]. split; [|by exists h]. unfold str_len in *. rewrite str_length_app. lia.
  - unfold crwFlush. destruct (cwHijacked c); [done|]. destruct Hc as [H1 H2]. by split.
  - by split.
Qed.

Lemma crwFinish_captured c : captured c → captured (crwFinish c).
Proof.
  intros Hc. unfold crwFinish. destruct (cwHijacked c); [done|].
  destruct (wroteHeader c); [done|]. by apply crwWriteHeader_captured.
Qed.

Lemma captured_new w o r : captured (newRecorder w o r).
Proof. by split. Qed.

(** The same for what the client was sent. *)
Lemma crwWriteHeader_mirrored code c : mirrored c → mirrored (crwWriteHeader code c).
Proof.
  intros [H1 H2]. destruct (wroteHeader c) eqn:Hw.
  { unfold crwWriteHeader. rewrite Hw. by split; rewrite ?Hw. }
  destruct (H1 eq_refl) as (Hcl & Hs & Hb & Hcb).
  destruct (crwWriteHeader_open code c Hw) as (E1 & E2 & E3 & E4 & E5 & E6).
  split; [by rewrite E3|]. intros E. destruct (E6 E) as (_ & E7 & E8 & E9 & _).
  rewrite E1, E2, E5, E7, Hcb. unfold WriteHeader. cbn. rewrite Hcl, Hs. cbn.
  rewrite (storable_not_informational _ _ _ _ E8), Hb. split; [done|]. split; [done|]. eauto.
Qed.

Lemma crw_event_mirrored c ev :
  (ev = UFlush → wroteHeader c = true ∨ cwHijacked c = true) → mirrored c → mirrored (crw_event c ev).
Proof.
  intros Hf Hc. destruct ev as [h|code|data| |]; cbn [crw_event].
  - destruct Hc as [H1 H2]. by split.
  - by apply crwWriteHeader_mirrored.
  - unfold crwWrite. set (c1 := if wroteHeader c then c else crwWriteHeader 200 c).
    assert (Hm : mirrored c1 ∧ wroteHeader c1 = true).
    { unfold c1. destruct (wroteHeader c) eqn:Hw; [done|].
      split; [by apply crwWriteHeader_mirrored|]. by apply crwWriteHeader_open. }
    destruct Hm as [[H1 H2] Hw]. destruct (capturing c1) eqn:Hcap.
    + destruct (H2 eq_refl) as (Hcl & Hb & h & Hh).
      destruct (_ <? _); split; cbn; rewrite ?Hw; try done.
      intros _. unfold WriteHeader. rewrite Hcl. cbn. rewrite Hb.
      split; [done|]. split; [done|]. by exists h.
    + split; cbn; [by rewrite Hw|congruence].
  - unfold crwFlush. destruct (cwHijacked c) eqn:Hj; [done|].
    destruct (Hf eq_refl) as [Hf'|Hf']; [clear Hf; rename Hf' into Hf|congruence].
    destruct Hc as [H1 H2]. split; cbn; [by rewrite Hf|]. intros E.
    destruct (H2 E) as (Hcl & Hb & Hh). unfold FlushRW, WriteHeader. by rewrite Hcl.
  - destruct Hc as [H1 H2]. split; cbn; [|done]. intros E. by destruct (H1 E) as (? & ? & ? & ?).
Qed.

Lemma crwWriteHeader_wrote code c : wroteHeader (crwWriteHeader code c) = true.
Proof.
  destruct (wroteHeader c) eqn:Hw; [unfold crwWriteHeader; by rewrite Hw|].
  by apply (crwWriteHeader_open code c).
Qed.

Lemma crwWrite_wrote data c : wroteHeader (crwWrite data c) = true.
Proof.
  unfold crwWrite. set (c1 := if wroteHeader c then c else crwWriteHeader 200 c).
  assert (wroteHeader c1 = true)
    by (unfold c1; destruct (wroteHeader c) eqn:?; [done|apply crwWriteHeader_wrote]).
  by repeat case_match.
Qed.

(** A flush does nothing the copy would miss from here on. *)
Definition committed (c : cachingResponseWriter) : Prop :=
  wroteHeader c = true ∨ cwHijacked c = true.

Lemma committed_stays c ev : committed c → committed (crw_event c ev).
Proof.
  intros H. destruct ev as [h|code|data| |]; cbn [crw_event].
  - done.
  - left. apply crwWriteHeader_wrote.
  - left. apply crwWrite_wrote.
  - unfold crwFlush. by destruct (cwHijacked c).
  - by right.
Qed.

Lemma mirrored_run evs c :
  (committed c ∨ early_flush evs = false) → mirrored c → mirrored (foldl crw_event c evs).
Proof.
  revert c. induction evs as [|ev evs IH]; intros c Hf Hc; cbn [foldl]; [done|].
  apply IH; [|apply crw_event_mirrored; [|done]].
  - destruct Hf as [Hf|Hf]; [left; by apply committed_stays|].
    destruct ev as [h|code|data| |]; cbn in Hf; [by right| | |done|].
    + left. left. apply crwWriteHeader_wrote.
    + left. left. apply crwWrite_wrote.
    + left. by right.
  - intros ->. by destruct Hf as [Hf|Hf].
Qed.

Lemma crwFinish_mirrored c : mirrored c → mirrored (crwFinish c).
Proof.
  intros Hc. unfold crwFinish. destruct (cwHijacked c); [done|].
  destruct (wroteHeader c); [done|]. by apply crwWriteHeader_mirrored.
Qed.

Lemma captured_run evs c : captured c → captured (foldl crw_event c evs).
Proof.
  revert c. induction evs as [|ev evs IH]; intros c Hc; cbn; [done|].
  by apply IH, crw_event_captured.
Qed.

Lemma crw_event_settings c ev :
  cwOptions (crw_event c ev) = cwOptions c ∧ bodyExpected (crw_event c ev) = bodyExpected c.
Proof.
  assert (H : ∀ code d, cwOptions (crwWriteHeader code d) = cwOptions d ∧
                        bodyExpected (crwWriteHeader code d) = bodyExpected d).
  { intros code d. destruct (wroteHeader d) eqn:Hw; [unfold crwWriteHeader; by rewrite Hw|].
    by destruct (crwWriteHeader_open code d Hw) as (_ & ? & _ & ? & _). }
  destruct ev as [h|code|data| |]; cbn [crw_event]; [done|apply H| | |done].
  - unfold crwWrite. destruct (wroteHeader c).
    + by repeat case_match.
    + destruct (H 200 c) as [H1 H2]. rewrite <-H1, <-H2. by repeat case_match.
  - unfold crwFlush. by destruct (cwHijacked c).
Qed.

(** ** Lemmas: flights

    [ck] names the resource a call was made for.  Every call is open or
    settled; an open one is the call of its resource and is led by exactly one
    task, so nobody waits on a call no one will settle. *)

(** The call a task has to settle, and the call a task waits on. *)
Definition leads (t : Task) : option nat :=
  match t with
  | TLead _ _ _ c | TAwait _ _ c | TRefreshLead _ _ _ c => Some c
  | TForward _ _ fl _ _ | TStore _ fl _ _ => flight_call fl
  | _ => None
  end.

Definition task_key (t : Task) : string :=
  match t with
  | TLookup _ => ""
  | TVariant _ l | TServe _ l _ | TRefresh _ l _ | TFetch _ l _ | TLead _ l _ _ | TAwait _ l _
  | TFollow _ l _ | TRefreshLead _ l _ _ | TForward _ l _ _ _ | TStore l _ _ _ => primary l
  end.

Definition task_call (t : Task) : option nat :=
  match t with TFollow _ _ c => Some c | _ => leads t end.

Definition leading (ts : list Task) : list nat := omap leads ts.

Record flight_ok (ck : nat → string) (g : inflightGroup) (ts : list Task) : Prop := {
  fl_tasks : ∀ t c, t ∈ ts → task_call t = Some c → ck c = task_key t ∧ (c < nextCall g)%nat;
  fl_calls : ∀ k c, calls g !! k = Some c →
    ck c = k ∧ (c < nextCall g)%nat ∧ settled g !! c = None;
  fl_open : ∀ c, (c < nextCall g)%nat → settled g !! c = None →
    calls g !! ck c = Some c ∧ c ∈ leading ts;
  fl_settled : ∀ c oe, settled g !! c = Some oe → (c < nextCall g)%nat;
  fl_nodup : NoDup (leading ts) }.

Lemma leads_call t c : leads t = Some c → task_call t = Some c.
Proof. by destruct t. Qed.

Lemma leading_app l1 l2 : leading (l1 ++ l2) = leading l1 ++ leading l2.
Proof. apply omap_app. Qed.

(** A task carries on as tasks with the same calls. *)
Lemma flight_replace ck g l1 t ts l2 :
  flight_ok ck g (l1 ++ t :: l2) → leading ts = leading [t] →
  (∀ t' c, t' ∈ ts → task_call t' = Some c → task_call t = Some c ∧ task_key t' = task_key t) →
  flight_ok ck g (l1 ++ ts ++ l2).
Proof.
  intros [H1 H2 H3 H4 H5] Hl Hc. rewrite (app_assoc l1 [t] l2 : l1 ++ t :: l2 = _) in *.
  assert (Hlead : leading (l1 ++ ts ++ l2) = leading ((l1 ++ [t]) ++ l2))
    by (by rewrite app_assoc, !leading_app, Hl).
  split; [|done| |done|by rewrite Hlead].
  - intros t' c [Ht'|[Ht'|Ht']%elem_of_app]%elem_of_app Hcall.
    + apply H1; [set_solver|done].
    + destruct (Hc t' c Ht' Hcall) as [Hct ->]. apply H1; [set_solver|done].
    + apply H1; [set_solver|done].
  - intros c Hn Hs. rewrite Hlead. by apply H3.
Qed.

Lemma flight_settle ck g ts key c res :
  flight_ok ck g ts → ck c = key → (c < nextCall g)%nat → flight_ok ck (settle key c res g) ts.
Proof.
  intros Hok Hck Hn. unfold settle. destruct (settled g !! c) eqn:Hs; [done|].
  destruct Hok as [H1 H2 H3 H4 H5].
  destruct (H3 c Hn Hs) as [Hcall _]. rewrite Hck in Hcall.
  split; cbn [calls settled nextCall].
  - done.
  - intros k c' Hk. case_bool_decide as Hd; [|done].
    apply lookup_delete_Some in Hk as [Hne Hk]. destruct (H2 k c' Hk) as (E1 & E2 & E3).
    split; [done|]. split; [done|]. rewrite lookup_insert_ne; [done|]. intros <-. congruence.
  - intros c' Hn' Hs'. apply lookup_insert_None in Hs' as [Hs' Hne].
    destruct (H3 c' Hn' Hs') as [E1 E2]. split; [|done].
    case_bool_decide; [|done]. rewrite lookup_delete_ne; [done|]. congruence.
  - intros c' oe. rewrite lookup_insert_Some. intros [[<- _]|[_ ?]]; [done|by eapply H4].
  - done.
Qed.

(** A task whose call is settled may end. *)
Lemma flight_end ck g l1 t l2 :
  flight_ok ck g (l1 ++ t :: l2) → (∀ c, leads t = Some c → is_Some (settled g !! c)) →
  flight_ok ck g (l1 ++ l2).
Proof.
  intros [H1 H2 H3 H4 H5] Hs.
  rewrite (leading_app l1 (t :: l2)) in H5. split; [|done| |done|].
  - intros t' c Ht'. apply H1. set_solver.
  - intros c Hn Hc. destruct (H3 c Hn Hc) as [E1 E2]. split; [done|].
    rewrite leading_app in *. apply elem_of_app in E2 as [E2|E2]; [set_solver|].
    cbn in E2. destruct (leads t) as [c'|] eqn:El; [|set_solver].
    apply elem_of_cons in E2 as [->|E2]; [|set_solver].
    destruct (Hs c' eq_refl) as [? E]. congruence.
  - rewrite leading_app. cbn in H5. destruct (leads t); [|done].
    apply NoDup_app in H5 as (N1 & N2 & N3). apply NoDup_cons in N3 as [N3 N4].
    apply NoDup_app. split; [done|]. split; [|done]. intros x Hx Hx'. apply (N2 x Hx). by right.
Qed.

Lemma flight_settled_lookup key c res g : is_Some (settled (settle key c res g) !! c).
Proof.
  unfold settle. destruct (settled g !! c) eqn:E; [by rewrite E|]. cbn. by rewrite lookup_insert_eq.
Qed.

(** Joining: a follower of the open call, or the leader of a new one. *)
Lemma flight_follow ck g ts key c r l :
  flight_ok ck g ts → calls g !! key = Some c → primary l = key →
  flight_ok ck g (TFollow r l c :: ts).
Proof.
  intros [H1 H2 H3 H4 H5] Hk Hl. destruct (H2 key c Hk) as (E1 & E2 & E3).
  split; [|done|done|done|done].
  intros t c' [->|Ht]%elem_of_cons Hc; [|by apply H1].
  injection Hc as <-. cbn. by rewrite Hl.
Qed.

Lemma flight_lead ck g ts key t :
  flight_ok ck g ts → calls g !! key = None → leads t = Some (nextCall g) → task_key t = key →
  flight_ok (λ c, if Nat.eqb c (nextCall g) then key else ck c)
    (mkInflight (<[key := nextCall g]> (calls g)) (settled g) (S (nextCall g))) (t :: ts).
Proof.
  intros [H1 H2 H3 H4 H5] Hk Ht Hkey. split; cbn [calls settled nextCall].
  - intros t' c [->|Ht']%elem_of_cons Hc.
    + assert (c = nextCall g) as -> by (apply leads_call in Ht; congruence).
      rewrite Nat.eqb_refl. split; [done|lia].
    + destruct (H1 t' c Ht' Hc) as [E1 E2]. destruct (Nat.eqb_spec c (nextCall g)); [lia|].
      split; [done|lia].
  - intros k c. rewrite lookup_insert_Some. intros [[<- <-]|[Hne Hkc]].
    + rewrite Nat.eqb_refl. split; [done|]. split; [lia|].
      destruct (settled g !! nextCall g) eqn:E; [apply H4 in E; lia|done].
    + destruct (H2 k c Hkc) as (E1 & E2 & E3). destruct (Nat.eqb_spec c (nextCall g)); [lia|].
      split; [done|]. split; [lia|done].
  - intros c Hn Hs. destruct (Nat.eqb_spec c (nextCall g)) as [->|Hne].
    + rewrite lookup_insert_eq. split; [done|]. cbn. rewrite Ht. left.
    + destruct (H3 c ltac:(lia) Hs) as [E1 E2]. split.
      * rewrite lookup_insert_ne; [done|]. congruence.
      * cbn. rewrite Ht. by right.
  - intros c oe Hs. apply H4 in Hs. lia.
  - cbn. rewrite Ht. constructor; [|done]. intros (t' & Ht' & Hl)%list_elem_of_omap.
    apply leads_call, (H1 t') in Hl as [_ Hl]; [lia|done].
Qed.

Lemma flight_perm ck g ts ts' : ts ≡ₚ ts' → flight_ok ck g ts → flight_ok ck g ts'.
Proof.
  intros Hp [H1 H2 H3 H4 H5].
  assert (Hl : leading ts ≡ₚ leading ts') by (unfold leading; by rewrite Hp).
  split; [|done| |done|by rewrite <-Hl].
  - intros t c Ht. apply H1. by rewrite Hp.
  - intros c Hn Hs. rewrite <-Hl. by apply H3.
Qed.

(** What [join] gives back, with the task it becomes. *)
Lemma flight_join ck g l1 t l2 key g' c leader (lead follow : list Task) :
  flight_ok ck g (l1 ++ t :: l2) → leads t = None → join key g = (g', c, leader) →
  (leader = true → ∃ t', lead = [t'] ∧ leads t' = Some c ∧ task_key t' = key) →
  (leader = false → follow = [] ∨ ∃ r l, follow = [TFollow r l c] ∧ primary l = key) →
  ∃ ck', flight_ok ck' g' (l1 ++ (if leader then lead else follow) ++ l2) ∧
    (∀ c', (c' < nextCall g)%nat → ck' c' = ck c') ∧ settled g' = settled g.
Proof.
  intros Hok Ht Hj Hl Hf.
  assert (Hend : flight_ok ck g (l1 ++ l2)) by (eapply flight_end; [done|by rewrite Ht]).
  assert (Hperm : ∀ x : Task, x :: l1 ++ l2 ≡ₚ l1 ++ [x] ++ l2) by (intros; apply Permutation_middle).
  unfold join in Hj. destruct (calls g !! key) as [c0|] eqn:Hk; injection Hj as <- <- <-.
  - exists ck. split; [|done]. destruct (Hf eq_refl) as [->|(r & l & -> & Hpl)]; [done|].
    eapply flight_perm; [apply Hperm|]. by eapply flight_follow.
  - eexists. destruct (Hl eq_refl) as (t' & -> & Hlt & Hkt).
    split; [eapply flight_perm; [apply Hperm|]; by apply flight_lead|].
    split; [|done]. intros c' Hc'. cbn. destruct (Nat.eqb_spec c' (nextCall g)); [lia|done].
Qed.

(** ** Lemmas: where entries come from *)

Section soundness.
Context `{F64 : Float64} (sha256_hex : string → string).
Context {S : Type} `{HCS : !CacheStore S} `{HLaws : !CacheStoreLaws S}.
Context (svc : string) (co : CacheOptions) (variantFor : Request → string) (leasing : bool).
Context (Hhex : ∀ x, String.length (sha256_hex x) = 64%nat).

#[local] Abbreviation pk := (primaryKeyOf sha256_hex svc co variantFor).
#[local] Abbreviation answers := (entryAnswers sha256_hex).

(** The request forwarded on behalf of a client's. *)
Definition sent_for (asked q : Request) : Prop := q = asked ∨ ∃ e, q = (background asked e).1.

(** An entry of the resource [K]: a response that consented to being stored,
    to a request for that resource, kept under that request's variant key. *)
Definition genuine (K : string) (e : CacheEntry) : Prop :=
  (∃ asked q, pk asked = K ∧ sent_for asked q ∧ Method q ≠ MethodHead ∧
     keyed_for sha256_hex K e q) ∧
  (∃ h p, responseIsStorable co (StatusCode e) h = Ok p ∧ ceHeader e = storableHeader h ∧
     VaryOn e = varyOn p) ∧
  ceService e = svc.

Definition flight_from (K : string) (fl : Flight) : Prop :=
  match fl with FRefresh _ e _ => genuine K e | _ => True end.

Definition task_ok (t : Task) : Prop :=
  match t with
  | TLookup _ => True
  | TVariant r l => primary l = pk r ∧
      ∃ vary, vary ≠ [] ∧ variant l = variantKeyFor sha256_hex (primary l) vary r
  | TServe r l e => primary l = pk r ∧ (answers e (primary l) r = true → genuine (primary l) e)
  | TRefresh r l e | TRefreshLead r l e _ => primary l = pk r ∧ genuine (primary l) e
  | TFetch r l _ | TLead r l _ _ | TAwait r l _ | TFollow r l _ => primary l = pk r
  | TForward r l fl q rec =>
      primary l = pk r ∧ sent_for r q ∧ captured rec ∧ cwOptions rec = co ∧
      (bodyExpected rec = true → Method q ≠ MethodHead) ∧ flight_from (primary l) fl
  | TStore l _ writes res =>
      (∀ k e, (k, e) ∈ writes → entryIsResponse e = true →
         genuine (primary l) e ∧ k = storageKeyFor e (primary l)) ∧
      (∀ e, res = Some e → genuine (primary l) e)
  end.

Record prov_ok (ck : nat → string) (s : CacheSystem) : Prop := {
  pv_store : ∀ k e, cs_holds (store s) k e → entryIsResponse e = true →
    ∃ K, genuine K e ∧ k = storageKeyFor e K;
  pv_settled : ∀ c e, settled (inflight s) !! c = Some (Some e) → genuine (ck c) e;
  pv_tasks : Forall task_ok (tasks s);
  pv_replayed : ∀ r e, (r, e) ∈ replayed s → answers e (pk r) r = true ∧ genuine (pk r) e }.

Lemma pk_length r : String.length (pk r) = (70 + String.length svc)%nat.
Proof.
  unfold primaryKeyOf, cacheKey. rewrite !str_length_app, Hhex. cbn. lia.
Qed.

Lemma str_take_length n s : (n ≤ String.length s)%nat → String.length (str_take n s) = n.
Proof. revert s. induction n as [|n IH]; intros [|a s] Hs; cbn in *; [done..|lia|]. rewrite IH; lia. Qed.

Lemma variantKeyFor_cons K vary r :
  vary ≠ [] → ∃ d, variantKeyFor sha256_hex K vary r = K +:+ d ∧ String.length d = 16%nat.
Proof.
  intros Hv. destruct vary as [|v vs]; [done|]. eexists. split; [done|].
  apply str_take_length. rewrite Hhex. unfold variantDigestLength. lia.
Qed.

Lemma pk_nonempty r : pk r ≠ "".
Proof. done. Qed.

(** An entry read from the store answers for the resource it belongs to. *)
Lemma answers_genuine r e k K :
  answers e (pk r) r = true → genuine K e → k = storageKeyFor e K →
  (k = pk r ∨ ∃ vary, vary ≠ [] ∧ k = variantKeyFor sha256_hex (pk r) vary r) →
  genuine (pk r) e.
Proof.
  intros Ha Hg Hk Hread. pose proof Hg as ((asked & q & HK & _ & _ & Hkey) & _).
  enough (K = pk r) as -> by done. unfold keyed_for in Hkey.
  assert (Hlen : String.length K = String.length (pk r)) by (by rewrite <-HK, !pk_length).
  destruct (VaryOn e) as [|v vs] eqn:Hv.
  - unfold storageKeyFor in Hk. rewrite Hkey in Hk. cbn in Hk. subst k.
    destruct Hread as [->|(vary & Hne & ->)]; [done|].
    destruct (variantKeyFor_cons (pk r) vary r Hne) as (d & Hd & Hd16). rewrite Hd in Hlen.
    rewrite str_length_app in Hlen. lia.
  - unfold entryAnswers in Ha. destruct (entryIsResponse e); [|done]. cbn [negb] in Ha.
    destruct (String.eqb_spec (variantKeyFor sha256_hex (pk r) (VaryOn e) r)
                (storageKeyFor e (pk r))) as [Heq|]; [|done].
    rewrite Hv in Heq.
    destruct (variantKeyFor_cons (pk r) (v :: vs) r ltac:(done)) as (d & Hd & _).
    destruct (variantKeyFor_cons K (v :: vs) q ltac:(done)) as (d' & Hd' & _).
    rewrite Hd in Heq. unfold storageKeyFor in Heq. rewrite Hkey, Hd' in Heq.
    destruct (String.eqb_spec (K +:+ d') "") as [E|_]; [rewrite <-HK in E; done|].
    symmetry in Heq. by apply str_app_inj_len in Heq as [-> _].
Qed.

Lemma crwFinish_settings c :
  cwOptions (crwFinish c) = cwOptions c ∧ bodyExpected (crwFinish c) = bodyExpected c.
Proof.
  unfold crwFinish. destruct (cwHijacked c); [done|]. destruct (wroteHeader c); [done|].
  apply (crw_event_settings c (UWriteHeader 200)).
Qed.

Lemma crwEntry_genuine r l q rec now e :
  primary l = pk r → sent_for r q → captured rec → cwOptions rec = co →
  (bodyExpected rec = true → Method q ≠ MethodHead) →
  crwEntry sha256_hex svc (primary l) q now rec = Some e → genuine (primary l) e.
Proof.
  intros Hp Hq [_ Hcap] Hco Hm. unfold crwEntry. destruct (capturing rec); [|done].
  destruct (Hcap eq_refl) as (Hb & _ & h & Hst & Hh & _). rewrite Hco in Hst.
  intros [= <-]. split; [|split; [|done]].
  - exists r, q. split; [done|]. split; [done|]. split; [by apply Hm|].
    unfold keyed_for. cbn. by destruct (varyOn (policy rec)).
  - by exists h, (policy rec).
Qed.

Lemma refreshed_genuine K now e : genuine K e → genuine K (refreshed co now e).
Proof. intros H. unfold refreshed. by destruct (responseIsStorable _ _ _). Qed.

Lemma admitVariant_index ix0 e K i :
  admitVariant sha256_hex co ix0 e K = Ok (Some i) → entryIsResponse i = false.
Proof. unfold admitVariant. intros H. by repeat case_match; simplify_eq. Qed.

Lemma forwardResult_ok r l fl q rec now :
  task_ok (TForward r l fl q rec) →
  task_ok (TStore l fl (forwardResult sha256_hex svc co now q l fl rec).1
             (forwardResult sha256_hex svc co now q l fl rec).2).
Proof.
  intros (Hp & Hq & Hcap & Hco & Hm & Hfl). unfold forwardResult.
  destruct (crwFinish_settings rec) as [Hset1 Hset2].
  destruct (crwEntry _ _ _ _ _ _) as [e|] eqn:He.
  - assert (Hg : genuine (primary l) e).
    { eapply (crwEntry_genuine r l q (crwFinish rec)); try done.
      - by apply crwFinish_captured.
      - congruence.
      - by rewrite Hset2. }
    split; [|by intros ? [= <-]]. cbn. intros k e' Hin Hr.
    destruct (admitVariant _ _ _ _ _) as [ix|] eqn:Ha; [|by apply elem_of_nil in Hin].
    apply elem_of_cons in Hin as [[= -> ->]|Hin]; [done|].
    destruct ix as [i|]; [|by apply elem_of_nil in Hin].
    apply list_elem_of_singleton in Hin as [= -> ->]. apply admitVariant_index in Ha. congruence.
  - assert (task_ok (TStore l fl [] None)) as Hnil by (split; [by intros ?? ?%elem_of_nil|done]).
    destruct fl as [c| |c e v]; [done|done|]. destruct v; [|done]. destruct (_ =? 304); [|done].
    cbn in Hfl. split; [|intros e' [= <-]; by apply refreshed_genuine].
    cbn. intros k e' [= -> ->]%list_elem_of_singleton _. split; [by apply refreshed_genuine|done].
Qed.

(** A step changes one task: what has to be shown of the rest. *)
Lemma prov_step ck s l1 t ts l2 st' rep' cr' :
  prov_ok ck s → tasks s = l1 ++ t :: l2 →
  (∀ k e, cs_holds st' k e → entryIsResponse e = true → ∃ K, genuine K e ∧ k = storageKeyFor e K) →
  Forall task_ok ts →
  (∀ r e, (r, e) ∈ rep' → answers e (pk r) r = true ∧ genuine (pk r) e) →
  prov_ok ck (mkCache st' (inflight s) (l1 ++ ts ++ l2) rep' cr').
Proof.
  intros [H1 H2 H3 H4] Ht Hst Hts Hrep. split; cbn; [done|done| |done].
  rewrite Ht in H3. apply Forall_app in H3 as [F1 F2]. apply Forall_cons in F2 as [_ F2].
  by rewrite !Forall_app.
Qed.

Lemma prov_task ck s l1 t l2 : prov_ok ck s → tasks s = l1 ++ t :: l2 → task_ok t.
Proof.
  intros [_ _ H3 _] Ht. rewrite Ht in H3. apply Forall_app in H3 as [_ F2].
  by apply Forall_cons in F2 as [? _].
Qed.

(** The flights change, the entries they hand over do not. *)
Lemma prov_flights ck ck' s g :
  prov_ok ck s → (∀ c e, settled g !! c = Some (Some e) → genuine (ck' c) e) →
  prov_ok ck' (mkCache (store s) g (tasks s) (replayed s) (crashed s)).
Proof. by intros [H1 H2 H3 H4] Hg. Qed.

Lemma settled_settle key c res g c' e :
  settled (settle key c res g) !! c' = Some (Some e) →
  settled g !! c' = Some (Some e) ∨ c' = c ∧ res = Some e.
Proof.
  unfold settle. destruct (settled g !! c); [by left|]. cbn. rewrite lookup_insert_Some.
  intros [[<- [= ->]]|[_ ?]]; auto.
Qed.

Lemma store_get_ok ck s now k st' found :
  prov_ok ck s → cs_get now k (store s) = (st', found) →
  (∀ k' e, cs_holds st' k' e → entryIsResponse e = true →
     ∃ K, genuine K e ∧ k' = storageKeyFor e K) ∧
  (∀ e, found = Some e → entryIsResponse e = true → ∃ K, genuine K e ∧ k = storageKeyFor e K).
Proof.
  intros [H1 _ _ _] Hg. split.
  - intros k' e Hh. apply H1. eapply (cs_get_keeps now k). by rewrite Hg.
  - intros e ->. apply H1. apply (cs_get_holds now). by rewrite Hg.
Qed.

Lemma answers_response e K r : answers e K r = true → entryIsResponse e = true.
Proof. unfold entryAnswers. by destruct (entryIsResponse e). Qed.

Definition cache_ok (s : CacheSystem) : Prop :=
  ∃ ck, flight_ok ck (inflight s) (tasks s) ∧ prov_ok ck s.

(** A step that leaves the flights alone: the task carries on with its calls. *)
Lemma step_plain s l1 t ts l2 st' rep' cr' :
  cache_ok s → tasks s = l1 ++ t :: l2 → leading ts = leading [t] →
  (∀ t' c, t' ∈ ts → task_call t' = Some c → task_call t = Some c ∧ task_key t' = task_key t) →
  (∀ ck, prov_ok ck s → task_ok t →
     (∀ k e, cs_holds st' k e → entryIsResponse e = true →
        ∃ K, genuine K e ∧ k = storageKeyFor e K) ∧
     Forall task_ok ts ∧
     (∀ r e, (r, e) ∈ rep' → answers e (pk r) r = true ∧ genuine (pk r) e)) →
  cache_ok (mkCache st' (inflight s) (l1 ++ ts ++ l2) rep' cr').
Proof.
  intros (ck & Hf & Hp) Ht Hl Hc H. exists ck.
  destruct (H ck Hp (prov_task _ _ _ _ _ Hp Ht)) as (H1 & H2 & H3). split.
  - cbn. rewrite Ht in Hf. by eapply flight_replace.
  - by eapply prov_step.
Qed.

(** A replay is sound when its entry answers and belongs to the resource. *)
Lemma replayed_cons ck s r e l :
  prov_ok ck s → primary l = pk r → answers e (primary l) r = true → genuine (primary l) e →
  ∀ r' e', (r', e') ∈ (r, e) :: replayed s → answers e' (pk r') r' = true ∧ genuine (pk r') e'.
Proof.
  intros Hp Hl Ha Hg r' e' [[= -> ->]|Hin]%elem_of_cons; [by rewrite <-Hl|by eapply pv_replayed].
Qed.

Lemma forwardTask_ok r l fl q :
  primary l = pk r → sent_for r q → flight_from (primary l) fl → task_ok (forwardTask co r l fl q).
Proof.
  intros H1 H2 H3. split_and!; try done. cbn.
  intros Hb Hm. rewrite Hm in Hb. done.
Qed.

Lemma forward_event_ok r l fl q rec ev :
  task_ok (TForward r l fl q rec) → task_ok (TForward r l fl q (crw_event rec ev)).
Proof.
  intros (H1 & H2 & H3 & H4 & H5 & H6). destruct (crw_event_settings rec ev) as [E1 E2].
  split_and!; try done; [by apply crw_event_captured|congruence|by rewrite E2].
Qed.

(** Settling a flight hands over an entry of its resource. *)
Lemma settle_ok s key c res ck :
  flight_ok ck (inflight s) (tasks s) → prov_ok ck s → ck c = key →
  (c < nextCall (inflight s))%nat → (∀ e, res = Some e → genuine key e) →
  flight_ok ck (settle key c res (inflight s)) (tasks s) ∧
  prov_ok ck (mkCache (store s) (settle key c res (inflight s)) (tasks s) (replayed s) (crashed s)).
Proof.
  intros Hf Hp Hck Hn Hg. split; [by apply flight_settle|].
  apply prov_flights with ck; [done|]. intros c' e [Hs|[-> ->]]%settled_settle.
  - by eapply pv_settled.
  - rewrite Hck. by apply Hg.
Qed.

Lemma leader_call (s : CacheSystem (S:=S)) ck l1 t l2 c :
  flight_ok ck (inflight s) (tasks s) → tasks s = l1 ++ t :: l2 → leads t = Some c →
  ck c = task_key t ∧ (c < nextCall (inflight s))%nat.
Proof.
  intros Hf Ht Hl. apply (fl_tasks _ _ _ Hf); [rewrite Ht; set_solver|by apply leads_call].
Qed.

(** Settling early keeps the leader at work. *)
Lemma settle_early_ok s l1 t l2 c :
  cache_ok s → tasks s = l1 ++ t :: l2 → leads t = Some c →
  cache_ok (mkCache (store s) (settle (task_key t) c None (inflight s)) (tasks s) (replayed s)
              (crashed s)).
Proof.
  intros (ck & Hf & Hp) Ht Hl. destruct (leader_call _ _ _ _ _ _ Hf Ht Hl) as [Hck Hn].
  exists ck. exact (settle_ok s _ c None ck Hf Hp Hck Hn ltac:(done)).
Qed.

Lemma settleEarly_ok s l1 r l fl q rec rec' l2 :
  cache_ok s → tasks s = l1 ++ TForward r l fl q rec :: l2 →
  cache_ok (mkCache (store s) (settleEarly l fl rec rec' (inflight s)) (tasks s) (replayed s)
              (crashed s)).
Proof.
  intros Hok Ht. destruct fl as [c| |c e v]; cbn; [|by destruct s..].
  destruct (_ && _); [|by destruct s]. by apply (settle_early_ok s l1 _ l2 c Hok Ht).
Qed.

(** The tasks that hold no call. *)
Lemma free_replace t ts (t' : Task) c :
  Forall (λ x, task_call x = None) ts → t' ∈ ts → task_call t' = Some c →
  task_call t = Some c ∧ task_key t' = task_key t.
Proof. rewrite Forall_forall. intros H Hin Hc. specialize (H _ Hin). congruence. Qed.

Lemma one_replace t x (t' : Task) c :
  task_call x = task_call t → task_key x = task_key t → t' ∈ [x] → task_call t' = Some c →
  task_call t = Some c ∧ task_key t' = task_key t.
Proof. intros H1 H2 ->%list_elem_of_singleton Hc. by rewrite <-H1. Qed.

Lemma step_request s r :
  cache_ok s →
  cache_ok (mkCache (store s) (inflight s)
    ((if requestAllowsStoredResponse r then TLookup r else TFetch r (newCacheLookup (pk r)) false)
       :: tasks s) (replayed s) (crashed s)).
Proof.
  intros (ck & [H1 H2 H3 H4 H5] & [P1 P2 P3 P4]). exists ck. split; split; cbn; try done.
  - intros t c [->|Ht]%elem_of_cons Hc; [by destruct (requestAllowsStoredResponse r)|by apply H1].
  - intros c Hn Hs. by destruct (requestAllowsStoredResponse r); apply H3.
  - by destruct (requestAllowsStoredResponse r).
  - constructor; [by destruct (requestAllowsStoredResponse r)|done].
Qed.

Lemma step_first s r l1 l2 now st' found :
  cache_ok s → tasks s = l1 ++ TLookup r :: l2 → cs_get now (pk r) (store s) = (st', found) →
  cache_ok (mkCache st' (inflight s) (l1 ++ afterFirst sha256_hex svc co variantFor r found :: l2)
              (replayed s) (crashed s)).
Proof.
  intros Hok Ht Hg.
  apply (step_plain s l1 (TLookup r) [afterFirst sha256_hex svc co variantFor r found] l2); try done.
  - unfold afterFirst. destruct found as [e|]; [|done]. by destruct (entryIsIndex e).
  - intros t' c. apply free_replace. constructor; [|done]. unfold afterFirst.
    destruct found as [e|]; [|done]. by destruct (entryIsIndex e).
  - intros ck Hp _. destruct (store_get_ok ck s now (pk r) st' found Hp Hg) as [G1 G2].
    split; [done|]. split; [|apply (pv_replayed _ _ Hp)]. constructor; [|done].
    unfold afterFirst. destruct found as [e|]; [|done]. destruct (entryIsIndex e) eqn:Hix.
    + split; [done|]. exists (VaryOn e). split; [|done]. intros Hv. unfold entryIsIndex in Hix.
      rewrite Hv in Hix. by rewrite andb_false_r in Hix.
    + split; [done|]. intros Ha. destruct (G2 e eq_refl (answers_response _ _ _ Ha)) as (K & HK & Hk).
      eapply answers_genuine; eauto.
Qed.

Lemma step_second s r l l1 l2 now st' found :
  cache_ok s → tasks s = l1 ++ TVariant r l :: l2 →
  cs_get now (variant l) (store s) = (st', found) →
  cache_ok (mkCache st' (inflight s) (l1 ++ afterSecond r l found :: l2) (replayed s) (crashed s)).
Proof.
  intros Hok Ht Hg. apply (step_plain s l1 (TVariant r l) [afterSecond r l found] l2); try done.
  - by destruct found.
  - intros t' c. apply free_replace. constructor; [|done]. by destruct found.
  - intros ck Hp (Hl & vary & Hne & Hv).
    destruct (store_get_ok ck s now (variant l) st' found Hp Hg) as [G1 G2].
    split; [done|]. split; [|apply (pv_replayed _ _ Hp)]. constructor; [|done].
    destruct found as [e|]; [|done]. split; [done|]. intros Ha.
    destruct (G2 e eq_refl (answers_response _ _ _ Ha)) as (K & HK & Hk).
    rewrite Hl in *. eapply answers_genuine; eauto.
Qed.

Lemma step_serve s r l e l1 l2 now :
  cache_ok s → tasks s = l1 ++ TServe r l e :: l2 →
  cache_ok
    match serveDecision sha256_hex now r e l with
    | Refuse => mkCache (store s) (inflight s) (l1 ++ TFetch r l true :: l2) (replayed s) (crashed s)
    | Hit => mkCache (store s) (inflight s) (l1 ++ l2) ((r, e) :: replayed s) (crashed s)
    | Stale => mkCache (store s) (inflight s) (l1 ++ TRefresh r l e :: l2)
                 ((r, e) :: replayed s) (crashed s)
    end.
Proof.
  intros Hok Ht. unfold serveDecision. destruct (answers e (primary l) r) eqn:Ha; cbn [negb].
  2: { apply (step_plain s l1 (TServe r l e) [TFetch r l true] l2); try done.
       - intros t' c. apply free_replace. by constructor.
       - intros ck Hp [Hl _]. split; [apply (pv_store _ _ Hp)|].
         split; [by repeat constructor|apply (pv_replayed _ _ Hp)]. }
  assert (Hrep : ∀ ts, leading ts = [] → Forall (λ x, task_call x = None) ts →
    (primary l = pk r → genuine (primary l) e → Forall task_ok ts) →
    cache_ok (mkCache (store s) (inflight s) (l1 ++ ts ++ l2) ((r, e) :: replayed s) (crashed s))).
  { intros ts Hld Hfree Hts. apply (step_plain s l1 (TServe r l e) ts l2); try done.
    - intros t' c. by apply free_replace.
    - intros ck Hp [Hl Hg]. specialize (Hg Ha). split; [apply (pv_store _ _ Hp)|].
      split; [by apply Hts|]. by eapply replayed_cons. }
  destruct (needsRevalidation now e).
  { apply (Hrep [TRefresh r l e]); [done|by constructor|]. intros. constructor; [by split|done]. }
  destruct (servable now e).
  { apply (Hrep []); [done|constructor|constructor]. }
  apply (step_plain s l1 (TServe r l e) [TFetch r l true] l2); try done.
  - intros t' c. apply free_replace. by constructor.
  - intros ck Hp [Hl _]. split; [apply (pv_store _ _ Hp)|].
    split; [by repeat constructor|apply (pv_replayed _ _ Hp)].
Qed.

(** A step that joins the flight of its resource. *)
Lemma step_joined s l1 t l2 key g c leader lead follow :
  cache_ok s → tasks s = l1 ++ t :: l2 → leads t = None → join key (inflight s) = (g, c, leader) →
  (leader = true → ∃ t', lead = [t'] ∧ leads t' = Some c ∧ task_key t' = key) →
  (leader = false → follow = [] ∨ ∃ r l, follow = [TFollow r l c] ∧ primary l = key) →
  (task_ok t → Forall task_ok (if leader then lead else follow)) →
  cache_ok (mkCache (store s) g (l1 ++ (if leader then lead else follow) ++ l2)
              (replayed s) (crashed s)).
Proof.
  intros (ck & Hf & Hp) Ht Hn Hj Hl Hfo Hts. specialize (Hts (prov_task _ _ _ _ _ Hp Ht)).
  pose proof Hf as Hf0. rewrite Ht in Hf.
  destruct (flight_join ck _ l1 t l2 key g c leader lead follow Hf Hn Hj Hl Hfo)
    as (ck' & Hf' & Hck & Hset).
  exists ck'. split; [done|]. destruct Hp as [P1 P2 P3 P4]. split; cbn; try done.
  - rewrite Hset. intros c' e' Hs. rewrite Hck; [by apply P2|by eapply fl_settled].
  - rewrite Ht in P3. apply Forall_app in P3 as [F1 F2]. apply Forall_cons in F2 as [_ F2].
    by rewrite !Forall_app.
Qed.

Lemma step_refresh s r l e l1 l2 g c leader :
  cache_ok s → tasks s = l1 ++ TRefresh r l e :: l2 →
  join (primary l) (inflight s) = (g, c, leader) →
  cache_ok (mkCache (store s) g (l1 ++ (if leader then [TRefreshLead r l e c] else []) ++ l2)
              (replayed s) (crashed s)).
Proof.
  intros Hok Ht Hj. eapply step_joined; try done; [by eauto|by left|].
  intros Hts. destruct leader; [by constructor|constructor].
Qed.

Lemma step_join s r l a l1 l2 g c leader :
  cache_ok s → tasks s = l1 ++ TFetch r l a :: l2 →
  join (primary l) (inflight s) = (g, c, leader) →
  cache_ok (mkCache (store s) g (l1 ++ afterJoin r l a c leader :: l2) (replayed s) (crashed s)).
Proof.
  intros Hok Ht Hj. pose proof (step_joined s l1 _ l2 _ g c leader [TLead r l a c] [TFollow r l c]
    Hok Ht eq_refl Hj) as H. unfold afterJoin.
  destruct leader; apply H; try (by eauto); intros Hts; by constructor.
Qed.

(** A task that keeps its call, or has none, and touches nothing else. *)
Lemma step_task s l1 t x l2 cr' :
  cache_ok s → tasks s = l1 ++ t :: l2 → leads x = leads t →
  (∀ c, task_call x = Some c → task_call t = Some c ∧ task_key x = task_key t) →
  (task_ok t → task_ok x) →
  cache_ok (mkCache (store s) (inflight s) (l1 ++ x :: l2) (replayed s) cr').
Proof.
  intros Hok Ht Hl Hc Hx. apply (step_plain s l1 t [x] l2); try done.
  - cbn. by rewrite Hl.
  - intros t' c ->%list_elem_of_singleton. apply Hc.
  - intros ck Hp Htask. split; [apply (pv_store _ _ Hp)|].
    split; [constructor; [by apply Hx|done]|apply (pv_replayed _ _ Hp)].
Qed.

Lemma background_sent r e : sent_for r (background r e).1.
Proof. right. by exists e. Qed.

Lemma step_probe s r l c l1 l2 now st' found :
  cache_ok s → tasks s = l1 ++ TAwait r l c :: l2 →
  cs_get now (primary l) (store s) = (st', found) →
  cache_ok
    match found with
    | Some e =>
        if awaitServes sha256_hex now r e l
        then mkCache st' (inflight s) (l1 ++ TStore l (FLeader c) [] (Some e) :: l2)
               ((r, e) :: replayed s) (crashed s)
        else mkCache st' (inflight s) (tasks s) (replayed s) (crashed s)
    | None => mkCache st' (inflight s) (tasks s) (replayed s) (crashed s)
    end.
Proof.
  intros Hok Ht Hg.
  assert (Hsame : cache_ok (mkCache st' (inflight s) (tasks s) (replayed s) (crashed s))).
  { rewrite Ht. apply (step_plain s l1 (TAwait r l c) [TAwait r l c] l2); try done.
    - intros t' c'. by apply one_replace.
    - intros ck Hp Htask. destruct (store_get_ok _ _ _ _ _ _ Hp Hg) as [G1 _].
      split; [done|]. split; [by constructor|apply (pv_replayed _ _ Hp)]. }
  destruct found as [e|]; [|done]. unfold awaitServes. destruct (fresh now e); [|done].
  destruct (answers e (primary l) r) eqn:Ha; [|done].
  apply (step_plain s l1 (TAwait r l c) [TStore l (FLeader c) [] (Some e)] l2); try done.
  - intros t' c'. by apply one_replace.
  - intros ck Hp Hl. cbn in Hl. destruct (store_get_ok _ _ _ _ _ _ Hp Hg) as [G1 G2].
    destruct (G2 e eq_refl (answers_response _ _ _ Ha)) as (K & HK & Hk).
    assert (Hgen : genuine (primary l) e) by (rewrite Hl in *; eapply answers_genuine; eauto).
    split; [done|]. split.
    + constructor; [|done]. split; [by intros ?? ?%elem_of_nil|by intros ? [= <-]].
    + by eapply replayed_cons.
Qed.

Lemma step_follow s r l c oe l1 l2 :
  cache_ok s → tasks s = l1 ++ TFollow r l c :: l2 → settled (inflight s) !! c = Some oe →
  cache_ok
    match oe with
    | Some e =>
        if answers e (primary l) r
        then mkCache (store s) (inflight s) (l1 ++ l2) ((r, e) :: replayed s) (crashed s)
        else mkCache (store s) (inflight s) (l1 ++ forwardTask co r l FAlone r :: l2)
               (replayed s) (crashed s)
    | None => mkCache (store s) (inflight s) (l1 ++ forwardTask co r l FAlone r :: l2)
                (replayed s) (crashed s)
    end.
Proof.
  intros Hok Ht Hs.
  assert (Halone : cache_ok (mkCache (store s) (inflight s) (l1 ++ forwardTask co r l FAlone r :: l2)
               (replayed s) (crashed s))).
  { eapply step_task; try done. intros Hl. by apply forwardTask_ok; [|left|]. }
  destruct oe as [e|]; [|done]. destruct (answers e (primary l) r) eqn:Ha; [|done].
  destruct Hok as (ck & Hf & Hp).
  assert (Hck : ck c = primary l).
  { apply (fl_tasks _ _ _ Hf (TFollow r l c) c); [rewrite Ht; set_solver|done]. }
  assert (Hg : genuine (primary l) e) by (rewrite <-Hck; by eapply pv_settled).
  pose proof (prov_task _ _ _ _ _ Hp Ht) as Hl.
  exists ck. split; [rewrite Ht in Hf; by eapply flight_end|].
  apply (prov_step ck s l1 (TFollow r l c) [] l2); try done; [apply (pv_store _ _ Hp)|].
  by eapply replayed_cons.
Qed.

Lemma step_write s l fl k e w res now l1 l2 :
  cache_ok s → tasks s = l1 ++ TStore l fl ((k, e) :: w) res :: l2 →
  cache_ok (mkCache (cs_set now k e (store s)) (inflight s) (l1 ++ TStore l fl w res :: l2)
              (replayed s) (crashed s)).
Proof.
  intros Hok Ht.
  apply (step_plain s l1 (TStore l fl ((k, e) :: w) res) [TStore l fl w res] l2); try done.
  - intros t' c. by apply one_replace.
  - intros ck Hp [Hw Hr]. split; [|split; [|apply (pv_replayed _ _ Hp)]].
    + intros k' e' [[-> ->]|Hh]%cs_set_adds Hresp; [|by eapply pv_store].
      exists (primary l). apply Hw; [left|done].
    + constructor; [|done]. split; [|done]. intros k' e' Hin. apply Hw. by right.
Qed.

Lemma step_settle s l fl res l1 l2 :
  cache_ok s → tasks s = l1 ++ TStore l fl [] res :: l2 →
  cache_ok (mkCache (store s) (settleFlight l fl res (inflight s)) (l1 ++ l2) (replayed s)
              (crashed s)).
Proof.
  intros (ck & Hf & Hp) Ht. pose proof (prov_task _ _ _ _ _ Hp Ht) as [_ Hres].
  assert (Hend : ∀ g, flight_ok ck g (tasks s) →
    (∀ c, flight_call fl = Some c → is_Some (settled g !! c)) →
    prov_ok ck (mkCache (store s) g (tasks s) (replayed s) (crashed s)) →
    cache_ok (mkCache (store s) g (l1 ++ l2) (replayed s) (crashed s))).
  { intros g Hg Hset Hp'. exists ck. split; [rewrite Ht in Hg; by eapply flight_end|].
    apply (prov_step ck _ l1 (TStore l fl [] res) [] l2 _ _ _ Hp' Ht);
      [apply (pv_store _ _ Hp)|constructor|apply (pv_replayed _ _ Hp)]. }
  unfold settleFlight. destruct (flight_call fl) as [c|] eqn:Hc.
  - destruct (leader_call s ck l1 (TStore l fl [] res) l2 c Hf Ht Hc) as [Hck Hn].
    destruct (settle_ok s (primary l) c res ck Hf Hp Hck Hn Hres) as [Hf' Hp'].
    apply Hend; [done| |done]. intros c' [= <-]. apply flight_settled_lookup.
  - apply Hend; [done|done|by destruct s].
Qed.

Lemma cache_step_ok s s' :
  cache_step sha256_hex svc co variantFor leasing s s' → cache_ok s → cache_ok s'.
Proof.
  intros Hstep Hok. destruct Hstep.
  - by apply step_request.
  - by eapply step_first.
  - by eapply step_second.
  - by apply step_serve.
  - by eapply step_refresh.
  - eapply step_task; try done. intros [Hl Hg]. apply forwardTask_ok; [done| |done].
    apply background_sent.
  - eapply step_task; try done. intros _. split; [by intros ?? ?%elem_of_nil|done].
  - by eapply step_join.
  - eapply step_task; try done. intros Hl. apply forwardTask_ok; [done|by left|done].
  - by eapply step_task.
  - by eapply step_probe.
  - eapply step_task; try done. intros Hl. apply forwardTask_ok; [done|by left|done].
  - by eapply step_follow.
  - destruct Hok as (ck & Hf & Hp). exists ck. split.
    + rewrite H in Hf. by eapply flight_end.
    + apply (prov_step ck s l1 (TFollow r l c) [] l2); try done;
        [apply (pv_store _ _ Hp)|apply (pv_replayed _ _ Hp)].
  - pose proof (settleEarly_ok s l1 r l fl q rec (crw_event rec ev) l2 Hok H) as Hok'.
    eapply (step_task _ l1 _ _ l2 (crashed s) Hok' H); try done. apply forward_event_ok.
  - pose proof (settleEarly_ok s l1 r l fl q rec (crwFinish rec) l2 Hok H) as Hok'.
    eapply (step_task _ l1 _ _ l2 (crashed s) Hok' H); try done. apply forwardResult_ok.
  - eapply step_task; try done. intros _. split; [by intros ?? ?%elem_of_nil|done].
  - by eapply step_write.
  - by eapply step_settle.
Qed.

Lemma cache_reachable_ok s0 s :
  (∀ k e, ¬ cs_holds s0 k e) →
  cache_reachable sha256_hex svc co variantFor leasing s0 s → cache_ok s.
Proof.
  intros Hempty Hr.
  assert (Hinit : cache_ok (cache_init s0)).
  { exists (λ _, ""). split; split; cbn; try done.
    - by intros t c ?%elem_of_nil.
    - intros c Hc. lia.
    - constructor.
    - intros k e Hh. by destruct (Hempty k e).
    - by intros r e ?%elem_of_nil. }
  unfold cache_reachable in Hr. revert Hinit.
  induction Hr; eauto using cache_step_ok.
Qed.

End soundness.

(** ** The in-process store behind the interface *)

#[export] Instance memory_CacheStore : CacheStore memoryCacheStore := {|
  cs_get := store_Get;
  cs_set now k e s := (store_Set now k e s).1 |}.

Definition mem_holds (s : memoryCacheStore) (k : string) (e : CacheEntry) : Prop :=
  rentry <$> records s !! k = Some e.

Lemma mem_holds_remove r s k e : mem_holds (removeElement r s) k e → mem_holds s k e.
Proof.
  unfold mem_holds. cbn. intros (x & Hx & He)%fmap_Some.
  apply lookup_delete_Some in Hx as [_ Hx]. by rewrite Hx, He.
Qed.

Lemma mem_holds_evict fuel now s k e : mem_holds (evict fuel now s).1 k e → mem_holds s k e.
Proof.
  revert s. induction fuel as [|fuel IH]; intros s; cbn [evict]; [done|].
  destruct (_ <=? _); [done|]. destruct (last (order s)) as [r|]; [|done].
  specialize (IH (removeElement r (count_eviction now r s))).
  destruct (evict fuel now _) as [s' evs]. cbn in *. intros H. apply IH in H.
  by apply mem_holds_remove in H.
Qed.

#[export] Instance memory_CacheStoreLaws : CacheStoreLaws memoryCacheStore.
Proof.
  refine {| cs_holds := mem_holds |}.
  - intros now k s e. cbn. unfold store_Get, mem_holds.
    destruct (records s !! k) as [r|]; [|done]. by destruct (negb _).
  - intros now k s k' e. cbn. unfold store_Get. destruct (records s !! k) as [r|]; [|done].
    destruct (negb _); cbn; [apply mem_holds_remove|done].
  - intros now k e s k' e'. cbn. unfold store_Set. destruct (ttl e <=? 0); [by right|].
    unfold store_store.
    set (s1 := match records s !! k with Some r => removeElement r s | None => s end).
    assert (H1 : mem_holds s1 k' e' → mem_holds s k' e').
    { unfold s1. destruct (records s !! k); [apply mem_holds_remove|done]. }
    destruct (maxBytes s1 <? size e); [intros H; right; by apply H1|].
    intros H%mem_holds_evict. unfold mem_holds in H. cbn in H.
    apply fmap_Some in H as (r & [[<- <-]|[_ Hr]]%lookup_insert_Some & ->); [by left|].
    right. apply H1. unfold mem_holds. by rewrite Hr.
Defined.

(** ** Theorems *)

(** What is kept is what the client got.  If any entry comes out of a
    response, then the response was to a request that carries a body, was sent
    with one header block whose status and headers consent to storing (the
    entry has them less the connection's own), its policy is the entry's, and
    the entry's body is every byte the client was sent, within the size limit;
    and the entry is keyed for that request.  A flush before the handler has
    chosen a status is excluded: it commits the response behind the copy's
    back. *)
Theorem capture_faithful `{F64 : Float64} sha256_hex svc co primary r now evs e :
  early_flush evs = false →
  let c := crwFinish (foldl crw_event (newRecorder newRW co r) evs) in
  crwEntry sha256_hex svc primary r now c = Some e →
  Method r ≠ MethodHead ∧ Body e = rwBody (cwInner c) ∧ str_len (Body e) ≤ maxBodySize co ∧
  keyed_for sha256_hex primary e r ∧ ceService e = svc ∧ cePath e = URLPath r ∧ StoredAt e = now ∧
  ∃ h p cookies, rwSent (cwInner c) = [(StatusCode e, h, cookies)] ∧
    responseIsStorable co (StatusCode e) h = Ok p ∧ ceHeader e = storableHeader h ∧
    VaryOn e = varyOn p ∧ FreshFor e = freshFor p ∧ StaleWhileRevalidate e = polStale p.
Proof.
  intros Hf c. set (c0 := newRecorder newRW co r) in *.
  assert (Hcap : captured c) by apply crwFinish_captured, captured_run, captured_new.
  assert (Hmir : mirrored c) by (apply crwFinish_mirrored, mirrored_run; [by right|by split]).
  assert (Hset : cwOptions c = co ∧ bodyExpected c = negb (String.eqb (Method r) MethodHead)).
  { destruct (crwFinish_settings (foldl crw_event c0 evs)) as [E1 E2].
    unfold c. rewrite E1, E2. clear Hf Hcap Hmir c E1 E2.
    assert (H : cwOptions c0 = co ∧ bodyExpected c0 = negb (String.eqb (Method r) MethodHead)) by done.
    revert H. generalize c0. induction evs as [|ev evs IH]; intros d Hd; [done|]. cbn. apply IH.
    by destruct (crw_event_settings d ev) as [-> ->]. }
  destruct Hset as [Hco Hbe]. unfold crwEntry. destruct (capturing c) eqn:Ec; [|done]. intros [= <-].
  destruct Hcap as [_ Hcap], Hmir as [_ Hmir].
  destruct (Hcap Ec) as (Hb & Hlen & _). destruct (Hmir Ec) as (_ & Hbody & h & Hsent & Hst & Hh).
  rewrite Hco in Hlen, Hst. cbn. split_and!; try done.
  - intros Hm. rewrite Hbe, Hm in Hb. done.
  - unfold keyed_for. cbn. by destruct (varyOn (policy c)).
  - eauto 10.
Qed.

(** The hash does not collide on the key fields of these two requests. *)
Definition key_collision_free `{F64 : Float64} (sha256_hex : string → string) (svc : string)
    (co : CacheOptions) (variantFor : Request → string) (r r' : Request) : Prop :=
  sha256_hex (frames (key_fields svc (variantFor r) r co)) =
  sha256_hex (frames (key_fields svc (variantFor r') r' co)) →
  frames (key_fields svc (variantFor r) r co) = frames (key_fields svc (variantFor r') r' co).

(** C4: a client is only ever answered with what was meant for it.  However
    requests, refreshes, leases and the store interleave, starting from an
    empty store: an entry replayed to a request [r], whether from the store,
    from a coalesced fetch or from another proxy's, is a response that
    consented to being stored, to a request [q] that carries a body and was
    forwarded on behalf of a request [asked] with the same cache key.  So,
    where the hash does not collide on them, [r] and [asked] ask for the same
    resource with the same keyed headers and cookies, and [r] and [q] agree on
    every field the response varies on; and the client can decode the body. *)
Theorem cache_replay_sound `{F64 : Float64} sha256_hex {S : Type} `{!CacheStore S}
    `{!CacheStoreLaws S} svc co variantFor leasing (s0 : S) s r e :
  (∀ x, String.length (sha256_hex x) = 64%nat) → (∀ k e, ¬ cs_holds s0 k e) →
  cache_reachable sha256_hex svc co variantFor leasing s0 s → (r, e) ∈ replayed s →
  clientAcceptsEncoding r (hdr_get (ceHeader e) "Content-Encoding") = true ∧ ceService e = svc ∧
  (∃ h p, responseIsStorable co (StatusCode e) h = Ok p ∧ ceHeader e = storableHeader h ∧
     VaryOn e = varyOn p) ∧
  ∃ asked q, sent_for asked q ∧ Method q ≠ MethodHead ∧
    (key_collision_free sha256_hex svc co variantFor r asked →
     Forall framable (key_fields svc (variantFor r) r co) →
     Forall framable (key_fields svc (variantFor asked) asked co) →
     same_resource co svc (variantFor r) r svc (variantFor asked) asked) ∧
    (let K := primaryKeyOf sha256_hex svc co variantFor r in
     variant_collision_free sha256_hex K (VaryOn e) q r →
     Forall framable (variant_fields K (VaryOn e) q) →
     Forall framable (variant_fields K (VaryOn e) r) →
     ∀ f, f ∈ VaryOn e → keyValueFor r f = keyValueFor q f).
Proof.
  intros Hhex Hempty Hr Hin.
  destruct (cache_reachable_ok _ _ _ _ _ Hhex _ _ Hempty Hr) as (ck & _ & Hp).
  destruct (pv_replayed _ _ _ _ _ _ Hp r e Hin) as [Ha ((asked & q & HK & Hq & Hm & Hkey) & Hst & Hsvc)].
  split.
  { unfold entryAnswers in Ha. destruct (entryIsResponse e); [|done].
    by destruct (String.eqb _ _). }
  split; [done|]. split; [done|]. exists asked, q. split; [done|]. split; [done|]. split.
  - intros Hcol F1 F2. by eapply cacheKey_inj.
  - cbn zeta. intros Hcol F1 F2 f Hf.
    destruct (entryAnswers_agree sha256_hex _ e q r Hkey ltac:(done) Hcol F1 F2 Ha) as (_ & H & _).
    by apply H.
Qed.

(** C25: a resource is fetched once at a time and nobody is left waiting.  In
    every reachable state a call has at most one task that will settle it, two
    tasks that lead open calls for the same resource lead the same call, and a
    request that waits on a call either finds it settled or has a task of its
    resource at work on it. *)
Theorem cache_single_flight `{F64 : Float64} sha256_hex {S : Type} `{!CacheStore S}
    `{!CacheStoreLaws S} svc co variantFor leasing (s0 : S) s :
  (∀ x, String.length (sha256_hex x) = 64%nat) → (∀ k e, ¬ cs_holds s0 k e) →
  cache_reachable sha256_hex svc co variantFor leasing s0 s →
  NoDup (leading (tasks s)) ∧
  (∀ t1 t2 c1 c2, t1 ∈ tasks s → t2 ∈ tasks s → leads t1 = Some c1 → leads t2 = Some c2 →
     settled (inflight s) !! c1 = None → settled (inflight s) !! c2 = None →
     task_key t1 = task_key t2 → c1 = c2) ∧
  (∀ r l c, TFollow r l c ∈ tasks s →
     is_Some (settled (inflight s) !! c) ∨
     ∃ t, t ∈ tasks s ∧ leads t = Some c ∧ task_key t = primary l).
Proof.
  intros Hhex Hempty Hr.
  destruct (cache_reachable_ok _ _ _ _ _ Hhex _ _ Hempty Hr) as (ck & [H1 H2 H3 H4 H5] & _).
  split; [done|]. split.
  - intros t1 t2 c1 c2 T1 T2 L1 L2 S1 S2 Hk.
    destruct (H1 t1 c1 T1 (leads_call _ _ L1)) as [E1 N1].
    destruct (H1 t2 c2 T2 (leads_call _ _ L2)) as [E2 N2].
    destruct (H3 c1 N1 S1) as [C1 _]. destruct (H3 c2 N2 S2) as [C2 _]. congruence.
  - intros r l c Ht. destruct (H1 _ c Ht eq_refl) as [E1 N1].
    destruct (settled (inflight s) !! c) eqn:Hs; [by left|right].
    destruct (H3 c N1 Hs) as [_ (t & Hin & Hl)%list_elem_of_omap].
    exists t. split; [done|]. split; [done|].
    destruct (H1 t c Hin (leads_call _ _ Hl)) as [E2 _]. cbn in E1. congruence.
Qed.

(** ** Witnesses *)

Module MiddlewareExamples.
Import CacheExamples.
#[local] Existing Instance CompressionExamples.milli_float.

Definition one_group (_ : Request) : string := "".
Definition empty_store : memoryCacheStore := newMemoryCacheStore 100000.

Lemma empty_store_holds_nothing : ∀ k e, ¬ cs_holds empty_store k e.
Proof. intros k e. cbn. unfold mem_holds. cbn. by rewrite lookup_empty. Qed.

Definition page_events : list upstream_event :=
  [UHeader html; UWriteHeader 200; UWrite "<p>"; UFlush; UWrite "hi"].

Lemma capture_faithful_witness :
  let c := crwFinish (foldl crw_event (newRecorder newRW co (req "GET" "/a" "text/html")) page_events) in
  ∃ e, crwEntry fake_hex "web" "kp:c:web:1" (req "GET" "/a" "text/html") 0 c = Some e ∧
    Body e = "<p>hi" ∧ Body e = rwBody (cwInner c).
Proof.
  eexists. split; [vm_compute; reflexivity|]. split; [reflexivity|].
  refine (proj1 (proj2 (capture_faithful fake_hex "web" co "kp:c:web:1" (req "GET" "/a" "text/html")
    0 page_events _ _ _))); vm_compute; reflexivity.
Defined.

(** An early hint in front of a 404: the copy takes the hint's block for the
    response's, and the client is told 200. *)
Example early_hints_lose_the_status :
  let c := crwFinish (foldl crw_event (newRecorder newRW co (req "GET" "/a" "text/html"))
             [UWriteHeader 103; UWriteHeader 404; UWrite "not found"]) in
  map (λ x, x.1.1) (rwSent (cwInner c)) = [103; 200] ∧ rwBody (cwInner c) = "not found".
Proof. vm_compute. done. Qed.

(** A page fetched by one client, and another that asked for its own copy with
    [no-cache] meanwhile. *)
Definition browser : Request := req "GET" "/a" "text/html".
Definition reload : Request :=
  with_ReqHeader (hdr_set (ReqHeader browser) "Cache-Control" "no-cache") browser.

(** A schedule: which task moves, and what its surroundings answer. *)
Inductive action :=
| ARequest (r : Request)
| ARead (now : Z)
| AServe (now : Z)
| AGo                       (** join the flight, lead it, or follow it to its end *)
| AEvent (ev : upstream_event)
| AReturn (now : Z)
| AWrite (now : Z).

Definition act (i : nat) (a : action) (s : CacheSystem) : option (CacheSystem (S:=memoryCacheStore)) :=
  let l1 := take i (tasks s) in
  let l2 := drop (S i) (tasks s) in
  let put x := mkCache (store s) (inflight s) (l1 ++ x :: l2) (replayed s) (crashed s) in
  match a with
  | ARequest r =>
      if Enabled co && requestMayUseCache r then
        Some (mkCache (store s) (inflight s)
          ((if requestAllowsStoredResponse r then TLookup r
            else TFetch r (newCacheLookup (primaryKeyOf fake_hex "web" co one_group r)) false)
             :: tasks s) (replayed s) (crashed s))
      else None
  | _ =>
      match tasks s !! i, a with
      | Some (TLookup r), ARead now =>
          let x := cs_get now (primaryKeyOf fake_hex "web" co one_group r) (store s) in
          Some (mkCache x.1 (inflight s)
                  (l1 ++ afterFirst fake_hex "web" co one_group r x.2 :: l2) (replayed s) (crashed s))
      | Some (TVariant r l), ARead now =>
          let x := cs_get now (variant l) (store s) in
          Some (mkCache x.1 (inflight s) (l1 ++ afterSecond r l x.2 :: l2) (replayed s) (crashed s))
      | Some (TServe r l e), AServe now =>
          Some match serveDecision fake_hex now r e l with
               | Refuse => put (TFetch r l true)
               | Hit => mkCache (store s) (inflight s) (l1 ++ l2) ((r, e) :: replayed s) (crashed s)
               | Stale => mkCache (store s) (inflight s) (l1 ++ TRefresh r l e :: l2)
                            ((r, e) :: replayed s) (crashed s)
               end
      | Some (TFetch r l al), AGo =>
          let x := join (primary l) (inflight s) in
          Some (mkCache (store s) x.1.1 (l1 ++ afterJoin r l al x.1.2 x.2 :: l2)
                  (replayed s) (crashed s))
      | Some (TLead r l al c), AGo => Some (put (forwardTask co r l (FLeader c) r))
      | Some (TFollow r l c), AGo =>
          match settled (inflight s) !! c with
          | Some (Some e) =>
              Some (if entryAnswers fake_hex e (primary l) r
                    then mkCache (store s) (inflight s) (l1 ++ l2) ((r, e) :: replayed s) (crashed s)
                    else put (forwardTask co r l FAlone r))
          | Some None => Some (put (forwardTask co r l FAlone r))
          | None => None
          end
      | Some (TForward r l fl q rec), AEvent ev =>
          Some (mkCache (store s) (settleEarly l fl rec (crw_event rec ev) (inflight s))
                  (l1 ++ TForward r l fl q (crw_event rec ev) :: l2) (replayed s) (crashed s))
      | Some (TForward r l fl q rec), AReturn now =>
          let x := forwardResult fake_hex "web" co now q l fl rec in
          Some (mkCache (store s) (settleEarly l fl rec (crwFinish rec) (inflight s))
                  (l1 ++ TStore l fl x.1 x.2 :: l2) (replayed s) (crashed s))
      | Some (TStore l fl ((k, e) :: w) res), AWrite now =>
          Some (mkCache (cs_set now k e (store s)) (inflight s) (l1 ++ TStore l fl w res :: l2)
                  (replayed s) (crashed s))
      | Some (TStore l fl [] res), AGo =>
          Some (mkCache (store s) (settleFlight l fl res (inflight s)) (l1 ++ l2)
                  (replayed s) (crashed s))
      | _, _ => None
      end
  end.

Fixpoint schedule (l : list (nat * action)) (s : CacheSystem) : option CacheSystem :=
  match l with
  | [] => Some s
  | (i, a) :: l => act i a s ≫= schedule l
  end.

#[local] Abbreviation step := (cache_step fake_hex "web" co one_group false).
#[local] Abbreviation reachable := (cache_reachable fake_hex "web" co one_group false empty_store).

Lemma act_sound i a s s' : act i a s = Some s' → step s s'.
Proof.
  unfold act. destruct a; [destruct (Enabled co && requestMayUseCache r) eqn:E;
    [|done]; apply andb_true_iff in E as [E1 E2]; intros [= <-]; by apply cs_request|..];
    destruct (tasks s !! i) as [t|] eqn:Ht; try done;
    apply take_drop_middle in Ht; symmetry in Ht; destruct t; try done;
    try by destruct writes as [|[? ?] ?].
  - intros [= <-]. eapply cs_first; [done|]. apply surjective_pairing.
  - intros [= <-]. eapply cs_second; [done|]. apply surjective_pairing.
  - intros Hs. apply (inj Some) in Hs as <-.
    exact (cs_serve fake_hex "web" co one_group false s asked l e _ _ now Ht).
  - intros [= <-]. eapply cs_join; [done|]. by destruct (join _ _) as [[? ?] ?].
  - intros [= <-]. by eapply cs_lead.
  - destruct (settled (inflight s) !! call) as [oe|] eqn:Es; [|done].
    pose proof (cs_follow fake_hex "web" co one_group false s asked l call oe _ _ Ht Es) as H.
    destruct oe as [e|]; intros Hs; injection Hs as <-; exact H.
  - destruct writes as [|[k e] w]; [|done]. intros [= <-]. by eapply cs_settle.
  - intros [= <-]. by eapply cs_event.
  - intros [= <-]. by eapply cs_returned.
  - destruct writes as [|[k e] w]; [done|]. intros [= <-].
    exact (cs_write fake_hex "web" co one_group false s l fl k e w res now _ _ Ht).
Qed.

Lemma schedule_sound l s s' : schedule l s = Some s' → rtc step s s'.
Proof.
  revert s. induction l as [|[i a] l IH]; intros s; cbn; [by intros [= ->]|].
  destruct (act i a s) as [s1|] eqn:E; [|done]. intros H. eapply rtc_l; [by eapply act_sound|].
  by apply IH.
Qed.

(** A page is fetched for one client and served to the next. *)
Definition fetched_then_served : list (nat * action) :=
  (0%nat, ARequest browser) ::
  map (pair 0%nat) [ARead 0; AGo; AGo; AEvent (UHeader html); AEvent (UWrite "<p>"); AReturn 0;
    AWrite 0; AWrite 0; AGo; ARequest browser; ARead 0; ARead 0; AServe second].

Definition served : option CacheSystem := schedule fetched_then_served (cache_init empty_store).

Example served_from_store :
  option_map (λ s, map (λ x, (x.1, Body x.2)) (replayed s)) served = Some [(browser, "<p>")].
Proof. vm_compute. reflexivity. Qed.

Definition the_page : CacheEntry :=
  match served with
  | Some s => match replayed s with (_, e) :: _ => e | [] => stored end
  | None => stored
  end.

Lemma cache_replay_sound_witness :
  clientAcceptsEncoding browser (hdr_get (ceHeader the_page) "Content-Encoding") = true ∧
  ceService the_page = "web".
Proof.
  destruct served as [s|] eqn:E; [|vm_compute in E; discriminate].
  destruct (cache_replay_sound fake_hex "web" co one_group false empty_store s browser the_page)
    as (H1 & H2 & _).
  - exact fake_hex_length.
  - exact empty_store_holds_nothing.
  - exact (schedule_sound _ _ _ E).
  - assert (Hl : option_map replayed served = Some [(browser, the_page)])
      by (vm_compute; reflexivity).
    rewrite E in Hl. injection Hl as Hl. rewrite Hl. left.
  - split; [exact H1|exact H2].
Defined.

(** The second client reloads while the first one's fetch is under way. *)
Definition reloading : list (nat * action) :=
  (0%nat, ARequest browser) ::
  map (pair 0%nat) [ARead 0; AGo; AGo; AEvent (UHeader html); ARequest reload; AGo].

Definition waiting : option CacheSystem := schedule reloading (cache_init empty_store).

Lemma cache_single_flight_witness :
  ∃ s, waiting = Some s ∧ length (tasks s) = 2%nat ∧ leading (tasks s) = [0%nat] ∧
    ∀ r l c, TFollow r l c ∈ tasks s →
      is_Some (settled (inflight s) !! c) ∨
      ∃ t, t ∈ tasks s ∧ leads t = Some c ∧ task_key t = primary l.
Proof.
  destruct waiting as [s|] eqn:E; [|vm_compute in E; discriminate].
  assert (H : option_map (λ s, (length (tasks s), leading (tasks s))) waiting = Some (2%nat, [0%nat]))
    by (vm_compute; reflexivity).
  rewrite E in H. injection H as H1 H2.
  exists s. split; [reflexivity|]. split; [exact H1|]. split; [exact H2|].
  refine (proj2 (proj2 (cache_single_flight fake_hex "web" co one_group false empty_store s
    fake_hex_length empty_store_holds_nothing (schedule_sound _ _ _ E)))).
Defined.

(** It asked for its own fetch and is handed the other client's. *)
Example reload_is_answered_from_anothers_fetch :
  requestAllowsStoredResponse reload = false ∧
  option_map (λ s, map (λ x, (x.1, Body x.2)) (replayed s))
    (schedule (reloading ++ map (pair 1%nat)
       [AEvent (UWrite "<p>"); AReturn 0; AWrite 0; AWrite 0; AGo] ++ [(0%nat, AGo)])
       (cache_init empty_store)) =
  Some [(reload, "<p>")].
Proof. split; vm_compute; reflexivity. Qed.

End MiddlewareExamples.
