(* ===== verification/CacheStoreRedis.v ===== *)
(** * The shared cache store: [internal/server/cache_store.go],
    [cache_store_redis.go], [cache_store_redis_lease.go] and
    [cache_store_redis_stats.go]

    Every proxy of a fleet keeps its entries in one Redis, and claims there the
    right to fetch a key on behalf of the others.  The server is third-party
    software: an interface with the documented behaviour of the commands that
    are used.  A proxy sends one command after the other, each of which the
    server carries out at one moment of its own clock; a command or its answer
    can get lost, the server can lose keys, and other clients share it. *)
From S2P Require Import Prelude GoStrings Http Compression CachePolicy LruIndex CacheLease CacheMiddleware.

(** ** The server *)

(** [rview s t k]: what the key holds when the server's clock reads [t], if
    nothing is done to it until then; a key expires at a moment of that clock. *)
Class Redis := {
  rserver : Type;
  rview : rserver → Z → string → option string;
  rlifetime : Z → Z;                                            (** of a duration, as the client asks for it *)
  rset : Z → string → string → Z → rserver → rserver;           (** SET key value PX lifetime *)
  rsetnx : Z → string → string → Z → rserver → rserver * bool;  (** the same, if there is no such key *)
  rdel : Z → list string → rserver → rserver * Z;
  rcompareDelete : Z → string → string → rserver → rserver;     (** the script [releaseCacheLease] *)
  rglob : string → string → bool }.                             (** does a pattern match a key? *)

(** The characters a pattern gives a meaning to. *)
Definition globSpecial : list ascii := ["\"; "*"; "?"; "["; "]"]%char.

Class RedisSpec `{Redis} : Prop := {
  (** what has expired stays away *)
  rview_expires s t t' k v : t ≤ t' → rview s t' k = Some v → rview s t k = Some v;
  (** durations are rounded down to what the server counts in, but not to nothing *)
  rlifetime_bounds d : 0 < d → 0 < rlifetime d ≤ Z.max d millisecond;
  rset_view now k v d s t k' :
    rview (rset now k v d s) t k' = if decide (k' = k) then (if t <? now + rlifetime d then Some v else None) else rview s t k';
  rsetnx_view now k v d s : rsetnx now k v d s = match rview s now k with Some _ => (s, false) | None => (rset now k v d s, true) end;
  rdel_view now ks s t k : rview (rdel now ks s).1 t k = if decide (k ∈ ks) then None else rview s t k;
  rcompareDelete_view now k v s t k' :
    rview (rcompareDelete now k v s) t k' = if decide (k' = k ∧ rview s now k = Some v) then None else rview s t k';
  (** patterns: an escaped character stands for itself, so does one without a
      meaning, and a star for anything *)
  rglob_escaped c p s : rglob (String "\" (String c p)) s = match s with String d s => Ascii.eqb c d && rglob p s | _ => false end;
  rglob_plain c p s : c ∉ globSpecial → rglob (String c p) s = match s with String d s => Ascii.eqb c d && rglob p s | _ => false end;
  rglob_star s : rglob "*" s = true }.

(** ** The choice of a store: [cache_store.go] *)

Definition CacheStoreMemory : string := "memory".
Definition fileCacheStoreScheme : string := "file://".

Definition isMemoryCacheStoreURL (url : string) : bool := String.eqb url "" || String.eqb url CacheStoreMemory.

Definition isRedisCacheStoreURL (url : string) : bool := HasPrefix url "redis://" || HasPrefix url "rediss://".

Definition fileCacheStoreDir (url : string) : option string :=
  if negb (HasPrefix url fileCacheStoreScheme) then None
  else let dir := TrimPrefix url fileCacheStoreScheme in
       if String.eqb dir "" || String.eqb dir "/" then None else Some dir.

(** What [NewCacheStore] opens, and why it does not; [redis.ParseURL] is an
    argument. *)
Inductive StoreChoice := OpenMemory | OpenRedis | OpenFile (dir : string).
Inductive StoreError := NamesNoDirectory | BadRedisURL | UnsupportedStore.

#[export] Instance StoreError_eq_dec : EqDecision StoreError := ltac:(solve_decision).

Definition chooseStore (parseURL : string → bool) (url : string) : result StoreError StoreChoice :=
  if isMemoryCacheStoreURL url then Ok OpenMemory
  else if isRedisCacheStoreURL url then (if parseURL url then Ok OpenRedis else Err BadRedisURL)
  else match fileCacheStoreDir url with Some dir => Ok (OpenFile dir) | None => Err UnsupportedStore end.

Definition ParseCacheStoreURL (parseURL : string → bool) (url : string) : result StoreError unit :=
  if isMemoryCacheStoreURL url then Ok tt
  else if HasPrefix url fileCacheStoreScheme then
    (match fileCacheStoreDir url with Some _ => Ok tt | None => Err NamesNoDirectory end)
  else if isRedisCacheStoreURL url then (if parseURL url then Ok tt else Err BadRedisURL)
  else Err UnsupportedStore.

(** The check at startup accepts what can be opened, and nothing else. *)
Lemma store_url_checked parseURL url :
  ParseCacheStoreURL parseURL url = Ok tt ↔ ∃ choice, chooseStore parseURL url = Ok choice.
Proof.
  unfold ParseCacheStoreURL, chooseStore. destruct (isMemoryCacheStoreURL url); [split; eauto|].
  destruct (HasPrefix url fileCacheStoreScheme) eqn:Hf.
  - assert (isRedisCacheStoreURL url = false) as ->.
    { apply HasPrefix_spec in Hf as [t ->]. reflexivity. }
    destruct (fileCacheStoreDir url); split; eauto; [done|]. intros [? [=]].
  - unfold fileCacheStoreDir. rewrite Hf. cbn [negb]. destruct (isRedisCacheStoreURL url); [destruct (parseURL url)|]; split; eauto; try done; intros [? [=]].
Qed.

(** ** The commands of a proxy *)

Section store.
Context `{R : Redis}.

(** An entry as bytes, in [encoding/gob]. *)
Variable encodeCacheEntry : CacheEntry → option string.
Variable decodeCacheEntry : string → option CacheEntry.

(** [Get], when the server answers; anything else is a miss. *)
Definition redisGet (now : Z) (key : string) (s : rserver) : option CacheEntry := data ← rview s now key; decodeCacheEntry data.

Definition redisSet (now : Z) (key : string) (e : CacheEntry) (s : rserver) : rserver :=
  if ttl e <=? 0 then s
  else match encodeCacheEntry e with
       | None => s
       | Some data => rset now key data (ttl e) s
       end.

(** The code goes character by character and these go byte by byte: the same for
    a name that is valid UTF-8. *)
Fixpoint escapeRedisGlob (value : string) : string :=
  match value with
  | "" => ""
  | String char value =>
      if bool_decide (char ∈ globSpecial) then String "\" (String char (escapeRedisGlob value)) else String char (escapeRedisGlob value)
  end.

Definition purgePattern (service : string) : string := cacheKeyPrefix +:+ escapeRedisGlob service +:+ ":*".

(** Is the entry read with [MGET] for this purge? *)
Definition belowPath (pathPrefix : string) (value : option string) : bool :=
  match value with
  | None => false
  | Some data => match decodeCacheEntry data with None => true | Some e => HasPrefix (cePath e) pathPrefix end
  end.

Definition keysBelowPath (now : Z) (keys : list string) (pathPrefix : string) (s : rserver) : list string :=
  if String.eqb pathPrefix "" || Nat.eqb (length keys) 0 then keys
  else List.filter (λ k, belowPath pathPrefix (rview s now k)) keys.

(** One round of [Purge] with the keys a scan answered; [times] are those of the
    read and of the removal. *)
Definition purgeRound (times : Z * Z) (pathPrefix : string) (keys : list string) (s : rserver) : rserver * Z :=
  match keysBelowPath times.1 keys pathPrefix s with
  | [] => (s, 0)
  | matched => rdel times.2 matched s
  end.

(** [Purge] when nobody else uses the server: the batches of the scan, up to
    its end ([None]: the server fails). *)
Fixpoint redisPurge (pathPrefix : string) (batches : list (option (Z * Z * list string))) (purged : Z) (s : rserver) : rserver * (Z * bool) :=
  match batches with
  | [] => (s, (purged, true))
  | None :: _ => (s, (purged, false))
  | Some (times, keys) :: batches =>
      let '(s, deleted) := purgeRound times pathPrefix keys s in
      redisPurge pathPrefix batches (purged + deleted) s
  end.

(** ** Leases *)

(** The claim reaches the server. *)
Definition claimLease (now : Z) (key token : string) (ttl : Z) (s : rserver) : rserver * bool := rsetnx now (cacheLeaseKey key) token ttl s.

(** [ProbeLease], when the server answers. *)
Definition ProbeLease (now : Z) (key : string) (s : rserver) : option CacheEntry * bool :=
  (redisGet now key s, match rview s now (cacheLeaseKey key) with Some _ => true | None => false end).

(** [ReleaseLease], when it reaches the server. *)
Definition ReleaseLease (now : Z) (l : CacheLease) (s : rserver) : rserver :=
  if mine l then rcompareDelete now (leaseKey l) (leaseToken l) s else s.

(** ** A fleet *)

(** A lease a proxy was granted: until when, and whether the server lost it. *)
Record Grant := mkGrant { gLease : CacheLease; gUntil : Z; gLost : bool }.

(** A purge between two of its commands. *)
Inductive PurgeTask :=
| PurgeScan (service pathPrefix : string)
| PurgeRead (service pathPrefix : string) (keys : list string) (more : bool)
| PurgeDelete (service pathPrefix : string) (matched : list string) (more : bool).

Record Fleet := mkFleet {
  flServer : rserver;
  flNow : Z;
  flBreakers : gmap nat leaseBreaker;
  flGrants : list Grant;
  flTokens : gset string;               (** every token there has been *)
  flPurges : gmap nat PurgeTask }.

Inductive FleetEvent :=
| FlSet (at_ : Z) (key : string) (e : CacheEntry)
| FlAnswer (at_ : Z) (key : string) (e : CacheEntry)
| FlOther.

Definition answer (now : Z) (key : string) (e : option CacheEntry) : FleetEvent := match e with Some e => FlAnswer now key e | None => FlOther end.

Definition with_server (s : rserver) (w : Fleet) : Fleet :=
  mkFleet s (flNow w) (flBreakers w) (flGrants w) (flTokens w) (flPurges w).

Definition with_breaker (p : nat) (b : leaseBreaker) (w : Fleet) : Fleet :=
  mkFleet (flServer w) (flNow w) (<[p := b]> (flBreakers w)) (flGrants w) (flTokens w) (flPurges w).

Definition with_grants (gs : list Grant) (w : Fleet) : Fleet :=
  mkFleet (flServer w) (flNow w) (flBreakers w) gs (flTokens w) (flPurges w).

Definition with_tokens (ts : gset string) (w : Fleet) : Fleet :=
  mkFleet (flServer w) (flNow w) (flBreakers w) (flGrants w) ts (flPurges w).

Definition with_purges (ps : gmap nat PurgeTask) (w : Fleet) : Fleet :=
  mkFleet (flServer w) (flNow w) (flBreakers w) (flGrants w) (flTokens w) ps.

Definition breakerOf (p : nat) (w : Fleet) : leaseBreaker := default newBreaker (flBreakers w !! p).

(** What a lease comes to for the proxy that asked for it. *)
Definition grant (now ttl : Z) (l : CacheLease) (gs : list Grant) : list Grant :=
  if mine l then mkGrant l (now + rlifetime ttl) false :: gs else gs.

(** The server has lost keys: the grants it has lost with them. *)
Definition lose (s : rserver) (now : Z) (g : Grant) : Grant :=
  mkGrant (gLease g) (gUntil g)
    (gLost g || (if decide (rview s now (leaseKey (gLease g)) = Some (leaseToken (gLease g))) then false else true)).

Definition asksForLease (now ttl : Z) (b : leaseBreaker) : bool := (0 <? ttl) && negb (breaker_open now b).2.

(** The purge goes on, or has ended. *)
Definition purgeNext (i : nat) (service pathPrefix : string) (more : bool) (ps : gmap nat PurgeTask) : gmap nat PurgeTask :=
  if more then <[i := PurgeScan service pathPrefix]> ps else delete i ps.

Inductive fleet_step (w : Fleet) : FleetEvent → Fleet → Prop :=
| fl_tick t :
    flNow w ≤ t → fleet_step w FlOther (mkFleet (flServer w) t (flBreakers w) (flGrants w) (flTokens w) (flPurges w))
| fl_lose s :
    (∀ k, (∀ t, flNow w ≤ t → rview s t k = None) ∨ (∀ t, flNow w ≤ t → rview s t k = rview (flServer w) t k)) →
    fleet_step w FlOther (with_grants (lose s (flNow w) <$> flGrants w) (with_server s w))
| fl_others s :
    (∀ t k, flNow w ≤ t → HasPrefix k cacheKeyPrefix || HasPrefix k cacheLeaseKeyPrefix = true → rview s t k = rview (flServer w) t k) →
    fleet_step w FlOther (with_server s w)
| fl_get key : fleet_step w (answer (flNow w) key (redisGet (flNow w) key (flServer w))) w
| fl_set key e :
    HasPrefix key cacheKeyPrefix = true → fleet_step w (FlSet (flNow w) key e) (with_server (redisSet (flNow w) key e (flServer w)) w)
| fl_acquire p key token ttl local later heard :
    let b := breakerOf p w in
    asksForLease local ttl b = true → token ∉ flTokens w → token ≠ "" →
    let claim := claimLease (flNow w) key token ttl (flServer w) in
    let r := AcquireLease local ttl key (Some token) (if heard : bool then Some claim.2 else None) later b in
    fleet_step w FlOther
      (with_server claim.1 (with_breaker p r.1 (with_grants (grant (flNow w) ttl r.2 (flGrants w)) (with_tokens ({[token]} ∪ flTokens w) w))))
| fl_acquire_unheard p key token ttl local later :
    let r := AcquireLease local ttl key token None later (breakerOf p w) in
    fleet_step w FlOther (with_breaker p r.1 (with_grants (grant (flNow w) ttl r.2 (flGrants w)) w))
| fl_probe p key heard later :
    let r := ProbeLease (flNow w) key (flServer w) in
    fleet_step w (answer (flNow w) key (if heard : bool then r.1 else None))
      (with_breaker p (if heard then breaker_succeeded (breakerOf p w) else breaker_failed later (breakerOf p w)) w)
| fl_release g gs1 gs2 arrives :
    flGrants w = gs1 ++ g :: gs2 →
    fleet_step w FlOther
      (with_grants (gs1 ++ gs2) (with_server (if arrives : bool then ReleaseLease (flNow w) (gLease g) (flServer w) else flServer w) w))
| fl_forget g gs1 gs2 : flGrants w = gs1 ++ g :: gs2 → fleet_step w FlOther (with_grants (gs1 ++ gs2) w)
| fl_purge i service pathPrefix :
    flPurges w !! i = None → fleet_step w FlOther (with_purges (<[i := PurgeScan service pathPrefix]> (flPurges w)) w)
| fl_scan i service pathPrefix keys more :
    flPurges w !! i = Some (PurgeScan service pathPrefix) → Forall (λ k, rglob (purgePattern service) k = true) keys →
    fleet_step w FlOther (with_purges (<[i := PurgeRead service pathPrefix keys more]> (flPurges w)) w)
| fl_read i service pathPrefix keys more :
    flPurges w !! i = Some (PurgeRead service pathPrefix keys more) →
    let matched := keysBelowPath (flNow w) keys pathPrefix (flServer w) in
    fleet_step w FlOther (with_purges
      (if Nat.eqb (length matched) 0 then purgeNext i service pathPrefix more (flPurges w)
       else <[i := PurgeDelete service pathPrefix matched more]> (flPurges w)) w)
| fl_delete i service pathPrefix matched more :
    flPurges w !! i = Some (PurgeDelete service pathPrefix matched more) →
    fleet_step w FlOther
      (with_server (rdel (flNow w) matched (flServer w)).1 (with_purges (purgeNext i service pathPrefix more (flPurges w)) w))
| fl_purge_fails i task deleted :
    flPurges w !! i = Some task →
    fleet_step w FlOther
      (with_server (match deleted, task with true, PurgeDelete _ _ matched _ => (rdel (flNow w) matched (flServer w)).1 | _, _ => flServer w end)
        (with_purges (delete i (flPurges w)) w)).

(** A fleet that starts on a server with nothing of its own. *)
Definition newFleet (s : rserver) (now : Z) : Fleet := mkFleet s now ∅ [] ∅ ∅.

Definition nothing_ours (s : rserver) (now : Z) : Prop :=
  ∀ t k, now ≤ t → HasPrefix k cacheKeyPrefix || HasPrefix k cacheLeaseKeyPrefix = true → rview s t k = None.

(** What has happened, latest last. *)
Inductive fleet_reachable (w0 : Fleet) : list FleetEvent → Fleet → Prop :=
| fl_start : fleet_reachable w0 [] w0
| fl_more evs w ev w' : fleet_reachable w0 evs w → fleet_step w ev w' → fleet_reachable w0 (evs ++ [ev]) w'.

End store.

(** ** Patterns *)

Section patterns.
Context `{R : Redis} {RS : RedisSpec}.

Lemma glob_escaped value p s : rglob (escapeRedisGlob value +:+ p) s = true ↔ ∃ rest, s = value +:+ rest ∧ rglob p rest = true.
Proof.
  revert s. induction value as [|c value IH]; intros s.
  { cbn. split; [intros H; by exists s|]. intros (rest & -> & H). exact H. }
  assert (Hstep : rglob (escapeRedisGlob (String c value) +:+ p) s = match s with String d s => Ascii.eqb c d && rglob (escapeRedisGlob value +:+ p) s | _ => false end).
  { cbn [escapeRedisGlob]. case_bool_decide as Hc; cbn [String.append]; [apply rglob_escaped|by apply rglob_plain]. }
  rewrite Hstep. destruct s as [|d s]; [split; [done|]; by intros (rest & [=] & _)|]. rewrite andb_true_iff, IH. split.
  - intros [->%Ascii.eqb_eq (rest & -> & H)]. by exists rest.
  - intros (rest & [= -> ->] & H). rewrite Ascii.eqb_refl. eauto.
Qed.

Lemma glob_literal c p s : c ∉ globSpecial → rglob (String c p) s = true ↔ ∃ rest, s = String c rest ∧ rglob p rest = true.
Proof.
  intros Hc. rewrite rglob_plain by done. destruct s as [|d s]; [split; [done|]; by intros (? & [=] & _)|].
  rewrite andb_true_iff. split; [intros [->%Ascii.eqb_eq ?]; eauto|]. intros (rest & [= -> ->] & H). by rewrite Ascii.eqb_refl.
Qed.

Lemma colon_is_plain : ":"%char ∉ globSpecial.
Proof. apply (bool_decide_unpack _). vm_compute. exact I. Qed.

(** A purge's pattern matches the keys that begin like those of the service. *)
Lemma purge_pattern service k :
  rglob (purgePattern service) k = true ↔ ∃ rest, k = cacheKeyPrefix +:+ service +:+ ":" +:+ rest.
Proof.
  assert (Hpre : ∀ p s, rglob (cacheKeyPrefix +:+ p) s = true ↔ ∃ rest, s = cacheKeyPrefix +:+ rest ∧ rglob p rest = true).
  { intros p s. replace cacheKeyPrefix with (escapeRedisGlob cacheKeyPrefix) at 1 by reflexivity. apply glob_escaped. }
  unfold purgePattern. rewrite Hpre. split.
  - intros (s1 & -> & H). apply glob_escaped in H as (s2 & -> & H). apply glob_literal in H as (s3 & -> & _); [by exists s3|exact colon_is_plain].
  - intros (rest & ->). exists (service +:+ ":" +:+ rest). split; [done|]. apply glob_escaped. exists (":" +:+ rest). split; [done|].
    apply glob_literal; [exact colon_is_plain|]. exists rest. split; [done|]. apply rglob_star.
Qed.

Lemma purge_matches_entries service k : rglob (purgePattern service) k = true → HasPrefix k cacheKeyPrefix = true.
Proof. rewrite purge_pattern. intros (rest & ->). apply HasPrefix_app. Qed.

End patterns.

(** ** The fleet's invariants *)

Section fleet_proofs.
Context `{R : Redis} {RS : RedisSpec}.
Variable encodeCacheEntry : CacheEntry → option string.
Variable decodeCacheEntry : string → option CacheEntry.
Hypothesis decode_encode : ∀ e data, encodeCacheEntry e = Some data → decodeCacheEntry data = Some e.

Abbreviation step := (fleet_step encodeCacheEntry decodeCacheEntry).

Lemma lease_key_prefix key : HasPrefix (cacheLeaseKey key) cacheLeaseKeyPrefix = true.
Proof. apply HasPrefix_app. Qed.

Lemma lease_no_entry k : HasPrefix k cacheLeaseKeyPrefix = true → HasPrefix k cacheKeyPrefix = false.
Proof. intros [t ->]%HasPrefix_spec. reflexivity. Qed.

Lemma below_incl now keys prefix (s : rserver) k : k ∈ keysBelowPath decodeCacheEntry now keys prefix s → k ∈ keys.
Proof. unfold keysBelowPath. case_match; [done|]. rewrite !list_elem_of_In, List.filter_In. tauto. Qed.

(** Every key a purge has in hand is one of an entry. *)
Definition purge_ok (task : PurgeTask) : Prop :=
  match task with
  | PurgeScan _ _ => True
  | PurgeRead _ _ keys _ | PurgeDelete _ _ keys _ => Forall (λ k, HasPrefix k cacheKeyPrefix = true) keys
  end.

(** A grant the server still honours: nothing will take it away before its end. *)
Definition honoured (s : rserver) (now : Z) (g : Grant) : Prop :=
  gLost g = false → ∀ t, now ≤ t → t < gUntil g → rview s t (leaseKey (gLease g)) = Some (leaseToken (gLease g)).

Definition grant_ok (w : Fleet) (g : Grant) : Prop :=
  mine (gLease g) = true ∧ HasPrefix (leaseKey (gLease g)) cacheLeaseKeyPrefix = true ∧ leaseToken (gLease g) ∈ flTokens w ∧
  honoured (flServer w) (flNow w) g.

Definition fleet_ok (w : Fleet) : Prop :=
  Forall (grant_ok w) (flGrants w) ∧ NoDup (leaseToken ∘ gLease <$> flGrants w) ∧ map_Forall (λ _, purge_ok) (flPurges w).

(** Values of entries are what was set, for as long as it lives. *)
Definition entries_ok (evs : list FleetEvent) (w : Fleet) : Prop :=
  ∀ t k data, flNow w ≤ t → HasPrefix k cacheKeyPrefix = true → rview (flServer w) t k = Some data →
    ∃ t0 e, FlSet t0 k e ∈ evs ∧ encodeCacheEntry e = Some data ∧ t0 ≤ flNow w ∧ t < t0 + rlifetime (ttl e).

Lemma grant_acquired local ttl key token reply later b now gs :
  let r := AcquireLease local ttl key token reply later b in
  grant now ttl r.2 gs = gs ∨
  (∃ t, token = Some t ∧ t ≠ "" ∧ reply = Some true ∧ 0 < ttl ∧
     grant now ttl r.2 gs = mkGrant (mkLease (Some CacheLeaseAcquired) (cacheLeaseKey key) t) (now + rlifetime ttl) false :: gs).
Proof.
  cbn zeta. unfold AcquireLease. destruct (Z.leb_spec ttl 0); [by left|]. destruct (breaker_open local b) as [b1 []]; [by left|].
  destruct token as [t|]; [|by left]. destruct reply as [[]|]; [|by left..]. cbn [snd]. unfold grant. destruct (mine _) eqn:Hm; [|by left].
  right. exists t. split; [done|]. split; [|done]. intros ->. unfold mine in Hm. cbn in Hm. done.
Qed.

(** Steps that leave the leases' keys alone keep the grants. *)
Lemma grants_kept s w :
  Forall (grant_ok w) (flGrants w) →
  (∀ t k, flNow w ≤ t → HasPrefix k cacheLeaseKeyPrefix = true → rview s t k = rview (flServer w) t k) →
  Forall (λ g, mine (gLease g) = true ∧ HasPrefix (leaseKey (gLease g)) cacheLeaseKeyPrefix = true ∧ leaseToken (gLease g) ∈ flTokens w ∧ honoured s (flNow w) g) (flGrants w).
Proof.
  intros Hg Hs. eapply Forall_impl; [exact Hg|]. intros g (H1 & H2 & H3 & H4). split; [done|]. split; [done|]. split; [done|].
  intros Hl t Ht Hu. rewrite Hs by done. by apply H4.
Qed.

Lemma del_keeps_leases matched s now t k :
  Forall (λ k, HasPrefix k cacheKeyPrefix = true) matched → now ≤ t → HasPrefix k cacheLeaseKeyPrefix = true → rview (rdel now matched s).1 t k = rview s t k.
Proof.
  intros Hm Ht Hk. rewrite rdel_view by done. case_decide as Hin; [|done]. apply (proj1 (Forall_forall _ _) Hm) in Hin. by rewrite (lease_no_entry _ Hk) in Hin.
Qed.

Lemma set_keeps_leases key e s now t k :
  HasPrefix key cacheKeyPrefix = true → now ≤ t → HasPrefix k cacheLeaseKeyPrefix = true → rview (redisSet encodeCacheEntry now key e s) t k = rview s t k.
Proof.
  intros Hkey Ht Hk. unfold redisSet. case_match; [done|]. case_match; [|done]. rewrite rset_view by done.
  case_decide as Heq; [|done]. subst. by rewrite (lease_no_entry _ Hk) in Hkey.
Qed.

Lemma purge_next_ok i service prefix more (ps : gmap nat PurgeTask) :
  map_Forall (λ _, purge_ok) ps → map_Forall (λ _, purge_ok) (purgeNext i service prefix more ps).
Proof. intros H. unfold purgeNext. destruct more; [by apply map_Forall_insert_2|by apply map_Forall_delete]. Qed.


Lemma ok_server s w :
  fleet_ok w → (∀ t k, flNow w ≤ t → HasPrefix k cacheLeaseKeyPrefix = true → rview s t k = rview (flServer w) t k) → fleet_ok (with_server s w).
Proof. intros (Hg & Hn & Hp) Hs. split; [|done]. exact (grants_kept s w Hg Hs). Qed.

Lemma ok_breaker p b w : fleet_ok w → fleet_ok (with_breaker p b w).
Proof. done. Qed.

Lemma ok_purges ps w : fleet_ok w → map_Forall (λ _, purge_ok) ps → fleet_ok (with_purges ps w).
Proof. by intros (Hg & Hn & _) Hp. Qed.

Lemma ok_drop g gs1 gs2 w : fleet_ok w → flGrants w = gs1 ++ g :: gs2 → fleet_ok (with_grants (gs1 ++ gs2) w).
Proof.
  intros (Hg & Hn & Hp) Heq. rewrite Heq in Hg, Hn. split; [|split; [|done]].
  - apply Forall_app in Hg as [H1 [_ H2]%Forall_cons]. by apply Forall_app.
  - cbn [flGrants with_grants]. rewrite fmap_app in Hn |- *. rewrite fmap_cons in Hn. apply NoDup_app in Hn as (H1 & H2 & [_ H3]%NoDup_cons).
    apply NoDup_app. split; [done|]. split; [set_solver|done].
Qed.

(** A released lease takes nobody else's with it. *)
Lemma ok_release g gs1 gs2 w :
  fleet_ok w → flGrants w = gs1 ++ g :: gs2 →
  fleet_ok (with_grants (gs1 ++ gs2) (with_server (ReleaseLease (flNow w) (gLease g) (flServer w)) w)).
Proof.
  intros Hok Heq. pose proof (ok_drop g gs1 gs2 w Hok Heq) as (Hg' & Hn' & Hp'). pose proof Hok as (Hg & Hn & _). split; [|done].
  cbn [flGrants with_grants flServer with_server flNow flTokens] in Hg' |- *. rewrite Forall_forall in Hg' |- *. intros g' Hin.
  destruct (Hg' g' Hin) as (H1 & H2 & H3 & H4). split; [done|]. split; [done|]. split; [done|]. intros Hl t Ht Hu.
  change (flNow w ≤ t) in Ht. change (rview (ReleaseLease (flNow w) (gLease g) (flServer w)) t (leaseKey (gLease g')) = Some (leaseToken (gLease g'))).
  specialize (H4 Hl). cbn [flNow flServer with_grants] in H4. unfold ReleaseLease. destruct (mine (gLease g)); [|by apply H4]. rewrite rcompareDelete_view by done.
  case_decide as Hcase; [|by apply H4]. exfalso. destruct Hcase as [Hk Hv]. pose proof (H4 (flNow w) ltac:(lia) ltac:(lia)) as Hme. rewrite Hk, Hv in Hme.
  injection Hme as Htok. rewrite Heq, fmap_app, fmap_cons in Hn. apply NoDup_app in Hn as (_ & Hn1 & [Hn2 _]%NoDup_cons).
  cbn in Hn1, Hn2. apply elem_of_app in Hin as [Hin|Hin].
  - apply (Hn1 (leaseToken (gLease g'))); [apply list_elem_of_fmap; by exists g'|]. rewrite <-Htok. by left.
  - apply Hn2. rewrite Htok. apply list_elem_of_fmap. by exists g'.
Qed.

(** A lease is granted only when the server honours none for the key. *)
Lemma ok_claim key token ttl gs' w :
  fleet_ok w → token ∉ flTokens w → 0 < ttl →
  gs' = flGrants w ∨ (claimLease (flNow w) key token ttl (flServer w)).2 = true ∧ token ≠ "" ∧
    gs' = mkGrant (mkLease (Some CacheLeaseAcquired) (cacheLeaseKey key) token) (flNow w + rlifetime ttl) false :: flGrants w →
  fleet_ok (with_server (claimLease (flNow w) key token ttl (flServer w)).1 (with_grants gs' (with_tokens ({[token]} ∪ flTokens w) w))).
Proof.
  intros (Hg & Hn & Hp) Hfresh Httl Hgs. set (s := (claimLease (flNow w) key token ttl (flServer w)).1).
  assert (Hold : Forall (λ g, mine (gLease g) = true ∧ HasPrefix (leaseKey (gLease g)) cacheLeaseKeyPrefix = true ∧
                    leaseToken (gLease g) ∈ {[token]} ∪ flTokens w ∧ honoured s (flNow w) g) (flGrants w)).
  { eapply Forall_impl; [exact Hg|]. intros g (H1 & H2 & H3 & H4). split; [done|]. split; [done|]. split; [set_solver|]. intros Hl t Ht Hu.
    pose proof (H4 Hl (flNow w) ltac:(lia) ltac:(lia)) as Hnow. subst s. unfold claimLease. rewrite rsetnx_view.
    destruct (rview (flServer w) (flNow w) (cacheLeaseKey key)) eqn:Hv; cbn [fst]; [by apply H4|]. rewrite rset_view by done.
    case_decide as Heq; [|by apply H4]. rewrite Heq in Hnow. congruence. }
  split; [|split; [|done]]; cbn [flGrants with_server with_grants with_tokens]; destruct Hgs as [->|(Hok & Hne & ->)]; [exact Hold| |exact Hn|].
  - apply Forall_cons. split; [|exact Hold]. unfold grant_ok. cbn. split; [|split; [apply lease_key_prefix|split; [set_solver|]]].
    + unfold mine. cbn. apply negb_true_iff. by apply String.eqb_neq.
    + intros _ t Ht Hu. cbn in Hu |- *. subst s. unfold claimLease in Hok |- *. rewrite rsetnx_view in Hok |- *.
      destruct (rview (flServer w) (flNow w) (cacheLeaseKey key)); [done|]. cbn [fst]. rewrite rset_view by done. rewrite decide_True by done.
      destruct (Z.ltb_spec t (flNow w + rlifetime ttl)); [done|lia].
  - rewrite fmap_cons. apply NoDup_cons. split; [|exact Hn]. cbn. intros Hin. apply list_elem_of_fmap in Hin as (g & Heq & Hin).
    apply (proj1 (Forall_forall _ _) Hg) in Hin as (_ & _ & Htok & _). cbn in Heq. by rewrite <-Heq in Htok.
Qed.

Lemma ok_lose s w :
  fleet_ok w → (∀ k, (∀ t, flNow w ≤ t → rview s t k = None) ∨ (∀ t, flNow w ≤ t → rview s t k = rview (flServer w) t k)) →
  fleet_ok (with_grants (lose s (flNow w) <$> flGrants w) (with_server s w)).
Proof.
  intros (Hg & Hn & Hp) Hs. split; [|split; [|done]]; cbn [flGrants with_grants].
  - apply Forall_fmap. eapply Forall_impl; [exact Hg|]. intros g (H1 & H2 & H3 & H4). split; [done|]. split; [done|]. split; [done|].
    unfold honoured, lose. cbn. intros [Hl Hlost]%orb_false_iff t Ht Hu. case_decide as Hv; [|done].
    destruct (Hs (leaseKey (gLease g))) as [Hnone|Hsame]; [rewrite Hnone in Hv; [done|lia]|]. rewrite Hsame by done. by apply H4.
  - by rewrite <-list_fmap_compose.
Qed.

Lemma fleet_step_ok w ev w' : fleet_ok w → step w ev w' → fleet_ok w'.
Proof.
  intros Hok Hstep. pose proof Hok as (Hg & Hn & Hp). destruct Hstep.
  - split; [|done]. eapply Forall_impl; [exact Hg|]. intros g (H1 & H2 & H3 & H4). split; [done|]. split; [done|]. split; [done|].
    intros Hl t' Ht' Hu. apply H4; [done| |done]. cbn in Ht'. lia.
  - by apply ok_lose.
  - apply ok_server; [done|]. intros t k Ht Hk. apply H; [done|]. by rewrite Hk, orb_true_r.
  - done.
  - apply ok_server; [done|]. intros t k Ht Hk. by apply set_keeps_leases.
  - apply (ok_breaker p r.1 (with_server claim.1 (with_grants (grant (flNow w) ttl r.2 (flGrants w)) (with_tokens ({[token]} ∪ flTokens w) w)))).
    assert (Httl : 0 < ttl) by (unfold asksForLease in H; by apply andb_true_iff in H as [H%Z.ltb_lt _]).
    apply ok_claim; [done..|].
    destruct (grant_acquired local ttl key (Some token) (if heard then Some claim.2 else None) later b (flNow w) (flGrants w))
      as [Hgr|(t & [= <-] & Hne & Hrep & _ & Hgr)]; fold r in Hgr; [by left|right].
    split; [|done]. destruct heard; [|done]. by injection Hrep.
  - destruct (grant_acquired local ttl key token None later (breakerOf p w) (flNow w) (flGrants w)) as [Hgr|(t & _ & _ & [=] & _)].
    fold r in Hgr. rewrite Hgr. by apply (ok_breaker p r.1 w).
  - by apply ok_breaker.
  - destruct arrives; [by eapply ok_release|]. by eapply ok_drop.
  - by eapply ok_drop.
  - apply ok_purges; [done|]. by apply map_Forall_insert_2.
  - apply ok_purges; [done|]. apply map_Forall_insert_2; [|done]. eapply Forall_impl; [exact H0|]. intros k. apply purge_matches_entries.
  - pose proof (Hp _ _ H) as Hkeys. cbn in Hkeys. apply ok_purges; [done|]. destruct (Nat.eqb (length matched) 0); [by apply purge_next_ok|].
    apply map_Forall_insert_2; [|done]. apply Forall_forall. intros k Hk. apply (proj1 (Forall_forall _ _) Hkeys). by eapply below_incl.
  - pose proof (Hp _ _ H) as Hkeys. apply (ok_server _ (with_purges _ w)); [apply ok_purges; [done|by apply purge_next_ok]|].
    intros t k Ht Hk. by apply del_keeps_leases.
  - apply (ok_server _ (with_purges _ w)); [apply ok_purges; [done|by apply map_Forall_delete]|]. intros t k Ht Hk.
    destruct deleted, task; try done. apply del_keeps_leases; [exact (Hp _ _ H)|done|done].
Qed.

(** *** Entries *)

Lemma entries_weaken ev evs w s :
  entries_ok evs w → (∀ t k data, flNow w ≤ t → HasPrefix k cacheKeyPrefix = true → rview s t k = Some data → rview (flServer w) t k = Some data) →
  entries_ok (evs ++ [ev]) (with_server s w).
Proof.
  intros He Hs t k data Ht Hk Hv. destruct (He t k data Ht Hk (Hs _ _ _ Ht Hk Hv)) as (t0 & e & Hin & H). exists t0, e. split; [|exact H].
  apply elem_of_app. by left.
Qed.

Lemma claim_keeps_entries now key token ttl s t k :
  now ≤ t → HasPrefix k cacheKeyPrefix = true → rview (claimLease now key token ttl s).1 t k = rview s t k.
Proof.
  intros Ht Hk. unfold claimLease. rewrite rsetnx_view. case_match; [done|]. cbn [fst]. rewrite rset_view by done.
  case_decide as Heq; [|done]. subst. by rewrite lease_key_is_no_entry in Hk.
Qed.

Lemma del_only_removes now ks s t k data : now ≤ t → rview (rdel now ks s).1 t k = Some data → rview s t k = Some data.
Proof. intros Ht. rewrite rdel_view by done. by case_decide. Qed.

Lemma release_only_removes now l s t k data : now ≤ t → rview (ReleaseLease now l s) t k = Some data → rview s t k = Some data.
Proof. intros Ht. unfold ReleaseLease. destruct (mine l); [|done]. rewrite rcompareDelete_view by done. by case_decide. Qed.

Lemma fleet_entries_step evs w ev w' : entries_ok evs w → step w ev w' → entries_ok (evs ++ [ev]) w'.
Proof.
  intros He Hstep. assert (Hsame : ∀ ev, entries_ok (evs ++ [ev]) w) by (intros ev0 t k data Ht Hk Hv; destruct (He t k data Ht Hk Hv) as (t0 & e & Hin & H); exists t0, e; set_solver).
  destruct Hstep; try exact (Hsame _).
  - intros t' k data Ht' Hk Hv. cbn in Ht', Hv. destruct (He t' k data ltac:(lia) Hk Hv) as (t0 & e & Hin & Henc & Hle & Hlt).
    exists t0, e. split; [apply elem_of_app; by left|]. split; [done|]. cbn. split; [lia|done].
  - change (entries_ok (evs ++ [FlOther]) (with_server s w)). apply entries_weaken; [done|]. intros t k data Ht Hk Hv.
    destruct (H k) as [Hnone|Hs]; [by rewrite Hnone in Hv|by rewrite <-Hs].
  - apply entries_weaken; [done|]. intros t k data Ht Hk. rewrite H; [done|done|]. by rewrite Hk.
  - intros t k data Ht Hk Hv. change (flNow w ≤ t) in Ht. cbn [flServer with_server] in Hv. unfold redisSet in Hv.
    destruct (Z.leb_spec (ttl e) 0); [by apply (Hsame (FlSet (flNow w) key e))|]. destruct (encodeCacheEntry e) as [d|] eqn:Henc; [|by apply (Hsame (FlSet (flNow w) key e))].
    rewrite rset_view in Hv by done. case_decide as Heq; [|by apply (Hsame (FlSet (flNow w) key e))]. subst k.
    destruct (Z.ltb_spec t (flNow w + rlifetime (ttl e))); [|done]. injection Hv as <-. exists (flNow w), e. split; [set_solver|]. split; [done|]. split; [cbn; lia|done].
  - change (entries_ok (evs ++ [FlOther]) (with_server claim.1 w)). apply entries_weaken; [done|]. intros t k data Ht Hk. subst claim. by rewrite claim_keeps_entries.
  - change (entries_ok (evs ++ [FlOther]) (with_server (if arrives then ReleaseLease (flNow w) (gLease g) (flServer w) else flServer w) w)).
    apply entries_weaken; [done|]. intros t k data Ht Hk. destruct arrives; [by apply release_only_removes|done].
  - change (entries_ok (evs ++ [FlOther]) (with_server (rdel (flNow w) matched (flServer w)).1 w)). apply entries_weaken; [done|]. intros t k data Ht Hk. by apply del_only_removes.
  - destruct deleted, task; try exact (Hsame _). change (entries_ok (evs ++ [FlOther]) (with_server (rdel (flNow w) matched (flServer w)).1 w)).
    apply entries_weaken; [done|]. intros t k data Ht Hk. by apply del_only_removes.
Qed.

(** What is answered was set. *)
Definition answers_ok (evs : list FleetEvent) : Prop :=
  ∀ t k e, FlAnswer t k e ∈ evs → HasPrefix k cacheKeyPrefix = true → ∃ t0, FlSet t0 k e ∈ evs ∧ t0 ≤ t < t0 + rlifetime (ttl e).

Lemma answers_weaken evs ev : answers_ok evs → (∀ t k e, ev = FlAnswer t k e → HasPrefix k cacheKeyPrefix = true → ∃ t0, FlSet t0 k e ∈ evs ∧ t0 ≤ t < t0 + rlifetime (ttl e)) →
  answers_ok (evs ++ [ev]).
Proof.
  intros Ha Hev t k e Hin Hk. assert (∃ t0, FlSet t0 k e ∈ evs ∧ t0 ≤ t < t0 + rlifetime (ttl e)) as (t0 & H & Ht).
  { apply elem_of_app in Hin as [Hin|Hin]; [by apply Ha|]. apply list_elem_of_singleton in Hin. by apply Hev. }
  exists t0. split; [apply elem_of_app; by left|done].
Qed.

Lemma get_answers evs w key e :
  entries_ok evs w → redisGet decodeCacheEntry (flNow w) key (flServer w) = Some e → HasPrefix key cacheKeyPrefix = true →
  ∃ t0, FlSet t0 key e ∈ evs ∧ t0 ≤ flNow w < t0 + rlifetime (ttl e).
Proof.
  intros He Hget Hk. unfold redisGet in Hget. destruct (rview (flServer w) (flNow w) key) as [data|] eqn:Hv; [|done]. cbn in Hget.
  destruct (He (flNow w) key data (Z.le_refl _) Hk Hv) as (t0 & e0 & Hin & Henc & Hle & Hlt).
  apply decode_encode in Henc. assert (e0 = e) as -> by congruence. eauto.
Qed.

Lemma fleet_answers_step evs w ev w' : entries_ok evs w → answers_ok evs → step w ev w' → answers_ok (evs ++ [ev]).
Proof.
  intros He Ha Hstep. apply answers_weaken; [done|]. intros t k e Heq Hk. destruct Hstep; try discriminate Heq.
  - unfold answer in Heq. destruct (redisGet _ _ _ _) as [e'|] eqn:Hg; [|done]. injection Heq as <- <- <-. by apply get_answers.
  - unfold answer in Heq. destruct heard; [|done]. cbn [fst] in Heq. subst r. cbn in Heq.
    destruct (redisGet _ _ _ _) as [e'|] eqn:Hg; [|done]. injection Heq as <- <- <-. by apply get_answers.
Qed.

Lemma fleet_reachable_ok s now evs w :
  nothing_ours s now → fleet_reachable encodeCacheEntry decodeCacheEntry (newFleet s now) evs w → fleet_ok w ∧ entries_ok evs w ∧ answers_ok evs.
Proof.
  intros Hs Hr. induction Hr as [|evs w ev w' Hr (H1 & H2 & H3) Hstep].
  - split; [|split].
    + split; [by apply Forall_nil|]. split; [apply NoDup_nil_2|apply map_Forall_empty].
    + intros t k data Ht Hk Hv. cbn in Ht, Hv. rewrite Hs in Hv; [done|done|by rewrite Hk].
    + intros t k e Hin. by apply not_elem_of_nil in Hin.
  - split; [by eapply fleet_step_ok|]. split; [by eapply fleet_entries_step|by eapply fleet_answers_step].
Qed.

(** ** Theorems *)

(** C26: one proxy of the fleet fetches a key.  Whatever the proxies, their
    purges and other clients do, in whatever order, and whichever commands,
    answers and keys get lost: of two leases for one key that the server has not
    lost and whose time has not run out by its clock, one is the other, a release
    takes away nobody else's, and while there is one, everybody else who gets an
    answer is told that the key is taken. *)
Theorem lease_exclusive s now evs w :
  nothing_ours s now → fleet_reachable encodeCacheEntry decodeCacheEntry (newFleet s now) evs w →
  (∀ i j g1 g2, flGrants w !! i = Some g1 → flGrants w !! j = Some g2 → leaseKey (gLease g1) = leaseKey (gLease g2) →
     gLost g1 = false → gLost g2 = false → flNow w < gUntil g1 → flNow w < gUntil g2 → i = j) ∧
  (∀ g key token ttl local later b, g ∈ flGrants w → leaseKey (gLease g) = cacheLeaseKey key → gLost g = false → flNow w < gUntil g →
     (ProbeLease decodeCacheEntry (flNow w) key (flServer w)).2 = true ∧
     (asksForLease local ttl b = true →
      taken (AcquireLease local ttl key (Some token) (Some (claimLease (flNow w) key token ttl (flServer w)).2) later b).2 = true)).
Proof.
  intros Hs Hr. destruct (fleet_reachable_ok s now evs w Hs Hr) as ((Hg & Hn & _) & _). split.
  - intros i j g1 g2 Hi Hj Hkey Hl1 Hl2 Ht1 Ht2. rewrite Forall_forall in Hg.
    destruct (Hg g1 (list_elem_of_lookup_2 _ _ _ Hi)) as (_ & _ & _ & H1). destruct (Hg g2 (list_elem_of_lookup_2 _ _ _ Hj)) as (_ & _ & _ & H2).
    specialize (H1 Hl1 (flNow w) ltac:(lia) Ht1). specialize (H2 Hl2 (flNow w) ltac:(lia) Ht2). rewrite Hkey in H1.
    eapply (NoDup_lookup (leaseToken ∘ gLease <$> flGrants w)); [exact Hn|rewrite list_lookup_fmap, Hi; reflexivity|]. rewrite list_lookup_fmap, Hj. cbn. congruence.
  - intros g key token ttl local later b Hin Hkey Hl Ht. apply (proj1 (Forall_forall _ _) Hg) in Hin as (_ & _ & _ & H).
    specialize (H Hl (flNow w) ltac:(lia) Ht). rewrite Hkey in H. split; [unfold ProbeLease; by rewrite H|]. intros Hask.
    unfold asksForLease in Hask. apply andb_true_iff in Hask as [Httl%Z.ltb_lt Hb%negb_true_iff]. unfold claimLease. rewrite rsetnx_view, H. cbn [snd].
    unfold AcquireLease. destruct (Z.leb_spec ttl 0); [lia|]. destruct (breaker_open local b) as [b1 skip]. cbn in Hb. subst skip. done.
Qed.

(** What a proxy answers from the shared store was stored there, under that
    key, by a proxy of the fleet, and no longer ago than the entry had left to
    live then (to the millisecond of the server). *)
Theorem fleet_answers s now evs w t key e :
  nothing_ours s now → fleet_reachable encodeCacheEntry decodeCacheEntry (newFleet s now) evs w →
  FlAnswer t key e ∈ evs → HasPrefix key cacheKeyPrefix = true →
  ∃ t0, FlSet t0 key e ∈ evs ∧ t0 ≤ t ∧ (0 < ttl e → t < t0 + Z.max (ttl e) millisecond).
Proof.
  intros Hs Hr Hin Hk. destruct (fleet_reachable_ok s now evs w Hs Hr) as (_ & _ & Ha). destruct (Ha t key e Hin Hk) as (t0 & H & Hle & Hlt).
  exists t0. split; [done|]. split; [done|]. intros Httl. pose proof (rlifetime_bounds (ttl e) Httl). lia.
Qed.

End fleet_proofs.

(** ** Purging *)

Section purging.
Context `{R : Redis} {RS : RedisSpec}.
Variable decodeCacheEntry : string → option CacheEntry.

(** The rounds follow each other. *)
Fixpoint timed (from : Z) (rounds : list (Z * Z * list string)) (upto : Z) : Prop :=
  match rounds with
  | [] => from ≤ upto
  | (times, _) :: rounds => from ≤ times.1 ∧ times.1 ≤ times.2 ∧ timed times.2 rounds upto
  end.

Lemma timed_le from rounds upto : timed from rounds upto → from ≤ upto.
Proof. revert from. induction rounds as [|[times ks] rounds IH]; intros from; cbn; [done|]. intros (H1 & H2 & H3). apply IH in H3. lia. Qed.

(** Is an entry with this value to go? *)
Definition swept (pathPrefix data : string) : bool := String.eqb pathPrefix "" || belowPath decodeCacheEntry pathPrefix (Some data).

Lemma round_view times prefix keys s t k data :
  times.1 ≤ times.2 → times.2 ≤ t → rview s t k = Some data →
  rview (purgeRound decodeCacheEntry times prefix keys s).1 t k = if bool_decide (k ∈ keys) && swept prefix data then None else Some data.
Proof.
  intros H1 H2 Hv. unfold purgeRound. set (matched := keysBelowPath decodeCacheEntry times.1 keys prefix s).
  assert (Hm : k ∈ matched ↔ k ∈ keys ∧ swept prefix data = true).
  { subst matched. unfold keysBelowPath, swept. destruct (String.eqb prefix ""); cbn [orb]; [tauto|].
    destruct keys as [|k0 keys]; cbn [length Nat.eqb]; [set_solver|]. rewrite !list_elem_of_In, List.filter_In.
    assert (Hr : rview s times.1 k = Some data) by (eapply rview_expires; [|exact Hv]; lia). by rewrite Hr. }
  assert (Hr : rview (rdel times.2 matched s).1 t k = if bool_decide (k ∈ keys) && swept prefix data then None else Some data).
  { rewrite rdel_view by done. case_decide as Hin; [apply Hm in Hin as [Hin Hsw]; by rewrite bool_decide_true, Hsw|].
    case_bool_decide as Hk; [|done]. destruct (swept prefix data) eqn:Hsw; [|done]. by destruct Hin; apply Hm. }
  destruct matched as [|m ms] eqn:Heq; [|exact Hr]. cbn [fst]. rewrite Hv. case_bool_decide as Hk; [|done].
  destruct (swept prefix data) eqn:Hsw; [|done]. exfalso. apply (not_elem_of_nil k). by apply Hm.
Qed.

Lemma round_gone times prefix keys s t k :
  times.2 ≤ t → rview s t k = None → rview (purgeRound decodeCacheEntry times prefix keys s).1 t k = None.
Proof. intros Ht Hv. unfold purgeRound. case_match; [done|]. rewrite rdel_view by done. by case_decide. Qed.

(** What a purge leaves of a key that has not run out when it ends. *)
Lemma purge_exact prefix rounds from t n s k data :
  timed from rounds t → rview s t k = Some data →
  rview (redisPurge decodeCacheEntry prefix (Some <$> rounds) n s).1 t k =
  if bool_decide (k ∈ concat (snd <$> rounds)) && swept prefix data then None else Some data.
Proof.
  revert from n s. induction rounds as [|[times keys] rounds IH]; intros from n s Ht Hv; [done|].
  destruct Ht as (_ & H2 & H3). pose proof (timed_le _ _ _ H3) as Hle. cbn [fmap list_fmap redisPurge].
  pose proof (round_view times prefix keys s t k data H2 Hle Hv) as Hround. pose proof (round_gone times prefix keys s t k Hle) as Hgone.
  destruct (purgeRound decodeCacheEntry times prefix keys s) as [s1 deleted]. cbn [fst snd concat] in *.
  assert (Hstay : rview s1 t k = None → rview (redisPurge decodeCacheEntry prefix (Some <$> rounds) (n + deleted) s1).1 t k = None).
  { clear -H3 RS. revert s1 n H3. generalize times.2. generalize deleted. induction rounds as [|[times' ks'] rounds IH]; intros d from s1 n H3 Hv; [done|].
    destruct H3 as (_ & H2 & H3). pose proof (timed_le _ _ _ H3) as Hle. cbn [fmap list_fmap redisPurge].
    pose proof (round_gone times' prefix ks' s1 t k Hle Hv) as Hg. destruct (purgeRound decodeCacheEntry times' prefix ks' s1) as [s2 d2]. by eapply IH. }
  destruct (bool_decide (k ∈ keys) && swept prefix data) eqn:Hcase.
  - rewrite Hstay by done. apply andb_true_iff in Hcase as [Hk%bool_decide_eq_true Hsw]. rewrite bool_decide_true, Hsw by (apply elem_of_app; by left). done.
  - rewrite (IH _ _ _ H3 Hround). destruct (swept prefix data); [|by rewrite !andb_false_r]. rewrite andb_true_r in Hcase |- *. apply bool_decide_eq_false in Hcase.
    rewrite andb_true_r, (bool_decide_ext (k ∈ keys ++ concat rounds.*2) (k ∈ concat rounds.*2)); [done|]. rewrite elem_of_app. tauto.
Qed.

(** A purge of a service whose scan answered, as a scan does, every key that
    was there throughout and none its pattern does not match: every entry of
    the service below the path is gone, and what else is gone began with the
    name of the service and a colon. *)
Lemma purge_sweeps service prefix rounds from t n s :
  timed from rounds t → Forall (λ k, rglob (purgePattern service) k = true) (concat (snd <$> rounds)) →
  (∀ k, rglob (purgePattern service) k = true → rview s t k ≠ None → k ∈ concat (snd <$> rounds)) →
  let s' := (redisPurge decodeCacheEntry prefix (Some <$> rounds) n s).1 in
  ∀ k data, rview s t k = Some data →
    (HasPrefix k (cacheKeyPrefix +:+ service +:+ ":") = true → swept prefix data = true → rview s' t k = None) ∧
    (HasPrefix k (cacheKeyPrefix +:+ service +:+ ":") = false ∨ swept prefix data = false → rview s' t k = Some data).
Proof.
  intros Ht Hmatch Hall s' k data Hv. unfold s'. rewrite (purge_exact prefix rounds from t n s k data Ht Hv).
  assert (Hpat : rglob (purgePattern service) k = true ↔ HasPrefix k (cacheKeyPrefix +:+ service +:+ ":") = true).
  { rewrite purge_pattern, HasPrefix_spec. split; intros (rest & ->); exists rest; by rewrite !str_app_assoc; done. }
  split.
  - intros Hp ->. rewrite bool_decide_true; [done|]. apply Hall; [by apply Hpat|by rewrite Hv].
  - intros [Hp| ->]; [|by rewrite andb_false_r]. rewrite bool_decide_false; [done|]. intros Hin. apply (proj1 (Forall_forall _ _) Hmatch) in Hin.
    apply Hpat in Hin. congruence.
Qed.

End purging.

(** ** What the store says about itself: [cache_store_redis_stats.go] *)

(** The service of an entry's key; the digest after it has no colon. *)
Definition serviceFromCacheKey (key : string) : string :=
  let trimmed := TrimPrefix key cacheKeyPrefix in
  match last_index_byte trimmed colon with Some index => str_take index trimmed | None => trimmed end.

Definition parseRedisInfo (payload : string) : gmap string string :=
  foldl (λ fields line,
    let line := TrimSpace line in
    if String.eqb line "" || HasPrefix line "#" then fields
    else match Cut line colon with
         | None => fields
         | Some (name, value) => <[TrimSpace name := TrimSpace value]> fields
         end) ∅ (Split payload "010"%char).

Definition parseRedisInt (fields : gmap string string) (name : string) : option Z := value ← fields !! name; ParseInt value.

Record CacheServerStats := mkServerStats {
  ssKeys : Z;
  ssUsedBytes : Z;
  ssMaxBytes : Z;
  ssPolicy : string;
  ssUnavailable : list string }.

(** [CacheServerStats.Unknown] *)
Definition Unknown (s : CacheServerStats) (field : string) : bool := str_contains (ssUnavailable s) field.

(** [serverStats]: the answers to DBSIZE and INFO, if they came. *)
Definition serverStats (dbsize : option Z) (info : option string) : option CacheServerStats :=
  keys ← dbsize;
  match info with
  | None => Some (mkServerStats keys 0 0 "" ["used_bytes"; "max_bytes"; "eviction_policy"])
  | Some payload =>
      let fields := parseRedisInfo payload in
      let used := parseRedisInt fields "used_memory" in
      let max := parseRedisInt fields "maxmemory" in
      let policy := fields !! "maxmemory_policy" in
      let missing {A} (v : option A) (name : string) := match v with Some _ => [] | None => [name] end in
      Some (mkServerStats keys (default 0 used) (default 0 max) (default "" policy)
              (missing used "used_bytes" ++ missing max "max_bytes" ++ missing policy "eviction_policy"))
  end.

(** [countEntries]: the keys of each batch of the scan with the lengths of their
    values, [None] when the server fails. *)
Fixpoint countEntries (batches : list (option (list (string * Z)))) (total : cacheServiceUsage) (usage : gmap string cacheServiceUsage)
  : option (cacheServiceUsage * gmap string cacheServiceUsage) :=
  match batches with
  | [] => Some (total, usage)
  | None :: _ => None
  | Some keys :: batches =>
      let '(total, usage) :=
        foldl (λ '(total, usage) '(key, size),
          if size <=? 0 then (total, usage)
          else (mkUsage (uentries total + 1) (ubytes total + size), addUsage (serviceFromCacheKey key) size usage)) (total, usage) keys in
      countEntries batches total usage
  end.

Lemma last_colon service digest : index_byte digest colon = None → last_index_byte (service +:+ ":" +:+ digest) colon = Some (String.length service).
Proof.
  intros Hd. assert (Hno : last_index_byte digest colon = None).
  { induction digest as [|c digest IH]; [done|]. cbn in Hd |- *. destruct (Ascii.eqb c colon) eqn:Hc; [done|]. destruct (index_byte digest colon); [done|]. by rewrite IH. }
  change (":" +:+ digest) with (String ":" digest). induction service as [|c service IH]; [cbn; by rewrite Hno|].
  cbn [String.append last_index_byte String.length]. by rewrite IH.
Qed.

(** The service is read back from the keys it is written into, whatever colons
    it has; so it is from those of variants. *)
Lemma service_roundtrip `{F64 : Float64} sha256_hex service variant r co digest :
  (∀ x, index_byte (sha256_hex x) colon = None) → index_byte digest colon = None →
  serviceFromCacheKey (cacheKey sha256_hex service variant r co +:+ digest) = service.
Proof.
  intros Hsha Hd. unfold serviceFromCacheKey, cacheKey. rewrite <-!str_app_assoc, TrimPrefix_app. cbv zeta.
  assert (Hno : ∀ a b, index_byte a colon = None → index_byte b colon = None → index_byte (a +:+ b) colon = None).
  { intros a b Ha Hb. induction a as [|c a IH]; [done|]. cbn in Ha |- *. destruct (Ascii.eqb c colon); [done|]. destruct (index_byte a colon); [done|]. by rewrite IH. }
  rewrite last_colon by (by apply Hno). apply str_take_app.
Qed.

(** What is not said to be unknown was read from what the server said. *)
Lemma stats_honest dbsize payload st :
  serverStats dbsize (Some payload) = Some st →
  dbsize = Some (ssKeys st) ∧
  (Unknown st "used_bytes" = false → parseRedisInt (parseRedisInfo payload) "used_memory" = Some (ssUsedBytes st)) ∧
  (Unknown st "max_bytes" = false → parseRedisInt (parseRedisInfo payload) "maxmemory" = Some (ssMaxBytes st)) ∧
  (Unknown st "eviction_policy" = false → parseRedisInfo payload !! "maxmemory_policy" = Some (ssPolicy st)).
Proof.
  unfold serverStats. destruct dbsize as [keys|]; [|done]. intros [= <-]. unfold Unknown. cbn.
  destruct (parseRedisInt _ "used_memory"), (parseRedisInt _ "maxmemory"), (parseRedisInfo payload !! "maxmemory_policy"); cbn; repeat split; done.
Qed.

(** ** The store the middleware talks to *)

Section middleware.
Context `{R : Redis} {RS : RedisSpec}.
Variable encodeCacheEntry : CacheEntry → option string.
Variable decodeCacheEntry : string → option CacheEntry.
Hypothesis decode_encode : ∀ e data, encodeCacheEntry e = Some data → decodeCacheEntry data = Some e.

(** One proxy's view of the server, whose clock it shares. *)
#[local] Instance redis_CacheStore : CacheStore rserver := {|
  cs_get now key s := (s, redisGet decodeCacheEntry now key s);
  cs_set now key e s := redisSet encodeCacheEntry now key e s |}.

Definition redis_holds (s : rserver) (key : string) (e : CacheEntry) : Prop := ∃ t, redisGet decodeCacheEntry t key s = Some e.

Definition redis_CacheStoreLaws : CacheStoreLaws rserver.
Proof using RS decode_encode.
  refine {| cs_holds := redis_holds |}.
  - intros now k s e Hget. by exists now.
  - intros now k s k' e. done.
  - intros now k e s k' e' (t & Hget). cbn in Hget. unfold redisGet, redisSet in Hget.
    destruct (Z.leb_spec (ttl e) 0); [right; by exists t|]. destruct (encodeCacheEntry e) as [data|] eqn:Henc; [|right; by exists t].
    rewrite rset_view in Hget. case_decide as Hk; [|right; by exists t]. left. split; [done|].
    destruct (Z.ltb_spec t (now + rlifetime (ttl e))); [|done]. cbn in Hget. apply decode_encode in Henc. congruence.
Defined.
End middleware.

(** ** Examples *)

Module RedisExamples.

(** A server that keeps, for each key, its value and when it expires. *)
Abbreviation table := (gmap string (string * Z)).

Definition alive (t : Z) (x : string * Z) : option string := if t <? x.2 then Some x.1 else None.

Definition table_view (s : table) (t : Z) (k : string) : option string := x ← s !! k; alive t x.

Fixpoint glob (p s : string) : bool :=
  match p with
  | "" => String.eqb s ""
  | String c p =>
      if Ascii.eqb c "\" then
        match p, s with
        | String d p, String e s => Ascii.eqb d e && glob p s
        | _, _ => false
        end
      else if Ascii.eqb c "*" then
        (fix star (s : string) : bool := glob p s || match s with String _ s => star s | "" => false end) s
      else match s with String e s => (Ascii.eqb c "?" || Ascii.eqb c e) && glob p s | "" => false end
  end.

#[local] Instance table_redis : Redis := {|
  rserver := table;
  rview := table_view;
  rlifetime d := Z.max d millisecond;
  rset now k v d s := <[k := (v, now + Z.max d millisecond)]> s;
  rsetnx now k v d s := match table_view s now k with Some _ => (s, false) | None => (<[k := (v, now + Z.max d millisecond)]> s, true) end;
  rdel now ks s := (foldr delete s ks, Z.of_nat (length (List.filter (λ k, match table_view s now k with Some _ => true | None => false end) (remove_dups ks))));
  rcompareDelete now k v s := if decide (table_view s now k = Some v) then delete k s else s;
  rglob := glob |}.

Lemma foldr_delete (ks : list string) (s : table) k : foldr delete s ks !! k = if decide (k ∈ ks) then None else s !! k.
Proof.
  induction ks as [|x ks IH]; [by rewrite decide_False by (apply not_elem_of_nil)|]. cbn [foldr]. destruct (decide (x = k)) as [->|Hne].
  - rewrite lookup_delete_eq, decide_True by (by left). done.
  - rewrite lookup_delete_ne, IH by done. destruct (decide (k ∈ ks)) as [H|H].
    + by rewrite decide_True by (by right).
    + rewrite decide_False; [done|]. intros [|]%elem_of_cons; congruence.
Qed.

#[local] Instance table_spec : RedisSpec.
Proof.
  assert (Hms : 0 < millisecond) by (vm_compute; reflexivity). split; cbn.
  - intros s t t' k v Ht. unfold table_view, alive. destruct (s !! k) as [[d x]|]; [|done]. cbn. destruct (Z.ltb_spec t' x); [|done]. intros [= <-].
    destruct (Z.ltb_spec t x); [done|lia].
  - intros d Hd. lia.
  - intros now k v d s t k'. unfold table_view. case_decide as Hk; [subst; by rewrite lookup_insert_eq|by rewrite lookup_insert_ne].
  - intros now k v d s. by destruct (table_view s now k).
  - intros now ks s t k. unfold table_view. rewrite foldr_delete. by case_decide.
  - intros now k v s t k'. destruct (decide (table_view s now k = Some v)) as [Hv|Hv].
    + destruct (decide (k' = k)) as [->|Hk].
      * rewrite decide_True by done. unfold table_view. by rewrite lookup_delete_eq.
      * rewrite decide_False by (by intros []). unfold table_view. by rewrite lookup_delete_ne.
    + rewrite decide_False; [done|]. by intros [_ ?].
  - intros c p s. done.
  - intros c p s Hc. destruct (Ascii.eqb_spec c "\") as [->|]; [by destruct Hc; left|].
    destruct (Ascii.eqb_spec c "*") as [->|]; [destruct Hc; right; by left|]. destruct (Ascii.eqb_spec c "?") as [->|]; [destruct Hc; right; right; by left|]. done.
  - intros s. by destruct s as [|c s]; [|induction s as [|d s IH]; [|]].
Qed.

#[local] Instance CacheEntry_eq_dec : EqDecision CacheEntry.
Proof. solve_decision. Defined.

Definition front : CacheEntry := mkCacheEntry "shop" "/" [] "" [] 200 ∅ "<p>hi" 0 0 minute 0.
Definition frontEU : CacheEntry := mkCacheEntry "shop:eu" "/" [] "" [] 200 ∅ "<p>oi" 0 0 minute 0.

(** A codec for these two. *)
Definition encode (e : CacheEntry) : option string :=
  if bool_decide (e = front) then Some "F" else if bool_decide (e = frontEU) then Some "E" else None.
Definition decode (s : string) : option CacheEntry := if String.eqb s "F" then Some front else if String.eqb s "E" then Some frontEU else None.

Lemma sample_decodes e data : encode e = Some data → decode data = Some e.
Proof. unfold encode. case_bool_decide as H1; [intros [= <-]; by subst|]. case_bool_decide as H2; [intros [= <-]; by subst|done]. Qed.

Definition frontKey : string := "kp:c:shop:0a".
Definition euKey : string := "kp:c:shop:eu:0b".

Lemma nothing_in_the_table : nothing_ours ∅ 0.
Proof. intros t k _ _. cbn. unfold table_view. by rewrite lookup_empty. Qed.

(** One proxy has claimed a key. *)
Definition claimed : Fleet :=
  mkFleet {["kp:l:shop:0a" := ("t1", 10 * second)]} 0 {[1%nat := newBreaker]}
    [mkGrant (mkLease (Some CacheLeaseAcquired) "kp:l:shop:0a" "t1") (10 * second) false] {["t1"]} ∅.

Lemma claimed_reachable : fleet_reachable encode decode (newFleet ∅ 0) [FlOther] claimed.
Proof.
  pose proof (fl_acquire encode decode (newFleet ∅ 0) 1 frontKey "t1" (10 * second) 0 0 true) as Hstep. cbn zeta in Hstep.
  apply (fl_more _ _ _ [] (newFleet ∅ 0) FlOther); [constructor|]. apply Hstep; [reflexivity|exact (not_elem_of_empty "t1")|discriminate].
Qed.

Lemma lease_exclusive_witness :
  let g := mkGrant (mkLease (Some CacheLeaseAcquired) "kp:l:shop:0a" "t1") (10 * second) false in
  flGrants claimed = [g] ∧
  taken (AcquireLease 5 (10 * second) frontKey (Some "t2") (Some (claimLease (flNow claimed) frontKey "t2" (10 * second) (flServer claimed)).2) 6 newBreaker).2 = true.
Proof.
  intros g. split; [reflexivity|].
  destruct (lease_exclusive encode decode sample_decodes ∅ 0 [FlOther] claimed nothing_in_the_table claimed_reachable) as [_ Hlive].
  destruct (Hlive g frontKey "t2" (10 * second) 5 6 newBreaker) as [_ Htaken].
  - left.
  - reflexivity.
  - reflexivity.
  - vm_compute. reflexivity.
  - apply Htaken. reflexivity.
Defined.

Definition kept : Fleet := mkFleet {[frontKey := ("F", minute)]} 0 ∅ [] ∅ ∅.

Lemma kept_reachable : fleet_reachable encode decode (newFleet ∅ 0) [FlSet 0 frontKey front; FlAnswer 0 frontKey front] kept.
Proof.
  apply (fl_more _ _ _ [FlSet 0 frontKey front] kept (FlAnswer 0 frontKey front)).
  - apply (fl_more _ _ _ [] (newFleet ∅ 0) (FlSet 0 frontKey front)); [constructor|]. exact (fl_set encode decode (newFleet ∅ 0) frontKey front eq_refl).
  - exact (fl_get encode decode kept frontKey).
Qed.

Lemma fleet_answers_witness :
  ∃ t0, FlSet t0 frontKey front ∈ [FlSet 0 frontKey front; FlAnswer 0 frontKey front] ∧ t0 ≤ 0 ∧ (0 < ttl front → 0 < t0 + Z.max (ttl front) millisecond).
Proof.
  apply (fleet_answers encode decode sample_decodes ∅ 0 [FlSet 0 frontKey front; FlAnswer 0 frontKey front] kept 0 frontKey front nothing_in_the_table kept_reachable).
  - right. left.
  - reflexivity.
Defined.

(** ** What modelling showed *)

(** A purge takes the entries of every service whose name goes on with a colon
    after that of the service that is purged. *)
Example purge_takes_neighbours :
  let s : table := {[frontKey := ("F", minute); euKey := ("E", minute)]} in
  Forall (λ k, rglob (purgePattern "shop") k = true) [frontKey; euKey] ∧
  let '(s', (purged, ok)) := redisPurge decode "/" [Some ((0, 0), [frontKey; euKey])] 0 s in
  purged = 2 ∧ ok = true ∧ redisGet decode 0 euKey s = Some frontEU ∧ redisGet decode 0 euKey s' = None ∧ serviceFromCacheKey euKey = "shop:eu".
Proof. split; [repeat constructor|]. vm_compute. repeat split. Qed.

End RedisExamples.
