(* ===== verification/SvcOptions.v ===== *)
(** * The options of a service: [ServiceOptions] of [internal/server/service.go],
    [service_options_validation.go], [validateSessionAffinity] of
    [session_affinity.go], [parseTLSOnDemandURL] of [tls_on_demand.go] and
    [validDomainSource] of [dynamic_domains.go]

    Deploying validates the options as a whole; serving resolves them piece by
    piece into the gates of the pipeline. *)
From S2P Require Import Prelude GoStrings GoFloat GoRegexp GoURL NetIP Http ServiceMap Redirects.
From S2P Require Import Retry TokenBucket ClientAddr RateLimit BasicAuth IdleController ServiceIdle.
From S2P Require Import Compression CachePolicy.

Definition DefaultDeployTimeout : Z := 30 * second.
Definition DefaultDrainTimeout : Z := 30 * second.
Definition DefaultPauseTimeout : Z := 30 * second.
Definition DefaultRedirectsInterval : Z := 5 * minute.
Definition MinRedirectsInterval : Z := 10 * second.
Definition DefaultTLSDomainsInterval : Z := 5 * minute.
Definition MinTLSDomainsInterval : Z := 10 * second.
Definition MaxTLSDomainsBatchSize : Z := 25.

Record SvcOptions := mkSvcOptions {
  soHosts : list string;
  soPathPrefixes : list string;
  soTLSEnabled : bool;
  soTLSCertificatePath : string;
  soTLSPrivateKeyPath : string;
  soTLSOnDemandURL : string;
  soTLSRedirect : bool;
  soCanonicalHost : string;
  soACMEDirectory : string;
  soACMECachePath : string;
  soErrorPagePath : string;
  soStripPrefix : bool;
  soWriterAffinityTimeout : Z;
  soReadTargetsAcceptWebsockets : bool;
  soExcludeMetricsPaths : list string;
  soClientIPHeader : string;
  soTLSClientCACertificatePath : string;
  soTLSDomainsSource : string;
  soTLSDomainsInterval : Z;
  soTLSDomainsBatchSize : Z;
  soInterceptErrorStatuses : list Z;
  soTargetTryDuration : Z;
  soTargetTryInterval : Z;
  soSessionAffinity : bool;
  soSessionAffinityCookieName : string;
  soBasicAuth : string;
  soAllowIPs : list string;
  soDenyIPs : list string;
  soDenyUserAgents : list string;
  soTrustedProxies : list string;
  soRateLimit : GoFloat.float64;
  soRateLimitBurst : Z;
  soRateLimitExempt : list string;
  soRedirects : list PathRule;
  soRewrites : list PathRule;
  soRedirectsSource : string;
  soRedirectsInterval : Z;
  soSleepAfter : Z;
  soWakeTimeout : Z;
  soSleepContainers : list string;
  soCompression : CompressionOptions;
  soCache : CacheOptions }.

(** [ShouldExcludeMetrics]. *)
Definition ShouldExcludeMetrics (so : SvcOptions) (r : Request) : bool :=
  str_contains (soExcludeMetricsPaths so) (RoutedTargetPath r).

Definition NormalizeOptions (so : SvcOptions) : SvcOptions :=
  mkSvcOptions (NormalizeHosts (soHosts so)) (NormalizePathPrefixes (soPathPrefixes so))
    (soTLSEnabled so) (soTLSCertificatePath so) (soTLSPrivateKeyPath so) (soTLSOnDemandURL so)
    (soTLSRedirect so) (soCanonicalHost so) (soACMEDirectory so) (soACMECachePath so) (soErrorPagePath so)
    (soStripPrefix so) (soWriterAffinityTimeout so) (soReadTargetsAcceptWebsockets so)
    (soExcludeMetricsPaths so) (soClientIPHeader so) (soTLSClientCACertificatePath so)
    (soTLSDomainsSource so) (soTLSDomainsInterval so) (soTLSDomainsBatchSize so)
    (soInterceptErrorStatuses so) (soTargetTryDuration so) (soTargetTryInterval so)
    (soSessionAffinity so) (soSessionAffinityCookieName so) (soBasicAuth so) (soAllowIPs so) (soDenyIPs so)
    (soDenyUserAgents so) (soTrustedProxies so) (soRateLimit so) (soRateLimitBurst so)
    (soRateLimitExempt so) (soRedirects so) (soRewrites so) (soRedirectsSource so) (soRedirectsInterval so)
    (soSleepAfter so)
    (if (0 <? soSleepAfter so) && (soWakeTimeout so =? 0) then DefaultWakeTimeout else soWakeTimeout so)
    (soSleepContainers so) (NormalizeCompression (soCompression so)) (NormalizeCache (soCache so)).

(** [HasConfiguredHosts]. *)
Definition HasConfiguredHosts (so : SvcOptions) : bool :=
  negb (Nat.eqb (length (soHosts so)) 0) && negb (str_contains (soHosts so) "").

Definition optRetryPolicy (so : SvcOptions) : RetryPolicy :=
  mkRetryPolicy (soTargetTryDuration so) (soTargetTryInterval so).

(** ** Errors *)

Inductive OptionError :=
| OnDemandWithoutTLS | ClientCAWithoutTLS | HostsWithOnDemand | CertificateWithOnDemand
| CanonicalWithOnDemand | BadOnDemandURL | TLSWithoutHost | TLSWithoutRootPath | CanonicalNotAHost
| BadInterceptStatus (status : Z)
| BadRetries (e : RetryOptionError) | AffinityCookieUnused | BadAffinityCookie
| BadBasicAuth (e : BasicAuthError) | BadClients (e : ClientOptionError) | BadRateLimit (e : RateLimitError)
| BadRules (e : RuleError) | BadCompression (e : CompressionError) | BadCache (e : CacheOptionError)
| BadSleep (e : SleepOptionError) | BadACMEDirectory
| RedirectsIntervalUnused | BadRedirectsSource | RedirectsIntervalTooShort
| BatchSizeUnused | DomainsIntervalUnused | DomainsWithoutTLS | DomainsWithOnDemand | DomainsWithHosts
| BadDomainsSource | BadBatchSize | DomainsIntervalTooShort.

(** The error of a component, as an error of the options. *)
Definition lift_err {E} (f : E → OptionError) (r : result E unit) : result OptionError unit :=
  match r with Ok _ => Ok tt | Err e => Err (f e) end.

(** ** Validators *)

Definition parseTLSOnDemandURL (u : string) : option (URL * bool) :=
  if HasPrefix u "//" then None
  else if HasPrefix u "/" then (λ e, (e, true)) <$> ParseURL u
  else
    (* [url.ParseRequestURI]: no fragment, and an opaque URL needs a scheme *)
    match parse_nofrag u with
    | None => None
    | Some e =>
        if negb (String.eqb (Scheme e) "http") && negb (String.eqb (Scheme e) "https") then None
        else if String.eqb (URLHost e) "" then None
        else Some (e, false)
    end.

Definition validateInterceptErrorStatuses (so : SvcOptions) : result OptionError unit :=
  match List.find (λ s, (s <? 400) || (599 <? s)) (soInterceptErrorStatuses so) with
  | Some s => Err (BadInterceptStatus s)
  | None => Ok tt
  end.

Definition validateSessionAffinity (so : SvcOptions) : result OptionError unit :=
  if negb (soSessionAffinity so) then
    if negb (String.eqb (soSessionAffinityCookieName so) "") then Err AffinityCookieUnused else Ok tt
  else if String.eqb (soSessionAffinityCookieName so) "" then Ok tt
  else if validCookieName (soSessionAffinityCookieName so) then Ok tt else Err BadAffinityCookie.

Definition validateDynamicRedirects (so : SvcOptions) : result OptionError unit :=
  if String.eqb (soRedirectsSource so) "" then
    if negb (soRedirectsInterval so =? 0) then Err RedirectsIntervalUnused else Ok tt
  else if negb (HasPrefix (soRedirectsSource so) "/") && negb (isHTTPURL (soRedirectsSource so))
  then Err BadRedirectsSource
  else if negb (soRedirectsInterval so =? 0) && (soRedirectsInterval so <? MinRedirectsInterval)
  then Err RedirectsIntervalTooShort else Ok tt.

Definition validateACMEDirectory (so : SvcOptions) : result OptionError unit :=
  if String.eqb (soACMEDirectory so) "" then Ok tt
  else if isHTTPURL (soACMEDirectory so) then Ok tt else Err BadACMEDirectory.

Definition validDomainSource (source : string) : bool :=
  HasPrefix source "/" || (HasPrefix source "http://" || HasPrefix source "https://").

Definition validateDynamicDomains (so : SvcOptions) : result OptionError unit :=
  if String.eqb (soTLSDomainsSource so) "" then
    if negb (soTLSDomainsBatchSize so =? 0) then Err BatchSizeUnused
    else if negb (soTLSDomainsInterval so =? 0) then Err DomainsIntervalUnused
    else Ok tt
  else if negb (soTLSEnabled so) then Err DomainsWithoutTLS
  else if negb (String.eqb (soTLSOnDemandURL so) "") then Err DomainsWithOnDemand
  else if HasConfiguredHosts so then Err DomainsWithHosts
  else if negb (validDomainSource (soTLSDomainsSource so)) then Err BadDomainsSource
  else if (soTLSDomainsBatchSize so <? 0) || (MaxTLSDomainsBatchSize <? soTLSDomainsBatchSize so)
  then Err BadBatchSize
  else if negb (soTLSDomainsInterval so =? 0) && (soTLSDomainsInterval so <? MinTLSDomainsInterval)
  then Err DomainsIntervalTooShort else Ok tt.

Definition validateTLS (so : SvcOptions) : result OptionError unit :=
  if negb (String.eqb (soTLSOnDemandURL so) "") && negb (soTLSEnabled so) then Err OnDemandWithoutTLS
  else if negb (String.eqb (soTLSClientCACertificatePath so) "") && negb (soTLSEnabled so)
  then Err ClientCAWithoutTLS
  else if soTLSEnabled so then
    _ ← (if negb (String.eqb (soTLSOnDemandURL so) "") then
           if HasConfiguredHosts so then Err HostsWithOnDemand
           else if negb (String.eqb (soTLSCertificatePath so) "") || negb (String.eqb (soTLSPrivateKeyPath so) "")
           then Err CertificateWithOnDemand
           else if negb (String.eqb (soCanonicalHost so) "") then Err CanonicalWithOnDemand
           else match parseTLSOnDemandURL (soTLSOnDemandURL so) with
                | None => Err BadOnDemandURL
                | Some _ => Ok tt
                end
         else if negb (HasConfiguredHosts so) && String.eqb (soTLSDomainsSource so) "" then Err TLSWithoutHost
         else Ok tt);
    guard_err (str_contains (soPathPrefixes so) rootPath) TLSWithoutRootPath
  else Ok tt.

Definition validateCanonicalHost (so : SvcOptions) : result OptionError unit :=
  if negb (String.eqb (soCanonicalHost so) "") &&
     match soHosts so with h :: _ => negb (String.eqb h "") | [] => false end
  then guard_err (str_contains (soHosts so) (soCanonicalHost so)) CanonicalNotAHost
  else Ok tt.

Section validate.
Context `{!Regexp}.

(** The checks of [ServiceOptions.Validate], in its order, on options already
    normalized. *)
Definition validateNormalized (so : SvcOptions) : result OptionError unit :=
  _ ← validateTLS so;
  _ ← validateCanonicalHost so;
  _ ← validateInterceptErrorStatuses so;
  _ ← lift_err BadRetries (validateRetries (optRetryPolicy so));
  _ ← validateSessionAffinity so;
  _ ← lift_err BadBasicAuth (validateBasicAuth (soBasicAuth so));
  _ ← lift_err BadClients
        (validateAllowIPs (soAllowIPs so) (soDenyIPs so) (soTrustedProxies so) (soClientIPHeader so)
           (negb (f64_leb (soRateLimit so) f64_zero)));
  _ ← lift_err BadClients
        (validateDeny (soDenyIPs so) (soDenyUserAgents so) (soTrustedProxies so) (soClientIPHeader so));
  _ ← lift_err BadRateLimit
        (validateRateLimit (soRateLimit so) (soRateLimitBurst so) (soRateLimitExempt so)
           (soTrustedProxies so) (soClientIPHeader so));
  _ ← lift_err BadRules (validatePathRules (soRedirects so) (soRewrites so));
  _ ← lift_err BadCompression (ValidateCompression (soCompression so));
  _ ← lift_err BadCache (ValidateCache (soCache so));
  _ ← lift_err BadSleep
        (validateSleep (soSleepAfter so) (soWakeTimeout so) (soTLSOnDemandURL so) (soSleepContainers so));
  _ ← validateACMEDirectory so;
  _ ← validateDynamicRedirects so;
  validateDynamicDomains so.

Definition ValidateOptions (so : SvcOptions) : result OptionError unit :=
  validateNormalized (NormalizeOptions so).

End validate.

(** ** What validation gives *)

Lemma lift_err_ok {E} (f : E → OptionError) r : lift_err f r = Ok tt ↔ r = Ok tt.
Proof. destruct r as [[]|]; cbn; naive_solver. Qed.

(** Every check of a sequence that succeeds succeeds. *)
Ltac seq_ok H :=
  lazymatch type of H with
  | (_ ≫= _) = Ok _ =>
      let a := fresh "u" in let Ha := fresh "Hcheck" in
      apply result_bind_ok in H as ([] & Ha & H); seq_ok H
  | _ => idtac
  end.

Section resolved.
Context `{!Regexp, !RateLimiter}.

Lemma first_error_ok {A E} (check : A → result E unit) l :
  first_error check l = Ok tt → Forall (λ x, check x = Ok tt) l.
Proof.
  induction l as [|x l IH]; cbn; [constructor|].
  intros ([] & Hx & Hl)%result_bind_ok. constructor; [done|]. by apply IH.
Qed.

Lemma validateRule_compiles kind rule : validateRule kind rule = Ok tt → ∃ c, compileRule rule = Ok c.
Proof.
  unfold validateRule, compileRule. destruct (String.eqb _ _); [done|]. destruct (String.eqb _ _); [done|].
  intros (re & Hre & _)%result_bind_ok. rewrite Hre. cbn. eauto.
Qed.

Lemma newPathRuleSet_ok kind rules :
  first_error (validateRule kind) rules = Ok tt → ∃ c, newPathRuleSet rules = Ok c.
Proof.
  intros HF%first_error_ok. unfold newPathRuleSet. destruct (Nat.eqb _ _); [eauto|].
  assert (Hm : ∃ c, mapM_result compileRule rules = Ok c).
  { induction HF as [|x l Hx _ [c IH]]; cbn; [eauto|].
    destruct (validateRule_compiles kind x Hx) as [y ->]. cbn. rewrite IH. cbn. eauto. }
  destruct Hm as [c ->]. cbn. eauto.
Qed.

Lemma validateAllowIPs_ok allow deny trusted header limited :
  validateAllowIPs allow deny trusted header limited = Ok tt →
  (∃ ps, parseIPPrefixes allow = Ok ps) ∧
  ∃ ts, parseIPPrefixes trusted = Ok ts ∧ Forall (λ p, pBits p ≠ 0) ts.
Proof.
  unfold validateAllowIPs. destruct (_ && _)%bool; [done|]. destruct (_ && _)%bool; [done|].
  destruct (parseIPPrefixes allow) as [ps|]; [|done].
  destruct (parseIPPrefixes trusted) as [ts|]; [|done].
  destruct (existsb _ ts) eqn:Hex; [done|]. intros _. split; [eauto|]. exists ts. split; [done|].
  apply Forall_forall. intros p Hp Hz. apply not_true_iff_false in Hex. apply Hex.
  apply existsb_exists. exists p. split; [by apply list_elem_of_In|]. by apply Z.eqb_eq.
Qed.

(** The options resolve without falling back: no gate is built from settings
    that could not be read. *)
Record resolves (so : SvcOptions) (now : Z) : Prop := {
  res_allow : soAllowIPs so = [] ∨ ∃ l,
    newIPAllowList (soAllowIPs so) (soTrustedProxies so) (soClientIPHeader so) now = Ok l;
  res_deny : hasDenyRules (soDenyIPs so) (soDenyUserAgents so) = false ∨ ∃ l,
    newDenyList (soDenyIPs so) (soDenyUserAgents so) (soTrustedProxies so) (soClientIPHeader so) now = Ok l
    ∧ denyAll l = false;
  res_rate : f64_leb (soRateLimit so) f64_zero = true ∨ ∃ l,
    newRateLimiter (soRateLimit so) (soRateLimitBurst so) (soRateLimitExempt so) (soTrustedProxies so)
      (soClientIPHeader so) now = Ok l;
  res_auth : soBasicAuth so = "" ∨ ∃ c, parseBasicAuthCredential (soBasicAuth so) = Ok c ∧ baDenyAll c = false;
  res_rules : ∃ c, resolvePathRules (soRedirects so) (soRewrites so) = Ok c;
  res_trusted : ∃ f, newForwardedResolver (soTrustedProxies so) (soClientIPHeader so) = Ok f
    ∧ Forall (λ p, pBits p ≠ 0) (trusted f);
  res_tls_root : soTLSEnabled so = true → rootPath ∈ soPathPrefixes so;
  res_canonical : ∀ h hs, soHosts so = h :: hs → h ≠ "" → soCanonicalHost so ≠ "" →
    soCanonicalHost so ∈ soHosts so;
  res_statuses : Forall (λ s, 400 ≤ s ≤ 599) (soInterceptErrorStatuses so) }.

Lemma validateRateLimit_exempt limit burst exempt trusted header :
  validateRateLimit limit burst exempt trusted header = Ok tt →
  f64_leb limit f64_zero = true ∨ ∃ ps, parseIPPrefixes exempt = Ok ps.
Proof.
  unfold validateRateLimit, f64_ltb, f64_eqb, f64_leb.
  destruct (f64_compare limit f64_zero) as [[]|]; [by left|done| |];
    (destruct (burst <? 0); [done|]); (destruct (_ && _)%bool; [done|]);
    destruct (parseIPPrefixes exempt); eauto; done.
Qed.

Lemma parseBasicAuthCredential_plain s c : parseBasicAuthCredential s = Ok c → baDenyAll c = false.
Proof.
  unfold parseBasicAuthCredential. repeat (case_goal; try done). by intros [= <-].
Qed.

Lemma validateTLS_root so :
  validateTLS so = Ok tt → soTLSEnabled so = true → rootPath ∈ soPathPrefixes so.
Proof.
  unfold validateTLS. intros Hv Ht. rewrite Ht in Hv. cbn in Hv. rewrite !andb_false_r in Hv.
  apply result_bind_ok in Hv as (_ & _ & Hv). apply str_contains_spec.
  unfold guard_err in Hv. by destruct (str_contains _ _).
Qed.

Lemma validateCanonicalHost_ok so h hs :
  validateCanonicalHost so = Ok tt → soHosts so = h :: hs → h ≠ "" → soCanonicalHost so ≠ "" →
  soCanonicalHost so ∈ soHosts so.
Proof.
  unfold validateCanonicalHost. intros Hv Hh Hne Hc. rewrite Hh in *.
  apply String.eqb_neq in Hne, Hc. rewrite Hne, Hc in Hv. cbn [negb andb] in Hv.
  apply str_contains_spec. unfold guard_err in Hv. by destruct (str_contains _ _).
Qed.

Lemma validateInterceptErrorStatuses_ok so :
  validateInterceptErrorStatuses so = Ok tt → Forall (λ s, 400 ≤ s ≤ 599) (soInterceptErrorStatuses so).
Proof.
  unfold validateInterceptErrorStatuses. destruct (List.find _ _) eqn:Hf; [done|]. intros _.
  apply Forall_forall. intros s Hs%list_elem_of_In. pose proof (List.find_none _ _ Hf s Hs). cbn in *. lia.
Qed.

Lemma validateDeny_ok deny uas trusted header :
  validateDeny deny uas trusted header = Ok tt →
  (∃ ps, parseIPPrefixes deny = Ok ps) ∧ ∃ us, parseDenyUserAgents uas = Ok us.
Proof.
  unfold validateDeny. destruct (parseIPPrefixes deny); [|done].
  destruct (parseDenyUserAgents uas); [|done]. eauto.
Qed.

Lemma validateBasicAuth_ok stored :
  validateBasicAuth stored = Ok tt →
  stored = "" ∨ ∃ c, parseBasicAuthCredential stored = Ok c ∧ baDenyAll c = false.
Proof.
  unfold validateBasicAuth. destruct (String.eqb_spec stored "") as [->|_]; [by left|].
  intros (c & Hc & _)%result_bind_ok. right. eauto using parseBasicAuthCredential_plain.
Qed.

(** C37: options that pass validation are well formed for serving: in their
    normalized form the allow list, the deny list, the rate limit, the
    credential and the path rules are all read back, so that no gate of the
    service ever falls back to refusing everybody (or, for the path rules, to
    none); no trusted proxy stands for every address; TLS comes with the root
    path; the canonical host is one of the hosts; and the intercepted statuses
    are error statuses. *)
Theorem validated_options_resolve so now :
  ValidateOptions so = Ok tt → resolves (NormalizeOptions so) now.
Proof.
  unfold ValidateOptions. generalize (NormalizeOptions so). clear so. intros so Hv.
  unfold validateNormalized in Hv. seq_ok Hv.
  repeat match goal with Hc : lift_err _ _ = Ok tt |- _ => apply lift_err_ok in Hc end.
  match goal with Hc : validateAllowIPs _ _ _ _ _ = _ |- _ =>
    apply validateAllowIPs_ok in Hc as [[ps Hps] (ts & Hts & Hts0)] end.
  match goal with Hc : validateDeny _ _ _ _ = _ |- _ => apply validateDeny_ok in Hc as [[ds Hds] [us Hus]] end.
  match goal with Hc : validateRateLimit _ _ _ _ _ = _ |- _ =>
    apply validateRateLimit_exempt in Hc; rename Hc into Hrate end.
  match goal with Hc : validatePathRules _ _ = _ |- _ =>
    apply result_bind_ok in Hc as ([] & Hr1 & Hr2);
    apply newPathRuleSet_ok in Hr1 as [c1 Hc1]; apply newPathRuleSet_ok in Hr2 as [c2 Hc2] end.
  split; [..|by apply validateTLS_root|by intros; eapply validateCanonicalHost_ok
          |by apply validateInterceptErrorStatuses_ok];
    unfold newIPAllowList, newDenyList, newRateLimiter, newForwardedResolver, resolvePathRules.
  - right. rewrite Hps, Hts. cbn. eauto.
  - right. unfold lift_ip. rewrite Hds, Hus, Hts. cbn. eauto.
  - destruct Hrate as [Hoff|[es Hes]]; [by left|]. right. rewrite Hes, Hts. cbn. eauto.
  - by apply validateBasicAuth_ok.
  - rewrite Hc1. cbn. rewrite Hc2. cbn. eauto.
  - rewrite Hts. cbn. eauto.
Qed.

End resolved.

Module SvcOptionsExamples.

Definition fenced : SvcOptions :=
  mkSvcOptions ["A.example"; "b.example"] ["/api/"; "/"] true "" "" "" true "b.example" "" "" "" true 0 false []
    "X-Client-Ip" "" "" 0 0 [502; 503] 0 0 true "pin" ""
    ["192.0.2.0/24"] ["192.0.2.66"] ["curl"] ["10.0.0.0/8"] (f64_of_Z 5) 10 ["10.1.2.3"]
    [mkPathRule "/old" "/new" 301] [] "" 0 (10 * minute) 0 ["web"]
    (mkCompression ["GZIP"] 0 []) (mkCacheOptions false 0 0 [] [] false 0).

Lemma validated_options_resolve_witness :
  @resolves literal_regexp RateLimitExamples.exact_limiter (NormalizeOptions fenced) 0.
Proof. apply (@validated_options_resolve literal_regexp). vm_compute. reflexivity. Defined.

Example unknown_canonical_refused :
  @ValidateOptions literal_regexp
    (mkSvcOptions ["a.example"] ["/"] true "" "" "" true "www.a.example" "" "" "" true 0 false []
       "" "" "" 0 0 [] 0 0 false "" "" [] [] [] [] f64_zero 0 [] [] [] "" 0 0 0 []
       (mkCompression [] 0 []) (mkCacheOptions false 0 0 [] [] false 0)) = Err CanonicalNotAHost.
Proof. vm_compute. reflexivity. Qed.

End SvcOptionsExamples.
