(* ===== verification/DomainIssuer.v ===== *)
(** * Issuing certificates for dynamic domains:
    [internal/server/domain_issuer.go]

    A queue of domains is drained into ACME orders by one runner, which waits
    for a token and a free slot, and by the goroutines it starts, one per
    batch.  They share the queue and two sets of holds, on domains and on
    identifiers, under one lock; what happens between two holds of that lock is
    a step of [issuer_step].  The manager and the quarantine may be changed by
    anybody in between ([is_env]); what probes and the ACME server answer, and
    when the bucket has a token, is the environment's. *)
From S2P Require Import Prelude GoStrings CertPlan DomainFailure Quarantine Holds SanCerts SvcOptions.

Record issueRequest := mkRequest {
  rqDomain : string;
  rqService : string;
  retried : bool }.

#[export] Instance issueRequest_eq_dec : EqDecision issueRequest.
Proof. solve_decision. Defined.

Record issueOrder := mkOrder {
  oIdentifiers : list string;
  oRequests : list issueRequest;
  identifierOf : gmap string string }.

(** What the lock [mu] protects. *)
Record Issuer := mkIssuer {
  queue : list issueRequest;
  queued : gset string;
  inflight : gset string;
  inflightIdentifiers : gset string }.

Section issuer.
Context `{!SortFunc}.
Variable sha256_hex : string → string.
Variable retry_after_in : string → option Z.
Variable BatchSize : option (string → Z).
Variable MaxConcurrentOrders : nat.

(** ** The queue *)

(** [Request]: the flag says whether the runner is notified. *)
Definition Request (now : Z) (domain service : string) (q : gmap string quarantineEntry) (s : Issuer)
  : Issuer * bool :=
  if IsQuarantined now domain q then (s, false)
  else if bool_decide (domain ∈ queued s) || bool_decide (domain ∈ inflight s) then (s, false)
  else (mkIssuer (queue s ++ [mkRequest domain service false]) ({[domain]} ∪ queued s) (inflight s) (inflightIdentifiers s),
        true).

Definition QueueLen (s : Issuer) : nat := length (queue s).

Definition issuable (now : Z) (m : SANCertManager) (q : gmap string quarantineEntry) (inflight : gset string)
    (domain : string) : bool :=
  negb (bool_decide (domain ∈ inflight)) &&
  (negb (IsQuarantined now domain q) && negb (HasValidCertificate m now domain) && DomainAllowed m domain).

(** The loop of [takePending]. *)
Fixpoint takeFrom (now : Z) (m : SANCertManager) (q : gmap string quarantineEntry) (service : string) (n : nat)
    (inflight : gset string) (rs : list issueRequest) : list string * list issueRequest * gset string :=
  match rs with
  | [] => ([], [], inflight)
  | r :: rs =>
      if (0 <? n)%nat && String.eqb (rqService r) service && issuable now m q inflight (rqDomain r)
      then let '(taken, remaining, inflight) := takeFrom now m q service (n - 1) ({[rqDomain r]} ∪ inflight) rs in
           (rqDomain r :: taken, remaining, inflight)
      else let '(taken, remaining, inflight) := takeFrom now m q service n inflight rs in
           (taken, r :: remaining, inflight)
  end.

Definition takePending (now : Z) (m : SANCertManager) (q : gmap string quarantineEntry) (service : string) (n : nat)
    (s : Issuer) : list string * Issuer :=
  let '(taken, remaining, infl) := takeFrom now m q service n (inflight s) (queue s) in
  (taken, mkIssuer remaining (queued s ∖ list_to_set taken) infl (inflightIdentifiers s)).

Definition releaseDomains (ds : list string) (s : Issuer) : Issuer :=
  mkIssuer (queue s) (queued s) (inflight s ∖ list_to_set ds) (inflightIdentifiers s).

Definition finishBatch (batch : list issueRequest) (s : Issuer) : Issuer := releaseDomains (rqDomain <$> batch) s.

Definition batchSizeFor (service : string) : Z :=
  match BatchSize with
  | None => 1
  | Some f => if 0 <? f service then Z.min (f service) MaxTLSDomainsBatchSize else 1
  end.

(** Up to [n] requests that may go, in order, and the rest. *)
Fixpoint collect (n : nat) (ok : issueRequest → bool) (rs : list issueRequest)
  : list issueRequest * list issueRequest :=
  match rs with
  | [] => ([], [])
  | r :: rs =>
      if (0 <? n)%nat && ok r
      then let '(taken, remaining) := collect (n - 1) ok rs in (r :: taken, remaining)
      else let '(taken, remaining) := collect n ok rs in (taken, r :: remaining)
  end.

Definition batchmate (now : Z) (m : SANCertManager) (q : gmap string quarantineEntry) (infl : gset string)
    (head r : issueRequest) : bool :=
  String.eqb (rqService r) (rqService head) && issuable now m q infl (rqDomain r) &&
  String.eqb (providerPartitionKey (smPlanner m) (rqDomain r)) (providerPartitionKey (smPlanner m) (rqDomain head)).

Fixpoint nextBatchFrom (now : Z) (m : SANCertManager) (q : gmap string quarantineEntry) (infl : gset string)
    (rs : list issueRequest) (queued : gset string) : list issueRequest * list issueRequest * gset string :=
  match rs with
  | [] => ([], [], queued)
  | head :: rs =>
      let queued := queued ∖ {[rqDomain head]} in
      if negb (issuable now m q infl (rqDomain head)) then nextBatchFrom now m q infl rs queued
      else
        let '(mates, remaining) :=
          collect (Z.to_nat (batchSizeFor (rqService head) - 1)) (batchmate now m q infl head) rs in
        (head :: mates, remaining, queued ∖ list_to_set (rqDomain <$> mates))
  end.

Definition nextBatch (now : Z) (m : SANCertManager) (q : gmap string quarantineEntry) (s : Issuer)
  : list issueRequest * Issuer :=
  let '(batch, remaining, qd) := nextBatchFrom now m q (inflight s) (queue s) (queued s) in
  (batch, mkIssuer remaining qd (list_to_set (rqDomain <$> batch) ∪ inflight s) (inflightIdentifiers s)).

(** ** Orders *)

(** The identifier each request is planned into; a retried one stays itself. *)
Definition planIdentifiers (now : Z) (m : SANCertManager) (q : gmap string quarantineEntry) (rs : list issueRequest)
  : gmap string string :=
  planDynamicIdentifiers (smPlanner m) (λ d, IsQuarantined now d q)
    (rqDomain <$> List.filter (λ r, negb (retried r)) rs)
  ∪ list_to_map ((λ r, (rqDomain r, rqDomain r)) <$> List.filter retried rs).

Definition plannedFor (ids : gmap string string) (r : issueRequest) : string := default "" (ids !! rqDomain r).

Definition plannedSet (ids : gmap string string) (rs : list issueRequest) : list string :=
  sort_strings (foldl (λ l r, add_new l (plannedFor ids r)) [] rs).

(** One partition of [planOrders], under the lock. *)
Definition planPartition (ids : gmap string string) (rs : list issueRequest)
    (st : list issueOrder * list issueRequest * gset string) (partition : list string)
  : list issueOrder * list issueRequest * gset string :=
  let '(orders, dropped, busy) := st in
  let mine := List.filter (λ i, negb (bool_decide (i ∈ busy) && is_wildcard i)) partition in
  let requests := List.filter (λ r, str_contains mine (plannedFor ids r)) rs in
  let covered := List.filter (λ r, negb (str_contains mine (plannedFor ids r)) && str_contains partition (plannedFor ids r)) rs in
  if Nat.eqb (length mine) 0 then (orders, dropped ++ covered, busy)
  else (orders ++ [mkOrder mine requests ids], dropped ++ covered, list_to_set mine ∪ busy).

Definition planOrders (m : SANCertManager) (ids : gmap string string) (rs : list issueRequest) (s : Issuer)
  : list issueOrder * list issueRequest * Issuer :=
  let '(orders, dropped, busy) :=
    foldl (planPartition ids rs) ([], [], inflightIdentifiers s)
      (splitByProviderZone (smPlanner m) (plannedSet ids rs)) in
  (orders, dropped, mkIssuer (queue s) (queued s) (inflight s) busy).

Definition releaseIdentifiers (ids : list string) (s : Issuer) : Issuer :=
  mkIssuer (queue s) (queued s) (inflight s) (inflightIdentifiers s ∖ list_to_set ids).

(** ** Failures *)

(** The requests of an order that are not blamed: their identifier did not
    fail, or it is a wildcard, which is to blame itself. *)
Definition unblamed (failed : list string) (o : issueOrder) : list issueRequest :=
  List.filter (λ r, let i := plannedFor (identifierOf o) r in
                    negb (str_contains failed i && negb (is_wildcard i))) (oRequests o).

(** [handleRateLimited]: the holds, and who is submitted again. *)
Definition handleRateLimited (now : Z) (o : issueOrder) (l : acmeRateLimit) (q : gmap string quarantineEntry)
  : gmap string quarantineEntry * list issueRequest :=
  let hold q d := (RecordRateLimited now d (retryAfter l) q).1 in
  let named := rateLimitedDomains l (oIdentifiers o) in
  let accountLevel := Nat.eqb (length named) 0 in
  let failed := if accountLevel then oIdentifiers o else named in
  let q := foldl hold q failed in
  if accountLevel then (foldl hold q (rqDomain <$> oRequests o), [])
  else (q, unblamed failed o).

(** [handleObtainFailure], up to the release of the holds. *)
Definition handleObtainFailure (now : Z) (preflight : option (string → bool)) (e : OrderError) (o : issueOrder)
    (m : SANCertManager) (q : gmap string quarantineEntry) : gmap string quarantineEntry * list issueRequest :=
  match parseRateLimited retry_after_in e with
  | Some l => handleRateLimited now o l q
  | None =>
      let fail q d := (RecordFailure now d quarantineACME q).1 in
      let failed := identifyFailedDomains e (oIdentifiers o) preflight (hasDNSProviderFor (smPlanner m)) in
      let left := unblamed failed o in
      (foldl fail (foldl fail q failed) (rqDomain <$> List.filter retried left),
       (λ r, mkRequest (rqDomain r) (rqService r) true) <$> List.filter (λ r, negb (retried r)) left)
  end.

(** Survivors go back to the queue, unless they were asked for again meanwhile. *)
Definition requeue (s : Issuer) (r : issueRequest) : Issuer :=
  if bool_decide (rqDomain r ∈ queued s) then s
  else mkIssuer (queue s ++ [r]) ({[rqDomain r]} ∪ queued s) (inflight s) (inflightIdentifiers s).

(** ** The issuer at work *)

(** The goroutine of a batch, by what it does next. *)
Inductive Task :=
| TProbe (batch todo kept : list issueRequest)
| TPlan (batch kept : list issueRequest)
| TOrder (batch kept : list issueRequest) (ids : gmap string string)
| TDrop (released : list issueRequest) (orders : list issueOrder)
| TIssue (orders : list issueOrder)
| TObtain (o : issueOrder) (rest : list issueOrder)
| TStamp (o : issueOrder) (r : option (Z * Z)) (rest : list issueOrder)
| TAdopt (o : issueOrder) (r : option (Z * Z)) (directory : string) (rest : list issueOrder)
| TFinish (o : issueOrder) (survivors : option (list issueRequest)) (rest : list issueOrder)
| TRequeue (o : issueOrder) (survivors : list issueRequest) (rest : list issueOrder)
| TRelease (o : issueOrder) (rest : list issueOrder).

(** [run]: waiting to be woken, draining the queue, or holding a batch that
    waits for its token or its slot; [RGone] has returned. *)
Inductive Runner :=
| RWait
| RLoop
| RToken (batch : list issueRequest)
| RSlot (batch : list issueRequest)
| RGone (batch : list issueRequest).

(** [wNotifies] counts the calls of [notify] that are about to be made, after
    the lock was released; [wRenewals] is what each renewal took out of the
    queue and did not give back yet, which it may do piece by piece. *)
Record World := mkWorld {
  wIssuer : Issuer;
  wManager : SANCertManager;
  wQuarantine : gmap string quarantineEntry;
  wRunner : Runner;
  wTasks : gmap nat Task;
  wRenewals : gmap nat (list string);
  wWake : bool;
  wNotifies : nat;
  wStopped : bool }.

Definition with_issuer (s : Issuer) (w : World) : World :=
  mkWorld s (wManager w) (wQuarantine w) (wRunner w) (wTasks w) (wRenewals w) (wWake w) (wNotifies w) (wStopped w).
Definition with_held (q : gmap string quarantineEntry) (w : World) : World :=
  mkWorld (wIssuer w) (wManager w) q (wRunner w) (wTasks w) (wRenewals w) (wWake w) (wNotifies w) (wStopped w).
Definition with_manager (m : SANCertManager) (w : World) : World :=
  mkWorld (wIssuer w) m (wQuarantine w) (wRunner w) (wTasks w) (wRenewals w) (wWake w) (wNotifies w) (wStopped w).
Definition with_runner (r : Runner) (w : World) : World :=
  mkWorld (wIssuer w) (wManager w) (wQuarantine w) r (wTasks w) (wRenewals w) (wWake w) (wNotifies w) (wStopped w).
Definition with_tasks (ts : gmap nat Task) (w : World) : World :=
  mkWorld (wIssuer w) (wManager w) (wQuarantine w) (wRunner w) ts (wRenewals w) (wWake w) (wNotifies w) (wStopped w).
Definition with_renewals (rs : gmap nat (list string)) (w : World) : World :=
  mkWorld (wIssuer w) (wManager w) (wQuarantine w) (wRunner w) (wTasks w) rs (wWake w) (wNotifies w) (wStopped w).
Definition with_wake (b : bool) (n : nat) (w : World) : World :=
  mkWorld (wIssuer w) (wManager w) (wQuarantine w) (wRunner w) (wTasks w) (wRenewals w) b n (wStopped w).
Definition with_stopped (w : World) : World :=
  mkWorld (wIssuer w) (wManager w) (wQuarantine w) (wRunner w) (wTasks w) (wRenewals w) (wWake w) (wNotifies w) true.

Definition set_task (i : nat) (t : Task) (w : World) : World := with_tasks (<[i := t]> (wTasks w)) w.

(** A probe finds a name without a certificate unreachable. *)
Definition unreachable (preflight : option (string → bool)) (m : SANCertManager) (d : string) : bool :=
  match preflight with Some ok => negb (HasCertificate m d) && negb (ok d) | None => false end.

(** What a step was, as far as the statements below tell apart; a refusal may
    be the server's rate limit. *)
Inductive Event := EvAsked (accepted : bool) (domain : string) | EvRefused (rateLimited : bool) (o : issueOrder) | EvOther.

(** What a step of a goroutine does to the issuer, the manager and the
    quarantine, and whether it is about to notify the runner.  [stopped]: the
    context was cancelled. *)
Inductive task_step (stopped : bool) (s : Issuer) (m : SANCertManager) (q : gmap string quarantineEntry)
  : Task → Issuer → SANCertManager → gmap string quarantineEntry → Task → bool → Event → Prop :=
| ts_reachable preflight r batch todo kept :
    unreachable preflight m (rqDomain r) = false →
    task_step stopped s m q (TProbe batch (r :: todo) kept) s m q (TProbe batch todo (kept ++ [r])) false EvOther
| ts_unreachable now preflight r batch todo kept :
    unreachable preflight m (rqDomain r) = true →
    task_step stopped s m q (TProbe batch (r :: todo) kept)
      s m (if stopped then q else (RecordFailure now (rqDomain r) quarantinePreflight q).1) (TProbe batch todo kept) false EvOther
| ts_probed batch kept :
    task_step stopped s m q (TProbe batch [] kept) s m q (TPlan batch kept) false EvOther
| ts_plan now batch kept :
    task_step stopped s m q (TPlan batch kept) s m q (TOrder batch kept (planIdentifiers now m q kept)) false EvOther
| ts_order batch kept ids orders dropped s' :
    planOrders m ids kept s = (orders, dropped, s') →
    task_step stopped s m q (TOrder batch kept ids) s' m q
      (TDrop (dropped ++ List.filter (λ r, negb (bool_decide (r ∈ kept))) batch) orders) false EvOther
| ts_drop released orders :
    task_step stopped s m q (TDrop released orders) (finishBatch released s) m q (TIssue orders) false EvOther
| ts_issue o rest :
    task_step stopped s m q (TIssue (o :: rest)) s m q (TObtain o rest) false EvOther
| ts_obtained r o rest :
    task_step stopped s m q (TObtain o rest) s m q (TStamp o r rest) false EvOther
| ts_aborted o rest :
    stopped = true → task_step stopped s m q (TObtain o rest) s m q (TFinish o None rest) false EvOther
| ts_failed now preflight e o rest q' survivors :
    stopped = false → handleObtainFailure now preflight e o m q = (q', survivors) →
    task_step stopped s m q (TObtain o rest) s m q' (TFinish o (Some survivors) rest) false
      (EvRefused (bool_decide (is_Some (parseRateLimited retry_after_in e))) o)
| ts_stamp o r rest :
    task_step stopped s m q (TStamp o r rest) s m q (TAdopt o r (directoryForDomains m (oIdentifiers o)) rest) false EvOther
| ts_adopted o r directory rest m' c :
    adoptCertificateAt sha256_hex r (oIdentifiers o) directory m = (m', Some c) →
    task_step stopped s m q (TAdopt o r directory rest)
      s m' (foldl (λ q d, Clear d q) q (oIdentifiers o ++ (rqDomain <$> oRequests o))) (TFinish o None rest) false EvOther
| ts_unreadable now o r directory rest m' :
    adoptCertificateAt sha256_hex r (oIdentifiers o) directory m = (m', None) →
    task_step stopped s m q (TAdopt o r directory rest)
      s m' (foldl (λ q d, (RecordFailure now d quarantineACME q).1) q (rqDomain <$> oRequests o)) (TFinish o None rest) false EvOther
| ts_finish o rest :
    task_step stopped s m q (TFinish o None rest) (finishBatch (oRequests o) s) m q (TRelease o rest) false EvOther
| ts_finish_failed o survivors rest :
    task_step stopped s m q (TFinish o (Some survivors) rest) (finishBatch (oRequests o) s) m q (TRequeue o survivors rest) false EvOther
| ts_requeue o survivors rest :
    task_step stopped s m q (TRequeue o survivors rest) (foldl requeue s survivors) m q (TRelease o rest) true EvOther
| ts_release o rest :
    task_step stopped s m q (TRelease o rest) (releaseIdentifiers (oIdentifiers o) s) m q (TIssue rest) false EvOther.

Inductive issuer_step (w : World) : Event → World → Prop :=
| is_env m q : issuer_step w EvOther (with_manager m (with_held q w))
| is_request now domain service q s' notify :
    Request now domain service q (wIssuer w) = (s', notify) →
    issuer_step w (EvAsked notify domain)
      (with_wake (wWake w) (wNotifies w + if notify then 1 else 0) (with_issuer s' w))
| is_notify n : wNotifies w = S n → issuer_step w EvOther (with_wake true n w)
| is_woken : wRunner w = RWait → wWake w = true → issuer_step w EvOther (with_runner RLoop (with_wake false (wNotifies w) w))
| is_next now batch s' :
    wRunner w = RLoop → nextBatch now (wManager w) (wQuarantine w) (wIssuer w) = (batch, s') →
    issuer_step w EvOther (with_runner (if Nat.eqb (length batch) 0 then RWait else RToken batch) (with_issuer s' w))
| is_token batch : wRunner w = RToken batch → issuer_step w EvOther (with_runner (RSlot batch) w)
| is_start i batch :
    wRunner w = RSlot batch → wTasks w !! i = None → (size (wTasks w) < MaxConcurrentOrders)%nat →
    issuer_step w EvOther (set_task i (TProbe batch batch []) (with_runner RLoop w))
| is_task i t s' m' q' t' notify ev :
    wTasks w !! i = Some t →
    task_step (wStopped w) (wIssuer w) (wManager w) (wQuarantine w) t s' m' q' t' notify ev →
    issuer_step w ev
      (with_wake (wWake w) (wNotifies w + if notify then 1 else 0)
         (set_task i t' (with_issuer s' (with_manager m' (with_held q' w)))))
| is_ended i : wTasks w !! i = Some (TIssue []) → issuer_step w EvOther (with_tasks (delete i (wTasks w)) w)
| is_take now i service n taken s' :
    default [] (wRenewals w !! i) = [] →
    takePending now (wManager w) (wQuarantine w) service n (wIssuer w) = (taken, s') →
    issuer_step w EvOther (with_renewals (<[i := taken]> (wRenewals w)) (with_issuer s' w))
| is_return i taken gone kept :
    wRenewals w !! i = Some taken → taken ≡ₚ gone ++ kept →
    issuer_step w EvOther
      (with_wake (wWake w) (wNotifies w + 1)
         (with_renewals (<[i := kept]> (wRenewals w)) (with_issuer (releaseDomains gone (wIssuer w)) w)))
| is_stop : issuer_step w EvOther (with_stopped w)
| is_gone batch :
    wStopped w = true →
    (wRunner w = RWait ∧ batch = []) ∨ wRunner w = RToken batch ∨ wRunner w = RSlot batch →
    issuer_step w EvOther (with_runner (RGone batch) w).

(** The runs of an issuer, with what happened in them. *)
Inductive issuer_run : World → list Event → World → Prop :=
| ir_refl w : issuer_run w [] w
| ir_step w e w1 es w2 : issuer_step w e w1 → issuer_run w1 es w2 → issuer_run w (e :: es) w2.

Definition newDomainIssuer (m : SANCertManager) (q : gmap string quarantineEntry) : World :=
  mkWorld (mkIssuer [] ∅ ∅ ∅) m q RWait ∅ ∅ false 0 false.

(** ** Taking requests *)

Ltac nat_test := repeat match goal with Ht : (0 <? _)%nat = true |- _ => apply Nat.ltb_lt in Ht end.

Lemma collect_spec n ok rs :
  (collect n ok rs).1 ++ (collect n ok rs).2 ≡ₚ rs ∧ (length (collect n ok rs).1 ≤ n)%nat ∧
  (∀ r, r ∈ (collect n ok rs).1 → ok r = true).
Proof.
  revert n. induction rs as [|r rs IH]; intros n; cbn [collect]; [split; [done|split; [cbn; lia|by intros ? ?%elem_of_nil]]|].
  case_goal; breflect.
  - destruct (IH (n - 1)%nat) as (Hp & Hlen & Hok). destruct (collect (n - 1) ok rs) as [t rem]. cbn [fst snd app length] in *.
    nat_test. split; [by rewrite Hp|split; [lia|]]. intros x [->|Hx]%elem_of_cons; [done|auto].
  - destruct (IH n) as (Hp & Hlen & Hok). destruct (collect n ok rs) as [t rem]. cbn [fst snd app length] in *.
    split; [|done]. rewrite <-Hp. symmetry. apply Permutation_middle.
Qed.

Lemma takeFrom_spec now m q service n infl rs taken remaining infl' :
  takeFrom now m q service n infl rs = (taken, remaining, infl') →
  NoDup (rqDomain <$> rs) →
  taken ++ (rqDomain <$> remaining) ≡ₚ rqDomain <$> rs ∧ (length taken ≤ n)%nat ∧
  (∀ d, d ∈ taken → d ∉ infl) ∧ infl' = list_to_set taken ∪ infl ∧
  (∀ r, r ∈ remaining → r ∈ rs) ∧ (∀ r, r ∈ rs → rqDomain r ∉ taken → r ∈ remaining).
Proof.
  revert n infl taken remaining infl'. induction rs as [|r rs IH]; intros n infl taken remaining infl' Heq Hnd; cbn [takeFrom] in Heq.
  { injection Heq as <- <- <-. split; [done|split; [cbn; lia|split; [|split; [set_solver|done]]]]. by intros d ?%elem_of_nil. }
  rewrite fmap_cons in Hnd. apply NoDup_cons in Hnd as [Hr Hnd]. revert Heq. case_goal; breflect; intros Heq.
  - destruct (takeFrom now m q service (n - 1) _ rs) as [[t rem] i] eqn:Hrec. injection Heq as <- <- <-.
    destruct (IH _ _ _ _ _ Hrec Hnd) as (Hp & Hlen & Hfresh & -> & Hsub & Hkeep). clear IH Hrec. unfold issuable in *. breflect.
    nat_test. split; [cbn; by rewrite Hp|split; [cbn; lia|split; [|split; [set_solver|split; [set_solver|]]]]].
    + intros d [->|Hd]%elem_of_cons; [done|]. specialize (Hfresh d Hd). set_solver.
    + intros x [->|Hx]%elem_of_cons; [set_solver|]. intros Hd. apply Hkeep; [done|set_solver].
  - destruct (takeFrom now m q service n infl rs) as [[t rem] i] eqn:Hrec. injection Heq as <- <- <-.
    destruct (IH _ _ _ _ _ Hrec Hnd) as (Hp & Hlen & Hfresh & -> & Hsub & Hkeep). clear IH Hrec.
    split; [|split; [done|split; [done|split; [done|split; [set_solver|]]]]].
    + rewrite !fmap_cons, <-Hp. symmetry. apply Permutation_middle.
    + intros x [->|Hx]%elem_of_cons; [set_solver|]. intros Hd. right. auto.
Qed.

Lemma nextBatchFrom_spec now m q infl rs qd batch remaining qd' :
  nextBatchFrom now m q infl rs qd = (batch, remaining, qd') →
  (∃ gone, gone ++ batch ++ remaining ≡ₚ rs ∧
     (∀ d, d ∈ qd' ↔ d ∈ qd ∧ d ∉ rqDomain <$> (gone ++ batch)) ∧
     (∀ r, r ∈ gone → issuable now m q infl (rqDomain r) = false)) ∧
  (∀ r, r ∈ batch → issuable now m q infl (rqDomain r) = true) ∧
  (batch = [] → remaining = []) ∧
  (∀ r, head batch = Some r → (length batch ≤ Z.to_nat (Z.max 1 (batchSizeFor (rqService r))))%nat ∧
     Forall (λ r', rqService r' = rqService r ∧
       providerPartitionKey (smPlanner m) (rqDomain r') = providerPartitionKey (smPlanner m) (rqDomain r)) batch).
Proof.
  revert qd. induction rs as [|r rs IH]; intros qd Heq; cbn [nextBatchFrom] in Heq.
  { injection Heq as <- <- <-. split; [|split; [by intros r ?%elem_of_nil|done]]. exists [].
    split; [done|split; [set_solver|]]. by intros r ?%elem_of_nil. }
  revert Heq. case_goal; breflect; intros Heq.
  - destruct (IH _ Heq) as ((gone & Hp & Hq & Hgone) & Hrest). split; [|done]. exists (r :: gone).
    split; [cbn; by rewrite Hp|split].
    + intros d. rewrite Hq. set_solver.
    + intros x [->|Hx]%elem_of_cons; [done|auto].
  - destruct (collect_spec (Z.to_nat (batchSizeFor (rqService r) - 1)) (batchmate now m q infl r) rs) as (Hp & Hlen & Hok).
    destruct (collect _ _ rs) as [mates rem]. injection Heq as <- <- <-. cbn [fst snd] in *.
    assert (Hmates : ∀ x, x ∈ mates → rqService x = rqService r ∧ issuable now m q infl (rqDomain x) = true ∧
      providerPartitionKey (smPlanner m) (rqDomain x) = providerPartitionKey (smPlanner m) (rqDomain r)).
    { intros x Hx. specialize (Hok x Hx). unfold batchmate in Hok. rewrite !andb_true_iff, !String.eqb_eq in Hok. tauto. }
    split; [|split; [|split; [done|]]].
    + exists []. split; [cbn; by rewrite Hp|split; [|by intros x ?%elem_of_nil]].
      intros d. cbn [app]. rewrite fmap_cons. set_solver.
    + intros x [->|Hx]%elem_of_cons; [done|]. by apply Hmates.
    + intros x [= ->]. cbn [length]. split; [lia|]. constructor; [done|]. apply Forall_forall. intros y Hy. naive_solver.
Qed.

(** ** Planning orders *)

Definition plan_ok (ids : gmap string string) (r : issueRequest) : Prop :=
  ∃ i, ids !! rqDomain r = Some i ∧ (i = rqDomain r ∨ is_wildcard i = true).

Lemma plannedFor_ok ids r : plan_ok ids r → plannedFor ids r = rqDomain r ∨ is_wildcard (plannedFor ids r) = true.
Proof. intros (i & Hi & Hor). unfold plannedFor. by rewrite Hi. Qed.

Lemma plan_lookup now m q rs r :
  r ∈ rs → ∃ i, planIdentifiers now m q rs !! rqDomain r = Some i ∧
    (i = rqDomain r ∨ is_wildcard i = true ∧ IsQuarantined now i q = false).
Proof.
  intros Hr. unfold planIdentifiers, planDynamicIdentifiers.
  set (f := planIdentifier (smPlanner m) (λ d, IsQuarantined now d q)).
  set (fresh := rqDomain <$> List.filter (λ r, negb (retried r)) rs).
  destruct (decide (rqDomain r ∈ fresh)) as [Hin|Hout].
  - exists (f (rqDomain r)). split; [by apply lookup_union_Some_l, planned_identifier|].
    destruct (planIdentifier_shape (smPlanner m) (λ d, IsQuarantined now d q) (rqDomain r)) as [?|?]; [by left|by right].
  - exists (rqDomain r). split; [|by left]. rewrite lookup_union_r.
    + assert (Hret : r ∈ List.filter retried rs).
      { rewrite list_elem_of_In, filter_In, <-list_elem_of_In. split; [done|]. destruct (retried r) eqn:Hr'; [done|].
        destruct Hout. unfold fresh. apply list_elem_of_fmap. exists r. split; [done|].
        rewrite list_elem_of_In, filter_In, <-list_elem_of_In, Hr'. done. }
      clear -Hret. induction (List.filter retried rs) as [|x xs IH]; [by apply elem_of_nil in Hret|]. cbn.
      destruct (decide (rqDomain x = rqDomain r)) as [->|Hne]; [by rewrite lookup_insert_eq|].
      rewrite lookup_insert_ne by done. apply IH. apply elem_of_cons in Hret as [->|]; [done|done].
    + apply not_elem_of_list_to_map_1. intros (x & ? & Hx)%list_elem_of_fmap. cbn in *. apply list_elem_of_fmap in Hx as (d & -> & Hd).
      cbn in *. by subst.
Qed.

Lemma plan_ok_spec now m q rs r : r ∈ rs → plan_ok (planIdentifiers now m q rs) r.
Proof. intros Hr. destruct (plan_lookup now m q rs r Hr) as (i & Hi & [?|[? _]]); exists i; auto. Qed.

Lemma planned_not_held now m q rs r :
  r ∈ rs → plannedFor (planIdentifiers now m q rs) r = rqDomain r ∨
           IsQuarantined now (plannedFor (planIdentifiers now m q rs) r) q = false.
Proof. intros Hr. destruct (plan_lookup now m q rs r Hr) as (i & Hi & [?|[_ ?]]); unfold plannedFor; rewrite Hi; auto. Qed.

(** What an order looks like: it answers for somebody, every identifier is the
    planned one of one of its requests, and a plan is the name or a wildcard. *)
Record order_ok (o : issueOrder) : Prop := {
  ok_some : oIdentifiers o ≠ [];
  ok_identifiers : NoDup (oIdentifiers o);
  ok_requests : NoDup (rqDomain <$> oRequests o);
  ok_answers i : i ∈ oIdentifiers o → ∃ r, r ∈ oRequests o ∧ plannedFor (identifierOf o) r = i;
  ok_planned r : r ∈ oRequests o → plannedFor (identifierOf o) r ∈ oIdentifiers o;
  ok_shape r : r ∈ oRequests o →
    plannedFor (identifierOf o) r = rqDomain r ∨ is_wildcard (plannedFor (identifierOf o) r) = true }.

Definition wilds (o : issueOrder) : list string := List.filter is_wildcard (oIdentifiers o).

Lemma planPartitions ids rs parts :
  NoDup (concat parts) → ∀ orders0 dropped0 busy0 orders dropped busy,
  foldl (planPartition ids rs) (orders0, dropped0, busy0) parts = (orders, dropped, busy) →
  ∃ new, orders = orders0 ++ new ∧
    dropped ++ concat (oRequests <$> new) ≡ₚ
      dropped0 ++ List.filter (λ r, str_contains (concat parts) (plannedFor ids r)) rs ∧
    (∀ i, i ∈ busy ↔ i ∈ busy0 ∨ i ∈ concat (oIdentifiers <$> new)) ∧
    NoDup (concat (oIdentifiers <$> new)) ∧
    (∀ i, i ∈ concat (oIdentifiers <$> new) → i ∈ concat parts ∧ (is_wildcard i = true → i ∉ busy0)) ∧
    Forall (λ o, oIdentifiers o ≠ [] ∧ identifierOf o = ids ∧
      oRequests o = List.filter (λ r, str_contains (oIdentifiers o) (plannedFor ids r)) rs) new.
Proof.
  induction parts as [|p ps IH]; intros Hnd orders0 dropped0 busy0 orders dropped busy Hfold.
  { injection Hfold as <- <- <-. exists []. cbn. rewrite !app_nil_r, filter_none, app_nil_r by done.
    split; [done|split; [done|split; [set_solver|split; [constructor|split; [set_solver|constructor]]]]]. }
  cbn [concat] in Hnd. apply NoDup_app in Hnd as (Hp & Hdisj & Hps). cbn [foldl planPartition] in Hfold.
  set (mine := List.filter (λ i, negb (bool_decide (i ∈ busy0) && is_wildcard i)) p) in *.
  assert (Hmine : ∀ i, i ∈ mine ↔ i ∈ p ∧ ¬ (i ∈ busy0 ∧ is_wildcard i = true)).
  { intros i. unfold mine. rewrite elem_of_filter_bool, negb_true_iff, andb_false_iff, bool_decide_eq_false.
    destruct (is_wildcard i); naive_solver. }
  set (requests := List.filter (λ r, str_contains mine (plannedFor ids r)) rs) in *.
  set (covered := List.filter _ rs) in Hfold at 1.
  assert (Hsplit : List.filter (λ r, str_contains (concat (p :: ps)) (plannedFor ids r)) rs ≡ₚ
    (covered ++ requests) ++ List.filter (λ r, str_contains (concat ps) (plannedFor ids r)) rs).
  { rewrite (filter_or_perm (λ r, str_contains p (plannedFor ids r)) (λ r, str_contains (concat ps) (plannedFor ids r))).
    - apply Permutation_app; [|done]. apply filter_or_perm; intros r _.
      + apply eq_true_iff_eq. rewrite orb_true_iff, andb_true_iff, negb_true_iff, !str_contains_spec, <-not_true_iff_false, str_contains_spec.
        specialize (Hmine (plannedFor ids r)). destruct (decide (plannedFor ids r ∈ mine)); naive_solver.
      + destruct (str_contains mine _); cbn; [done|by rewrite andb_false_r].
    - intros r _. apply eq_true_iff_eq. rewrite orb_true_iff, !str_contains_spec. cbn [concat]. by rewrite elem_of_app.
    - intros r _. apply not_true_iff_false. rewrite andb_true_iff, !str_contains_spec. intros []. by eapply Hdisj. }
  destruct (Nat.eqb_spec (length mine) 0) as [Hnil|Hsome].
  - apply nil_length_inv in Hnil. destruct (IH Hps _ _ _ _ _ _ Hfold) as (new & -> & Hperm & Hbusy & Hnew & Hin & Hall).
    exists new. split; [done|split; [|split; [done|split; [done|split; [|done]]]]].
    + assert (Hreq : requests = []) by (unfold requests; rewrite Hnil; by apply filter_none).
      by rewrite Hperm, Hsplit, Hreq, app_nil_r, app_assoc.
    + intros i Hi. destruct (Hin i Hi). cbn [concat]. rewrite elem_of_app. auto.
  - destruct (IH Hps _ _ _ _ _ _ Hfold) as (new & -> & Hperm & Hbusy & Hnew & Hin & Hall).
    exists (mkOrder mine requests ids :: new). cbn [fmap list_fmap concat oIdentifiers oRequests].
    split; [by rewrite <-app_assoc|split; [|split; [|split; [|split]]]].
    + rewrite (Permutation_app_comm requests), app_assoc, Hperm, Hsplit. rewrite <-!app_assoc. apply Permutation_app; [done|].
      apply Permutation_app; [done|]. apply Permutation_app_comm.
    + intros i. rewrite Hbusy, elem_of_union, elem_of_list_to_set, elem_of_app. tauto.
    + apply NoDup_app. split; [by apply NoDup_filter_bool|split; [|done]]. intros i Hi Hi'.
      apply Hmine in Hi as [Hi _]. apply Hin in Hi' as [Hi' _]. by eapply Hdisj.
    + intros i [Hi|Hi]%elem_of_app.
      * apply Hmine in Hi as [Hi Hb]. split; [by apply elem_of_app; left|tauto].
      * destruct (Hin i Hi) as [Hi' Hb]. split; [by apply elem_of_app; right|]. set_solver.
    + constructor; [|done]. cbn. split; [|done]. by intros Hnil%(f_equal length).
Qed.

Lemma splitByProviderZone_perm p ds : concat (splitByProviderZone p ds) ≡ₚ ds.
Proof.
  unfold splitByProviderZone. case_goal; [cbn; by rewrite app_nil_r|]. apply group_by_perm.
Qed.

Lemma planOrders_spec m ids rs s orders dropped s' :
  planOrders m ids rs s = (orders, dropped, s') → NoDup (rqDomain <$> rs) → (∀ r, r ∈ rs → plan_ok ids r) →
  queue s' = queue s ∧ queued s' = queued s ∧ inflight s' = inflight s ∧
  dropped ++ concat (oRequests <$> orders) ≡ₚ rs ∧ Forall order_ok orders ∧
  NoDup (concat (oIdentifiers <$> orders)) ∧
  (∀ i, i ∈ inflightIdentifiers s' ↔ i ∈ inflightIdentifiers s ∨ i ∈ concat (oIdentifiers <$> orders)) ∧
  (∀ i, i ∈ concat (oIdentifiers <$> orders) → is_wildcard i = true → i ∉ inflightIdentifiers s).
Proof.
  unfold planOrders. intros Heq Hnd Hplan.
  destruct (foldl _ _ _) as [[os dr] busy] eqn:Hfold. injection Heq as <- <- <-. cbn [queue queued inflight inflightIdentifiers].
  split; [done|split; [done|split; [done|]]].
  assert (Hparts : concat (splitByProviderZone (smPlanner m) (plannedSet ids rs)) ≡ₚ foldl (λ l r, add_new l (plannedFor ids r)) [] rs).
  { rewrite splitByProviderZone_perm. apply sort_strings_perm. }
  assert (Hin : ∀ i, i ∈ concat (splitByProviderZone (smPlanner m) (plannedSet ids rs)) ↔ ∃ r, r ∈ rs ∧ i = plannedFor ids r).
  { intros i. rewrite Hparts. apply fold_add_new. }
  apply planPartitions in Hfold as (new & -> & Hperm & Hbusy & Hids & Hsub & Hall); [|rewrite Hparts; apply fold_add_new_NoDup].
  cbn [app] in *. rewrite (filter_all _ rs) in Hperm.
  2:{ intros r Hr. apply str_contains_spec, Hin. eauto. }
  split; [done|split; [|split; [done|split; [done|]]]].
  - rewrite Forall_forall in *. intros o Ho. destruct (Hall o Ho) as (Hsome & Hof & Hreq).
    assert (Hmem : ∀ r, r ∈ oRequests o ↔ r ∈ rs ∧ plannedFor ids r ∈ oIdentifiers o).
    { intros r. by rewrite Hreq, elem_of_filter_bool, str_contains_spec. }
    split; [done| | | | |]; rewrite ?Hof.
    + clear -Hids Ho. induction Ho as [o os|o o' os Ho IH]; cbn in Hids; apply NoDup_app in Hids; [tauto|]. apply IH. tauto.
    + rewrite Hreq. clear -Hnd. induction rs as [|r rs IH]; cbn in *; [done|]. apply NoDup_cons in Hnd as [Hr Hnd].
      case_goal; [|auto]. cbn. apply NoDup_cons. split; [|auto]. intros (x & Heq & Hx)%list_elem_of_fmap.
      apply elem_of_filter_bool in Hx as [Hx _]. apply Hr, list_elem_of_fmap. eauto.
    + intros i Hi. destruct (Hsub i) as [Hi' _]; [apply elem_of_concat_fmap; eauto|].
      apply Hin in Hi' as (r & Hr & ->). exists r. split; [|done]. by apply Hmem.
    + intros r Hr. by apply Hmem.
    + intros r Hr. apply plannedFor_ok, Hplan. by apply Hmem in Hr as [Hr _].
  - intros i Hi. by apply Hsub.
Qed.

(** ** Who holds what *)

Definition task_requests (t : Task) : list issueRequest :=
  match t with
  | TProbe batch _ _ | TPlan batch _ | TOrder batch _ _ => batch
  | TDrop released orders => released ++ concat (oRequests <$> orders)
  | TIssue orders => concat (oRequests <$> orders)
  | TObtain o rest | TStamp o _ rest | TAdopt o _ _ rest | TFinish o _ rest => oRequests o ++ concat (oRequests <$> rest)
  | TRequeue _ _ rest | TRelease _ rest => concat (oRequests <$> rest)
  end.

Definition task_orders (t : Task) : list issueOrder :=
  match t with
  | TProbe _ _ _ | TPlan _ _ | TOrder _ _ _ => []
  | TDrop _ orders | TIssue orders => orders
  | TObtain o rest | TStamp o _ rest | TAdopt o _ _ rest | TFinish o _ rest | TRequeue o _ rest | TRelease o rest => o :: rest
  end.

Definition task_ok (t : Task) : Prop :=
  match t with
  | TProbe batch todo kept => kept ++ todo `sublist_of` batch
  | TPlan batch kept => kept `sublist_of` batch
  | TOrder batch kept ids => kept `sublist_of` batch ∧ ∀ r, r ∈ kept → plan_ok ids r
  | _ => Forall order_ok (task_orders t)
  end.

Definition runner_requests (r : Runner) : list issueRequest :=
  match r with RToken batch | RSlot batch | RGone batch => batch | _ => [] end.

Inductive Holder := HRunner | HTask (i : nat) | HRenewal (i : nat).

#[local] Instance Holder_eq_dec : EqDecision Holder.
Proof. solve_decision. Defined.

Definition holds (w : World) (h : Holder) : list string :=
  match h with
  | HRunner => rqDomain <$> runner_requests (wRunner w)
  | HTask i => match wTasks w !! i with Some t => rqDomain <$> task_requests t | None => [] end
  | HRenewal i => default [] (wRenewals w !! i)
  end.

Definition wild_holds (w : World) (h : Holder) : list string :=
  match h with
  | HTask i => match wTasks w !! i with Some t => concat (wilds <$> task_orders t) | None => [] end
  | _ => []
  end.

Definition wild_set (s : Issuer) : gset string := filter (λ i, is_wildcard i = true) (inflightIdentifiers s).

Definition queue_ok (s : Issuer) : Prop :=
  NoDup (rqDomain <$> queue s) ∧ ∀ d, d ∈ queued s ↔ d ∈ rqDomain <$> queue s.

Record issuer_ok (w : World) : Prop := {
  io_queue : queue_ok (wIssuer w);
  io_domains : hold_ok (inflight (wIssuer w)) (holds w);
  io_wilds : hold_ok (wild_set (wIssuer w)) (wild_holds w);
  io_tasks i t : wTasks w !! i = Some t → task_ok t;
  io_slots : (size (wTasks w) ≤ MaxConcurrentOrders)%nat;
  io_wake : wRunner w = RWait → queue (wIssuer w) = [] ∨ wWake w = true ∨ (0 < wNotifies w)%nat }.

Lemma requeues_ok rs s :
  queue_ok s → queue_ok (foldl requeue s rs) ∧ inflight (foldl requeue s rs) = inflight s ∧
  inflightIdentifiers (foldl requeue s rs) = inflightIdentifiers s.
Proof.
  revert s. induction rs as [|r rs IH]; intros s [Hnd Hq]; [done|]. cbn [foldl]. unfold requeue at 2 4 6. case_goal; breflect; [by apply IH|].
  destruct (IH (mkIssuer (queue s ++ [r]) ({[rqDomain r]} ∪ queued s) (inflight s) (inflightIdentifiers s))) as (? & -> & ->); [|done].
  split; cbn [queue queued]; rewrite fmap_app.
  - apply NoDup_app. split; [done|split; [|apply NoDup_singleton]]. intros d Hd ->%list_elem_of_singleton. by apply Hq in Hd.
  - intros d. rewrite elem_of_union, elem_of_singleton, Hq, elem_of_app. cbn. set_solver.
Qed.

Lemma NoDup_rest (kept batch : list issueRequest) :
  kept `sublist_of` batch → NoDup batch →
  List.filter (λ r, negb (bool_decide (r ∈ kept))) batch ++ kept ≡ₚ batch.
Proof.
  induction 1 as [|r kept batch Hsub IH|r kept batch Hsub IH]; intros Hnd; [done|..]; apply NoDup_cons in Hnd as [Hr Hnd]; cbn [List.filter].
  - rewrite bool_decide_true by set_solver. cbn [negb]. rewrite <-Permutation_middle. f_equiv.
    rewrite (filter_ext_in _ (λ r, negb (bool_decide (r ∈ kept)))); [auto|].
    intros x Hx%list_elem_of_In. f_equal. apply bool_decide_ext. rewrite elem_of_cons. naive_solver.
  - rewrite bool_decide_false by (intros Hin; by eapply Hr, elem_of_sublist). cbn. f_equiv. auto.
Qed.

(** How the holds change from one state of a goroutine to the next: domains are
    only given back; identifiers are taken or given back. *)
Definition holds_change (s s' : Issuer) (t t' : Task) : Prop :=
  (∃ gone, rqDomain <$> task_requests t ≡ₚ gone ++ (rqDomain <$> task_requests t') ∧
     ∀ d, d ∈ inflight s' ↔ d ∈ inflight s ∧ d ∉ gone) ∧
  ((∃ got, concat (wilds <$> task_orders t') ≡ₚ got ++ concat (wilds <$> task_orders t) ∧ NoDup got ∧
      (∀ i, i ∈ got → i ∉ wild_set s) ∧ (∀ i, i ∈ wild_set s' ↔ i ∈ got ∨ i ∈ wild_set s)) ∨
   (∃ lost, concat (wilds <$> task_orders t) ≡ₚ lost ++ concat (wilds <$> task_orders t') ∧
      ∀ i, i ∈ wild_set s' ↔ i ∈ wild_set s ∧ i ∉ lost)).

Lemma holds_same s s' t t' :
  inflight s' = inflight s → wild_set s' = wild_set s →
  rqDomain <$> task_requests t' = rqDomain <$> task_requests t → task_orders t' = task_orders t → holds_change s s' t t'.
Proof.
  intros Hi Hw Hr Ho. unfold holds_change. rewrite Hi, Hw, Hr, Ho.
  split; [exists []; set_solver|]. right. exists []. set_solver.
Qed.

Lemma holds_released s t t' rs :
  task_requests t = rs ++ task_requests t' → task_orders t' = task_orders t → holds_change s (finishBatch rs s) t t'.
Proof.
  intros Hr Ho. unfold holds_change. rewrite Hr, Ho, fmap_app. split.
  - exists (rqDomain <$> rs). split; [done|]. intros d. cbn. rewrite elem_of_difference, elem_of_list_to_set. done.
  - right. exists []. split; [done|]. intros i. cbn. set_solver.
Qed.

Lemma wild_order s o :
  ∀ i, i ∈ wild_set (releaseIdentifiers (oIdentifiers o) s) ↔ i ∈ wild_set s ∧ i ∉ wilds o.
Proof.
  intros i. unfold wild_set, wilds. cbn. rewrite !elem_of_filter, elem_of_difference, elem_of_list_to_set, elem_of_filter_bool. tauto.
Qed.

Lemma concat_wilds os : concat (wilds <$> os) = List.filter is_wildcard (concat (oIdentifiers <$> os)).
Proof. induction os as [|o os IH]; [done|]. cbn. by rewrite List.filter_app, IH. Qed.

(** What a step of a goroutine does to the holds. *)
Lemma task_step_holds stopped s m q t s' m' q' t' notify ev :
  task_step stopped s m q t s' m' q' t' notify ev → task_ok t → NoDup (rqDomain <$> task_requests t) → queue_ok s →
  task_ok t' ∧ holds_change s s' t t' ∧ queue_ok s' ∧ (queue s' = queue s ∨ notify = true).
Proof.
  intros Hstep Hok Hnd Hq. destruct Hstep as [pre r b todo kept Hr|now pre r b todo kept Hr|b kept|now b kept|b kept ids os dropped s' Hplan|
    rel os|o rest|r o rest|o rest Hs|now pre e o rest q' sv Hs Hf|o r rest|o r dir rest m' c Ha|now o r dir rest m' Ha|o rest|o sv rest|o sv rest|o rest];
    try (split; [|split; [by apply holds_same|by auto]]); try exact Hok.
  - cbn in *. by rewrite <-app_assoc.
  - cbn in *. etrans; [|exact Hok]. apply sublist_app; [done|by apply sublist_cons].
  - cbn in *. by rewrite app_nil_r in Hok.
  - split; [done|]. intros r Hr. by apply plan_ok_spec.
  - destruct Hok as [Hsub Hpl]. cbn [task_requests] in Hnd.
    assert (Hkept : NoDup (rqDomain <$> kept)) by (eapply sublist_NoDup; [exact Hnd|by apply fmap_sublist]).
    destruct (planOrders_spec _ _ _ _ _ _ _ Hplan Hkept Hpl) as (Hq1 & Hq2 & Hi & Hperm & Hos & Hids & Hids' & Hfresh).
    split; [exact Hos|]. unfold queue_ok. rewrite Hq1, Hq2. split; [|auto]. split.
    + exists []. rewrite Hi. split; [|set_solver]. cbn [task_requests app]. rewrite <-app_assoc, (Permutation_app_comm (List.filter _ _)), app_assoc, Hperm.
      rewrite (Permutation_app_comm kept), NoDup_rest by (try done; by eapply NoDup_fmap_1). done.
    + left. exists (concat (wilds <$> os)). cbn [task_orders fmap list_fmap concat]. rewrite app_nil_r, concat_wilds.
      split; [done|split; [by apply NoDup_filter_bool|]]. unfold wild_set. setoid_rewrite elem_of_filter. setoid_rewrite elem_of_filter_bool.
      setoid_rewrite Hids'. split; [intros i [Hi' Hw] [_ Hb]; by eapply Hfresh|]. intros i. naive_solver.
  - split; [exact Hok|split; [by apply holds_released|by auto]].
  - split; [exact Hok|split; [by apply holds_released|by auto]].
  - split; [exact Hok|split; [by apply holds_released|by auto]].
  - destruct (requeues_ok sv s Hq) as (Hq' & Hi & Hw). split; [exact Hok|split; [|by auto]].
    apply holds_same; try done. unfold wild_set. by rewrite Hw.
  - split; [by apply Forall_cons in Hok as [_ Hok]|split; [|by auto]]. split.
    + exists []. split; [done|]. set_solver.
    + right. exists (wilds o). split; [done|]. by apply wild_order.
Qed.

(** The holds of the world change as those of the one task that moved. *)
Lemma task_moved w w' i t t' :
  wTasks w !! i = Some t → wTasks w' = <[i := t']> (wTasks w) → wRunner w' = wRunner w → wRenewals w' = wRenewals w →
  hold_ok (inflight (wIssuer w)) (holds w) → hold_ok (wild_set (wIssuer w)) (wild_holds w) →
  holds_change (wIssuer w) (wIssuer w') t t' →
  hold_ok (inflight (wIssuer w')) (holds w') ∧ hold_ok (wild_set (wIssuer w')) (wild_holds w').
Proof.
  intros Hi Hts Hrun Hren Hd Hw [(gone & Hgone & Hinfl) Hwild].
  assert (Hat : holds w' (HTask i) = rqDomain <$> task_requests t') by (cbn; by rewrite Hts, lookup_insert_eq).
  assert (Hwat : wild_holds w' (HTask i) = concat (wilds <$> task_orders t')) by (cbn; by rewrite Hts, lookup_insert_eq).
  assert (Hother : ∀ h, h ≠ HTask i → holds w' h = holds w h ∧ wild_holds w' h = wild_holds w h).
  { intros [|j|j] Hne; cbn; [by rewrite Hrun| |by rewrite Hren]. rewrite Hts, lookup_insert_ne by congruence. done. }
  split.
  - apply (hold_ok_release (inflight (wIssuer w)) _ (holds w) _ (HTask i) gone); [done| |intros h ?; by apply Hother|done].
    rewrite Hat. cbn. by rewrite Hi.
  - destruct Hwild as [(got & Hgot & Hnd & Hfresh & Hset)|(lost & Hlost & Hset)].
    + apply (hold_ok_take (wild_set (wIssuer w)) _ (wild_holds w) _ (HTask i) got); [done..| |intros h ?; by apply Hother|done].
      rewrite Hwat. cbn. by rewrite Hi.
    + apply (hold_ok_release (wild_set (wIssuer w)) _ (wild_holds w) _ (HTask i) lost); [done| |intros h ?; by apply Hother|done].
      rewrite Hwat. cbn. by rewrite Hi.
Qed.

Lemma holds_ext w w' : (∀ h, holds w' h = holds w h) → hold_ok (inflight (wIssuer w)) (holds w) → hold_ok (inflight (wIssuer w)) (holds w').
Proof. intros Heq. apply hold_ok_ext. intros h. by rewrite Heq. Qed.

Lemma wild_holds_ext w w' : (∀ h, wild_holds w' h = wild_holds w h) → hold_ok (wild_set (wIssuer w)) (wild_holds w) → hold_ok (wild_set (wIssuer w)) (wild_holds w').
Proof. intros Heq. apply hold_ok_ext. intros h. by rewrite Heq. Qed.

(** Taking a batch off the queue. *)
Lemma nextBatch_spec now m q s batch s' :
  nextBatch now m q s = (batch, s') → queue_ok s →
  queue_ok s' ∧ inflightIdentifiers s' = inflightIdentifiers s ∧ NoDup (rqDomain <$> batch) ∧
  (∀ d, d ∈ rqDomain <$> batch → d ∉ inflight s) ∧
  (∀ d, d ∈ inflight s' ↔ d ∈ rqDomain <$> batch ∨ d ∈ inflight s) ∧
  (batch = [] → queue s' = []).
Proof.
  unfold nextBatch. intros Heq [Hnd Hq]. destruct (nextBatchFrom _ _ _ _ _ _) as [[b remaining] qd] eqn:Hfrom. injection Heq as <- <-.
  destruct (nextBatchFrom_spec _ _ _ _ _ _ _ _ _ Hfrom) as ((gone & Hperm & Hqd & _) & Hissuable & Hempty & _).
  cbn [queue queued inflight inflightIdentifiers]. rewrite <-Hperm, !fmap_app in Hnd.
  apply NoDup_app in Hnd as (Hgone & Hdisj & Hnd). apply NoDup_app in Hnd as (Hb & Hdisj' & Hrem).
  split; [split|split; [done|split; [done|split; [|split; [|done]]]]].
  - done.
  - intros d. cbn [queue queued]. rewrite Hqd, Hq, <-Hperm, !fmap_app, !elem_of_app.
    specialize (Hdisj d). rewrite elem_of_app in Hdisj. specialize (Hdisj' d). tauto.
  - intros d (r & -> & Hr)%list_elem_of_fmap. specialize (Hissuable r Hr). unfold issuable in Hissuable. by breflect.
  - intros d. by rewrite elem_of_union, elem_of_list_to_set.
Qed.

Lemma takePending_spec now m q service n s taken s' :
  takePending now m q service n s = (taken, s') → queue_ok s →
  queue_ok s' ∧ inflightIdentifiers s' = inflightIdentifiers s ∧ NoDup taken ∧ (length taken ≤ n)%nat ∧
  (∀ d, d ∈ taken → d ∉ inflight s) ∧ (∀ d, d ∈ inflight s' ↔ d ∈ taken ∨ d ∈ inflight s) ∧
  (queue s = [] → queue s' = []).
Proof.
  unfold takePending. intros Heq [Hnd Hq]. destruct (takeFrom _ _ _ _ _ _ _) as [[t remaining] infl] eqn:Hfrom. injection Heq as <- <-.
  destruct (takeFrom_spec _ _ _ _ _ _ _ _ _ _ Hfrom Hnd) as (Hperm & Hlen & Hfresh & -> & _).
  cbn [queue queued inflight inflightIdentifiers]. rewrite <-Hperm in Hnd. apply NoDup_app in Hnd as (Ht & Hdisj & Hrem).
  split; [split|split; [done|split; [done|split; [done|split; [done|split]]]]].
  - done.
  - intros d. cbn [queue queued]. rewrite elem_of_difference, elem_of_list_to_set, Hq, <-Hperm, elem_of_app. specialize (Hdisj d). tauto.
  - intros d. by rewrite elem_of_union, elem_of_list_to_set.
  - intros Hnil. rewrite Hnil in Hfrom. by injection Hfrom as <- <-.
Qed.

Lemma issuer_step_ok w e w' : issuer_step w e w' → issuer_ok w → issuer_ok w'.
Proof.
  intros Hstep [Hq Hd Hw Hts Hslots Hwake]. destruct Hstep as [m q|now d service q s' notify Hreq|n Hn|Hrun Hset|now batch s' Hrun Hnext|
    batch Hrun|i batch Hrun Hi Hsize|i t s' m' q' t' notify ev Hi Htask|i Hi|now i service n taken s' Hi Htake|i taken gone kept Hi Hsplit| |batch Hstop Hrun].
  - by split.
  - unfold Request in Hreq. destruct (IsQuarantined now d q); [injection Hreq as <- <-; split; cbn; try done; rewrite Nat.add_0_r; auto|].
    destruct (_ || _) eqn:Hbusy; injection Hreq as <- <-; [split; cbn; try done; rewrite Nat.add_0_r; auto|]. breflect.
    split; cbn; try done; [|intros _; right; right; lia]. destruct Hq as [Hnd Hq]. split; cbn; rewrite fmap_app.
    + apply NoDup_app. split; [done|split; [|apply NoDup_singleton]]. intros x Hx ->%list_elem_of_singleton. by apply Hq in Hx.
    + intros x. rewrite elem_of_union, elem_of_singleton, Hq, elem_of_app. cbn. set_solver.
  - split; cbn; auto.
  - split; cbn; try done. by apply (holds_ext w); [intros []; cbn; rewrite ?Hrun|].
  - destruct (nextBatch_spec _ _ _ _ _ _ Hnext Hq) as (Hq' & Hids & Hnd & Hfresh & Hinfl & Hempty).
    assert (Hrq : runner_requests (if Nat.eqb (length batch) 0 then RWait else RToken batch) = batch) by (by destruct batch).
    split; cbn [wIssuer wTasks wRunner wWake wNotifies with_runner with_issuer]; try done.
    + apply (hold_ok_take (inflight (wIssuer w)) _ (holds w) _ HRunner (rqDomain <$> batch)); [done..| |by intros []|done].
      cbn. by rewrite Hrq, Hrun, app_nil_r.
    + unfold wild_set. rewrite Hids. by apply (wild_holds_ext w); [intros []|].
    + destruct batch; [|done]. intros _. left. by apply Hempty.
  - split; cbn; try done. by apply (holds_ext w); [intros []; cbn; rewrite ?Hrun|].
  - split; cbn; try done.
    + apply (hold_ok_move _ (holds w) _ HRunner (HTask i)); [done|done|cbn; by rewrite Hi|done| |].
      * cbn. by rewrite lookup_insert_eq, Hrun.
      * intros [|j|j] ??; cbn; [done| |done]. by rewrite lookup_insert_ne by congruence.
    + apply (wild_holds_ext w); [|done]. intros [|j|j]; cbn; try done.
      destruct (decide (j = i)) as [->|]; [by rewrite lookup_insert_eq, Hi|by rewrite lookup_insert_ne].
    + intros j t. rewrite lookup_insert_Some. intros [[<- <-]|[_ Ht]]; [cbn; reflexivity|by eapply Hts].
    + rewrite map_size_insert_None by done. lia.
  - destruct (task_step_holds _ _ _ _ _ _ _ _ _ _ _ Htask) as (Hok & Hchange & Hq' & Hnotify).
    { by eapply Hts. }
    { pose proof (ho_nodup _ _ Hd (HTask i)) as Hnd. cbn in Hnd. by rewrite Hi in Hnd. }
    { done. }
    set (w' := with_wake _ _ _). destruct (task_moved w w' i t t') as [Hd' Hw']; try done. split; cbn; try done.
    + intros j t0. rewrite lookup_insert_Some. intros [[<- <-]|[_ Ht]]; [done|by eapply Hts].
    + by rewrite map_size_insert_Some.
    + intros Hrun. destruct Hnotify as [->| ->]; [|right; right; lia]. destruct (Hwake Hrun) as [?|[?|?]]; auto. right; right; lia.
  - split; cbn; try done.
    + apply (holds_ext w); [|done]. intros [|j|j]; cbn; try done.
      destruct (decide (j = i)) as [->|]; [by rewrite lookup_delete_eq, Hi|by rewrite lookup_delete_ne].
    + apply (wild_holds_ext w); [|done]. intros [|j|j]; cbn; try done.
      destruct (decide (j = i)) as [->|]; [by rewrite lookup_delete_eq, Hi|by rewrite lookup_delete_ne].
    + intros j t. rewrite lookup_delete_Some. intros [_ Ht]. by eapply Hts.
    + rewrite map_size_delete, Hi. cbn. lia.
  - destruct (takePending_spec _ _ _ _ _ _ _ _ Htake Hq) as (Hq' & Hids & Hnd & _ & Hfresh & Hinfl & Hempty).
    split; cbn; try done.
    + apply (hold_ok_take (inflight (wIssuer w)) _ (holds w) _ (HRenewal i) taken); [done..| | |done].
      * cbn. by rewrite lookup_insert_eq, Hi, app_nil_r.
      * intros [|j|j] ?; cbn; try done. by rewrite lookup_insert_ne by congruence.
    + unfold wild_set. rewrite Hids. by apply (wild_holds_ext w); [intros []|].
    + intros Hrun. destruct (Hwake Hrun) as [?|[?|?]]; auto.
  - split; cbn; try done.
    + apply (hold_ok_release (inflight (wIssuer w)) _ (holds w) _ (HRenewal i) gone); [done| | |].
      * cbn. by rewrite Hi, lookup_insert_eq.
      * intros [|j|j] ?; cbn; try done. by rewrite lookup_insert_ne by congruence.
      * intros d. cbn. by rewrite elem_of_difference, elem_of_list_to_set.
    + intros _. right; right; lia.
  - by split.
  - split; cbn; try done. apply (holds_ext w); [|done]. intros []; cbn; try done.
    by destruct Hrun as [[-> ->]|[-> | ->]].
Qed.

Lemma newDomainIssuer_ok m q : issuer_ok (newDomainIssuer m q).
Proof.
  split; cbn; try done.
  - split; [constructor|]. set_solver.
  - apply hold_ok_empty. by intros [].
  - assert (wild_set (mkIssuer [] ∅ ∅ ∅) = ∅) as -> by (unfold wild_set; cbn; set_solver). apply hold_ok_empty. by intros [].
  - rewrite map_size_empty. lia.
  - auto.
Qed.

Lemma issuer_run_ok w es w' : issuer_run w es w' → issuer_ok w → issuer_ok w'.
Proof. induction 1 as [w|w e w1 es w2 Hstep _ IH]; [done|]. intros Hok. by eapply IH, issuer_step_ok. Qed.

(** ** Failing orders come to an end *)

(** How many failing orders a request can still be part of. *)
Definition weight (r : issueRequest) : nat := if retried r then 1 else 2.
Definition weigh (rs : list issueRequest) : nat := sum_list_with weight rs.
#[local] Arguments weigh : simpl never.

(** The requests of a goroutine that may still be in a failing order, or go
    back to the queue. *)
Definition task_pending (t : Task) : list issueRequest :=
  match t with
  | TProbe _ todo kept => kept ++ todo
  | TPlan _ kept | TOrder _ kept _ => kept
  | TDrop _ orders | TIssue orders => concat (oRequests <$> orders)
  | TObtain o rest => oRequests o ++ concat (oRequests <$> rest)
  | TStamp _ _ rest | TAdopt _ _ _ rest | TRelease _ rest => concat (oRequests <$> rest)
  | TFinish _ survivors rest => default [] survivors ++ concat (oRequests <$> rest)
  | TRequeue _ survivors rest => survivors ++ concat (oRequests <$> rest)
  end.

Definition weigh_tasks (ts : gmap nat Task) : nat := map_fold (λ _ t n, (weigh (task_pending t) + n)%nat) 0%nat ts.

Definition potential (w : World) : nat :=
  weigh (queue (wIssuer w)) + weigh (runner_requests (wRunner w)) + weigh_tasks (wTasks w).

Lemma weigh_app rs rs' : weigh (rs ++ rs') = (weigh rs + weigh rs')%nat.
Proof. apply sum_list_with_app. Qed.

Lemma weigh_cons r rs : weigh (r :: rs) = (weight r + weigh rs)%nat.
Proof. done. Qed.

Lemma weigh_nil : weigh [] = 0%nat.
Proof. done. Qed.

Lemma weigh_perm rs rs' : rs ≡ₚ rs' → weigh rs = weigh rs'.
Proof. intros Hp. unfold weigh. by rewrite Hp. Qed.

Lemma weigh_filter f rs : (weigh (List.filter f rs) ≤ weigh rs)%nat.
Proof. induction rs as [|r rs IH]; cbn; [lia|]. destruct (f r); rewrite !weigh_cons; lia. Qed.

Lemma unblamed_weighs failed o : (weigh (unblamed failed o) ≤ weigh (oRequests o))%nat.
Proof. apply weigh_filter. Qed.

Lemma weigh_tasks_at ts i t : ts !! i = Some t → weigh_tasks ts = (weigh (task_pending t) + weigh_tasks (delete i ts))%nat.
Proof. intros Hi. unfold weigh_tasks. apply (map_fold_delete_L (λ _ t n, (weigh (task_pending t) + n)%nat)); [lia|done]. Qed.

Lemma weigh_tasks_insert ts i t t' :
  ts !! i = Some t → (weigh_tasks (<[i := t']> ts) + weigh (task_pending t) = weigh_tasks ts + weigh (task_pending t'))%nat.
Proof.
  intros Hi. rewrite (weigh_tasks_at ts i t), (weigh_tasks_at (<[i := t']> ts) i t') by (done || apply lookup_insert_eq).
  rewrite delete_insert_eq. lia.
Qed.

(** A request is retried once: what a refusal other than a rate limit sends
    back to the queue weighs less than what was ordered. *)
Lemma retry_weighs_less rs :
  rs ≠ [] → (weigh ((λ r, mkRequest (rqDomain r) (rqService r) true) <$> List.filter (λ r, negb (retried r)) rs) < weigh rs)%nat.
Proof.
  induction rs as [|r rs IH]; intros Hne; [done|]. cbn [List.filter]. destruct rs as [|r' rs].
  - unfold weigh, weight. destruct (retried r) eqn:Hr; cbn; rewrite ?Hr; lia.
  - specialize (IH ltac:(done)). rewrite (weigh_cons r). unfold weight at 1.
    destruct (retried r); cbn [negb fmap list_fmap]; [lia|]. rewrite (weigh_cons (mkRequest _ _ _)). unfold weight at 1. cbn [retried]. lia.
Qed.

Lemma order_answers o : order_ok o → oRequests o ≠ [].
Proof.
  intros Hok Hnil. destruct (oIdentifiers o) as [|i ids] eqn:Hi; [by apply (ok_some o Hok)|].
  destruct (ok_answers o Hok i) as (r & Hr & _); [rewrite Hi; left|]. rewrite Hnil in Hr. by apply elem_of_nil in Hr.
Qed.

Lemma handleObtainFailure_weighs now preflight e o m q q' survivors :
  handleObtainFailure now preflight e o m q = (q', survivors) → order_ok o →
  (weigh survivors + (if bool_decide (is_Some (parseRateLimited retry_after_in e)) then 0 else 1) ≤ weigh (oRequests o))%nat.
Proof.
  unfold handleObtainFailure. intros Heq Hok. destruct (parseRateLimited retry_after_in e) as [l|].
  - rewrite bool_decide_true by done. unfold handleRateLimited in Heq. revert Heq.
    case_goal; intros Heq; injection Heq as _ <-; [rewrite weigh_nil; lia|]. pose proof (unblamed_weighs (rateLimitedDomains l (oIdentifiers o)) o). lia.
  - rewrite bool_decide_false by (by intros []). injection Heq as _ <-.
    set (left := unblamed _ o) at 1. destruct left as [|r rs] eqn:Hleft.
    + cbn. rewrite weigh_nil. pose proof (order_answers o Hok). destruct (oRequests o) as [|r rs]; [done|].
      rewrite weigh_cons. unfold weight. destruct (retried r); lia.
    + pose proof (retry_weighs_less (r :: rs) ltac:(done)) as Hless.
      assert (Hle : (weigh (r :: rs) ≤ weigh (oRequests o))%nat) by (rewrite <-Hleft; apply unblamed_weighs). lia.
Qed.

Lemma requeues_weigh rs s : (weigh (queue (foldl requeue s rs)) ≤ weigh (queue s) + weigh rs)%nat.
Proof.
  revert s. induction rs as [|r rs IH]; intros s; cbn [foldl]; [lia|].
  specialize (IH (requeue s r)). rewrite weigh_cons.
  assert (Hr : (weigh (queue (requeue s r)) ≤ weigh (queue s) + weight r)%nat).
  { unfold requeue. case_goal; [lia|]. cbn [queue]. rewrite weigh_app, weigh_cons, weigh_nil. lia. }
  lia.
Qed.

(** A refusal that counts. *)
Definition failed (e : Event) : nat := match e with EvRefused false _ => 1 | _ => 0 end.
Definition asked (e : Event) : nat := match e with EvAsked true _ => 1 | _ => 0 end.

Lemma task_step_weighs stopped s m q t s' m' q' t' notify ev :
  task_step stopped s m q t s' m' q' t' notify ev → task_ok t → NoDup (rqDomain <$> task_requests t) →
  (weigh (task_pending t') + weigh (queue s') + failed ev ≤ weigh (task_pending t) + weigh (queue s))%nat ∧ asked ev = 0%nat.
Proof.
  intros Hstep Hok Hnd. destruct Hstep as [pre r b todo kept Hr|now pre r b todo kept Hr|b kept|now b kept|b kept ids os dropped s' Hplan|
    rel os|o rest|r o rest|o rest Hs|now pre e o rest q' sv Hs Hf|o r rest|o r dir rest m' c Ha|now o r dir rest m' Ha|o rest|o sv rest|o sv rest|o rest];
    cbn [task_pending failed asked default concat fmap list_fmap finishBatch releaseDomains releaseIdentifiers queue];
    unfold id; rewrite ?weigh_app, ?weigh_cons, ?weigh_nil; (split; [|done]); try lia.
  - destruct Hok as [Hsub Hpl]. assert (Hkept : NoDup (rqDomain <$> kept)) by (eapply sublist_NoDup; [exact Hnd|by apply fmap_sublist]).
    destruct (planOrders_spec _ _ _ _ _ _ _ Hplan Hkept Hpl) as (-> & _ & _ & Hperm & _).
    rewrite <-(weigh_perm _ _ Hperm), weigh_app. lia.
  - apply Forall_cons in Hok as [Ho _]. pose proof (handleObtainFailure_weighs _ _ _ _ _ _ _ _ Hf Ho) as Hw.
    destruct (bool_decide _); cbn [failed]; lia.
  - pose proof (requeues_weigh sv s). lia.
Qed.

Lemma nextBatch_weighs now m q s batch s' :
  nextBatch now m q s = (batch, s') → (weigh batch + weigh (queue s') ≤ weigh (queue s))%nat.
Proof.
  unfold nextBatch. intros Heq. destruct (nextBatchFrom _ _ _ _ _ _) as [[b remaining] qd] eqn:Hfrom. injection Heq as <- <-.
  destruct (nextBatchFrom_spec _ _ _ _ _ _ _ _ _ Hfrom) as ((gone & Hperm & _) & _). cbn [queue].
  rewrite <-(weigh_perm _ _ Hperm), !weigh_app. lia.
Qed.

Lemma takeFrom_weighs now m q service n infl rs taken remaining infl' :
  takeFrom now m q service n infl rs = (taken, remaining, infl') → (weigh remaining ≤ weigh rs)%nat.
Proof.
  revert n infl taken remaining infl'. induction rs as [|r rs IH]; intros n infl taken remaining infl' Heq; cbn [takeFrom] in Heq.
  { injection Heq as _ <- _. done. }
  rewrite weigh_cons. revert Heq. case_goal; intros Heq.
  - destruct (takeFrom _ _ _ _ _ _ rs) as [[t rem] i] eqn:Hrec. injection Heq as _ <- _. apply IH in Hrec. lia.
  - destruct (takeFrom _ _ _ _ _ _ rs) as [[t rem] i] eqn:Hrec. injection Heq as _ <- _. apply IH in Hrec.
    rewrite weigh_cons. lia.
Qed.

Lemma issuer_step_weighs w e w' :
  issuer_step w e w' → issuer_ok w → (potential w' + failed e ≤ potential w + 2 * asked e)%nat.
Proof.
  intros Hstep Hok. destruct Hstep as [m q|now d service q s' notify Hreq|n Hn|Hrun Hset|now batch s' Hrun Hnext|
    batch Hrun|i batch Hrun Hi Hsize|i t s' m' q' t' notify ev Hi Htask|i Hi|now i service n taken s' Hi Htake|i taken gone kept Hi Hsplit| |batch Hstop Hrun];
    unfold potential; cbn [wIssuer wTasks wRunner with_wake with_issuer with_manager with_held with_runner set_task with_tasks with_renewals
      with_stopped failed asked releaseDomains queue]; try lia.
  - unfold Request in Hreq. destruct (IsQuarantined now d q); [injection Hreq as <- <-; lia|].
    destruct (_ || _); injection Hreq as <- <-; [lia|]. cbn [queue]. rewrite weigh_app, weigh_cons, weigh_nil. unfold weight. cbn [retried]. lia.
  - rewrite Hrun. cbn. lia.
  - pose proof (nextBatch_weighs _ _ _ _ _ _ Hnext). rewrite Hrun. destruct batch; cbn; rewrite ?weigh_nil in *; lia.
  - rewrite Hrun. cbn. lia.
  - rewrite Hrun, (weigh_tasks_at (<[i := TProbe batch batch []]> (wTasks w)) i (TProbe batch batch [])) by apply lookup_insert_eq.
    rewrite delete_insert_id by done. cbn. rewrite weigh_nil. lia.
  - destruct (task_step_weighs _ _ _ _ _ _ _ _ _ _ _ Htask) as [Hw ->].
    { by eapply (io_tasks w Hok). }
    { pose proof (ho_nodup _ _ (io_domains w Hok) (HTask i)) as Hnd. cbn in Hnd. by rewrite Hi in Hnd. }
    pose proof (weigh_tasks_insert (wTasks w) i t t' Hi). lia.
  - rewrite (weigh_tasks_at _ i _ Hi). lia.
  - unfold takePending in Htake. destruct (takeFrom _ _ _ _ _ _ _) as [[tk rem] infl] eqn:Hfrom. injection Htake as <- <-.
    apply takeFrom_weighs in Hfrom. cbn [queue]. lia.
  - assert (Hr : runner_requests (wRunner w) = batch) by (by destruct Hrun as [[-> ->]|[-> | ->]]). cbn. rewrite Hr. lia.
Qed.

Lemma issuer_run_weighs w es w' :
  issuer_run w es w' → issuer_ok w →
  (potential w' + sum_list_with failed es ≤ potential w + 2 * sum_list_with asked es)%nat.
Proof.
  induction 1 as [w|w e w1 es w2 Hstep _ IH]; intros Hok; cbn; [lia|].
  pose proof (issuer_step_weighs _ _ _ Hstep Hok). specialize (IH (issuer_step_ok _ _ _ Hstep Hok)). lia.
Qed.

(** ** What a refusal leaves *)

Lemma unblamed_spec failed o r :
  r ∈ unblamed failed o ↔
  r ∈ oRequests o ∧ (plannedFor (identifierOf o) r ∈ failed → is_wildcard (plannedFor (identifierOf o) r) = true).
Proof.
  unfold unblamed. rewrite elem_of_filter_bool. cbn. rewrite negb_true_iff, andb_false_iff, negb_false_iff, <-not_true_iff_false, str_contains_spec.
  destruct (decide (plannedFor (identifierOf o) r ∈ failed)); tauto.
Qed.

Lemma blamed_itself failed o r :
  order_ok o → r ∈ oRequests o → r ∉ unblamed failed o → rqDomain r ∈ failed.
Proof.
  intros Hok Hr Hnot. rewrite unblamed_spec in Hnot. destruct (ok_shape o Hok r Hr) as [Hown|Hwild]; [|tauto].
  destruct (decide (rqDomain r ∈ failed)); [done|]. destruct Hnot. split; [done|]. by rewrite Hown.
Qed.

Lemma unblamed_progress failed o i r :
  order_ok o → Forall (λ r, is_wildcard (rqDomain r) = false) (oRequests o) →
  i ∈ failed → i ∈ oIdentifiers o → r ∈ unblamed failed o → rqDomain r ≠ i.
Proof.
  intros Hok Hconcrete Hi Hin Hr Heq. apply unblamed_spec in Hr as [Hr Hleft].
  rewrite Forall_forall in Hconcrete. destruct (ok_answers o Hok i Hin) as (r' & Hr' & Hplan).
  assert (Hdom : rqDomain r' = rqDomain r).
  { destruct (ok_shape o Hok r' Hr') as [Hown|Hwild]; [congruence|]. rewrite Hplan, <-Heq, (Hconcrete r Hr) in Hwild. done. }
  assert (r' = r) as ->.
  { pose proof (ok_requests o Hok) as Hnd. by apply (NoDup_fmap_inj rqDomain (oRequests o)). }
  rewrite Hplan in Hleft. specialize (Hleft Hi). rewrite <-Heq, (Hconcrete r Hr) in Hleft. done.
Qed.

Lemma fail_fold now k ds q :
  counts_nonneg q →
  counts_nonneg (foldl (λ q d, (RecordFailure now d k q).1) q ds) ∧
  ∀ d, IsQuarantined now d q = true ∨ d ∈ ds → IsQuarantined now d (foldl (λ q d, (RecordFailure now d k q).1) q ds) = true.
Proof. apply (fold_holds now (λ d, QFail now d k)). done. Qed.

Lemma rate_fold now ra ds q :
  counts_nonneg q →
  counts_nonneg (foldl (λ q d, (RecordRateLimited now d ra q).1) q ds) ∧
  ∀ d, IsQuarantined now d q = true ∨ d ∈ ds → IsQuarantined now d (foldl (λ q d, (RecordRateLimited now d ra q).1) q ds) = true.
Proof. apply (fold_holds now (λ d, QRate now d ra)). done. Qed.

(** What a refused order leaves behind.  Every name it was for is either
    held back now, or goes back to the queue, once; nobody else does; and some
    identifier of the order is held back and is not asked for again as long as
    it is, so that a batch the server keeps refusing runs out of identifiers. *)
Theorem refused_order_settled now preflight e o m q q' survivors :
  handleObtainFailure now preflight e o m q = (q', survivors) → order_ok o → counts_nonneg q →
  Forall (λ r, is_wildcard (rqDomain r) = false) (oRequests o) →
  (∀ r, r ∈ oRequests o →
     IsQuarantined now (rqDomain r) q' = true ∨
     ∃ s, s ∈ survivors ∧ rqDomain s = rqDomain r ∧ rqService s = rqService r) ∧
  (∀ s, s ∈ survivors →
     ∃ r, r ∈ oRequests o ∧ rqDomain s = rqDomain r ∧ rqService s = rqService r ∧
       (if bool_decide (is_Some (parseRateLimited retry_after_in e)) then retried s = retried r
        else retried r = false ∧ retried s = true)) ∧
  ∃ i, i ∈ oIdentifiers o ∧ IsQuarantined now i q' = true ∧
    ∀ s, s ∈ survivors → plannedFor (planIdentifiers now m q' survivors) s ≠ i.
Proof.
  intros Heq Hok Hq Hconcrete.
  assert (Hprogress : ∀ i, IsQuarantined now i q' = true → (∀ s, s ∈ survivors → rqDomain s ≠ i) →
    ∀ s, s ∈ survivors → plannedFor (planIdentifiers now m q' survivors) s ≠ i).
  { intros i Hi Hne s Hs. destruct (planned_not_held now m q' survivors s Hs) as [->|Hfree]; [auto|]. intros Hp. rewrite Hp in Hfree. congruence. }
  unfold handleObtainFailure in Heq. destruct (parseRateLimited retry_after_in e) as [l|].
  - rewrite bool_decide_true by done. unfold handleRateLimited in Heq.
    destruct (Nat.eqb_spec (length (rateLimitedDomains l (oIdentifiers o))) 0) as [Hnone|Hsome].
    + injection Heq as <- <-. destruct (rate_fold now (retryAfter l) (oIdentifiers o) q Hq) as [Hq1 Hin].
      destruct (rate_fold now (retryAfter l) (rqDomain <$> oRequests o) _ Hq1) as [_ Hreq].
      split; [|split; [by intros s ?%elem_of_nil|]].
      * intros r Hr. left. apply Hreq. right. by apply list_elem_of_fmap_2.
      * destruct (oIdentifiers o) as [|i ids] eqn:Hids; [by destruct (ok_some o Hok)|]. exists i.
        split; [left|split; [|by intros s ?%elem_of_nil]]. apply Hreq. left. apply Hin. right. left.
    + injection Heq as <- <-. set (failed := rateLimitedDomains l (oIdentifiers o)) in *.
      destruct (rate_fold now (retryAfter l) failed q Hq) as [_ Hheld]. split; [|split].
      * intros r Hr. destruct (decide (r ∈ unblamed failed o)) as [Hin|Hout]; [right; eauto|left].
        apply Hheld. right. by apply (blamed_itself _ o).
      * intros s Hs. exists s. apply unblamed_spec in Hs as [Hs _]. done.
      * destruct failed as [|i is'] eqn:Hfailed; [done|]. assert (Hin : i ∈ oIdentifiers o).
        { apply (rateLimitedDomains_sub l). fold failed. rewrite Hfailed. left. }
        exists i. split; [done|]. assert (Hi : IsQuarantined now i (foldl (λ q d, (RecordRateLimited now d (retryAfter l) q).1) q (i :: is')) = true)
          by (apply Hheld; right; left).
        split; [done|]. apply Hprogress; [done|]. intros s Hs. apply (unblamed_progress (i :: is') o); [done|done|left|done|done].
  - rewrite bool_decide_false by (by intros []). cbv zeta in Heq.
    set (failed := identifyFailedDomains e (oIdentifiers o) preflight _) in Heq. injection Heq as <- <-.
    destruct (identifyFailedDomains_sub e (oIdentifiers o) preflight (hasDNSProviderFor (smPlanner m))) as [Hsub Hsome].
    fold failed in Hsub, Hsome. specialize (Hsome (ok_some o Hok)).
    destruct (fail_fold now quarantineACME failed q Hq) as [Hq1 Hheld].
    destruct (fail_fold now quarantineACME (rqDomain <$> List.filter retried (unblamed failed o)) _ Hq1) as [_ Hheld2].
    split; [|split].
    + intros r Hr. destruct (decide (r ∈ unblamed failed o)) as [Hin|Hout].
      * destruct (retried r) eqn:Hret.
        -- left. apply Hheld2. right. apply list_elem_of_fmap_2, elem_of_filter_bool. done.
        -- right. exists (mkRequest (rqDomain r) (rqService r) true). split; [|done].
           apply (list_elem_of_fmap_2 (λ r, mkRequest (rqDomain r) (rqService r) true)), elem_of_filter_bool. by rewrite Hret.
      * left. apply Hheld2. left. apply Hheld. right. by apply (blamed_itself _ o).
    + intros s (r & -> & Hr)%list_elem_of_fmap. apply elem_of_filter_bool in Hr as [Hr Hret].
      apply unblamed_spec in Hr as [Hr _]. exists r. cbn. repeat split; [done|]. by apply negb_true_iff.
    + destruct failed as [|i is'] eqn:Hfailed; [done|]. exists i. split; [apply Hsub; left|].
      match goal with |- IsQuarantined now i ?q = true ∧ _ => assert (Hi : IsQuarantined now i q = true) end.
      { apply Hheld2. left. apply Hheld. right. left. }
      split; [done|]. apply Hprogress; [done|]. intros s (r & -> & Hr)%list_elem_of_fmap. cbn.
      apply elem_of_filter_bool in Hr as [Hr _]. apply (unblamed_progress (i :: is') o); [done|done|left|apply Hsub; left|done].
Qed.

(** ** Theorems over a whole run *)

(** The order a goroutine has under way. *)
Definition ordering (t : Task) : option issueOrder :=
  match t with TObtain o _ | TStamp o _ _ | TAdopt o _ _ _ | TFinish o _ _ => Some o | _ => None end.

Lemma ordering_held w i t o :
  issuer_ok w → wTasks w !! i = Some t → ordering t = Some o →
  order_ok o ∧ (∀ r, r ∈ oRequests o → rqDomain r ∈ holds w (HTask i)) ∧ (∀ x, x ∈ wilds o → x ∈ wild_holds w (HTask i)).
Proof.
  intros Hok Hi Hord. pose proof (io_tasks w Hok i t Hi) as Ht. cbn. rewrite Hi.
  destruct t; cbn in Hord; try discriminate Hord; injection Hord as ->; cbn in *; apply Forall_cons in Ht as [Ho _];
    (split; [done|split; [intros rq Hrq; apply list_elem_of_fmap_2; set_solver|set_solver]]).
Qed.

(** C6: no two orders compete.  However requests, batches, renewals, refusals
    and retries are interleaved, no identifier and no name is in two orders
    under way at once, no name the renewer took is in an order of the issuer,
    a name is held exactly while somebody works on it, and there are never more
    orders than slots. *)
Theorem issuer_exclusive m q es w :
  issuer_run (newDomainIssuer m q) es w →
  (size (wTasks w) ≤ MaxConcurrentOrders)%nat ∧
  (∀ d, d ∈ inflight (wIssuer w) ↔ ∃ h, d ∈ holds w h) ∧
  ∀ i t o, wTasks w !! i = Some t → ordering t = Some o →
    (∀ j t' o', wTasks w !! j = Some t' → ordering t' = Some o' → i ≠ j →
       (∀ x, x ∈ oIdentifiers o → x ∉ oIdentifiers o') ∧
       (∀ r, r ∈ oRequests o → rqDomain r ∉ rqDomain <$> oRequests o')) ∧
    (∀ k taken r, wRenewals w !! k = Some taken → r ∈ oRequests o → rqDomain r ∉ taken).
Proof.
  intros Hrun. apply issuer_run_ok in Hrun as Hok; [|apply newDomainIssuer_ok].
  split; [apply (io_slots w Hok)|split; [apply (ho_held _ _ (io_domains w Hok))|]].
  intros i t o Hi Ht. destruct (ordering_held w i t o Hok Hi Ht) as (Ho & Hdom & Hwild). split.
  - intros j t' o' Hj Ht' Hne. destruct (ordering_held w j t' o' Hok Hj Ht') as (Ho' & Hdom' & Hwild').
    assert (Hdisjoint : ∀ r r', r ∈ oRequests o → r' ∈ oRequests o' → rqDomain r ≠ rqDomain r').
    { intros r r' Hr Hr' Heq. apply Hne. enough (HTask i = HTask j) by congruence.
      apply (ho_unique _ _ (io_domains w Hok) _ _ (rqDomain r)); [auto|]. rewrite Heq. auto. }
    split.
    + intros x Hx Hx'. destruct (is_wildcard x) eqn:Hw.
      * apply Hne. enough (HTask i = HTask j) by congruence.
        apply (ho_unique _ _ (io_wilds w Hok) _ _ x); [apply Hwild|apply Hwild']; by apply elem_of_filter_bool.
      * destruct (ok_answers o Ho x Hx) as (r & Hr & Hp), (ok_answers o' Ho' x Hx') as (r' & Hr' & Hp').
        apply (Hdisjoint r r' Hr Hr').
        destruct (ok_shape o Ho r Hr) as [He|He], (ok_shape o' Ho' r' Hr') as [He'|He']; rewrite ?Hp, ?Hp' in *; congruence.
    + intros r Hr (r' & Heq & Hr')%list_elem_of_fmap. by apply (Hdisjoint r r').
  - intros k taken r Hk Hr Hin. enough (HTask i = HRenewal k) by congruence.
    apply (ho_unique _ _ (io_domains w Hok) _ _ (rqDomain r)); [auto|]. cbn. by rewrite Hk.
Qed.

(** C38: no request is forgotten: whenever a name is queued, the runner is not
    asleep for good, since it has been woken or somebody is about to wake it. *)
Theorem issuer_wakes m q es w r :
  issuer_run (newDomainIssuer m q) es w → r ∈ queue (wIssuer w) → wRunner w = RWait →
  ∃ w', issuer_step w EvOther w' ∧ (wWake w' = true ∨ wRunner w' = RLoop).
Proof.
  intros Hrun Hr Hwait. apply issuer_run_ok in Hrun as Hok; [|apply newDomainIssuer_ok].
  destruct (io_wake w Hok Hwait) as [Hq|[Hwake|Hn]].
  - rewrite Hq in Hr. by apply elem_of_nil in Hr.
  - eexists. split; [by apply is_woken|]. by right.
  - destruct (wNotifies w) as [|n] eqn:Hnot; [lia|]. eexists. split; [by eapply is_notify|]. by left.
Qed.

(** C13: the server is not asked in vain for ever.  In any run, the orders it
    refuses for another reason than a rate limit are at most two for every
    accepted request: a name is retried once. *)
Theorem issuer_failures_bounded m q es w :
  issuer_run (newDomainIssuer m q) es w →
  (sum_list_with failed es ≤ 2 * sum_list_with asked es)%nat.
Proof.
  intros Hrun. pose proof (issuer_run_weighs _ _ _ Hrun (newDomainIssuer_ok m q)) as Hw.
  assert (potential (newDomainIssuer m q) = 0%nat) as H0 by done. lia.
Qed.
End issuer.

(** ** Witnesses *)

Module IssuerExamples.

Definition manager : SANCertManager :=
  SetDynamicDomains "web" ["a.example"]
    (mkManager "prod" false (Some "http") (mkPlanner (mkSelection "" ∅) None ∅ (mkGrouper 2 true false)) true
       ∅ ∅ ∅ ∅ ∅ ∅ ∅ ∅ None).

Definition sha (s : string) : string := s.
Definition no_retry (_ : string) : option Z := None.
Definition start : World := newDomainIssuer manager ∅.
Definition order_a : issueOrder := mkOrder ["a.example"] [mkRequest "a.example" "web" false] {["a.example" := "a.example"]}.

Abbreviation run := (@issuer_run insertion_SortFunc sha no_retry None 3).

(** One step of an example run, its premises evaluated. *)
Ltac ev := first [reflexivity | vm_compute; reflexivity | vm_compute; lia].
Ltac eval_world := match goal with |- issuer_run _ _ _ _ ?w _ _ => let w' := eval vm_compute in w in change w with w' end.
Ltac step c := eapply ir_step; [c|eval_world].
Ltac task c := step ltac:(eapply (is_task _ _ _ _ _ 0); [vm_compute; reflexivity|c]).

Lemma refused_once :
  ∃ w, run start [EvAsked true "a.example"; EvOther; EvOther; EvOther; EvOther; EvOther; EvOther; EvOther; EvOther; EvOther;
                  EvOther; EvOther; EvRefused false order_a] w ∧
       wTasks w !! 0%nat = Some (TFinish order_a (Some []) []).
Proof.
  eexists. split.
  - step ltac:(eapply (is_request _ _ _ _ _ 0 "a.example" "web" ∅); ev).
    step ltac:(eapply is_notify; ev).
    step ltac:(eapply is_woken; ev).
    step ltac:(eapply (is_next _ _ _ _ _ 0); ev).
    step ltac:(eapply is_token; ev).
    step ltac:(eapply (is_start _ _ _ _ _ 0); ev).
    task ltac:(eapply (ts_reachable _ _ _ _ _ _ None); ev).
    task ltac:(eapply ts_probed).
    task ltac:(eapply (ts_plan _ _ _ _ _ _ 0)).
    task ltac:(eapply ts_order; ev).
    task ltac:(eapply ts_drop).
    task ltac:(eapply ts_issue).
    task ltac:(eapply (ts_failed _ _ _ _ _ _ 0 None (ErrPlain "no")); ev).
    apply ir_refl.
  - vm_compute. reflexivity.
Qed.

Lemma issuer_exclusive_witness :
  ∃ w, run start [EvAsked true "a.example"; EvOther; EvOther; EvOther; EvOther; EvOther; EvOther; EvOther; EvOther; EvOther;
                  EvOther; EvOther; EvRefused false order_a] w ∧
       (size (wTasks w) ≤ 3)%nat ∧ ∀ d, d ∈ inflight (wIssuer w) ↔ ∃ h, d ∈ holds w h.
Proof.
  destruct refused_once as (w & Hrun & _). exists w. split; [exact Hrun|].
  destruct (issuer_exclusive sha no_retry None 3 _ _ _ _ Hrun) as (Hsize & Hheld & _). split; [exact Hsize|exact Hheld].
Defined.

Lemma issuer_failures_bounded_witness :
  ∃ es w, run start es w ∧ sum_list_with failed es = 1%nat ∧ (sum_list_with failed es ≤ 2 * sum_list_with asked es)%nat.
Proof.
  destruct refused_once as (w & Hrun & _). eexists _, w. split; [exact Hrun|]. split; [reflexivity|].
  exact (issuer_failures_bounded sha no_retry None 3 _ _ _ _ Hrun).
Defined.

Lemma issuer_wakes_witness :
  ∃ w w', run start [EvAsked true "a.example"] w ∧ @issuer_step insertion_SortFunc sha no_retry None 3 w EvOther w' ∧
    (wWake w' = true ∨ wRunner w' = RLoop).
Proof.
  assert (Hrun : run start [EvAsked true "a.example"]
    (with_wake false 1 (with_issuer (Request 0 "a.example" "web" ∅ (wIssuer start)).1 start))).
  { eapply ir_step; [eapply (is_request _ _ _ _ _ 0 "a.example" "web" ∅); ev|]. apply ir_refl. }
  destruct (issuer_wakes sha no_retry None 3 manager ∅ _ _ (mkRequest "a.example" "web" false) Hrun) as (w' & Hstep & Hor).
  - vm_compute. left.
  - reflexivity.
  - eexists _, w'. split; [exact Hrun|]. split; [exact Hstep|exact Hor].
Defined.

Abbreviation handled := (@handleObtainFailure insertion_SortFunc no_retry 0 None (ErrPlain "no") order_a manager ∅).

Lemma refused_order_settled_witness :
  IsQuarantined 0 "a.example" handled.1 = true.
Proof.
  destruct (@refused_order_settled insertion_SortFunc no_retry 0 None (ErrPlain "no") order_a manager ∅
    handled.1
    handled.2) as (_ & _ & i & Hi & Hheld & _).
  - reflexivity.
  - split; cbn [oIdentifiers oRequests order_a identifierOf].
    + discriminate.
    + apply NoDup_singleton.
    + apply NoDup_singleton.
    + intros i ->%list_elem_of_singleton. exists (mkRequest "a.example" "web" false). split; [left|reflexivity].
    + intros r ->%list_elem_of_singleton. left.
    + intros r ->%list_elem_of_singleton. left. reflexivity.
  - intros d. vm_compute. discriminate.
  - repeat constructor.
  - apply list_elem_of_singleton in Hi as ->. exact Hheld.
Defined.
End IssuerExamples.
