(* ===== verification/DynamicDomains.v ===== *)
(** * Domains an application reports: [internal/server/dynamic_domains.go],
    [domain_source.go], [source_poller.go], [dynamic_domain_state.go] and
    [domain_release.go]

    A service may name a source that lists the domains its tenants use.  The
    manager polls every source, allows what it lists, asks the issuer for
    certificates, and remembers the lists across restarts.  A poll that would
    drop too many names at once is not believed until it is repeated.

    Every operation runs under the manager's lock or after the poller it
    replaces has ended, and is one function here; the decoded payload, the
    clock, and what the probes answer are arguments. *)
From S2P Require Import Prelude GoStrings GoFloat CertPlan DomainFailure Quarantine SanCerts Redirects SvcOptions DomainIssuer.

Definition shrinkGuardThreshold : float64 := f64_div (f64_of_Z 3) (f64_of_Z 10).
Definition shrinkGuardConfirmations : Z := 3.
Definition maxDomainListBody : Z := 1024 * 1024.
Definition maxDomainListEntries : Z := 10000.

(** ** The payload of a source *)

Inductive ListError := ListTooLarge | ListMalformed | TooManyDomains.

(** One entry of the list: its normal form, unless it is skipped. *)
Definition parseDomainEntry (raw : string) : option string :=
  let domain := ToLower (TrimSuffix (TrimSpace raw) ".") in
  if HasPrefix domain "*." then None
  else if negb (validDynamicDomain domain) then None else Some domain.

(** [parseDomainList], given the size of the body and what [encoding/json]
    decodes it to. *)
Definition parseDomainList (size : Z) (payload : option (list string)) : result ListError (list string) :=
  if maxDomainListBody <? size then Err ListTooLarge
  else match payload with
       | None => Err ListMalformed
       | Some entries =>
           if maxDomainListEntries <? Z.of_nat (length entries) then Err TooManyDomains
           else Ok (foldl add_new [] (omap parseDomainEntry entries))
       end.

(** ** The manager *)

(** A poller, as far as its schedule and its conditional requests go. *)
Record Poller := mkPoller {
  plSource : string;
  plInterval : Z;
  plETag : string }.

Record serviceSettings := mkSettings {
  ssSource : string;
  ssInterval : Z;
  ssBatchSize : Z;
  ssHost : string }.

Record serviceDomainState := mkDomainState {
  sdDomains : list string;
  sdETag : string;
  sdFetchedAt : Z }.

Record shrinkHold := mkHold {
  removals : list string;
  polls : Z }.

Record DynamicDomainManager := mkDynamic {
  dmSources : gmap string Poller;
  dmSettings : gmap string serviceSettings;
  dmStates : gmap string serviceDomainState;
  dmHolds : gmap string shrinkHold }.

(** The manager with what it shares: the certificates, the quarantine, the
    issuer. *)
Record Dynamic := mkDyn {
  dyn : DynamicDomainManager;
  dynManager : SANCertManager;
  dynQuarantine : gmap string quarantineEntry;
  dynIssuer : Issuer }.

Definition newSourcePoller (source : string) (interval : Z) : Poller :=
  mkPoller source (if interval =? 0 then DefaultTLSDomainsInterval else interval) "".

Definition SeedETag (etag : string) (p : Poller) : Poller := mkPoller (plSource p) (plInterval p) etag.

Definition diffDomains (previous current : list string) : list string * list string :=
  (List.filter (λ d, negb (str_contains previous d)) current, List.filter (λ d, negb (str_contains current d)) previous).

(** Is this many removals from a list of this length suspicious? *)
Definition overThreshold (removed previous : nat) : bool :=
  negb (f64_leb (f64_of_Z (Z.of_nat removed)) (f64_mul shrinkGuardThreshold (f64_of_Z (Z.of_nat previous)))).

(** [evaluateShrinkHold]: the holds, and whether the removals are held. *)
Definition evaluateShrinkHold (service : string) (previous removed : list string) (holds : gmap string shrinkHold)
  : gmap string shrinkHold * bool :=
  if negb (overThreshold (length removed) (length previous)) then (delete service holds, false)
  else
    let n := match holds !! service with Some h => polls h | None => 0 end + 1 in
    if shrinkGuardConfirmations <=? n then (delete service holds, false)
    else (<[service := mkHold removed n]> holds, true).

(** Ask the issuer for the names without a valid certificate. *)
Definition requestUncovered (now : Z) (service : string) (domains : list string) (w : Dynamic) : Dynamic :=
  mkDyn (dyn w) (dynManager w) (dynQuarantine w)
    (foldl (λ i d, if HasValidCertificate (dynManager w) now d then i
                   else (Request now d service (dynQuarantine w) i).1) (dynIssuer w) domains).

Definition domainsOf (dm : DynamicDomainManager) (service : string) : list string :=
  match dmStates dm !! service with Some s => sdDomains s | None => [] end.

(** [applyDomains], for the list a poll fetched; [known]: the router still has
    the service. *)
Definition applyDomains (now : Z) (known : bool) (service : string) (domains : list string) (w : Dynamic) : Dynamic :=
  if negb known then w
  else match dmSources (dyn w) !! service with
       | None => w
       | Some poller =>
           let previous := domainsOf (dyn w) service in
           let '(added, removed) := diffDomains previous domains in
           let '(holds, held) := evaluateShrinkHold service previous removed (dmHolds (dyn w)) in
           let applying := if held then previous ++ added else domains in
           let poller := if held then SeedETag "" poller else poller in
           let dm := mkDynamic (<[service := poller]> (dmSources (dyn w))) (dmSettings (dyn w))
                       (<[service := mkDomainState applying (plETag poller) now]> (dmStates (dyn w))) holds in
           requestUncovered now service domains
             (mkDyn dm (SetDynamicDomains service applying (dynManager w))
                (if held then dynQuarantine w else foldl (λ q d, Clear d q) (dynQuarantine w) removed) (dynIssuer w))
       end.

(** ** Polling: [sourcePoller.poll] *)

(** What a poll was answered with; the body is its size and its decoded list. *)
Inductive PollAnswer :=
| PollFailed
| PollNotModified
| PollStatus
| PollBody (etag : string) (size : Z) (payload : option (list string)).

(** [If-None-Match] of the next poll, [""] for none. *)
Definition conditional (w : Dynamic) (service : string) : string :=
  match dmSources (dyn w) !! service with Some p => plETag p | None => "" end.

Definition setETag (service etag : string) (w : Dynamic) : Dynamic :=
  mkDyn (mkDynamic (alter (SeedETag etag) service (dmSources (dyn w))) (dmSettings (dyn w)) (dmStates (dyn w)) (dmHolds (dyn w)))
    (dynManager w) (dynQuarantine w) (dynIssuer w).

(** The ETag is stored before the body is parsed, and put back when the list
    is no good. *)
Definition poll (now : Z) (known : bool) (service : string) (answer : PollAnswer) (w : Dynamic) : Dynamic :=
  match answer with
  | PollFailed | PollNotModified | PollStatus => w
  | PollBody etag size payload =>
      let previous := conditional w service in
      let w := setETag service etag w in
      match parseDomainList size payload with
      | Err _ => setETag service previous w
      | Ok domains => applyDomains now known service domains w
      end
  end.

(** ** Deploys and removals *)

Definition ServiceRemoved (service : string) (w : Dynamic) : Dynamic :=
  let dm := dyn w in
  let state := dmStates dm !! service in
  let dm' := mkDynamic (delete service (dmSources dm)) (delete service (dmSettings dm)) (delete service (dmStates dm))
               (delete service (dmHolds dm)) in
  if negb (bool_decide (is_Some (dmSources dm !! service))) && negb (bool_decide (is_Some state))
  then mkDyn dm' (dynManager w) (dynQuarantine w) (dynIssuer w)
  else mkDyn dm' (SetDynamicDomains service [] (dynManager w))
         (match state with Some s => foldl (λ q d, Clear d q) (dynQuarantine w) (sdDomains s) | None => dynQuarantine w end)
         (dynIssuer w).

Definition ServiceDeployed (now : Z) (service : string) (so : SvcOptions) (w : Dynamic) : Dynamic :=
  if negb (soTLSEnabled so) || String.eqb (soTLSDomainsSource so) "" then ServiceRemoved service w
  else
    let dm := dyn w in
    let host := if HasConfiguredHosts so then default "" (head (soHosts so)) else "" in
    let state := default (mkDomainState [] "" 0) (dmStates dm !! service) in
    let dm' := mkDynamic
      (<[service := SeedETag (sdETag state) (newSourcePoller (soTLSDomainsSource so) (soTLSDomainsInterval so))]> (dmSources dm))
      (<[service := mkSettings (soTLSDomainsSource so) (soTLSDomainsInterval so) (soTLSDomainsBatchSize so) host]> (dmSettings dm))
      (<[service := state]> (dmStates dm)) (delete service (dmHolds dm)) in
    requestUncovered now service (sdDomains state)
      (mkDyn dm' (SetDynamicDomains service (sdDomains state) (dynManager w)) (dynQuarantine w) (dynIssuer w)).

Definition dynBatchSizeFor (dm : DynamicDomainManager) (service : string) : Z :=
  match dmSettings dm !! service with Some s => ssBatchSize s | None => 0 end.

Definition HasSources (dm : DynamicDomainManager) : bool := (0 <? size (dmSources dm))%nat.

(** ** Letting go of holds *)

Definition requestIssuanceAfterRelease (now : Z) (domain : string) (w : Dynamic) : Dynamic :=
  if HasValidCertificate (dynManager w) now domain then w
  else match dynamicOwner (dynManager w) domain with
       | Some service => mkDyn (dyn w) (dynManager w) (dynQuarantine w) (Request now domain service (dynQuarantine w) (dynIssuer w)).1
       | None => w
       end.

(** [Retry]: clear one hold, or all of them for the empty name; the answer is
    how many. *)
Definition RetryHolds (now : Z) (domain : string) (w : Dynamic) : Dynamic * nat :=
  let held := List.filter (λ d, String.eqb domain "" || String.eqb d domain) (map_to_list (dynQuarantine w)).*1 in
  if Nat.eqb (length held) 0 then (w, 0%nat)
  else
    let w := mkDyn (dyn w) (dynManager w) (foldl (λ q d, Clear d q) (dynQuarantine w) held) (dynIssuer w) in
    (foldl (λ w d, requestIssuanceAfterRelease now d w) w held, length held).

(** The sweep of [domain_release.go]. *)
Definition releaseCandidates (now : Z) (unprobeable : string → bool) (q : gmap string quarantineEntry) : list string :=
  List.filter (λ d, IsQuarantined now d q)
    (omap (λ de : string * quarantineEntry,
       if bool_decide (Kind de.2 = quarantineRateLimited) || HasPrefix de.1 "*." || unprobeable de.1 then None else Some de.1)
       (map_to_list q)).

(** Lift the holds of the names that answer; who was let go. *)
Fixpoint releaseAll (now : Z) (ds : list string) (q : gmap string quarantineEntry)
  : gmap string quarantineEntry * list string :=
  match ds with
  | [] => (q, [])
  | d :: ds =>
      let '(q, lifted) := Release now d q in
      let '(q, released) := releaseAll now ds q in
      (q, if lifted then d :: released else released)
  end.

Definition sweep (now : Z) (preflight : option (string → bool)) (w : Dynamic) : Dynamic :=
  let unprobeable := hasDNSProviderFor (smPlanner (dynManager w)) in
  let candidates := releaseCandidates now unprobeable (dynQuarantine w) in
  let failing := probeDomains candidates preflight unprobeable in
  let '(q, released) := releaseAll now (List.filter (λ d, negb (str_contains failing d)) candidates) (dynQuarantine w) in
  foldl (λ w d, requestIssuanceAfterRelease now d w) (mkDyn (dyn w) (dynManager w) q (dynIssuer w)) released.

(** ** What is saved *)

Record dynamicDomainsState := mkSaved {
  svServices : gmap string (option (option (list string) * string * Z));
  svQuarantine : gmap string quarantineEntry }.

(** [saveState]: what is handed to [encoding/json]. *)
Definition saveDomains (w : Dynamic) : dynamicDomainsState :=
  mkSaved ((λ s, Some (Some (sdDomains s), sdETag s, sdFetchedAt s)) <$> dmStates (dyn w)) (Snapshot (dynQuarantine w)).

(** [loadState]: an entry of a file edited by hand may be missing, or its list. *)
Definition loadDomains (saved : dynamicDomainsState) (w : Dynamic) : Dynamic :=
  let entry (e : option (option (list string) * string * Z)) :=
    '(ds, etag, at_) ← e; Some (mkDomainState (default [] ds) etag at_) in
  mkDyn (mkDynamic (dmSources (dyn w)) (dmSettings (dyn w)) (omap entry (svServices saved) ∪ dmStates (dyn w)) (dmHolds (dyn w)))
    (dynManager w) (Restore (svQuarantine saved)) (dynIssuer w).

(** ** A manager at work *)

(** What happens to the manager; [EvElsewhere]: the other users of the
    certificates, the quarantine and the issuer had their turn. *)
Inductive DynEvent :=
| EvDeploy (now : Z) (service : string) (so : SvcOptions)
| EvRemove (service : string)
| EvPoll (now : Z) (known : bool) (service : string) (answer : PollAnswer)
| EvRetry (now : Z) (domain : string)
| EvSweep (now : Z) (preflight : option (string → bool))
| EvElsewhere (m : SANCertManager) (q : gmap string quarantineEntry) (i : Issuer).

Definition dyn_step (w : Dynamic) (e : DynEvent) : Dynamic :=
  match e with
  | EvDeploy now service so => ServiceDeployed now service so w
  | EvRemove service => ServiceRemoved service w
  | EvPoll now known service answer => poll now known service answer w
  | EvRetry now domain => (RetryHolds now domain w).1
  | EvSweep now preflight => sweep now preflight w
  | EvElsewhere m q i => mkDyn (dyn w) (with_dynamic (dynamicDomains (dynManager w)) m) q i
  end.

(** The list a poll of a service brings in, if it brings one. *)
Definition fetched (w : Dynamic) (e : DynEvent) (service : string) : option (list string) :=
  match e with
  | EvPoll _ true service' (PollBody _ size payload) =>
      if String.eqb service' service && bool_decide (is_Some (dmSources (dyn w) !! service))
      then match parseDomainList size payload with Ok ds => Some ds | Err _ => None end
      else None
  | _ => None
  end.

(** Does the event take the service's list away? *)
Definition drops (e : DynEvent) (service : string) : bool :=
  match e with
  | EvRemove service' => String.eqb service' service
  | EvDeploy _ service' so => String.eqb service' service && (negb (soTLSEnabled so) || String.eqb (soTLSDomainsSource so) "")
  | _ => false
  end.

Definition removedBy (w : Dynamic) (service : string) (ds : list string) : list string :=
  (diffDomains (domainsOf (dyn w) service) ds).2.

Definition suspicious (w : Dynamic) (service : string) (ds : list string) : bool :=
  overThreshold (length (removedBy w service ds)) (length (domainsOf (dyn w) service)).

(** The polls of a service since it was last deployed or removed, the latest
    first: was each of them suspicious? *)
Definition log_event (service : string) (w : Dynamic) (e : DynEvent) (log : list bool) : list bool :=
  match fetched w e service with
  | Some ds => suspicious w service ds :: log
  | None => match e with
            | EvDeploy _ service' _ | EvRemove service' => if String.eqb service' service then [] else log
            | _ => log
            end
  end.

Inductive dyn_run (service : string) : Dynamic → list bool → Prop :=
| dr_new w : dmHolds (dyn w) = ∅ → dyn_run service w []
| dr_step w log e : dyn_run service w log → dyn_run service (dyn_step w e) (log_event service w e log).

(** ** What the steps leave alone *)

Lemma requestUncovered_dyn now service ds w :
  dyn (requestUncovered now service ds w) = dyn w ∧ dynManager (requestUncovered now service ds w) = dynManager w ∧
  dynQuarantine (requestUncovered now service ds w) = dynQuarantine w.
Proof. done. Qed.

Lemma requestIssuanceAfterRelease_dyn now d w :
  dyn (requestIssuanceAfterRelease now d w) = dyn w ∧ dynManager (requestIssuanceAfterRelease now d w) = dynManager w ∧
  dynQuarantine (requestIssuanceAfterRelease now d w) = dynQuarantine w.
Proof. unfold requestIssuanceAfterRelease. repeat case_match; done. Qed.

Lemma requestAll_dyn now ds w :
  let w' := foldl (λ w d, requestIssuanceAfterRelease now d w) w ds in
  dyn w' = dyn w ∧ dynManager w' = dynManager w ∧ dynQuarantine w' = dynQuarantine w.
Proof.
  revert w. induction ds as [|d ds IH]; intros w; [done|]. cbn [foldl].
  destruct (IH (requestIssuanceAfterRelease now d w)) as (-> & -> & ->). apply requestIssuanceAfterRelease_dyn.
Qed.

Lemma RetryHolds_dyn now d w : dyn (RetryHolds now d w).1 = dyn w ∧ dynManager (RetryHolds now d w).1 = dynManager w.
Proof.
  unfold RetryHolds. case_goal; [done|]. cbn [fst].
  match goal with |- context [foldl _ ?w0 ?ds] => destruct (requestAll_dyn now ds w0) as (-> & -> & _) end. done.
Qed.

Lemma sweep_dyn now preflight w : dyn (sweep now preflight w) = dyn w ∧ dynManager (sweep now preflight w) = dynManager w.
Proof.
  unfold sweep. destruct (releaseAll _ _ _) as [q released]. destruct (requestAll_dyn now released (mkDyn (dyn w) (dynManager w) q (dynIssuer w))) as (-> & -> & _).
  done.
Qed.

Lemma setETag_back service etag w : setETag service (conditional w service) (setETag service etag w) = w.
Proof.
  unfold setETag, conditional. destruct w as [[sources settings states holds] m q i]. cbn. do 2 f_equal.
  apply map_eq. intros s. destruct (decide (s = service)) as [->|].
  - rewrite !lookup_alter_eq. destruct (sources !! service) as [[]|]; done.
  - by rewrite !lookup_alter_ne.
Qed.

Lemma SetDynamicDomains_lookup service ds m d :
  dynamicDomains (SetDynamicDomains service ds m) !! d =
  if decide (d ∈ ds) then Some service
  else match dynamicDomains m !! d with Some s => if decide (s = service) then None else Some s | None => None end.
Proof.
  unfold SetDynamicDomains. cbn [dynamicDomains with_dynamic]. rewrite foldl_insert_lookup.
  destruct (decide (d ∈ ds)); [by rewrite bool_decide_true|]. rewrite bool_decide_false by done. rewrite map_lookup_filter.
  destruct (dynamicDomains m !! d) as [s|]; [|done]. cbn. destruct (decide (s = service)) as [->|Hne].
  - by rewrite option_guard_False by (intros Hn; by apply Hn).
  - by rewrite option_guard_True.
Qed.

(** ** What the steps change *)

Lemma diffDomains_spec previous current :
  (∀ d, d ∈ (diffDomains previous current).1 ↔ d ∈ current ∧ d ∉ previous) ∧
  (∀ d, d ∈ (diffDomains previous current).2 ↔ d ∈ previous ∧ d ∉ current).
Proof. cbn. split; intros d; by rewrite elem_of_filter_bool, negb_true_iff, str_contains_false. Qed.

Lemma poll_cases now known service answer w :
  let e := EvPoll now known service answer in
  (∃ etag size payload ds, answer = PollBody etag size payload ∧ parseDomainList size payload = Ok ds ∧ known = true ∧
     fetched w e service = Some ds ∧ is_Some (dmSources (dyn w) !! service) ∧
     poll now known service answer w = applyDomains now true service ds (setETag service etag w)) ∨
  (fetched w e service = None ∧ dmHolds (dyn (poll now known service answer w)) = dmHolds (dyn w) ∧
   dmStates (dyn (poll now known service answer w)) = dmStates (dyn w) ∧
   dynManager (poll now known service answer w) = dynManager w ∧
   (known = true → dmSources (dyn (poll now known service answer w)) = dmSources (dyn w))).
Proof.
  intros e. unfold poll, e, fetched. destruct answer as [| | |etag size payload]; [right; by destruct known..|].
  rewrite String.eqb_refl. destruct (parseDomainList size payload) as [ds|err] eqn:Hparse.
  - destruct known; [|right; done]. cbn [andb]. destruct (dmSources (dyn w) !! service) as [p|] eqn:Hp.
    + left. rewrite bool_decide_true by done. eexists etag, size, payload, ds. repeat split; eauto.
    + right. rewrite bool_decide_false by (by intros []). split; [done|]. unfold applyDomains, setETag. cbn.
      rewrite lookup_alter_eq, Hp. cbn. split; [done|split; [done|split; [done|]]]. intros _. apply map_eq. intros s.
      destruct (decide (s = service)) as [->|]; [by rewrite lookup_alter_eq, Hp|by rewrite lookup_alter_ne].
  - right. destruct known; [|by repeat split; rewrite ?setETag_back].
    split; [by case_match|]. by rewrite setETag_back.
Qed.

(** What a list does to the service it is for, and to nobody else. *)
Lemma applyDomains_spec now service ds w :
  is_Some (dmSources (dyn w) !! service) →
  let w' := applyDomains now true service ds w in
  let '(holds, held) := evaluateShrinkHold service (domainsOf (dyn w) service) (removedBy w service ds) (dmHolds (dyn w)) in
  dmHolds (dyn w') = holds ∧
  (∃ etag, dmStates (dyn w') =
     <[service := mkDomainState (if held then domainsOf (dyn w) service ++ (diffDomains (domainsOf (dyn w) service) ds).1 else ds) etag now]>
       (dmStates (dyn w)) ∧
     (∃ p, dmSources (dyn w') = <[service := p]> (dmSources (dyn w)) ∧ plETag p = etag) ∧
     etag = if held then "" else conditional w service) ∧
  dynamicDomains (dynManager w') = dynamicDomains (SetDynamicDomains service (domainsOf (dyn w') service) (dynManager w)).
Proof.
  intros [p Hp]. cbv zeta. unfold applyDomains, conditional. cbn [negb]. rewrite Hp. unfold removedBy.
  destruct (diffDomains (domainsOf (dyn w) service) ds) as [added removed] eqn:Hdiff. cbn [fst snd].
  destruct (evaluateShrinkHold service (domainsOf (dyn w) service) removed (dmHolds (dyn w))) as [holds held].
  split; [done|]. split.
  - eexists. split; [done|]. split; [eexists; split; [done|done]|]. by destruct held.
  - set (w' := requestUncovered _ _ _ _).
    assert (domainsOf (dyn w') service = if held then domainsOf (dyn w) service ++ added else ds) as ->; [|done].
    unfold domainsOf, w'. cbn. by rewrite lookup_insert_eq.
Qed.

Lemma setETag_keeps service etag w :
  dmHolds (dyn (setETag service etag w)) = dmHolds (dyn w) ∧ dmStates (dyn (setETag service etag w)) = dmStates (dyn w) ∧
  dynManager (setETag service etag w) = dynManager w ∧
  (is_Some (dmSources (dyn (setETag service etag w)) !! service) ↔ is_Some (dmSources (dyn w) !! service)).
Proof.
  repeat split; cbn; rewrite lookup_alter_eq; destruct (dmSources (dyn w) !! service); cbn; try done; by intros [].
Qed.

Lemma domainsOf_states dm dm' service : dmStates dm' !! service = dmStates dm !! service → domainsOf dm' service = domainsOf dm service.
Proof. unfold domainsOf. by intros ->. Qed.

(** ** The guard *)

(** A hold counts the suspicious polls that came one after the other. *)
Definition guard_ok (service : string) (w : Dynamic) (log : list bool) : Prop :=
  match dmHolds (dyn w) !! service with
  | None => True
  | Some h => (polls h = 1 ∧ ∃ l, log = true :: l) ∨ (polls h = 2 ∧ ∃ l, log = true :: true :: l)
  end.

Lemma evaluate_other service s previous removed holds :
  s ≠ service → (evaluateShrinkHold service previous removed holds).1 !! s = holds !! s.
Proof.
  intros Hne. unfold evaluateShrinkHold. case_goal; [cbn; by rewrite lookup_delete_ne|]. case_goal; cbn.
  - by rewrite lookup_delete_ne.
  - by rewrite lookup_insert_ne.
Qed.

(** What the guard decides, given the polls so far. *)
Lemma evaluate_spec service w log ds :
  guard_ok service w log →
  let '(holds, held) := evaluateShrinkHold service (domainsOf (dyn w) service) (removedBy w service ds) (dmHolds (dyn w)) in
  (held = false → suspicious w service ds = true → ∃ l, log = true :: true :: l) ∧
  match holds !! service with
  | None => True
  | Some h => suspicious w service ds = true ∧ (polls h = 1 ∨ polls h = 2 ∧ ∃ l, log = true :: l)
  end.
Proof.
  unfold guard_ok, evaluateShrinkHold, suspicious. intros Hok. destruct (overThreshold _ _) eqn:Hover; cbn [negb].
  - destruct (dmHolds (dyn w) !! service) as [h|].
    + destruct Hok as [[Hn Hl]|[Hn Hl]]; rewrite Hn.
      * change (shrinkGuardConfirmations <=? 1 + 1) with false. cbv iota. rewrite lookup_insert_eq. split; [done|]. split; [done|by right].
      * change (shrinkGuardConfirmations <=? 2 + 1) with true. cbv iota. rewrite lookup_delete_eq. split; [|done]. by intros _ _.
    + change (shrinkGuardConfirmations <=? 0 + 1) with false. cbv iota. rewrite lookup_insert_eq. split; [done|]. split; [done|by left].
  - rewrite lookup_delete_eq. split; [done|done].
Qed.

Lemma ServiceRemoved_holds s w : dmHolds (dyn (ServiceRemoved s w)) = delete s (dmHolds (dyn w)).
Proof. unfold ServiceRemoved. by case_goal. Qed.

Lemma ServiceDeployed_holds now s so w : dmHolds (dyn (ServiceDeployed now s so w)) = delete s (dmHolds (dyn w)).
Proof. unfold ServiceDeployed. case_goal; [apply ServiceRemoved_holds|done]. Qed.

Lemma guard_step service w log e : guard_ok service w log → guard_ok service (dyn_step w e) (log_event service w e log).
Proof.
  intros Hok.
  assert (Hkeep : fetched w e service = None → dmHolds (dyn (dyn_step w e)) !! service = dmHolds (dyn w) !! service →
    match e with EvDeploy _ s _ | EvRemove s => s ≠ service | _ => True end → guard_ok service (dyn_step w e) (log_event service w e log)).
  { intros Hf Hh He. unfold guard_ok, log_event. rewrite Hf, Hh. destruct e; try done; rewrite (proj2 (String.eqb_neq _ _)) by done; done. }
  destruct e as [now s so|s|now known s answer|now d|now preflight|m q i]; cbn [dyn_step].
  - destruct (decide (s = service)) as [->|Hne].
    + unfold guard_ok. by rewrite ServiceDeployed_holds, lookup_delete_eq.
    + apply Hkeep; [done| |done]. cbn [dyn_step]. by rewrite ServiceDeployed_holds, lookup_delete_ne.
  - destruct (decide (s = service)) as [->|Hne].
    + unfold guard_ok. by rewrite ServiceRemoved_holds, lookup_delete_eq.
    + apply Hkeep; [done| |done]. cbn [dyn_step]. by rewrite ServiceRemoved_holds, lookup_delete_ne.
  - destruct (poll_cases now known s answer w) as [(etag & size & payload & ds & -> & Hparse & -> & Hf & Hsome & Hpoll)|(Hf & Hh & _)].
    + rewrite Hpoll. destruct (setETag_keeps s etag w) as (Hholds & Hstates & _ & Hsrc). apply Hsrc in Hsome as Hsome'.
      pose proof (applyDomains_spec now s ds (setETag s etag w) Hsome') as Happly. cbv zeta in Happly.
      assert (Hprev : domainsOf (dyn (setETag s etag w)) s = domainsOf (dyn w) s) by (apply domainsOf_states; by rewrite Hstates).
      assert (Hrem : removedBy (setETag s etag w) s ds = removedBy w s ds) by (unfold removedBy; by rewrite Hprev).
      rewrite Hprev, Hrem, Hholds in Happly.
      destruct (decide (s = service)) as [->|Hne].
      * pose proof (evaluate_spec service w log ds Hok) as Heval.
        destruct (evaluateShrinkHold _ _ _ _) as [holds held]. destruct Happly as (Hh & _). destruct Heval as [_ Heval].
        unfold guard_ok, log_event. rewrite Hh, Hf. destruct (holds !! service) as [h|]; [|done].
        destruct Heval as [-> [Hn|[Hn [l ->]]]]; [left; eauto|right; eauto].
      * pose proof (evaluate_other s service (domainsOf (dyn w) s) (removedBy w s ds) (dmHolds (dyn w))) as Heval.
        destruct (evaluateShrinkHold _ _ _ _) as [holds held]. destruct Happly as (Hh & _).
        unfold guard_ok, log_event, fetched. rewrite Hh. cbn in Heval. rewrite Heval by congruence.
        rewrite (proj2 (String.eqb_neq s service)) by done. done.
    + destruct (decide (s = service)) as [->|Hne].
      * apply Hkeep; [done| |done]. cbn. by rewrite Hh.
      * apply Hkeep; [|cbn; by rewrite Hh|done]. unfold fetched. destruct known, answer; try done. by rewrite (proj2 (String.eqb_neq s service)).
  - apply Hkeep; [done| |done]. cbn. by destruct (RetryHolds_dyn now d w) as [-> _].
  - apply Hkeep; [done| |done]. cbn. by destruct (sweep_dyn now preflight w) as [-> _].
  - by apply Hkeep.
Qed.

Lemma dyn_run_guard service w log : dyn_run service w log → guard_ok service w log.
Proof.
  induction 1 as [w Hh|w log e _ IH]; [|by apply guard_step]. unfold guard_ok. by rewrite Hh, lookup_empty.
Qed.

(** For lists of up to a thousand names the guard's floating-point comparison is
    exact: more than three tenths. *)
Lemma overThreshold_exact removed previous :
  (removed ≤ previous)%nat → (previous ≤ 1000)%nat →
  overThreshold removed previous = true ↔ (3 * previous < 10 * removed)%nat.
Proof.
  intros Hle Hp.
  assert (Hall : forallb (λ n, bool_decide (threshold (f64_mul shrinkGuardThreshold (f64_of_Z (Z.of_nat n))) =
                                 Some (3 * Z.of_nat n / 10))) (seq 0 1001) = true) by (vm_compute; reflexivity).
  rewrite forallb_forall in Hall. specialize (Hall previous). apply bool_decide_eq_true_1 in Hall; [|apply in_seq; lia].
  unfold overThreshold. rewrite negb_true_iff, <-not_true_iff_false, (f64_leb_threshold (Z.of_nat removed) _ _ ltac:(lia) Hall).
  pose proof (Z.div_mod (3 * Z.of_nat previous) 10 ltac:(lia)). pose proof (Z.mod_pos_bound (3 * Z.of_nat previous) 10 ltac:(lia)). lia.
Qed.

(** What a poll leaves of the list. *)
Lemma poll_domains now service answer ds w :
  fetched w (EvPoll now true service answer) service = Some ds →
  domainsOf (dyn (poll now true service answer w)) service =
  if (evaluateShrinkHold service (domainsOf (dyn w) service) (removedBy w service ds) (dmHolds (dyn w))).2
  then domainsOf (dyn w) service ++ (diffDomains (domainsOf (dyn w) service) ds).1 else ds.
Proof.
  intros Hf. destruct (poll_cases now true service answer w) as [(etag & size & payload & ds' & -> & Hparse & _ & Hf' & Hsome & ->)|(Hf' & _)];
    [|congruence]. rewrite Hf in Hf'. injection Hf' as <-.
  destruct (setETag_keeps service etag w) as (Hholds & Hstates & _ & Hsrc). apply Hsrc in Hsome.
  pose proof (applyDomains_spec now service ds (setETag service etag w) Hsome) as Happly. cbv zeta in Happly.
  assert (Hprev : domainsOf (dyn (setETag service etag w)) service = domainsOf (dyn w) service) by (apply domainsOf_states; by rewrite Hstates).
  assert (Hrem : removedBy (setETag service etag w) service ds = removedBy w service ds) by (unfold removedBy; by rewrite Hprev).
  rewrite Hprev, Hrem, Hholds in Happly. destruct (evaluateShrinkHold _ _ _ _) as [holds held]. destruct Happly as (_ & (e & Hst & _) & _).
  unfold domainsOf at 1. by rewrite Hst, lookup_insert_eq.
Qed.

(** A step that is no poll of the service leaves its list, unless it takes the
    source away. *)
Lemma step_domains service w e :
  fetched w e service = None → drops e service = false → domainsOf (dyn (dyn_step w e)) service = domainsOf (dyn w) service.
Proof.
  intros Hf Hd. destruct e as [now s so|s|now known s answer|now d|now preflight|m q i]; cbn [dyn_step drops] in *.
  - unfold ServiceDeployed, ServiceRemoved, domainsOf. destruct (decide (s = service)) as [->|Hne].
    + rewrite String.eqb_refl in Hd. cbn in Hd. rewrite Hd. cbn. rewrite lookup_insert_eq. by destruct (dmStates (dyn w) !! service).
    + repeat case_goal; cbn in *; rewrite ?lookup_delete_ne, ?lookup_insert_ne in * by done; congruence.
  - unfold ServiceRemoved, domainsOf. apply String.eqb_neq in Hd. case_goal; cbn; by rewrite lookup_delete_ne.
  - destruct (poll_cases now known s answer w) as [(etag & size & payload & ds & -> & Hparse & -> & Hf' & Hsome & Hpoll)|(Hf' & _ & Hst & _)].
    + assert (Hne : s ≠ service) by congruence. rewrite Hpoll. destruct (setETag_keeps s etag w) as (Hholds & Hstates & _ & Hsrc). apply Hsrc in Hsome.
      pose proof (applyDomains_spec now s ds (setETag s etag w) Hsome) as Happly. cbv zeta in Happly.
      destruct (evaluateShrinkHold _ _ _ _) as [holds held]. destruct Happly as (_ & (x & Hst & _) & _).
      apply domainsOf_states. by rewrite Hst, lookup_insert_ne, Hstates.
    + apply domainsOf_states. by rewrite Hst.
  - by destruct (RetryHolds_dyn now d w) as [-> _].
  - by destruct (sweep_dyn now preflight w) as [-> _].
  - done.
Qed.

(** C7: one bad answer of the application does not empty the estate.  Whatever
    happened before, a name leaves the list of a service only when the service
    loses its source, or by a poll that does not list it; and if that poll drops
    more than three tenths of the list, the two polls of the service before it
    were as suspicious. *)
Theorem shrink_guard service w log e d :
  dyn_run service w log → d ∈ domainsOf (dyn w) service → d ∉ domainsOf (dyn (dyn_step w e)) service →
  drops e service = true ∨
  ∃ ds, fetched w e service = Some ds ∧ d ∉ ds ∧
    (suspicious w service ds = true → ∃ l, log = true :: true :: l) ∧
    ((length (domainsOf (dyn w) service) ≤ 1000)%nat →
       suspicious w service ds = true ↔ (3 * length (domainsOf (dyn w) service) < 10 * length (removedBy w service ds))%nat).
Proof.
  intros Hrun%dyn_run_guard Hin Hout. destruct (drops e service) eqn:Hdrops; [by left|right].
  destruct (fetched w e service) as [ds|] eqn:Hf; [|by rewrite (step_domains service w e Hf Hdrops) in Hout].
  exists ds. split; [done|]. destruct e as [| |now known s answer| | |]; try done.
  assert (known = true ∧ s = service) as [-> ->].
  { unfold fetched in Hf. destruct known, answer; try done. destruct (String.eqb_spec s service); [done|]. done. }
  cbn [dyn_step] in Hout. rewrite (poll_domains now service answer ds w Hf) in Hout.
  pose proof (evaluate_spec service w log ds Hrun) as Heval. destruct (evaluateShrinkHold _ _ _ _) as [holds held]. cbn [snd] in Hout.
  destruct held; [by rewrite elem_of_app in Hout; destruct Hout; left|]. destruct Heval as [Heval _].
  split; [done|]. split; [by apply Heval|]. intros Hlen. apply overThreshold_exact; [|done].
  unfold removedBy. cbn. apply List.filter_length_le.
Qed.

(** ** ETags *)

Section etags.
(** What a service's source listed when it handed out an ETag. *)
Variable source_of : string → string → list string.

(** A source that is honest about its ETags, polled for a service the router
    has. *)
Definition honest (e : DynEvent) : Prop :=
  match e with
  | EvPoll _ known s (PollBody etag size payload) =>
      known = true ∧ (etag ≠ "" → ∀ ds, parseDomainList size payload = Ok ds → ds = source_of s etag)
  | _ => True
  end.

Definition states_honest (w : Dynamic) : Prop :=
  ∀ s st, dmStates (dyn w) !! s = Some st → sdETag st ≠ "" → sdDomains st = source_of s (sdETag st).

(** A poller's ETag is the one its service's list was stored with. *)
Definition etag_ok (w : Dynamic) : Prop :=
  states_honest w ∧
  ∀ s p, dmSources (dyn w) !! s = Some p → plETag p ≠ "" → ∃ st, dmStates (dyn w) !! s = Some st ∧ sdETag st = plETag p.

Inductive honest_run : Dynamic → Prop :=
| hr_new w : dmSources (dyn w) = ∅ → states_honest w → honest_run w
| hr_step w e : honest_run w → honest e → honest_run (dyn_step w e).

Lemma etag_same w w' :
  dmSources (dyn w') = dmSources (dyn w) → dmStates (dyn w') = dmStates (dyn w) → etag_ok w → etag_ok w'.
Proof. unfold etag_ok, states_honest. by intros -> ->. Qed.

Lemma etag_removed s w : etag_ok w → etag_ok (ServiceRemoved s w).
Proof.
  intros [Hst Hsrc]. assert (Hdm : dmSources (dyn (ServiceRemoved s w)) = delete s (dmSources (dyn w)) ∧
    dmStates (dyn (ServiceRemoved s w)) = delete s (dmStates (dyn w))) by (unfold ServiceRemoved; by case_goal).
  destruct Hdm as [Hs1 Hs2]. split.
  - intros x st. rewrite Hs2. intros [_ Hx]%lookup_delete_Some. by apply Hst.
  - intros x p. rewrite Hs1, Hs2. intros [Hne Hx]%lookup_delete_Some Hp. rewrite lookup_delete_ne by done. by apply Hsrc.
Qed.

Lemma etag_step w e : etag_ok w → honest e → etag_ok (dyn_step w e).
Proof.
  intros Hok He. destruct e as [now s so|s|now known s answer|now d|now preflight|m q i]; cbn [dyn_step].
  - unfold ServiceDeployed. case_goal; [by apply etag_removed|]. destruct Hok as [Hst Hsrc].
    split; [intros x st|intros x p]; cbn; rewrite ?lookup_insert_Some.
    + intros [[<- <-]|[_ Hx]]; [|by apply Hst]. destruct (dmStates (dyn w) !! s) as [st|] eqn:Hs; [by apply Hst|done].
    + intros [[<- <-]|[Hne Hx]] Hp.
      * rewrite lookup_insert_eq. eexists. split; [done|]. done.
      * rewrite lookup_insert_ne by done. by apply Hsrc.
  - by apply etag_removed.
  - destruct (poll_cases now known s answer w) as [(etag & size & payload & ds & -> & Hparse & -> & Hf & Hsome & Hpoll)|(_ & _ & Hst & _ & Hsrc)].
    + destruct He as [_ He]. destruct Hok as [Hst Hsrc]. rewrite Hpoll. destruct (setETag_keeps s etag w) as (Hholds & Hstates & _ & Hsrc').
      assert (Hother : ∀ x, x ≠ s → dmSources (dyn (setETag s etag w)) !! x = dmSources (dyn w) !! x) by (intros x ?; cbn; by rewrite lookup_alter_ne).
      assert (Hcond : conditional (setETag s etag w) s = etag).
      { unfold conditional. cbn. rewrite lookup_alter_eq. by destruct Hsome as [p ->]. }
      apply Hsrc' in Hsome. pose proof (applyDomains_spec now s ds (setETag s etag w) Hsome) as Happly. cbv zeta in Happly.
      destruct (evaluateShrinkHold _ _ _ _) as [holds held]. destruct Happly as (_ & (x & Hst' & (p & Hsources & Hp) & Hx) & _).
      rewrite Hcond in Hx. split.
      * intros y st. rewrite Hst', Hstates, lookup_insert_Some. intros [[<- <-]|[_ Hy]]; [|by apply Hst].
        cbn. intros Hne. destruct held; [done|]. rewrite Hx in Hne |- *. by apply He.
      * intros y p'. rewrite Hst', Hsources, Hstates, lookup_insert_Some. intros [[<- <-]|[Hne Hy]] Hp'.
        -- rewrite lookup_insert_eq. by eexists.
        -- rewrite lookup_insert_ne by done. apply Hsrc; [|done]. by rewrite <-Hother.
    + assert (known = true ∨ poll now known s answer w = w) as [->|Hw].
      { destruct answer; try (by right). destruct He as [-> _]. by left. }
      * by apply (etag_same w); [apply Hsrc| |].
      * by rewrite Hw.
  - destruct (RetryHolds_dyn now d w) as [Heq _]. by apply (etag_same w); rewrite ?Heq.
  - destruct (sweep_dyn now preflight w) as [Heq _]. by apply (etag_same w); rewrite ?Heq.
  - done.
Qed.

Lemma honest_run_ok w : honest_run w → etag_ok w.
Proof.
  induction 1 as [w Hs Hst|w e _ IH He]; [|by apply etag_step]. split; [done|]. intros s p. by rewrite Hs, lookup_empty.
Qed.

(** A poll answered with Not Modified misses nothing.  The ETag the next
    poll of a service sends is the one its list was fetched with, and that list
    is applied in full: a held list is always fetched again. *)
Theorem etag_means_applied w s :
  honest_run w → conditional w s ≠ "" → domainsOf (dyn w) s = source_of s (conditional w s).
Proof.
  intros [Hst Hsrc]%honest_run_ok. unfold conditional, domainsOf. destruct (dmSources (dyn w) !! s) as [p|] eqn:Hp; [|done].
  intros Hne. destruct (Hsrc s p Hp Hne) as (st & Hs & Heq). rewrite Hs. rewrite <-Heq. apply Hst; [done|]. by rewrite Heq.
Qed.
End etags.

(** ** The allow list *)

Definition allow_ok (w : Dynamic) : Prop :=
  ∀ d s, dynamicDomains (dynManager w) !! d = Some s → d ∈ domainsOf (dyn w) s.

Inductive dyn_reachable : Dynamic → Prop :=
| dy_new w : dynamicDomains (dynManager w) = ∅ → dyn_reachable w
| dy_step w e : dyn_reachable w → dyn_reachable (dyn_step w e).

(** Setting a service's names to its new list, others keeping theirs. *)
Lemma allow_set w w' service :
  allow_ok w →
  dynamicDomains (dynManager w') = dynamicDomains (SetDynamicDomains service (domainsOf (dyn w') service) (dynManager w)) →
  (∀ s, s ≠ service → domainsOf (dyn w') s = domainsOf (dyn w) s) → allow_ok w'.
Proof.
  intros Hok Hdyn Hother d s. rewrite Hdyn, SetDynamicDomains_lookup. destruct (decide (d ∈ _)) as [Hin|Hni]; [by intros [= <-]|].
  destruct (dynamicDomains (dynManager w) !! d) as [s'|] eqn:Hd; [|done]. destruct (decide (s' = service)) as [|Hne]; [done|].
  intros [= <-]. rewrite Hother by done. by apply Hok.
Qed.

Lemma allow_removed s w : allow_ok w → allow_ok (ServiceRemoved s w).
Proof.
  intros Hok. unfold ServiceRemoved. destruct (_ && _) eqn:Hnone.
  - breflect. intros d x Hd. specialize (Hok d x Hd). unfold domainsOf in *. cbn. destruct (decide (x = s)) as [->|].
    + destruct (dmStates (dyn w) !! s) as [st|]; [|by apply elem_of_nil in Hok].
      match goal with Hn : ¬ is_Some (Some _) |- _ => by destruct Hn end.
    + by rewrite lookup_delete_ne.
  - apply (allow_set w _ s); [done| |].
    + cbn [dyn dynManager]. unfold domainsOf. cbn. by rewrite lookup_delete_eq.
    + intros x Hne. unfold domainsOf. cbn. by rewrite lookup_delete_ne.
Qed.

Lemma allow_step w e : allow_ok w → allow_ok (dyn_step w e).
Proof.
  intros Hok. destruct e as [now s so|s|now known s answer|now d|now preflight|m q i]; cbn [dyn_step].
  - unfold ServiceDeployed. case_goal; [by apply allow_removed|]. apply (allow_set w _ s); [done| |].
    + unfold domainsOf. cbn. by rewrite lookup_insert_eq.
    + intros x Hne. unfold domainsOf. cbn. by rewrite lookup_insert_ne.
  - by apply allow_removed.
  - destruct (poll_cases now known s answer w) as [(etag & size & payload & ds & -> & Hparse & -> & Hf & Hsome & Hpoll)|(_ & _ & Hst & Hm & _)].
    + destruct (setETag_keeps s etag w) as (_ & Hstates & Hman & Hsrc). apply Hsrc in Hsome.
      pose proof (applyDomains_spec now s ds (setETag s etag w) Hsome) as Happly. cbv zeta in Happly. rewrite Hpoll.
      destruct (evaluateShrinkHold _ _ _ _) as [holds held]. destruct Happly as (_ & (x & Hst & _) & Hdyn). rewrite Hman in Hdyn.
      apply (allow_set w _ s); [done..|]. intros y Hne. apply domainsOf_states. by rewrite Hst, lookup_insert_ne, Hstates.
    + intros d x. rewrite Hm. intros Hd. apply Hok in Hd. by rewrite (domainsOf_states (dyn w)) by (by rewrite Hst).
  - destruct (RetryHolds_dyn now d w) as [H1 H2]. intros y x. rewrite H1, H2. apply Hok.
  - destruct (sweep_dyn now preflight w) as [H1 H2]. intros y x. rewrite H1, H2. apply Hok.
  - exact Hok.
Qed.

(** A name is allowed for a service, and so may be ordered and served,
    only while the list of that service has it: whatever was polled, deployed
    and removed, in whatever order. *)
Theorem allowed_is_listed w d s :
  dyn_reachable w → dynamicOwner (dynManager w) d = Some s → d ∈ domainsOf (dyn w) s.
Proof.
  intros Hr. assert (Hok : allow_ok w); [|apply Hok].
  induction Hr as [w Hw|w e _ IH]; [|by apply allow_step]. intros x y. by rewrite Hw, lookup_empty.
Qed.

(** ** Releases *)

Definition lifted (e : quarantineEntry) : quarantineEntry := mkEntry None (Failures e) (Kind e).

Lemma releaseAll_spec now ds q d :
  (releaseAll now ds q).1 !! d =
    (if str_contains ds d && IsQuarantined now d q then lifted <$> q !! d else q !! d) ∧
  (d ∈ (releaseAll now ds q).2 ↔ d ∈ ds ∧ IsQuarantined now d q = true).
Proof.
  revert q. induction ds as [|x ds IH]; intros q; cbn [releaseAll].
  { split; [done|]. cbn. set_solver. }
  destruct (Release now x q) as [q1 did] eqn:Hrel. specialize (IH q1). destruct (releaseAll now ds q1) as [q2 released]. cbn [fst snd] in IH |- *.
  destruct IH as [Hq Hr].
  assert (Hq1 : q1 !! d = (if String.eqb x d && IsQuarantined now d q then lifted <$> q !! d else q !! d) ∧
                IsQuarantined now d q1 = negb (String.eqb x d) && IsQuarantined now d q ∧ did = IsQuarantined now x q).
  { unfold Release in Hrel. unfold IsQuarantined. destruct (q !! x) as [e|] eqn:Hx.
    - destruct (before now (Until e)) eqn:Hb; injection Hrel as <- <-; destruct (String.eqb_spec x d) as [<-|Hne].
      + rewrite Hx, Hb, !lookup_insert_eq. done.
      + by rewrite !lookup_insert_ne.
      + by rewrite Hx, Hb.
      + done.
    - injection Hrel as <- <-. destruct (String.eqb_spec x d) as [<-|Hne]; [by rewrite Hx|done]. }
  destruct Hq1 as (Hq1 & Hheld & ->). rewrite Hq, Hq1, Hheld. unfold str_contains. cbn [existsb]. rewrite (String.eqb_sym d x).
  destruct (String.eqb_spec x d) as [<-|Hne]; cbn [negb andb orb].
  - rewrite andb_false_r. split; [by destruct (IsQuarantined now x q)|].
    destruct (IsQuarantined now x q); rewrite ?elem_of_cons, Hr, Hheld; cbn; naive_solver.
  - split; [done|]. destruct (IsQuarantined now x q); rewrite ?elem_of_cons, Hr, Hheld; cbn; naive_solver.
Qed.

Lemma releaseCandidates_spec now unprobeable q d :
  d ∈ releaseCandidates now unprobeable q ↔
  ∃ e, q !! d = Some e ∧ Kind e ≠ quarantineRateLimited ∧ is_wildcard d = false ∧ unprobeable d = false ∧ IsQuarantined now d q = true.
Proof.
  unfold releaseCandidates. rewrite elem_of_filter_bool, list_elem_of_omap. split.
  - intros [([x e] & Hin & Heq) Hheld]. apply elem_of_map_to_list in Hin. cbn [fst snd] in Heq. revert Heq. case_goal; [done|].
    intros [= ->]. breflect. exists e. done.
  - intros (e & Hd & Hk & Hw & Hu & Hheld). split; [|done]. exists (d, e). split; [by apply elem_of_map_to_list|]. cbn [fst snd].
    rewrite bool_decide_false by done. unfold is_wildcard in Hw. by rewrite Hw, Hu.
Qed.

(** The sweep gives names back as soon as they answer, and only then.  It
    lifts the hold of exactly the held names that were not rate limited, that a
    probe can speak for and that answer it; it records no failure, so that being
    swept never makes a hold longer; and everything else stays as it was. *)
Theorem sweep_releases now ok w d :
  let unprobeable := hasDNSProviderFor (smPlanner (dynManager w)) in
  dynQuarantine (sweep now (Some ok) w) !! d =
  match dynQuarantine w !! d with
  | None => None
  | Some e =>
      if negb (bool_decide (Kind e = quarantineRateLimited)) && negb (is_wildcard d) && negb (unprobeable d) && ok d &&
         IsQuarantined now d (dynQuarantine w)
      then Some (mkEntry None (Failures e) (Kind e)) else Some e
  end.
Proof.
  cbv zeta. unfold sweep. set (un := hasDNSProviderFor _). set (cs := releaseCandidates now un (dynQuarantine w)).
  set (ds := List.filter _ cs). pose proof (releaseAll_spec now ds (dynQuarantine w) d) as [Hq _].
  destruct (releaseAll now ds (dynQuarantine w)) as [q released].
  destruct (requestAll_dyn now released (mkDyn (dyn w) (dynManager w) q (dynIssuer w))) as (_ & _ & ->). cbn [dynQuarantine]. cbn [fst] in Hq.
  rewrite Hq. destruct (dynQuarantine w !! d) as [e|] eqn:Hd; [|by case_goal].
  assert (Hds : str_contains ds d = negb (bool_decide (Kind e = quarantineRateLimited)) && negb (is_wildcard d) && negb (un d) && ok d &&
                                    IsQuarantined now d (dynQuarantine w)).
  { apply eq_true_iff_eq. rewrite str_contains_spec. unfold ds. rewrite elem_of_filter_bool. unfold cs. rewrite releaseCandidates_spec.
    rewrite !andb_true_iff, !negb_true_iff, bool_decide_eq_false, str_contains_false. unfold probeDomains. rewrite elem_of_filter_bool, releaseCandidates_spec.
    rewrite !andb_true_iff, !negb_true_iff. split.
    - intros [(e' & He & Hk & Hw & Hu & Hh) Hno]. rewrite Hd in He. injection He as <-. repeat split; try done.
      destruct (ok d) eqn:Hok; [done|]. destruct Hno. split; [eauto 10|done].
    - intros ((((Hk & Hw) & Hu) & Hok) & Hh). split; [eauto 10|]. intros [_ [_ Hn]]. congruence. }
  rewrite Hds, <-(andb_assoc _ (IsQuarantined _ _ _)), andb_diag. by case_goal.
Qed.

(** ** Lists and saved state *)

Lemma fold_add_new_length {A} (f : A → string) ds l :
  (length (foldl (λ l d, add_new l (f d)) l ds) ≤ length l + length ds)%nat.
Proof.
  revert l. induction ds as [|d ds IH]; intros l; cbn; [lia|]. etrans; [apply IH|]. unfold add_new. case_goal; [lia|].
  rewrite length_app. cbn. lia.
Qed.

Lemma omap_length {A B} (f : A → option B) l : (length (omap f l) ≤ length l)%nat.
Proof. induction l as [|x l IH]; cbn; [lia|]. destruct (f x); cbn; lia. Qed.

(** What a source's payload becomes: valid concrete names, none twice, no more
    than the limit. *)
Lemma parseDomainList_spec size payload ds :
  parseDomainList size payload = Ok ds →
  Forall (λ d, validDynamicDomain d = true ∧ is_wildcard d = false) ds ∧ NoDup ds ∧
  Z.of_nat (length ds) ≤ maxDomainListEntries ∧
  ∃ entries, payload = Some entries ∧ ∀ d, d ∈ ds ↔ ∃ raw, raw ∈ entries ∧ parseDomainEntry raw = Some d.
Proof.
  unfold parseDomainList. case_goal; [done|]. destruct payload as [entries|]; [|done].
  destruct (maxDomainListEntries <? _) eqn:Hlen; [done|]. intros [= <-]. apply Z.ltb_ge in Hlen.
  assert (Hin : ∀ d, d ∈ foldl add_new [] (omap parseDomainEntry entries) ↔ ∃ raw, raw ∈ entries ∧ parseDomainEntry raw = Some d).
  { intros d. pose proof (fold_add_new (λ x, x) (omap parseDomainEntry entries) d) as Hfold. cbn in Hfold.
    rewrite Hfold. setoid_rewrite list_elem_of_omap. naive_solver. }
  split; [|split; [|split; [|eauto]]].
  - apply Forall_forall. intros d (raw & _ & Hraw)%Hin. unfold parseDomainEntry in Hraw. revert Hraw. case_goal; [done|].
    case_goal; [done|]. intros [= <-]. by breflect.
  - apply (fold_add_new_NoDup (λ x, x)).
  - etrans; [|exact Hlen]. apply inj_le. etrans; [apply (fold_add_new_length (λ x, x))|apply omap_length].
Qed.

(** A restart forgets no list and lifts no hold: what is saved is read
    back as it was, lists, ETags, times and quarantine, and nothing is left of
    what the new process had. *)
Theorem dynamic_state_roundtrip w w' :
  dmStates (dyn w') = ∅ →
  dmStates (dyn (loadDomains (saveDomains w) w')) = dmStates (dyn w) ∧
  (∀ d, dynQuarantine (loadDomains (saveDomains w) w') !! d = dynQuarantine w !! d) ∧
  ∀ s, domainsOf (dyn (loadDomains (saveDomains w) w')) s = domainsOf (dyn w) s.
Proof.
  intros Hnew. assert (Hst : dmStates (dyn (loadDomains (saveDomains w) w')) = dmStates (dyn w)).
  { cbn. rewrite Hnew, map_union_empty. apply map_eq. intros s. rewrite lookup_omap, lookup_fmap.
    destruct (dmStates (dyn w) !! s) as [st|]; [|done]. cbn. by destruct st. }
  split; [done|]. split; [|intros s; apply domainsOf_states; by rewrite Hst].
  intros d. cbn. unfold Restore, Snapshot. rewrite lookup_fmap. destruct (dynQuarantine w !! d) as [e|]; [|done]. cbn. by destruct e.
Qed.

(** ** Examples *)

Module DynamicExamples.

Definition options (source : string) : SvcOptions :=
  mkSvcOptions ["a.example"] ["/"] true "" "" "" false "" "" "" "" false 0 false []
    "X-Client-Ip" "" source 0 0 [] 0 0 false "" ""
    [] [] [] [] f64_zero 0 [] [] [] "" 0 0 0 []
    (Compression.mkCompression [] 0 []) (CachePolicy.mkCacheOptions false 0 0 [] [] false 0).

Definition start : Dynamic :=
  mkDyn (mkDynamic ∅ ∅ ∅ ∅)
    (mkManager "prod" false (Some "http") (mkPlanner (mkSelection "" ∅) None ∅ (mkGrouper 2 true false)) true
       ∅ ∅ ∅ ∅ ∅ ∅ ∅ ∅ None) ∅ (mkIssuer [] ∅ ∅ ∅).

Definition five : list string := ["a.example"; "b.example"; "c.example"; "d.example"; "e.example"].
Definition ten : list string := five ++ ["f.example"; "g.example"; "h.example"; "i.example"; "j.example"].
Definition new_ten : list string :=
  ["k.example"; "l.example"; "m.example"; "n.example"; "o.example"; "p.example"; "q.example"; "r.example"; "s.example"; "t.example"].
Definition listed (etag : string) (ds : list string) : DynEvent := EvPoll 0 true "web" (PollBody etag 100 (Some ds)).
Definition serving (ds : list string) : Dynamic :=
  foldl dyn_step start [EvDeploy 0 "web" (options "/domains"); listed "v1" ds].

Lemma serving_run ds : dyn_run "web" (foldl dyn_step start [EvDeploy 0 "web" (options "/domains"); listed "v1" ds])
  (log_event "web" (dyn_step start (EvDeploy 0 "web" (options "/domains"))) (listed "v1" ds) []).
Proof. apply (dr_step "web" (dyn_step start _) []). apply (dr_step "web" start []). by apply dr_new. Qed.

(** The third poll in a row that drops half of the list is believed. *)
Lemma shrink_guard_witness :
  ∃ w log, dyn_run "web" w log ∧ ("f.example" ∈ domainsOf (dyn w) "web") ∧
    ("f.example" ∉ domainsOf (dyn (dyn_step w (listed "v2" five))) "web") ∧
    (drops (listed "v2" five) "web" = true ∨
     ∃ ds, fetched w (listed "v2" five) "web" = Some ds ∧ "f.example" ∉ ds ∧
       (suspicious w "web" ds = true → ∃ l, log = true :: true :: l) ∧
       ((length (domainsOf (dyn w) "web") ≤ 1000)%nat →
          suspicious w "web" ds = true ↔ (3 * length (domainsOf (dyn w) "web") < 10 * length (removedBy w "web" ds))%nat)).
Proof.
  set (w := dyn_step (dyn_step (serving ten) (listed "v2" five)) (listed "v2" five)).
  assert (Hrun : ∃ log, dyn_run "web" w log) by (eexists; do 2 apply dr_step; apply serving_run).
  destruct Hrun as [log Hrun]. exists w, log.
  assert (Hin : "f.example" ∈ domainsOf (dyn w) "web") by (apply (bool_decide_unpack _); vm_compute; exact I).
  assert (Hout : "f.example" ∉ domainsOf (dyn (dyn_step w (listed "v2" five))) "web") by (apply (bool_decide_unpack _); vm_compute; exact I).
  split; [exact Hrun|]. split; [exact Hin|]. split; [exact Hout|].
  exact (shrink_guard "web" w log _ _ Hrun Hin Hout).
Defined.

(** A source whose list does not change with its ETag. *)
Definition honest_source (s etag : string) : list string := if String.eqb etag "v1" then ten else five.

Lemma etag_means_applied_witness :
  honest_run honest_source (serving ten) ∧ conditional (serving ten) "web" = "v1" ∧ domainsOf (dyn (serving ten)) "web" = ten.
Proof.
  assert (Hrun : honest_run honest_source (serving ten)).
  { apply (hr_step _ _ (listed "v1" ten)); [apply (hr_step _ start (EvDeploy 0 "web" (options "/domains"))); [|exact I]|].
    - apply hr_new; [reflexivity|]. intros s st Hs. vm_compute in Hs. discriminate.
    - split; [reflexivity|]. intros _ ds Hds. vm_compute in Hds. injection Hds as <-. reflexivity. }
  split; [exact Hrun|]. split; [vm_compute; reflexivity|].
  assert (Hne : conditional (serving ten) "web" ≠ "") by (vm_compute; discriminate).
  rewrite (etag_means_applied honest_source (serving ten) "web" Hrun Hne). vm_compute. reflexivity.
Defined.

Lemma allowed_is_listed_witness :
  ∃ w, dyn_reachable w ∧ dynamicOwner (dynManager w) "c.example" = Some "web" ∧ "c.example" ∈ domainsOf (dyn w) "web".
Proof.
  exists (serving five).
  assert (Hr : dyn_reachable (serving five)) by (apply dy_step, (dy_step start), dy_new; reflexivity).
  assert (Hown : dynamicOwner (dynManager (serving five)) "c.example" = Some "web") by (vm_compute; reflexivity).
  split; [exact Hr|]. split; [exact Hown|]. exact (allowed_is_listed (serving five) "c.example" "web" Hr Hown).
Defined.

Lemma dynamic_state_roundtrip_witness :
  dmStates (dyn start) = ∅ ∧ domainsOf (dyn (loadDomains (saveDomains (serving ten)) start)) "web" = ten.
Proof.
  assert (Hnew : dmStates (dyn start) = ∅) by reflexivity. split; [exact Hnew|].
  destruct (dynamic_state_roundtrip (serving ten) start Hnew) as (_ & _ & Hds). rewrite Hds. vm_compute. reflexivity.
Defined.

(** ** What modelling showed *)

(** Names that a suspicious poll adds make its removals a smaller share: half of
    the ten names are let go by the second poll, not by the third. *)
Example additions_dilute_guard :
  let half := five ++ new_ten in
  suspicious (serving ten) "web" half = true ∧
  suspicious (dyn_step (serving ten) (listed "v2" half)) "web" half = false ∧
  domainsOf (dyn (dyn_step (dyn_step (serving ten) (listed "v2" half)) (listed "v2" half))) "web" = half.
Proof. vm_compute. repeat split. Qed.

(** A name two services list is nobody's once the service that listed it last
    drops it, though the other still lists it. *)
Example shared_name_forgotten :
  let shared := dyn_step (dyn_step (serving ["a.example"]) (EvDeploy 0 "api" (options "/domains")))
                  (EvPoll 0 true "api" (PollBody "v1" 100 (Some ["a.example"; "b.example"]))) in
  let gone := dyn_step shared (EvRemove "api") in
  domainsOf (dyn gone) "web" = ["a.example"] ∧ dynamicOwner (dynManager gone) "a.example" = None.
Proof. vm_compute. repeat split. Qed.

(** A service deployed with another source asks it for what changed since the
    ETag of the old one. *)
Example etag_outlives_source :
  let moved := dyn_step (serving ten) (EvDeploy 0 "web" (options "/tenants")) in
  plSource <$> dmSources (dyn moved) !! "web" = Some "/tenants" ∧ conditional moved "web" = "v1".
Proof. vm_compute. repeat split. Qed.

End DynamicExamples.
