(* ===== verification/DomainRenewal.v ===== *)
(** * Renewal of certificates: [internal/server/domain_renewal.go]

    One goroutine looks at every certificate now and then, and orders a
    successor for the ones that are due.  Others change the manager, the
    quarantine and the queue of the issuer meanwhile: the goroutine is a
    transition system, a step per stretch of the code between two waits, and
    between any two of its steps the rest may have moved.  What the servers and
    the probes answer are arguments of the steps. *)
From S2P Require Import Prelude GoStrings CertPlan DomainFailure Quarantine SanCerts DomainIssuer.

Definition renewalJitterMax : Z := 6 * hour.
Definition fallbackCertLifetime : Z := 90 * day.
Definition quarantineCompactionWindow : Z := 7 * day.
Definition registeredQuarantineCompactionWindow : Z := 14 * day.

(** ** When a certificate is due *)

Definition fnv_offset64 : Z := 14695981039346656037.
Definition fnv_prime64 : Z := 1099511628211.

(** The loop of [hash/fnv]'s 64-bit FNV-1a. *)
Fixpoint fnv1a64 (h : Z) (s : string) : Z :=
  match s with
  | "" => h
  | String c s => fnv1a64 (Z.lxor h (Z.of_N (N_of_ascii c)) * fnv_prime64 mod 2 ^ 64) s
  end.

Definition certJitter (certID : string) : Z := fnv1a64 fnv_offset64 certID mod renewalJitterMax.

(** [ari]: what the server says of the renewal window, if it says anything;
    asked only when the leaf is there. *)
Definition shouldRenew (now : Z) (ari : option bool) (c : ManagedCert) : bool :=
  match Certificate c, ari with
  | Some _, Some due => due
  | leaf, _ =>
      let lifetime := match leaf with Some notBefore => time_sub (NotAfter c) notBefore | None => fallbackCertLifetime end in
      NotAfter c + Z.quot (wrap64 (- lifetime)) 3 + certJitter (Identifier c) <=? now
  end.

(** ** Who is renewed *)

Definition renewableDomains (m : SANCertManager) (c : ManagedCert) : list string :=
  List.filter (λ d, DomainAllowed m d && String.eqb (certIDForDomain m d) (Identifier c)) (Domains c).

Definition certStillServes (m : SANCertManager) (c : ManagedCert) : bool :=
  existsb (λ d, String.eqb (certIDForDomain m d) (Identifier c)) (Domains c).

Definition retireCertificate (now : Z) (c : ManagedCert) (m : SANCertManager) : SANCertManager :=
  if certStillServes m c && (now <? NotAfter c) then m else removeCertificate (Identifier c) m.

Definition compactionWindowFor (m : SANCertManager) (domains : list string) : Z :=
  if existsb (coversRegisteredDomain m) domains then registeredQuarantineCompactionWindow else quarantineCompactionWindow.

(** How [renew] begins: nothing to do, put off, or go on with these names. *)
Inductive Choice := ChNothing | ChDeferred | ChMembers (domains : list string).

(** Up to the first probe, for what is renewable: who is held, and what next. *)
Definition chooseMembers (now window : Z) (q : gmap string quarantineEntry) (c : ManagedCert) (allowed : list string)
  : list string * Choice :=
  let '(domains, held) := Filter (λ _, now) allowed q in
  (held,
   if Nat.eqb (length allowed) 0 then ChNothing
   else if Nat.eqb (length domains) 0 then ChDeferred
   else if negb (Nat.eqb (length held) 0) && (window <? time_sub (NotAfter c) now) then ChDeferred
   else ChMembers domains).

(** The dynamic names among the members that do not answer; they are held. *)
Definition preflightMembers (now : Z) (preflight : option (string → bool)) (m : SANCertManager)
    (q : gmap string quarantineEntry) (domains : list string) : gmap string quarantineEntry * list string :=
  match preflight with
  | None => (q, [])
  | Some _ =>
      let probeable := List.filter (λ d, negb (is_wildcard d) && bool_decide (is_Some (dynamicOwner m d))) domains in
      let unreachable := probeDomains probeable preflight (hasDNSProviderFor (smPlanner m)) in
      (foldl (λ q d, (RecordFailure now d quarantinePreflight q).1) q unreachable, unreachable)
  end.

(** Who is left after the probes; [None]: put off. *)
Definition afterProbe (now window : Z) (c : ManagedCert) (domains unreachable : list string) : option (list string) :=
  if Nat.eqb (length unreachable) 0 then Some domains
  else if window <? time_sub (NotAfter c) now then None
  else
    let left := List.filter (λ d, negb (str_contains unreachable d)) domains in
    if Nat.eqb (length left) 0 then None else Some left.

Fixpoint dynamicServiceFor (m : SANCertManager) (domains : list string) : option string :=
  match domains with
  | [] => None
  | d :: ds => match dynamicOwner m d with Some s => Some s | None => dynamicServiceFor m ds end
  end.

Section renewal.
Context `{!SortFunc}.
Variable sha256_hex : string → string.
Variable retry_after_in : string → option Z.
(** [BatchSize] and [TakePending] of the configuration, set together. *)
Variable BatchSize : option (string → Z).

(** Whose queue is to top up the batch, and by how many names at most. *)
Definition topUpSize (m : SANCertManager) (domains : list string) : option (string * nat) :=
  f ← BatchSize; service ← dynamicServiceFor m domains;
  if (f service <=? 1) || (f service <=? Z.of_nat (length domains)) then None
  else Some (service, Z.to_nat (f service - Z.of_nat (length domains))).

(** ** Orders *)

(** The orders of one renewal: the names they answer for, the marker and the
    directory it belongs to, the partitions still to order by directory, whether
    the marker is spent, whether all went well so far, and what was adopted. *)
Record Orders := mkOrders {
  oDomains : list string;
  oReplaces : string;
  oRecorded : string;
  oWork : list (string * list (list string));
  oConsumed : bool;
  oAll : bool;
  oNew : list string }.

(** [ari_id]: what [MakeARICertID] makes of the leaf. *)
Definition planRenewal (now : Z) (ari_id : option string) (m : SANCertManager) (q : gmap string quarantineEntry)
    (c : ManagedCert) (domains : list string) : Orders :=
  let domains := sort_strings domains in
  let planned := planDynamicIssuance (smPlanner m) (λ d, IsQuarantined now d q) domains in
  let collapsed := negb (bool_decide (planned = domains)) in
  mkOrders domains
    match Certificate c, ari_id with Some _, Some id => if collapsed then "" else id | _, _ => "" end
    (normalizeDirectory m (Directory c))
    ((λ part : string * list string, (part.1, splitByProviderZone (smPlanner m) part.2)) <$> splitByDesiredDirectory m c planned)
    false true [].

(** The marker of the next order, at the given directory. *)
Definition partitionReplaces (o : Orders) (directory : string) : string :=
  if negb (oConsumed o) && String.eqb directory (oRecorded o) then oReplaces o else "".

(** After an order that was [ordered], and adopted as [adopted] if it was. *)
Definition afterOrder (o : Orders) (directory : string) (ordered : bool) (adopted : option string)
    (work : list (string * list (list string))) : Orders :=
  mkOrders (oDomains o) (oReplaces o) (oRecorded o) work
    (oConsumed o || negb (String.eqb (partitionReplaces o directory) "") && ordered)
    (oAll o && bool_decide (is_Some adopted)) (oNew o ++ option_list adopted).

(** [handleRenewalFailure]: the holds, and the time an account-level limit
    advertised. *)
Definition handleRenewalFailure (now : Z) (preflight : option (string → bool)) (e : OrderError) (domains : list string)
    (m : SANCertManager) (q : gmap string quarantineEntry) : gmap string quarantineEntry * option (option Z) :=
  match parseRateLimited retry_after_in e with
  | Some l =>
      let named := rateLimitedDomains l domains in
      let accountLevel := Nat.eqb (length named) 0 in
      (foldl (λ q d, (RecordRateLimited now d (retryAfter l) q).1) q (if accountLevel then domains else named),
       if accountLevel then Some (retryAfter l) else None)
  | None =>
      let probe := (λ ok d, if bool_decide (is_Some (dynamicOwner m d)) then ok d else true) <$> preflight in
      (foldl (λ q d, (RecordFailure now d quarantineACME q).1) q
         (identifyFailedDomains e domains probe (hasDNSProviderFor (smPlanner m))), None)
  end.

Definition holdPartitions (now : Z) (retryAfter : option Z) (partitions : list (list string))
    (q : gmap string quarantineEntry) : gmap string quarantineEntry :=
  foldl (λ q d, (RecordRateLimited now d retryAfter q).1) q (concat partitions).

(** The old certificate goes only when every partition has a successor. *)
Definition finishRenewal (c : ManagedCert) (o : Orders) (m : SANCertManager) : SANCertManager :=
  if oAll o && negb (str_contains (oNew o) (Identifier c)) then removeCertificate (Identifier c) m else m.

(** ** The renewer at work *)

(** The certificate that is looked at, the ones after it, and how many were put
    off before it. *)
Record Pass := mkPass { pCert : ManagedCert; pTodo : list ManagedCert; pDeferred : nat }.

(** What the goroutine does next, with the variables it has by then. *)
Inductive RenewState :=
| RnIdle
| RnScan (todo : list ManagedCert) (deferred : nat)
| RnDue (p : Pass)
| RnChoose (p : Pass)
| RnProbe (p : Pass) (window : Z) (domains : list string)
| RnTopUp (p : Pass) (domains : list string)
| RnTake (p : Pass) (domains todo kept : list string)
| RnPlan (p : Pass) (domains taken : list string)
| RnOrder (p : Pass) (taken : list string) (o : Orders)
| RnGone.

Record Renewer := mkRenewer {
  rnState : RenewState;
  rnManager : SANCertManager;
  rnQuarantine : gmap string quarantineEntry;
  rnIssuer : Issuer;
  rnNow : Z;
  rnStopped : bool }.

Definition goto_renew (st : RenewState) (w : Renewer) : Renewer :=
  mkRenewer st (rnManager w) (rnQuarantine w) (rnIssuer w) (rnNow w) (rnStopped w).

(** How an order ended: refused, refused for the whole account, or issued, and
    then adopted or not. *)
Inductive Outcome := OoRefused | OoLimited | OoIssued (adopted : bool).

Record Ordered := mkOrdered { orIdentifiers : list string; orReplaces : string; orDirectory : string; orOutcome : Outcome }.

(** What a step was, as far as the statements below tell apart. *)
Inductive RenewEvent :=
| ReBegin (m : SANCertManager) (c : ManagedCert) (allowed : list string) (window : Z) (held : list string)
| ReProbed (unreachable : list string)
| ReOrdered (o : Ordered)
| ReReconciled (deferred : nat)
| ReElsewhere
| ReOther.

(** What the others leave alone: no name is taken from a certificate other than
    the one under renewal (only this goroutine removes certificates, and an
    adopted one hands its names to itself). *)
Definition keeps (old : string) (m m' : SANCertManager) : Prop :=
  ∀ i id, domainToCert m !! i = Some id → id ≠ old → id ≠ "" → is_Some (certificates m !! id) →
  ∃ id', domainToCert m' !! i = Some id' ∧ id' ≠ old ∧ id' ≠ "" ∧ is_Some (certificates m' !! id').

Definition renewing (st : RenewState) : option string :=
  match st with
  | RnChoose p | RnProbe p _ _ | RnTopUp p _ | RnTake p _ _ _ | RnPlan p _ _ | RnOrder p _ _ => Some (Identifier (pCert p))
  | _ => None
  end.

Definition next_cert (p : Pass) (deferred : nat) : RenewState := RnScan (pTodo p) (pDeferred p + deferred).

Inductive renew_step (w : Renewer) : RenewEvent → Renewer → Prop :=
| re_elsewhere m q i now :
    rnNow w ≤ now → smPlanner m = smPlanner (rnManager w) → smDirectory m = smDirectory (rnManager w) →
    (∀ old, renewing (rnState w) = Some old → keeps old (rnManager w) m) →
    renew_step w ReElsewhere (mkRenewer (rnState w) m q i now (rnStopped w))
| re_stop : renew_step w ReOther (mkRenewer (rnState w) (rnManager w) (rnQuarantine w) (rnIssuer w) (rnNow w) true)
| re_tick certs :
    rnState w = RnIdle → certs ≡ₚ (map_to_list (certificates (rnManager w))).*2 →
    renew_step w ReOther (goto_renew (RnScan certs 0) w)
| re_gone :
    rnStopped w = true → (rnState w = RnIdle ∨ ∃ c todo n, rnState w = RnScan (c :: todo) n) →
    renew_step w ReOther (goto_renew RnGone w)
| re_reconciled n : rnState w = RnScan [] n → renew_step w (ReReconciled n) (goto_renew RnIdle w)
| re_retire c todo n :
    rnState w = RnScan (c :: todo) n → rnStopped w = false → renewableDomains (rnManager w) c = [] →
    renew_step w ReOther
      (mkRenewer (RnScan todo n) (retireCertificate (rnNow w) c (rnManager w)) (rnQuarantine w) (rnIssuer w) (rnNow w) (rnStopped w))
| re_look c todo n :
    rnState w = RnScan (c :: todo) n → rnStopped w = false → renewableDomains (rnManager w) c ≠ [] →
    renew_step w ReOther (goto_renew (RnDue (mkPass c todo n)) w)
| re_due ari p :
    rnState w = RnDue p →
    renew_step w ReOther
      (goto_renew (if certDirectoryMismatched (rnManager w) (pCert p) || shouldRenew (rnNow w) ari (pCert p)
                   then RnChoose p else next_cert p 0) w)
| re_choose p allowed window held choice :
    rnState w = RnChoose p → renewableDomains (rnManager w) (pCert p) = allowed →
    compactionWindowFor (rnManager w) allowed = window →
    chooseMembers (rnNow w) window (rnQuarantine w) (pCert p) allowed = (held, choice) →
    renew_step w (ReBegin (rnManager w) (pCert p) allowed window held)
      (goto_renew match choice with
                  | ChNothing => next_cert p 0
                  | ChDeferred => next_cert p 1
                  | ChMembers domains => RnProbe p window domains
                  end w)
| re_probe preflight p window domains q unreachable :
    rnState w = RnProbe p window domains →
    preflightMembers (rnNow w) preflight (rnManager w) (rnQuarantine w) domains = (q, unreachable) →
    renew_step w (ReProbed unreachable)
      (mkRenewer match afterProbe (rnNow w) window (pCert p) domains unreachable with
                 | Some rest => RnTopUp p rest
                 | None => next_cert p 1
                 end (rnManager w) q (rnIssuer w) (rnNow w) (rnStopped w))
| re_full p domains :
    rnState w = RnTopUp p domains → topUpSize (rnManager w) domains = None →
    renew_step w ReOther (goto_renew (RnPlan p domains []) w)
| re_take p domains service n taken i :
    rnState w = RnTopUp p domains → topUpSize (rnManager w) domains = Some (service, n) →
    takePending (rnNow w) (rnManager w) (rnQuarantine w) service n (rnIssuer w) = (taken, i) →
    renew_step w ReOther (mkRenewer (RnTake p domains taken []) (rnManager w) (rnQuarantine w) i (rnNow w) (rnStopped w))
| re_reached preflight p domains d todo kept :
    rnState w = RnTake p domains (d :: todo) kept → unreachable preflight (rnManager w) d = false →
    renew_step w ReOther (goto_renew (RnTake p domains todo (kept ++ [d])) w)
| re_unreached preflight p domains d todo kept :
    rnState w = RnTake p domains (d :: todo) kept → unreachable preflight (rnManager w) d = true →
    renew_step w ReOther
      (mkRenewer (RnTake p domains todo kept) (rnManager w) (RecordFailure (rnNow w) d quarantinePreflight (rnQuarantine w)).1
         (releaseDomains [d] (rnIssuer w)) (rnNow w) (rnStopped w))
| re_topped p domains kept :
    rnState w = RnTake p domains [] kept → renew_step w ReOther (goto_renew (RnPlan p (domains ++ kept) kept) w)
| re_plan ari_id p domains taken :
    rnState w = RnPlan p domains taken →
    renew_step w ReOther
      (goto_renew (RnOrder p taken (planRenewal (rnNow w) ari_id (rnManager w) (rnQuarantine w) (pCert p) domains)) w)
| re_directory p taken o directory work :
    rnState w = RnOrder p taken o → oWork o = (directory, []) :: work →
    renew_step w ReOther
      (goto_renew (RnOrder p taken (mkOrders (oDomains o) (oReplaces o) (oRecorded o) work (oConsumed o) (oAll o) (oNew o))) w)
| re_no_token p taken o directory part parts work :
    rnState w = RnOrder p taken o → oWork o = (directory, part :: parts) :: work → rnStopped w = true →
    renew_step w ReOther (goto_renew (RnOrder p taken (afterOrder o directory false None ((directory, parts) :: work))) w)
| re_issued resource p taken o directory part parts work m c :
    rnState w = RnOrder p taken o → oWork o = (directory, part :: parts) :: work →
    adoptCertificateAt sha256_hex resource part directory (rnManager w) = (m, Some c) →
    renew_step w (ReOrdered (mkOrdered part (partitionReplaces o directory) directory (OoIssued true)))
      (mkRenewer (RnOrder p taken (afterOrder o directory true (Some (Identifier c)) ((directory, parts) :: work)))
         m (foldl (λ q d, Clear d q) (rnQuarantine w) part) (rnIssuer w) (rnNow w) (rnStopped w))
| re_unreadable resource p taken o directory part parts work m :
    rnState w = RnOrder p taken o → oWork o = (directory, part :: parts) :: work →
    adoptCertificateAt sha256_hex resource part directory (rnManager w) = (m, None) →
    renew_step w (ReOrdered (mkOrdered part (partitionReplaces o directory) directory (OoIssued false)))
      (mkRenewer (RnOrder p taken (afterOrder o directory true None ((directory, parts) :: work)))
         m (rnQuarantine w) (rnIssuer w) (rnNow w) (rnStopped w))
| re_aborted p taken o directory part parts work :
    rnState w = RnOrder p taken o → oWork o = (directory, part :: parts) :: work → rnStopped w = true →
    renew_step w (ReOrdered (mkOrdered part (partitionReplaces o directory) directory OoRefused))
      (goto_renew (RnOrder p taken (afterOrder o directory false None ((directory, parts) :: work))) w)
| re_refused preflight e p taken o directory part parts work q limit :
    rnState w = RnOrder p taken o → oWork o = (directory, part :: parts) :: work → rnStopped w = false →
    handleRenewalFailure (rnNow w) preflight e part (rnManager w) (rnQuarantine w) = (q, limit) →
    renew_step w
      (ReOrdered (mkOrdered part (partitionReplaces o directory) directory match limit with Some _ => OoLimited | None => OoRefused end))
      (mkRenewer
         (RnOrder p taken (afterOrder o directory false None match limit with Some _ => work | None => (directory, parts) :: work end))
         (rnManager w) match limit with Some retryAfter => holdPartitions (rnNow w) retryAfter parts q | None => q end
         (rnIssuer w) (rnNow w) (rnStopped w))
| re_finish p taken o :
    rnState w = RnOrder p taken o → oWork o = [] →
    renew_step w ReOther
      (mkRenewer (next_cert p 0) (finishRenewal (pCert p) o (rnManager w)) (rnQuarantine w)
         (releaseDomains taken (rnIssuer w)) (rnNow w) (rnStopped w)).

(** What happened to a renewer, the latest first. *)
Inductive renew_run : Renewer → list RenewEvent → Prop :=
| rr_new w : rnState w = RnIdle → renew_run w []
| rr_step w es e w' : renew_run w es → renew_step w e w' → renew_run w' (e :: es).

(** The renewal under way in a log, or the last one. *)
Fixpoint begun (es : list RenewEvent) : option (ManagedCert * list string * Z) :=
  match es with [] => None | ReBegin _ c allowed window _ :: _ => Some (c, allowed, window) | _ :: es => begun es end.

(** The manager it began under. *)
Fixpoint begunUnder (es : list RenewEvent) : option SANCertManager :=
  match es with [] => None | ReBegin m _ _ _ _ :: _ => Some m | _ :: es => begunUnder es end.

(** Who was held back or did not answer in it. *)
Fixpoint blocked (es : list RenewEvent) : list string :=
  match es with
  | [] => []
  | ReBegin _ _ _ _ held :: _ => held
  | ReProbed ds :: es => ds ++ blocked es
  | _ :: es => blocked es
  end.

(** Its orders, the latest first. *)
Fixpoint ordered (es : list RenewEvent) : list Ordered :=
  match es with
  | [] | ReBegin _ _ _ _ _ :: _ => []
  | ReOrdered o :: es => o :: ordered es
  | _ :: es => ordered es
  end.

(** ** Holding and letting go *)

(** What the renewer took out of the issuer's queue and did not give back. *)
Definition renewal_holds (st : RenewState) : list string :=
  match st with
  | RnTake _ _ todo kept => todo ++ kept
  | RnPlan _ _ taken | RnOrder _ taken _ => taken
  | _ => []
  end.

(** ** Laws of the steps *)

Lemma certIDCovering_served m d : is_Some (certCovering m d) ↔
  ∃ id, certIDCovering m d = id ∧ id ≠ "" ∧ is_Some (certificates m !! id).
Proof.
  unfold certCovering. destruct (String.eqb_spec (certIDCovering m d) "") as [He|Hne].
  - split; [by intros []|]. intros (id & <- & Hne & _). done.
  - split; [eauto|]. by intros (id & <- & _ & ?).
Qed.

(** A name that is mapped past the removed certificate, or under a wildcard that
    is, stays served. *)
Lemma removed_served old m d i id :
  i = d ∨ matchesWildcard i d = true →
  domainToCert m !! i = Some id → id ≠ old → id ≠ "" → is_Some (certificates m !! id) →
  is_Some (certCovering m d) → is_Some (certCovering (removeCertificate old m) d).
Proof.
  intros Hi Hid Hne Hnil Hcert Hd. apply certIDCovering_served in Hd as (id0 & Hcov & Hne0 & Hc0). apply certIDCovering_served.
  assert (Hkeep : ∀ x, x ≠ old → is_Some (certificates m !! x) → is_Some (certificates (removeCertificate old m) !! x)).
  { intros x Hx. cbn. by rewrite lookup_delete_ne. }
  assert (Hmap : ∀ x y, domainToCert m !! x = Some y → y ≠ old → domainToCert (removeCertificate old m) !! x = Some y).
  { intros x y Hx Hy. cbn. apply map_lookup_filter_Some. done. }
  assert (Hmap' : ∀ x, domainToCert m !! x = None ∨ domainToCert m !! x = Some old → domainToCert (removeCertificate old m) !! x = None).
  { intros x [Hx|Hx]; cbn; apply map_lookup_filter_None; [by left|]. right. rewrite Hx. intros y [= <-]. cbn. tauto. }
  unfold certIDCovering in Hcov |- *. destruct (domainToCert m !! d) as [idd|] eqn:Hdd.
  - subst idd. destruct (decide (id0 = old)) as [->|Hold].
    + destruct Hi as [->|Hi]; [congruence|]. rewrite Hmap' by auto. unfold matchesWildcard in Hi. destruct (negb _); [done|].
      destruct (wildcardParent d) as [parent|]; [|done]. apply String.eqb_eq in Hi as ->. rewrite (Hmap _ _ Hid Hne). cbn. eauto.
    + rewrite (Hmap _ _ Hdd Hold). eauto.
  - destruct Hi as [->|Hi]; [congruence|]. rewrite Hmap' by auto. unfold matchesWildcard in Hi. destruct (negb _); [done|].
    destruct (wildcardParent d) as [parent|]; [|done]. apply String.eqb_eq in Hi as ->. rewrite (Hmap _ _ Hid Hne). cbn. eauto.
Qed.

Lemma chooseMembers_spec now window q c allowed held choice :
  chooseMembers now window q c allowed = (held, choice) →
  ∀ domains, choice = ChMembers domains →
  (∀ d, d ∈ domains → d ∈ allowed) ∧
  ∀ d, d ∈ allowed → d ∈ domains ∨ d ∈ held ∧ time_sub (NotAfter c) now ≤ window.
Proof.
  unfold chooseMembers. rewrite Filter_spec. intros Heq domains ->. revert Heq.
  set (hs := List.filter _ allowed). set (ds := List.filter _ allowed). repeat case_goal; try done. intros [= <- <-].
  split; intros d Hd.
  - unfold ds in Hd. by apply elem_of_filter_bool in Hd as [? _].
  - destruct (IsQuarantined now d q) eqn:Hq.
    + right. assert (Hin : d ∈ hs) by (unfold hs; rewrite elem_of_filter_bool; auto). split; [done|].
      match goal with Hw : _ && _ = false |- _ => apply andb_false_iff in Hw as [Hw|Hw] end.
      * rewrite negb_false_iff, Nat.eqb_eq in *. destruct hs; [by apply elem_of_nil in Hin|done].
      * by apply Z.ltb_ge.
    + left. unfold ds. apply elem_of_filter_bool. by rewrite Hq.
Qed.

Lemma afterProbe_spec now window c domains unreachable rest :
  afterProbe now window c domains unreachable = Some rest →
  (∀ d, d ∈ rest → d ∈ domains) ∧
  ∀ d, d ∈ domains → d ∈ rest ∨ d ∈ unreachable ∧ time_sub (NotAfter c) now ≤ window.
Proof.
  unfold afterProbe. destruct (Nat.eqb_spec (length unreachable) 0) as [Hnil|Hsome]; [intros [= <-]; auto|].
  destruct (window <? _) eqn:Hw; [done|]. apply Z.ltb_ge in Hw. case_goal; [done|]. intros [= <-]. split.
  - intros d [? _]%elem_of_filter_bool. done.
  - intros d Hd. destruct (str_contains unreachable d) eqn:Hin.
    + right. split; [by apply str_contains_spec|done].
    + left. apply elem_of_filter_bool. by rewrite Hin.
Qed.

Lemma time_sub_mono t u u' w : u ≤ u' → time_sub t u ≤ w → time_sub t u' ≤ w.
Proof. unfold time_sub, int64_min, int64_max. intros Hu. repeat case_goal; breflect; lia. Qed.

(** An adopted certificate maps its names to itself, and takes nothing away. *)
Lemma adopt_maps resource ds directory m m' c i :
  adoptCertificateAt sha256_hex resource ds directory m = (m', Some c) → i ∈ ds →
  domainToCert m' !! i = Some (Identifier c) ∧ Identifier c ≠ "" ∧ is_Some (certificates m' !! Identifier c).
Proof.
  unfold adoptCertificateAt. destruct resource as [[nb na]|]; [|done]. intros [= <- <-] Hi. cbn [Identifier].
  split; [|split; [done|]].
  - cbn. rewrite map_lookup_imap. cbn. rewrite foldl_insert_lookup, bool_decide_true by done. cbn. unfold taken_over. cbn.
    by rewrite String.eqb_refl.
  - cbn. rewrite lookup_insert_eq. by eexists.
Qed.

Lemma adopt_keeps resource ds directory m m' c old :
  adoptCertificateAt sha256_hex resource ds directory m = (m', Some c) → Identifier c ≠ old → keeps old m m'.
Proof.
  intros Hadopt Hold i id Hi Hne Hnil Hcert. destruct (decide (i ∈ ds)) as [Hin|Hout].
  - destruct (adopt_maps _ _ _ _ _ _ _ Hadopt Hin) as (? & ? & ?). eauto.
  - unfold adoptCertificateAt in Hadopt. destruct resource as [[nb na]|]; [|done]. injection Hadopt as <- <-. cbn [Identifier] in Hold.
    cbn. rewrite map_lookup_imap. cbn. rewrite foldl_insert_lookup, bool_decide_false by done. rewrite Hi. cbn.
    case_goal; eexists; (split; [done|]); (split; [done|]); (split; [done|]).
    + rewrite lookup_insert_eq. by eexists.
    + destruct (decide (id = sanCertID sha256_hex ds)) as [->|]; [rewrite lookup_insert_eq; by eexists|by rewrite lookup_insert_ne].
Qed.

Lemma adopt_constants resource ds directory m m' c :
  adoptCertificateAt sha256_hex resource ds directory m = (m', c) → smPlanner m' = smPlanner m ∧ smDirectory m' = smDirectory m.
Proof. unfold adoptCertificateAt. destruct resource as [[nb na]|]; by intros [= <- <-]. Qed.

(** ** What holds of every run *)

(** A name of a certificate that does not depend on the one under renewal. *)
Definition settled (old : string) (m : SANCertManager) (i : string) : Prop :=
  ∃ id, domainToCert m !! i = Some id ∧ id ≠ old ∧ id ≠ "" ∧ is_Some (certificates m !! id).

Lemma keeps_settled old m m' i : keeps old m m' → settled old m i → settled old m' i.
Proof. intros Hk (id & ? & ? & ? & ?). by eapply Hk. Qed.

Lemma keeps_same old m m' : certificates m' = certificates m → domainToCert m' = domainToCert m → keeps old m m'.
Proof. intros Hc Hd i id. rewrite Hc, Hd. eauto. Qed.

(** Who of the renewable names is not among the members any more, and why. *)
Definition spared (now : Z) (es : list RenewEvent) (c : ManagedCert) (window : Z) (allowed members : list string) : Prop :=
  ∀ d, d ∈ allowed → d ∈ members ∨ d ∈ blocked es ∧ time_sub (NotAfter c) now ≤ window.

Definition marks (x : Ordered) : bool :=
  negb (String.eqb (orReplaces x) "") && match orOutcome x with OoIssued _ => true | _ => false end.

(** No order follows an account-level limit at the same directory. *)
Fixpoint respects_limits (l : list Ordered) : Prop :=
  match l with
  | [] => True
  | x :: l => (∀ y, y ∈ l → orOutcome y = OoLimited → orDirectory y ≠ orDirectory x) ∧ respects_limits l
  end.

Record log_ok (m : SANCertManager) (es : list RenewEvent) : Prop := {
  lo_limits : respects_limits (ordered es);
  lo_marks : (length (List.filter marks (ordered es)) ≤ 1)%nat;
  lo_recorded x : x ∈ ordered es → orReplaces x ≠ "" →
    ∃ c allowed window, begun es = Some (c, allowed, window) ∧ orDirectory x = normalizeDirectory m (Directory c) }.

Record orders_ok (m : SANCertManager) (es : list RenewEvent) (c : ManagedCert) (o : Orders) : Prop := {
  oo_cover d : d ∈ oDomains o → normalizeDomainName d = d → oAll o = true → Identifier c ∉ oNew o →
    ∃ i, (i = d ∨ matchesWildcard i d = true) ∧ (i ∈ concat (concat (oWork o).*2) ∨ settled (Identifier c) m i);
  oo_dirs : NoDup (oWork o).*1;
  oo_limits x : x ∈ ordered es → orOutcome x = OoLimited → orDirectory x ∉ (oWork o).*1;
  oo_recorded : oRecorded o = normalizeDirectory m (Directory c);
  oo_marks : (length (List.filter marks (ordered es)) ≤ if oConsumed o then 1 else 0)%nat }.

Definition choice_ok (w : Renewer) (es : list RenewEvent) (p : Pass) (members : list string) : Prop :=
  ∃ allowed window, begun es = Some (pCert p, allowed, window) ∧ spared (rnNow w) es (pCert p) window allowed members.

Definition state_ok (w : Renewer) (es : list RenewEvent) : Prop :=
  match rnState w with
  | RnProbe p window domains =>
      ordered es = [] ∧ ∃ allowed, begun es = Some (pCert p, allowed, window) ∧ spared (rnNow w) es (pCert p) window allowed domains
  | RnTopUp p domains | RnTake p domains _ _ | RnPlan p domains _ => ordered es = [] ∧ choice_ok w es p domains
  | RnOrder p _ o => choice_ok w es p (oDomains o) ∧ orders_ok (rnManager w) es (pCert p) o
  | _ => True
  end.

Lemma log_ok_quiet m m' e es :
  smDirectory m' = smDirectory m → begun (e :: es) = begun es → ordered (e :: es) = ordered es → log_ok m es → log_ok m' (e :: es).
Proof.
  intros Hm Hb Ho [Hl Hk Hr]. split; rewrite ?Hb, ?Ho; [done..|]. intros x Hx Hne. destruct (Hr x Hx Hne) as (c & a & wd & ? & ->).
  exists c, a, wd. split; [done|]. unfold normalizeDirectory. by rewrite Hm.
Qed.

Lemma spared_later now now' es es' c window allowed members members' :
  now ≤ now' → (∀ d, d ∈ blocked es → d ∈ blocked es') → (∀ d, d ∈ members → d ∈ members') →
  spared now es c window allowed members → spared now' es' c window allowed members'.
Proof.
  intros Hnow Hb Hm Hs d Hd. destruct (Hs d Hd) as [?|[??]]; [by left; auto|right]. split; [auto|]. by eapply time_sub_mono.
Qed.

Lemma orders_ok_quiet m m' e es c o :
  smDirectory m' = smDirectory m → keeps (Identifier c) m m' → ordered (e :: es) = ordered es → orders_ok m es c o → orders_ok m' (e :: es) c o.
Proof.
  intros Hm Hk Ho [Hcov Hd Hl Hr Hmk]. split; rewrite ?Ho; try done.
  - intros d Hin Hn Hall Hnew. destruct (Hcov d Hin Hn Hall Hnew) as (i & ? & [?|?]); exists i; (split; [done|]); [by left|right].
    by eapply keeps_settled.
  - rewrite Hr. unfold normalizeDirectory. by rewrite Hm.
Qed.

(** Dropping names of the middle of a partition list keeps the directories. *)
Lemma group_add_keys {A} k (x : A) groups : NoDup groups.*1 → NoDup (group_add k x groups).*1 ∧
  ∀ k', k' ∈ (group_add k x groups).*1 ↔ k' = k ∨ k' ∈ groups.*1.
Proof.
  induction groups as [|[k' xs] groups IH]; cbn; intros Hnd.
  { split; [apply NoDup_singleton|]. set_solver. }
  apply NoDup_cons in Hnd as [Hk' Hnd]. destruct (IH Hnd) as [IH1 IH2]. destruct (String.eqb_spec k k') as [->|Hne]; cbn.
  - split; [by apply NoDup_cons|]. set_solver.
  - split; [apply NoDup_cons; split; [|done]; rewrite IH2; set_solver|]. intros y. rewrite !elem_of_cons, IH2. tauto.
Qed.

Lemma group_by_keys {A} (key : A → string) l : NoDup (group_by key l).*1.
Proof.
  unfold group_by. induction l as [|x l IH] using rev_ind; [constructor|]. rewrite foldl_app. cbn. by apply group_add_keys.
Qed.

Lemma planRenewal_ok now ari_id m q c domains es :
  ordered es = [] → orders_ok m es c (planRenewal now ari_id m q c domains).
Proof.
  intros Hnone. unfold planRenewal. set (planned := planDynamicIssuance _ _ _). split; cbn [oDomains oAll oNew oWork oConsumed oRecorded]; rewrite ?Hnone.
  - intros d Hd Hn _ _. exists (planIdentifier (smPlanner m) (λ d, IsQuarantined now d q) d). split.
    + destruct (planIdentifier_spec (smPlanner m) (λ d, IsQuarantined now d q) d Hn) as [?|[? _]]; auto.
    + left. assert (Hin : planIdentifier (smPlanner m) (λ d, IsQuarantined now d q) d ∈ planned).
      { unfold planned, planDynamicIssuance. cbv zeta. apply fold_add_new. exists d. split; [done|]. by rewrite planned_identifier. }
      revert Hin. generalize (planIdentifier (smPlanner m) (λ d, IsQuarantined now d q) d). intros i Hin.
      assert (Hi : i ∈ concat (splitByDesiredDirectory m c planned).*2).
      { unfold splitByDesiredDirectory. by rewrite group_by_perm. }
      clear -Hi. induction (splitByDesiredDirectory m c planned) as [|[k ds] parts IH]; [done|]. cbn in Hi |- *.
      rewrite concat_app, elem_of_app, splitByProviderZone_perm. apply elem_of_app in Hi as [Hi|Hi]; [by left|right]. by apply IH.
  - rewrite <-list_fmap_compose. apply group_by_keys.
  - by intros x ?%elem_of_nil.
  - done.
  - cbn. lia.
Qed.

(** An order, whatever comes of it. *)
Lemma order_ok_step m m' es c allowed window o directory part parts work work' outcome adopted :
  log_ok m es → begun es = Some (c, allowed, window) → orders_ok m es c o →
  oWork o = (directory, part :: parts) :: work → smDirectory m' = smDirectory m →
  (work' = work ∨ work' = (directory, parts) :: work ∧ outcome ≠ OoLimited) →
  (∀ id, adopted = Some id → work' = (directory, parts) :: work ∧
     (id ≠ Identifier c → keeps (Identifier c) m m' ∧ ∀ i, i ∈ part → settled (Identifier c) m' i)) →
  let e := ReOrdered (mkOrdered part (partitionReplaces o directory) directory outcome) in
  log_ok m' (e :: es) ∧
  orders_ok m' (e :: es) c
    (afterOrder o directory match outcome with OoIssued _ => true | _ => false end adopted work').
Proof.
  intros [Hlim Hmk Hrec] Hbegun [Hcov Hdirs Hlimits Hrecd Hmarks] Hwork Hdir Hwork' Hadopted e.
  assert (Hnorm : ∀ x, normalizeDirectory m' x = normalizeDirectory m x) by (intros x; unfold normalizeDirectory; by rewrite Hdir).
  rewrite Hwork in Hdirs, Hlimits. cbn in Hdirs, Hlimits. apply NoDup_cons in Hdirs as [Hfresh Hdirs].
  assert (Hcount : (length (List.filter marks (ordered (e :: es))) ≤
    if oConsumed o || negb (String.eqb (partitionReplaces o directory) "") && match outcome with OoIssued _ => true | _ => false end then 1 else 0)%nat).
  { cbn [ordered e]. cbn [List.filter]. unfold marks at 1. cbn [orReplaces orOutcome].
    destruct (negb _ && _) eqn:Hm; [|rewrite orb_false_r; done]. rewrite orb_true_r. cbn [length].
    apply andb_true_iff in Hm as [Hm _]. unfold partitionReplaces in Hm. destruct (oConsumed o); [done|]. lia. }
  split; split; cbn [ordered begun e].
  - split; [|done]. intros y Hy Hl. cbn [orDirectory]. intros Heq. apply (Hlimits y Hy Hl). rewrite Heq. left.
  - etrans; [exact Hcount|]. case_goal; lia.
  - intros x [->|Hx]%elem_of_cons Hne; [|destruct (Hrec x Hx Hne) as (c0 & a & wd & ? & ->); exists c0, a, wd; by rewrite Hnorm].
    exists c, allowed, window. split; [done|]. cbn [orDirectory orReplaces] in *. unfold partitionReplaces in Hne. rewrite Hnorm, <-Hrecd.
    destruct (negb (oConsumed o) && String.eqb directory (oRecorded o)) eqn:Hm; [|done]. apply andb_true_iff in Hm as [_ Hm].
    by apply String.eqb_eq in Hm.
  - unfold afterOrder. cbn [oDomains oAll oNew oWork]. intros d Hd Hn Hall Hnew. apply andb_true_iff in Hall as [Hall Hsome]. breflect.
    destruct Hsome as [id ->]. destruct (Hadopted id eq_refl) as [-> Had].
    assert (Hnew' : Identifier c ∉ oNew o ∧ id ≠ Identifier c).
    { split; [intros ?; apply Hnew; apply elem_of_app; by left|]. intros ->. apply Hnew, elem_of_app. right. left. }
    destruct Hnew' as [Hold Hid]. destruct (Had Hid) as [Hk Hset].
    destruct (Hcov d Hd Hn Hall Hold) as (i & Hi & Hcase). exists i. split; [done|]. rewrite Hwork in Hcase.
    cbn in Hcase |- *. rewrite elem_of_app in Hcase. destruct Hcase as [[?|?]|?]; [right; by apply Hset|by left|].
    right. by eapply keeps_settled.
  - unfold afterOrder. cbn [oWork]. destruct Hwork' as [->|[-> _]]; [done|]. cbn. by apply NoDup_cons.
  - unfold afterOrder. cbn [oWork]. intros x Hx Hl. assert (Hold : x ∈ ordered es → orDirectory x ∉ directory :: work.*1) by (intros; by apply Hlimits).
    apply elem_of_cons in Hx as [->|Hx].
    + cbn [orOutcome orDirectory] in *. destruct Hwork' as [->|[_ Hne]]; done.
    + specialize (Hold Hx). destruct Hwork' as [->|[-> _]]; [|done]. set_solver.
  - unfold afterOrder. cbn [oRecorded]. by rewrite Hnorm.
  - exact Hcount.
Qed.

Lemma retire_directory now c m : smDirectory (retireCertificate now c m) = smDirectory m.
Proof. unfold retireCertificate. by case_goal. Qed.

Lemma choice_later w w' e es p members members' :
  rnNow w ≤ rnNow w' → begun (e :: es) = begun es → (∀ d, d ∈ blocked es → d ∈ blocked (e :: es)) →
  (∀ d, d ∈ members → d ∈ members') → choice_ok w es p members → choice_ok w' (e :: es) p members'.
Proof.
  intros Hnow Hb Hbl Hm (allowed & window & Hbegun & Hs). exists allowed, window. rewrite Hb. split; [done|].
  by eapply spared_later.
Qed.

(** A step that does not order anything, and leaves the renewal where it is. *)
Lemma state_ok_quiet w w' e es :
  rnState w' = rnState w → rnNow w ≤ rnNow w' → smDirectory (rnManager w') = smDirectory (rnManager w) →
  (∀ old, renewing (rnState w) = Some old → keeps old (rnManager w) (rnManager w')) →
  begun (e :: es) = begun es → blocked (e :: es) = blocked es → ordered (e :: es) = ordered es → state_ok w es → state_ok w' (e :: es).
Proof.
  intros Hst Hnow Hdir Hk Hb Hbl Ho. unfold state_ok. rewrite Hst, Ho.
  assert (Hlater : ∀ p ms, choice_ok w es p ms → choice_ok w' (e :: es) p ms).
  { intros p ms. apply choice_later; [done..| |done]. by rewrite Hbl. }
  destruct (rnState w) as [| | | |p window ds|p ds|p ds todo kept|p ds taken|p taken o|]; try done.
  - intros (? & allowed & ? & Hs). split; [done|]. exists allowed. rewrite Hb. split; [done|]. eapply spared_later; [done| |done|done]. by rewrite Hbl.
  - intros [? ?]. auto.
  - intros [? ?]. auto.
  - intros [? ?]. auto.
  - intros [? ?]. split; [auto|]. eapply orders_ok_quiet; [done| |done|done]. by apply Hk.
Qed.

Lemma renew_step_ok w e w' es :
  log_ok (rnManager w) es → state_ok w es → renew_step w e w' → log_ok (rnManager w') (e :: es) ∧ state_ok w' (e :: es).
Proof.
  intros Hlog Hst Hstep.
  assert (Hquiet : ∀ m e', smDirectory m = smDirectory (rnManager w) → begun (e' :: es) = begun es → ordered (e' :: es) = ordered es → log_ok m (e' :: es)).
  { intros m e' ???. by apply (log_ok_quiet (rnManager w)). }
  destruct Hstep as [m q i now Hnow Hpl Hdir Hk| |certs Hs _|_ _|n Hs|c todo n Hs _ _|c todo n Hs _ _|ari p Hs|
    p allowed window held choice Hs Hal Hwin Hch|preflight p window domains q un Hs Hpre|p domains Hs _|p domains service n taken i Hs _ _|
    preflight p domains d todo kept Hs _|preflight p domains d todo kept Hs _|p domains kept Hs|ari_id p domains taken Hs|
    p taken o dir work Hs Hwork|p taken o dir part parts work Hs Hwork _|resource p taken o dir part parts work m c Hs Hwork Had|
    resource p taken o dir part parts work m Hs Hwork Had|p taken o dir part parts work Hs Hwork _|
    preflight e p taken o dir part parts work q limit Hs Hwork _ _|p taken o Hs Hwork];
    try (split; [by apply Hquiet|]); try done.
  - apply (state_ok_quiet w); done.
  - apply (state_ok_quiet w); try done. intros old _. by apply keeps_same.
  - split; [|done]. apply Hquiet; [by apply retire_directory|done..].
  - unfold state_ok. cbn. by case_goal.
  - cbn [rnManager goto_renew]. split.
    + split; cbn; [done|lia|by intros x ?%elem_of_nil].
    + unfold state_ok. cbn [goto_renew rnState]. destruct choice as [| |domains]; [done..|]. split; [done|]. exists allowed. split; [done|].
      destruct (chooseMembers_spec _ _ _ _ _ _ _ Hch domains eq_refl) as [_ Hsp]. exact Hsp.
  - unfold state_ok in Hst |- *. rewrite Hs in Hst. destruct Hst as (Ho & allowed & Hb & Hsp). cbn [rnState rnNow].
    destruct (afterProbe _ _ _ _ _) as [rest|] eqn:Hafter; [|done]. destruct (afterProbe_spec _ _ _ _ _ _ Hafter) as [_ Hrest].
    split; [done|]. exists allowed, window. split; [done|]. intros d Hd. cbn [blocked rnNow]. destruct (Hsp d Hd) as [Hin|[Hin Hle]].
    + destruct (Hrest d Hin) as [?|[??]]; [by left|right]. split; [|done]. apply elem_of_app. by left.
    + right. split; [apply elem_of_app; by right|done].
  - unfold state_ok in Hst |- *. rewrite Hs in Hst. destruct Hst as [? Hc]. split; [done|]. by eapply choice_later.
  - unfold state_ok in Hst |- *. rewrite Hs in Hst. destruct Hst as [? Hc]. split; [done|]. by eapply choice_later.
  - unfold state_ok in Hst |- *. rewrite Hs in Hst. destruct Hst as [? Hc]. split; [done|]. by eapply choice_later.
  - unfold state_ok in Hst |- *. rewrite Hs in Hst. destruct Hst as [? Hc]. split; [done|]. by eapply choice_later.
  - unfold state_ok in Hst |- *. rewrite Hs in Hst. destruct Hst as [? Hc]. split; [done|].
    eapply choice_later; [done..| |exact Hc]. intros d Hd. apply elem_of_app. by left.
  - unfold state_ok in Hst |- *. rewrite Hs in Hst. destruct Hst as [Ho Hc]. cbn [goto_renew rnState]. split.
    + eapply choice_later; [done..| |exact Hc]. intros d Hd. cbn. by rewrite sort_strings_perm.
    + by apply planRenewal_ok.
  - unfold state_ok in Hst |- *. rewrite Hs in Hst. destruct Hst as [Hc [Hcov Hdirs Hl Hr Hm]]. cbn [goto_renew rnState]. split.
    + by eapply choice_later.
    + rewrite Hwork in *. cbn in Hdirs, Hl. apply NoDup_cons in Hdirs as [_ Hdirs]. split; cbn; try done. intros x Hx Hlim. specialize (Hl x Hx Hlim). set_solver.
  - unfold state_ok in Hst |- *. rewrite Hs in Hst. destruct Hst as [Hc [Hcov Hdirs Hl Hr Hm]]. cbn [goto_renew rnState]. split.
    + by eapply choice_later.
    + rewrite Hwork in *. split; cbn; try done.
      * intros d _ _ [_ Hf]%andb_true_iff. done.
      * rewrite andb_false_r, orb_false_r. done.
  - unfold state_ok in Hst. rewrite Hs in Hst. destruct Hst as [Hc Hok]. destruct Hc as (allowed & window & Hb & Hsp).
    destruct (adopt_constants _ _ _ _ _ _ Had) as [_ Hdir].
    destruct (order_ok_step (rnManager w) m es (pCert p) allowed window o dir part parts work ((dir, parts) :: work) (OoIssued true)
      (Some (Identifier c)) Hlog Hb Hok Hwork Hdir) as [H1 H2]; [by right| |].
    + intros id [= <-]. split; [done|]. intros Hne. split; [by eapply adopt_keeps|]. intros i Hi.
      destruct (adopt_maps _ _ _ _ _ _ _ Had Hi) as (? & ? & ?). exists (Identifier c). done.
    + split; [done|]. unfold state_ok. cbn [rnState]. split; [|done]. exists allowed, window. done.
  - unfold state_ok in Hst. rewrite Hs in Hst. destruct Hst as [Hc Hok]. destruct Hc as (allowed & window & Hb & Hsp).
    destruct (adopt_constants _ _ _ _ _ _ Had) as [_ Hdir].
    destruct (order_ok_step (rnManager w) m es (pCert p) allowed window o dir part parts work ((dir, parts) :: work) (OoIssued false)
      None Hlog Hb Hok Hwork Hdir) as [H1 H2]; [by right|done|].
    split; [done|]. unfold state_ok. cbn [rnState]. split; [|done]. exists allowed, window. done.
  - unfold state_ok in Hst. rewrite Hs in Hst. destruct Hst as [Hc Hok]. destruct Hc as (allowed & window & Hb & Hsp).
    destruct (order_ok_step (rnManager w) (rnManager w) es (pCert p) allowed window o dir part parts work ((dir, parts) :: work) OoRefused
      None Hlog Hb Hok Hwork eq_refl) as [H1 H2]; [by right|done|].
    split; [done|]. unfold state_ok. cbn [goto_renew rnState]. split; [|done]. exists allowed, window. done.
  - unfold state_ok in Hst. rewrite Hs in Hst. destruct Hst as [Hc Hok]. destruct Hc as (allowed & window & Hb & Hsp).
    destruct (order_ok_step (rnManager w) (rnManager w) es (pCert p) allowed window o dir part parts work
      match limit with Some _ => work | None => (dir, parts) :: work end match limit with Some _ => OoLimited | None => OoRefused end
      None Hlog Hb Hok Hwork eq_refl) as [H1 H2]; [destruct limit; auto|done|].
    split; [done|]. unfold state_ok. cbn [rnState rnManager]. split; [|by destruct limit]. exists allowed, window. done.
  - split; [|done]. apply Hquiet; [|done..]. cbn. unfold finishRenewal. by case_goal.
Qed.

Lemma renew_run_ok w es : renew_run w es → log_ok (rnManager w) es ∧ state_ok w es.
Proof.
  induction 1 as [w Hs|w es e w' _ [Hl Hst] Hstep]; [|by eapply renew_step_ok].
  split; [|unfold state_ok; by rewrite Hs]. split; cbn; [done|lia|by intros x ?%elem_of_nil].
Qed.

(** ** What the renewer guarantees *)

Lemma adopt_serves resource ds directory m m' c d :
  adoptCertificateAt sha256_hex resource ds directory m = (m', Some c) →
  is_Some (certCovering m d) → is_Some (certCovering m' d).
Proof.
  intros Had. assert (Hid : Identifier c ≠ "").
  { unfold adoptCertificateAt in Had. destruct resource as [[nb na]|]; [|done]. by injection Had as <- <-. }
  pose proof (adopt_keeps _ _ _ _ _ _ "" Had Hid) as Hkeep. rewrite !certIDCovering_served. intros (id & Hcov & Hne & Hcert).
  assert (Hset : ∀ i, domainToCert m !! i = Some id → ∃ id', domainToCert m' !! i = Some id' ∧ id' ≠ "" ∧ is_Some (certificates m' !! id')).
  { intros i Hi. destruct (Hkeep i id Hi Hne Hne Hcert) as (id' & ? & _ & ? & ?). eauto. }
  unfold certIDCovering in Hcov |- *. destruct (domainToCert m !! d) as [x|] eqn:Hd.
  { subst x. destruct (Hset d Hd) as (id' & -> & ? & ?). eauto. }
  destruct (domainToCert m' !! d) as [y|] eqn:Hd'.
  - exists y. destruct (decide (d ∈ ds)) as [Hin|Hout].
    + destruct (adopt_maps _ _ _ _ _ _ _ Had Hin) as (Hd2 & ? & ?). rewrite Hd' in Hd2. by injection Hd2 as ->.
    + unfold adoptCertificateAt in Had. destruct resource as [[nb na]|]; [|done]. injection Had as <- <-.
      cbn in Hd'. rewrite map_lookup_imap in Hd'. cbn in Hd'. rewrite foldl_insert_lookup, bool_decide_false, Hd in Hd' by done. done.
  - destruct (wildcardParent d) as [parent|]; [|cbn in Hcov; congruence].
    destruct (domainToCert m !! parent) as [x|] eqn:Hp; cbn in Hcov; [|congruence]. subst x.
    destruct (Hset parent Hp) as (id' & -> & ? & ?). cbn. eauto.
Qed.

Lemma same_served m m' d :
  domainToCert m' = domainToCert m → certificates m' = certificates m → certCovering m' d = certCovering m d.
Proof. unfold certCovering, certIDCovering. by intros -> ->. Qed.

Lemma begun_origin w es c allowed window :
  renew_run w es → begun es = Some (c, allowed, window) →
  ∃ m, begunUnder es = Some m ∧ allowed = renewableDomains m c ∧ window = compactionWindowFor m allowed.
Proof.
  intros Hrun. revert c allowed window. induction Hrun as [|w es e w' _ IH Hstep]; [done|]. intros c allowed window.
  destruct e; cbn [begun begunUnder]; try apply IH. intros [= -> -> ->]. inversion Hstep; subst; eauto.
Qed.

(** C11: renewing does not take the names it is to renew off the air.  Whatever
    else is going on, a step of the renewer after which a name is without a
    certificate is one of two: it dropped an expired or superseded certificate
    none of whose names are to be renewed, or it replaced a certificate all of
    whose orders succeeded, and the name, by the manager as it was when this
    renewal began, was not one to be renewed, or was held back in the renewal
    with the end of the certificate at most one or, where it covers a host of a
    deploy, two weeks away. *)
Theorem renewal_keeps_names w es e w' d :
  renew_run w es → renew_step w e w' → e ≠ ReElsewhere → normalizeDomainName d = d →
  is_Some (certCovering (rnManager w) d) → certCovering (rnManager w') d = None →
  (∃ c todo n, rnState w = RnScan (c :: todo) n ∧ renewableDomains (rnManager w) c = [] ∧
     (NotAfter c ≤ rnNow w ∨ certStillServes (rnManager w) c = false)) ∨
  (∃ p taken o m, rnState w = RnOrder p taken o ∧ oAll o = true ∧ oWork o = [] ∧ begunUnder es = Some m ∧
     let allowed := renewableDomains m (pCert p) in
     begun es = Some (pCert p, allowed, compactionWindowFor m allowed) ∧ d ∉ oDomains o ∧
     (d ∉ allowed ∨ d ∈ blocked es ∧ time_sub (NotAfter (pCert p)) (rnNow w) ≤ compactionWindowFor m allowed)).
Proof.
  intros Hrun Hstep Hmine Hn Hbefore Hafter. destruct (renew_run_ok _ _ Hrun) as [_ Hst].
  destruct Hstep; cbn [rnManager goto_renew] in Hafter; try done;
    try (rewrite Hafter in Hbefore; by destruct Hbefore).
  - left. exists c, todo, n. split; [done|]. split; [done|]. unfold retireCertificate in Hafter.
    destruct (certStillServes (rnManager w) c) eqn:Hserves; [|by right]. cbn [andb] in Hafter.
    destruct (Z.ltb_spec (rnNow w) (NotAfter c)) as [|Hle]; [rewrite Hafter in Hbefore; by destruct Hbefore|by left].
  - match goal with Had : adoptCertificateAt _ _ _ _ _ = _ |- _ => apply (adopt_serves _ _ _ _ _ _ d) in Had; [|done] end.
    rewrite Hafter in *. match goal with Hs : is_Some None |- _ => by destruct Hs end.
  - match goal with Had : adoptCertificateAt _ _ _ _ _ = _ |- _ => unfold adoptCertificateAt in Had; destruct resource as [[nb na]|]; [done|]; injection Had as <- end.
    rewrite Hafter in Hbefore. by destruct Hbefore.
  - right. match goal with H1 : rnState w = _, H2 : oWork _ = _ |- _ => rename H1 into Hs, H2 into Hwork end.
    unfold state_ok in Hst. rewrite Hs in Hst. destruct Hst as [(allowed & window & Hb & Hsp) [Hcov _ _ _ _]].
    destruct (begun_origin _ _ _ _ _ Hrun Hb) as (m & Hm & -> & ->). exists p, taken, o, m.
    unfold finishRenewal in Hafter. destruct (oAll o && _) eqn:Hgone; [|rewrite Hafter in Hbefore; by destruct Hbefore].
    apply andb_true_iff in Hgone as [Hall Hnew]. rewrite negb_true_iff, str_contains_false in Hnew.
    split; [done|split; [done|split; [done|split; [done|]]]]. cbv zeta. split; [done|].
    assert (Hout : d ∉ oDomains o).
    { intros Hin. destruct (Hcov d Hin Hn Hall Hnew) as (i & Hi & [Hi'|(id & Hid & Hne & Hnil & Hcert)]).
      - rewrite Hwork in Hi'. by apply elem_of_nil in Hi'.
      - pose proof (removed_served _ _ _ _ _ Hi Hid Hne Hnil Hcert Hbefore) as Hserved. rewrite Hafter in Hserved. by destruct Hserved. }
    split; [done|]. destruct (decide (d ∈ renewableDomains m (pCert p))) as [Hin|]; [right|by left].
    by destruct (Hsp d Hin) as [?|?].
Qed.

(** How a renewal orders.  However partitions are refused, limited or fail
    to be adopted, the marker that says which certificate is replaced goes to no
    other directory than the one that issued it, and is accepted at most once;
    and nothing more is ordered at a directory whose account is rate limited. *)
Theorem renewal_orders w es :
  renew_run w es →
  (length (List.filter marks (ordered es)) ≤ 1)%nat ∧ respects_limits (ordered es) ∧
  ∀ x, x ∈ ordered es → orReplaces x ≠ "" →
    ∃ c allowed window, begun es = Some (c, allowed, window) ∧ orDirectory x = normalizeDirectory (rnManager w) (Directory c).
Proof. intros Hrun. destruct (renew_run_ok _ _ Hrun) as [[? ? ?] _]. done. Qed.

(** The fallback is on time.  Without word from the server, a certificate
    is due only when two thirds of its lifetime are over, and at the latest the
    jitter of six hours after: a certificate that lives longer than eighteen
    hours is due before it expires. *)
Theorem renewal_fallback_window now c notBefore :
  Certificate c = Some notBefore → 0 ≤ NotAfter c - notBefore ≤ int64_max →
  (shouldRenew now None c = true → 2 * (NotAfter c - notBefore) ≤ 3 * (now - notBefore)) ∧
  (2 * (NotAfter c - notBefore) + 3 * renewalJitterMax ≤ 3 * (now - notBefore) → shouldRenew now None c = true) ∧
  (3 * renewalJitterMax < NotAfter c - notBefore → ∃ due, due < NotAfter c ∧ shouldRenew due None c = true).
Proof.
  intros Hleaf Hlife. unfold shouldRenew. rewrite Hleaf.
  assert (Hjitter : 0 ≤ certJitter (Identifier c) < renewalJitterMax) by (by apply Z.mod_pos_bound).
  rewrite time_sub_exact by (unfold in_int64, int64_max, int64_min in *; lia).
  rewrite wrap64_id by (unfold in_int64, int64_max, int64_min in *; lia).
  set (life := NotAfter c - notBefore) in *. rewrite Z.quot_opp_l, Z.quot_div_nonneg by lia.
  pose proof (Z.div_mod life 3 ltac:(lia)) as Hdiv. pose proof (Z.mod_pos_bound life 3 ltac:(lia)) as Hmod.
  assert (Hlate : 2 * life + 3 * renewalJitterMax ≤ 3 * (now - notBefore) → NotAfter c + - (life `div` 3) + certJitter (Identifier c) ≤ now)
    by (unfold life in *; lia).
  split; [rewrite Z.leb_le; unfold life in *; lia|]. split; [by rewrite Z.leb_le|].
  intros Hlong. exists (NotAfter c + - (life `div` 3) + certJitter (Identifier c)). split; [lia|by apply Z.leb_le].
Qed.

(** ** The renewer and the issuer *)

Variable MaxConcurrentOrders : nat.

(** The renewer, seen by the issuer: as its renewal number [r]. *)
Definition renewal_seen (r : nat) (iw : World) (w : Renewer) : Prop :=
  wIssuer iw = rnIssuer w ∧ default [] (wRenewals iw !! r) ≡ₚ renewal_holds (rnState w).

(** The renewer is a renewal of the issuer's transition system.  Every step
    of it is, for the issuer, nothing, taking names out of the queue while it
    holds none, or giving back some that it took; so that what is proved of the
    issuer with its renewals holds with this one, and whenever the renewer is
    between two certificates it has given back all it took. *)
Theorem renewer_refines_issuer r w e w' iw :
  renew_step w e w' → e ≠ ReElsewhere → renewal_seen r iw w →
  ∃ iw' ies,
    issuer_run sha256_hex retry_after_in BatchSize MaxConcurrentOrders iw ies iw' ∧ renewal_seen r iw' w' ∧
    wTasks iw' = wTasks iw ∧ wRunner iw' = wRunner iw ∧ (∀ s, s ≠ r → wRenewals iw' !! s = wRenewals iw !! s) ∧
    (∀ todo n, rnState w' = RnScan todo n → default [] (wRenewals iw' !! r) = []).
Proof.
  intros Hstep Hmine [Hi Hh].
  assert (Hscan : ∀ iw', renewal_seen r iw' w' → ∀ todo n, rnState w' = RnScan todo n → default [] (wRenewals iw' !! r) = []).
  { intros iw' [_ Hp] todo n Hs. rewrite Hs in Hp. cbn in Hp. by apply Permutation_nil_r in Hp. }
  assert (Hstay : rnIssuer w' = rnIssuer w → renewal_holds (rnState w') ≡ₚ renewal_holds (rnState w) →
    ∃ iw' ies, issuer_run sha256_hex retry_after_in BatchSize MaxConcurrentOrders iw ies iw' ∧ renewal_seen r iw' w' ∧
    wTasks iw' = wTasks iw ∧ wRunner iw' = wRunner iw ∧ (∀ s, s ≠ r → wRenewals iw' !! s = wRenewals iw !! s) ∧
    (∀ todo n, rnState w' = RnScan todo n → default [] (wRenewals iw' !! r) = [])).
  { intros Hi' Hh'. assert (Hseen : renewal_seen r iw w') by (split; [congruence|by rewrite Hh, Hh']).
    exists iw, []. split; [constructor|]. split; [done|]. do 3 (split; [done|]). by apply Hscan. }
  assert (Hgive : ∀ gone, rnIssuer w' = releaseDomains gone (rnIssuer w) → renewal_holds (rnState w) ≡ₚ gone ++ renewal_holds (rnState w') →
    ∃ iw' ies, issuer_run sha256_hex retry_after_in BatchSize MaxConcurrentOrders iw ies iw' ∧ renewal_seen r iw' w' ∧
    wTasks iw' = wTasks iw ∧ wRunner iw' = wRunner iw ∧ (∀ s, s ≠ r → wRenewals iw' !! s = wRenewals iw !! s) ∧
    (∀ todo n, rnState w' = RnScan todo n → default [] (wRenewals iw' !! r) = [])).
  { intros gone Hi' Hh'. destruct (wRenewals iw !! r) as [taken|] eqn:Hr; cbn in Hh.
    - set (iw' := with_wake (wWake iw) (wNotifies iw + 1)
        (with_renewals (<[r := renewal_holds (rnState w')]> (wRenewals iw)) (with_issuer (releaseDomains gone (wIssuer iw)) iw))).
      assert (Hseen : renewal_seen r iw' w') by (split; cbn; [congruence|by rewrite lookup_insert_eq]).
      exists iw', [EvOther]. split; [|split; [done|split; [done|split; [done|split]]]].
      + eapply ir_step; [|constructor]. eapply is_return; [exact Hr|]. by rewrite Hh, Hh'.
      + intros s Hs. cbn. by rewrite lookup_insert_ne.
      + by apply Hscan.
    - symmetry in Hh. apply Permutation_nil_r in Hh. rewrite Hh in Hh'. apply Permutation_nil_l in Hh'. symmetry in Hh'. apply app_eq_nil in Hh' as [-> Hh'].
      apply Hstay; [|by rewrite Hh, Hh']. rewrite Hi'. unfold releaseDomains. cbn. destruct (rnIssuer w) as [qu qd infl ids]. cbn. f_equal. set_solver. }
  destruct Hstep as [| | | | | | | | | | |p domains service n taken i Hs _ Htake| |preflight p domains d todo kept Hs _| | | | | | | | |p taken o Hs _]; try done;
    try (apply Hstay; [done|]; cbn [rnState goto_renew];
         repeat match goal with
                | H : rnState w = _ |- _ => rewrite H
                | H : _ ∨ _ |- _ => destruct H as [->|(? & ? & ? & ->)]
                | |- context [if ?b then _ else _] => destruct b
                | |- context [match ?x with _ => _ end] => destruct x
                end; done).
  - rewrite Hs in Hh. cbn in Hh. apply Permutation_nil_r in Hh.
    set (iw1 := with_manager (rnManager w) (with_held (rnQuarantine w) iw)).
    set (iw' := with_renewals (<[r := taken]> (wRenewals iw1)) (with_issuer i iw1)).
    assert (Hseen : renewal_seen r iw' (mkRenewer (RnTake p domains taken []) (rnManager w) (rnQuarantine w) i (rnNow w) (rnStopped w))).
    { split; cbn; [done|]. by rewrite lookup_insert_eq, app_nil_r. }
    exists iw', [EvOther; EvOther]. split; [|split; [done|split; [done|split; [done|split]]]].
    + eapply ir_step; [apply is_env|]. eapply ir_step; [|constructor]. eapply (is_take _ _ _ _ _ (rnNow w)); [exact Hh|]. cbn. by rewrite Hi.
    + intros s Hne. cbn. by rewrite lookup_insert_ne.
    + by apply Hscan.
  - apply Hstay; [done|]. match goal with H : rnState w = _ |- _ => rewrite H end. cbn. rewrite (app_assoc todo), (Permutation_app_comm (todo ++ kept)). done.
  - apply (Hgive [d]); [done|]. rewrite Hs. done.
  - apply (Hgive taken); [done|]. rewrite Hs. cbn. by rewrite app_nil_r.
Qed.

End renewal.

(** ** Examples *)

Module RenewalExamples.

Definition sha (s : string) : string := s.
Definition no_retry (_ : string) : option Z := None.

Definition pair_cert : ManagedCert := mkCert "san:pair" ["a.example"; "b.example"] (60 * day) (Some 0) "prod".

(** [b.example] is not listed any more; its certificate still serves it. *)
Definition manager : SANCertManager :=
  mkManager "prod" false (Some "http") (mkPlanner (mkSelection "" ∅) None ∅ (mkGrouper 2 true false)) true
    {["san:pair" := pair_cert]} {["a.example" := "san:pair"; "b.example" := "san:pair"]} ∅ ∅ {["a.example" := "web"]} ∅ ∅ ∅ None.

Definition start : Renewer := mkRenewer RnIdle manager ∅ (mkIssuer [] ∅ ∅ ∅) (45 * day) false.

Abbreviation run := (@renew_run insertion_SortFunc sha no_retry None).
Abbreviation step := (@renew_step insertion_SortFunc sha no_retry None).

(** Add a step to the run at hand, and evaluate where it leads. *)
Ltac ev := first [reflexivity | vm_compute; reflexivity | vm_compute; discriminate | vm_compute; congruence].
Ltac renew c :=
  match goal with
  | R : run ?w ?es |- _ =>
      let S := fresh in
      eassert (S : step w _ _) by c; apply (rr_step _ _ _ _ _ _ _ R) in S; clear R;
      match type of S with
      | run ?w' ?es' =>
          let w2 := eval vm_compute in w' in let es2 := eval vm_compute in es' in
          change (run w2 es2) in S
      end
  end.

(** The renewal of a certificate one of whose names is not listed any more: the
    name that is gets a successor, and then the old certificate goes. *)
Lemma ready_to_finish :
  ∃ w es p o, run w es ∧ rnState w = RnOrder p [] o ∧ oWork o = [] ∧ oAll o = true ∧
    is_Some (certCovering (rnManager w) "b.example") ∧
    certCovering (finishRenewal (pCert p) o (rnManager w)) "b.example" = None ∧
    HasValidCertificate (rnManager w) (rnNow w) "b.example" = true ∧
    HasValidCertificate (finishRenewal (pCert p) o (rnManager w)) (rnNow w) "a.example" = true ∧
    ordered es = [mkOrdered ["a.example"] "ari" "prod" (OoIssued true)].
Proof.
  assert (R : run start []) by (apply rr_new; reflexivity).
  renew ltac:(eapply (re_tick _ _ _ _ [pair_cert]); ev).
  renew ltac:(eapply re_look; ev).
  renew ltac:(eapply (re_due _ _ _ _ (Some true)); ev).
  renew ltac:(eapply re_choose; ev).
  renew ltac:(eapply (re_probe _ _ _ _ None); ev).
  renew ltac:(eapply re_full; ev).
  renew ltac:(eapply (re_plan _ _ _ _ (Some "ari")); ev).
  renew ltac:(eapply (re_issued _ _ _ _ (Some (45 * day, 135 * day))); ev).
  renew ltac:(eapply re_directory; ev).
  match goal with R : run ?w ?es |- _ => exists w, es end. eexists _, _.
  split; [eassumption|]. split; [reflexivity|]. split; [reflexivity|]. split; [reflexivity|].
  split; [vm_compute; by eexists|]. vm_compute. repeat split.
Qed.

(** What the last bad poll of a source took from the list loses its working
    certificate when the rest of it is renewed, although retiring the whole
    certificate would have kept it until it expires. *)
Lemma renewal_keeps_names_witness :
  ∃ w es w', run w es ∧ step w ReOther w' ∧ certCovering (rnManager w') "b.example" = None ∧
    ((∃ c todo n, rnState w = RnScan (c :: todo) n ∧ renewableDomains (rnManager w) c = [] ∧
       (NotAfter c ≤ rnNow w ∨ certStillServes (rnManager w) c = false)) ∨
     (∃ p taken o m, rnState w = RnOrder p taken o ∧ oAll o = true ∧ oWork o = [] ∧ begunUnder es = Some m ∧
       let allowed := renewableDomains m (pCert p) in
       begun es = Some (pCert p, allowed, compactionWindowFor m allowed) ∧ "b.example" ∉ oDomains o ∧
       ("b.example" ∉ allowed ∨
        "b.example" ∈ blocked es ∧ time_sub (NotAfter (pCert p)) (rnNow w) ≤ compactionWindowFor m allowed))).
Proof.
  destruct ready_to_finish as (w & es & p & o & Hrun & Hst & Hwork & Hall & Hb & Hgone & _).
  pose proof (@re_finish insertion_SortFunc sha no_retry None w p [] o Hst Hwork) as Hstep.
  exists w, es. eexists. split; [exact Hrun|]. split; [exact Hstep|]. split; [exact Hgone|].
  refine (@renewal_keeps_names insertion_SortFunc sha no_retry None w es _ _ "b.example" Hrun Hstep _ _ Hb Hgone); [discriminate|reflexivity].
Defined.

Lemma renewal_orders_witness :
  ∃ w es, run w es ∧ ordered es = [mkOrdered ["a.example"] "ari" "prod" (OoIssued true)] ∧
    (length (List.filter marks (ordered es)) ≤ 1)%nat ∧ respects_limits (ordered es).
Proof.
  destruct ready_to_finish as (w & es & p & o & Hrun & Hst & Hwork & Hall & Hb & Hgone & _ & _ & Hord).
  destruct (@renewal_orders insertion_SortFunc sha no_retry None w es Hrun) as (Hm & Hl & _).
  exists w, es. split; [exact Hrun|]. split; [exact Hord|]. split; [exact Hm|exact Hl].
Defined.

Lemma renewal_fallback_window_witness :
  Certificate pair_cert = Some 0 ∧ ∃ due, due < 60 * day ∧ shouldRenew due None pair_cert = true.
Proof.
  assert (Hleaf : Certificate pair_cert = Some 0) by reflexivity. split; [exact Hleaf|].
  refine (proj2 (proj2 (renewal_fallback_window 0 pair_cert 0 Hleaf _)) _); vm_compute; repeat split; discriminate.
Defined.

(** A queued name that joins the renewal of its service's certificate. *)
Definition queueing : Renewer :=
  mkRenewer (RnTopUp (mkPass pair_cert [] 0) ["a.example"]) (SetDynamicDomains "web" ["a.example"; "c.example"] manager) ∅
    (mkIssuer [mkRequest "c.example" "web" false] {["c.example"]} ∅ ∅) (45 * day) false.

Definition five (_ : string) : Z := 5.
Definition issuer_world : World :=
  mkWorld (rnIssuer queueing) (rnManager queueing) ∅ RWait ∅ ∅ true 0 false.

Lemma renewer_refines_issuer_witness :
  ∃ w' iw' ies, @renew_step insertion_SortFunc sha no_retry (Some five) queueing ReOther w' ∧
    @issuer_run insertion_SortFunc sha no_retry (Some five) 3 issuer_world ies iw' ∧ renewal_seen 0 iw' w' ∧
    renewal_holds (rnState w') = ["c.example"].
Proof.
  assert (Hstep : @renew_step insertion_SortFunc sha no_retry (Some five) queueing ReOther
    (mkRenewer (RnTake (mkPass pair_cert [] 0) ["a.example"] ["c.example"] []) (rnManager queueing) ∅
       (mkIssuer [] ∅ {["c.example"]} ∅) (45 * day) false)).
  { refine (@re_take insertion_SortFunc sha no_retry (Some five) queueing _ _ "web" 4 ["c.example"] (mkIssuer [] ∅ {["c.example"]} ∅) _ _ _);
    [reflexivity|vm_compute; reflexivity|vm_compute; reflexivity]. }
  assert (Hseen : renewal_seen 0 issuer_world queueing) by (split; reflexivity).
  destruct (@renewer_refines_issuer insertion_SortFunc sha no_retry (Some five) 3 0 queueing ReOther _ issuer_world Hstep ltac:(discriminate) Hseen)
    as (iw' & ies & Hrun & Hseen' & _).
  eexists _, iw', ies. split; [exact Hstep|]. split; [exact Hrun|]. split; [exact Hseen'|]. reflexivity.
Defined.

End RenewalExamples.
