(* ===== verification/DynamicRedirects.v ===== *)
(** * Redirects an application reports: [internal/server/dynamic_redirects.go]
    and [dynamic_redirect_state.go]

    A service may name a source that lists, host by host, where its requests
    are to be redirected.  One poller per service fetches the list, the manager
    compiles it and hands it to the service.

    Pollers run beside each other, beside deployments and removals, and may be
    replaced while they are in the middle of a poll.  Here the manager, the
    pollers and the services are a store of objects; every stretch of code
    between two acquisitions of the manager's lock is one step, and a run is any
    interleaving of them, restarts of the process included.  The request of a
    poll and its answer are one step: what the poller keeps does not change in
    between.  Gauges and log lines are left out. *)
From S2P Require Import Prelude GoStrings GoFloat GoRegexp GoURL Http Redirects SvcOptions.

Definition maxRedirectListBody : Z := 10 * 1024 * 1024.

Record serviceRedirectState := mkRedirectState {
  rsHosts : gmap string redirectHostConfig;
  rsETag : string;
  rsFetchedAt : Z;
  rsSource : string }.

(** The state a source that was never polled starts with. *)
Definition newRedirectState : serviceRedirectState := mkRedirectState ∅ "" 0 "".

(** ** Reading a payload *)

Inductive RedirectError := ListTooLarge | ListMalformed | ListInvalid (e : PayloadError) | NoValidHosts.

(** [parseRedirectPayload], given the size of the body and what
    [encoding/json] decodes it to. *)
Definition readRedirects (size : Z) (payload : option (option (gmap string redirectHostConfig)))
  : result RedirectError (gmap string redirectHostConfig) :=
  if maxRedirectListBody <? size then Err ListTooLarge
  else match payload with
       | None => Err ListMalformed
       | Some hosts => match parseRedirectPayload hosts with Ok hosts => Ok hosts | Err e => Err (ListInvalid e) end
       end.

Section manager.
Context `{!Regexp}.

(** What a service is given for a list: nothing, when no entry is valid. *)
Definition installed (hosts : gmap string redirectHostConfig) : option dynamicRedirectMap :=
  let compiled := compileRedirectMap hosts in
  if Nat.eqb (counts (Some compiled)).1 0 then None else Some compiled.

(** What [applyPayload] makes of a body before it takes the lock; [svc]: the
    object the router has for the service. *)
Inductive Judgement :=
| Refused (e : RedirectError)
| Ignored
| Fetched (svc : nat) (hosts : gmap string redirectHostConfig).

Definition judgePayload (svc : option nat) (size : Z) (payload : option (option (gmap string redirectHostConfig))) : Judgement :=
  match readRedirects size payload with
  | Err e => Refused e
  | Ok hosts =>
      match svc with
      | None => Ignored
      | Some svc =>
          if negb (bool_decide (hosts = ∅)) && Nat.eqb (counts (Some (compileRedirectMap hosts))).1 0
          then Refused NoValidHosts else Fetched svc hosts
      end
  end.

(** ** The objects *)

(** Where a poller's loop is. *)
Inductive PollPhase :=
| NotStarted
| Waiting
| Answered (previous : string) (size : Z) (payload : option (option (gmap string redirectHostConfig)))
| Judged (svc : nat) (hosts : gmap string redirectHostConfig)
| Applied (svc : nat) (hosts : gmap string redirectHostConfig)
| Saving
| Exited.

Record sourcePoller := mkSourcePoller {
  spService : string;
  spSource : string;
  spInterval : Z;
  spETag : string;
  spStopped : bool;
  spPhase : PollPhase }.

Record DynamicRedirectManager := mkRedirectManager {
  rmSources : gmap string nat;
  rmHostOf : gmap string string;
  rmStates : gmap string serviceRedirectState;
  rmCounts : gmap string (nat * nat) }.

(** A [ServiceDeployed] or [ServiceRemoved] under way, by what it does next. *)
Inductive Managing :=
| Deploying (service : string) (so : SvcOptions)
| Removing (service : string)
| Replacing (service : string) (new : nat) (previous : option nat) (persisted : gmap string redirectHostConfig)
| Evicting (service : string) (source : option nat)
| Removed (service : string).

Definition managed (o : Managing) : string :=
  match o with Deploying s _ | Removing s | Replacing s _ _ _ | Evicting s _ | Removed s => s end.

(** [rdServices] are the router's services, [rdMaps] the maps they redirect by,
    [rdFile] what the state file holds. *)
Record Redirector := mkRedirector {
  rdManager : DynamicRedirectManager;
  rdPollers : gmap nat sourcePoller;
  rdServices : gmap string nat;
  rdMaps : gmap nat (option dynamicRedirectMap);
  rdTasks : gmap nat Managing;
  rdFile : gmap string serviceRedirectState;
  rdNext : nat }.

Definition set_manager (m : DynamicRedirectManager) (w : Redirector) : Redirector :=
  mkRedirector m (rdPollers w) (rdServices w) (rdMaps w) (rdTasks w) (rdFile w) (rdNext w).
Definition set_pollers (p : gmap nat sourcePoller) (w : Redirector) : Redirector :=
  mkRedirector (rdManager w) p (rdServices w) (rdMaps w) (rdTasks w) (rdFile w) (rdNext w).
Definition set_maps (m : gmap nat (option dynamicRedirectMap)) (w : Redirector) : Redirector :=
  mkRedirector (rdManager w) (rdPollers w) (rdServices w) m (rdTasks w) (rdFile w) (rdNext w).
Definition set_tasks (t : gmap nat Managing) (w : Redirector) : Redirector :=
  mkRedirector (rdManager w) (rdPollers w) (rdServices w) (rdMaps w) t (rdFile w) (rdNext w).
Definition set_file (f : gmap string serviceRedirectState) (w : Redirector) : Redirector :=
  mkRedirector (rdManager w) (rdPollers w) (rdServices w) (rdMaps w) (rdTasks w) f (rdNext w).

(** The map a service object redirects by. *)
Definition serving (w : Redirector) (svc : nat) : option dynamicRedirectMap := default None (rdMaps w !! svc).

Definition with_phase (ph : PollPhase) (p : sourcePoller) : sourcePoller :=
  mkSourcePoller (spService p) (spSource p) (spInterval p) (spETag p) (spStopped p) ph.
Definition with_etag (etag : string) (p : sourcePoller) : sourcePoller :=
  mkSourcePoller (spService p) (spSource p) (spInterval p) etag (spStopped p) (spPhase p).
Definition cancelled (p : sourcePoller) : sourcePoller :=
  mkSourcePoller (spService p) (spSource p) (spInterval p) (spETag p) true (spPhase p).

Definition put_poller (i : nat) (p : sourcePoller) (w : Redirector) : Redirector := set_pollers (<[i := p]> (rdPollers w)) w.

(** [sourcePoller.Stop] has returned: no poll is under way. *)
Definition stopped (w : Redirector) (i : option nat) : bool :=
  match i ≫= (rdPollers w !!.) with
  | Some p => match spPhase p with NotStarted | Exited => true | _ => false end
  | None => true
  end.

Definition cancel (i : option nat) (w : Redirector) : Redirector :=
  match i with Some i => set_pollers (alter cancelled i (rdPollers w)) w | None => w end.

(** [saveState], which the disk may refuse. *)
Definition saveRedirects (ok : bool) (w : Redirector) : Redirector := if ok then set_file (rmStates (rdManager w)) w else w.

(** ** A poller *)

(** What a request of the source is answered with. *)
Inductive PollAnswer :=
| NoBody                                     (** failed, not modified, or an unexpected status *)
| Body (etag : string) (size : Z) (payload : option (option (gmap string redirectHostConfig))).

(** The poll hears back: the new ETag is stored before the body is read. *)
Definition hear (i : nat) (answer : PollAnswer) (w : Redirector) : option Redirector :=
  p ← rdPollers w !! i;
  match spPhase p, answer with
  | Waiting, NoBody => Some w
  | Waiting, Body etag size payload =>
      Some (put_poller i (with_phase (Answered (spETag p) size payload) (with_etag etag p)) w)
  | _, _ => None
  end.

(** The critical section of [applyPayload]. *)
Definition commitRedirects (now : Z) (i : nat) (p : sourcePoller) (svc : nat) (hosts : gmap string redirectHostConfig) (w : Redirector)
  : Redirector :=
  let m := rdManager w in
  let s := spService p in
  if bool_decide (rmSources m !! s = Some i) then
    put_poller i (with_phase (Applied svc hosts) p)
      (set_manager (mkRedirectManager (rmSources m) (rmHostOf m)
                      (<[s := mkRedirectState hosts (spETag p) now (spSource p)]> (rmStates m))
                      (<[s := counts (Some (compileRedirectMap hosts))]> (rmCounts m))) w)
  else put_poller i (with_phase Waiting p) w.

(** The next stretch of a poll; [ok]: the disk takes the file. *)
Definition poll_next (now : Z) (i : nat) (ok : bool) (w : Redirector) : option Redirector :=
  p ← rdPollers w !! i;
  match spPhase p with
  | Answered previous size payload =>
      Some match judgePayload (rdServices w !! spService p) size payload with
           | Refused _ => put_poller i (with_phase Waiting (with_etag previous p)) w
           | Ignored => put_poller i (with_phase Waiting p) w
           | Fetched svc hosts => put_poller i (with_phase (Judged svc hosts) p) w
           end
  | Judged svc hosts => Some (commitRedirects now i p svc hosts w)
  | Applied svc hosts => Some (put_poller i (with_phase Saving p) (set_maps (<[svc := installed hosts]> (rdMaps w)) w))
  | Saving => Some (put_poller i (with_phase Waiting p) (saveRedirects ok w))
  | NotStarted | Waiting | Exited => None
  end.

(** A cancelled poller leaves its loop. *)
Definition leave (i : nat) (w : Redirector) : option Redirector :=
  p ← rdPollers w !! i;
  match spPhase p with
  | Waiting => if spStopped p then Some (put_poller i (with_phase Exited p) w) else None
  | _ => None
  end.

(** ** Deploying and removing *)

(** The critical section of [ServiceRemoved]: what is left to do. *)
Definition removeRedirects (s : string) (w : Redirector) : Redirector * option Managing :=
  let m := rdManager w in
  (set_manager (mkRedirectManager (delete s (rmSources m)) (delete s (rmHostOf m)) (delete s (rmStates m)) (delete s (rmCounts m))) w,
   if negb (bool_decide (is_Some (rmSources m !! s))) && negb (bool_decide (is_Some (rmStates m !! s))) then None
   else Some (Evicting s (rmSources m !! s))).

(** The state a deployed service starts from: its list, and its ETag if the
    source is the one that issued it. *)
Definition adoptState (source : string) (st : serviceRedirectState) : serviceRedirectState :=
  if String.eqb (rsSource st) source then st else mkRedirectState (rsHosts st) "" (rsFetchedAt st) source.

(** The critical section of [ServiceDeployed] for a service with a source; the
    new poller seeded with the ETag of the state. *)
Definition replacePoller (s : string) (so : SvcOptions) (w : Redirector) : Redirector * option Managing :=
  let m := rdManager w in
  let source := soRedirectsSource so in
  let host := if HasConfiguredHosts so then default "" (head (soHosts so)) else "" in
  let st := adoptState source (default newRedirectState (rmStates m !! s)) in
  let interval := if soRedirectsInterval so =? 0 then DefaultRedirectsInterval else soRedirectsInterval so in
  let i := rdNext w in
  (mkRedirector
     (mkRedirectManager (<[s := i]> (rmSources m)) (<[s := host]> (rmHostOf m)) (<[s := st]> (rmStates m)) (rmCounts m))
     (<[i := mkSourcePoller s source interval (rsETag st) false NotStarted]> (rdPollers w))
     (rdServices w) (rdMaps w) (rdTasks w) (rdFile w) (S i),
   Some (Replacing s i (rmSources m !! s) (rsHosts st))).

(** [installMap] *)
Definition installMap (s : string) (hosts : gmap string redirectHostConfig) (w : Redirector) : Redirector :=
  match rdServices w !! s with
  | None => w
  | Some svc =>
      let compiled := compileRedirectMap hosts in
      let m := rdManager w in
      set_manager (mkRedirectManager (rmSources m) (rmHostOf m) (rmStates m) (<[s := counts (Some compiled)]> (rmCounts m)))
        (set_maps (<[svc := Some compiled]> (rdMaps w)) w)
  end.

(** The end of [ServiceDeployed]: the persisted list is served, the poller
    started. *)
Definition startPoller (s : string) (new : nat) (persisted : gmap string redirectHostConfig) (w : Redirector) : Redirector :=
  let w := if bool_decide (persisted = ∅) then w else installMap s persisted w in
  set_pollers (alter (with_phase Waiting) new (rdPollers w)) w.

(** The end of [ServiceRemoved]. *)
Definition evictMap (s : string) (w : Redirector) : Redirector :=
  match rdServices w !! s with Some svc => set_maps (<[svc := None]> (rdMaps w)) w | None => w end.

(** The next stretch of a deployment or a removal, and what is left of it.
    [None]: it waits for the poller it has cancelled. *)
Definition manage_next (ok : bool) (o : Managing) (w : Redirector) : option (Redirector * option Managing) :=
  match o with
  | Deploying s so =>
      Some (let '(w, o) := if String.eqb (soRedirectsSource so) "" then removeRedirects s w else replacePoller s so w in
            (match o with Some (Replacing _ _ i _) | Some (Evicting _ i) => cancel i w | _ => w end, o))
  | Removing s =>
      Some (let '(w, o) := removeRedirects s w in (match o with Some (Evicting _ i) => cancel i w | _ => w end, o))
  | Replacing s new previous persisted => if stopped w previous then Some (startPoller s new persisted w, None) else None
  | Evicting s source => if stopped w source then Some (evictMap s w, Some (Removed s)) else None
  | Removed s => Some (saveRedirects ok w, None)
  end.

Definition put_task (j : nat) (o : option Managing) (w : Redirector) : Redirector :=
  set_tasks (match o with Some o => <[j := o]> (rdTasks w) | None => delete j (rdTasks w) end) w.

Definition manage (j : nat) (ok : bool) (w : Redirector) : option Redirector :=
  o ← rdTasks w !! j; '(w, o) ← manage_next ok o w; Some (put_task j o w).

(** ** The router's part *)

(** A service the router did not have is a new object, without a map. *)
Definition haveService (s : string) (w : Redirector) : Redirector :=
  match rdServices w !! s with
  | Some _ => w
  | None => mkRedirector (rdManager w) (rdPollers w) (<[s := rdNext w]> (rdServices w)) (rdMaps w) (rdTasks w) (rdFile w) (S (rdNext w))
  end.

(** [Service.initialize]: without a source there is no map. *)
Definition dropMap (s : string) (so : SvcOptions) (w : Redirector) : Redirector :=
  if String.eqb (soRedirectsSource so) "" then evictMap s w else w.

Definition begin (o : Managing) (w : Redirector) : Redirector :=
  mkRedirector (rdManager w) (rdPollers w) (rdServices w) (rdMaps w) (<[rdNext w := o]> (rdTasks w)) (rdFile w) (S (rdNext w)).

Definition deployService (s : string) (so : SvcOptions) (w : Redirector) : Redirector :=
  begin (Deploying s so) (dropMap s so (haveService s w)).

Definition forgetService (s : string) (w : Redirector) : option Redirector :=
  _ ← rdServices w !! s;
  Some (begin (Removing s)
          (mkRedirector (rdManager w) (rdPollers w) (delete s (rdServices w)) (rdMaps w) (rdTasks w) (rdFile w) (rdNext w))).

(** A new process: the router restores its services, the manager loads the
    state file ([loadState]), nothing is under way. *)
Definition restart (services : list string) (w : Redirector) : Redirector :=
  foldl (λ w s, haveService s w) (mkRedirector (mkRedirectManager ∅ ∅ (rdFile w) ∅) ∅ ∅ ∅ ∅ (rdFile w) (rdNext w)) services.

(** ** Runs *)

Inductive RedirectEvent :=
| EvDeploy (s : string) (so : SvcOptions)
| EvRemove (s : string)
| EvManage (j : nat) (ok : bool)
| EvHear (i : nat) (answer : PollAnswer)
| EvPoll (now : Z) (i : nat) (ok : bool)
| EvLeave (i : nat)
| EvRestart (services : list string).

Definition redirect_step (w : Redirector) (e : RedirectEvent) : option Redirector :=
  match e with
  | EvDeploy s so => Some (deployService s so w)
  | EvRemove s => forgetService s w
  | EvManage j ok => manage j ok w
  | EvHear i answer => hear i answer w
  | EvPoll now i ok => poll_next now i ok w
  | EvLeave i => leave i w
  | EvRestart services => Some (restart services w)
  end.

Definition redirect_run (w : Redirector) (es : list RedirectEvent) : option Redirector :=
  foldl (λ w e, w ← w; redirect_step w e) (Some w) es.

(** ** What every run keeps *)

(** One command about a service at a time. *)
Definition serial (w : Redirector) (e : RedirectEvent) : Prop :=
  match e with
  | EvDeploy s _ | EvRemove s => ∀ j o, rdTasks w !! j = Some o → managed o ≠ s
  | _ => True
  end.

(** What a source listed when it handed out an ETag. *)
Variable source_of : string → string → gmap string redirectHostConfig.

(** What a service was told by a source that it was deployed with. *)
Variable heard : string → string → gmap string redirectHostConfig → Prop.

(** [heard] has every answer that can be read, and a source does not change its
    list without changing its ETag. *)
Definition truthful (w : Redirector) (e : RedirectEvent) : Prop :=
  match e with
  | EvHear i (Body etag size payload) =>
      ∀ p hosts, rdPollers w !! i = Some p → readRedirects size payload = Ok hosts →
        heard (spService p) (spSource p) hosts ∧ (etag ≠ "" → hosts = source_of (spSource p) etag)
  | _ => True
  end.

(** A list for a service is empty, or has a valid entry and was heard for it. *)
Definition listed (s : string) (hosts : gmap string redirectHostConfig) : Prop :=
  hosts = ∅ ∨ is_Some (installed hosts) ∧ ∃ source, heard s source hosts.

(** A stored list is one of its service, and the one its ETag stands for. *)
Definition state_ok (s : string) (st : serviceRedirectState) : Prop :=
  listed s (rsHosts st) ∧
  (rsETag st ≠ "" → rsHosts st = source_of (rsSource st) (rsETag st)).

Inductive redirect_reachable : Redirector → Prop :=
| rr_new file next :
    (∀ s st, file !! s = Some st → state_ok s st) →
    redirect_reachable (mkRedirector (mkRedirectManager ∅ ∅ file ∅) ∅ ∅ ∅ ∅ file next)
| rr_step w e w' :
    redirect_reachable w → serial w e → truthful w e → redirect_step w e = Some w' → redirect_reachable w'.

(** Is the poller in the middle of a poll? *)
Definition polling (p : sourcePoller) : Prop := spPhase p ≠ NotStarted ∧ spPhase p ≠ Exited.

(** The object the poll has in hand. *)
Definition in_hand (p : sourcePoller) : option nat :=
  match spPhase p with Judged svc _ | Applied svc _ => Some svc | _ => None end.

(** The object serves the list, or is about to be given it. *)
Definition serves (w : Redirector) (p : sourcePoller) (svc : nat) (hosts : gmap string redirectHostConfig) : Prop :=
  match spPhase p with
  | Applied svc' hosts' => svc' = svc ∧ hosts' = hosts
  | _ => serving w svc = installed hosts
  end.

(** What a poll in the middle has read. *)
Definition read_ok (p : sourcePoller) : Prop :=
  match spPhase p with
  | Answered _ size payload => ∀ hosts, readRedirects size payload = Ok hosts →
      heard (spService p) (spSource p) hosts ∧ (spETag p ≠ "" → hosts = source_of (spSource p) (spETag p))
  | Judged _ hosts => listed (spService p) hosts ∧ (spETag p ≠ "" → hosts = source_of (spSource p) (spETag p))
  | _ => True
  end.

(** What the current poller of a service knows of the list in use: it is the one
    its ETag stands for, or the ETag it goes back to. *)
Definition tagged (p : sourcePoller) (st : serviceRedirectState) : Prop :=
  spSource p = rsSource st ∧
  match spPhase p with
  | Answered previous _ _ => previous ≠ "" → rsHosts st = source_of (spSource p) previous
  | Judged _ _ => True
  | _ => spETag p ≠ "" → rsHosts st = source_of (spSource p) (spETag p)
  end.

Definition awaits (o : Managing) (i : nat) : Prop :=
  match o with Replacing _ _ (Some i') _ | Evicting _ (Some i') => i' = i | _ => False end.

(** The service redirects by the list of its source, or by none. *)
Definition settled (w : Redirector) (s : string) (svc : nat) : Prop :=
  match rmSources (rdManager w) !! s with
  | None => serving w svc = None
  | Some i => ∃ p st, rdPollers w !! i = Some p ∧ rmStates (rdManager w) !! s = Some st ∧ serves w p svc (rsHosts st)
  end.

Definition task_ok (w : Redirector) (o : Managing) : Prop :=
  let m := rdManager w in
  match o with
  | Deploying s so => ∃ svc, rdServices w !! s = Some svc ∧
      if String.eqb (soRedirectsSource so) "" then rmSources m !! s = None → serving w svc = None else settled w s svc
  | Removing s => rdServices w !! s = None
  | Replacing s new previous persisted => ∃ svc p st, rdServices w !! s = Some svc ∧ rmSources m !! s = Some new ∧
      rdPollers w !! new = Some p ∧ spPhase p = NotStarted ∧ rmStates m !! s = Some st ∧ rsHosts st = persisted ∧
      match previous with
      | None => serving w svc = None
      | Some i => ∃ q, rdPollers w !! i = Some q ∧ spService q = s ∧ serves w q svc persisted
      end
  | Evicting s source => rmSources m !! s = None ∧
      match source with Some i => ∃ q, rdPollers w !! i = Some q ∧ spService q = s | None => True end
  | Removed s => rmSources m !! s = None ∧ ∀ svc, rdServices w !! s = Some svc → serving w svc = None
  end.

(** What holds of the objects that have to do with one service. *)
Record slot_ok (w : Redirector) (s : string) : Prop := {
  sl_one j k o o' : rdTasks w !! j = Some o → rdTasks w !! k = Some o' → managed o = s → managed o' = s → j = k;
  sl_task j o : rdTasks w !! j = Some o → managed o = s → task_ok w o;
  sl_source i : rmSources (rdManager w) !! s = Some i → ∃ p, rdPollers w !! i = Some p ∧ spService p = s;
  sl_polling i p : rdPollers w !! i = Some p → spService p = s → polling p →
    rmSources (rdManager w) !! s = Some i ∨ ∃ j o, rdTasks w !! j = Some o ∧ managed o = s ∧ awaits o i;
  sl_hand i p svc svc' : rdPollers w !! i = Some p → spService p = s → in_hand p = Some svc → rdServices w !! s = Some svc' → svc' = svc;
  sl_settled : (∀ j o, rdTasks w !! j = Some o → managed o ≠ s) →
    match rdServices w !! s with Some svc => settled w s svc | None => rmSources (rdManager w) !! s = None end;
  sl_state st : rmStates (rdManager w) !! s = Some st → state_ok s st;
  sl_tagged i p : rmSources (rdManager w) !! s = Some i → rdPollers w !! i = Some p → is_Some (rdServices w !! s) →
    ∃ st, rmStates (rdManager w) !! s = Some st ∧ tagged p st }.

Record store_ok (w : Redirector) : Prop := {
  st_pollers i p : rdPollers w !! i = Some p → (i < rdNext w)%nat;
  st_read i p : rdPollers w !! i = Some p → read_ok p;
  st_hands i p svc : rdPollers w !! i = Some p → in_hand p = Some svc →
    (svc < rdNext w)%nat ∧ ∀ s, rdServices w !! s = Some svc → s = spService p;
  st_services s svc : rdServices w !! s = Some svc → (svc < rdNext w)%nat;
  st_distinct s s' svc : rdServices w !! s = Some svc → rdServices w !! s' = Some svc → s = s';
  st_maps svc : is_Some (rdMaps w !! svc) → (svc < rdNext w)%nat;
  st_tasks j o : rdTasks w !! j = Some o → (j < rdNext w)%nat;
  st_file s st : rdFile w !! s = Some st → state_ok s st }.

Definition redirect_ok (w : Redirector) : Prop := store_ok w ∧ ∀ s, slot_ok w s.

(** The two stores differ in what belongs to one service only. *)
Record elsewhere (s : string) (w w' : Redirector) : Prop := {
  el_services s' : s' ≠ s → rdServices w' !! s' = rdServices w !! s';
  el_sources s' : s' ≠ s → rmSources (rdManager w') !! s' = rmSources (rdManager w) !! s';
  el_states s' : s' ≠ s → rmStates (rdManager w') !! s' = rmStates (rdManager w) !! s';
  el_pollers i p : spService p ≠ s → rdPollers w' !! i = Some p ↔ rdPollers w !! i = Some p;
  el_tasks j o : managed o ≠ s → rdTasks w' !! j = Some o ↔ rdTasks w !! j = Some o;
  el_serving s' svc : s' ≠ s → rdServices w !! s' = Some svc → serving w' svc = serving w svc }.

Lemma serves_same w w' p svc hosts : serving w' svc = serving w svc → serves w p svc hosts → serves w' p svc hosts.
Proof. unfold serves. intros ->. done. Qed.

Lemma settled_elsewhere s s' w w' svc :
  elsewhere s w w' → slot_ok w s' → s' ≠ s → rdServices w !! s' = Some svc → settled w s' svc → settled w' s' svc.
Proof.
  intros E O Hne Hs. unfold settled. rewrite (el_sources _ _ _ E s' Hne). pose proof (el_serving _ _ _ E s' svc Hne Hs) as Hsv.
  destruct (rmSources (rdManager w) !! s') as [i|] eqn:Hi; [|by rewrite Hsv]. intros (p & st & Hp & Hst & Hserves).
  destruct (sl_source _ _ O i Hi) as (p' & Hp' & Hps). rewrite Hp in Hp'. injection Hp' as <-.
  exists p, st. split; [apply (el_pollers _ _ _ E); [by rewrite Hps|done]|]. rewrite (el_states _ _ _ E s' Hne). split; [done|].
  by apply (serves_same w).
Qed.

Lemma task_elsewhere s w w' o : elsewhere s w w' → slot_ok w (managed o) → managed o ≠ s → task_ok w o → task_ok w' o.
Proof.
  intros E O Hne. destruct o as [s' so|s'|s' new previous persisted|s' source|s']; cbn [managed task_ok] in *;
    rewrite ?(el_services _ _ _ E s' Hne), ?(el_sources _ _ _ E s' Hne), ?(el_states _ _ _ E s' Hne).
  - intros (svc & Hsvc & Hd). exists svc. split; [done|]. revert Hd. case_goal; [|by apply (settled_elsewhere s)].
    by rewrite (el_serving _ _ _ E s' svc).
  - done.
  - intros (svc & p & st & Hsvc & Hsrc & Hp & Hph & Hst & Hh & Hprev). exists svc, p, st. split; [done|]. split; [done|].
    destruct (sl_source _ _ O new Hsrc) as (p' & Hp' & Hps). rewrite Hp in Hp'. injection Hp' as <-.
    split; [apply (el_pollers _ _ _ E); [by rewrite Hps|done]|]. split; [done|]. split; [done|]. split; [done|].
    destruct previous as [i|]; [|by rewrite (el_serving _ _ _ E s' svc)]. destruct Hprev as (q & Hq & Hqs & Hserves). exists q.
    split; [apply (el_pollers _ _ _ E); [by rewrite Hqs|done]|]. split; [done|]. apply (serves_same w); [by apply (el_serving _ _ _ E s')|done].
  - intros [Hsrc Hq]. split; [done|]. destruct source as [i|]; [|done]. destruct Hq as (q & Hq & Hqs). exists q.
    split; [apply (el_pollers _ _ _ E); [by rewrite Hqs|done]|done].
  - intros [Hsrc Hsv]. split; [done|]. intros svc Hsvc. rewrite (el_serving _ _ _ E s' svc) by done. by apply Hsv.
Qed.

Lemma slot_elsewhere s s' w w' : elsewhere s w w' → s' ≠ s → slot_ok w s' → slot_ok w' s'.
Proof.
  intros E Hne O.
  assert (Ht : ∀ j o, managed o = s' → rdTasks w' !! j = Some o ↔ rdTasks w !! j = Some o) by (intros j o <-; by apply (el_tasks _ _ _ E)).
  assert (Hp : ∀ i p, spService p = s' → rdPollers w' !! i = Some p ↔ rdPollers w !! i = Some p) by (intros i p <-; by apply (el_pollers _ _ _ E)).
  assert (Hback : ∀ i p, rmSources (rdManager w) !! s' = Some i → rdPollers w' !! i = Some p → rdPollers w !! i = Some p).
  { intros i p Hi Hi'. destruct (sl_source _ _ O i Hi) as (q & Hq & Hqs). apply Hp in Hq as Hq'; [|done]. congruence. }
  pose proof (el_services _ _ _ E s' Hne) as Hs. pose proof (el_sources _ _ _ E s' Hne) as Hsrc. pose proof (el_states _ _ _ E s' Hne) as Hst.
  split; rewrite ?Hs, ?Hsrc, ?Hst.
  - intros j k o o' Hj Hk Ho Ho'. apply Ht in Hj, Hk; [|done..]. by apply (sl_one _ _ O j k o o').
  - intros j o Hj Ho. apply (task_elsewhere s w); [done|by rewrite Ho|by rewrite Ho|]. apply Ht in Hj; [|done]. by apply (sl_task _ _ O j).
  - intros i Hi. destruct (sl_source _ _ O i Hi) as (p & Hi' & Hps). exists p. by rewrite Hp.
  - intros i p Hi Hps Hpoll. apply Hp in Hi; [|done]. destruct (sl_polling _ _ O i p Hi Hps Hpoll) as [?|(j & o & Hj & Ho & Ha)]; [by left|].
    right. exists j, o. by rewrite Ht.
  - intros i p svc svc' Hi Hps. apply Hp in Hi; [|done]. by apply (sl_hand _ _ O i).
  - intros Hno. assert (Hno' : ∀ j o, rdTasks w !! j = Some o → managed o ≠ s').
    { intros j o Hj Ho. apply Ht in Hj; [|done]. by apply (Hno j o). }
    pose proof (sl_settled _ _ O Hno') as Hset. destruct (rdServices w !! s') as [svc|] eqn:Hsvc; [|done]. by apply (settled_elsewhere s s' w).
  - apply (sl_state _ _ O).
  - intros i p Hi Hi' Hsome. apply Hback in Hi'; [|done]. by apply (sl_tagged _ _ O i).
Qed.

Lemma redirect_ok_step s w w' :
  elsewhere s w w' → redirect_ok w → store_ok w' → slot_ok w' s → redirect_ok w'.
Proof.
  intros E [_ Hslots] Hst Hs. split; [done|]. intros s'. destruct (decide (s' = s)) as [->|Hne]; [done|]. by apply (slot_elsewhere s _ w).
Qed.

(** ** A poller moves *)

Lemma lookup_poller i p' w k : rdPollers (put_poller i p' w) !! k = if decide (i = k) then Some p' else rdPollers w !! k.
Proof. cbn. apply lookup_insert. Qed.

Lemma put_elsewhere i p p' w :
  rdPollers w !! i = Some p → spService p' = spService p → elsewhere (spService p) w (put_poller i p' w).
Proof.
  intros Hi Hs. split; [done..| |done|done]. intros k q Hq. rewrite lookup_poller. destruct (decide (i = k)) as [<-|]; [|done].
  rewrite Hi. split; intros [= <-]; congruence.
Qed.

Section put.
Variables (w : Redirector) (i : nat) (p p' : sourcePoller).
Hypothesis Hi : rdPollers w !! i = Some p.
Hypothesis Hservice : spService p' = spService p.
Hypothesis Hfresh : spPhase p = NotStarted → spPhase p' = NotStarted.
Hypothesis Hserves : ∀ svc hosts, serves w p svc hosts → serves w p' svc hosts.

Lemma put_found k q : rdPollers w !! k = Some q →
  ∃ q', rdPollers (put_poller i p' w) !! k = Some q' ∧ spService q' = spService q ∧
    (spPhase q = NotStarted → spPhase q' = NotStarted) ∧ ∀ svc hosts, serves w q svc hosts → serves (put_poller i p' w) q' svc hosts.
Proof.
  intros Hk. rewrite lookup_poller. destruct (decide (i = k)) as [<-|]; [|by exists q].
  rewrite Hi in Hk. injection Hk as <-. by exists p'.
Qed.

Lemma settled_put s svc : settled w s svc → settled (put_poller i p' w) s svc.
Proof.
  unfold settled. change (rdManager (put_poller i p' w)) with (rdManager w). destruct (rmSources (rdManager w) !! s) as [k|]; [|done].
  intros (q & st & Hq & Hst & Hsv). destruct (put_found k q Hq) as (q' & Hq' & _ & _ & Hk). exists q', st. eauto.
Qed.

Lemma task_put o : task_ok w o → task_ok (put_poller i p' w) o.
Proof.
  destruct o as [s so|s|s new previous persisted|s source|s]; cbn [task_ok].
  - intros (svc & Hsvc & Hd). exists svc. split; [done|]. revert Hd. case_goal; [done|]. apply settled_put.
  - done.
  - intros (svc & q & st & Hsvc & Hsrc & Hq & Hph & Hst & Hh & Hprev). destruct (put_found new q Hq) as (q' & Hq' & _ & Hn & _).
    exists svc, q', st. repeat (split; [by auto|]). destruct previous as [k|]; [|done].
    destruct Hprev as (r & Hr & Hrs & Hsv). destruct (put_found k r Hr) as (r' & Hr' & Hrs' & _ & Hk). exists r'. split; [done|].
    split; [congruence|by apply Hk].
  - intros [Hsrc Hq]. split; [done|]. destruct source as [k|]; [|done]. destruct Hq as (q & Hq & Hqs).
    destruct (put_found k q Hq) as (q' & Hq' & Hqs' & _). exists q'. split; [done|congruence].
  - done.
Qed.

(** A poller may change its phase and its ETag as long as it does not begin a
    poll, take up another object, or come to know something wrong of its list. *)
Lemma put_ok :
  (polling p' → polling p) →
  (∀ svc, in_hand p' = Some svc → in_hand p = Some svc ∨ rdServices w !! spService p = Some svc) →
  read_ok p' →
  (∀ st, rmSources (rdManager w) !! spService p = Some i → is_Some (rdServices w !! spService p) → tagged p st → tagged p' st) →
  redirect_ok w → redirect_ok (put_poller i p' w).
Proof.
  intros Hpoll Hhand Hread Htag Hok. pose proof Hok as [S Hslots]. pose proof (Hslots (spService p)) as O.
  apply (redirect_ok_step (spService p) w); [by apply put_elsewhere|done| |].
  - split; try apply S.
    + intros k q. rewrite lookup_poller. destruct (decide (i = k)) as [<-|]; [intros _; by apply (st_pollers _ S i p)|apply S].
    + intros k q. rewrite lookup_poller. destruct (decide (i = k)) as [<-|]; [by intros [= <-]|apply S].
    + intros k q svc. rewrite lookup_poller. destruct (decide (i = k)) as [<-|]; [|apply S]. intros [= <-] [Hh|Hh]%Hhand.
      * rewrite Hservice. by apply (st_hands _ S i).
      * split; [by apply (st_services _ S _ _ Hh)|]. intros s Hs. rewrite Hservice. by apply (st_distinct _ S _ _ svc).
  - split; try apply O.
    + intros j o Hj Ho. apply task_put. by apply (sl_task _ _ O j).
    + intros k Hk. destruct (sl_source _ _ O k Hk) as (q & Hq & Hqs). destruct (put_found k q Hq) as (q' & Hq' & Hqs' & _). exists q'. by rewrite Hqs'.
    + intros k q. rewrite lookup_poller. destruct (decide (i = k)) as [<-|]; [|apply O]. intros [= <-] _ Hp. apply (sl_polling _ _ O i p); auto.
    + intros k q svc svc'. rewrite lookup_poller. destruct (decide (i = k)) as [<-|]; [|apply O]. intros [= <-] _ [Hh|Hh]%Hhand Hs.
      * by apply (sl_hand _ _ O i p).
      * cbn in Hs. congruence.
    + intros Hno. pose proof (sl_settled _ _ O Hno) as Hset. change (rdServices (put_poller i p' w)) with (rdServices w).
      destruct (rdServices w !! spService p); [by apply settled_put|done].
    + intros k q Hk. rewrite lookup_poller. destruct (decide (i = k)) as [<-|]; [|by apply O]. intros [= <-] Hsome.
      destruct (sl_tagged _ _ O i p Hk Hi Hsome) as (st & Hst & Ht). exists st. eauto.
Qed.

End put.

Lemma hear_ok w i answer w' : redirect_ok w → truthful w (EvHear i answer) → hear i answer w = Some w' → redirect_ok w'.
Proof.
  intros Hok Htrue. unfold hear. destruct (rdPollers w !! i) as [p|] eqn:Hi; [|done]. cbn. destruct p as [s src iv etag stop ph].
  cbn in *. destruct ph; try done. destruct answer as [|etag' size payload]; intros [= <-]; [done|]. cbn in Htrue.
  eapply put_ok; try done. intros hosts Hread. exact (Htrue _ hosts Hi Hread).
Qed.

Lemma leave_ok w i w' : redirect_ok w → leave i w = Some w' → redirect_ok w'.
Proof.
  intros Hok. unfold leave. destruct (rdPollers w !! i) as [p|] eqn:Hi; [|done]. cbn. destruct p as [s src iv etag stop ph].
  cbn in *. destruct ph; try done. destruct stop; [|done]. intros [= <-]. eapply put_ok; done.
Qed.

Lemma cancel_ok w i : redirect_ok w → redirect_ok (cancel i w).
Proof.
  intros Hok. destruct i as [i|]; [|done]. cbn [cancel]. destruct (rdPollers w !! i) as [p|] eqn:Hi.
  - pose proof (st_read _ (proj1 Hok) i p Hi). assert (alter cancelled i (rdPollers w) = <[i := cancelled p]> (rdPollers w)) as ->.
    { apply map_eq. intros k. destruct (decide (i = k)) as [<-|]; [by rewrite lookup_alter_eq, lookup_insert_eq, Hi|].
      by rewrite lookup_alter_ne, lookup_insert_ne. }
    apply (put_ok w i p); destruct p; auto.
  - assert (alter cancelled i (rdPollers w) = rdPollers w) as ->.
    { apply map_eq. intros k. destruct (decide (i = k)) as [<-|]; [by rewrite lookup_alter_eq, Hi|]. by rewrite lookup_alter_ne. }
    by destruct w.
Qed.

Lemma save_ok ok w : redirect_ok w → redirect_ok (saveRedirects ok w).
Proof.
  intros [S O]. unfold saveRedirects. destruct ok; [|done]. split.
  - destruct S. split; try done. intros s st Hst. by apply (sl_state _ _ (O s)).
  - intros s. by destruct (O s); split.
Qed.

(** ** A poll goes on *)

Lemma judge_spec svc size payload :
  match judgePayload svc size payload with
  | Refused _ => True
  | Ignored => svc = None
  | Fetched v hosts => svc = Some v ∧ readRedirects size payload = Ok hosts ∧ (hosts = ∅ ∨ is_Some (installed hosts))
  end.
Proof.
  unfold judgePayload. destruct (readRedirects size payload) as [hosts|e]; [|done]. destruct svc as [v|]; [|done].
  destruct (decide (hosts = ∅)) as [->|Hne]; [rewrite bool_decide_true by done; cbn; auto|].
  rewrite bool_decide_false by done. destruct (Nat.eqb _ 0) eqn:Hn; cbn [negb andb]; [done|]. split; [done|]. split; [done|].
  right. unfold installed. by rewrite Hn.
Qed.

(** Who a poll in the middle belongs to. *)
Lemma polling_current w s i p :
  slot_ok w s → rdPollers w !! i = Some p → spService p = s → polling p →
  (∀ j o, rdTasks w !! j = Some o → managed o = s → ¬ awaits o i) → rmSources (rdManager w) !! s = Some i.
Proof.
  intros O Hi Hs Hp Hno. destruct (sl_polling _ _ O i p Hi Hs Hp) as [?|(j & o & Hj & Ho & Ha)]; [done|]. by destruct (Hno j o).
Qed.

(** Nobody but the one task of a service waits for its pollers. *)
Lemma no_other_awaits w s j o i :
  slot_ok w s → rdTasks w !! j = Some o → managed o = s → ¬ awaits o i →
  ∀ k o', rdTasks w !! k = Some o' → managed o' = s → ¬ awaits o' i.
Proof. intros O Hj Ho Hna k o' Hk Ho'. rewrite (sl_one _ _ O k j o' o Hk Hj Ho' Ho) in Hk. congruence. Qed.

Section poll.
Variables (w : Redirector) (i : nat) (s src etag : string) (iv : Z) (stop : bool).
Let pl ph := mkSourcePoller s src iv etag stop ph.

Lemma commit_ok now svc hosts :
  redirect_ok w → rdPollers w !! i = Some (pl (Judged svc hosts)) → redirect_ok (commitRedirects now i (pl (Judged svc hosts)) svc hosts w).
Proof.
  intros Hok Hi. unfold commitRedirects. cbn [spService]. pose proof Hok as [S Hslots]. pose proof (Hslots s) as O.
  pose proof (st_read _ S i _ Hi) as Hread. 
  destruct (decide (rmSources (rdManager w) !! s = Some i)) as [Hcur|Hcur]; [rewrite bool_decide_true by done|].
  2: { rewrite bool_decide_false by done. eapply put_ok; done. }
  assert (Hp : polling (pl (Judged svc hosts))) by done. destruct Hread as [Hvalid Htrue].
  apply (redirect_ok_step s w); [|done| |].
  - split; try done; cbn.
    + intros s' Hne. by rewrite lookup_insert_ne.
    + intros k q Hq. destruct (decide (i = k)) as [<-|]; [|by rewrite lookup_insert_ne]. rewrite lookup_insert_eq, Hi.
      split; intros [= <-]; cbn in Hq; congruence.
  - destruct S. split; try done; cbn.
    + intros k q. rewrite lookup_insert_Some. intros [[<- <-]|[_ Hk]]; [by eapply st_pollers0|by eapply st_pollers0].
    + intros k q. rewrite lookup_insert_Some. intros [[<- <-]|[_ Hk]]; [done|by eapply st_read0].
    + intros k q v. rewrite lookup_insert_Some. intros [[<- <-]|[_ Hk]]; [|by eapply st_hands0]. intros [= <-]. by apply (st_hands0 i _ svc Hi).
  - assert (Hset : ∀ svc', rdServices w !! s = Some svc' → svc' = svc) by (intros svc' Hs; by apply (sl_hand _ _ O i _ svc svc' Hi)).
    split; cbn; try apply O.
    + intros j o Hj Ho. pose proof (sl_task _ _ O j o Hj Ho) as Ht. destruct o as [s' so|s'|s' new previous persisted|s' source|s']; cbn in Ho, Ht |- *; subst s'.
      * destruct Ht as (v & Hv & Ht). exists v. split; [done|]. revert Ht. case_goal; [congruence|]. intros _. unfold settled. cbn. rewrite Hcur.
        eexists _, _. rewrite !lookup_insert_eq. split; [done|split; [done|]]. cbn. split; [|done]. symmetry. by apply Hset.
      * done.
      * destruct Ht as (v & q & st & _ & Hsrc & Hq & Hph & _). rewrite Hcur in Hsrc. injection Hsrc as <-. rewrite Hi in Hq. by injection Hq as <-.
      * destruct Ht. congruence.
      * destruct Ht. congruence.
    + intros k Hk. rewrite Hcur in Hk. injection Hk as <-. rewrite lookup_insert_eq. eauto.
    + intros k q. rewrite lookup_insert_Some. intros [[<- <-]|[_ Hk]]; [auto|by eapply sl_polling].
    + intros k q v v'. rewrite lookup_insert_Some. intros [[<- <-]|[_ Hk]]; [|by eapply sl_hand]. intros _ [= <-] Hs. by apply Hset.
    + intros Hno. pose proof (sl_settled _ _ O Hno) as Hold. destruct (rdServices w !! s) as [v|] eqn:Hs; [|done].
      unfold settled. cbn. rewrite Hcur. eexists _, _. rewrite !lookup_insert_eq. split; [done|split; [done|]]. cbn. split; [|done]. symmetry. by apply Hset.
    + intros st. rewrite lookup_insert_eq. intros [= <-]. by split.
    + intros k q. rewrite Hcur. intros [= <-]. rewrite lookup_insert_eq. intros [= <-] _. rewrite lookup_insert_eq. eexists. split; [done|]. by split.
Qed.

Lemma install_ok svc hosts :
  redirect_ok w → rdPollers w !! i = Some (pl (Applied svc hosts)) →
  redirect_ok (put_poller i (pl Saving) (set_maps (<[svc := installed hosts]> (rdMaps w)) w)).
Proof.
  intros Hok Hi. pose proof Hok as [S Hslots]. pose proof (Hslots s) as O. set (w' := put_poller _ _ _).
  assert (Hpl : ∀ k, rdPollers w' !! k = if decide (i = k) then Some (pl Saving) else rdPollers w !! k) by (intros k; unfold w'; by rewrite lookup_poller).
  assert (Hp : polling (pl (Applied svc hosts))) by done.
  destruct (st_hands _ S i _ svc Hi eq_refl) as [Hlt Hown].
  assert (Hserving : ∀ v, serving w' v = if decide (svc = v) then installed hosts else serving w v).
  { intros v. unfold serving, w'. cbn. rewrite lookup_insert. by case_decide. }
  assert (Hmine : ∀ v, rdServices w !! s = Some v → serving w' v = installed hosts).
  { intros v Hv. rewrite Hserving. pose proof (sl_hand _ _ O i _ svc v Hi eq_refl eq_refl Hv) as ->. by rewrite decide_True. }
  assert (Hall : ∀ k q v h, rdPollers w !! k = Some q → rdServices w !! s = Some v → serves w q v h → k = i → ∃ q', rdPollers w' !! k = Some q' ∧ spService q' = s ∧ serves w' q' v h).
  { intros k q v h Hk Hv Hsv ->. rewrite Hi in Hk. injection Hk as <-. exists (pl Saving). rewrite Hpl, decide_True by done.
    split; [done|]. split; [done|]. cbn in Hsv |- *. destruct Hsv as [_ <-]. by apply Hmine. }
  assert (Hsettled : ∀ v, rmSources (rdManager w) !! s = Some i → rdServices w !! s = Some v → settled w s v → settled w' s v).
  { intros v Hcur Hv. unfold settled. change (rdManager w') with (rdManager w). rewrite Hcur. intros (q & st & Hq & Hst & Hsv).
    destruct (Hall i q v _ Hq Hv Hsv eq_refl) as (q' & Hq' & _ & Hsv'). eauto. }
  apply (redirect_ok_step s w); [|done| |].
  - split; try done.
    + intros k q Hq. rewrite Hpl. destruct (decide (i = k)) as [<-|]; [|done]. rewrite Hi. split; intros [= <-]; cbn in Hq; congruence.
    + intros s' v Hne Hv. rewrite Hserving. rewrite decide_False; [done|]. intros <-. by apply Hne, Hown.
  - split; try apply S.
    + intros k q. rewrite Hpl. destruct (decide (i = k)) as [<-|]; [intros _; by apply (st_pollers _ S i _ Hi)|apply S].
    + intros k q. rewrite Hpl. destruct (decide (i = k)) as [<-|]; [by intros [= <-]|apply S].
    + intros k q v. rewrite Hpl. destruct (decide (i = k)) as [<-|]; [by intros [= <-]|apply S].
    + intros v. cbn. rewrite lookup_insert. case_decide as Hd; [by intros _; rewrite <-Hd|apply S].
  - assert (Hother : ∀ k, k ≠ i → rdPollers w' !! k = rdPollers w !! k) by (intros k Hk; unfold w'; by rewrite Hpl, decide_False).
    assert (Hsame : ∀ k q, rdPollers w !! k = Some q → ∃ q', rdPollers w' !! k = Some q' ∧ spService q' = spService q ∧ (spPhase q = NotStarted → q' = q)).
    { intros k q Hk. destruct (decide (k = i)) as [->|Hne]; [|exists q; by rewrite Hother]. rewrite Hi in Hk. injection Hk as <-.
      exists (pl Saving). by rewrite Hpl, decide_True. }
    split; try apply O.
    + intros j o Hj Ho. pose proof (sl_task _ _ O j o Hj Ho) as Ht. pose proof (no_other_awaits _ _ _ _ i O Hj Ho) as Hno.
      destruct o as [s' so|s'|s' new previous persisted|s' source|s']; cbn [managed] in Ho; subst s'.
      * specialize (Hno (λ x, x)). apply (polling_current w s i _ O Hi eq_refl Hp) in Hno as Hcur. destruct Ht as (v & Hv & Ht). exists v. split; [done|].
        revert Ht. case_goal; [change (rdManager w') with (rdManager w); congruence|]. by apply Hsettled.
      * done.
      * destruct Ht as (v & q & st & Hv & Hsrc & Hq & Hph & Hst & Hh & Hprev). destruct (Hsame new q Hq) as (q' & Hq' & _ & Hnew).
        rewrite (Hnew Hph) in Hq'. exists v, q, st. repeat (split; [done|]). destruct previous as [k|].
        -- destruct Hprev as (r & Hr & Hrs & Hsv). destruct (decide (k = i)) as [->|Hne].
           ++ apply (Hall i r v persisted Hr Hv Hsv eq_refl).
           ++ specialize (Hno Hne). apply (polling_current w s i _ O Hi eq_refl Hp) in Hno as Hcur. rewrite Hcur in Hsrc. injection Hsrc as <-.
              rewrite Hi in Hq. by injection Hq as <-.
        -- specialize (Hno (λ x, x)). apply (polling_current w s i _ O Hi eq_refl Hp) in Hno as Hcur. rewrite Hcur in Hsrc. injection Hsrc as <-.
           rewrite Hi in Hq. by injection Hq as <-.
      * destruct Ht as [Hsrc Hq]. split; [done|]. destruct source as [k|]; [|done]. destruct Hq as (q & Hq & Hqs).
        destruct (Hsame k q Hq) as (q' & Hq' & Hqs' & _). exists q'. split; [done|congruence].
      * specialize (Hno (λ x, x)). apply (polling_current w s i _ O Hi eq_refl Hp) in Hno as Hcur. destruct Ht. congruence.
    + intros k Hk. destruct (sl_source _ _ O k Hk) as (q & Hq & Hqs). destruct (Hsame k q Hq) as (q' & Hq' & Hqs' & _). exists q'. by rewrite Hqs'.
    + intros k q. rewrite Hpl. destruct (decide (i = k)) as [<-|]; [|apply O]. intros [= <-] _ _. by apply (sl_polling _ _ O i _ Hi).
    + intros k q v v'. rewrite Hpl. destruct (decide (i = k)) as [<-|]; [by intros [= <-]|apply O].
    + intros Hno. pose proof (sl_settled _ _ O Hno) as Hold. change (rdServices w') with (rdServices w). destruct (rdServices w !! s) as [v|] eqn:Hv; [|done].
      apply Hsettled; [|done|done]. apply (polling_current w s i _ O Hi eq_refl Hp). intros j o Hj Ho. by destruct (Hno j o).
    + intros k q Hk. rewrite Hpl. destruct (decide (i = k)) as [<-|]; [|by apply O]. intros [= <-] Hsome.
      destruct (sl_tagged _ _ O i _ Hk Hi Hsome) as (st & Hst & Ht). exists st. split; [done|exact Ht].
Qed.

End poll.

Lemma poll_next_ok now w i ok w' : redirect_ok w → poll_next now i ok w = Some w' → redirect_ok w'.
Proof.
  intros Hok. unfold poll_next. destruct (rdPollers w !! i) as [p|] eqn:Hi; [|done]. cbn [mbind option_bind].
  pose proof (st_read _ (proj1 Hok) i p Hi) as Hread. destruct p as [s src iv etag stop ph]. cbn [spPhase spService]. destruct ph; try done; intros [= <-].
  - pose proof (judge_spec (rdServices w !! s) size payload) as Hj. destruct (judgePayload _ _ _) as [e| |svc hosts].
    + eapply put_ok; done.
    + eapply put_ok; try done. cbn. rewrite Hj. by intros st _ [].
    + destruct Hj as (Hsvc & Hr & Hvalid). eapply put_ok; try done; cbn.
      * intros v [= <-]. by right.
      * cbn in Hread. destruct (Hread hosts Hr) as [Hheard Htag]. split; [|exact Htag].
        destruct Hvalid as [?|?]; [by left|right; split; [done|by exists src]].
      * intros st _ _ [Hsrc _]. done.
  - by apply commit_ok.
  - by apply install_ok.
  - apply save_ok with (ok := ok) in Hok. assert (Hi' : rdPollers (saveRedirects ok w) !! i = rdPollers w !! i) by by destruct ok.
    rewrite Hi in Hi'. eapply put_ok; try done.
Qed.

(** ** Deployments and removals go on *)

Lemma lookup_task j o w k : rdTasks (put_task j o w) !! k = if decide (j = k) then o else rdTasks w !! k.
Proof. destruct o; cbn; [apply lookup_insert|apply lookup_delete]. Qed.

Lemma cancel_task i j o w : put_task j o (cancel i w) = cancel i (put_task j o w).
Proof. by destruct i. Qed.

(** What is left of the task of a service is still about it, and its only one. *)
Section retask.
Variables (w : Redirector) (j : nat) (o : Managing) (o' : option Managing).
Hypothesis Hj : rdTasks w !! j = Some o.
Hypothesis Ho : ∀ o'', o' = Some o'' → managed o'' = managed o.

Lemma retask_elsewhere w1 k o'' :
  rdTasks w1 = rdTasks w → managed o'' ≠ managed o → rdTasks (put_task j o' w1) !! k = Some o'' ↔ rdTasks w !! k = Some o''.
Proof.
  intros Ht Hne. rewrite lookup_task, Ht. destruct (decide (j = k)) as [<-|]; [|done]. rewrite Hj. split; [intros ->|intros [= ->]; done].
  by destruct Hne; apply Ho.
Qed.

Lemma retask_mine w1 k o'' :
  slot_ok w (managed o) → rdTasks w1 = rdTasks w → rdTasks (put_task j o' w1) !! k = Some o'' → managed o'' = managed o → k = j ∧ o' = Some o''.
Proof.
  intros O Ht. rewrite lookup_task, Ht. destruct (decide (j = k)) as [<-|Hne]; [done|]. intros Hk Hm. destruct Hne.
  by apply (sl_one _ _ O j k o o'').
Qed.

Lemma retask_one w1 k k' o1 o2 :
  slot_ok w (managed o) → rdTasks w1 = rdTasks w → rdTasks (put_task j o' w1) !! k = Some o1 → rdTasks (put_task j o' w1) !! k' = Some o2 →
  managed o1 = managed o → managed o2 = managed o → k = k'.
Proof.
  intros O Ht Hk Hk' H1 H2. apply (retask_mine w1 k o1) in Hk as [-> _]; [|done..]. by apply (retask_mine w1 k' o2) in Hk' as [-> _].
Qed.

(** A poll in the middle is current, unless the task waits for it. *)
Lemma retask_polling i p :
  slot_ok w (managed o) → rdPollers w !! i = Some p → spService p = managed o → polling p →
  rmSources (rdManager w) !! managed o = Some i ∨ awaits o i.
Proof.
  intros O Hi Hs Hp. destruct (sl_polling _ _ O i p Hi Hs Hp) as [?|(k & o2 & Hk & Hm & Ha)]; [by left|right].
  pose proof (sl_one _ _ O j k o o2 Hj Hk eq_refl Hm) as <-. congruence.
Qed.

Lemma retask_tasks w1 k o'' : store_ok w → rdTasks w1 = rdTasks w → rdTasks (put_task j o' w1) !! k = Some o'' → (k < rdNext w)%nat.
Proof.
  intros S Ht. rewrite lookup_task, Ht. destruct (decide (j = k)) as [<-|]; [intros _; by apply (st_tasks _ S j o)|apply S].
Qed.

End retask.

Lemma stopped_spec w i p : stopped w (Some i) = true → rdPollers w !! i = Some p → ¬ polling p ∧ in_hand p = None ∧ ∀ svc hosts, serves w p svc hosts → serving w svc = installed hosts.
Proof. unfold stopped, polling, in_hand, serves. cbn. intros Hst Hi. rewrite Hi in Hst. destruct (spPhase p); try done; repeat split; try done; by intros []. Qed.

Lemma installed_empty : installed ∅ = None.
Proof. reflexivity. Qed.

(** The source, or what a removal leaves of it, goes. *)
Lemma remove_ok w j o s :
  redirect_ok w → rdTasks w !! j = Some o → (o = Removing s ∨ ∃ so, o = Deploying s so ∧ soRedirectsSource so = "") →
  redirect_ok (put_task j (removeRedirects s w).2 (removeRedirects s w).1).
Proof.
  intros [S Hslots] Hj Hkind. assert (Hm : managed o = s) by (by destruct Hkind as [->|(so & -> & _)]).
  assert (Hno : ∀ i, ¬ awaits o i) by (intros i Ha; by destruct Hkind as [->|(so & -> & _)]).
  pose proof (Hslots s) as O. pose proof (sl_task _ _ O j o Hj Hm) as Ht. set (w1 := (removeRedirects s w).1).
  set (o' := (removeRedirects s w).2).
  assert (Ho' : ∀ o'', o' = Some o'' → managed o'' = managed o) by (unfold o', removeRedirects; cbn; case_goal; [done|]; intros ? [= <-]; done).
  assert (Hw1 : rdTasks w1 = rdTasks w) by done. subst s.
  apply (redirect_ok_step (managed o) w); [|done| |].
  - split; try done; try (intros s' Hne; cbn; by rewrite lookup_delete_ne).
    intros k o'' Hne. by apply (retask_elsewhere w j o o').
  - split; try apply S. intros k o''. by apply (retask_tasks w j o o').
  - set (w2 := put_task j o' w1).
    assert (Hsrc2 : rmSources (rdManager w2) !! managed o = None) by apply lookup_delete_eq.
    assert (Hst2 : rmStates (rdManager w2) !! managed o = None) by apply lookup_delete_eq.
    split; rewrite ?Hsrc2, ?Hst2; try apply O; try done.
    + intros k k' o1 o2. by apply (retask_one w j o o').
    + intros k o'' Hk Ho. apply (retask_mine w j o o') in Hk as [-> Hk]; [|done..]. revert Hk. unfold o', removeRedirects. cbn. case_goal; [done|].
      intros [= <-]. cbn [task_ok]. rewrite Hsrc2. split; [done|]. destruct (rmSources (rdManager w) !! managed o) as [i|] eqn:Hi; [|done].
      by apply (sl_source _ _ O).
    + intros i p Hi Hs Hp. right. destruct (retask_polling w j o Hj i p O Hi Hs Hp) as [Hcur|Ha]; [|by destruct (Hno i)].
      exists j, (Evicting (managed o) (Some i)). unfold w2. rewrite lookup_task, decide_True by done. split; [|done]. unfold o', removeRedirects. cbn.
      by rewrite Hcur, (bool_decide_true (is_Some (Some i))) by done.
    + intros Hnone. change (rdServices w2) with (rdServices w). destruct (rdServices w !! managed o) as [svc|] eqn:Hsvc; [|done]. unfold settled. rewrite Hsrc2.
      assert (o' = None) as Hnil.
      { destruct o' as [o''|] eqn:Ho''; [|done]. destruct (Hnone j o''); [|by apply Ho']. unfold w2. by rewrite lookup_task, decide_True. }
      assert (Hnosrc : rmSources (rdManager w) !! managed o = None).
      { revert Hnil. unfold o', removeRedirects. cbn. destruct (rmSources (rdManager w) !! managed o); [|done]. by rewrite bool_decide_true. }
      destruct Hkind as [Hk|(so & Hk & Hso)]; rewrite Hk in Ht; cbn in Ht; [congruence|]. destruct Ht as (v & Hv & Ht).
      rewrite Hso in Ht. rewrite Hsvc in Hv. injection Hv as <-. by apply Ht.
Qed.

Lemma adopt_ok s source st : state_ok s st → state_ok s (adoptState source st) ∧ rsHosts (adoptState source st) = rsHosts st ∧ rsSource (adoptState source st) = source.
Proof. unfold adoptState, state_ok. intros [Hv Ht]. destruct (String.eqb_spec (rsSource st) source) as [<-|]; cbn; [done|]. by repeat split. Qed.

Lemma replacePoller_ok w j s so :
  redirect_ok w → rdTasks w !! j = Some (Deploying s so) → soRedirectsSource so ≠ "" →
  redirect_ok (put_task j (replacePoller s so w).2 (replacePoller s so w).1).
Proof.
  intros [S Hslots] Hj Hso. pose proof (Hslots s) as O. pose proof (sl_task _ _ O j _ Hj eq_refl) as (svc & Hsvc & Ht).
  rewrite (proj2 (String.eqb_neq _ _)) in Ht by done. set (st0 := default newRedirectState (rmStates (rdManager w) !! s)).
  assert (Hst0 : state_ok s st0).
  { unfold st0. destruct (rmStates (rdManager w) !! s) eqn:Hs; [by apply (sl_state _ _ O)|]. split; [by left|done]. }
  destruct (adopt_ok s (soRedirectsSource so) st0 Hst0) as (Hadopt & Hhosts & Hsource). set (st := adoptState _ st0) in *.
  unfold replacePoller. fold st0 st. cbn [fst snd]. set (w1 := mkRedirector _ _ _ _ _ _ _). set (o' := Some _).
  assert (Ho' : ∀ o'', o' = Some o'' → managed o'' = s) by (by intros ? [= <-]).
  assert (Hfresh : rdPollers w !! rdNext w = None).
  { destruct (rdPollers w !! rdNext w) eqn:Hp; [|done]. pose proof (st_pollers _ S _ _ Hp). lia. }
  assert (Hold : ∀ k q, rdPollers w !! k = Some q → <[rdNext w:=mkSourcePoller s (soRedirectsSource so)
     (if soRedirectsInterval so =? 0 then DefaultRedirectsInterval else soRedirectsInterval so) (rsETag st) false NotStarted]> (rdPollers w) !! k = Some q).
  { intros k q Hk. rewrite lookup_insert_ne; [done|]. intros <-. congruence. }
  apply (redirect_ok_step s w); [|done| |].
  - split; try done; try (intros s' Hne; cbn; by rewrite lookup_insert_ne).
    + intros k q Hne. cbn. rewrite lookup_insert_Some. split; [|by right; split; [congruence|]]. by intros [[_ <-]|[_ Hk]].
    + intros k o'' Hne. by apply (retask_elsewhere w j (Deploying s so) o').
  - destruct S as [S1 S2 S3 S4 S5 S6 S7 S8]. split; cbn; try done.
    + intros k q. rewrite lookup_insert_Some. intros [[<- _]|[_ Hk]]; [lia|]. apply S1 in Hk. lia.
    + intros k q. rewrite lookup_insert_Some. intros [[_ <-]|[_ Hk]]; [done|by eapply S2].
    + intros k q v. rewrite lookup_insert_Some. intros [[_ <-]|[_ Hk]]; [done|]. intros Hh. destruct (S3 k q v Hk Hh). split; [lia|done].
    + intros s' v Hv. apply S4 in Hv. lia.
    + intros v Hv. apply S6 in Hv. lia.
    + intros k o''. change (rdTasks w1) with (rdTasks w). intros Hk. enough (k < rdNext w)%nat by lia. revert Hk.
      change (<[j:=Replacing s (rdNext w) (rmSources (rdManager w) !! s) (rsHosts st)]> (rdTasks w)) with (rdTasks (put_task j o' w1)).
      by apply (retask_tasks w j (Deploying s so) o').
  - split; cbn; rewrite ?lookup_insert_eq.
    + intros k k' o1 o2. by apply (retask_one w j (Deploying s so) o').
    + intros k o'' Hk Hm. apply (retask_mine w j (Deploying s so) o' Hj w1) in Hk as [-> Hk]; [|done..]. injection Hk as <-. cbn.
      eexists svc, _, st. rewrite !lookup_insert_eq. repeat (split; [done|]). unfold settled in Ht.
      destruct (rmSources (rdManager w) !! s) as [i|] eqn:Hsrc; [|done]. destruct Ht as (p & st1 & Hp & Hst1 & Hsv).
      destruct (sl_source _ _ O i Hsrc) as (p' & Hp' & Hps).
      exists p. split; [by apply Hold|]. split; [congruence|]. rewrite Hhosts. unfold st0. by rewrite Hst1.
    + intros i [= <-]. rewrite lookup_insert_eq. eauto.
    + intros i p. rewrite lookup_insert_Some. intros [[_ <-]|[_ Hi]]; [by intros _ [Hn _]; destruct Hn|]. intros Hs Hp. right.
      destruct (retask_polling w j _ Hj i p O Hi Hs Hp) as [Hcur|[]]. cbn in Hcur. eexists j, _. rewrite lookup_insert_eq. split; [done|]. split; [done|]. by rewrite Hcur.
    + intros i p v v'. rewrite lookup_insert_Some. intros [[_ <-]|[_ Hi]]; [done|]. by apply (sl_hand _ _ O i).
    + intros Hno. destruct (Hno j (Replacing s (rdNext w) (rmSources (rdManager w) !! s) (rsHosts st))); [|done]. by rewrite lookup_insert_eq.
    + by intros ? [= <-].
    + intros i p [= <-]. rewrite lookup_insert_eq. intros [= <-] _. exists st. split; [done|]. split; [done|]. cbn. rewrite <-Hsource. apply Hadopt.
Qed.

(** The object of a service is its own: giving it a map is nobody else's
    business. *)
Lemma serving_other w s svc s' v m :
  store_ok w → rdServices w !! s = Some svc → s' ≠ s → rdServices w !! s' = Some v →
  default None (<[svc := m]> (rdMaps w) !! v) = serving w v.
Proof. intros S Hs Hne Hs'. unfold serving. rewrite lookup_insert_ne; [done|]. intros ->. apply Hne. by apply (st_distinct _ S s' s v). Qed.

(** Once a poller of the service has ended, its task goes on: [w1] is the store
    with the new map, and perhaps the new poller started. *)
Lemma start_ok w j s new previous persisted :
  redirect_ok w → rdTasks w !! j = Some (Replacing s new previous persisted) → stopped w previous = true →
  redirect_ok (put_task j None (startPoller s new persisted w)).
Proof.
  intros [S Hslots] Hj Hstop. pose proof (Hslots s) as O.
  pose proof (sl_task _ _ O j _ Hj eq_refl) as (svc & p & st & Hsvc & Hsrc & Hp & Hph & Hst & Hh & Hprev).
  destruct (sl_source _ _ O new Hsrc) as (p' & Hp' & Hps). rewrite Hp in Hp'. injection Hp' as <-.
  destruct (sl_state _ _ O st Hst) as [Hvalid _]. rewrite Hh in Hvalid.
  set (w1 := startPoller s new persisted w).
  assert (Hw1 : rdTasks w1 = rdTasks w ∧ rdServices w1 = rdServices w ∧ rdFile w1 = rdFile w ∧ rdNext w1 = rdNext w ∧
    rmSources (rdManager w1) = rmSources (rdManager w) ∧ rmStates (rdManager w1) = rmStates (rdManager w) ∧
    (∀ k, rdPollers w1 !! k = if decide (new = k) then Some (with_phase Waiting p) else rdPollers w !! k) ∧
    serving w1 svc = installed persisted ∧ (∀ s' v, s' ≠ s → rdServices w !! s' = Some v → serving w1 v = serving w v) ∧
    ∀ v, is_Some (rdMaps w1 !! v) → v = svc ∨ is_Some (rdMaps w !! v)).
  { assert (Hpl : ∀ k, alter (with_phase Waiting) new (rdPollers w) !! k = if decide (new = k) then Some (with_phase Waiting p) else rdPollers w !! k).
    { intros k. rewrite lookup_alter. destruct (decide (new = k)) as [<-|]; [by rewrite Hp|done]. }
    unfold w1, startPoller, installMap. destruct (decide (persisted = ∅)) as [He|He].
    - rewrite bool_decide_true by done. repeat (split; [done|]). split; [|split; [done|by right]].
      change (serving w svc = installed persisted). destruct previous as [i|]; [|by rewrite Hprev, He, installed_empty].
      destruct Hprev as (q & Hq & _ & Hsv). by apply (stopped_spec w i q Hstop Hq).
    - rewrite bool_decide_false by done. rewrite Hsvc. repeat (split; [done|]). split; [|split].
      + unfold serving. cbn. rewrite lookup_insert_eq. destruct Hvalid as [|[[m Hm] _]]; [done|]. unfold installed in Hm |- *.
        by destruct (Nat.eqb _ 0).
      + intros s' v Hne Hv. by apply (serving_other w s svc s' v).
      + intros v. cbn. rewrite lookup_insert. case_decide as Hd; [by left|by right]. }
  destruct Hw1 as (Ht1 & Hs1 & Hf1 & Hn1 & Hsrc1 & Hst1 & Hp1 & Hserve & Hother & Hmaps). set (w2 := put_task j None w1).
  assert (Hrest : rdServices w2 = rdServices w ∧ rmSources (rdManager w2) = rmSources (rdManager w) ∧ rmStates (rdManager w2) = rmStates (rdManager w))
    by by rewrite <-Hs1, <-Hsrc1, <-Hst1. destruct Hrest as (Hs2 & Hsrc2 & Hst2).
  assert (Hnone : ∀ o'' : Managing, None = Some o'' → managed o'' = s) by done.
  apply (redirect_ok_step s w); [|done| |].
  - split; rewrite ?Hs2, ?Hsrc2, ?Hst2; try done.
    + intros k q Hq. change (rdPollers w2) with (rdPollers w1). rewrite Hp1. destruct (decide (new = k)) as [<-|]; [|done]. rewrite Hp.
      split; intros [= <-]; cbn in Hq; congruence.
    + intros k o Hne. by apply (retask_elsewhere w j (Replacing s new previous persisted) None).
  - destruct S as [S1 S2 S3 S4 S5 S6 S7 S8]. split; try (change (rdNext w2) with (rdNext w1); rewrite Hn1); try (change (rdPollers w2) with (rdPollers w1));
      rewrite ?Hs2; try done.
    + intros k q. rewrite Hp1. destruct (decide (new = k)) as [<-|]; [by eauto|apply S1].
    + intros k q. rewrite Hp1. destruct (decide (new = k)) as [<-|]; [by intros [= <-]|apply S2].
    + intros k q v. rewrite Hp1. destruct (decide (new = k)) as [<-|]; [by intros [= <-]|apply S3].
    + intros v [->|Hv]%Hmaps; [by eapply S4|by apply S6].
    + intros k o. by apply (retask_tasks w j (Replacing s new previous persisted) None).
    + change (rdFile w2) with (rdFile w1). by rewrite Hf1.
  - assert (Hset : settled w2 s svc).
    { unfold settled. rewrite Hsrc2, Hsrc. exists (with_phase Waiting p), st. change (rdPollers w2) with (rdPollers w1). rewrite Hp1, decide_True by done.
      rewrite Hst2. split; [done|]. split; [done|]. cbn. by rewrite Hh. }
    split; rewrite ?Hsrc2, ?Hst2, ?Hs2; try (change (rdPollers w2) with (rdPollers w1)).
    + intros k k' o1 o2. by apply (retask_one w j (Replacing s new previous persisted) None).
    + intros k o Hk Ho. by apply (retask_mine w j (Replacing s new previous persisted) None) in Hk as [_ Hk].
    + intros i Hi. rewrite Hsrc in Hi. injection Hi as <-. rewrite Hp1, decide_True by done. eauto.
    + intros i q. rewrite Hp1. destruct (decide (new = i)) as [<-|Hne]; [by left|]. intros Hi Hs Hpoll. left.
      destruct (retask_polling w j _ Hj i q O Hi Hs Hpoll) as [Hcur|Ha]; [done|]. cbn in Ha. destruct previous as [k|]; [|done]. subst k.
      by destruct (stopped_spec w i q Hstop Hi).
    + intros i q v v'. rewrite Hp1. destruct (decide (new = i)) as [<-|Hne]; [by intros [= <-]|]. by apply (sl_hand _ _ O i).
    + intros _. by rewrite Hsvc.
    + apply O.
    + intros i q Hi. rewrite Hsrc in Hi. injection Hi as <-. rewrite Hp1, decide_True by done. intros [= <-] Hsome.
      destruct (sl_tagged _ _ O new p Hsrc Hp Hsome) as (st1 & Hst1' & Htag). exists st1. split; [done|]. unfold tagged in Htag |- *. by rewrite Hph in Htag.
Qed.

Lemma evict_ok w j s source :
  redirect_ok w → rdTasks w !! j = Some (Evicting s source) → stopped w source = true →
  redirect_ok (put_task j (Some (Removed s)) (evictMap s w)).
Proof.
  intros [S Hslots] Hj Hstop. pose proof (Hslots s) as O. pose proof (sl_task _ _ O j _ Hj eq_refl) as [Hsrc Hq]. set (w1 := evictMap s w).
  assert (Hw1 : rdTasks w1 = rdTasks w ∧ rdServices w1 = rdServices w ∧ rdFile w1 = rdFile w ∧ rdNext w1 = rdNext w ∧
    rdManager w1 = rdManager w ∧ rdPollers w1 = rdPollers w ∧ (∀ svc, rdServices w !! s = Some svc → serving w1 svc = None) ∧
    (∀ s' v, s' ≠ s → rdServices w !! s' = Some v → serving w1 v = serving w v) ∧ ∀ v, is_Some (rdMaps w1 !! v) → (v < rdNext w)%nat).
  { unfold w1, evictMap. destruct (rdServices w !! s) as [svc|] eqn:Hsvc; [|by repeat split; try done; intros v; apply S].
    repeat (split; [done|]). split; [|split].
    - intros ? [= <-]. unfold serving. cbn. by rewrite lookup_insert_eq.
    - intros s' v Hne Hv. by apply (serving_other w s svc s' v).
    - intros v. cbn. rewrite lookup_insert. case_decide as Hd; [intros _; rewrite <-Hd; by apply (st_services _ S s)|apply S]. }
  destruct Hw1 as (Ht1 & Hs1 & Hf1 & Hn1 & Hm1 & Hp1 & Hserve & Hother & Hmaps). set (w2 := put_task j (Some (Removed s)) w1).
  assert (Hrest : rdServices w2 = rdServices w ∧ rdManager w2 = rdManager w ∧ rdPollers w2 = rdPollers w ∧ rdFile w2 = rdFile w ∧ rdNext w2 = rdNext w)
    by by rewrite <-Hs1, <-Hm1, <-Hp1, <-Hf1, <-Hn1. destruct Hrest as (Hs2 & Hm2 & Hp2 & Hf2 & Hn2).
  assert (Hnone : ∀ o'' : Managing, Some (Removed s) = Some o'' → managed o'' = s) by by intros ? [= <-].
  apply (redirect_ok_step s w); [|done| |].
  - split; rewrite ?Hs2, ?Hm2, ?Hp2; try done. intros k o Hne. by apply (retask_elsewhere w j (Evicting s source) (Some (Removed s))).
  - split; rewrite ?Hs2, ?Hn2, ?Hf2, ?Hp2; try apply S; [done|]. intros k o. by apply (retask_tasks w j (Evicting s source) (Some (Removed s))).
  - split; rewrite ?Hm2, ?Hs2, ?Hp2; try apply O.
    + intros k k' o1 o2. by apply (retask_one w j (Evicting s source) (Some (Removed s))).
    + intros k o Hk Ho. apply (retask_mine w j (Evicting s source) (Some (Removed s))) in Hk as [_ Hk]; [|done..]. injection Hk as <-. cbn [task_ok].
      rewrite Hm2, Hs2. done.
    + intros i q Hi Hs Hpoll. destruct (retask_polling w j _ Hj i q O Hi Hs Hpoll) as [Hcur|Ha]; [by left|]. cbn in Ha.
      destruct source as [k|]; [|done]. subst k. by destruct (stopped_spec w i q Hstop Hi).
    + intros Hno. destruct (Hno j (Removed s)); [|done]. unfold w2. by rewrite lookup_task, decide_True.
Qed.

(** The task is over. *)
Lemma done_ok w j s : redirect_ok w → rdTasks w !! j = Some (Removed s) → redirect_ok (put_task j None w).
Proof.
  intros [S Hslots] Hj. pose proof (Hslots s) as O. pose proof (sl_task _ _ O j _ Hj eq_refl) as [Hsrc Hserve].
  assert (Hnone : ∀ o'' : Managing, None = Some o'' → managed o'' = s) by done.
  apply (redirect_ok_step s w); [|done| |].
  - split; try done. intros k o Hne. by apply (retask_elsewhere w j (Removed s) None).
  - split; try apply S. intros k o. by apply (retask_tasks w j (Removed s) None).
  - split; try apply O.
    + intros k k' o1 o2. by apply (retask_one w j (Removed s) None).
    + intros k o Hk Ho. by apply (retask_mine w j (Removed s) None) in Hk as [_ Hk].
    + intros i q Hi Hs Hpoll. destruct (retask_polling w j _ Hj i q O Hi Hs Hpoll) as [Hcur|[]]. by left.
    + intros _. change (rdServices (put_task j None w)) with (rdServices w). destruct (rdServices w !! s) as [svc|] eqn:Hs; [|done].
      unfold settled. change (rdManager (put_task j None w)) with (rdManager w). rewrite Hsrc. by apply Hserve.
Qed.

Lemma manage_ok w j ok w' : redirect_ok w → manage j ok w = Some w' → redirect_ok w'.
Proof.
  intros Hok. unfold manage. destruct (rdTasks w !! j) as [o|] eqn:Hj; [|done]. cbn [mbind option_bind].
  destruct o as [s so|s|s new previous persisted|s source|s]; cbn [manage_next].
  - destruct (String.eqb_spec (soRedirectsSource so) "") as [Hso|Hso].
    + pose proof (remove_ok w j _ s Hok Hj (or_intror (ex_intro _ so (conj eq_refl Hso)))) as Hr.
      destruct (removeRedirects s w) as [w1 o']. cbn [fst snd] in Hr. destruct o' as [[]|]; intros [= <-]; rewrite ?cancel_task; auto using cancel_ok.
    + pose proof (replacePoller_ok w j s so Hok Hj Hso) as Hr. destruct (replacePoller s so w) as [w1 o']. cbn [fst snd] in Hr.
      destruct o' as [[]|]; intros [= <-]; rewrite ?cancel_task; auto using cancel_ok.
  - pose proof (remove_ok w j _ s Hok Hj (or_introl eq_refl)) as Hr.
    destruct (removeRedirects s w) as [w1 o']. cbn [fst snd] in Hr. destruct o' as [[]|]; intros [= <-]; rewrite ?cancel_task; auto using cancel_ok.
  - destruct (stopped w previous) eqn:Hstop; [|done]. intros [= <-]. by apply (start_ok w j s new previous).
  - destruct (stopped w source) eqn:Hstop; [|done]. intros [= <-]. by apply (evict_ok w j s source).
  - intros [= <-]. apply (save_ok ok) in Hok. apply (done_ok _ j s); [done|]. by destruct ok.
Qed.

(** ** The router's part, and restarts *)

Definition untended (w : Redirector) (s : string) : Prop := ∀ j o, rdTasks w !! j = Some o → managed o ≠ s.

Lemma untended_current w s i p :
  slot_ok w s → untended w s → rdPollers w !! i = Some p → spService p = s → polling p → rmSources (rdManager w) !! s = Some i.
Proof. intros O Hno Hi Hs Hp. apply (polling_current w s i p O Hi Hs Hp). intros j o Hj Ho. by destruct (Hno j o). Qed.

Lemma in_hand_polling p svc : in_hand p = Some svc → polling p.
Proof. unfold in_hand, polling. by destruct (spPhase p). Qed.

Lemma have_spec s w :
  (∃ svc, rdServices (haveService s w) !! s = Some svc) ∧ rdTasks (haveService s w) = rdTasks w ∧
  rdManager (haveService s w) = rdManager w ∧ rdPollers (haveService s w) = rdPollers w.
Proof. unfold haveService. destruct (rdServices w !! s) as [svc|] eqn:Hs; [eauto|]. cbn. rewrite lookup_insert_eq. eauto. Qed.

Lemma have_ok w s : redirect_ok w → untended w s → redirect_ok (haveService s w).
Proof.
  intros Hok Hno. pose proof Hok as [S Hslots]. pose proof (Hslots s) as O. unfold haveService. destruct (rdServices w !! s) as [svc|] eqn:Hs; [done|].
  pose proof (sl_settled _ _ O Hno) as Hsrc. rewrite Hs in Hsrc.
  assert (Hnew : ∀ i p, rdPollers w !! i = Some p → spService p = s → ¬ polling p).
  { intros i p Hi Hps Hp. by rewrite (untended_current w s i p O Hno Hi Hps Hp) in Hsrc. }
  apply (redirect_ok_step s w); [|done| |].
  - split; try done. intros s' Hne. cbn. by rewrite lookup_insert_ne.
  - destruct S as [S1 S2 S3 S4 S5 S6 S7 S8]. split; cbn; try done.
    + intros i p Hi. apply S1 in Hi. lia.
    + intros i p svc Hi Hh. destruct (S3 i p svc Hi Hh) as [Hlt Hown]. split; [lia|]. intros s'. rewrite lookup_insert_Some. intros [[<- ?]|[_ ?]]; [lia|auto].
    + intros s' svc. rewrite lookup_insert_Some. intros [[_ <-]|[_ Hs']]; [lia|]. apply S4 in Hs'. lia.
    + intros s1 s2 svc. rewrite !lookup_insert_Some. intros [[<- <-]|[Hne1 H1]] [[<- H2]|[Hne2 H2]]; [done| | |eauto].
      * apply S4 in H2. lia.
      * apply S4 in H1. lia.
    + intros svc Hsvc. apply S6 in Hsvc. lia.
    + intros j o Hj. apply S7 in Hj. lia.
  - split; cbn; try apply O.
    + intros j o Hj Ho. by destruct (Hno j o).
    + intros i p svc svc' Hi Hps Hh%in_hand_polling. by destruct (Hnew i p Hi Hps).
    + intros _. rewrite lookup_insert_eq. unfold settled. cbn. rewrite Hsrc. unfold serving. cbn.
      destruct (rdMaps w !! rdNext w) eqn:Hm; [|done]. assert (is_Some (rdMaps w !! rdNext w)) as Hlt%(st_maps _ S) by eauto. lia.
    + intros i p Hi. congruence.
Qed.

Lemma deploy_ok w s so : redirect_ok w → untended w s → redirect_ok (deployService s so w).
Proof.
  intros Hok Hno. unfold deployService. destruct (have_spec s w) as ((svc & Hs) & Ht & _ & _).
  pose proof (have_ok w s Hok Hno) as Hok'. assert (Hno' : untended (haveService s w) s) by (unfold untended; by rewrite Ht).
  revert Hok' Hno' Hs. generalize (haveService s w). clear w Hok Hno Ht. intros w [S Hslots] Hno Hs.
  pose proof (Hslots s) as O. pose proof (sl_settled _ _ O Hno) as Hset. rewrite Hs in Hset. set (w1 := dropMap s so w).
  assert (Hw1 : rdTasks w1 = rdTasks w ∧ rdServices w1 = rdServices w ∧ rdFile w1 = rdFile w ∧ rdNext w1 = rdNext w ∧
    rdManager w1 = rdManager w ∧ rdPollers w1 = rdPollers w ∧ (∀ s' v, s' ≠ s → rdServices w !! s' = Some v → serving w1 v = serving w v) ∧
    (∀ v, is_Some (rdMaps w1 !! v) → (v < rdNext w)%nat) ∧
    if String.eqb (soRedirectsSource so) "" then serving w1 svc = None else w1 = w).
  { unfold w1, dropMap, evictMap. rewrite Hs. case_goal; [|repeat split; try done; apply S].
    repeat (split; [done|]). split; [|split].
    - intros s' v Hne Hv. by apply (serving_other w s svc s' v).
    - intros v. cbn. rewrite lookup_insert. case_decide as Hd; [intros _; rewrite <-Hd; by apply (st_services _ S s)|apply S].
    - unfold serving. cbn. by rewrite lookup_insert_eq. }
  destruct Hw1 as (Ht1 & Hs1 & Hf1 & Hn1 & Hm1 & Hp1 & Hother & Hmaps & Hmine). set (w2 := begin _ w1).
  assert (Hrest : rdServices w2 = rdServices w ∧ rdManager w2 = rdManager w ∧ rdPollers w2 = rdPollers w ∧ rdFile w2 = rdFile w ∧ rdNext w2 = Datatypes.S (rdNext w))
    by by rewrite <-Hs1, <-Hm1, <-Hp1, <-Hf1, <-Hn1. destruct Hrest as (Hs2 & Hm2 & Hp2 & Hf2 & Hn2).
  assert (Ht2 : ∀ j, rdTasks w2 !! j = if decide (rdNext w = j) then Some (Deploying s so) else rdTasks w !! j).
  { intros j. cbn. rewrite Hn1, Ht1. apply lookup_insert. }
  assert (Hfree : rdTasks w !! rdNext w = None).
  { destruct (rdTasks w !! rdNext w) eqn:Hj; [|done]. apply (st_tasks _ S) in Hj. lia. }
  assert (Hmy : ∀ j o, rdTasks w2 !! j = Some o → managed o = s → j = rdNext w ∧ o = Deploying s so).
  { intros j o. rewrite Ht2. destruct (decide (rdNext w = j)) as [<-|]; [by intros [= <-]|]. intros Hj Ho. by destruct (Hno j o). }
  apply (redirect_ok_step s w); [|done| |].
  - split; rewrite ?Hs2, ?Hm2, ?Hp2; try done. intros j o Hne. rewrite Ht2. destruct (decide (rdNext w = j)) as [<-|]; [|done].
    rewrite Hfree. split; [intros [= <-]; by destruct Hne|done].
  - destruct S as [S1 S2 S3 S4 S5 S6 S7 S8]. split; rewrite ?Hs2, ?Hn2, ?Hf2, ?Hp2; try done.
    + intros i p Hi. apply S1 in Hi. lia.
    + intros i p v Hi Hh. destruct (S3 i p v Hi Hh). split; [lia|done].
    + intros s' v Hv. apply S4 in Hv. lia.
    + intros v Hv. apply Hmaps in Hv. lia.
    + intros j o. rewrite Ht2. destruct (decide (rdNext w = j)) as [<-|]; [lia|]. intros Hj%S7. lia.
  - split; rewrite ?Hs2, ?Hm2, ?Hp2; try apply O.
    + intros j k o o' Hj Hk Ho Ho'. apply Hmy in Hj as [-> _]; [|done]. by apply Hmy in Hk as [-> _].
    + intros j o Hj Ho. apply Hmy in Hj as [-> ->]; [|done]. cbn. exists svc. split; [by rewrite Hs1|]. revert Hmine. case_goal; [done|].
      intros Hsame. unfold w2. by rewrite Hsame.
    + intros i p Hi Hps Hp. left. by apply (untended_current w s i p).
    + intros Hno2. destruct (Hno2 (rdNext w) (Deploying s so)); [|done]. by rewrite Ht2, decide_True.
Qed.

Lemma forgetService_ok w s w' : redirect_ok w → untended w s → forgetService s w = Some w' → redirect_ok w'.
Proof.
  intros [S Hslots] Hno. unfold forgetService. destruct (rdServices w !! s) as [svc|] eqn:Hs; [|done]. cbn [mbind option_bind]. intros [= <-].
  pose proof (Hslots s) as O. set (w2 := begin _ _).
  assert (Hs2 : rdServices w2 !! s = None) by apply lookup_delete_eq.
  assert (Hsub : ∀ s' v, rdServices w2 !! s' = Some v → rdServices w !! s' = Some v) by (intros s' v; cbn; rewrite lookup_delete_Some; by intros []).
  assert (Ht2 : ∀ j, rdTasks w2 !! j = if decide (rdNext w = j) then Some (Removing s) else rdTasks w !! j) by (intros j; apply lookup_insert).
  assert (Hfree : rdTasks w !! rdNext w = None).
  { destruct (rdTasks w !! rdNext w) eqn:Hj; [|done]. apply (st_tasks _ S) in Hj. lia. }
  assert (Hmy : ∀ j o, rdTasks w2 !! j = Some o → managed o = s → j = rdNext w ∧ o = Removing s).
  { intros j o. rewrite Ht2. destruct (decide (rdNext w = j)) as [<-|]; [by intros [= <-]|]. intros Hj Ho. by destruct (Hno j o). }
  apply (redirect_ok_step s w); [|done| |].
  - split; try done.
    + intros s' Hne. cbn. by rewrite lookup_delete_ne.
    + intros j o Hne. rewrite Ht2. destruct (decide (rdNext w = j)) as [<-|]; [|done]. rewrite Hfree. split; [intros [= <-]; by destruct Hne|done].
  - destruct S as [S1 S2 S3 S4 S5 S6 S7 S8]. split; change (rdNext w2) with (Datatypes.S (rdNext w)); try done.
    + intros i p Hi. apply S1 in Hi. lia.
    + intros i p v Hi Hh. destruct (S3 i p v Hi Hh). split; [lia|eauto].
    + intros s' v Hv%Hsub%S4. lia.
    + intros s1 s2 v H1%Hsub H2%Hsub. eauto.
    + intros v Hv%S6. lia.
    + intros j o. rewrite Ht2. destruct (decide (rdNext w = j)) as [<-|]; [lia|]. intros Hj%S7. lia.
  - split; rewrite ?Hs2; try apply O; try done.
    + intros j k o o' Hj Hk Ho Ho'. apply Hmy in Hj as [-> _]; [|done]. by apply Hmy in Hk as [-> _].
    + intros j o Hj Ho. apply Hmy in Hj as [-> ->]; [|done]. exact Hs2.
    + intros i p Hi Hps Hp. left. by apply (untended_current w s i p).
    + intros Hno2. destruct (Hno2 (rdNext w) (Removing s)); [|done]. by rewrite Ht2, decide_True.
Qed.

(** A process that has just loaded its state file. *)
Lemma loaded_ok file next : (∀ s st, file !! s = Some st → state_ok s st) → redirect_ok (mkRedirector (mkRedirectManager ∅ ∅ file ∅) ∅ ∅ ∅ ∅ file next).
Proof.
  intros Hf. split; [split|intros s; split]; cbn; intros *; rewrite ?lookup_empty; try done; try apply Hf.
Qed.

Lemma restart_ok w services : redirect_ok w → redirect_ok (restart services w).
Proof.
  intros [S _]. unfold restart. pose proof (loaded_ok (rdFile w) (rdNext w) (st_file _ S)) as Hok. revert Hok.
  assert (Ht : rdTasks (mkRedirector (mkRedirectManager ∅ ∅ (rdFile w) ∅) ∅ ∅ ∅ ∅ (rdFile w) (rdNext w)) = ∅) by done. revert Ht.
  generalize (mkRedirector (mkRedirectManager ∅ ∅ (rdFile w) ∅) ∅ ∅ ∅ ∅ (rdFile w) (rdNext w)).
  induction services as [|s l IH]; intros w0 Ht Hok; [done|]. cbn. apply IH.
  - destruct (have_spec s w0) as (_ & -> & _). done.
  - apply have_ok; [done|]. intros j o. by rewrite Ht, lookup_empty.
Qed.

Lemma reachable_ok w : redirect_reachable w → redirect_ok w.
Proof.
  induction 1 as [file next Hf|w e w' _ IH Hserial Htrue Hstep]; [by apply loaded_ok|].
  destruct e as [s so|s|j ok|i answer|now i ok|i|services]; cbn in Hstep.
  - injection Hstep as <-. by apply deploy_ok.
  - by apply (forgetService_ok w s).
  - by apply (manage_ok w j ok).
  - by apply (hear_ok w i answer).
  - by apply (poll_next_ok now w i ok).
  - by apply (leave_ok w i).
  - injection Hstep as <-. by apply restart_ok.
Qed.

(** ** What a service redirects by *)

(** C12: however polls, deployments, removals and restarts interleave, as long
    as the commands about one service come one after the other: a service with a
    source that no command is busy with redirects by the list the manager has
    for it.  That list is empty or was heard for this service from a source it
    was deployed with, never for another one; after the source was changed it
    stays the earlier source's until the new one answers.  The ETag the poller
    sends next is one that its present source gave out with this very list, so
    that a 304 is never the answer about another list.  A service without a
    source redirects by no list. *)
Theorem redirects_follow_source w s svc :
  redirect_reachable w → untended w s → rdServices w !! s = Some svc →
  match rmSources (rdManager w) !! s with
  | None => serving w svc = None
  | Some i => ∃ p st, rdPollers w !! i = Some p ∧ spService p = s ∧ rmStates (rdManager w) !! s = Some st ∧ spSource p = rsSource st ∧
      listed s (rsHosts st) ∧
      (spPhase p = Waiting →
         serving w svc = installed (rsHosts st) ∧
         (spETag p ≠ "" → rsHosts st = source_of (spSource p) (spETag p)))
  end.
Proof.
  intros [_ Hslots]%reachable_ok Hno Hs. pose proof (Hslots s) as O. pose proof (sl_settled _ _ O Hno) as Hset. rewrite Hs in Hset.
  unfold settled in Hset. destruct (rmSources (rdManager w) !! s) as [i|] eqn:Hi; [|done]. destruct Hset as (p & st & Hp & Hst & Hsv).
  destruct (sl_tagged _ _ O i p Hi Hp (mk_is_Some _ _ Hs)) as (st' & Hst' & Hsrc & Htag). rewrite Hst in Hst'. injection Hst' as <-.
  destruct (sl_source _ _ O i Hi) as (p' & Hp' & Hps). rewrite Hp in Hp'. injection Hp' as <-.
  exists p, st. split; [done|]. split; [done|]. split; [done|]. split; [done|]. split; [apply (sl_state _ _ O st Hst)|].
  intros Hph. unfold serves in Hsv. rewrite Hph in Hsv, Htag. done.
Qed.

(** No poll outlives its source's deployment: a poller in the middle of a
    poll is the current one of its service, or a deployment or a removal of the
    service is waiting for it to end, and what such a poll has in hand is the
    service's own object. *)
Theorem no_stray_poll w i p :
  redirect_reachable w → rdPollers w !! i = Some p → polling p →
  (rmSources (rdManager w) !! spService p = Some i ∨ ∃ j o, rdTasks w !! j = Some o ∧ managed o = spService p ∧ awaits o i) ∧
  ∀ svc, in_hand p = Some svc → (∀ s, rdServices w !! s = Some svc → s = spService p).
Proof.
  intros [S Hslots]%reachable_ok Hi Hp. split; [by apply (sl_polling _ _ (Hslots (spService p)) i p)|].
  intros svc Hh. by apply (st_hands _ S i p svc).
Qed.
End manager.

(** ** Examples *)

Module DynamicRedirectExamples.

#[local] Existing Instance literal_regexp.

Definition options (source : string) : SvcOptions :=
  mkSvcOptions ["www.example"] ["/"] false "" "" "" false "" "" "" "" false 0 false []
    "X-Client-Ip" "" "" 0 0 [] 0 0 false "" ""
    [] [] [] [] f64_zero 0 [] [] [] source 0 0 0 []
    (Compression.mkCompression [] 0 []) (CachePolicy.mkCacheOptions false 0 0 [] [] false 0).

Definition list_of (target : string) : gmap string redirectHostConfig :=
  {["old.example" := mkHostConfig ("https://" +:+ target) 301 true "" []]}.

(** A source that gives each list out under its own ETag. *)
Definition honest_source (source etag : string) : gmap string redirectHostConfig :=
  if String.eqb etag "v1" then list_of "one.example" else list_of "two.example".

Definition start : Redirector := mkRedirector (mkRedirectManager ∅ ∅ ∅ ∅) ∅ ∅ ∅ ∅ ∅ 0.

Definition answer (etag target : string) : PollAnswer := Body etag 100 (Some (Some (list_of target))).
Definition polled (i : nat) (etag target : string) : list RedirectEvent :=
  [EvHear i (answer etag target); EvPoll 0 i true; EvPoll 0 i true; EvPoll 0 i true; EvPoll 0 i true].

(** The service is object 0, its deployment task 1, its poller 2. *)
Definition first : list RedirectEvent := EvDeploy "web" (options "/redirects") :: EvManage 1 true :: EvManage 1 true :: polled 2 "v1" "one.example".

#[local] Instance rule_eq_dec : EqDecision redirectPathRule := ltac:(solve_decision).
#[local] Instance config_eq_dec : EqDecision redirectHostConfig := ltac:(solve_decision).

(** The lists of such a source, whoever asks. *)
Definition lists_of (src : string → string → gmap string redirectHostConfig) (_ source : string) (hosts : gmap string redirectHostConfig) : Prop :=
  ∃ etag, hosts = src source etag.

(** Do the commands wait for each other, and does the source tell the truth? *)
Definition allowed (src : string → string → gmap string redirectHostConfig) (w : Redirector) (e : RedirectEvent) : bool :=
  match e with
  | EvDeploy s _ | EvRemove s => forallb (λ jo : nat * Managing, negb (String.eqb (managed jo.2) s)) (map_to_list (rdTasks w))
  | EvHear i (Body etag size payload) =>
      match rdPollers w !! i, readRedirects size payload with
      | Some p, Ok hosts => bool_decide (hosts = src (spSource p) etag)
      | _, _ => true
      end
  | _ => true
  end.

Lemma allowed_spec src w e : allowed src w e = true → serial w e ∧ truthful src (lists_of src) w e.
Proof.
  destruct e as [s so|s|j ok|i [|etag size payload]|now i ok|i|l]; try done; cbn [allowed serial truthful].
  1, 2: rewrite forallb_forall; intros Hall; split; [|done]; intros j o Hj; apply elem_of_map_to_list, list_elem_of_In in Hj;
    apply Hall in Hj; cbn in Hj; by apply negb_true_iff, String.eqb_neq in Hj.
  intros Hall. split; [done|]. intros p hosts Hp Hread. rewrite Hp, Hread in Hall.
  apply bool_decide_eq_true in Hall. split; [by exists etag|done].
Qed.

Fixpoint checked_run (src : string → string → gmap string redirectHostConfig) (w : Redirector) (es : list RedirectEvent) : option Redirector :=
  match es with
  | [] => Some w
  | e :: es => if allowed src w e then w ← redirect_step w e; checked_run src w es else None
  end.

Lemma checked_reachable src w es w' : redirect_reachable src (lists_of src) w → checked_run src w es = Some w' → redirect_reachable src (lists_of src) w'.
Proof.
  revert w. induction es as [|e es IH]; intros w Hw; cbn; [by intros [= <-]|]. destruct (allowed src w e) eqn:Ha; [|done].
  destruct (redirect_step w e) as [w1|] eqn:Hs; [|done]. apply allowed_spec in Ha as [H1 H2]. apply IH. by apply (rr_step src (lists_of src) w e).
Qed.

Lemma start_reachable src : redirect_reachable src (lists_of src) start.
Proof. apply rr_new. intros s st. by rewrite lookup_empty. Qed.

(** The store a checked run from the start ends in. *)
Definition reached (src : string → string → gmap string redirectHostConfig) (es : list RedirectEvent) : Redirector :=
  default start (checked_run src start es).

Lemma reached_reachable src es : redirect_reachable src (lists_of src) (reached src es).
Proof.
  unfold reached. destruct (checked_run src start es) as [w|] eqn:Hw; [|apply start_reachable].
  apply (checked_reachable src start es w); [apply start_reachable|exact Hw].
Qed.

Definition busy (w : Redirector) (s : string) : bool := existsb (λ jo : nat * Managing, String.eqb (managed jo.2) s) (map_to_list (rdTasks w)).

Lemma not_busy w s : busy w s = false → untended w s.
Proof.
  unfold busy, untended. intros Hb j o Hj Ho. apply not_true_iff_false in Hb. apply Hb, existsb_exists. exists (j, o).
  split; [by apply list_elem_of_In, elem_of_map_to_list|]. by apply String.eqb_eq.
Qed.

Lemma redirects_follow_source_witness :
  let w := reached honest_source first in
  redirect_reachable honest_source (lists_of honest_source) w ∧ untended w "web" ∧ rdServices w !! "web" = Some 0%nat ∧
  serving w 0 = installed (honest_source "/redirects" "v1").
Proof.
  intros w.
  assert (Hr : redirect_reachable honest_source (lists_of honest_source) w) by apply reached_reachable.
  assert (Hno : untended w "web") by (apply not_busy; vm_compute; reflexivity).
  assert (Hs : rdServices w !! "web" = Some 0%nat) by (vm_compute; reflexivity).
  assert (Hsrc : rmSources (rdManager w) !! "web" = Some 2%nat) by (vm_compute; reflexivity).
  assert (Hpoll : (λ p, (spPhase p, spSource p, spETag p)) <$> rdPollers w !! 2%nat = Some (Waiting, "/redirects", "v1")) by (vm_compute; reflexivity).
  split; [exact Hr|]. split; [exact Hno|]. split; [exact Hs|].
  pose proof (redirects_follow_source honest_source (lists_of honest_source) w "web" 0%nat Hr Hno Hs) as Hthm. rewrite Hsrc in Hthm.
  destruct Hthm as (p & st & Hp & _ & _ & _ & _ & Hserving). rewrite Hp in Hpoll. injection Hpoll as Hph Hso He.
  destruct (Hserving Hph) as [-> Hhosts]. rewrite Hso, He in Hhosts. by rewrite Hhosts.
Defined.

(** A poll caught by a deployment in its middle: the deployment waits for it. *)
Definition caught : list RedirectEvent :=
  first ++ [EvHear 2 (answer "v2" "two.example"); EvPoll 0 2 true; EvPoll 0 2 true; EvDeploy "web" (options "/moved"); EvManage 3 true].

Lemma no_stray_poll_witness :
  let w := reached honest_source caught in
  redirect_reachable honest_source (lists_of honest_source) w ∧ in_hand <$> rdPollers w !! 2%nat = Some (Some 0%nat) ∧
  ∃ j o, rdTasks w !! j = Some o ∧ awaits o 2.
Proof.
  intros w.
  assert (Hr : redirect_reachable honest_source (lists_of honest_source) w) by apply reached_reachable.
  assert (Hh : in_hand <$> rdPollers w !! 2%nat = Some (Some 0%nat)) by (vm_compute; reflexivity).
  split; [exact Hr|]. split; [exact Hh|]. destruct (rdPollers w !! 2%nat) as [p|] eqn:Hp; [|discriminate Hh].
  injection Hh as Hh. destruct (no_stray_poll honest_source (lists_of honest_source) w 2%nat p Hr Hp (in_hand_polling p 0%nat Hh)) as [[Hcur|(j & o & Hj & _ & Ha)] _]; [|eauto].
  exfalso. assert (Hs : spService <$> rdPollers w !! 2%nat = Some "web") by (vm_compute; reflexivity). rewrite Hp in Hs. injection Hs as Hs.
  rewrite Hs in Hcur. revert Hcur. vm_compute. discriminate.
Defined.

(** ** What modelling showed *)

(** Where a map sends the old host. *)
Definition leads (m : option dynamicRedirectMap) : option string :=
  m ← m; e ← rmHosts m !! "old.example"; URLHost <$> redirectTo e.

Definition after (es : list RedirectEvent) : option Redirector := redirect_run start (first ++ es).

(** Two deployments of one service that overlap: the first ends last, puts the
    list it had read in the place of the one that was fetched since, and nothing
    puts it right, for the next poll sends the newer ETag. *)
Example overlapping_deploys_freeze :
  (λ w, (leads (serving w 0),
         (λ p, (spPhase p, spETag p)) <$> (rmSources (rdManager w) !! "web" ≫= (rdPollers w !!.)),
         bool_decide (rsHosts <$> rmStates (rdManager w) !! "web" = Some (list_of "two.example")), busy w "web")) <$>
  after ([EvDeploy "web" (options "/redirects"); EvDeploy "web" (options "/redirects"); EvManage 3 true; EvLeave 2; EvManage 4 true; EvManage 4 true]
         ++ polled 6 "v2" "two.example" ++ [EvManage 3 true])
  = Some (Some "one.example", Some (Waiting, "v2"), true, false).
Proof. vm_compute. reflexivity. Qed.

(** A removal that overlaps the deployment after it takes the new source away. *)
Example late_removal_evicts :
  (λ w, (rdServices w !! "web", rmSources (rdManager w) !! "web", leads (serving w 4), busy w "web")) <$>
  after ([EvRemove "web"; EvDeploy "web" (options "/redirects"); EvManage 5 true; EvLeave 2; EvManage 5 true] ++ polled 6 "v2" "two.example"
         ++ [EvManage 3 true; EvLeave 6; EvManage 3 true; EvManage 3 true])
  = Some (Some 4%nat, None, None, false).
Proof. vm_compute. reflexivity. Qed.

End DynamicRedirectExamples.
