(* ===== verification/Service.v ===== *)
(** * A service: [internal/server/service.go], the service's side of the cache
    ([service_cache.go]) and of sleeping ([service_idle.go])

    The state of a service, how a deploy builds and rebuilds it from options,
    its two slots of targets, and the record it is saved as.  Reading a
    certificate, a bundle of authorities or a directory of error pages is an
    argument ([HostFiles]); the calls that reach the shared certificate manager
    are part of the result. *)
From S2P Require Import Prelude GoStrings GoRegexp GoURL NetIP Http ServiceMap Target Redirects Rollout.
From S2P Require Import LoadBalancer Retry Deadlines HeaderRules ClientAddr RateLimit BasicAuth.
From S2P Require Import PauseController IdleController ServiceIdle Compression CachePolicy SvcOptions.

(** ** Target options *)

Record HealthCheckConfig := mkHealthCheckConfig {
  hcPath : string;
  hcPort : Z;
  hcInterval : Z;
  hcTimeout : Z;
  hcHost : string }.

Record TgtOptions := mkTgtOptions {
  toHealthCheck : HealthCheckConfig;
  toResponseTimeout : Z;
  toBufferRequests : bool;
  toBufferResponses : bool;
  toMaxMemoryBufferSize : Z;
  toMaxRequestBodySize : Z;
  toMaxResponseBodySize : Z;
  toLogRequestHeaders : list string;
  toLogResponseHeaders : list string;
  toForwardHeaders : bool;
  toScopeCookiePaths : bool;
  toPathResponseTimeouts : list PathTimeout;
  toRequestTimeout : Z;
  toPathRequestTimeouts : list PathTimeout;
  toRequestHeaderRules : HeaderRules;
  toResponseHeaderRules : HeaderRules;
  toPool : TargetOptions }.

(** [TargetOptions.normalizePathTimeouts]. *)
Definition normalizePathTimeouts `{!SortFunc} (o : TgtOptions) : TgtOptions :=
  mkTgtOptions (toHealthCheck o) (toResponseTimeout o) (toBufferRequests o) (toBufferResponses o)
    (toMaxMemoryBufferSize o) (toMaxRequestBodySize o) (toMaxResponseBodySize o) (toLogRequestHeaders o)
    (toLogResponseHeaders o) (toForwardHeaders o) (toScopeCookiePaths o)
    (NormalizePathTimeouts (toPathResponseTimeouts o)) (toRequestTimeout o)
    (NormalizePathTimeouts (toPathRequestTimeouts o)) (toRequestHeaderRules o) (toResponseHeaderRules o)
    (toPool o).

Definition healthPath (o : TgtOptions) : string := hcPath (toHealthCheck o).

(** ** Building *)

Inductive ServiceError :=
| ErrorUnableToLoadCertificate | ErrorAutomaticTLSDoesNotSupportWildcards
| ErrorUnableToLoadClientCA | ErrorUnableToLoadErrorPages | ErrorBadOnDemandURL
| ErrorRule (e : RuleError) | ErrorTarget (e : TargetError) | ErrorRolloutTargetNotSet
| ErrorPausePanics.

(** Which files could be read. *)
Record HostFiles := mkHostFiles {
  hfKeyPair : string → string → bool;       (** [tls.LoadX509KeyPair] *)
  hfClientCAs : string → bool;              (** [loadClientCAs] *)
  hfErrorPages : string → bool }.           (** [template.ParseFS] *)

(** The certificate manager a service answers handshakes with. *)
Inductive CertKind :=
| CertNone
| CertStatic (cert key : string)
| CertSAN
| CertAutocertHosts (hosts : list string)
| CertAutocertOnDemand (endpoint : URL) (local : bool).

(** The calls on the shared manager. *)
Inductive SanCall := SanSetDirectory (service directory : string) | SanRegister (host service : string).

Definition isSAN (c : CertKind) : bool := match c with CertSAN => true | _ => false end.

(** [createHostPolicy]. *)
Definition createHostPolicy (so : SvcOptions) : result ServiceError CertKind :=
  if negb (String.eqb (soTLSOnDemandURL so) "") then
    match parseTLSOnDemandURL (soTLSOnDemandURL so) with
    | Some (e, local) => Ok (CertAutocertOnDemand e local)
    | None => Err ErrorBadOnDemandURL
    end
  else Ok (CertAutocertHosts (soHosts so)).

Definition createCertManager (san : bool) (files : HostFiles) (name : string) (so : SvcOptions)
  : list SanCall * result ServiceError CertKind :=
  let reset := if san then [SanSetDirectory name ""] else [] in
  if negb (soTLSEnabled so) then (reset, Ok CertNone)
  else if negb (String.eqb (soTLSCertificatePath so) "") && negb (String.eqb (soTLSPrivateKeyPath so) "") then
    (reset, if hfKeyPair files (soTLSCertificatePath so) (soTLSPrivateKeyPath so)
            then Ok (CertStatic (soTLSCertificatePath so) (soTLSPrivateKeyPath so))
            else Err ErrorUnableToLoadCertificate)
  else if existsb (λ h, Contains h "*") (soHosts so)
  then (reset, Err ErrorAutomaticTLSDoesNotSupportWildcards)
  else if san && String.eqb (soTLSOnDemandURL so) "" then
    ((reset ++ SanSetDirectory name (soACMEDirectory so) ::
       map (λ h, SanRegister h name) (List.filter (λ h, negb (String.eqb h "")) (soHosts so)))%list,
     Ok CertSAN)
  else (reset, createHostPolicy so).

Definition createClientCAs (files : HostFiles) (so : SvcOptions) : result ServiceError (option string) :=
  if String.eqb (soTLSClientCACertificatePath so) "" then Ok None
  else if hfClientCAs files (soTLSClientCACertificatePath so)
       then Ok (Some (soTLSClientCACertificatePath so)) else Err ErrorUnableToLoadClientCA.

(** The middlewares around the pipeline, innermost first. *)
Inductive Layer :=
| LayerDeadline (timeout : Z) (paths : list PathTimeout)
| LayerIntercept (statuses : list Z)
| LayerErrorPages (path : string)
| LayerCompression (co : CompressionOptions)
| LayerCert (c : CertKind)
| LayerClientIP (header : string).

Definition createMiddleware (files : HostFiles) (so : SvcOptions) (to : TgtOptions) (cert : CertKind)
  : result ServiceError (list Layer) :=
  let deadline := if (0 <? toRequestTimeout to) || negb (Nat.eqb (length (toPathRequestTimeouts to)) 0)
                  then [LayerDeadline (toRequestTimeout to) (toPathRequestTimeouts to)] else [] in
  let intercept := match soInterceptErrorStatuses so with [] => [] | l => [LayerIntercept l] end in
  pages ← (if String.eqb (soErrorPagePath so) "" then Ok []
           else if hfErrorPages files (soErrorPagePath so)
                then Ok [LayerErrorPages (soErrorPagePath so)] else Err ErrorUnableToLoadErrorPages);
  let compress := if CompressionEnabled (soCompression so) then [LayerCompression (soCompression so)] else [] in
  let acme := match cert with CertNone => [] | c => [LayerCert c] end in
  let client := if String.eqb (soClientIPHeader so) "" then [] else [LayerClientIP (soClientIPHeader so)] in
  Ok (deadline ++ intercept ++ pages ++ compress ++ acme ++ client)%list.

Section service.
Context `{!SortFunc, !Regexp, !RateLimiter}.

(** ** State *)

(** The gates a request passes, as the options resolve. *)
Record Gates := mkGates {
  gDeny : option denyList;
  gAllow : option ipAllowList;
  gRate : option rateLimiter;
  gAuth : option basicAuthCredential;
  gRedirects : option (list compiledPathRule);
  gRewrites : option (list compiledPathRule) }.

Record Svc := mkSvc {
  svName : string;
  svOptions : SvcOptions;
  svTargetOptions : TgtOptions;
  svActive : option LoadBalancer;
  svRollout : option LoadBalancer;
  svPause : PauseController;
  svRolloutController : option RolloutController;
  svSAN : bool;
  svCert : CertKind;
  svClientCAs : option string;
  svMiddleware : list Layer;
  svGates : Gates;
  svDynamicRedirects : option dynamicRedirectMap;
  svCacheStore : bool;
  svCacheHandler : bool;              (** the cache stands before the targets *)
  svLifecycle : bool;
  svIdle : option IdleController;
  svRestoredIdle : IdleState }.

Definition with_lbs (active rollout : option LoadBalancer) (s : Svc) : Svc :=
  mkSvc (svName s) (svOptions s) (svTargetOptions s) active rollout (svPause s) (svRolloutController s)
    (svSAN s) (svCert s) (svClientCAs s) (svMiddleware s) (svGates s) (svDynamicRedirects s) (svCacheStore s)
    (svCacheHandler s) (svLifecycle s) (svIdle s) (svRestoredIdle s).
Definition with_pause (p : PauseController) (s : Svc) : Svc :=
  mkSvc (svName s) (svOptions s) (svTargetOptions s) (svActive s) (svRollout s) p (svRolloutController s)
    (svSAN s) (svCert s) (svClientCAs s) (svMiddleware s) (svGates s) (svDynamicRedirects s) (svCacheStore s)
    (svCacheHandler s) (svLifecycle s) (svIdle s) (svRestoredIdle s).
Definition with_rollout_controller (rc : option RolloutController) (s : Svc) : Svc :=
  mkSvc (svName s) (svOptions s) (svTargetOptions s) (svActive s) (svRollout s) (svPause s) rc
    (svSAN s) (svCert s) (svClientCAs s) (svMiddleware s) (svGates s) (svDynamicRedirects s) (svCacheStore s)
    (svCacheHandler s) (svLifecycle s) (svIdle s) (svRestoredIdle s).
Definition with_gates (g : Gates) (s : Svc) : Svc :=
  mkSvc (svName s) (svOptions s) (svTargetOptions s) (svActive s) (svRollout s) (svPause s)
    (svRolloutController s) (svSAN s) (svCert s) (svClientCAs s) (svMiddleware s) g (svDynamicRedirects s)
    (svCacheStore s) (svCacheHandler s) (svLifecycle s) (svIdle s) (svRestoredIdle s).
Definition with_dynamic (m : option dynamicRedirectMap) (s : Svc) : Svc :=
  mkSvc (svName s) (svOptions s) (svTargetOptions s) (svActive s) (svRollout s) (svPause s)
    (svRolloutController s) (svSAN s) (svCert s) (svClientCAs s) (svMiddleware s) (svGates s) m
    (svCacheStore s) (svCacheHandler s) (svLifecycle s) (svIdle s) (svRestoredIdle s).
Definition with_cache (store handler : bool) (s : Svc) : Svc :=
  mkSvc (svName s) (svOptions s) (svTargetOptions s) (svActive s) (svRollout s) (svPause s)
    (svRolloutController s) (svSAN s) (svCert s) (svClientCAs s) (svMiddleware s) (svGates s)
    (svDynamicRedirects s) store handler (svLifecycle s) (svIdle s) (svRestoredIdle s).
Definition with_idle (lc : bool) (c : option IdleController) (s : Svc) : Svc :=
  mkSvc (svName s) (svOptions s) (svTargetOptions s) (svActive s) (svRollout s) (svPause s)
    (svRolloutController s) (svSAN s) (svCert s) (svClientCAs s) (svMiddleware s) (svGates s)
    (svDynamicRedirects s) (svCacheStore s) (svCacheHandler s) lc c (svRestoredIdle s).
Definition with_tls_options (o : SvcOptions) (s : Svc) : Svc :=
  mkSvc (svName s) o (svTargetOptions s) (svActive s) (svRollout s) (svPause s)
    (svRolloutController s) (svSAN s) (svCert s) (svClientCAs s) (svMiddleware s) (svGates s)
    (svDynamicRedirects s) (svCacheStore s) (svCacheHandler s) (svLifecycle s) (svIdle s) (svRestoredIdle s).

(** ** Sleeping *)

(** [Target.ContainerRef]: [net.ParseIP] knows no zones. *)
Definition ContainerRef (t : Target) : option string :=
  let host := Hostname (mkURL "http" "" None (address t) "" "" false "" "") in
  if String.eqb host "" then None
  else match ParseAddr host with
       | Some (Addr6 _ z) => if String.eqb z "" then None else Some host
       | Some _ => None
       | None => Some host
       end.

Definition WriteTargets (lb : LoadBalancer) : list Target := targetsMatchingReadonly false (all lb).
Definition ReadTargets (lb : LoadBalancer) : list Target := targetsMatchingReadonly true (all lb).

(** The two slots, the empty ones left out. *)
Definition slots (s : Svc) : list LoadBalancer := omap id [svActive s; svRollout s].

Definition add_ref (refs : list string) (t : Target) : list string :=
  match ContainerRef t with
  | Some ref => if str_contains refs ref then refs else (refs ++ [ref])%list
  | None => refs
  end.

Definition containerRefs (s : Svc) (so : SvcOptions) : list string :=
  if negb (Nat.eqb (length (soSleepContainers so)) 0) then soSleepContainers so
  else foldl add_ref [] (lb ← slots s; WriteTargets lb).

(** [Service.configureIdleController]. *)
Definition configureIdle (now : Z) (so : SvcOptions) (s : Svc) : Svc :=
  with_idle (svLifecycle s)
    (configureIdleController now (svLifecycle s) (svRestoredIdle s) (soSleepAfter so) (soWakeTimeout so)
       (containerRefs s so) (svIdle s)) s.

Definition suspendForSleep (s : Svc) : Svc :=
  with_lbs (SuspendForSleep <$> svActive s) (SuspendForSleep <$> svRollout s) s.

(** [resumeFromSleep], up to the wait for the active pool. *)
Definition resumeFromSleep (s : Svc) : Svc :=
  with_lbs (ResumeFromSleep <$> svActive s) (ResumeFromSleep <$> svRollout s) s.

Definition SetContainerLifecycle (now : Z) (lc : bool) (s : Svc) : Svc :=
  let s := configureIdle now (svOptions s) (with_idle lc (svIdle s) s) in
  match svIdle s with
  | Some c => if bool_decide (icState c = IdleStateSleeping) then suspendForSleep s else s
  | None => s
  end.

(** ** Options *)

Definition resolveGates (now : Z) (so : SvcOptions) : result ServiceError Gates :=
  match resolvePathRules (soRedirects so) (soRewrites so) with
  | Err e => Err (ErrorRule e)
  | Ok (redirects, rewrites) =>
      Ok (mkGates
            (resolveDenyList (soDenyIPs so) (soDenyUserAgents so) (soTrustedProxies so) (soClientIPHeader so) now)
            (resolveIPAllowList (soAllowIPs so) (soTrustedProxies so) (soClientIPHeader so) now)
            (resolveRateLimiter (soRateLimit so) (soRateLimitBurst so) (soRateLimitExempt so)
               (soTrustedProxies so) (soClientIPHeader so) now)
            (resolveBasicAuth (soBasicAuth so)) redirects rewrites)
  end.

(** [initialize]: everything that can fail is built before anything is
    assigned. *)
Definition initialize (now : Z) (files : HostFiles) (so : SvcOptions) (to0 : TgtOptions) (s : Svc)
  : list SanCall * result ServiceError Svc :=
  let to := normalizePathTimeouts to0 in
  let '(calls, cert) := createCertManager (svSAN s) files (svName s) so in
  (calls,
   cert ← cert;
   cas ← createClientCAs files so;
   layers ← createMiddleware files so to cert;
   gates ← resolveGates now so;
   let s' := mkSvc (svName s) so to (svActive s) (svRollout s) (svPause s) (svRolloutController s)
     (svSAN s) cert cas layers gates
     (if String.eqb (soRedirectsSource so) "" then None else svDynamicRedirects s)
     (svCacheStore s) (Enabled (soCache so)) (svLifecycle s) (svIdle s) (svRestoredIdle s) in
   Ok (configureIdle now so s')).

(** The zero service a new one starts from. *)
Definition blankService (name : string) (so : SvcOptions) (to : TgtOptions) (san : bool) : Svc :=
  mkSvc name so to None None NewPauseController None san CertNone None []
    (mkGates None None None None None None) None false false false None IdleStateActive.

Definition NewService (now : Z) (files : HostFiles) (name : string) (so : SvcOptions) (to : TgtOptions)
    (san : bool) : list SanCall * result ServiceError Svc :=
  initialize now files so to (blankService name so to san).

Definition UpdateOptions (now : Z) (files : HostFiles) (so : SvcOptions) (to : TgtOptions) (s : Svc)
  : list SanCall * result ServiceError Svc := initialize now files so to s.

(** [SetSANCertManager]: a service that cannot be rebuilt keeps what it had. *)
Definition SetSANCertManager (now : Z) (files : HostFiles) (s : Svc) : list SanCall * Svc :=
  let s := mkSvc (svName s) (svOptions s) (svTargetOptions s) (svActive s) (svRollout s) (svPause s)
    (svRolloutController s) true (svCert s) (svClientCAs s) (svMiddleware s) (svGates s) (svDynamicRedirects s)
    (svCacheStore s) (svCacheHandler s) (svLifecycle s) (svIdle s) (svRestoredIdle s) in
  if soTLSEnabled (svOptions s) && String.eqb (soTLSCertificatePath (svOptions s)) "" then
    let '(calls, r) := initialize now files (svOptions s) (svTargetOptions s) s in
    (calls, match r with Ok s' => s' | Err _ => s end)
  else ([], s).

Definition SetDynamicRedirects (m : option dynamicRedirectMap) (s : Svc) : Svc := with_dynamic m s.

(** [SetCacheStore]: the handler is rebuilt around the store. *)
Definition SetCacheStore (store : bool) (s : Svc) : Svc :=
  with_cache store (Enabled (soCache (svOptions s))) s.

(** ** Slots *)

Inductive TargetSlot := TargetSlotActive | TargetSlotRollout.

(** [UpdateLoadBalancer]: the service and the load balancer replaced. *)
Definition UpdateLoadBalancer (now : Z) (lb : LoadBalancer) (slot : TargetSlot) (s : Svc)
  : Svc * option LoadBalancer :=
  let '(replaced, s') :=
    match slot with
    | TargetSlotRollout => (svRollout s, with_lbs (svActive s) (Some lb) s)
    | TargetSlotActive => (svActive s, with_lbs (Some lb) (svRollout s) s)
    end in
  (configureIdle now (svOptions s') s', replaced).

Definition SetRolloutSplit (percentage : Z) (allowlist : list string) (s : Svc) : result ServiceError Svc :=
  match svRollout s with
  | None => Err ErrorRolloutTargetNotSet
  | Some _ => Ok (with_rollout_controller (Some (NewRolloutController percentage allowlist)) s)
  end.

Definition StopRollout (s : Svc) : Svc := with_rollout_controller None s.

Definition usesRollout (s : Svc) (r : Request) : bool :=
  match svRollout s, svRolloutController s with
  | Some _, Some rc => RequestUsesRolloutGroup rc r
  | _, _ => false
  end.

Definition slotForRequest (s : Svc) (r : Request) : TargetSlot :=
  if usesRollout s r then TargetSlotRollout else TargetSlotActive.

Definition slotLB (s : Svc) (slot : TargetSlot) : option LoadBalancer :=
  match slot with TargetSlotActive => svActive s | TargetSlotRollout => svRollout s end.

(** [loadBalancerForRequest]. *)
Definition loadBalancerForRequest (s : Svc) (r : Request) : option LoadBalancer :=
  slotLB s (slotForRequest s r).

Definition cacheVariant (s : Svc) (r : Request) : string :=
  if usesRollout s r then "rollout" else "".

(** ** Lifetime *)

(** [Dispose]: the probes of both slots and the idle timer stop. *)
Definition DisposeService (s : Svc) : Svc :=
  with_idle (svLifecycle s) (CloseIdle <$> svIdle s)
    (with_lbs (Dispose <$> svActive s) (Dispose <$> svRollout s) s).

Definition RecheckTargetHealth (s : Svc) : Svc :=
  with_lbs (RecheckHealth <$> svActive s) (RecheckHealth <$> svRollout s) s.

(** [Stop], [Pause] and [Resume], before the drain that follows the first two;
    closing a closed channel is the panic it is in Go. *)
Definition StopService (message : string) (s : Svc) : result ServiceError Svc :=
  match Stop message (svPause s) with Some p => Ok (with_pause p s) | None => Err ErrorPausePanics end.
Definition PauseService (failAfter : Z) (s : Svc) : result ServiceError Svc :=
  match Pause failAfter (svPause s) with Some p => Ok (with_pause p s) | None => Err ErrorPausePanics end.
Definition ResumeService (s : Svc) : result ServiceError Svc :=
  match Resume (svPause s) with Some p => Ok (with_pause p s) | None => Err ErrorPausePanics end.

Definition allTargets (s : Svc) : list Target := lb ← slots s; all lb.

Definition describeServiceState (s : Svc) : string :=
  match pcState (svPause s) with
  | PauseStatePaused => "paused"
  | PauseStateStopped => "stopped"
  | PauseStateRunning =>
      match svIdle s with
      | Some c => if bool_decide (icState c = IdleStateActive) then "running" else IdleState_String (icState c)
      | None => "running"
      end
  end.

End service.
