(* ===== verification/ServiceState.v ===== *)
(** * The saved form of a service: [MarshalJSON] and [UnmarshalJSON] of
    [internal/server/service.go]

    The document of a service is the record of its fields; the text
    [encoding/json] makes of it is not modelled. *)
From S2P Require Import Prelude GoStrings GoFloat GoRegexp Http ServiceMap Target Redirects Rollout LoadBalancer Deadlines.
From S2P Require Import RateLimit PauseController IdleController ServiceIdle Compression CachePolicy SvcOptions Service.

(** The JSON of a pause controller. *)
Record marshalledPause := mkMarshalledPause { mpState : PauseState; mpMessage : string; mpFailAfter : Z }.

Definition marshalPause (p : PauseController) : marshalledPause :=
  mkMarshalledPause (pcState p) (pcStopMessage p) (pcFailAfter p).

Record marshalledService := mkMarshalled {
  msName : string;
  msIdleState : string;
  msOptions : SvcOptions;
  msTargetOptions : TgtOptions;
  msActiveTargets : list string;
  msActiveReaders : list string;
  msRolloutTargets : list string;
  msRolloutReaders : list string;
  msPause : marshalledPause;
  msRolloutController : option RolloutController;
  msLegacyActiveTarget : string;
  msLegacyRolloutTarget : string;
  msLegacyHosts : list string;
  msLegacyPathPrefixes : list string }.

Definition with_hosts (hosts prefixes : list string) (so : SvcOptions) : SvcOptions :=
  mkSvcOptions hosts prefixes
    (soTLSEnabled so) (soTLSCertificatePath so) (soTLSPrivateKeyPath so) (soTLSOnDemandURL so)
    (soTLSRedirect so) (soCanonicalHost so) (soACMEDirectory so) (soACMECachePath so) (soErrorPagePath so)
    (soStripPrefix so) (soWriterAffinityTimeout so) (soReadTargetsAcceptWebsockets so)
    (soExcludeMetricsPaths so) (soClientIPHeader so) (soTLSClientCACertificatePath so)
    (soTLSDomainsSource so) (soTLSDomainsInterval so) (soTLSDomainsBatchSize so)
    (soInterceptErrorStatuses so) (soTargetTryDuration so) (soTargetTryInterval so)
    (soSessionAffinity so) (soSessionAffinityCookieName so) (soBasicAuth so) (soAllowIPs so) (soDenyIPs so)
    (soDenyUserAgents so) (soTrustedProxies so) (soRateLimit so) (soRateLimitBurst so)
    (soRateLimitExempt so) (soRedirects so) (soRewrites so) (soRedirectsSource so) (soRedirectsInterval so)
    (soSleepAfter so) (soWakeTimeout so) (soSleepContainers so) (soCompression so) (soCache so).

Section state.
Context `{!SortFunc, !Regexp, !RateLimiter}.

(** [MarshalJSON]; [None] is the panic of a service that never had targets. *)
Definition MarshalService (s : Svc) : option marshalledService :=
  active ← svActive s;
  Some (mkMarshalled (svName s)
    (IdleState_String (match svIdle s with Some c => icState c | None => IdleStateActive end))
    (svOptions s) (svTargetOptions s)
    (Specs (WriteTargets active)) (Specs (ReadTargets active))
    (match svRollout s with Some lb => Specs (WriteTargets lb) | None => [] end)
    (match svRollout s with Some lb => Specs (ReadTargets lb) | None => [] end)
    (marshalPause (svPause s)) (svRolloutController s) "" "" [] []).

(** The load balancer of restored targets. *)
Definition restoredLB (digest : string → string) (so : SvcOptions) (ts : list Target) : LoadBalancer :=
  MarkAllHealthy (WithSessionAffinity digest (soSessionAffinity so) (soSessionAffinityCookieName so)
    (NewLoadBalancer ts (soWriterAffinityTimeout so) (soReadTargetsAcceptWebsockets so))).

(** What state files of earlier versions say in other fields. *)
Definition legacyTargets (targets : list string) (legacy : string) : list string :=
  match targets with
  | [] => if String.eqb legacy "" then [] else [legacy]
  | l => l
  end.

Definition legacyList (values legacy : list string) : list string :=
  match values with [] => legacy | l => l end.

Definition restoredOptions (ms : marshalledService) : SvcOptions :=
  NormalizeOptions
    (with_hosts (legacyList (soHosts (msOptions ms)) (msLegacyHosts ms))
       (legacyList (soPathPrefixes (msOptions ms)) (msLegacyPathPrefixes ms)) (msOptions ms)).

Definition targetList (urls readers : list string) : result ServiceError (list Target) :=
  match NewTargetList urls readers with Ok ts => Ok ts | Err e => Err (ErrorTarget e) end.

(** [UnmarshalJSON] into a fresh service. *)
Definition UnmarshalService (now : Z) (files : HostFiles) (digest : string → string) (ms : marshalledService)
  : list SanCall * result ServiceError Svc :=
  let so := restoredOptions ms in
  let built :=
    p ← match UnmarshalJSON (mpState (msPause ms)) (mpMessage (msPause ms)) (mpFailAfter (msPause ms)) with
        | Some p => Ok p
        | None => Err ErrorPausePanics
        end;
    active ← targetList (legacyTargets (msActiveTargets ms) (msLegacyActiveTarget ms)) (msActiveReaders ms);
    rollout ← targetList (legacyTargets (msRolloutTargets ms) (msLegacyRolloutTarget ms)) (msRolloutReaders ms);
    let s := blankService (msName ms) so (msTargetOptions ms) false in
    Ok (mkSvc (msName ms) so (msTargetOptions ms) (Some (restoredLB digest so active))
          (match rollout with [] => None | _ => Some (restoredLB digest so rollout) end) p
          (msRolloutController ms) false CertNone None [] (svGates s) None false false false None
          (ParseIdleState (msIdleState ms))) in
  match built with
  | Err e => ([], Err e)
  | Ok s => initialize now files so (msTargetOptions ms) s
  end.

(** ** Lemmas *)

Lemma Specs_identity b ts us :
  LB.same_targets ts us → Specs (targetsMatchingReadonly b ts) = Specs (targetsMatchingReadonly b us).
Proof.
  unfold LB.same_targets. revert us. induction ts as [|t ts IH]; intros [|u us] Hid; cbn in Hid; try done.
  injection Hid as Ha Hr Hw Hid. specialize (IH us Hid). unfold Specs, targetsMatchingReadonly in *. cbn.
  rewrite Hr. destruct (Bool.eqb (readonly u) b); cbn; [|done]. f_equal; [|done].
  unfold Spec. by rewrite Ha, Hw.
Qed.

Lemma UnmarshalPause_ok s message failAfter :
  ∃ p, UnmarshalJSON s message failAfter = Some p ∧
    pcState p = s ∧ pcFailAfter p = failAfter ∧ (s = PauseStateStopped → pcStopMessage p = message).
Proof. destruct s; cbn; eexists; (split; [reflexivity|]); (split; [done|]); split; done. Qed.

Lemma legacyTargets_nil l : legacyTargets l "" = l.
Proof. by destruct l. Qed.

Lemma legacyList_nil l : legacyList l [] = l.
Proof. by destruct l. Qed.

Lemma with_hosts_id so : with_hosts (soHosts so) (soPathPrefixes so) so = so.
Proof. by destruct so. Qed.

(** What [initialize] leaves alone. *)
Lemma initialize_keeps now files so to s calls s' :
  initialize now files so to s = (calls, Ok s') →
  svName s' = svName s ∧ svOptions s' = so ∧ svTargetOptions s' = normalizePathTimeouts to ∧
  svActive s' = svActive s ∧ svRollout s' = svRollout s ∧ svPause s' = svPause s ∧
  svRolloutController s' = svRolloutController s ∧ svLifecycle s' = svLifecycle s ∧
  svRestoredIdle s' = svRestoredIdle s ∧ svSAN s' = svSAN s.
Proof.
  unfold initialize. destruct (createCertManager _ _ _ _) as [c cert]. intros [= _ Hs].
  apply result_bind_ok in Hs as (k & _ & Hs). apply result_bind_ok in Hs as (cas & _ & Hs).
  apply result_bind_ok in Hs as (layers & _ & Hs). apply result_bind_ok in Hs as (g & _ & [= <-]).
  cbn. done.
Qed.

(** Whether the parts of a service can be built depends on the options, the
    host's files and the name only. *)
Lemma initialize_succeeds now files so to s0 s calls s1 :
  svName s = svName s0 → svSAN s = svSAN s0 →
  initialize now files so to s0 = (calls, Ok s1) → ∃ s', initialize now files so to s = (calls, Ok s').
Proof.
  unfold initialize. intros -> ->. destruct (createCertManager _ _ _ _) as [c cert]. intros [= <- Hs].
  apply result_bind_ok in Hs as (k & -> & Hs). apply result_bind_ok in Hs as (cas & -> & Hs). cbn.
  apply result_bind_ok in Hs as (layers & -> & Hs). apply result_bind_ok in Hs as (g & -> & _). cbn. eauto.
Qed.

(** ** Theorem *)

(** The targets of a service, which were made from lists the operator gave. *)
Record saved (s : Svc) (active rollout : list Target) : Prop := {
  sv_active : ∃ lb us rs, svActive s = Some lb ∧ NewTargetList us rs = Ok active ∧ LB.same_targets active (all lb);
  sv_rollout : match svRollout s with
               | None => rollout = []
               | Some lb => rollout ≠ [] ∧ LB.same_targets rollout (all lb) ∧
                   ∃ us rs, NewTargetList us rs = Ok rollout
               end }.

(** A restart loses nothing that was deployed.  Where the service's
    options can still be built on this host, the document it is saved as reads
    back: under the same name, with the same options (normalized once more)
    and rollout split, paused or stopped (with its message) as before, with the same targets, readers
    and weights in both slots, all of them taken for healthy, and asleep
    exactly if it was not awake. *)
Theorem service_state_roundtrip now files digest s active rollout calls s1 :
  saved s active rollout →
  let so := NormalizeOptions (svOptions s) in
  initialize now files so (svTargetOptions s) (blankService (svName s) so (svTargetOptions s) false) =
    (calls, Ok s1) →
  ∃ ms s', MarshalService s = Some ms ∧ UnmarshalService now files digest ms = (calls, Ok s') ∧
    svName s' = svName s ∧ svOptions s' = so ∧
    svTargetOptions s' = normalizePathTimeouts (svTargetOptions s) ∧
    svActive s' = Some (restoredLB digest so active) ∧
    svRollout s' = (if bool_decide (rollout = []) then None
                    else Some (restoredLB digest so rollout)) ∧
    svRolloutController s' = svRolloutController s ∧
    pcState (svPause s') = pcState (svPause s) ∧
    (pcState (svPause s) = PauseStateStopped → pcStopMessage (svPause s') = pcStopMessage (svPause s)) ∧
    (svRestoredIdle s' = IdleStateSleeping ↔
       ∃ c, svIdle s = Some c ∧ icState c ≠ IdleStateActive).
Proof.
  intros [(lb & us & rs & Hact & Hts & Hid) Hroll] so Hinit.
  unfold MarshalService. rewrite Hact. cbn [mbind option_bind].
  match goal with |- ∃ _ _, Some ?m = _ ∧ _ => exists m end. unfold UnmarshalService.
  destruct (UnmarshalPause_ok (pcState (svPause s)) (pcStopMessage (svPause s)) (pcFailAfter (svPause s)))
    as (p & Hp & Hpst & _ & Hpm).
  assert (Hro : targetList
      (match svRollout s with Some lb => Specs (WriteTargets lb) | None => [] end)
      (match svRollout s with Some lb => Specs (ReadTargets lb) | None => [] end) = Ok rollout).
  { unfold targetList, WriteTargets, ReadTargets. destruct (svRollout s) as [lb'|].
    - destruct Hroll as (_ & Hsame & us' & rs' & Hnew).
      rewrite <- !(Specs_identity _ _ _ Hsame). by rewrite (target_specs_roundtrip us' rs' rollout Hnew).
    - by subst rollout. }
  assert (Hac : targetList (Specs (WriteTargets lb)) (Specs (ReadTargets lb)) = Ok active).
  { unfold targetList, WriteTargets, ReadTargets. rewrite <- !(Specs_identity _ _ _ Hid).
    by rewrite (target_specs_roundtrip us rs active Hts). }
  cbn [msName msOptions msTargetOptions msActiveTargets msActiveReaders msRolloutTargets msRolloutReaders
       msPause msRolloutController msLegacyActiveTarget msLegacyRolloutTarget msIdleState marshalPause
       mpState mpMessage mpFailAfter].
  rewrite !legacyTargets_nil, Hp, Hac, Hro. cbn [mbind result_bind].
  unfold restoredOptions. cbn [msOptions msLegacyHosts msLegacyPathPrefixes].
  rewrite !legacyList_nil, with_hosts_id. fold so.
  match goal with |- context [initialize now files so (svTargetOptions s) ?x] =>
    destruct (initialize_succeeds now files so (svTargetOptions s)
      (blankService (svName s) so (svTargetOptions s) false) x calls s1 eq_refl eq_refl Hinit)
      as [s' Hs'] end.
  exists s'. split; [reflexivity|]. split; [exact Hs'|].
  apply initialize_keeps in Hs' as (-> & -> & -> & -> & -> & -> & -> & _ & -> & _). cbn.
  split; [done|]. split; [done|]. split; [done|]. split; [done|]. split.
  { destruct rollout; [by rewrite bool_decide_true|by rewrite bool_decide_false]. }
  split; [done|]. split; [done|]. split; [by intros; apply Hpm|].
  destruct (svIdle s) as [c|]; [|cbn; split; [done|by intros (c & ? & _)]].
  destruct (icState c) eqn:Hc; cbn; split; try done; intros; try (exists c; by rewrite Hc).
  destruct_and?. naive_solver.
Qed.

End state.

Module ServiceStateExamples.

#[local] Existing Instance literal_regexp.
#[local] Existing Instance RateLimitExamples.exact_limiter.
#[local] Existing Instance insertion_SortFunc.

Definition plain_options : SvcOptions :=
  NormalizeOptions SvcOptionsExamples.fenced.

Definition plain_targets : TgtOptions :=
  mkTgtOptions (mkHealthCheckConfig "/up" 0 second (5 * second) "") (30 * second) false false 0 0 0 [] [] false
    false [] 0 [] (HeaderRules.mkHeaderRules [] [] []) (HeaderRules.mkHeaderRules [] [] [])
    (mkTargetOptions 0 0 0 0 false "/up").

Definition no_files : HostFiles := mkHostFiles (λ _ _, false) (λ _, false) (λ _, false).

Definition digest (a : string) : string := "id-" +:+ a.

Definition pool : list Target :=
  [mkTarget "web-1:3000" false 3 0 TargetStateAdding ∅ false;
   mkTarget "replica:3000" true 1 0 TargetStateAdding ∅ false].

Definition deployed (s : Svc) : Svc :=
  match StopService "back soon" (UpdateLoadBalancer 0 (NewLoadBalancer pool 0 false) TargetSlotActive s).1 with
  | Ok s => s
  | Err _ => s
  end.

Definition app : Svc := deployed (blankService "app" plain_options plain_targets false).

Lemma app_saved : saved app pool [].
Proof.
  split; [|reflexivity].
  exists (NewLoadBalancer pool 0 false), ["web-1:3000;weight=3"], ["replica:3000"].
  split; [reflexivity|]. split; vm_compute; reflexivity.
Qed.

Definition app_built : list SanCall * result ServiceError Svc :=
  initialize 0 no_files (NormalizeOptions (svOptions app)) (svTargetOptions app)
    (blankService (svName app) (NormalizeOptions (svOptions app)) (svTargetOptions app) false).

Lemma service_state_roundtrip_witness :
  ∃ ms s', MarshalService app = Some ms ∧ (UnmarshalService 0 no_files digest ms).2 = Ok s' ∧
    pcState (svPause s') = PauseStateStopped ∧ pcStopMessage (svPause s') = "back soon".
Proof.
  destruct app_built as [calls [s1|e]] eqn:Hb.
  - destruct (service_state_roundtrip 0 no_files digest app pool [] calls s1 app_saved Hb)
      as (ms & s' & Hm & Hu & _ & _ & _ & _ & _ & _ & Hst & Hmsg & _).
    exists ms, s'. split; [exact Hm|]. split; [by rewrite Hu|]. rewrite Hst. split; [reflexivity|].
    by apply Hmsg.
  - exfalso. assert (Hok : match app_built.2 with Ok _ => true | Err _ => false end = true)
      by (vm_compute; reflexivity). by rewrite Hb in Hok.
Defined.

End ServiceStateExamples.
