(* ===== verification/Pipeline.v ===== *)
(** * A request at a service: [serviceRequestWithTarget] and the handlers it
    calls ([internal/server/service.go]), [sendRequestToTarget]
    ([service_cache.go]), the on-demand probe ([tls_on_demand.go])

    The gates of a service in the order the code puts them.  A gate reads the
    clock when it runs ([Instants]); how long a paused service held the request
    and what released it is an argument. *)
From S2P Require Import Prelude GoStrings GoRegexp GoURL NetIP Http ServiceMap Target Redirects Rollout LoadBalancer.
From S2P Require Import TokenBucket ClientAddr RateLimit BasicAuth PauseController IdleController ServiceIdle.
From S2P Require Import SvcOptions Service ServiceState.

(** What the service itself answers with. *)
Inductive Reply :=
| ReplyError (status : Z) (message : string) (retryAfter : option Z) (challenge : bool)
| ReplyRedirect (location : string) (status : Z)
| ReplyOK.

Inductive Verdict := Answered (reply : Reply) | ToCache (r : Request).

Record Instants := mkInstants { atDeny : Z; atAllow : Z; atRate : Z }.

Definition StatusServiceUnavailable : Z := 503.
Definition StatusGatewayTimeout : Z := 504.
Definition StatusTooManyRequests : Z := 429.
Definition StatusUnauthorized : Z := 401.

Definition isTLSOnDemandApproval (status : Z) : bool := (200 <=? status) && (status <? 300).

Definition replyStatus (reply : Reply) : Z :=
  match reply with
  | ReplyError status _ _ _ => status
  | ReplyRedirect _ status => status
  | ReplyOK => 200
  end.

Section pipeline.
Context `{!SortFunc, !Regexp, !RateLimiter} (sha256 : string → string).

(** [handlePausedAndStoppedRequests]; [wait] is what [pauseController.Wait]
    returns. *)
Definition handlePausedAndStoppedRequests (hc : string) (p : PauseController)
    (wait : PauseWaitAction * string) (r : Request) : option Reply :=
  if negb (bool_decide (pcState p = PauseStateRunning)) && IsHealthCheckRequest hc r then Some ReplyOK
  else match wait with
       | (PauseWaitActionStopped, message) => Some (ReplyError StatusServiceUnavailable message None false)
       | (PauseWaitActionTimedOut, _) => Some (ReplyError StatusGatewayTimeout "" None false)
       | (PauseWaitActionProceed, _) => None
       end.

Definition redirectOptionsOf (so : SvcOptions) : redirectOptions :=
  mkRedirectOptions (soTLSEnabled so) (soTLSRedirect so) (soCanonicalHost so).

(** [handleRedirectsIfNeeded]. *)
Definition handleRedirectsIfNeeded (s : Svc) (r : Request) : option Reply :=
  match redirectURLIfNeeded (redirectOptionsOf (svOptions s)) (svDynamicRedirects s)
          (gRedirects (svGates s)) r with
  | Some (location, status) =>
      if String.eqb location "" then None else Some (ReplyRedirect location status)
  | None => None
  end.

Definition with_deny (l : option denyList) (g : Gates) : Gates :=
  mkGates l (gAllow g) (gRate g) (gAuth g) (gRedirects g) (gRewrites g).
Definition with_allow (l : option ipAllowList) (g : Gates) : Gates :=
  mkGates (gDeny g) l (gRate g) (gAuth g) (gRedirects g) (gRewrites g).
Definition with_rate (l : option rateLimiter) (g : Gates) : Gates :=
  mkGates (gDeny g) (gAllow g) l (gAuth g) (gRedirects g) (gRewrites g).

Definition serviceRequestWithTarget (t : Instants) (wait : PauseWaitAction * string) (s : Svc) (r : Request)
  : Svc * Verdict :=
  let hc := healthPath (svTargetOptions s) in
  let '(deny, refused) := rejectDenied hc (atDeny t) (gDeny (svGates s)) r in
  let s := with_gates (with_deny deny (svGates s)) s in
  match refused with
  | Some status => (s, Answered (ReplyError status "" None false))
  | None =>
  let '(allowed, refused) := rejectDisallowedIP hc (atAllow t) (gAllow (svGates s)) r in
  let s := with_gates (with_allow allowed (svGates s)) s in
  match refused with
  | Some status => (s, Answered (ReplyError status "" None false))
  | None =>
  if negb (soTLSEnabled (svOptions s)) && IsTLS r
  then (s, Answered (ReplyError StatusServiceUnavailable "" None false))
  else
  match handleRedirectsIfNeeded s r with
  | Some reply => (s, Answered reply)
  | None =>
  let '(limiter, throttled) := rejectRateLimited hc (atRate t) (gRate (svGates s)) r in
  let s := with_gates (with_rate limiter (svGates s)) s in
  match throttled with
  | Some after => (s, Answered (ReplyError StatusTooManyRequests "" (Some after) false))
  | None =>
  let '(r, challenged) := rejectUnauthenticated sha256 hc (gAuth (svGates s)) r in
  if challenged then (s, Answered (ReplyError StatusUnauthorized "" None true))
  else
  match handlePausedAndStoppedRequests hc (svPause s) wait r with
  | Some reply => (s, Answered reply)
  | None => (s, ToCache (rewriteRequest (gRewrites (svGates s)) r))
  end end end end end.

(** ** Past the cache *)

Inductive Sent :=
| SentReply (status : Z) (retryAfter : bool)
| SentNothing                         (** the client hung up *)
| SentWaiting                         (** not decided by the rounds given *)
| SentTo (slot : TargetSlot) (f : Forward) (release : bool)
| SentUnavailable                     (** no target: the load balancer answers 503 *)
| SentPanic.                          (** a service without a load balancer *)

(** [sendRequestToTarget]: the idle gate, met as in [handleIdleRequest], then
    the load balancer of the slot.  [start] and [now] are the clock at the two,
    [req] identifies the request. *)
Definition sendRequestToTarget (start : Z) (rounds : list Round) (now : Z) (req : nat) (s : Svc) (r : Request)
  : Svc * Sent :=
  let hc := healthPath (svTargetOptions s) in
  match (handleIdleRequest hc start r (svIdle s) rounds).2 with
  | None => (s, SentWaiting)
  | Some (Answer status after) => (s, SentReply status after)
  | Some Gone => (s, SentNothing)
  | Some (Pass release) =>
      let slot := slotForRequest s r in
      match slotLB s slot with
      | None => (s, SentPanic)
      | Some lb =>
          let '(lb', f) := LoadBalancer.StartRequest (toForwardHeaders (svTargetOptions s)) now r req lb in
          let s' := match slot with
                    | TargetSlotActive => with_lbs (Some lb') (svRollout s) s
                    | TargetSlotRollout => with_lbs (svActive s) (Some lb') s
                    end in
          (s', match f with Some f => SentTo slot f release | None => SentUnavailable end)
      end
  end.

(** The on-demand probe of [localHostPolicy]: answered by the service itself,
    it approves the host with that answer's status. *)
Definition probeApproves (v : Verdict) : option bool :=
  match v with
  | Answered reply => Some (isTLSOnDemandApproval (replyStatus reply))
  | ToCache _ => None
  end.

(** ** Gates that still say what the options said *)

(** The lists are as resolved from the options, but for the buckets that pace
    their logging; the limiter has spent tokens. *)
Record gated (now : Z) (so : SvcOptions) (g : Gates) : Prop := {
  gd_deny : match resolveDenyList (soDenyIPs so) (soDenyUserAgents so) (soTrustedProxies so)
                    (soClientIPHeader so) now, gDeny g with
            | None, None => True
            | Some l, Some l' => dlResolver l' = dlResolver l ∧ dlPrefixes l' = dlPrefixes l ∧
                dlUserAgents l' = dlUserAgents l ∧ denyAll l' = denyAll l
            | _, _ => False
            end;
  gd_allow : match resolveIPAllowList (soAllowIPs so) (soTrustedProxies so) (soClientIPHeader so) now,
                   gAllow g with
             | None, None => True
             | Some l, Some l' => alResolver l' = alResolver l ∧ alPrefixes l' = alPrefixes l
             | _, _ => False
             end;
  gd_auth : gAuth g = resolveBasicAuth (soBasicAuth so);
  gd_rules : resolvePathRules (soRedirects so) (soRewrites so) = Ok (gRedirects g, gRewrites g) }.

Lemma resolveGates_gated now so g : resolveGates now so = Ok g → gated now so g.
Proof.
  unfold resolveGates. destruct (resolvePathRules _ _) as [[a b]|] eqn:Hr; [|done]. intros [= <-].
  split; cbn; [by destruct (resolveDenyList _ _ _ _ _)|by destruct (resolveIPAllowList _ _ _ _)|done|done].
Qed.

Lemma deniedBy_same (l l' : denyList) r :
  dlResolver l' = dlResolver l → dlPrefixes l' = dlPrefixes l → dlUserAgents l' = dlUserAgents l →
  denyAll l' = denyAll l → deniedBy l' r = deniedBy l r.
Proof. unfold deniedBy, deniesAddr, deniesUserAgent. by intros -> -> -> ->. Qed.

Lemma permits_same (l l' : ipAllowList) a : alPrefixes l' = alPrefixes l → permits l' a = permits l a.
Proof. unfold permits. by intros ->. Qed.

(** ** Inversion of the pipeline *)

(** What a request that reaches the cache has passed. *)
Lemma to_cache_inv t wait s r s' r' :
  serviceRequestWithTarget t wait s r = (s', ToCache r') →
  let hc := healthPath (svTargetOptions s) in
  (rejectDenied hc (atDeny t) (gDeny (svGates s)) r).2 = None ∧
  (rejectDisallowedIP hc (atAllow t) (gAllow (svGates s)) r).2 = None ∧
  (negb (soTLSEnabled (svOptions s)) && IsTLS r = false)%bool ∧
  handleRedirectsIfNeeded s r = None ∧
  (rejectRateLimited hc (atRate t) (gRate (svGates s)) r).2 = None ∧
  (rejectUnauthenticated sha256 hc (gAuth (svGates s)) r).2 = false ∧
  handlePausedAndStoppedRequests hc (svPause s) wait
    (rejectUnauthenticated sha256 hc (gAuth (svGates s)) r).1 = None ∧
  r' = rewriteRequest (gRewrites (svGates s)) (rejectUnauthenticated sha256 hc (gAuth (svGates s)) r).1 ∧
  svGates s' = mkGates (rejectDenied hc (atDeny t) (gDeny (svGates s)) r).1
    (rejectDisallowedIP hc (atAllow t) (gAllow (svGates s)) r).1
    (rejectRateLimited hc (atRate t) (gRate (svGates s)) r).1 (gAuth (svGates s))
    (gRedirects (svGates s)) (gRewrites (svGates s)).
Proof.
  unfold serviceRequestWithTarget. cbn zeta.
  destruct (rejectDenied _ _ _ _) as [d [?|]]; [done|]. cbn [svGates with_gates with_deny gAllow snd fst].
  destruct (rejectDisallowedIP _ _ _ _) as [a [?|]]; [done|]. cbn [svOptions with_gates].
  destruct (_ && _)%bool eqn:Htls; [done|].
  change (handleRedirectsIfNeeded (with_gates ?g (with_gates ?h s)) r)
    with (handleRedirectsIfNeeded s r).
  destruct (handleRedirectsIfNeeded _ _); [done|]. cbn [svGates with_gates with_allow gRate snd fst].
  destruct (rejectRateLimited _ _ _ _) as [l [?|]]; [done|]. cbn [svGates with_gates with_rate gAuth snd fst].
  destruct (rejectUnauthenticated _ _ _ _) as [r1 [|]]; [done|]. cbn [svPause with_gates fst snd].
  destruct (handlePausedAndStoppedRequests _ _ _ _); [done|]. intros [= <- <-]. cbn. auto 10.
Qed.

(** Whatever becomes of a request, it changes the lists' log buckets and the
    limiter only. *)
Lemma rejectDenied_same hc t l r :
  match l, (rejectDenied hc t l r).1 with
  | None, None => True
  | Some l, Some l' => dlResolver l' = dlResolver l ∧ dlPrefixes l' = dlPrefixes l ∧
      dlUserAgents l' = dlUserAgents l ∧ denyAll l' = denyAll l
  | _, _ => False
  end.
Proof. destruct l as [l|]; [|done]. cbn. destruct (isExempt _ _); [done|]. by destruct (deniedBy _ _). Qed.

Lemma rejectDisallowedIP_same hc t l r :
  match l, (rejectDisallowedIP hc t l r).1 with
  | None, None => True
  | Some l, Some l' => alResolver l' = alResolver l ∧ alPrefixes l' = alPrefixes l
  | _, _ => False
  end.
Proof. destruct l as [l|]; [|done]. cbn. destruct (isExempt _ _); [done|]. by destruct (permits _ _). Qed.

Lemma gated_step now so g hc t1 t2 l r :
  gated now so g →
  gated now so (mkGates (rejectDenied hc t1 (gDeny g) r).1 (rejectDisallowedIP hc t2 (gAllow g) r).1 l
                  (gAuth g) (gRedirects g) (gRewrites g)).
Proof.
  intros [Hd Ha Hau Hr]. split; cbn; [| |done|done].
  - pose proof (rejectDenied_same hc t1 (gDeny g) r) as Hs. revert Hs Hd.
    destruct (resolveDenyList _ _ _ _ _), (gDeny g), (rejectDenied _ _ _ _).1; try done. naive_solver congruence.
  - pose proof (rejectDisallowedIP_same hc t2 (gAllow g) r) as Hs. revert Hs Ha.
    destruct (resolveIPAllowList _ _ _ _), (gAllow g), (rejectDisallowedIP _ _ _ _).1; try done.
    naive_solver congruence.
Qed.

Lemma gated_rate now so g l : gated now so g → gated now so (with_rate l g).
Proof. by intros [Hd Ha Hau Hr]. Qed.

(** ** What the gates mean *)

Definition client_allowed (so : SvcOptions) (r : Request) : Prop :=
  soAllowIPs so = [] ∨
  ∃ f entry, newForwardedResolver (soTrustedProxies so) (soClientIPHeader so) = Ok f ∧
    entry ∈ soAllowIPs so ∧ entry_covers entry (normalizeAddr (clientAddr f r)).

Definition client_denied (so : SvcOptions) (r : Request) : Prop :=
  ∃ f entry, newForwardedResolver (soTrustedProxies so) (soClientIPHeader so) = Ok f ∧
    entry ∈ soDenyIPs so ∧ entry_covers entry (normalizeAddr (clientAddr f r)).

Definition credentials_ok (so : SvcOptions) (r : Request) : Prop :=
  soBasicAuth so = "" ∨
  ∃ c u p, parseBasicAuthCredential (soBasicAuth so) = Ok c ∧ requestBasicAuth r = Some (u, p) ∧
    credentialMatches sha256 c u p = true.

Lemma allow_gate now so g hc t r :
  gated now so g → isExempt hc r = false → (rejectDisallowedIP hc t (gAllow g) r).2 = None →
  client_allowed so r.
Proof.
  intros [_ Ha _ _] Hex Hok. unfold client_allowed.
  destruct (resolveIPAllowList _ _ _ now) as [l|] eqn:Hl, (gAllow g) as [l'|]; try done.
  - destruct Ha as [Har Hap]. right.
    assert (Hsame : (rejectDisallowedIP hc t (Some l) r).2 = None).
    { revert Hok. cbn. rewrite Hex, Har, (permits_same l l') by done. by destruct (permits _ _). }
    apply (allow_list_admits _ _ _ now hc t r l Hl) in Hsame as [?|(ps & f & _ & Hf & entry & Hin & Hc)];
      [congruence|]. by exists f, entry.
  - left. unfold resolveIPAllowList in Hl. destruct (soAllowIPs so) as [|e es]; [done|].
    cbn [length Nat.eqb] in Hl. by destruct (newIPAllowList (e :: es) _ _ _).
Qed.

Lemma deny_gate now so g hc t r :
  gated now so g → isExempt hc r = false → (rejectDenied hc t (gDeny g) r).2 = None → ¬ client_denied so r.
Proof.
  intros [Hd _ _ _] Hex Hok (f & entry & Hf & Hin & Hc).
  destruct (resolveDenyList _ _ _ _ now) as [l|] eqn:Hl, (gDeny g) as [l'|]; try done.
  - destruct Hd as (Hd1 & Hd2 & Hd3 & Hd4).
    assert (Hsame : (rejectDenied hc t (Some l) r).2 = Some 403).
    { apply (deny_list_refuses _ _ _ _ now hc t r l Hl Hex). unfold resolveDenyList in Hl.
      destruct (negb _); [done|].
      destruct (newDenyList _ _ _ _ _) as [l0|e] eqn:Hn; [right|by left; eauto]. injection Hl as ->.
      assert (Huas : ∃ uas, parseDenyUserAgents (soDenyUserAgents so) = Ok uas).
      { unfold newDenyList in Hn. apply result_bind_ok in Hn as (ps & _ & Hn).
        apply result_bind_ok in Hn as (uas & Huas & _). eauto. }
      destruct Huas as [uas Huas]. exists f, uas.
      split; [done|]. split; [done|]. split; [done|]. left. by exists entry. }
    revert Hok Hsame. cbn. rewrite Hex, (deniedBy_same l l') by done. by destruct (deniedBy l r).
  - unfold resolveDenyList, hasDenyRules in Hl. destruct (soDenyIPs so) as [|e es]; [by apply elem_of_nil in Hin|].
    cbn [length Nat.eqb negb orb] in Hl. by destruct (newDenyList (e :: es) _ _ _ _).
Qed.

Lemma auth_gate now so g hc r :
  gated now so g → isExempt hc r = false →
  (rejectUnauthenticated sha256 hc (gAuth g) r).2 = false → credentials_ok so r.
Proof.
  intros [_ _ -> _] Hex. unfold credentials_ok, resolveBasicAuth.
  destruct (String.eqb_spec (soBasicAuth so) "") as [He|_]; [by left|].
  unfold rejectUnauthenticated.
  assert (Hex' : isExempt hc (with_ReqHeader (hdr_del (ReqHeader r) "Authorization") r) = false) by exact Hex.
  destruct (parseBasicAuthCredential (soBasicAuth so)) as [c|] eqn:Hp; rewrite Hex';
    destruct (requestBasicAuth r) as [[u p]|]; try done.
  destruct (credentialMatches sha256 c u p) eqn:Hm; [|done]. intros _. right. eauto 10.
Qed.

Lemma auth_strips hc so r :
  soBasicAuth so ≠ "" →
  hdr_values (ReqHeader (rejectUnauthenticated sha256 hc (resolveBasicAuth (soBasicAuth so)) r).1)
    "Authorization" = [].
Proof.
  intros Hne. unfold resolveBasicAuth. apply String.eqb_neq in Hne. rewrite Hne.
  assert (Hdel : ∀ c, hdr_values (ReqHeader (rejectUnauthenticated sha256 hc (Some c) r).1) "Authorization" = []).
  { intros c. unfold rejectUnauthenticated. destruct (isExempt _ _), (requestBasicAuth r) as [[u p]|];
      try apply hdr_values_del_eq. destruct (credentialMatches sha256 c u p); apply hdr_values_del_eq. }
  by destruct (parseBasicAuthCredential _).
Qed.

Lemma rewriteRequest_header rules r : ReqHeader (rewriteRequest rules r) = ReqHeader r.
Proof. unfold rewriteRequest. destruct (InternalRequest r); [done|]. by destruct (matchRules _ _ _). Qed.

(** ** Theorems *)

(** C1: nothing reaches the cache or a target past a gate.  A request (no
    probe of the proxy's own and no health check) that gets there came from an
    address the allow list covers and no deny entry covers, came over TLS only
    to a service that has TLS, was not to be redirected, had its token, carried
    the right credentials, and was let go on by the pause controller; its
    credentials are not handed on; and the gates stand afterwards as the
    options resolve, ready for the next request. *)
Theorem pipeline_admits now so t wait s r s' r' :
  gated now so (svGates s) → serviceRequestWithTarget t wait s r = (s', ToCache r') →
  gated now so (svGates s') ∧
  (soBasicAuth so ≠ "" → hdr_values (ReqHeader r') "Authorization" = []) ∧
  wait.1 = PauseWaitActionProceed ∧
  (IsTLS r = true → soTLSEnabled (svOptions s) = true) ∧
  handleRedirectsIfNeeded s r = None ∧
  (isExempt (healthPath (svTargetOptions s)) r = false →
     client_allowed so r ∧ ¬ client_denied so r ∧ credentials_ok so r ∧
     (∀ l, gRate (svGates s) = Some l → (allow (atRate t) r l).2 = true)).
Proof.
  intros Hg Hpipe. apply to_cache_inv in Hpipe as (Hd & Ha & Htls & Hred & Hrate & Hau & Hpause & -> & ->).
  set (hc := healthPath (svTargetOptions s)) in *.
  split; [by apply (gated_step now so (svGates s))|]. split.
  { intros Hne. rewrite rewriteRequest_header, (gd_auth _ _ _ Hg). by apply auth_strips. }
  split.
  { revert Hpause. unfold handlePausedAndStoppedRequests.
    case_goal; [done|]. by destruct wait as [[] msg]. }
  split; [by intros Ht; rewrite Ht, andb_true_r in Htls; destruct (soTLSEnabled _)|].
  split; [done|]. intros Hex.
  split; [by eapply allow_gate|]. split; [by eapply deny_gate|]. split; [by eapply auth_gate|].
  intros l Hl. rewrite Hl in Hrate. cbn in Hrate. rewrite Hex in Hrate.
  destruct (allow (atRate t) r l) as [l' []]; [done|]. done.
Qed.

(** A plaintext request to a service that redirects to HTTPS is always
    redirected. *)
Lemma plaintext_redirected s r :
  soTLSEnabled (svOptions s) = true → soTLSRedirect (svOptions s) = true →
  InternalRequest r = false → IsTLS r = false →
  ∃ loc st, handleRedirectsIfNeeded s r = Some (ReplyRedirect loc st).
Proof.
  intros He Hr Hi Ht.
  pose proof (redirectURLIfNeeded_nonempty (redirectOptionsOf (svOptions s)) (svDynamicRedirects s)
    (gRedirects (svGates s)) r) as Hne. revert Hne.
  unfold handleRedirectsIfNeeded, redirectURLIfNeeded. rewrite Hi.
  assert (Hds : desiredScheme (redirectOptionsOf (svOptions s)) r = "https").
  { unfold desiredScheme, currentScheme. cbn. by rewrite He, Hr, Ht. }
  assert (Hcs : currentScheme r = "http") by (unfold currentScheme; by rewrite Ht).
  rewrite Hds, Hcs. cbn [String.eqb negb orb Ascii.eqb Bool.eqb].
  match goal with |- context [match ?x with Some y => Some y | None => _ end] => destruct x as [[loc st]|] end;
    intros Hne.
  - specialize (Hne loc st eq_refl). apply String.eqb_neq in Hne. rewrite Hne. eauto.
  - cbn. eauto.
Qed.

(** Credentials are never solicited, looked at or handed on in the clear.
    To a service that redirects to HTTPS, a plaintext request is either refused
    by the lists or redirected: it is not challenged, spends no token, waits on
    no pause and reaches no target, and what it carries in its Authorization
    header makes no difference. *)
Theorem plaintext_stays_out t wait s r s' v :
  soTLSEnabled (svOptions s) = true → soTLSRedirect (svOptions s) = true →
  InternalRequest r = false → IsTLS r = false →
  serviceRequestWithTarget t wait s r = (s', v) →
  (v = Answered (ReplyError 403 "" None false) ∨ ∃ loc st, v = Answered (ReplyRedirect loc st)) ∧
  gRate (svGates s') = gRate (svGates s) ∧
  ∀ wait' c, serviceRequestWithTarget t wait' (with_gates (mkGates (gDeny (svGates s)) (gAllow (svGates s))
      (gRate (svGates s)) c (gRedirects (svGates s)) (gRewrites (svGates s))) s) r =
    (with_gates (mkGates (gDeny (svGates s')) (gAllow (svGates s'))
      (gRate (svGates s')) c (gRedirects (svGates s')) (gRewrites (svGates s'))) s', v).
Proof.
  intros He Hr Hi Ht. destruct (plaintext_redirected s r He Hr Hi Ht) as (loc & st & Hred).
  unfold serviceRequestWithTarget. cbn [svGates with_gates gDeny svTargetOptions].
  destruct (rejectDenied _ _ _ _) as [d rd] eqn:Hd. cbn [svGates with_gates with_deny gAllow].
  assert (Hrd : rd = Some 403 ∨ rd = None).
  { revert Hd. unfold rejectDenied. destruct (gDeny (svGates s)) as [l|]; [|by intros [= _ <-]; right].
    destruct (isExempt _ _); [by intros [= _ <-]; right|].
    destruct (deniedBy l r); intros [= _ <-]; auto. }
  destruct Hrd as [-> | ->].
  { intros [= <- <-]. cbn. split; [by left|]. done. }
  destruct (rejectDisallowedIP _ _ _ _) as [a ra] eqn:Ha. cbn [svOptions with_gates].
  assert (Hra : ra = Some 403 ∨ ra = None).
  { revert Ha. unfold rejectDisallowedIP. destruct (gAllow (svGates s)) as [l|]; [|by intros [= _ <-]; right].
    destruct (isExempt _ _); [by intros [= _ <-]; right|].
    destruct (permits l _); intros [= _ <-]; auto. }
  destruct Hra as [-> | ->].
  { intros [= <- <-]. cbn. split; [by left|]. done. }
  rewrite He. cbn [negb andb].
  change (handleRedirectsIfNeeded (with_gates ?g (with_gates ?h s)) r) with (handleRedirectsIfNeeded s r).
  change (handleRedirectsIfNeeded (with_gates ?g (with_gates ?h (with_gates ?k s))) r)
    with (handleRedirectsIfNeeded s r).
  rewrite Hred. intros [= <- <-]. cbn. split; [right; eauto|]. done.
Qed.

(** While a service is stopped or paused the proxy answers its health check
    path itself.  A service whose on-demand endpoint is that path approves
    every host while its application is not asked. *)
Lemma stopped_approves t wait s r :
  pcState (svPause s) = PauseStateStopped → gDeny (svGates s) = None → gAllow (svGates s) = None →
  gRate (svGates s) = None → gAuth (svGates s) = None →
  InternalRequest r = true → IsTLS r = false →
  IsHealthCheckRequest (healthPath (svTargetOptions s)) r = true →
  probeApproves (serviceRequestWithTarget t wait s r).2 = Some true.
Proof.
  intros Hp Hd Ha Hra Hau Hi Ht Hhc. unfold serviceRequestWithTarget.
  rewrite Hd. cbn [rejectDenied svGates with_gates with_deny gAllow]. rewrite Ha.
  cbn [rejectDisallowedIP svOptions with_gates svGates with_allow gRate]. rewrite Ht, andb_false_r.
  unfold handleRedirectsIfNeeded, redirectURLIfNeeded. rewrite Hi.
  cbn [svGates with_gates with_allow with_deny gRate]. rewrite Hra.
  cbn [rejectRateLimited svGates with_gates with_rate gAuth svPause]. cbn [gAuth with_allow with_deny].
  rewrite Hau. cbn [rejectUnauthenticated]. unfold handlePausedAndStoppedRequests.
  rewrite Hhc. change (svPause (with_gates _ _)) with (svPause s). by rewrite Hp.
Qed.

(** The cache asks which group a request belongs to when it looks up an entry,
    the load balancer when the request is sent.  A split that starts between
    the two sends a request filed under the stable targets to the rollout. *)
Lemma variant_goes_stale s r lb :
  svRollout s = Some lb → svRolloutController s = None → splitValue r ≠ "" →
  cacheVariant s r = "" ∧
  ∃ s', SetRolloutSplit 100 [splitValue r] s = Ok s' ∧ slotForRequest s' r = TargetSlotRollout.
Proof.
  intros Hro Hrc Hv. unfold cacheVariant, SetRolloutSplit, slotForRequest, usesRollout. rewrite Hro, Hrc.
  split; [done|]. eexists. split; [reflexivity|]. cbn. rewrite Hro.
  unfold RequestUsesRolloutGroup, valueInAllowlist. apply String.eqb_neq in Hv. rewrite Hv.
  cbn [NewRolloutController Allowlist]. unfold str_contains. cbn. by rewrite String.eqb_refl.
Qed.

End pipeline.

Module PipelineExamples.

#[local] Existing Instance literal_regexp.
#[local] Existing Instance RateLimitExamples.exact_limiter.
#[local] Existing Instance insertion_SortFunc.
Import ServiceStateExamples.

Definition so : SvcOptions := plain_options.

Definition service : Svc :=
  match resolveGates 0 so with
  | Ok g => with_gates g (blankService "app" so plain_targets false)
  | Err _ => blankService "app" so plain_targets false
  end.

Definition no_hash (s : string) : string := s.

Definition visit (peer : string) (tls : bool) : Request :=
  mkRequest "GET" "b.example" "/page" "" "" false tls peer ∅ [] 0 None false false.

Definition go_on : PauseWaitAction * string := (PauseWaitActionProceed, "").

Definition served (peer : string) (tls : bool) : Svc * Verdict :=
  serviceRequestWithTarget no_hash (mkInstants 1 2 3) go_on service (visit peer tls).

Example neighbour_refused : (served "198.51.100.1:1" true).2 = Answered (ReplyError 403 "" None false).
Proof. vm_compute. reflexivity. Qed.

Example denied_although_allowed : (served "192.0.2.66:1" true).2 = Answered (ReplyError 403 "" None false).
Proof. vm_compute. reflexivity. Qed.

Lemma service_gated : gated 0 so (svGates service).
Proof.
  unfold service. destruct (resolveGates 0 so) as [g|] eqn:Hg; [by apply resolveGates_gated|].
  exfalso. assert (H : match resolveGates 0 so with Ok _ => true | Err _ => false end = true)
    by (vm_compute; reflexivity). by rewrite Hg in H.
Qed.

Lemma pipeline_admits_witness :
  (served "192.0.2.5:4711" true).2 = ToCache (visit "192.0.2.5:4711" true) ∧
  client_allowed so (visit "192.0.2.5:4711" true) ∧ ¬ client_denied so (visit "192.0.2.5:4711" true).
Proof.
  destruct (served "192.0.2.5:4711" true) as [s' [reply|r']] eqn:Hs.
  - exfalso. assert (H : match (served "192.0.2.5:4711" true).2 with ToCache _ => true | _ => false end = true)
      by (vm_compute; reflexivity). by rewrite Hs in H.
  - destruct (pipeline_admits no_hash 0 so (mkInstants 1 2 3) go_on service _ s' r' service_gated Hs)
      as (_ & _ & _ & _ & _ & H).
    destruct H as (Ha & Hd & _ & _); [vm_compute; reflexivity|]. split; [|by split].
    cbn [snd]. f_equal.
    assert (Hv : match (served "192.0.2.5:4711" true).2 with ToCache r => Some r | _ => None end =
                 Some (visit "192.0.2.5:4711" true)) by (vm_compute; reflexivity).
    rewrite Hs in Hv. by injection Hv.
Defined.

Lemma plaintext_stays_out_witness :
  (served "192.0.2.5:4711" false).2 = Answered (ReplyRedirect "https://b.example/page" 301) ∧
  gRate (svGates (served "192.0.2.5:4711" false).1) = gRate (svGates service).
Proof.
  split; [vm_compute; reflexivity|].
  destruct (served "192.0.2.5:4711" false) as [s' v] eqn:Hs.
  apply (plaintext_stays_out no_hash (mkInstants 1 2 3) go_on service (visit "192.0.2.5:4711" false) s' v);
    [vm_compute; reflexivity..|exact Hs].
Defined.

End PipelineExamples.
