(* ===== verification/OnDemand.v ===== *)
(** * On-demand certificates: the host policy of [internal/server/tls_on_demand.go]

    Whether a certificate may be ordered for a host nobody configured: the
    endpoint of the operator is asked, over HTTP or, when it is a path of the
    service, through the service's own handlers, whose answer is recorded up to a
    bound.  Reading the endpoint's URL is in [SvcOptions]; what the service itself
    may answer for its application is in [Pipeline]. *)
From S2P Require Import Prelude GoStrings Http Redirects ErrorPages Buffers Compression CompressWriter Pipeline.

Definition tlsOnDemandCheckMaxBodyBytes : nat := 256.

(** ** The recorder *)

Record boundedResponseRecorder := mkRecorder { rcStatus : Z; rcBody : string; rcLimit : nat; rcHeader : gmap string (list string) }.

Definition newBoundedResponseRecorder (limit : nat) : boundedResponseRecorder := mkRecorder 200 "" limit ∅.

Definition rcWriteHeader (status : Z) (r : boundedResponseRecorder) : boundedResponseRecorder := mkRecorder status (rcBody r) (rcLimit r) (rcHeader r).

Definition rcWrite (p : string) (r : boundedResponseRecorder) : boundedResponseRecorder :=
  let remaining := (rcLimit r - String.length (rcBody r))%nat in
  mkRecorder (rcStatus r) (if (0 <? remaining)%nat then rcBody r +:+ str_take remaining p else rcBody r) (rcLimit r) (rcHeader r).

(** It cannot be flushed. *)
Definition rcOp (r : boundedResponseRecorder) (o : write_op) : boundedResponseRecorder :=
  match o with
  | OHeader h => mkRecorder (rcStatus r) (rcBody r) (rcLimit r) h
  | OStatus c => rcWriteHeader c r
  | OBody p => rcWrite p r
  | OFlush => r
  end.

(** ** The policy *)

Inductive OnDemandError := NoAnswer | HostDenied (host : string) (status : Z) (body : string).

(** A status that approves, or what is reported. *)
Definition judge (host : string) (status : Z) (body : string) : result OnDemandError unit :=
  if isTLSOnDemandApproval status then Ok tt else Err (HostDenied host status body).

(** [externalHostPolicy]: the endpoint's answer, if there is one in time. *)
Definition externalHostPolicy (host : string) (answer : option (Z * string)) : result OnDemandError unit :=
  match answer with
  | None => Err NoAnswer
  | Some (status, body) => judge host status (str_take tlsOnDemandCheckMaxBodyBytes body)
  end.

(** [localHostPolicy]: what the service's handlers do with the recorder. *)
Definition localHostPolicy (host : string) (ops : list write_op) : result OnDemandError unit :=
  let recorder := foldl rcOp (newBoundedResponseRecorder tlsOnDemandCheckMaxBodyBytes) ops in
  judge host (rcStatus recorder) (rcBody recorder).

(** [hasCachedCert]: the keys the certificate cache answers for. *)
Definition hasCachedCert (cached : string → bool) (host : string) : bool :=
  let host := TrimSuffix host "." in cached host || cached (host +:+ "+rsa").

(** [hostPolicy] *)
Definition hostPolicy (cached : string → bool) (policy : string → result OnDemandError unit) (host : string) : result OnDemandError unit :=
  if hasCachedCert cached host then Ok tt else policy host.

(** ** What is recorded *)

Lemma str_take_nil n : str_take n "" = "".
Proof. by destruct n. Qed.

Lemma str_take_app_le n a b : (String.length a ≤ n)%nat → str_take n (a +:+ b) = a +:+ str_take (n - String.length a) b.
Proof.
  revert n. induction a as [|c a IH]; intros n Hn; cbn in *; [by rewrite Nat.sub_0_r|]. destruct n as [|n]; [lia|]. cbn. f_equal. apply IH. lia.
Qed.

Lemma str_take_app_ge n a b : (n ≤ String.length a)%nat → str_take n (a +:+ b) = str_take n a.
Proof. revert n. induction a as [|c a IH]; intros [|n] Hn; cbn in *; try done; [lia|]. f_equal. apply IH. lia. Qed.

(** The first bytes, up to the limit, however they come. *)
Lemma recorded_body ops r :
  rcBody r = str_take (rcLimit r) (rcBody r) →
  rcBody (foldl rcOp r ops) = str_take (rcLimit r) (rcBody r +:+ bodyOf ops) ∧ rcLimit (foldl rcOp r ops) = rcLimit r.
Proof.
  revert r. induction ops as [|o ops IH]; intros r Hr; [split; [cbn; by rewrite str_app_nil_r|done]|]. rewrite bodyOf_cons. cbn [foldl].
  destruct o as [h|c|p|]; cbn [body_op].
  1: exact (IH (mkRecorder (rcStatus r) (rcBody r) (rcLimit r) h) Hr).
  1: exact (IH (rcWriteHeader c r) Hr).
  2: exact (IH r Hr).
  assert (Hlen : (String.length (rcBody r) ≤ rcLimit r)%nat) by (rewrite Hr, str_length_take; lia).
  assert (Hw : rcBody (rcWrite p r) = str_take (rcLimit r) (rcBody r +:+ p)).
  { unfold rcWrite. cbn [rcBody]. cbv zeta. destruct (Nat.ltb_spec 0 (rcLimit r - String.length (rcBody r))); [rewrite str_take_app_le by lia; done|].
    rewrite str_take_app_ge by lia. exact Hr. }
  assert (Htake : ∀ n a b, str_take n (str_take n a +:+ b) = str_take n (a +:+ b)).
  { intros n a b. destruct (Nat.leb_spec (String.length a) n); [rewrite (str_take_whole n a) by lia; done|].
    rewrite (str_take_app_ge n a) by lia. rewrite str_take_app_ge by (rewrite str_length_take; lia). apply str_take_whole. rewrite str_length_take. lia. }
  destruct (IH (rcWrite p r)) as [H1 H2]; [rewrite Hw; symmetry; apply str_take_whole; rewrite str_length_take; cbn; lia|].
  cbn [rcOp]. rewrite H1, H2, Hw. split; [|done]. cbn [rcLimit rcWrite]. by rewrite Htake, str_app_assoc.
Qed.

Lemma recorded_status bs r : Forall goes_on bs → rcStatus (foldl rcOp r bs) = rcStatus r.
Proof. intros Hbs. revert r. induction Hbs as [|o bs Ho _ IH]; intros r; [done|]. cbn [foldl]. rewrite IH. by destruct o. Qed.

Lemma recorded_heads hs r : Forall announces hs → rcStatus (foldl rcOp r hs) = rcStatus r ∧ bodyOf hs = "".
Proof.
  intros Hhs. revert r. induction Hhs as [|o hs Ho _ IH]; intros r; [done|]. rewrite bodyOf_cons. cbn [foldl].
  destruct (IH (rcOp r o)) as [H1 H2]. rewrite H1, H2. by destruct o.
Qed.

Lemma bodyOf_app a b : bodyOf (a ++ b) = bodyOf a +:+ bodyOf b.
Proof. induction a as [|o a IH]; [done|]. cbn [app]. by rewrite !bodyOf_cons, IH, str_app_assoc. Qed.

(** What a client gets from such a handler. *)
Lemma heads_direct hs u : Forall announces hs → ∃ h, foldl plainOp u (unflushed hs) = rw_set_header h u.
Proof.
  intros Hhs. revert u. induction Hhs as [|o hs Ho _ IH]; intros u; [exists (rwHeader u); by destruct u|].
  destruct o as [h|c|b|]; try done. destruct (IH (rw_set_header h u)) as (h' & Hh'). by exists h'.
Qed.

Lemma served_direct ops u :
  well_ordered ops → rwClosed u = false →
  ∃ c h hs st bs, ops = hs ++ st ++ bs ∧ Forall announces hs ∧ (st = [] ∧ c = 200 ∨ st = [OStatus c] ∧ informational c = false) ∧ Forall goes_on bs ∧
    rwSent (directly_served ops u) = rwSent u ++ [(c, h, rwCookies u)] ∧ rwBody (directly_served ops u) = rwBody u +:+ bodyOf bs.
Proof.
  intros (hs & st & bs & -> & Hhs & Hst & Hbs) Hu. destruct (heads_direct hs u Hhs) as (h & Hh). unfold directly_served. rewrite !unflushed_app, !foldl_app, Hh.
  assert (Hu0 : rwClosed (rw_set_header h u) = false) by done.
  assert (Hsent : ∀ c, rwSent (WriteHeader c (rw_set_header h u)) = rwSent u ++ [(c, h, rwCookies u)] ∧ rwBody (WriteHeader c (rw_set_header h u)) = rwBody u).
  { intros c. unfold WriteHeader. cbn. by rewrite Hu. }
  destruct Hst as [->|(c & -> & Hc)].
  - exists 200, h, hs, [], bs. destruct (Hsent 200) as [Hs Hb]. change (unflushed []) with (@nil write_op). cbn [foldl]. rewrite direct_unannounced by done.
    cbn [rwSent rwBody rw_append]. rewrite Hs, Hb. split_and!; auto.
  - exists c, h, hs, [OStatus c], bs. destruct (Hsent c) as [Hs Hb]. change (unflushed [OStatus c]) with [OStatus c]. cbn [foldl plainOp].
    assert (Hcl : rwClosed (WriteHeader c (rw_set_header h u)) = true) by by apply WriteHeader_final.
    rewrite direct_bodies by done. unfold FlushRW. rewrite WriteHeader_closed by done. cbn [rwSent rwBody rw_append]. rewrite Hs, Hb. split_and!; auto.
Qed.

(** An endpoint on the service itself is judged as the same answer of an
    endpoint elsewhere would be: by the status and the first bytes that a client
    gets.  A host that has a certificate is approved without asking; every other
    one is approved exactly for a 2xx. *)
Theorem on_demand_policies_agree cached host ops u :
  well_ordered ops → rwClosed u = false → rwBody u = "" →
  ∃ c h, rwSent (directly_served ops u) = rwSent u ++ [(c, h, rwCookies u)] ∧
    localHostPolicy host ops = externalHostPolicy host (Some (c, rwBody (directly_served ops u))) ∧
    (hostPolicy cached (λ host, localHostPolicy host ops) host = Ok tt ↔ hasCachedCert cached host = true ∨ 200 ≤ c < 300).
Proof.
  intros Hops Hu Hb0. destruct (served_direct ops u Hops Hu) as (c & h & hs & st & bs & -> & Hhs & Hst & Hbs & Hsent & Hbody).
  assert (Hlocal : localHostPolicy host (hs ++ st ++ bs) = judge host c (str_take tlsOnDemandCheckMaxBodyBytes (bodyOf bs))).
  { unfold localHostPolicy. set (r0 := newBoundedResponseRecorder tlsOnDemandCheckMaxBodyBytes).
    destruct (recorded_body (hs ++ st ++ bs) r0 eq_refl) as [Hrec _]. rewrite Hrec. rewrite !foldl_app, (recorded_status bs) by done.
    destruct (recorded_heads hs r0 Hhs) as [Hh Hhb]. rewrite !bodyOf_app, Hhb.
    destruct Hst as [[-> ->]|(-> & _)]; cbn [foldl]; [by rewrite Hh|]. done. }
  exists c, h. split; [exact Hsent|]. rewrite Hlocal. split; [by rewrite Hbody, Hb0|]. unfold hostPolicy. destruct (hasCachedCert cached host); [split; auto|].
  rewrite Hlocal. unfold judge, isTLSOnDemandApproval. destruct (Z.leb_spec 200 c), (Z.ltb_spec c 300); cbn [andb]; split; done || lia.
Qed.

(** ** Examples *)

Module OnDemandExamples.
Definition refusing : list write_op := [OStatus 103; OStatus 404; OBody "no such tenant"].

Example hints_are_no_answer : localHostPolicy "a.example" refusing = Err (HostDenied "a.example" 404 "no such tenant").
Proof. reflexivity. Qed.

Lemma on_demand_policies_agree_witness :
  ∃ c h, rwSent (directly_served [OStatus 204] newRW) = [(c, h, [])] ∧
    hostPolicy (λ _, false) (λ host, localHostPolicy host [OStatus 204]) "a.example" = Ok tt.
Proof.
  assert (Hops : well_ordered [OStatus 204]) by (exists [], [OStatus 204], []; split; [done|]; split; [constructor|]; split; [right; by exists 204|constructor]).
  destruct (on_demand_policies_agree (λ _, false) "a.example" [OStatus 204] newRW Hops eq_refl eq_refl) as (c & h & Hs & _ & Hpol).
  exists c, h. split; [exact Hs|]. apply Hpol. right. vm_compute in Hs. injection Hs as <- _. lia.
Defined.
End OnDemandExamples.
