(* ===== verification/Router.v ===== *)
(** * The router: [internal/server/router.go], [router_idle.go] and the
    hand-over of [target_metrics.go]

    The router owns the services and the table that routes to them; the TLS
    settings the table copies between services live in the services' options
    ([syncTLS]).  An operation is what it does under the router's lock, between
    the waits (for healthy targets, for a drain) that it does outside. *)
From S2P Require Import Prelude GoStrings GoRegexp GoURL Http ServiceMap Target Redirects Rollout LoadBalancer Retry.
From S2P Require Import Deadlines ClientAddr RateLimit BasicAuth PauseController IdleController ServiceIdle.
From S2P Require Import Compression CachePolicy SvcOptions Service ServiceState.

Inductive ContainerAnswer := ContainerFound | ContainerNotFound | ContainerInspectForbidden | ContainerFailed.

Inductive DeployError :=
| DeployOptions (e : OptionError)
| DeployPool (e : PoolOptionError)
| DeployAuthHealthCheck (e : BasicAuthError)
| DeployClientHealthCheck (e : ClientOptionError)
| DeployRateHealthCheck (e : RateLimitError)
| ErrNoContainerLifecycle
| ErrNotAContainerRef (ref : string)
| ErrContainer (ref : string)
| DeployTarget (e : TargetError)
| ErrorTargetFailedToBecomeHealthy
| DeployRouter (e : RouterError)
| DeployService_ (e : ServiceError)
| ErrorCacheNotAvailable.

Definition set_tls (enabled redirect : bool) (so : SvcOptions) : SvcOptions :=
  mkSvcOptions (soHosts so) (soPathPrefixes so)
    enabled (soTLSCertificatePath so) (soTLSPrivateKeyPath so) (soTLSOnDemandURL so)
    redirect (soCanonicalHost so) (soACMEDirectory so) (soACMECachePath so) (soErrorPagePath so)
    (soStripPrefix so) (soWriterAffinityTimeout so) (soReadTargetsAcceptWebsockets so)
    (soExcludeMetricsPaths so) (soClientIPHeader so) (soTLSClientCACertificatePath so)
    (soTLSDomainsSource so) (soTLSDomainsInterval so) (soTLSDomainsBatchSize so)
    (soInterceptErrorStatuses so) (soTargetTryDuration so) (soTargetTryInterval so)
    (soSessionAffinity so) (soSessionAffinityCookieName so) (soBasicAuth so) (soAllowIPs so) (soDenyIPs so)
    (soDenyUserAgents so) (soTrustedProxies so) (soRateLimit so) (soRateLimitBurst so)
    (soRateLimitExempt so) (soRedirects so) (soRewrites so) (soRedirectsSource so) (soRedirectsInterval so)
    (soSleepAfter so) (soWakeTimeout so) (soSleepContainers so) (soCompression so) (soCache so).

(** The options the table reads. *)
Definition routedOptions (so : SvcOptions) : ServiceOptions :=
  mkServiceOptions (soHosts so) (soPathPrefixes so) (soTLSEnabled so) (soTLSRedirect so).

Record ServiceDescription := mkDescription {
  sdHost : string;
  sdPath : string;
  sdTLS : bool;
  sdTarget : string;
  sdState : string;
  sdHosts : list string;
  sdPathPrefixes : list string;
  sdTargets : list string;
  sdReaderTargets : list string;
  sdRolloutTargets : list string }.

Section router.
Context `{!SortFunc, !Regexp, !RateLimiter}.

Definition routed (s : Svc) : ServiceMap.Service := ServiceMap.mkService (svName s) (routedOptions (svOptions s)).

Record Router := mkRouter {
  rtTable : ServiceMap;
  rtServices : gmap string Svc;
  rtRecheck : bool;
  rtSAN : bool;
  rtCacheStore : bool;
  rtLifecycle : bool }.

Definition NewRouter : Router := mkRouter NewServiceMap ∅ false false false false.

Definition with_services (t : ServiceMap) (m : gmap string Svc) (r : Router) : Router :=
  mkRouter t m (rtRecheck r) (rtSAN r) (rtCacheStore r) (rtLifecycle r).

(** What the table's [syncTLSOptionsFromRootDomain] wrote into the services. *)
Definition syncTLS (t : ServiceMap) (m : gmap string Svc) : gmap string Svc :=
  map_imap (λ n s, Some (match services t !! n with
                         | Some x => with_tls_options
                             (set_tls (TLSEnabled (options x)) (TLSRedirect (options x)) (svOptions s)) s
                         | None => s
                         end)) m.

(** [r.services.Set] and [r.services.Remove]. *)
Definition putService (o : RangeOrders) (s : Svc) (r : Router) : Router :=
  let t := SetService o (rtTable r) (routed s) in
  with_services t (syncTLS t (<[svName s := s]> (rtServices r))) r.

Definition dropService (o : RangeOrders) (n : string) (r : Router) : Router :=
  let t := ServiceMap.RemoveService o (rtTable r) n in
  with_services t (syncTLS t (delete n (rtServices r))) r.

(** A change of one service that touches nothing the table reads. *)
Definition updateService (n : string) (s : Svc) (r : Router) : Router :=
  with_services (rtTable r) (<[n := s]> (rtServices r)) r.

(** ** Requests *)

(** [Router.ServeHTTP]: the service and the request it gets; [None] is the 404. *)
Definition routeRequest (rt : Router) (r : Request) : option (string * Request) :=
  match ServiceForRequest (rtTable rt) (Host r) (URLPath r) with
  | None => None
  | Some (n, prefix) =>
      let strip := match rtServices rt !! n with Some s => soStripPrefix (svOptions s) | None => false end in
      Some (n, if strip && negb (String.eqb prefix rootPath)
               then mkRequest (Method r) (Host r) (URLPath r) (RawQuery r) (URLRawPath r) (URLForceQuery r)
                      (IsTLS r) (RemoteAddr r) (ReqHeader r) (Cookies r) (ContentLength r) (Some prefix)
                      (InternalRequest r) (IgnoreSessionPin r)
               else r)
  end.

(** [GetCertificate]: who answers a handshake for a server name. *)
Inductive Handshake := NoServerName | UnknownServerName | AnsweredBy (service : string) (c : CertKind).

Definition GetCertificate (rt : Router) (serverName : string) : Handshake :=
  let name := if String.eqb serverName "" then defaultTLSHostname (rtTable rt) else serverName in
  if String.eqb name "" then NoServerName
  else match ServiceForHost (requestMap (rtTable rt)) name with
       | None => UnknownServerName
       | Some n =>
           match rtServices rt !! n with
           | None => UnknownServerName
           | Some s => match svCert s with CertNone => UnknownServerName | c => AnsweredBy n c end
           end
       end.

Definition clientCAsForHost (rt : Router) (host : string) : option string :=
  n ← ServiceForHost (requestMap (rtTable rt)) host; s ← rtServices rt !! n; svClientCAs s.

(** ** Deploying *)

(** [validateSleepConfiguration]; [exists_] is what the runtime says of a
    reference. *)
Fixpoint checkContainers (exists_ : string → ContainerAnswer) (refs : list string) : result DeployError unit :=
  match refs with
  | [] => Ok tt
  | ref :: refs =>
      match exists_ ref with
      | ContainerFound | ContainerInspectForbidden => checkContainers exists_ refs
      | ContainerNotFound => Err (ErrNotAContainerRef ref)
      | ContainerFailed => Err (ErrContainer ref)
      end
  end.

Definition targetRef (t : Target) : result DeployError string :=
  match ContainerRef t with Some ref => Ok ref | None => Err (ErrNotAContainerRef (address t)) end.

Definition validateSleepConfiguration (lifecycle : bool) (exists_ : string → ContainerAnswer)
    (so : SvcOptions) (targetURLs : list string) : result DeployError unit :=
  if soSleepAfter so <=? 0 then Ok tt
  else if negb lifecycle then Err ErrNoContainerLifecycle
  else
    refs ← match soSleepContainers so with
           | [] => match NewTargetList targetURLs [] with
                   | Err e => Err (DeployTarget e)
                   | Ok ts => mapM_result targetRef ts
                   end
           | refs => Ok refs
           end;
    checkContainers exists_ refs.

(** The errors of a component, as errors of a deploy. *)
Definition lift_deploy {E A} (f : E → DeployError) (x : result E A) : result DeployError A :=
  match x with Ok a => Ok a | Err e => Err (f e) end.

(** The checks before anything is built. *)
Definition validateDeploy (lifecycle : bool) (exists_ : string → ContainerAnswer) (so : SvcOptions)
    (to : TgtOptions) (targetURLs : list string) : result DeployError unit :=
  let path := healthPath to in
  _ ← lift_deploy DeployOptions (ValidateOptions so);
  _ ← lift_deploy DeployPool (ValidateTargetOptions (toPool to));
  _ ← lift_deploy DeployAuthHealthCheck (validateBasicAuthHealthCheck (soBasicAuth so) path);
  _ ← lift_deploy DeployClientHealthCheck (validateAllowIPsHealthCheck (soAllowIPs so) path);
  _ ← lift_deploy DeployClientHealthCheck (validateDenyHealthCheck (soDenyIPs so) (soDenyUserAgents so) path);
  _ ← lift_deploy DeployRateHealthCheck (validateRateLimitHealthCheck (soRateLimit so) path);
  validateSleepConfiguration lifecycle exists_ so targetURLs.

(** [createLoadBalancer]: [settled] is what the probes made of the new load
    balancer while it was waited for, and whether they all got healthy in
    time. *)
Definition createLoadBalancer (digest : string → string) (targetURLs readerURLs : list string)
    (so : SvcOptions) (force : bool) (settled : LoadBalancer → LoadBalancer * bool)
  : result DeployError LoadBalancer :=
  ts ← lift_deploy DeployTarget (NewTargetList targetURLs readerURLs);
  let lb := WithSessionAffinity digest (soSessionAffinity so) (soSessionAffinityCookieName so)
              (NewLoadBalancer ts (soWriterAffinityTimeout so) (soReadTargetsAcceptWebsockets so)) in
  let '(lb', healthy) := settled lb in
  if force || healthy then Ok lb' else Err ErrorTargetFailedToBecomeHealthy.

(** [createOrUpdateService]. *)
Definition createOrUpdateService (now : Z) (files : HostFiles) (name : string) (so : SvcOptions)
    (to : TgtOptions) (r : Router) : list SanCall * result ServiceError Svc :=
  match rtServices r !! name with
  | Some s => UpdateOptions now files so to s
  | None =>
      let '(calls, x) := NewService now files name so to (rtSAN r) in
      (calls, s ← x; Ok (SetContainerLifecycle now (rtLifecycle r) (SetCacheStore (rtCacheStore r) s)))
  end.

(** [installLoadBalancer]: the calls on the certificate manager, and the router
    and the load balancer replaced. *)
Definition installLoadBalancer (o : RangeOrders) (now : Z) (name : string) (slot : TargetSlot)
    (lb : LoadBalancer) (so : SvcOptions) (getService : list SanCall * result ServiceError Svc) (r : Router)
  : list SanCall * result DeployError (Router * option LoadBalancer) :=
  match CheckAvailability (rtTable r) name (routedOptions so) with
  | Some _ => ([], Err (DeployRouter ErrorHostInUse))
  | None =>
      let '(calls, s) := getService in
      (calls,
       s ← lift_deploy DeployService_ s;
       let '(s', replaced) := UpdateLoadBalancer now lb slot s in
       Ok (putService o s' r, replaced))
  end.

(** A deploy: what it did, and the load balancer it leaves probing without a
    service that holds it. *)
Record Deployed := mkDeployed {
  dpCalls : list SanCall;
  dpResult : result DeployError (option LoadBalancer);
  dpRouter : Router;
  dpOrphan : option LoadBalancer }.

Definition DeployService (o : RangeOrders) (now : Z) (files : HostFiles) (digest : string → string)
    (exists_ : string → ContainerAnswer) (settled : LoadBalancer → LoadBalancer * bool)
    (name : string) (targetURLs readerURLs : list string) (so0 : SvcOptions) (to : TgtOptions) (force : bool)
    (r : Router) : Deployed :=
  match validateDeploy (rtLifecycle r) exists_ so0 to targetURLs with
  | Err e => mkDeployed [] (Err e) r None
  | Ok _ =>
      let so := NormalizeOptions so0 in
      match createLoadBalancer digest targetURLs readerURLs so force settled with
      | Err e => mkDeployed [] (Err e) r None
      | Ok lb =>
          let '(calls, x) := installLoadBalancer o now name TargetSlotActive lb so
                               (createOrUpdateService now files name so to r) r in
          match x with
          | Err e => mkDeployed calls (Err e) r (Some lb)
          | Ok (r', replaced) => mkDeployed calls (Ok (Dispose <$> replaced)) r' None
          end
      end
  end.

(** [SetRolloutTargets]: the service is looked up first, and installed as it
    was found once the new targets are healthy. *)
Definition rolloutLookup (name : string) (r : Router) : result DeployError Svc :=
  match rtServices r !! name with Some s => Ok s | None => Err (DeployRouter ErrorServiceNotFound) end.

(** [found] is the service that was looked up, as it is by now; whether the
    router still knows it is not asked again. *)
Definition rolloutInstall (o : RangeOrders) (now : Z) (name : string) (lb : LoadBalancer) (found : Svc) (r : Router)
  : result DeployError (Router * option LoadBalancer) :=
  (installLoadBalancer o now name TargetSlotRollout lb (svOptions found) ([], Ok found) r).2.

Definition SetRolloutTargets (o : RangeOrders) (now : Z) (digest : string → string)
    (settled : LoadBalancer → LoadBalancer * bool) (name : string) (targetURLs readerURLs : list string)
    (force : bool) (r : Router) : result DeployError (Router * option LoadBalancer) :=
  s ← rolloutLookup name r;
  lb ← createLoadBalancer digest targetURLs readerURLs (svOptions s) force settled;
  rolloutInstall o now name lb s r.

(** ** Other operations *)

(** An operation on one service, by name. *)
Definition onService (name : string) (f : Svc → result ServiceError Svc) (r : Router)
  : result DeployError Router :=
  match rtServices r !! name with
  | None => Err (DeployRouter ErrorServiceNotFound)
  | Some s => s' ← lift_deploy DeployService_ (f s); Ok (updateService name s' r)
  end.

Definition RouterSetRolloutSplit (name : string) (percent : Z) (allowList : list string) (r : Router) :=
  onService name (SetRolloutSplit percent allowList) r.
Definition RouterStopRollout (name : string) (r : Router) := onService name (λ s, Ok (StopRollout s)) r.
Definition RouterPause (name : string) (pauseTimeout : Z) (r : Router) := onService name (PauseService pauseTimeout) r.
Definition RouterStop (name : string) (message : string) (r : Router) := onService name (StopService message) r.
Definition RouterResume (name : string) (r : Router) := onService name ResumeService r.

(** [RemoveService]: the router, and the service with its probes stopped. *)
Definition RouterRemove (o : RangeOrders) (name : string) (r : Router) : result DeployError (Router * Svc) :=
  match rtServices r !! name with
  | None => Err (DeployRouter ErrorServiceNotFound)
  | Some s => Ok (dropService o (svName s) r, DisposeService s)
  end.

(** [PurgeCache]: the guards around the store's [Purge]. *)
Definition PurgeCache (name : string) (r : Router) : result DeployError unit :=
  if bool_decide (is_Some (rtServices r !! name)) then
    if rtCacheStore r then Ok tt else Err ErrorCacheNotAvailable
  else Err (DeployRouter ErrorServiceNotFound).

Definition RouterSetCacheStore (store : bool) (r : Router) : Router :=
  mkRouter (rtTable r) (SetCacheStore store <$> rtServices r) (rtRecheck r) (rtSAN r) store (rtLifecycle r).

Definition RouterSetContainerLifecycle (now : Z) (lc : bool) (r : Router) : Router :=
  mkRouter (rtTable r) (SetContainerLifecycle now lc <$> rtServices r) (rtRecheck r) (rtSAN r)
    (rtCacheStore r) lc.

Definition EnableTargetRecheckOnRestore (r : Router) : Router :=
  mkRouter (rtTable r) (rtServices r) true (rtSAN r) (rtCacheStore r) (rtLifecycle r).

(** [ListActiveServices], for one service. *)
Definition describeService (s : Svc) : option ServiceDescription :=
  lb ← svActive s;
  let so := svOptions s in
  let host := Join (soHosts so) "," in
  Some (mkDescription (if String.eqb host "" then "*" else host) (Join (soPathPrefixes so) ",")
    (soTLSEnabled so) (Join (map address (all lb)) ",") (describeServiceState s) (soHosts so) (soPathPrefixes so)
    (map address (WriteTargets lb)) (map address (ReadTargets lb))
    (match svRollout s with Some lb => map address (all lb) | None => [] end)).

Definition ListActiveServices (r : Router) : gmap string ServiceDescription :=
  omap describeService (rtServices r).

(** [liveTargets], and the series that [forgetDroppedTargets] deletes. *)
Definition liveTargets (name : string) (r : Router) : list Target :=
  match rtServices r !! name with Some s => allTargets s | None => [] end.

Definition forgetDroppedTargets (name : string) (replaced : LoadBalancer) (r : Router) : list string :=
  List.filter (λ a, negb (str_contains (map address (liveTargets name r)) a)) (map address (all replaced)).

(** [handOverTargets]: the replaced targets that go quiet. *)
Definition handOverTargets (name : string) (replaced : LoadBalancer) (r : Router) : list string :=
  List.filter (λ a, str_contains (map address (liveTargets name r)) a) (map address (all replaced)).

(** ** Restoring *)

(** [decodeStateServices] of a document: the first service that cannot be
    rebuilt fails it. *)
Fixpoint restoreServices (now : Z) (files : HostFiles) (digest : string → string)
    (docs : list marshalledService) : result ServiceError (list Svc) :=
  match docs with
  | [] => Ok []
  | d :: docs =>
      s ← (UnmarshalService now files digest d).2;
      l ← restoreServices now files digest docs;
      Ok (s :: l)
  end.

(** The services of a restored state are set one by one, each with the orders
    its update ranges in. *)
Fixpoint putServices (os : list RangeOrders) (l : list Svc) (r : Router) {struct l} : Router :=
  match l, os with
  | s :: l, o :: os => putServices os l (putService o s r)
  | _, _ => r
  end.

(** [restoreSleepingServices] and the recheck, on one service. *)
Definition awaken (now : Z) (r : Router) (s : Svc) : Svc :=
  let s := if rtLifecycle r then SetContainerLifecycle now true s else s in
  if rtRecheck r then RecheckTargetHealth s else s.

Definition restoreInto (now : Z) (os : list RangeOrders) (l : list Svc) (r : Router) : Router :=
  let r := putServices os l (with_services NewServiceMap ∅ r) in
  with_services (rtTable r) (awaken now r <$> rtServices r) r.

(** [saveStateSnapshot], up to the file: the documents of the services, in the
    order the map is ranged in. *)
Definition snapshot (order : list string) (r : Router) : option (list marshalledService) :=
  mapM (λ n, s ← rtServices r !! n; MarshalService s) order.

(** ** The invariant *)

Record svc_ok (s : Svc) : Prop := {
  so_hosts : soHosts (svOptions s) ≠ [];
  so_prefixes : soPathPrefixes (svOptions s) ≠ [] ∧ Forall Routing.normalized (soPathPrefixes (svOptions s));
  so_targets : ∃ active rollout, saved s active rollout }.

Record router_ok (r : Router) : Prop := {
  ro_wf : Routing.wf (rtTable r);
  ro_table : services (rtTable r) = routed <$> rtServices r;
  ro_services : ∀ n s, rtServices r !! n = Some s → svc_ok s }.

Lemma router_ok_name r n s : router_ok r → rtServices r !! n = Some s → svName s = n.
Proof.
  intros [Hwf Ht _] Hs. apply (Routing.wf_names _ Hwf n (routed s)). by rewrite Ht, lookup_fmap, Hs.
Qed.

Lemma svc_ok_tls s e t : svc_ok s → svc_ok (with_tls_options (set_tls e t (svOptions s)) s).
Proof. by intros [Hh Hp (a & ro & [Ha Hro])]; split; [..|exists a, ro; split]. Qed.

(** Changing a service's targets without touching what they are. *)
Lemma saved_lbs s active rollout lba lbr :
  saved s active rollout →
  (∀ lb, svActive s = Some lb → ∃ lb', lba = Some lb' ∧ LB.same_targets (all lb) (all lb')) →
  match svRollout s with
  | None => lbr = None
  | Some lb => ∃ lb', lbr = Some lb' ∧ LB.same_targets (all lb) (all lb')
  end →
  saved (with_lbs lba lbr s) active rollout.
Proof.
  intros [(lb & us & rs & Ha & Hn & Hs) Hro] HA HR. split; cbn.
  - destruct (HA lb Ha) as (lb' & -> & Hs'). exists lb', us, rs. split; [done|]. split; [done|].
    unfold LB.same_targets in *. by rewrite Hs.
  - destruct (svRollout s) as [l|]; [|by subst].
    destruct HR as (lb' & -> & Hs'). destruct Hro as (Hne & Hs2 & Hx). split; [done|]. split; [|done].
    unfold LB.same_targets in *. by rewrite Hs2.
Qed.

(** *** The table and the services *)

Lemma syncTLS_table m dflt o :
  let t := rebuild (routed <$> m) dflt o in routed <$> syncTLS t m = services t.
Proof.
  intros t. apply map_eq. intros n. unfold syncTLS. rewrite lookup_fmap, map_lookup_imap.
  pose proof (sync_retls (buildRequestServiceMap (routed <$> m) (order_build o)) (routed <$> m) (order_sync o) n)
    as Hr. rewrite lookup_fmap in Hr. unfold t in *. cbn [services rebuild] in *.
  destruct (m !! n) as [s|]; cbn in *.
  - inversion Hr as [? s' (Hw & _) Heq Heq'|]; subst. destruct Hw as (e & tl & ->). by cbn.
  - by inversion Hr.
Qed.

Lemma syncTLS_svc_ok t m :
  (∀ n s, m !! n = Some s → svc_ok s) → ∀ n s, syncTLS t m !! n = Some s → svc_ok s.
Proof.
  intros Hm n s. unfold syncTLS. rewrite map_lookup_imap.
  destruct (m !! n) as [s0|] eqn:Hs0; [|done]. cbn. intros [= <-].
  destruct (services t !! n); [apply svc_ok_tls|]; by eapply Hm.
Qed.

End router.

Section invariant.
Context `{SF : !SortFunc, SFS : !SortFuncSpec} `{!Regexp, !RateLimiter}.

Lemma svc_ok_routed s : svc_ok s → Routing.service_ok (routed s).
Proof. by intros [_ [_ Hp] _]. Qed.

Lemma putService_ok o s r :
  router_ok r → svc_ok s → range_orders (<[svName s := routed s]> (services (rtTable r))) o →
  CheckAvailability (rtTable r) (svName s) (routedOptions (svOptions s)) = None →
  router_ok (putService o s r).
Proof.
  intros [Hwf Ht Hs] Hok Ho Hca. unfold putService, SetService.
  change (name (routed s)) with (svName s). rewrite Ht, <- fmap_insert. split; cbn.
  - rewrite fmap_insert, <- Ht. eapply (installService_wf o (rtTable r) (routed s)); [done|by apply svc_ok_routed|done|].
    unfold installService. change (name (routed s)) with (svName s).
    change (options (routed s)) with (routedOptions (svOptions s)).
    by rewrite Hca.
  - symmetry. apply syncTLS_table.
  - apply syncTLS_svc_ok. intros n s' [[<- <-]|[_ ?]]%lookup_insert_Some; [done|by eapply Hs].
Qed.

Lemma dropService_ok o n r :
  router_ok r → is_Some (rtServices r !! n) → range_orders (delete n (services (rtTable r))) o →
  router_ok (dropService o n r).
Proof.
  intros Hr [s Hs] Ho. destruct Hr as [Hwf Ht Hall]. unfold dropService, ServiceMap.RemoveService.
  rewrite Ht, <- fmap_delete. split; cbn.
  - rewrite fmap_delete, <- Ht. eapply (removeService_wf o (rtTable r) n); [done|done|].
    unfold removeService, Get. rewrite Ht, lookup_fmap, Hs. cbn. unfold ServiceMap.RemoveService.
    assert (svName s = n) as ->; [|by rewrite Ht].
    apply (Routing.wf_names _ Hwf n (routed s)). by rewrite Ht, lookup_fmap, Hs.
  - symmetry. apply syncTLS_table.
  - apply syncTLS_svc_ok. intros n' s' [_ ?]%lookup_delete_Some. by eapply Hall.
Qed.

Lemma updateService_ok n s s' r :
  router_ok r → rtServices r !! n = Some s → svc_ok s' → routed s' = routed s → router_ok (updateService n s' r).
Proof.
  intros [Hwf Ht Hall] Hs Hok Hrt. split; cbn; [done| |].
  - rewrite fmap_insert, Hrt, Ht. symmetry. apply insert_id. by rewrite lookup_fmap, Hs.
  - intros m x [[<- <-]|[_ ?]]%lookup_insert_Some; [done|by eapply Hall].
Qed.

Lemma onService_ok n f r r' :
  router_ok r → (∀ s s', svc_ok s → f s = Ok s' → svc_ok s' ∧ routed s' = routed s) →
  onService n f r = Ok r' → router_ok r'.
Proof.
  intros Hr Hf. unfold onService. destruct (rtServices r !! n) as [s|] eqn:Hs; [|done].
  destruct (f s) as [s'|] eqn:Hfs; [|done]. cbn. intros [= <-].
  destruct (Hf s s') as [Hok Hrt]; [by eapply ro_services|done|]. by eapply updateService_ok.
Qed.

End invariant.

(** ** Histories *)

Section history.
Context `{SF : !SortFunc, SFS : !SortFuncSpec} `{!Regexp, !RateLimiter}.

(** Whatever probes and requests do to a service's load balancers. *)
Definition lb_evolves (x y : option LoadBalancer) : Prop :=
  match x, y with
  | None, None => True
  | Some lb, Some lb' => rtc LB.step lb lb'
  | _, _ => False
  end.

(** *** Services *)

Lemma saved_evolves s active rollout lba lbr :
  saved s active rollout → lb_evolves (svActive s) lba → lb_evolves (svRollout s) lbr →
  saved (with_lbs lba lbr s) active rollout.
Proof.
  intros Hs Ha Hr. apply saved_lbs; [done|..].
  - intros lb Hlb. rewrite Hlb in Ha. destruct lba as [lb'|]; [|done].
    exists lb'. split; [done|by apply steps_same_targets].
  - destruct (svRollout s) as [lb|], lbr as [lb'|]; try done.
    exists lb'. split; [done|by apply steps_same_targets].
Qed.

Lemma svc_ok_evolves s lba lbr :
  svc_ok s → lb_evolves (svActive s) lba → lb_evolves (svRollout s) lbr → svc_ok (with_lbs lba lbr s).
Proof.
  intros [Hh Hp (a & ro & Hs)] Ha Hr. split; [done|done|]. exists a, ro. by apply saved_evolves.
Qed.

(** What [svc_ok] reads. *)
Lemma svc_ok_ext s s' :
  svOptions s' = svOptions s → svActive s' = svActive s → svRollout s' = svRollout s → svc_ok s → svc_ok s'.
Proof.
  intros Ho Ha Hr [Hh Hp (a & ro & [Hsa Hsr])]. split; rewrite ?Ho; [done|done|].
  exists a, ro. split; rewrite ?Ha, ?Hr; done.
Qed.

Lemma lb_evolves_map (f : LoadBalancer → LoadBalancer) x :
  (∀ lb, rtc LB.step lb (f lb)) → lb_evolves x (f <$> x).
Proof. intros Hf. destruct x; cbn; auto. Qed.

Lemma suspend_ok s : svc_ok s → svc_ok (suspendForSleep s).
Proof.
  intros Hs. apply svc_ok_evolves; [done|..]; apply lb_evolves_map; apply SuspendForSleep_steps.
Qed.

Lemma SetContainerLifecycle_cases now lc s :
  let s1 := configureIdle now (svOptions s) (with_idle lc (svIdle s) s) in
  SetContainerLifecycle now lc s = s1 ∨ SetContainerLifecycle now lc s = suspendForSleep s1.
Proof.
  intros s1. unfold SetContainerLifecycle. cbn zeta.
  change (svOptions (with_idle lc (svIdle s) s)) with (svOptions s). fold s1.
  destruct (svIdle s1) as [c|]; [|by left]. case_bool_decide; [by right|by left].
Qed.

Lemma SetContainerLifecycle_ok now lc s : svc_ok s → svc_ok (SetContainerLifecycle now lc s).
Proof.
  intros Hs.
  assert (Hc : svc_ok (configureIdle now (svOptions s) (with_idle lc (svIdle s) s))) by by eapply svc_ok_ext, Hs.
  destruct (SetContainerLifecycle_cases now lc s) as [-> | ->]; [done|by apply suspend_ok].
Qed.

Lemma SetContainerLifecycle_routed now lc s : routed (SetContainerLifecycle now lc s) = routed s.
Proof. by destruct (SetContainerLifecycle_cases now lc s) as [-> | ->]. Qed.

Lemma createLoadBalancer_targets digest us rs so force settled lb :
  (∀ lb, rtc LB.step lb (settled lb).1) →
  createLoadBalancer digest us rs so force settled = Ok lb →
  ∃ ts, NewTargetList us rs = Ok ts ∧ LB.same_targets ts (all lb).
Proof.
  intros Hset. unfold createLoadBalancer. destruct (NewTargetList us rs) as [ts|]; [|done]. cbn.
  match goal with |- context [settled ?l] => 
    pose proof (Hset l) as Hl; set (lb0 := l) in *; destruct (settled lb0) as [lb' h] end.
  destruct (force || h); [|done]. intros [= <-]. exists ts. split; [done|].
  apply steps_same_targets in Hl. unfold LB.same_targets in *. cbn [fst] in Hl. rewrite <- Hl.
  unfold lb0, WithSessionAffinity. destruct (soSessionAffinity so); cbn; unfold BeginHealthChecks;
    by rewrite identity_healthchecks.
Qed.

Lemma NewTargetList_nonempty us rs ts : NewTargetList us rs = Ok ts → (us ++ rs)%list ≠ [] → ts ≠ [].
Proof.
  unfold NewTargetList. intros Hn Hne ->.
  apply result_bind_ok in Hn as (ws & Hws & Hn). apply result_bind_ok in Hn as (xs & Hxs & [= Hnil]).
  apply app_eq_nil in Hnil as [-> ->]. apply mapM_result_Forall2 in Hws, Hxs.
  by inversion Hws; inversion Hxs; subst.
Qed.

(** The options a deploy hands on. *)
Lemma NormalizeOptions_ok so :
  soHosts (NormalizeOptions so) ≠ [] ∧ soPathPrefixes (NormalizeOptions so) ≠ [] ∧
  Forall Routing.normalized (soPathPrefixes (NormalizeOptions so)).
Proof.
  cbn. unfold NormalizeHosts, NormalizePathPrefixes. split; [by destruct (soHosts so)|].
  destruct (soPathPrefixes so) as [|p ps]; (split; [done|]).
  - constructor; [|constructor]. by exists "".
  - apply Forall_forall. intros x (y & -> & _)%list_elem_of_fmap. by exists y.
Qed.

(** A deploy builds a service whose targets are the new ones, in front of
    whatever rollout it had. *)
Lemma deploy_svc_ok now files name so0 to r calls s lb ts us rs :
  router_ok r → NewTargetList us rs = Ok ts → LB.same_targets ts (all lb) →
  createOrUpdateService now files name (NormalizeOptions so0) to r = (calls, Ok s) →
  svName s = name ∧ svOptions s = NormalizeOptions so0 ∧
  svc_ok (UpdateLoadBalancer now lb TargetSlotActive s).1.
Proof.
  intros Hr Hts Hsame. unfold createOrUpdateService.
  assert (Hok : ∀ x, svOptions x = NormalizeOptions so0 →
    (svRollout x = None ∨ ∃ y, svc_ok y ∧ svRollout x = svRollout y) →
    svc_ok (UpdateLoadBalancer now lb TargetSlotActive x).1).
  { intros x Hx Hro. destruct (NormalizeOptions_ok so0) as (Hh & Hp & Hn).
    split; cbn; rewrite ?Hx; [done|done|].
    destruct Hro as [Hro|(y & [_ _ (a & ro & [_ Hsr])] & Hro)].
    - exists ts, []. split; cbn; [by eauto 10|]. by rewrite Hro.
    - exists ts, ro. split; cbn; [by eauto 10|]. by rewrite Hro. }
  destruct (rtServices r !! name) as [old|] eqn:Hold.
  - intros Hi. pose proof (router_ok_name r name old Hr Hold) as Hname.
    apply initialize_keeps in Hi as (Hn & Ho & _ & _ & Hro & _). split; [congruence|]. split; [done|].
    apply Hok; [done|]. right. exists old. split; [by eapply ro_services|done].
  - destruct (NewService now files name (NormalizeOptions so0) to (rtSAN r)) as [c x] eqn:Hnew.
    intros [= <- Hs]. apply result_bind_ok in Hs as (s1 & -> & [= <-]).
    apply initialize_keeps in Hnew as (Hn & Ho & _ & _ & Hro & _).
    assert (Hlc : ∀ x, svName (SetContainerLifecycle now (rtLifecycle r) x) = svName x ∧
                       svOptions (SetContainerLifecycle now (rtLifecycle r) x) = svOptions x ∧
                       (svRollout x = None → svRollout (SetContainerLifecycle now (rtLifecycle r) x) = None)).
    { intros x. destruct (SetContainerLifecycle_cases now (rtLifecycle r) x) as [-> | ->]; [done|].
      cbn. split; [done|]. split; [done|]. by intros ->. }
    destruct (Hlc (SetCacheStore (rtCacheStore r) s1)) as (-> & Hlo & Hlr).
    split; [done|]. split; [by rewrite Hlo|]. apply Hok; [by rewrite Hlo|]. left. by apply Hlr.
Qed.

Lemma UpdateLoadBalancer_routed now lb slot s : routed (UpdateLoadBalancer now lb slot s).1 = routed s.
Proof. by destruct slot. Qed.

Lemma UpdateLoadBalancer_name now lb slot s : svName (UpdateLoadBalancer now lb slot s).1 = svName s.
Proof. by destruct slot. Qed.

Lemma installLoadBalancer_ok o now name slot lb so calls s r r' replaced calls' :
  router_ok r → svName s = name → svOptions s = so →
  svc_ok (UpdateLoadBalancer now lb slot s).1 →
  (∀ s, svName s = name → range_orders (<[name := routed s]> (services (rtTable r))) o) →
  installLoadBalancer o now name slot lb so (calls, Ok s) r = (calls', Ok (r', replaced)) → router_ok r'.
Proof.
  intros Hr Hn Hso Hok Ho. unfold installLoadBalancer.
  destruct (CheckAvailability _ _ _) eqn:Hca; [done|]. cbn [lift_deploy mbind result_bind].
  destruct (UpdateLoadBalancer now lb slot s) as [s' rep] eqn:Hu. intros [= _ <- _].
  pose proof (UpdateLoadBalancer_routed now lb slot s) as Hrt.
  pose proof (UpdateLoadBalancer_name now lb slot s) as Hsn. rewrite Hu in *. cbn in *.
  apply putService_ok; [done|done| |].
  - rewrite Hsn, Hn. apply Ho. by rewrite Hsn.
  - rewrite Hsn, Hn.
    assert (Hopts : routedOptions (svOptions s') = routedOptions so)
      by (rewrite <- Hso; exact (f_equal ServiceMap.options Hrt)). by rewrite Hopts.
Qed.

Lemma PauseService_ok (f : Svc → result ServiceError Svc) s s' :
  (f s = Ok s' → ∃ p, s' = with_pause p s) → svc_ok s → f s = Ok s' → svc_ok s' ∧ routed s' = routed s.
Proof. intros Hf Hs Hok. destruct (Hf Hok) as [p ->]. split; [by eapply svc_ok_ext, Hs|done]. Qed.

Lemma fmap_services_ok (f : Svc → Svc) r rec san cache lc :
  router_ok r → (∀ s, svc_ok s → svc_ok (f s) ∧ routed (f s) = routed s) →
  router_ok (mkRouter (rtTable r) (f <$> rtServices r) rec san cache lc).
Proof.
  intros [Hwf Ht Hall] Hf. split; cbn; [done| |].
  - rewrite Ht. apply map_eq. intros n. rewrite !lookup_fmap.
    destruct (rtServices r !! n) as [s|] eqn:Hs; cbn; [|done].
    by destruct (Hf s (Hall n s Hs)) as [_ ->].
  - intros n s. rewrite lookup_fmap. destruct (rtServices r !! n) as [s0|] eqn:Hs; [|done].
    cbn. intros [= <-]. by apply Hf, (Hall n).
Qed.

(** *** Saving and restoring *)

Lemma saved_marshals s active rollout : saved s active rollout → is_Some (MarshalService s).
Proof. intros [(lb & us & rs & Ha & _) _]. unfold MarshalService. rewrite Ha. by eexists. Qed.

Lemma snapshot_Some order r :
  router_ok r → (∀ n, n ∈ order → is_Some (rtServices r !! n)) → is_Some (snapshot order r).
Proof.
  intros Hr Hin. apply mapM_is_Some. apply Forall_forall. intros n Hn.
  destruct (Hin n Hn) as [s Hs]. unfold compose. rewrite Hs. cbn.
  destruct (so_targets s (ro_services r Hr n s Hs)) as (a & ro & Hsv). by eapply saved_marshals.
Qed.

Lemma routed_service r host path n p :
  router_ok r → serviceFor (requestMap (rtTable r)) host path = Some (n, p) →
  ∃ s, rtServices r !! n = Some s ∧ p ∈ soPathPrefixes (svOptions s).
Proof.
  intros Hr Hsf. apply serviceFor_routes in Hsf as (h & _ & (x & Hx & _ & Hp) & _); [|by apply ro_wf].
  rewrite (ro_table r Hr), lookup_fmap in Hx. destruct (rtServices r !! n) as [s|]; [|done].
  injection Hx as <-. eauto.
Qed.

(** The state a file holds can be built again on this host. *)
Definition rebuildable (now : Z) (files : HostFiles) (r : Router) : Prop :=
  ∀ n s, rtServices r !! n = Some s →
    let so := NormalizeOptions (svOptions s) in
    ∃ calls s1, initialize now files so (svTargetOptions s)
                  (blankService (svName s) so (svTargetOptions s) false) = (calls, Ok s1).

(** What of a service a restart keeps. *)
Record restored (s s' : Svc) : Prop := {
  rst_name : svName s' = svName s;
  rst_options : svOptions s' = NormalizeOptions (svOptions s);
  rst_targets : ∃ a ro, saved s a ro ∧ saved s' a ro;
  rst_split : svRolloutController s' = svRolloutController s;
  rst_pause : pcState (svPause s') = pcState (svPause s);
  rst_message : pcState (svPause s) = PauseStateStopped → pcStopMessage (svPause s') = pcStopMessage (svPause s);
  rst_idle : svRestoredIdle s' = IdleStateSleeping ↔ ∃ c, svIdle s = Some c ∧ icState c ≠ IdleStateActive }.

Lemma restoredLB_targets digest so ts : LB.same_targets ts (all (restoredLB digest so ts)).
Proof.
  unfold restoredLB.
  assert (Hsame : ∀ lb, LB.same_targets ts (all lb) → LB.same_targets ts (all (MarkAllHealthy lb))).
  { intros lb Hlb. pose proof (steps_same_targets _ _ (MarkAllHealthy_steps lb)) as Hm.
    unfold LB.same_targets in *. by rewrite Hlb. }
  apply Hsame. unfold WithSessionAffinity, LB.same_targets.
  destruct (soSessionAffinity so); cbn; unfold BeginHealthChecks; by rewrite identity_healthchecks.
Qed.

Lemma restore_one now files digest r n s :
  router_ok r → rebuildable now files r → rtServices r !! n = Some s →
  ∃ ms calls s', MarshalService s = Some ms ∧ UnmarshalService now files digest ms = (calls, Ok s') ∧
    restored s s' ∧ svc_ok s'.
Proof.
  intros Hr Hb Hs. destruct (ro_services r Hr n s Hs) as [Hh Hp (a & ro & Hsv)].
  destruct (Hb n s Hs) as (calls & s1 & Hi).
  destruct (service_state_roundtrip now files digest s a ro calls s1 Hsv Hi)
    as (ms & s' & Hm & Hu & Hn & Ho & _ & Ha & Hro & Hrc & Hps & Hmsg & Hidle).
  assert (Hsv' : saved s' a ro).
  { destruct Hsv as [(lb & us & rs & _ & Hts & _) Hsr]. split.
    - rewrite Ha. eexists _, us, rs. split; [done|]. split; [done|apply restoredLB_targets].
    - rewrite Hro. destruct (svRollout s) as [lbr|].
      + destruct Hsr as (Hne & _ & Hx). rewrite bool_decide_false by done.
        split; [done|]. split; [apply restoredLB_targets|done].
      + by rewrite bool_decide_true. }
  exists ms, calls, s'. split; [done|]. split; [done|]. split; [split; eauto|].
  destruct (NormalizeOptions_ok (svOptions s)) as (H1 & H2 & H3).
  split; rewrite ?Ho; [done|done|]. eauto.
Qed.

Lemma restore_all now files digest r order :
  router_ok r → rebuildable now files r → (∀ n, n ∈ order → is_Some (rtServices r !! n)) →
  ∃ docs l, snapshot order r = Some docs ∧ restoreServices now files digest docs = Ok l ∧
    Forall2 (λ n s', ∃ s, rtServices r !! n = Some s ∧ restored s s' ∧ svc_ok s') order l.
Proof.
  intros Hr Hb. induction order as [|n order IH]; intros Hin; [by exists [], []|].
  destruct (Hin n) as [s Hs]; [by left|]. destruct IH as (docs & l & Hd & Hl & HF); [by intros; apply Hin; right|].
  destruct (restore_one now files digest r n s Hr Hb Hs) as (ms & calls & s' & Hm & Hu & Hre & Hok).
  exists (ms :: docs), (s' :: l). split.
  { unfold snapshot in *. cbn. rewrite Hs. cbn. rewrite Hm. cbn. by rewrite Hd. }
  split; [cbn; rewrite Hu; cbn; by rewrite Hl|]. constructor; [|done]. eauto.
Qed.

(** The orders of the updates a restore makes. *)
Fixpoint restore_orders (os : list RangeOrders) (l : list Svc) (r : Router) {struct l} : Prop :=
  match l, os with
  | [], _ => True
  | s :: l, o :: os => range_orders (<[svName s := routed s]> (services (rtTable r))) o ∧
      restore_orders os l (putService o s r)
  | _ :: _, [] => False
  end.

(** The bindings of a service do not depend on the TLS settings. *)
Lemma putService_binds o s r h p n :
  router_ok r → Routing.binds (services (rtTable (putService o s r))) h p n ↔
  (n = svName s ∧ h ∈ soHosts (svOptions s) ∧ p ∈ soPathPrefixes (svOptions s)) ∨
  (n ≠ svName s ∧ Routing.binds (services (rtTable r)) h p n).
Proof.
  intros Hr. change (svName s) with (name (routed s)).
  change (soHosts (svOptions s)) with (Hosts (options (routed s))).
  change (soPathPrefixes (svOptions s)) with (PathPrefixes (options (routed s))).
  rewrite <- binds_insert. cbn [putService rtTable with_services]. unfold SetService, rebuild. cbn [services].
  symmetry. apply retls_binds. apply sync_retls.
Qed.

(** A service of a running router, as restored. *)
Definition restored_from (r : Router) (s' : Svc) : Prop :=
  ∃ s, rtServices r !! svName s' = Some s ∧ restored s s' ∧ svc_ok s'.

Lemma restored_from_bindings r s' :
  router_ok r → restored_from r s' →
  ∃ s, rtServices r !! svName s' = Some s ∧
    soHosts (svOptions s') = soHosts (svOptions s) ∧ soPathPrefixes (svOptions s') = soPathPrefixes (svOptions s).
Proof.
  intros Hr (s & Hs & [_ -> _ _ _ _ _] & _). exists s. split; [done|].
  destruct (ro_services r Hr _ s Hs) as [Hh [Hp Hn] _]. cbn.
  unfold NormalizeHosts, NormalizePathPrefixes.
  split; [by destruct (soHosts (svOptions s))|].
  destruct (soPathPrefixes (svOptions s)) as [|x l] eqn:El; [done|]. rewrite <- El in *.
  rewrite <- (map_id (soPathPrefixes (svOptions s))) at 2. apply map_ext_in. intros y Hy%list_elem_of_In.
  rewrite Forall_forall in Hn. destruct (Hn y Hy) as [q ->]. apply NormalizePathPrefix_idemp.
Qed.

Lemma restored_from_binds r s' h p :
  router_ok r → restored_from r s' →
  h ∈ soHosts (svOptions s') ∧ p ∈ soPathPrefixes (svOptions s') ↔
  Routing.binds (services (rtTable r)) h p (svName s').
Proof.
  intros Hr Hf. destruct (restored_from_bindings r s' Hr Hf) as (s & Hs & -> & ->).
  unfold Routing.binds. rewrite (ro_table r Hr), lookup_fmap, Hs. cbn. naive_solver.
Qed.

Lemma putServices_ok r l : router_ok r → Forall (restored_from r) l → NoDup (svName <$> l) →
  ∀ os acc, router_ok acc → restore_orders os l acc →
  (∀ h p n, Routing.binds (services (rtTable acc)) h p n → Routing.binds (services (rtTable r)) h p n) →
  router_ok (putServices os l acc) ∧
  ∀ h p n, Routing.binds (services (rtTable (putServices os l acc))) h p n ↔
    ((n ∈ (svName <$> l)) ∧ Routing.binds (services (rtTable r)) h p n) ∨
    ((n ∉ (svName <$> l)) ∧ Routing.binds (services (rtTable acc)) h p n).
Proof.
  intros Hr. induction l as [|s l IH]; intros HF Hnd os acc Hacc Hos Hsub.
  { cbn. split; [done|]. set_solver. }
  apply Forall_cons in HF as [Hs HF]. apply NoDup_cons in Hnd as [Hnin Hnd]. cbn [putServices restore_orders] in *.
  destruct os as [|o os]; [done|]. destruct Hos as [Ho Hos].
  assert (Hput : router_ok (putService o s acc)).
  { destruct Hs as (s0 & Hs0 & Hre & Hok). apply putService_ok; [done|done|done|].
    apply CheckAvailability_None; [by apply ro_wf|]. cbn. intros h p n' Hh Hp Hb.
    eapply (Routing.wf_exclusive _ (ro_wf r Hr) h p); [by apply Hsub|].
    apply restored_from_binds; [done|by exists s0|done]. }
  assert (Hb : ∀ h p n, Routing.binds (services (rtTable (putService o s acc))) h p n ↔
    (n = svName s ∧ Routing.binds (services (rtTable r)) h p n) ∨
    (n ≠ svName s ∧ Routing.binds (services (rtTable acc)) h p n)).
  { intros h p n. rewrite putService_binds by done.
    pose proof (restored_from_binds r s h p Hr Hs) as Hrb. naive_solver. }
  destruct (IH HF Hnd os (putService o s acc) Hput Hos) as [Hok Hbinds].
  { intros h p n. rewrite Hb. intros [[_ ?]|[_ ?]]; [done|by apply Hsub]. }
  split; [done|]. intros h p n. rewrite Hbinds, Hb, fmap_cons, elem_of_cons.
  destruct (decide (n = svName s)) as [->|Hne]; naive_solver.
Qed.

Lemma awaken_ok now r s : svc_ok s → svc_ok (awaken now r s) ∧ routed (awaken now r s) = routed s.
Proof.
  intros Hs. unfold awaken.
  assert (Hrc : ∀ x, svc_ok x → svc_ok (RecheckTargetHealth x)).
  { intros x Hx. apply svc_ok_evolves; [done|..]; apply lb_evolves_map; apply RecheckHealth_steps. }
  pose proof (SetContainerLifecycle_ok now true s Hs) as Hl.
  pose proof (SetContainerLifecycle_routed now true s) as Hl'.
  destruct (rtLifecycle r), (rtRecheck r); auto.
Qed.

Lemma rollout_installed_ok o now digest settled name us rs force found lb r r' replaced :
  (∀ lb, rtc LB.step lb (settled lb).1) → (us ++ rs)%list ≠ [] →
  (∀ s, svName s = name → range_orders (<[name := routed s]> (services (rtTable r))) o) →
  router_ok r → svName found = name → svc_ok found →
  createLoadBalancer digest us rs (svOptions found) force settled = Ok lb →
  rolloutInstall o now name lb found r = Ok (r', replaced) → router_ok r'.
Proof.
  intros Hset Hne Ho Hr Hn [Hh Hp (a & ro & [Hsa Hsr])] Hlb Hx.
  apply createLoadBalancer_targets in Hlb as (ts & Hts & Hsame); [|done].
  unfold rolloutInstall in Hx.
  destruct (installLoadBalancer _ _ _ _ _ _ _ _) as [calls' y] eqn:Hi. cbn in Hx. subst y.
  eapply (installLoadBalancer_ok o now name TargetSlotRollout lb (svOptions found) [] found); [done|done|done| |done|done].
  split; cbn; [done|done|]. exists a, ts. split; cbn; [done|].
  split; [by eapply NewTargetList_nonempty|]. split; [done|eauto].
Qed.

(** A restored router is as good as the one that was saved. *)
Lemma router_restart_ok now files digest r order docs l :
  router_ok r → rebuildable now files r → order ≡ₚ elements (dom (rtServices r)) →
  snapshot order r = Some docs → restoreServices now files digest docs = Ok l →
  Forall2 (λ n s', ∃ s, rtServices r !! n = Some s ∧ restored s s' ∧ svc_ok s') order l ∧
  svName <$> l = order ∧
  ∀ r0 os, restore_orders os l (with_services NewServiceMap ∅ r0) →
    router_ok (restoreInto now os l r0) ∧
    ∀ h p n, Routing.binds (services (rtTable (restoreInto now os l r0))) h p n ↔
      (n ∈ order ∧ Routing.binds (services (rtTable r)) h p n).
Proof.
  intros Hr Hb Ho Hd Hl.
  destruct (restore_all now files digest r order Hr Hb) as (docs' & l' & Hd' & Hl' & HF).
  { intros n Hn. rewrite Ho in Hn. by apply elem_of_elements, elem_of_dom in Hn. }
  assert (docs' = docs) as -> by congruence. assert (l' = l) as -> by congruence.
  split; [done|].
  assert (Hnames : svName <$> l = order).
  { clear -HF Hr. induction HF as [|n s' order l (s & Hs & [Hn _ _ _ _ _ _] & _) _ IH]; [done|]. cbn.
    rewrite IH, Hn. f_equal. by apply router_ok_name with r. }
  split; [done|].
  assert (HF' : Forall (restored_from r) l).
  { clear -HF Hr. induction HF as [|n s' order l (s & Hs & Hre & Hok) _ IH]; constructor; [|done].
    exists s. rewrite (rst_name _ _ Hre), (router_ok_name r n s Hr Hs). done. }
  intros r0 os Hos. unfold restoreInto.
  destruct (putServices_ok r l Hr HF') with (os := os) (acc := with_services NewServiceMap ∅ r0)
    as [Hok Hbinds]; [|split; cbn; [apply NewServiceMap_wf|by rewrite fmap_empty|done]|done| |].
  { rewrite Hnames, Ho. apply NoDup_elements. }
  { intros h p n (x & Hx & _). done. }
  split; [apply fmap_services_ok; [done|]; intros s Hs; by apply awaken_ok|].
  intros h p n. cbn [rtTable with_services]. rewrite Hbinds, Hnames. split; [|by left].
  intros [?|[_ (x & Hx & _)]]; done.
Qed.

(** *** Every step *)

(** The operations on a running router, each an uninterrupted critical section;
    [settled] only ever runs probes.  The targets of a rollout are waited for
    between looking the service up and installing it, so that what is installed
    may be any service that was ever found under the name ([rs_rollout_late]); a
    restart puts back what was saved, on a router [r0] with the settings of the
    new process. *)
Inductive router_step (r : Router) : Router → Prop :=
| rs_deploy o now files digest ex settled name us rs so to force :
    (∀ lb, rtc LB.step lb (settled lb).1) →
    (∀ s, svName s = name → range_orders (<[name := routed s]> (services (rtTable r))) o) →
    router_step r (dpRouter (DeployService o now files digest ex settled name us rs so to force r))
| rs_rollout o now digest settled name us rs force r' replaced :
    (∀ lb, rtc LB.step lb (settled lb).1) → (us ++ rs)%list ≠ [] →
    (∀ s, svName s = name → range_orders (<[name := routed s]> (services (rtTable r))) o) →
    SetRolloutTargets o now digest settled name us rs force r = Ok (r', replaced) → router_step r r'
| rs_rollout_late o now digest settled name us rs force found lb r' replaced :
    (∀ lb, rtc LB.step lb (settled lb).1) → (us ++ rs)%list ≠ [] →
    (∀ s, svName s = name → range_orders (<[name := routed s]> (services (rtTable r))) o) →
    svName found = name → svc_ok found →
    createLoadBalancer digest us rs (svOptions found) force settled = Ok lb →
    rolloutInstall o now name lb found r = Ok (r', replaced) → router_step r r'
| rs_restart now files digest order docs l r0 os :
    rebuildable now files r → order ≡ₚ elements (dom (rtServices r)) →
    snapshot order r = Some docs → restoreServices now files digest docs = Ok l →
    restore_orders os l (with_services NewServiceMap ∅ r0) → router_step r (restoreInto now os l r0)
| rs_remove o name r' s :
    range_orders (delete name (services (rtTable r))) o →
    RouterRemove o name r = Ok (r', s) → router_step r r'
| rs_split name percent allow r' : RouterSetRolloutSplit name percent allow r = Ok r' → router_step r r'
| rs_unsplit name r' : RouterStopRollout name r = Ok r' → router_step r r'
| rs_pause name timeout r' : RouterPause name timeout r = Ok r' → router_step r r'
| rs_stop name message r' : RouterStop name message r = Ok r' → router_step r r'
| rs_resume name r' : RouterResume name r = Ok r' → router_step r r'
| rs_cache store : router_step r (RouterSetCacheStore store r)
| rs_lifecycle now lc : router_step r (RouterSetContainerLifecycle now lc r)
| rs_recheck : router_step r (EnableTargetRecheckOnRestore r)
| rs_targets name s active rollout :
    rtServices r !! name = Some s → lb_evolves (svActive s) active → lb_evolves (svRollout s) rollout →
    router_step r (updateService name (with_lbs active rollout s) r).

Definition router_reachable (r : Router) : Prop := rtc router_step NewRouter r.

Lemma router_step_ok r r' : router_step r r' → router_ok r → router_ok r'.
Proof.
  intros Hstep Hr.
  destruct Hstep as [o now files digest ex settled name us rs so to force Hset Ho
    |o now digest settled name us rs force r' replaced Hset Hne Ho Hx
    |o now digest settled name us rs force found lb r' replaced Hset Hne Ho Hn Hf Hlb Hx
    |now files digest order docs l r0 os Hb Ho Hd Hl Hos|o name r' s Ho Hx
    |name percent al r' Hx|name r' Hx|name timeout r' Hx|name message r' Hx|name r' Hx|store|now lc|
    |name s active rollout Hs Ha Hro].
  - unfold DeployService. destruct (validateDeploy _ _ _ _ _); [|done].
    destruct (createLoadBalancer _ _ _ _ _ _) as [lb|] eqn:Hlb; [|done].
    apply createLoadBalancer_targets in Hlb as (ts & Hts & Hsame); [|done].
    destruct (createOrUpdateService now files name (NormalizeOptions so) to r) as [calls [s|e]] eqn:Hc.
    2:{ unfold installLoadBalancer. by destruct (CheckAvailability _ _ _). }
    destruct (installLoadBalancer _ _ _ _ _ _ _ _) as [calls' [[r' rep]|e]] eqn:Hi; [|done]. cbn.
    destruct (deploy_svc_ok now files name so to r calls s lb ts us rs Hr Hts Hsame Hc) as (Hn & Hopt & Hok).
    by eapply installLoadBalancer_ok.
  - unfold SetRolloutTargets, rolloutLookup in Hx.
    destruct (rtServices r !! name) as [s|] eqn:Hs; [|done]. cbn in Hx.
    apply result_bind_ok in Hx as (lb & Hlb & Hx). eapply rollout_installed_ok; [done..| | |done|done].
    + by eapply router_ok_name.
    + by eapply ro_services.
  - by eapply rollout_installed_ok.
  - by destruct (router_restart_ok now files digest r order docs l Hr Hb Ho Hd Hl) as (_ & _ & Hok); apply Hok.
  - unfold RouterRemove in Hx. destruct (rtServices r !! name) as [s0|] eqn:Hs; [|done].
    injection Hx as <- _. rewrite (router_ok_name r name s0 Hr Hs). apply dropService_ok; eauto.
  - eapply onService_ok; [done| |exact Hx]. intros s s' Hok. unfold SetRolloutSplit.
    destruct (svRollout s) eqn:Hro; [|done]. intros [= <-]. split; [by eapply svc_ok_ext, Hok|done].
  - eapply onService_ok; [done| |exact Hx]. intros s s' Hok [= <-]. split; [by eapply svc_ok_ext, Hok|done].
  - eapply onService_ok; [done| |exact Hx]. intros s s' Hok. apply PauseService_ok; [|done].
    unfold PauseService. destruct (Pause _ _); [|done]. intros [= <-]. eauto.
  - eapply onService_ok; [done| |exact Hx]. intros s s' Hok. apply PauseService_ok; [|done].
    unfold StopService. destruct (Stop _ _); [|done]. intros [= <-]. eauto.
  - eapply onService_ok; [done| |exact Hx]. intros s s' Hok. apply PauseService_ok; [|done].
    unfold ResumeService. destruct (Resume _); [|done]. intros [= <-]. eauto.
  - apply fmap_services_ok; [done|]. intros s Hok. split; [by eapply svc_ok_ext, Hok|done].
  - apply fmap_services_ok; [done|]. intros s Hok.
    split; [by apply SetContainerLifecycle_ok|apply SetContainerLifecycle_routed].
  - by destruct Hr.
  - eapply updateService_ok; [done|done| |done]. apply svc_ok_evolves; [by eapply ro_services|done|done].
Qed.

Lemma NewRouter_ok : router_ok NewRouter.
Proof. split; cbn; [apply NewServiceMap_wf|by rewrite fmap_empty|done]. Qed.

Lemma router_reachable_ok r : router_reachable r → router_ok r.
Proof.
  apply (rtc_ind_r (R:=router_step) router_ok NewRouter); [apply NewRouter_ok|].
  intros x y _ Hxy Hx. by eapply router_step_ok.
Qed.

(** ** Theorems *)

(** C3: after any history of deploys, rollouts (of at least one target, looked
    up when they began), removals, pauses, restarts from the saved state, and
    what health checks and requests do in between, the router is consistent: no
    host and prefix belongs to two services, a request is only ever routed to a
    service that is there under that name and holds a load balancer over the
    targets that a target list named (which is empty when the deploy's was), and
    the state can be saved (no service is without the load balancer that saving
    reads). *)
Theorem router_consistent r :
  router_reachable r →
  Routing.exclusive (services (rtTable r)) ∧
  (∀ req n req', routeRequest r req = Some (n, req') →
     ∃ s lb us rs ts, rtServices r !! n = Some s ∧ svName s = n ∧ svActive s = Some lb ∧
       NewTargetList us rs = Ok ts ∧ LB.same_targets (all lb) ts) ∧
  (∀ order, order ≡ₚ elements (dom (rtServices r)) → is_Some (snapshot order r)).
Proof.
  intros Hr%router_reachable_ok. split; [by apply Routing.wf_exclusive, ro_wf|]. split.
  - intros req n req'. unfold routeRequest, ServiceForRequest.
    destruct (serviceFor _ _ _) as [[m p]|] eqn:Hsf; [|done]. intros [= <- _].
    destruct (routed_service r _ _ m p Hr Hsf) as (s & Hs & _).
    destruct (so_targets s (ro_services r Hr m s Hs)) as (a & ro & [(lb & us & rs & Hlb & Hts & Hsame) _]).
    exists s, lb, us, rs, a. split; [done|]. split; [by eapply router_ok_name|done].
  - intros order Ho. apply snapshot_Some; [done|]. intros n Hn. rewrite Ho in Hn.
    by apply elem_of_elements, elem_of_dom in Hn.
Qed.

(** C19: a restart serves what was served.  Where the options of every service
    can still be built on this host, the saved state reads back whatever order
    it was written in; every service comes back with its options, its targets
    with their weights, its rollout split, and its pause, stop or sleep; and
    the restored router, in whatever order the services are put back, routes
    every request to the same service under the same prefix. *)
Theorem restart_restores now files digest r order :
  router_reachable r → rebuildable now files r → order ≡ₚ elements (dom (rtServices r)) →
  ∃ docs l, snapshot order r = Some docs ∧ restoreServices now files digest docs = Ok l ∧
    Forall2 (λ n s', ∃ s, rtServices r !! n = Some s ∧ restored s s') order l ∧
    ∀ r0 os, restore_orders os l (with_services NewServiceMap ∅ r0) →
      let r' := restoreInto now os l r0 in
      router_ok r' ∧
      ∀ host path, ServiceForRequest (rtTable r') host path = ServiceForRequest (rtTable r) host path.
Proof.
  intros Hr%router_reachable_ok Hb Ho.
  destruct (restore_all now files digest r order Hr Hb) as (docs & l & Hd & Hl & _).
  { intros n Hn. rewrite Ho in Hn. by apply elem_of_elements, elem_of_dom in Hn. }
  destruct (router_restart_ok now files digest r order docs l Hr Hb Ho Hd Hl) as (HF & _ & Hput).
  exists docs, l. split; [done|]. split; [done|]. split.
  { eapply Forall2_impl; [exact HF|]. cbn. naive_solver. }
  intros r0 os Hos. cbn zeta. destruct (Hput r0 os Hos) as [Hok Hbinds]. split; [done|].
  intros host path. unfold ServiceForRequest.
  apply same_binds_same_routes; [by apply ro_wf|by apply ro_wf|].
  intros h p n. rewrite Hbinds. split; [by intros [_ ?]|].
  intros Hbd. split; [|done]. rewrite Ho. apply elem_of_elements, elem_of_dom.
  destruct Hbd as (x & Hx & _). rewrite (ro_table r Hr), lookup_fmap in Hx.
  destruct (rtServices r !! n); [by eexists|done].
Qed.

(** *** Deploying *)

Lemma syncTLS_lookup t m n s :
  m !! n = Some s → ∃ e tl, syncTLS t m !! n = Some (with_tls_options (set_tls e tl (svOptions s)) s).
Proof.
  intros Hs. unfold syncTLS. rewrite map_lookup_imap, Hs. cbn.
  destruct (services t !! n) as [x|]; [by eauto|].
  exists (soTLSEnabled (svOptions s)), (soTLSRedirect (svOptions s)). f_equal. by destruct s as [? []].
Qed.

(** What a redeploy carries over from the service it updates. *)
Definition carried (old : option Svc) (s' : Svc) : Prop :=
  match old with
  | Some s => svRollout s' = svRollout s ∧ svPause s' = svPause s ∧
      svRolloutController s' = svRolloutController s
  | None => svRollout s' = None ∧ svPause s' = NewPauseController ∧ svRolloutController s' = None
  end.

Lemma createOrUpdate_carried now files name so to r calls s :
  createOrUpdateService now files name so to r = (calls, Ok s) → carried (rtServices r !! name) s.
Proof.
  unfold createOrUpdateService. destruct (rtServices r !! name) as [old|].
  - intros (_ & _ & _ & _ & Hro & Hp & Hrc & _)%initialize_keeps. done.
  - destruct (NewService _ _ _ _ _ _) as [c x] eqn:Hnew. intros [= _ Hs].
    apply result_bind_ok in Hs as (s1 & -> & [= <-]).
    apply initialize_keeps in Hnew as (_ & _ & _ & _ & Hro & Hp & Hrc & _).
    destruct (SetContainerLifecycle_cases now (rtLifecycle r) (SetCacheStore (rtCacheStore r) s1)) as [-> | ->];
      cbn; rewrite ?Hro; done.
Qed.

(** C30: a deploy that succeeds takes effect as a whole: the service holds the
    new targets and options and keeps its rollout, its split and its pause; the
    routes of the service are the requested ones, and every other service has
    exactly the routes it had. *)
Theorem deploy_takes_effect o now files digest ex settled name us rs so to force r replaced :
  router_reachable r → (∀ lb, rtc LB.step lb (settled lb).1) →
  let d := DeployService o now files digest ex settled name us rs so to force r in
  dpResult d = Ok replaced →
  (∃ s' lb ts, rtServices (dpRouter d) !! name = Some s' ∧ svActive s' = Some lb ∧
     NewTargetList us rs = Ok ts ∧ LB.same_targets ts (all lb) ∧
     (∃ e tl, svOptions s' = set_tls e tl (NormalizeOptions so)) ∧ carried (rtServices r !! name) s') ∧
  (∀ h p n, Routing.binds (services (rtTable (dpRouter d))) h p n ↔
     (n = name ∧ h ∈ soHosts (NormalizeOptions so) ∧ p ∈ soPathPrefixes (NormalizeOptions so)) ∨
     (n ≠ name ∧ Routing.binds (services (rtTable r)) h p n)).
Proof.
  intros Hr%router_reachable_ok Hset d. unfold d, DeployService. clear d.
  destruct (validateDeploy _ _ _ _ _); [|done].
  destruct (createLoadBalancer _ _ _ _ _ _) as [lb|] eqn:Hlb; [|done].
  apply createLoadBalancer_targets in Hlb as (ts & Hts & Hsame); [|done].
  unfold installLoadBalancer. destruct (CheckAvailability _ _ _); [done|].
  destruct (createOrUpdateService now files name (NormalizeOptions so) to r) as [calls [s|e]] eqn:Hc; [|done].
  cbn [lift_deploy mbind result_bind].
  destruct (deploy_svc_ok now files name so to r calls s lb ts us rs Hr Hts Hsame Hc) as (Hn & Hopt & _).
  apply createOrUpdate_carried in Hc as Hcar.
  destruct (UpdateLoadBalancer now lb TargetSlotActive s) as [s' rep] eqn:Hu. intros _. cbn [dpRouter].
  assert (Hs' : svName s' = name ∧ svOptions s' = NormalizeOptions so ∧ svActive s' = Some lb ∧
                carried (rtServices r !! name) s').
  { unfold UpdateLoadBalancer in Hu. injection Hu as <- _. cbn. split; [done|]. split; [done|]. split; [done|].
    by destruct (rtServices r !! name). }
  destruct Hs' as (Hn' & Ho' & Ha' & Hcar'). split.
  - unfold putService. cbn [rtServices with_services]. rewrite Hn'.
    destruct (syncTLS_lookup (SetService o (rtTable r) (routed s')) (<[name := s']> (rtServices r)) name s')
      as (e & tl & Hl); [apply lookup_insert_eq|].
    eexists _, lb, ts. split; [exact Hl|]. cbn. rewrite Ho'. split; [done|]. split; [done|]. split; [done|].
    split; [by eauto|]. by destruct (rtServices r !! name).
  - intros h p n. rewrite putService_binds by done. by rewrite Hn', Ho'.
Qed.

(** ** What goes wrong *)

(** A deploy refused because of its hosts has already started its targets'
    health checks, and nothing stops them. *)
Lemma conflict_leaves_probes o now files digest ex name us rs so to force r other ts :
  validateDeploy (rtLifecycle r) ex so to us = Ok tt → NewTargetList us rs = Ok ts →
  CheckAvailability (rtTable r) name (routedOptions (NormalizeOptions so)) = Some other →
  ∃ lb, dpOrphan (DeployService o now files digest ex (λ lb, (lb, true)) name us rs so to force r) = Some lb ∧
    dpResult (DeployService o now files digest ex (λ lb, (lb, true)) name us rs so to force r) =
      Err (DeployRouter ErrorHostInUse) ∧
    Forall (λ t, healthcheck t = true) (all lb).
Proof.
  intros Hv Ht Hc. unfold DeployService. rewrite Hv. unfold createLoadBalancer. rewrite Ht. cbn [lift_deploy mbind result_bind].
  rewrite orb_true_r. unfold installLoadBalancer. rewrite Hc. eexists. split; [reflexivity|]. split; [reflexivity|].
  assert (HB : Forall (λ t, healthcheck t = true) (BeginHealthChecks ts)).
  { apply Forall_forall. intros t (y & -> & _)%list_elem_of_fmap. done. }
  unfold WithSessionAffinity. by destruct (soSessionAffinity _).
Qed.

(** A service that is removed while the targets of its rollout are waited for
    is put back, its health checks stopped, when they are healthy. *)
Lemma rollout_resurrects o now name lb s r :
  svName s = name → rtServices r !! name = None →
  CheckAvailability (rtTable r) name (routedOptions (svOptions s)) = None →
  ∃ r' rep s', rolloutInstall o now name lb (DisposeService s) r = Ok (r', rep) ∧
    rtServices r' !! name = Some s' ∧ svActive s' = Dispose <$> svActive s.
Proof.
  intros Hn Hnone Hca. unfold rolloutInstall, installLoadBalancer.
  change (svOptions (DisposeService s)) with (svOptions s). rewrite Hca. cbn [snd lift_deploy mbind result_bind].
  destruct (UpdateLoadBalancer now lb TargetSlotRollout (DisposeService s)) as [s' rep] eqn:Hu.
  assert (Hs' : svName s' = name ∧ svActive s' = Dispose <$> svActive s).
  { unfold UpdateLoadBalancer in Hu. injection Hu as <- _. by cbn. }
  destruct Hs' as [Hn' Ha'].
  destruct (syncTLS_lookup (SetService o (rtTable r) (routed s')) (<[name := s']> (rtServices r)) name s')
    as (e & tl & Hl); [apply lookup_insert_eq|].
  eexists _, _, _. split; [reflexivity|].
  unfold putService. cbn [rtServices with_services]. rewrite Hn'. split; [exact Hl|]. done.
Qed.

End history.

Module RouterExamples.

#[local] Existing Instance literal_regexp.
#[local] Existing Instance RateLimitExamples.exact_limiter.
#[local] Existing Instance insertion_SortFunc.
#[local] Existing Instance insertion_SortFuncSpec.
Import ServiceStateExamples.

Definition names (l : list string) : RangeOrders := mkOrders l l l.

Definition probed (lb : LoadBalancer) : LoadBalancer * bool := (MarkAllHealthy lb, true).

Definition known (_ : string) : ContainerAnswer := ContainerFound.

Definition options_for (host : string) : SvcOptions :=
  mkSvcOptions [host] [] false "" "" "" true "" "" "" "" true 0 false []
    "" "" "" 0 0 [] 0 0 false "" "" [] [] [] [] GoFloat.f64_zero 0 [] [] [] "" 0 0 0 []
    (mkCompression [] 0 []) (mkCacheOptions false 0 0 [] [] false 0).

Definition deploy : Deployed :=
  DeployService (names ["app"]) 0 no_files digest known probed "app" ["web-1:3000;weight=2"; "web-2:3000"] []
    (options_for "a.example") plain_targets false NewRouter.

Definition up : Router := dpRouter deploy.

Lemma probed_steps lb : rtc LB.step lb (probed lb).1.
Proof. apply MarkAllHealthy_steps. Qed.

Lemma first_orders (s : Svc) : range_orders (<["app" := routed s]> (services (rtTable NewRouter))) (names ["app"]).
Proof.
  unfold range_orders, range_order. cbn. rewrite insert_empty, dom_singleton_L, elements_singleton. done.
Qed.

Lemma up_reachable : router_reachable up.
Proof.
  apply rtc_once. apply rs_deploy; [exact probed_steps|]. intros s _. apply first_orders.
Qed.

Lemma deploy_takes_effect_witness :
  dpResult deploy = Ok None ∧
  Routing.binds (services (rtTable up)) "a.example" "/" "app".
Proof.
  assert (Hd : dpResult deploy = Ok None) by (vm_compute; reflexivity). split; [exact Hd|].
  destruct (deploy_takes_effect (names ["app"]) 0 no_files digest known probed "app"
    ["web-1:3000;weight=2"; "web-2:3000"] [] (options_for "a.example") plain_targets false NewRouter None
    (rtc_refl _ _) probed_steps Hd) as [_ Hb].
  apply Hb. left. split; [reflexivity|]. split; vm_compute; constructor.
Defined.

Lemma router_consistent_witness :
  Routing.exclusive (services (rtTable up)) ∧ is_Some (snapshot ["app"] up).
Proof.
  destruct (router_consistent up up_reachable) as (He & _ & Hs). split; [exact He|].
  apply Hs. vm_compute. reflexivity.
Defined.

Definition build (s : Svc) : list SanCall * result ServiceError Svc :=
  initialize 0 no_files (NormalizeOptions (svOptions s)) (svTargetOptions s)
    (blankService (svName s) (NormalizeOptions (svOptions s)) (svTargetOptions s) false).

Definition builds (s : Svc) : bool := match (build s).2 with Ok _ => true | Err _ => false end.

Lemma builds_ok s : builds s = true → ∃ calls s1, build s = (calls, Ok s1).
Proof. unfold builds. destruct (build s) as [calls [s1|e]]; [by eauto|done]. Qed.

Lemma up_rebuildable : rebuildable 0 no_files up.
Proof.
  assert (Hall : map_Forall (λ _ s, builds s = true) (rtServices up)).
  { apply (bool_decide_unpack _). vm_compute. exact I. }
  intros n s Hs. exact (builds_ok s (Hall n s Hs)).
Qed.

Lemma restart_restores_witness :
  ∃ docs l, snapshot ["app"] up = Some docs ∧ restoreServices 0 no_files digest docs = Ok l ∧ length l = 1%nat.
Proof.
  destruct (restart_restores 0 no_files digest up ["app"] up_reachable up_rebuildable)
    as (docs & l & Hd & Hl & HF & _); [vm_compute; reflexivity|].
  exists docs, l. split; [exact Hd|]. split; [exact Hl|]. by apply Forall2_length in HF.
Defined.

Example served_after_deploy :
  fst <$> routeRequest up (mkRequest "GET" "a.example:443" "/x" "" "" false true "192.0.2.1:1" ∅ [] 0 None false false)
  = Some "app".
Proof. vm_compute. reflexivity. Qed.

Example stranger_has_no_certificate : GetCertificate up "other.example" = UnknownServerName.
Proof. vm_compute. reflexivity. Qed.

End RouterExamples.
