(* ===== verification/StateFile.v ===== *)
(** * The state file: [writeFileAtomic] of [internal/server/util.go], and
    saving and restoring in [internal/server/router.go]

    A disk has files, whose contents have reached it or not, and a directory of
    names for them.  The process can stop anywhere, and the machine can lose its
    power anywhere.  A process that stops leaves what it did.  A loss of power
    leaves of a file that was not synced anything, and of the directory any of
    the forms it has had since it last reached the disk: the code never syncs
    it, so that a rename that returned can be undone until the system happens to
    write the directory out.  Changes of the directory are taken to reach the
    disk in their order and a rename as a whole, as a journaling file system has
    it.  [encoding/json] is an argument, with the law that it reads back what it
    wrote. *)
From S2P Require Import Prelude GoStrings GoRegexp ServiceMap Target RateLimit SvcOptions Service ServiceState Router.

(** ** Disk *)

Record File := mkFile { fData : string; fSynced : bool }.

(** [dkOld]: the forms the directory has had since it last reached the disk. *)
Record Disk := mkDisk {
  dkFiles : gmap nat File;
  dkDir : gmap string nat;
  dkOld : list (gmap string nat) }.

Definition tmpOf (path : string) : string := path +:+ ".tmp".
Definition backupPath (path : string) : string := path +:+ ".bak".

(** What a program that opens the files by their names reads. *)
Definition contents (read : nat → option string) (dir : gmap string nat) : gmap string string := omap read dir.

Definition view (d : Disk) : gmap string string := contents (λ n, fData <$> dkFiles d !! n) (dkDir d).

(** What a loss of power leaves to be read. *)
Definition power_loss (d : Disk) (v : gmap string string) : Prop :=
  ∃ dir read, dir ∈ dkDir d :: dkOld d ∧
    (∀ n f, dkFiles d !! n = Some f → fSynced f = true → read n = Some (fData f)) ∧
    v = contents read dir.

Definition putFile (n : nat) (f : File) (d : Disk) : Disk := mkDisk (<[n := f]> (dkFiles d)) (dkDir d) (dkOld d).
Definition changeDir (dir : gmap string nat) (d : Disk) : Disk := mkDisk (dkFiles d) dir (dkDir d :: dkOld d).

(** The system writes the directory out. *)
Definition flushDir (d : Disk) : Disk := mkDisk (dkFiles d) (dkDir d) [].

(** ** Writing *)

(** Where a write is: [WDone ok] once it has returned. *)
Inductive WritePc := WOpen | WChmod | WWrite | WSync | WClose | WRename | WDone (ok : bool).

(** Opening truncates the temporary file an earlier write left, or makes one. *)
Inductive write_step (path data : string) : Disk * WritePc → Disk * WritePc → Prop :=
| ws_open d n : dkFiles d !! n = None → dkDir d !! tmpOf path = None →
    write_step path data (d, WOpen) (changeDir (<[tmpOf path := n]> (dkDir d)) (putFile n (mkFile "" false) d), WChmod)
| ws_truncate d n : dkDir d !! tmpOf path = Some n →
    write_step path data (d, WOpen) (putFile n (mkFile "" false) d, WChmod)
| ws_open_err d : write_step path data (d, WOpen) (d, WDone false)
| ws_chmod d : write_step path data (d, WChmod) (d, WWrite)
| ws_partial d n k : dkDir d !! tmpOf path = Some n →
    write_step path data (d, WWrite) (putFile n (mkFile (str_take k data) false) d, WWrite)
| ws_written d n : dkDir d !! tmpOf path = Some n →
    write_step path data (d, WWrite) (putFile n (mkFile data false) d, WSync)
| ws_sync d n : dkDir d !! tmpOf path = Some n →
    write_step path data (d, WSync) (putFile n (mkFile data true) d, WClose)
| ws_close d : write_step path data (d, WClose) (d, WRename)
| ws_rename d n : dkDir d !! tmpOf path = Some n →
    write_step path data (d, WRename) (changeDir (<[path := n]> (delete (tmpOf path) (dkDir d))) d, WDone true)
| ws_err d pc : pc = WChmod ∨ pc = WWrite ∨ pc = WSync ∨ pc = WClose ∨ pc = WRename →
    write_step path data (d, pc) (d, WDone false).

(** A write that nothing interrupts, as it is read. *)
Definition writeFileAtomic (path data : string) (v : gmap string string) : gmap string string :=
  <[path := data]> (delete (tmpOf path) v).

(** ** Saving, again and again *)

Inductive SaveEvent := EvSaved (data : string) | EvFailed | EvFlushed.

(** Writes of the file at [path], one at a time: what happened so far, the disk,
    and the write that is under way. *)
Inductive saves (path : string) (d0 : Disk) : list SaveEvent → Disk → option (string * WritePc) → Prop :=
| saves_start : saves path d0 [] d0 None
| saves_begin evs d data : saves path d0 evs d None → saves path d0 evs d (Some (data, WOpen))
| saves_step evs d data pc d' pc' :
    saves path d0 evs d (Some (data, pc)) → write_step path data (d, pc) (d', pc') →
    saves path d0 evs d' (Some (data, pc'))
| saves_done evs d data ok :
    saves path d0 evs d (Some (data, WDone ok)) →
    saves path d0 (evs ++ [if ok : bool then EvSaved data else EvFailed]) d None
| saves_flush evs d w : saves path d0 evs d w → saves path d0 (evs ++ [EvFlushed]) (flushDir d) w.

(** What a restart can find, the newest first: [old], and what was saved since
    the directory last reached the disk. *)
Definition found_after (l : list string) (ev : SaveEvent) : list string :=
  match ev with EvSaved data => data :: l | EvFailed => l | EvFlushed => take 1 l end.

Definition possible (old : string) (evs : list SaveEvent) : list string := foldl found_after [old] evs.

Definition lastSaved (old : string) (evs : list SaveEvent) : string :=
  foldl (λ x ev, match ev with EvSaved data => data | _ => x end) old evs.

(** A disk as a start finds it: the state file is there, no two names name the
    same file. *)
Record booted (path old : string) (d : Disk) : Prop := {
  bt_state : ∃ n, dkDir d !! path = Some n ∧ dkFiles d !! n = Some (mkFile old true);
  bt_linked p n : dkDir d !! p = Some n → is_Some (dkFiles d !! n);
  bt_names p q n : dkDir d !! p = Some n → dkDir d !! q = Some n → p = q;
  bt_flushed : dkOld d = [] }.

(** ** Restoring *)

Section file.
Context `{!SortFunc, !Regexp, !RateLimiter}.

(** [json.Marshal] of the services, and [json.Unmarshal] of the two forms a
    state file may have. *)
Class StateCodec := {
  marshalServices : list marshalledService → string;
  unmarshalServices : string → option (list marshalledService);
  unmarshalEnvelope : string → option (list marshalledService) }.

Class StateCodecSpec `{!StateCodec} := {
  codec_roundtrip l : unmarshalServices (marshalServices l) = Some l;
  codec_array l : ∃ rest, marshalServices l = String "[" rest }.

Context `{!StateCodec}.

Inductive StateError := BadState | BadService (e : ServiceError) | BadBoth (e e' : StateError).

(** [decodeStateServices]. *)
Definition decodeStateServices (now : Z) (files : HostFiles) (digest : string → string) (data : string)
  : result StateError (list Svc) :=
  let trimmed := trim_space_left (String.length data) data in
  let docs := match trimmed with
              | String c _ => if Ascii.eqb c "{" then unmarshalEnvelope trimmed else unmarshalServices trimmed
              | "" => unmarshalServices trimmed
              end in
  match docs with
  | None => Err BadState
  | Some docs => match restoreServices now files digest docs with Ok l => Ok l | Err e => Err (BadService e) end
  end.

(** [RestoreLastSavedState] and [restoreFromBackup], up to installing the
    services: the disk afterwards, and the services, [None] where there is no
    state.  [copied] and [repaired] tell whether the two writes got through;
    their failures are logged and ignored. *)
Definition restoreFromBackup (decode : string → result StateError (list Svc)) (repaired : bool) (path : string)
    (cause : StateError) (d : gmap string string) : gmap string string * result StateError (list Svc) :=
  match d !! backupPath path with
  | None => (d, Err cause)
  | Some b =>
      match decode b with
      | Err e => (d, Err (BadBoth cause e))
      | Ok l => (if repaired then writeFileAtomic path b d else d, Ok l)
      end
  end.

Definition RestoreLastSavedState (decode : string → result StateError (list Svc)) (copied repaired : bool)
    (path : string) (d : gmap string string) : gmap string string * result StateError (option (list Svc)) :=
  let d := delete (tmpOf path) d in
  match d !! path with
  | None => (d, Ok None)
  | Some f =>
      match decode f with
      | Ok l => (if copied then writeFileAtomic (backupPath path) f d else d, Ok (Some l))
      | Err e =>
          let '(d', x) := restoreFromBackup decode repaired path e d in
          (d', match x with Ok l => Ok (Some l) | Err e => Err e end)
      end
  end.

(** ** Lemmas *)

Lemma str_app_neq (path suffix : string) : suffix ≠ "" → path +:+ suffix ≠ path.
Proof.
  intros Hs Heq. apply Hs. apply (f_equal String.length) in Heq. rewrite str_length_app in Heq.
  destruct suffix; [done|]. cbn in Heq. lia.
Qed.

Lemma tmp_neq path : tmpOf path ≠ path.
Proof. by apply str_app_neq. Qed.

Lemma backup_neq path : backupPath path ≠ path.
Proof. by apply str_app_neq. Qed.

(** What is on disk decodes, so it is restored, and the backup becomes it. *)
Lemma restore_decodes decode copied repaired path d f l :
  d !! path = Some f → decode f = Ok l →
  (RestoreLastSavedState decode copied repaired path d).2 = Ok (Some l) ∧
  (copied = true →
     (RestoreLastSavedState decode copied repaired path d).1 !! backupPath path = Some f).
Proof.
  intros Hf Hd. unfold RestoreLastSavedState. rewrite lookup_delete_ne by apply tmp_neq.
  rewrite Hf, Hd. split; [done|]. intros ->. unfold writeFileAtomic. cbn. by rewrite lookup_insert_eq.
Qed.

(** The services a router saves are decoded to what their documents restore. *)
Lemma decode_saved `{!StateCodecSpec} now files digest docs :
  decodeStateServices now files digest (marshalServices docs) =
  match restoreServices now files digest docs with Ok l => Ok l | Err e => Err (BadService e) end.
Proof.
  destruct (codec_array docs) as [rest Hrest]. unfold decodeStateServices.
  assert (Htrim : trim_space_left (String.length (marshalServices docs)) (marshalServices docs) = marshalServices docs).
  { rewrite Hrest. reflexivity. }
  rewrite Htrim, codec_roundtrip. by rewrite Hrest.
Qed.

(** *** The invariant of saving *)

(** Also what is being saved, once it has been renamed into place. *)
Definition findable (old : string) (evs : list SaveEvent) (w : option (string * WritePc)) : list string :=
  match w with Some (data, WDone true) => data :: possible old evs | _ => possible old evs end.

Definition newest (old : string) (evs : list SaveEvent) (w : option (string * WritePc)) : string :=
  match w with Some (data, WDone true) => data | _ => lastSaved old evs end.

(** The temporary file that has been written and synced is renamed next. *)
Definition pc_ok (path : string) (d : Disk) (w : option (string * WritePc)) : Prop :=
  match w with
  | Some (data, (WClose | WRename)) => ∃ n, dkDir d !! tmpOf path = Some n ∧ dkFiles d !! n = Some (mkFile data true)
  | _ => True
  end.

Record save_inv (path old : string) (d0 : Disk) (evs : list SaveEvent) (d : Disk) (w : option (string * WritePc)) : Prop := {
  si_found dir : dir ∈ dkDir d :: dkOld d →
    ∃ n data, dir !! path = Some n ∧ dkFiles d !! n = Some (mkFile data true) ∧ data ∈ findable old evs w;
  si_newest : ∃ n, dkDir d !! path = Some n ∧ dkFiles d !! n = Some (mkFile (newest old evs w) true);
  si_private dir p n : dir ∈ dkDir d :: dkOld d → p ≠ tmpOf path → dkDir d !! tmpOf path = Some n → dir !! p ≠ Some n;
  si_linked dir p n : dir ∈ dkDir d :: dkOld d → dir !! p = Some n → is_Some (dkFiles d !! n);
  si_others dir p : dir ∈ dkDir d :: dkOld d → p ≠ path → p ≠ tmpOf path → dir !! p = dkDir d0 !! p;
  si_kept p n : p ≠ path → p ≠ tmpOf path → dkDir d0 !! p = Some n → dkFiles d !! n = dkFiles d0 !! n;
  si_pc : pc_ok path d w }.

Lemma save_inv_start path old d : booted path old d → save_inv path old d [] d None.
Proof.
  intros [(n & Hn & Hf) Hl Hi Ho].
  assert (Hd : ∀ dir, dir ∈ dkDir d :: dkOld d → dir = dkDir d) by (intros dir; rewrite Ho; apply list_elem_of_singleton).
  split; try done.
  - intros dir ->%Hd. exists n, old. split; [done|]. split; [done|]. by left.
  - by exists n.
  - intros dir p m ->%Hd Hp Ht Hm. by apply Hp, (Hi p (tmpOf path) m).
  - intros dir p m ->%Hd. apply Hl.
  - by intros dir p ->%Hd.
Qed.

(** The temporary file may be written to: no other name is its. *)
Lemma save_inv_put path old d0 evs d w w' n f :
  save_inv path old d0 evs d w → dkDir d !! tmpOf path = Some n →
  findable old evs w' = findable old evs w → newest old evs w' = newest old evs w →
  pc_ok path (putFile n f d) w' → save_inv path old d0 evs (putFile n f d) w'.
Proof.
  intros [h1 (m0 & h2 & h2') h3 h4 h5 h6 h7] Hn Hf Hw Hpc.
  assert (Hother : ∀ dir p m, dir ∈ dkDir d :: dkOld d → p ≠ tmpOf path → dir !! p = Some m → dkFiles (putFile n f d) !! m = dkFiles d !! m).
  { intros dir p m Hd Hp Hm. cbn. rewrite lookup_insert_ne; [done|]. intros ->. exact (h3 dir p m Hd Hp Hn Hm). }
  assert (Hpath : path ≠ tmpOf path) by (intros He; exact (tmp_neq path (eq_sym He))).
  split; try done.
  - intros dir Hd. destruct (h1 dir Hd) as (m & data & Hm & Hm' & Hin). exists m, data. split; [done|].
    rewrite Hf. by rewrite (Hother dir path m Hd Hpath Hm).
  - exists m0. split; [done|]. rewrite Hw. rewrite (Hother (dkDir d) path m0); [done|by left|done|done].
  - intros dir p m Hd Hm. cbn. destruct (decide (n = m)) as [->|Hne]; [rewrite lookup_insert_eq; by eexists|].
    rewrite lookup_insert_ne by done. by eapply h4.
  - intros p m Hp Ht Hm. rewrite <- (h6 p m Hp Ht Hm). apply (Hother (dkDir d) p m); [by left|done|].
    by rewrite (h5 (dkDir d) p) by (by left || done).
Qed.

(** A new temporary file. *)
Lemma save_inv_new path old d0 evs d data n f :
  save_inv path old d0 evs d (Some (data, WOpen)) → dkFiles d !! n = None → dkDir d !! tmpOf path = None →
  save_inv path old d0 evs (changeDir (<[tmpOf path := n]> (dkDir d)) (putFile n f d)) (Some (data, WChmod)).
Proof.
  intros [h1 (m0 & h2 & h2') h3 h4 h5 h6 h7] Hn Ht.
  assert (Hpath : path ≠ tmpOf path) by (intros He; exact (tmp_neq path (eq_sym He))).
  assert (Hf : ∀ m, is_Some (dkFiles d !! m) → <[n := f]> (dkFiles d) !! m = dkFiles d !! m).
  { intros m [x Hx]. rewrite lookup_insert_ne; [done|]. intros ->. congruence. }
  assert (Hdirs : ∀ dir, dir ∈ <[tmpOf path := n]> (dkDir d) :: dkDir d :: dkOld d →
    dir ∈ dkDir d :: dkOld d ∨ dir = <[tmpOf path := n]> (dkDir d)) by (intros dir [->|?]%elem_of_cons; [by right|by left]).
  assert (Hbase : dkDir d ∈ dkDir d :: dkOld d) by by left.
  split; cbn.
  - intros dir Hd. assert (Hd' : ∃ dir', dir' ∈ dkDir d :: dkOld d ∧ dir !! path = dir' !! path).
    { destruct (Hdirs dir Hd) as [?| ->]; [by exists dir|]. exists (dkDir d). by rewrite lookup_insert_ne. }
    destruct Hd' as (dir' & Hd' & ->). destruct (h1 dir' Hd') as (m & x & Hm & Hx & Hin).
    exists m, x. split; [done|]. rewrite Hf by (by eapply h4). done.
  - exists m0. rewrite lookup_insert_ne by done. split; [done|]. by rewrite Hf by (by eapply h4).
  - intros dir p m Hd Hp. rewrite lookup_insert_eq. intros [= <-] Hm.
    destruct (Hdirs dir Hd) as [Hd'| ->].
    + destruct (h4 dir p n Hd' Hm). congruence.
    + rewrite lookup_insert_ne in Hm by done. destruct (h4 (dkDir d) p n Hbase Hm). congruence.
  - intros dir p m Hd Hm. destruct (decide (m = n)) as [->|Hne]; [rewrite lookup_insert_eq; by eexists|].
    rewrite lookup_insert_ne by done. destruct (Hdirs dir Hd) as [Hd'| ->]; [by eapply h4|].
    destruct (decide (p = tmpOf path)) as [->|Hp]; [rewrite lookup_insert_eq in Hm; congruence|].
    rewrite lookup_insert_ne in Hm by done. by eapply h4.
  - intros dir p Hd Hp Hpt. destruct (Hdirs dir Hd) as [Hd'| ->]; [by apply h5|]. rewrite lookup_insert_ne by done. by apply h5.
  - intros p m Hp Hpt Hm. rewrite <- (h6 p m Hp Hpt Hm). apply Hf. apply (h4 (dkDir d) p m Hbase). by rewrite h5.
  - done.
Qed.

(** The temporary file takes the place of the state file. *)
Lemma save_inv_rename path old d0 evs d data n :
  save_inv path old d0 evs d (Some (data, WRename)) → dkDir d !! tmpOf path = Some n →
  save_inv path old d0 evs (changeDir (<[path := n]> (delete (tmpOf path) (dkDir d))) d) (Some (data, WDone true)).
Proof.
  intros [h1 (m0 & h2 & h2') h3 h4 h5 h6 (n' & Hn' & Hf)] Hn. assert (n' = n) as -> by congruence. clear Hn'.
  assert (Hpath : path ≠ tmpOf path) by (intros He; exact (tmp_neq path (eq_sym He))).
  set (dir1 := <[path := n]> (delete (tmpOf path) (dkDir d))).
  assert (Hbase : dkDir d ∈ dkDir d :: dkOld d) by by left.
  assert (Hdirs : ∀ dir, dir ∈ dir1 :: dkDir d :: dkOld d → dir ∈ dkDir d :: dkOld d ∨ dir = dir1)
    by (intros dir [->|?]%elem_of_cons; [by right|by left]).
  split; cbn; fold dir1.
  - intros dir [Hd| ->]%Hdirs.
    + destruct (h1 dir Hd) as (m & x & Hm & Hx & Hin). exists m, x. split; [done|]. split; [done|]. by right.
    + exists n, data. unfold dir1. rewrite lookup_insert_eq. split; [done|]. split; [done|]. by left.
  - exists n. unfold dir1. by rewrite lookup_insert_eq.
  - intros dir p m _ _. unfold dir1. by rewrite lookup_insert_ne, lookup_delete_eq.
  - intros dir p m [Hd| ->]%Hdirs Hm; [by eapply h4|]. unfold dir1 in Hm.
    apply lookup_insert_Some in Hm as [[<- <-]|[_ [_ Hm]%lookup_delete_Some]]; [by eexists|by eapply h4].
  - intros dir p [Hd| ->]%Hdirs Hp Hpt; [by apply h5|]. unfold dir1.
    rewrite lookup_insert_ne, lookup_delete_ne by done. by apply h5.
  - done.
  - done.
Qed.

Lemma save_inv_step path old d0 evs d data pc d' pc' :
  write_step path data (d, pc) (d', pc') → save_inv path old d0 evs d (Some (data, pc)) →
  save_inv path old d0 evs d' (Some (data, pc')).
Proof.
  intros Hstep Hinv. inversion Hstep; subst.
  - by apply save_inv_new.
  - by eapply save_inv_put.
  - by destruct Hinv.
  - by destruct Hinv.
  - by eapply save_inv_put.
  - by eapply save_inv_put.
  - eapply save_inv_put; [done..|]. cbn. eexists. split; [eassumption|]. by rewrite lookup_insert_eq.
  - by destruct Hinv.
  - by apply save_inv_rename.
  - destruct Hinv. split; try done; destruct_or!; by subst.
Qed.

Lemma possible_snoc old evs ev : possible old (evs ++ [ev]) = found_after (possible old evs) ev.
Proof. unfold possible. by rewrite foldl_snoc. Qed.

Lemma lastSaved_snoc old evs ev :
  lastSaved old (evs ++ [ev]) = match ev with EvSaved data => data | _ => lastSaved old evs end.
Proof. unfold lastSaved. by rewrite foldl_snoc. Qed.

(** The newest is the first that can be found. *)
Lemma possible_head old evs : ∃ l, possible old evs = lastSaved old evs :: l.
Proof.
  induction evs as [|ev evs [l IH]] using rev_ind; [by exists []|].
  rewrite possible_snoc, lastSaved_snoc, IH. destruct ev; cbn; eauto.
Qed.

Lemma save_inv_saves path old d0 evs d w : booted path old d0 → saves path d0 evs d w → save_inv path old d0 evs d w.
Proof.
  intros Hb. induction 1 as [|evs d data _ IH|evs d data pc d' pc' _ IH Hstep|evs d data ok _ IH|evs d w _ IH].
  - by apply save_inv_start.
  - by destruct IH.
  - by eapply save_inv_step.
  - destruct IH. split; try done; destruct ok; cbn in *; rewrite ?possible_snoc, ?lastSaved_snoc; done.
  - destruct IH as [h1 h2 h3 h4 h5 h6 h7].
    assert (Hd : ∀ dir, dir ∈ [dkDir d] → dir = dkDir d) by (intros dir; apply list_elem_of_singleton).
    assert (Hnew : newest old (evs ++ [EvFlushed]) w = newest old evs w).
    { unfold newest. rewrite lastSaved_snoc. by destruct w as [[? []]|]. }
    split; cbn.
    + intros dir ->%Hd. destruct h2 as (n & Hn & Hf). exists n, (newest old evs w). split; [done|]. split; [done|].
      destruct (possible_head old evs) as [l Hl].
      unfold findable, newest. rewrite possible_snoc, Hl. cbn. destruct w as [[x [| | | | | |[]]]|]; by left.
    + by rewrite Hnew.
    + intros dir p n ->%Hd. apply h3. by left.
    + intros dir p n ->%Hd. apply h4. by left.
    + intros dir p ->%Hd. apply h5. by left.
    + done.
    + by destruct w as [[x []]|].
Qed.

(** ** Theorems *)

(** C15: a stop never costs the state.  However often the state is saved, with
    writes that fail anywhere: when the process stops, in the middle of a write
    or not, the next start restores exactly what the last save that got to its
    rename wrote.  When the power goes, the next start restores, as a whole, the
    state of one of the saves since the directory last reached the disk, or of
    the last one before: an older state than the last that was saved can come
    back, since the directory is not synced, but never a torn or a mixed one,
    and none older than what was last written out.  Other files that were on
    disk are left as they were. *)
Theorem save_survives_crash decode copied repaired path old d0 evs d w :
  booted path old d0 → saves path d0 evs d w →
  (∀ data, data ∈ findable old evs w → ∃ l, decode data = Ok l) →
  (∃ l, decode (newest old evs w) = Ok l ∧ (RestoreLastSavedState decode copied repaired path (view d)).2 = Ok (Some l)) ∧
  ∀ v, power_loss d v →
    (∃ data l, data ∈ findable old evs w ∧ decode data = Ok l ∧ (RestoreLastSavedState decode copied repaired path v).2 = Ok (Some l)) ∧
    (∀ p n f, p ≠ path → p ≠ tmpOf path → dkDir d0 !! p = Some n → dkFiles d0 !! n = Some (mkFile f true) → v !! p = Some f).
Proof.
  intros Hb Hs Hdec. destruct (save_inv_saves path old d0 evs d w Hb Hs) as [h1 (n & Hn & Hf) h3 h4 h5 h6 _].
  assert (Hin : newest old evs w ∈ findable old evs w).
  { destruct (possible_head old evs) as [l Hl]. unfold newest, findable. rewrite Hl. destruct w as [[x [| | | | | |[]]]|]; by left. }
  split.
  - destruct (Hdec _ Hin) as [l Hl]. exists l. split; [done|]. eapply restore_decodes; [|exact Hl].
    unfold view, contents. rewrite lookup_omap, Hn. cbn. by rewrite Hf.
  - intros v (dir & read & Hdir & Hread & ->). split.
    + destruct (h1 dir Hdir) as (m & data & Hm & Hx & Hd). destruct (Hdec data Hd) as [l Hl].
      exists data, l. split; [done|]. split; [done|]. eapply restore_decodes; [|exact Hl].
      unfold contents. rewrite lookup_omap, Hm. cbn. exact (Hread m _ Hx eq_refl).
    + intros p m f Hp Hpt Hm Hx. unfold contents. rewrite lookup_omap, (h5 dir p Hdir Hp Hpt), Hm. cbn.
      refine (Hread m (mkFile f true) _ eq_refl). by rewrite (h6 p m Hp Hpt Hm).
Qed.

(** A write that nothing interrupts reads as [writeFileAtomic] has it. *)
Lemma write_completes path data old d0 evs d :
  booted path old d0 → saves path d0 evs d None →
  ∃ d', saves path d0 (evs ++ [EvSaved data]) d' None ∧ ∀ p, p ≠ tmpOf path → view d' !! p = writeFileAtomic path data (view d) !! p.
Proof.
  intros Hb Hs. pose proof (save_inv_saves path old d0 evs d None Hb Hs) as Hi.
  assert (Hopen : ∃ n d1, saves path d0 evs d1 (Some (data, WChmod)) ∧ dkDir d1 !! tmpOf path = Some n ∧
    ∀ p, p ≠ tmpOf path → dkDir d1 !! p = dkDir d !! p ∧ ∀ m, dkDir d !! p = Some m → m ≠ n ∧ dkFiles d1 !! m = dkFiles d !! m). {
    pose proof (saves_begin path d0 evs d data Hs) as Hbegin.
    destruct (dkDir d !! tmpOf path) as [n|] eqn:Ht.
    - exists n. eexists. split; [eapply saves_step; [exact Hbegin|by apply ws_truncate]|]. split; [done|].
      intros p Hp. split; [done|]. intros m Hm.
      assert (m ≠ n) by (intros ->; by apply (si_private _ _ _ _ _ _ Hi (dkDir d) p n); [left| | |]).
      split; [done|]. cbn. by rewrite lookup_insert_ne.
    - exists (fresh (dom (dkFiles d))).
      assert (Hn : dkFiles d !! fresh (dom (dkFiles d)) = None) by apply not_elem_of_dom, is_fresh.
      eexists. split; [eapply saves_step; [exact Hbegin|by apply ws_open]|]. split; [cbn; by rewrite lookup_insert_eq|].
      intros p Hp. split; [cbn; by rewrite lookup_insert_ne|]. intros m Hm.
      destruct (si_linked _ _ _ _ _ _ Hi (dkDir d) p m ltac:(by left) Hm) as [f Hf].
      assert (m ≠ fresh (dom (dkFiles d))) by congruence. split; [done|]. cbn. by rewrite lookup_insert_ne. }
  destruct Hopen as (n & d1 & Hch & Ht & Hother).
  eexists. split.
  { eapply (saves_done _ _ _ _ _ true).
    eapply saves_step; [|by eapply (ws_rename path data (putFile n (mkFile data true) (putFile n (mkFile data false) d1)) n)].
    eapply saves_step; [|apply ws_close]. eapply saves_step; [|by apply ws_sync]. eapply saves_step; [|by apply ws_written].
    eapply saves_step; [exact Hch|apply ws_chmod]. }
  intros p Hp. destruct (Hother p Hp) as [Hd Hm]. unfold view, writeFileAtomic, contents. rewrite lookup_omap. cbn.
  destruct (decide (p = path)) as [->|Hne].
  - rewrite !lookup_insert_eq. cbn. by rewrite lookup_insert_eq.
  - rewrite !(lookup_insert_ne _ path p), !lookup_delete_ne, lookup_omap, Hd by done.
    destruct (dkDir d !! p) as [m|]; [|done]. destruct (Hm m eq_refl) as [Hnm Hmm]. cbn.
    rewrite !lookup_insert_ne by done. by rewrite Hmm.
Qed.

(** A state file that cannot be read is replaced by the last one that
    could: once a start has restored some state, whatever bytes end up in the
    file later, a start that cannot decode them restores that state again, and
    repairs the file so that the next start needs no backup. *)
Theorem backup_recovers decode repaired path data l d torn :
  decode data = Ok l → d !! path = Some data →
  (∃ e, decode torn = Err e) →
  let d1 := (RestoreLastSavedState decode true repaired path d).1 in
  let d2 := <[path := torn]> d1 in
  (RestoreLastSavedState decode true true path d2).2 = Ok (Some l) ∧
  (RestoreLastSavedState decode true true path d2).1 !! path = Some data.
Proof.
  intros Hl Hd [e He] d1 d2.
  assert (Hbak : d2 !! backupPath path = Some data).
  { unfold d2. rewrite lookup_insert_ne by (by intros Heq; apply (backup_neq path)).
    by apply (restore_decodes decode true repaired path d data l). }
  assert (Htmp : backupPath path ≠ tmpOf path) by (by intros Heq%str_app_inv_l).
  unfold RestoreLastSavedState. rewrite lookup_delete_ne by apply tmp_neq.
  assert (Hp : d2 !! path = Some torn) by apply lookup_insert_eq. clearbody d2.
  rewrite Hp, He. unfold restoreFromBackup.
  rewrite lookup_delete_ne by done. rewrite Hbak, Hl. cbn.
  split; [done|]. unfold writeFileAtomic. by rewrite lookup_insert_eq.
Qed.

(** ** Concurrent saves *)

(** A save takes its snapshot before it waits for its turn to write; [pending]
    holds the snapshots taken and not yet written. *)
Record Saving := mkSaving {
  svCurrent : list marshalledService;
  svPending : gmap nat (list marshalledService);
  svDisk : gmap string string }.

Inductive save_step (path : string) (s : Saving) : Saving → Prop :=
| save_change l : save_step path s (mkSaving l (svPending s) (svDisk s))
| save_snapshot i : svPending s !! i = None →
    save_step path s (mkSaving (svCurrent s) (<[i := svCurrent s]> (svPending s)) (svDisk s))
| save_write i l : svPending s !! i = Some l →
    save_step path s (mkSaving (svCurrent s) (delete i (svPending s))
      (writeFileAtomic path (marshalServices l) (svDisk s))).

(** Two saves may write in the other order than they read: every save has
    returned, and the file holds the state before the last change. *)
Lemma save_race path a b d :
  ∃ s, rtc (save_step path) (mkSaving a ∅ d) s ∧ svCurrent s = b ∧ svPending s = ∅ ∧
    svDisk s !! path = Some (marshalServices a).
Proof.
  eexists. split.
  { eapply rtc_l; [apply (save_snapshot path _ 0%nat); reflexivity|].
    eapply rtc_l; [apply (save_change path _ b)|].
    eapply rtc_l; [apply (save_snapshot path _ 1%nat); reflexivity|].
    eapply rtc_l; [apply (save_write path _ 1%nat b); reflexivity|].
    eapply rtc_l; [apply (save_write path _ 0%nat a); reflexivity|]. apply rtc_refl. }
  cbn. split; [done|]. split; [by vm_compute|]. unfold writeFileAtomic. by rewrite lookup_insert_eq.
Qed.

End file.

Module StateFileExamples.

#[local] Existing Instance literal_regexp.
#[local] Existing Instance RateLimitExamples.exact_limiter.
#[local] Existing Instance insertion_SortFunc.

(** A stand-in for the codec: whatever starts with a bracket holds no service. *)
Definition decode (data : string) : result StateError (list Svc) :=
  if HasPrefix data "[" then Ok [] else Err BadState.

(** A start found the state as two spaces in brackets; the one in brackets with
    nothing between them was saved since, and the next save has half of its file
    written. *)
Definition start : Disk := mkDisk {[0%nat := mkFile "[  ]" true]} {["state" := 0%nat]} [].

Definition written : Disk :=
  putFile 1 (mkFile "[]" true) (putFile 1 (mkFile "[]" false)
    (changeDir (<[tmpOf "state" := 1%nat]> (dkDir start)) (putFile 1 (mkFile "" false) start))).

Definition once : Disk := changeDir (<["state" := 1%nat]> (delete (tmpOf "state") (dkDir written))) written.

Definition halfway : Disk :=
  putFile 2 (mkFile "[" false) (changeDir (<[tmpOf "state" := 2%nat]> (dkDir once)) (putFile 2 (mkFile "" false) once)).

Lemma start_booted : booted "state" "[  ]" start.
Proof.
  split; [by exists 0%nat| | |done].
  - intros p n. cbn. intros [_ <-]%lookup_singleton_Some. by eexists.
  - intros p q n. cbn. intros [<- _]%lookup_singleton_Some [<- _]%lookup_singleton_Some. done.
Qed.

Lemma once_saved : saves "state" start [EvSaved "[]"] once None.
Proof.
  apply (saves_done "state" start [] once "[]" true).
  eapply saves_step; [|apply (ws_rename _ _ written 1%nat); vm_compute; reflexivity].
  eapply saves_step; [|apply ws_close]. unfold written.
  eapply saves_step; [|apply ws_sync; vm_compute; reflexivity].
  eapply saves_step; [|apply ws_written; vm_compute; reflexivity].
  eapply saves_step; [|apply ws_chmod].
  eapply saves_step; [apply saves_begin, saves_start|].
  apply (ws_open _ _ start 1%nat); vm_compute; reflexivity.
Qed.

Lemma interrupted : saves "state" start [EvSaved "[]"] halfway (Some ("[ ]", WWrite)).
Proof.
  unfold halfway. change "[" with (str_take 1 "[ ]").
  eapply saves_step; [|apply ws_partial; vm_compute; reflexivity].
  eapply saves_step; [|apply ws_chmod].
  eapply saves_step; [apply saves_begin, once_saved|].
  apply (ws_open _ _ once 2%nat); vm_compute; reflexivity.
Qed.

(** The power goes, and the save that returned is undone. *)
Definition undone : gmap string string := {["state" := "[  ]"]}.

Lemma halfway_undone : power_loss halfway undone.
Proof.
  exists (dkDir start), (λ n, match n with 0%nat => Some "[  ]" | 1%nat => Some "[]" | _ => None end).
  split; [by do 3 right; left|]. split; [|vm_compute; reflexivity].
  intros n f. cbn. rewrite !lookup_insert_Some, lookup_singleton_Some. naive_solver.
Qed.

Lemma save_survives_crash_witness :
  (RestoreLastSavedState decode true true "state" (view halfway)).2 = Ok (Some []) ∧
  (RestoreLastSavedState decode true true "state" undone).2 = Ok (Some []).
Proof.
  destruct (save_survives_crash decode true true "state" "[  ]" start [EvSaved "[]"] halfway (Some ("[ ]", WWrite))
    start_booted interrupted) as [(l & Hl & Hr) Hloss].
  - intros data Hd. exists [].
    change (data ∈ ["[]"; "[  ]"]) in Hd. rewrite !elem_of_cons, elem_of_nil in Hd. by destruct Hd as [->|[->|[]]].
  - destruct (Hloss undone halfway_undone) as [(data & l' & Hd & Hl' & Hr') _].
    rewrite Hr, Hr'. unfold decode in Hl, Hl'.
    destruct (HasPrefix (newest _ _ _) "["); [|discriminate Hl]. destruct (HasPrefix data "["); [|discriminate Hl'].
    injection Hl as <-. injection Hl' as <-. split; reflexivity.
Defined.

Definition disk : gmap string string := {["state" := "[]"]}.

Lemma backup_recovers_witness :
  (RestoreLastSavedState decode true true "state"
     (<["state" := "{nam"]> (RestoreLastSavedState decode true true "state" disk).1)).2 = Ok (Some []).
Proof.
  apply (backup_recovers decode true "state" "[]" [] disk "{nam"); [reflexivity|reflexivity|].
  exists BadState. reflexivity.
Defined.

End StateFileExamples.
